(* ===== verification/_CoqProject ===== *)
-Q . S2P
Prelude.v
GoLib.v
GoHash.v
GoJSON.v
GoTime.v
GoHeap.v
Errors.v
DomainPath.v
DomainIDs.v
Versioned.v
StateStore.v
StateTheory.v
ObjectStore.v
ObjectMemory.v
FileTypes.v
DriveMemory.v
DriveTrash.v
DriveUpload.v
DriveTheory.v
DriveSums.v
DriveCopy.v
DriveOps.v
DriveEffects.v
DriveNamespace.v
DriveTransfer.v
DriveRoundtrip.v
DriveListing.v
DriveProps.v
DriveExamples.v
ObjectTheory.v
ObjectProps.v
DomainPage.v
DomainPageTheory.v
DomainTree.v
TreeTheory.v
TreeRead.v
TreeGroups.v
TreeWrite.v
TreeEdit.v
DomainPack.v
DomainHead.v
TransitionFormat.v
DomainSession.v
TreeStream.v
DomainProvider.v
DomainCatalog.v
StateRoute.v
DomainStore.v
EngineTransition.v
EngineState.v
EngineList.v
HeadTheory.v
RecordTheory.v
SessionLaws.v
PackTheory.v
SessionReader.v
IteratorTheory.v
StreamTheory.v
StreamProps.v
StoreLaws.v
StoreRead.v
StoreSpec.v
StoreCommit.v
StoreCatalog.v
StoreFold.v
StoreCompact.v
StoreMutate.v
StoreList.v
EngineSpec.v
TransitionTheory.v
EngineTheory.v
ListTheory.v
EngineProps.v
StoreProps.v
StoreWorld.v
EngineWorld.v
SessionProps.v
TreeExamples.v
StoreExamples.v
EngineExamples.v
