(* ===== verification/Prelude.v ===== *)
(** * EndlessFS: a verification development

    EndlessFS is a file store whose only database is an object store.  This
    library models its storage core, from the integrity encodings up to the
    consistency domains and the state engine on them, and the file system that
    the drive is specified by, and proves what the layers promise to each other.

    ** The program

    - [internal/domain] holds the vocabulary: errors, user paths, identifiers.
    - [internal/objectstore] is the contract of the object store: keys,
      conditional writes, listings, transfers.  [internal/objectstore/memory] is
      the reference backend with its HTTP data plane.
    - [internal/state] is the versioned key-value store with idempotent,
      atomic mutations.
    - [internal/provider/memory] is the reference storage provider, the drive
      itself: per user a live and a trash tree of directories and files,
      listings, copies, moves, deletions, the trash, batches, upload sessions
      and the capabilities through which bytes flow.
    - [internal/storageformat] fixes the stored documents: canonical JSON,
      digests, pages, packs, heads, outcomes, envelopes.
    - [internal/portable] builds consistency domains on the object store: an
      immutable copy-on-write tree of content-addressed pages
      ([domain_tree.go], [domain_tree_stream.go]), and a mutable head per domain
      that is replaced by conditional writes and carries a window of deltas over
      the tree ([domain_store.go]), with a catalog of the registered domains
      ([domain_catalog.go]).  The engine's state store ([state.go]) keeps every
      record in the domain its key routes to; a transaction over several domains
      is a two-phase transition ([state_transition009.go]), and a listing over
      several domains merges them into a tree of its own ([state_query.go],
      [namespace_projection.go]).

    A mutation of a domain validates its preconditions at a head, appends a
    delta and replaces the head if nobody else did; a full window is folded into
    a new tree, whose pages are packed into one object before the head refers to
    them.  Outcomes of mutations are recorded, so that a repeated mutation is
    answered and not applied again.  A transition stores a plan, locks every
    participant, stores a decision that is created once, and releases the locks
    with or without the changes; whoever meets a lock carries the transition on.

    ** The files

    Foundations:
    - [Prelude]: Go results, byte strings, orders and the list, map and sorting
      lemmas the rest shares, the tactics and hint databases.
    - [GoLib], [GoHash], [GoJSON], [GoTime]: what the source uses of Go and its
      library: integers at their width, Base64, UTF-8, state and error monads
      [GoM]; CRC-32C, MD5 and SHA-256, all executable (the components take the
      last two through classes, since no theorem depends on their inner
      structure); canonical JSON writers and readers; times as nanoseconds
      with their textual forms.  [GoHeap] is [container/heap] and its theory.
    - [Errors], [DomainPath], [DomainIDs]: [internal/domain].

    Stores:
    - [Versioned]: the interface between a versioned store and the theorem that
      a version has one winner, used by both stores below.
    - [StateStore] is [internal/state]; [StateTheory] its theorems.
    - [ObjectStore] is the contract, [ObjectMemory] the backend and the data
      plane; [ObjectTheory], [ObjectProps] their theorems.

    The drive:
    - [FileTypes] is the vocabulary of [internal/domain/storage.go] and its
      neighbours.  [DriveMemory] is the provider's state, listings, copies, moves
      and deletions ([memory.go], [operations.go], [directory_preparation.go]),
      [DriveTrash] the trash and the batches ([namespace.go]), [DriveUpload]
      uploads, downloads and the HTTP handlers ([transfer.go], [upload_*.go]).
    - [DriveTheory] relates the stored map of a scope to a tree of segments,
      [DriveSums] the recorded sums of directories to the files below them,
      [DriveCopy] and [DriveOps] the steps of a copy to grafting and pruning.
      [DriveEffects] states what each request does to the trees ([copy_outcome],
      [delete_outcome], [mkdir_outcome]); [DriveNamespace] and [DriveTransfer]
      prove that every request keeps [provider_ok] and forgets no answer
      ([safe]); [DriveRoundtrip] and [DriveListing] carry the trash and the
      paging of listings.  [DriveProps] holds the request relation [drive_step]
      and the claims, [DriveExamples] a drive on which they are applied, and
      three behaviours a caller would not expect.

    The page tree:
    - [DomainPage] is the page format of [storageformat]; [DomainPageTheory] its
      codec.  [DomainTree] is the pure part of [domain_tree.go], written against
      the class [PageStore]; [TreeTheory], [TreeRead], [TreeGroups],
      [TreeWrite], [TreeEdit] prove lookups, collections, splitting and apply
      against the laws [PageReadLaws] and [PageStoreLaws] of that class.
    - [DomainPack] and [DomainSession] are packs and the tree session; they
      discharge the laws in [SessionLaws], [PackTheory] and [SessionReader]
      for any backend that meets [BlobLaws].  [SessionProps] shows that the
      reference backend does and holds the session's own claims.
    - [TreeStream]: the iterator ([TreeIterator]) and the streaming builder
      ([TreeBuilder]) of [domain_tree_stream.go], and the heap merge of sorted
      trees ([TreeMerge]) of [namespace_projection.go].  [IteratorTheory] and
      [StreamTheory] are their theory, [StreamProps] carries it to sessions that
      drop their pages and holds the claims.

    The domain store:
    - [DomainHead]: heads, deltas, outcomes, snapshots, the catalog head,
      transition locks and envelopes, with validators and codecs; [HeadTheory]
      is their theory.
    - [DomainProvider]: the class of what the store runs on (object backend,
      clock, scheduler).  [DomainCatalog] is [domain_catalog.go] and
      [DomainStore] is [domain_store.go].
    - [StoreLaws] states what the store relies on of a provider which other
      processes share.  [StoreSpec] is the abstract domain: its state, its
      events and the relation to a stored head.  [StoreRead], [StoreCommit],
      [StoreCatalog], [StoreFold], [StoreCompact], [StoreMutate], [StoreList]
      relate the operations to it, and [StoreProps] holds the claims.
    - [StoreWorld]: a provider for which the laws hold.  [TreeExamples],
      [StoreExamples]: runs, and the witnesses of the claims.

    The state engine:
    - [TransitionFormat]: plans, decisions and state records
      ([transitions009.go], [state009.go]); [RecordTheory] is their codec theory.
    - [StateRoute]: the domain and the record type of a key ([state.go],
      [migration009.go]).  [EngineTransition] is [state_transition009.go],
      [EngineState] the reads and writes of [state.go], [EngineList] its listings
      with sealed cursors and [state_query.go].
    - [EngineSpec] extends the abstract runs to all domains at once ([spans],
      [acts]) and states what the engine relies on of its backend
      ([EngineLaws]); [TransitionTheory] relates transitions to the protocol
      ([protocol], [obeys], [carried_out]), [EngineTheory] the calls of the state
      store to changes of records ([follows], [settles]), [ListTheory] the pages
      of a listing to what the domains showed ([listed_at], [merged], [chunk]);
      [EngineProps] holds the claims.
    - [EngineWorld]: a provider that meets [EngineLaws], a cipher that meets
      [AEADLaws], and a provider whose heads can be unreadable; [EngineExamples]:
      runs over two domains, listings with writes between their pages, two
      executions that break a promise, and the witnesses.

    ** What the theorems show

    - Trees: reads return what the represented entries hold; apply and rebuild
      are map updates that leave older roots readable; pages are split within
      their bounds; a page is never accepted without its digest; a flushed tree
      is durable; an iterator enumerates a tree and ends; a tree built from a
      stream holds the stream, and its leaves are filled exactly to the limit of
      the encoding although it is never encoded to find out; merging sorted trees
      holds all their entries in order.
    - Domains: mutate, compact, freeze and unfreeze refine the steps of the
      abstract domain whatever other processes do between two calls and
      whatever responses are lost; get and list return what a domain held; head
      documents and listing snapshots are read back as written; after a
      compaction every mutation ID answers with the outcome that was live before,
      unless an expired entry of the expiry index names it, in which case
      [prune_drops_renewed_outcome] exhibits a live outcome that is lost.
    - Engine: reads, single writes, mutations and transactions of records refine
      changes of the values of their domains; running, resolving and collecting
      transitions follows the protocol of locks and decisions whatever other
      processes do; record values and routes round-trip.  A listing that is
      followed through its cursors shows one domain as it was at one moment
      ([listing_is_snapshot]), or each domain of the catalog as it was at a moment
      of the first call ([composite_listing]), in order and without gaps or
      repetitions, whatever is written between the pages.
      [transact_refuses_large_records] and [transact_reports_other_versions] state
      where the code departs from what a transaction promises; the examples
      [prepare_race_breaks_atomicity] and [blind_collection_strands_locks] are
      single executions that do.
    - Stores: exactly-once mutations, single winners per version, snapshot
      paging, resumable uploads and pinned downloads (byte for byte up to the
      16 MiB the backend materializes), metadata that matches the bytes, calls
      that fail without effect.
    - Drive: every provider reached by requests, where uploads are completed
      while their directories are there, holds trees with right sums and sessions
      with as many bytes as they confirmed; copying, moving, deleting and creating
      refine grafting and pruning of trees; a failed batch leaves no trace; an
      answered copy is answered the same way for ever; the trash gives back what
      it took; a listing that is followed to its end has every child once;
      a completed upload is the bytes of its session.  The examples
      [upload_orphaned] (an upload completed after its directory was deleted),
      [keyless_trash_conflicts] and [panicking_batch_not_atomic] are single
      executions that depart from this.
    - Paths: what [ParseUserPath] accepts and where [Join] departs from a
      single-segment join.

    ** How effects are modelled

    Operations are functions in the monad [GoM]: a state is passed on and an
    error is a value.  For the portable store the state is the provider, and a
    call may return a provider that other processes have changed in the
    meantime: [ProviderLaws] only bounds how.  The abstract runs [evolves]
    therefore interleave the steps of this process with quiet steps of others.
    The state of the drive is the provider in memory.  Most of its methods hold
    its lock from beginning to end, and a method is one step; several methods
    interleave between steps.  The methods of the trash, the batches, [AdmitUploads]
    and [UploadActions] take the lock several times, and the model runs each of
    them as one step too: what another request does between two parts of such a
    method is not covered.  The order in which Go ranges over a map is the class
    [MapOrder], with the law that it is some order of the entries; the clock is
    read once per call, and a panic is an error value that unwinds.  The code
    completes an upload without looking for its directory: the steps of
    [drive_step] that complete uploads are restricted to those whose directory is
    there ([lands]), which is what [drive_invariant] is about.

    ** Digests

    Where a conclusion depends on content addressing it is stated under a
    condition on the backend it is about, never on all strings: no two different
    pages stored in it share a digest ([collision_free]), and, for the snapshots
    that cursors name, no document stored in it shares a digest with a snapshot
    document that was offered to it ([documents_free]; the documents offered are
    a ghost of the provider, [offered]).  Both are decidable for a concrete
    provider, and the witnesses establish them by evaluation ([free_check],
    [documents_check]) before they conclude.  The key of a head is the digest of
    the domain's identifier, so the object at the key of one domain can be the
    head of another with the same digest: the loader refuses such a head
    ([misbound]), and the invariants say that an object found there is a well
    formed head of the domain or a head of another one ([foreign]).

    ** Fuel

    Loops over a tree are bounded by the level in the reference, which the page
    checks force to decrease, so their fuel is computed and never runs out
    (part of the read theorems).  The retry loops of the domain store are
    unbounded in the source; the model takes the number of retries as an
    argument, the theorems hold for every number, and running out of it is the
    error [nontermination], after which the head is still well formed.  The
    bounded retries of the engine (8 and 32 attempts) are those of the source.
    Helping a transition can meet the lock of another one; [depth] bounds that
    chain, in the same way.  The loops of the streaming builder and of the merge
    carry computed fuel that does not run out (part of their theorems), and so do
    the copying of a domain into a query and the visits of the catalog, for which
    [copy_fuel] with [shown_bound], and [visit_fuel], show that more fuel changes
    nothing.

    ** Not modelled

    Pure concurrency control inside one process (locks, worker pools), contexts,
    telemetry and cost accounting have no effect on results and are left out.
    [mutateMaterializedPrepared], the decoded-pack cache, the write gate and the
    namespace, checkpoint, migration and garbage-collection drivers above the
    domain store are not modelled: they are further clients of the operations
    modelled here, and the migrations read documents of released schemas that
    nothing else writes.  Unicode normalization, gzip, the cipher of the cursors
    and media type parsing are parameters, the first three with named laws.  The
    Google Cloud Storage adapter, the HTTP API, previews, authentication and the
    web interface are glue around other systems and are not modelled. *)

From Stdlib Require Import ZArith Lia.
From Stdlib Require Export Ascii.
From stdpp Require Export base numbers gmap strings sorting list.


(** ** Go results: a value or an error *)

Inductive result (E A : Type) : Type :=
| Ok (a : A)
| Err (e : E).
Arguments Ok {E A} a.
Arguments Err {E A} e.

Section Result.
Context {E : Type}.

#[export] Instance result_ret : MRet (result E) := fun A a => Ok a.
#[export] Instance result_bind : MBind (result E) := fun A B f m =>
  match m with Ok a => f a | Err e => Err e end.
#[export] Instance result_fmap : FMap (result E) := fun A B f m =>
  match m with Ok a => Ok (f a) | Err e => Err e end.

Lemma result_bind_Ok {A B} (m : result E A) (f : A → result E B) b :
  m ≫= f = Ok b ↔ ∃ a, m = Ok a ∧ f a = Ok b.
Proof. destruct m; simpl; naive_solver. Qed.

(** [guard_err c e] is the Go statement [if c { return e }]. *)
Definition guard_err (c : bool) (e : E) : result E unit :=
  if c then Err e else Ok tt.

Lemma guard_err_Ok c e u : guard_err c e = Ok u ↔ c = false.
Proof. destruct c, u; simpl; split; congruence. Qed.

(** The loop [for _, x := range l { if err := f(x); err != nil { return err } }]. *)
Fixpoint mapM_ {A} (f : A → result E unit) (l : list A) : result E unit :=
  match l with
  | [] => Ok tt
  | x :: l => match f x with Ok _ => mapM_ f l | Err e => Err e end
  end.

Lemma mapM_Ok {A} (f : A → result E unit) l :
  mapM_ f l = Ok tt ↔ Forall (λ x, f x = Ok tt) l.
Proof.
  induction l as [|x l IH]; simpl; [by split|].
  rewrite list.Forall_cons, <-IH. destruct (f x) as [[]|]; naive_solver.
Qed.

Definition is_Ok {A} (r : result E A) : bool := match r with Ok _ => true | Err _ => false end.
End Result.

(** ** Go byte strings

    A Go [string] or [[]byte] is a finite sequence of bytes.  Literals are
    written as Rocq strings and coerced; the empty string is [[]]. *)

Abbreviation gostring := (list ascii).

Definition bs (s : string) : gostring := String.list_ascii_of_string s.
Coercion bs : string >-> list.
Arguments bs s%_string.

Definition byte_val (c : ascii) : Z := Z.of_N (N_of_ascii c).
Definition byte_of (z : Z) : ascii := ascii_of_N (Z.to_N z).

Lemma byte_val_range c : (0 ≤ byte_val c < 256)%Z.
Proof.
  unfold byte_val. pose proof (N_ascii_bounded c) as H. lia.
Qed.

Lemma byte_of_val c : byte_of (byte_val c) = c.
Proof. unfold byte_of, byte_val. by rewrite N2Z.id, ascii_N_embedding. Qed.

Lemma byte_val_of z : (0 ≤ z < 256)%Z → byte_val (byte_of z) = z.
Proof. intros Hz. unfold byte_of, byte_val. rewrite N_ascii_embedding; lia. Qed.

#[export] Instance byte_val_inj : Inj (=) (=) byte_val.
Proof. intros a b Hab. by rewrite <-(byte_of_val a), <-(byte_of_val b), Hab. Qed.

(** *** Byte-lexicographic order, Go's [<] on strings *)

Fixpoint bytes_cmp (s t : gostring) : comparison :=
  match s, t with
  | [], [] => Eq
  | [], _ :: _ => Lt
  | _ :: _, [] => Gt
  | a :: s, b :: t =>
      match (byte_val a ?= byte_val b)%Z with
      | Eq => bytes_cmp s t
      | c => c
      end
  end.

Definition bytes_lt (s t : gostring) : Prop := bytes_cmp s t = Lt.
Definition bytes_le (s t : gostring) : Prop := bytes_cmp s t ≠ Gt.
Definition bytes_ltb (s t : gostring) : bool :=
  match bytes_cmp s t with Lt => true | _ => false end.
Definition bytes_leb (s t : gostring) : bool :=
  match bytes_cmp s t with Gt => false | _ => true end.

Declare Scope bytes_scope.
Delimit Scope bytes_scope with bytes.
Infix "<" := bytes_lt : bytes_scope.
Infix "≤" := bytes_le : bytes_scope.
Infix "<?" := bytes_ltb : bytes_scope.
Infix "<=?" := bytes_leb : bytes_scope.

Lemma bytes_cmp_refl s : bytes_cmp s s = Eq.
Proof. induction s; simpl; [done|]. by rewrite Z.compare_refl. Qed.

Lemma bytes_cmp_eq s t : bytes_cmp s t = Eq ↔ s = t.
Proof.
  split; [|intros ->; apply bytes_cmp_refl].
  revert t. induction s as [|a s IH]; intros [|b t]; simpl; try done.
  destruct (byte_val a ?= byte_val b)%Z eqn:E; try done.
  apply Z.compare_eq, byte_val_inj in E as ->. intros ->%IH. done.
Qed.

Lemma bytes_cmp_antisym s t : bytes_cmp t s = CompOpp (bytes_cmp s t).
Proof.
  revert t. induction s as [|a s IH]; intros [|b t]; simpl; try done.
  rewrite (Z.compare_antisym (byte_val a)).
  destruct (byte_val a ?= byte_val b)%Z; simpl; auto.
Qed.

Lemma bytes_cmp_trans s t u : bytes_cmp s t = Lt → bytes_cmp t u = Lt → bytes_cmp s u = Lt.
Proof.
  revert t u. induction s as [|a s IH]; intros [|b t] [|c u]; simpl; try done.
  destruct (Z.compare_spec (byte_val a) (byte_val b)) as [E|E|E],
    (Z.compare_spec (byte_val b) (byte_val c)) as [E'|E'|E'],
    (Z.compare_spec (byte_val a) (byte_val c)) as [E''|E''|E'']; try done; try lia.
  apply IH.
Qed.

#[export] Instance bytes_lt_strict : StrictOrder bytes_lt.
Proof.
  split.
  - intros s. unfold complement, bytes_lt. by rewrite bytes_cmp_refl.
  - intros s t u. apply bytes_cmp_trans.
Qed.

Lemma bytes_ltb_lt s t : bytes_ltb s t = true ↔ bytes_lt s t.
Proof. unfold bytes_ltb, bytes_lt. by destruct (bytes_cmp s t). Qed.

Lemma bytes_leb_le s t : bytes_leb s t = true ↔ bytes_le s t.
Proof. unfold bytes_leb, bytes_le. by destruct (bytes_cmp s t). Qed.

Lemma bytes_lt_nge s t : bytes_lt s t ↔ ¬ bytes_le t s.
Proof.
  unfold bytes_lt, bytes_le. rewrite (bytes_cmp_antisym s t).
  destruct (bytes_cmp s t); simpl; naive_solver.
Qed.

Lemma bytes_le_nlt s t : bytes_le s t ↔ ¬ bytes_lt t s.
Proof.
  unfold bytes_lt, bytes_le. rewrite (bytes_cmp_antisym s t).
  destruct (bytes_cmp s t); simpl; naive_solver.
Qed.

Lemma bytes_le_lt_eq s t : bytes_le s t ↔ bytes_lt s t ∨ s = t.
Proof.
  unfold bytes_lt, bytes_le. rewrite <-bytes_cmp_eq.
  destruct (bytes_cmp s t); naive_solver.
Qed.

Lemma bytes_trichotomy s t : bytes_lt s t ∨ s = t ∨ bytes_lt t s.
Proof.
  unfold bytes_lt. rewrite (bytes_cmp_antisym s t), <-bytes_cmp_eq.
  destruct (bytes_cmp s t); simpl; auto.
Qed.

#[export] Instance bytes_lt_dec : RelDecision bytes_lt.
Proof. intros s t. unfold bytes_lt. apply _. Defined.
#[export] Instance bytes_le_dec : RelDecision bytes_le.
Proof. intros s t. unfold bytes_le. apply _. Defined.

#[export] Instance bytes_le_po : PartialOrder bytes_le.
Proof.
  split; [split|].
  - intros s. apply bytes_le_lt_eq. by right.
  - intros s t u. rewrite !bytes_le_lt_eq. intros [?| ->] [?| ->]; auto.
    left. by trans t.
  - intros s t. rewrite !bytes_le_lt_eq. intros [Hst|?] [Hts|?]; auto.
    exfalso. apply (irreflexivity bytes_lt s). by trans t.
Qed.

#[export] Instance bytes_le_total : Total bytes_le.
Proof.
  intros s t. rewrite !bytes_le_lt_eq. destruct (bytes_trichotomy s t) as [|[]]; auto.
Qed.

Lemma bytes_lt_le_trans s t u : bytes_lt s t → bytes_le t u → bytes_lt s u.
Proof. rewrite bytes_le_lt_eq. intros ? [?| <-]; [by trans t|done]. Qed.

Lemma bytes_le_lt_trans s t u : bytes_le s t → bytes_lt t u → bytes_lt s u.
Proof. rewrite bytes_le_lt_eq. intros [?| ->] ?; [by trans t|done]. Qed.

Lemma bytes_lt_neq s t : bytes_lt s t → s ≠ t.
Proof. intros Hst ->. by apply (irreflexivity bytes_lt t). Qed.

Lemma bytes_lt_asym s t : bytes_lt s t → ¬ bytes_lt t s.
Proof. intros ??. apply (irreflexivity bytes_lt s). by trans t. Qed.

Lemma bytes_nil_le s : bytes_le [] s.
Proof. by destruct s. Qed.

Lemma bytes_lt_nil s : ¬ bytes_lt s [].
Proof. by destruct s. Qed.

Lemma bytes_app_cmp p s t : bytes_cmp (p ++ s) (p ++ t) = bytes_cmp s t.
Proof. induction p; simpl; [done|]. by rewrite Z.compare_refl. Qed.

(** ** Generic list facts *)

Lemma list_filter_all {A} (P : A → Prop) `{!∀ x, Decision (P x)} l :
  Forall P l → filter P l = l.
Proof. induction 1 as [|x l Hx Hl IH]; [done|]. by rewrite filter_cons_True, IH. Qed.

(** [sort.Strings]: byte order is total, so any correct sort gives this list. *)
Definition sort_Strings (l : list gostring) : list gostring := merge_sort bytes_le l.

(** *** Strictly increasing lists of strings *)

Lemma sorted_lt_NoDup l : StronglySorted bytes_lt l → NoDup l.
Proof.
  induction 1 as [|x l Hs IH Hall]; constructor; [|done].
  intros Hx. rewrite list.Forall_forall in Hall. apply (irreflexivity bytes_lt x). by apply Hall.
Qed.

Lemma sorted_le_lt l : StronglySorted bytes_le l → NoDup l → StronglySorted bytes_lt l.
Proof.
  induction 1 as [|x l Hs IH Hall]; intros Hnd; [constructor|].
  apply NoDup_cons in Hnd as [Hx Hnd]. constructor; [by apply IH|].
  apply list.Forall_forall. intros y Hy. rewrite list.Forall_forall in Hall.
  specialize (Hall y Hy). apply bytes_le_lt_eq in Hall as [?| ->]; done.
Qed.

Lemma sort_Strings_sorted l : NoDup l → StronglySorted bytes_lt (sort_Strings l).
Proof.
  intros Hl. apply sorted_le_lt; [apply (StronglySorted_merge_sort _)|].
  unfold sort_Strings. by rewrite merge_sort_Permutation.
Qed.

(** A strictly increasing list is determined by its elements. *)
Lemma sorted_lt_ext l k :
  StronglySorted bytes_lt l → StronglySorted bytes_lt k → (∀ x, x ∈ l ↔ x ∈ k) → l = k.
Proof.
  intros Hl Hk E. assert (AntiSymm (=) bytes_lt) by (intros s t ? Hts; by destruct (bytes_lt_asym s t)).
  apply (StronglySorted_unique bytes_lt); [done..|].
  apply NoDup_Permutation; [by apply sorted_lt_NoDup..|done].
Qed.

(** The same for items that are ordered by a key. *)
Lemma sorted_by_ext {A} (key : A → gostring) (l1 l2 : list A) :
  StronglySorted bytes_lt (map key l1) → StronglySorted bytes_lt (map key l2) → (∀ x, x ∈ l1 ↔ x ∈ l2) → l1 = l2.
Proof.
  revert l2. induction l1 as [|x l1 IH]; intros [|y l2] H1 H2 Hext; [done| | |].
  - destruct (not_elem_of_nil y). apply Hext. by left.
  - destruct (not_elem_of_nil x). apply Hext. by left.
  - inversion H1 as [|? ? S1 A1]; subst. inversion H2 as [|? ? S2 A2]; subst. rewrite Forall_map, list.Forall_forall in A1, A2.
    assert (x = y) as ->.
    { assert (x ∈ y :: l2) as Hx by (apply Hext; by left). assert (y ∈ x :: l1) as Hy by (apply Hext; by left).
      apply elem_of_cons in Hx as [?|Hx]; [done|]. apply elem_of_cons in Hy as [?|Hy]; [done|].
      destruct (irreflexivity bytes_lt (key x)). trans (key y); [by apply A1|by apply A2]. }
    f_equal. apply IH; [done|done|]. intros e. split; intros He.
    + assert (e ∈ y :: l2) as [->|?]%elem_of_cons; [apply Hext; by right| |done]. by destruct (irreflexivity bytes_lt (key y)); apply A1.
    + assert (e ∈ y :: l1) as [->|?]%elem_of_cons; [apply Hext; by right| |done]. by destruct (irreflexivity bytes_lt (key y)); apply A2.
Qed.

Lemma sorted_lt_app l x k :
  StronglySorted bytes_lt (l ++ x :: k) →
  Forall (λ y, bytes_lt y x) l ∧ Forall (bytes_lt x) k ∧ StronglySorted bytes_lt l ∧ StronglySorted bytes_lt k.
Proof.
  induction l as [|y l IH]; cbn; intros Hs; inversion Hs as [|? ? Hs' Hall]; subst.
  - split; [constructor|]. split; [done|]. split; [constructor|done].
  - destruct (IH Hs') as (H1 & H2 & H3 & H4). rewrite Forall_app, list.Forall_cons in Hall.
    destruct Hall as (Ha & Hx & _). split; [by constructor|]. split; [done|]. split; [by constructor|done].
Qed.

(** Mapping keys to optional items keeps the order of the keys. *)
Lemma omap_sorted_keys {B} (f : gostring → option B) (g : B → gostring) (l : list gostring) :
  (∀ k b, f k = Some b → g b = k) → StronglySorted bytes_lt l →
  StronglySorted bytes_lt (map g (omap f l)).
Proof.
  intros Hg Hs. induction Hs as [|k l Hs IH Hall]; [constructor|]. cbn.
  destruct (f k) as [b|] eqn:E; [|done]. cbn. constructor; [done|]. rewrite (Hg k b) by done.
  apply list.Forall_forall. intros k' (b' & -> & (k0 & Hk0 & Ef)%list_elem_of_omap)%list_elem_of_fmap.
  rewrite (Hg k0 b') by done. rewrite list.Forall_forall in Hall. by apply Hall.
Qed.

(** ** Machine integers *)

Definition MaxInt64 : Z := 9223372036854775807.
Definition MaxUint64 : Z := 18446744073709551615.
Definition u64 (z : Z) : Z := (z mod 2 ^ 64)%Z.

Lemma u64_range z : (0 ≤ u64 z ≤ MaxUint64)%Z.
Proof.
  unfold u64, MaxUint64. pose proof (Z.mod_pos_bound z (2 ^ 64) eq_refl). lia.
Qed.

Lemma u64_small z : (0 ≤ z ≤ MaxUint64)%Z → u64 z = z.
Proof. unfold u64, MaxUint64. intros. apply Z.mod_small. lia. Qed.

(** Two's-complement [int64] wrap-around. *)
Definition i64 (z : Z) : Z := ((z + 2 ^ 63) mod 2 ^ 64 - 2 ^ 63)%Z.

Lemma i64_small z : (- MaxInt64 - 1 ≤ z ≤ MaxInt64)%Z → i64 z = z.
Proof. unfold i64, MaxInt64. intros. rewrite Z.mod_small; lia. Qed.

Lemma i64_range z : (- MaxInt64 - 1 ≤ i64 z ≤ MaxInt64)%Z.
Proof. unfold i64, MaxInt64. pose proof (Z.mod_pos_bound (z + 2 ^ 63) (2 ^ 64) eq_refl). lia. Qed.

(** [len(s)] *)
Definition len {A} (s : list A) : Z := Z.of_nat (length s).

Lemma len_nonneg {A} (l : list A) : (0 ≤ len l)%Z.
Proof. unfold len. lia. Qed.

Lemma len_app {A} (l k : list A) : len (l ++ k) = (len l + len k)%Z.
Proof. unfold len. rewrite length_app. lia. Qed.

Lemma len_ge_nonempty {A} (l : list A) : (1 ≤ len l)%Z → l ≠ [].
Proof. intros Hl ->. unfold len in Hl. simpl in Hl. lia. Qed.

(** ** Stateful Go code: state passing with early error returns

    A method with receiver state [S] runs to a result and a new state; an
    error return keeps whatever the method had already written. *)

Definition GoM (S E A : Type) : Type := S → result E A * S.

Section GoM.
Context {S E : Type}.

#[export] Instance gom_ret : MRet (GoM S E) := fun A a s => (Ok a, s).
#[export] Instance gom_bind : MBind (GoM S E) := fun A B f m s =>
  match m s with
  | (Ok a, s') => f a s'
  | (Err e, s') => (Err e, s')
  end.

Definition get : GoM S E S := fun s => (Ok s, s).
Definition gets {A} (f : S → A) : GoM S E A := fun s => (Ok (f s), s).
Definition modify (f : S → S) : GoM S E unit := fun s => (Ok tt, f s).
Definition lift {A} (r : result E A) : GoM S E A := fun s => (r, s).
Definition throw {A} (e : E) : GoM S E A := fun s => (Err e, s).

(** [if c { return e }] *)
Definition throw_if (c : bool) (e : E) : GoM S E unit := lift (guard_err c e).

Lemma gom_bind_Ok {A B} (m : GoM S E A) (f : A → GoM S E B) s b s' :
  (m ≫= f) s = (Ok b, s') ↔ ∃ a s1, m s = (Ok a, s1) ∧ f a s1 = (Ok b, s').
Proof.
  unfold mbind, gom_bind. destruct (m s) as [[a|e] s1]; split.
  - intros ?. by exists a, s1.
  - by intros (a' & s1' & [= <- <-] & ?).
  - intros [=].
  - by intros (a' & s1' & [=] & ?).
Qed.

Lemma gom_bind_Err {A B} (m : GoM S E A) (f : A → GoM S E B) s e s' :
  (m ≫= f) s = (Err e, s') ↔
  m s = (Err e, s') ∨ ∃ a s1, m s = (Ok a, s1) ∧ f a s1 = (Err e, s').
Proof.
  unfold mbind, gom_bind. destruct (m s) as [[a|e1] s1]; split.
  - intros ?. right. by exists a, s1.
  - by intros [[=]|(a' & s1' & [= <- <-] & ?)].
  - intros [= -> ->]. by left.
  - by intros [[= -> ->]|(a' & s1' & [=] & ?)].
Qed.

Lemma lift_Ok {A} (r : result E A) (s : S) a s' : lift r s = (Ok a, s') ↔ r = Ok a ∧ s' = s.
Proof. unfold lift. split; [by intros [= -> ->]|by intros [-> ->]]. Qed.

Lemma throw_if_Ok c (e : E) (s : S) u s' : throw_if c e s = (Ok u, s') ↔ c = false ∧ s' = s.
Proof. unfold throw_if. rewrite lift_Ok, guard_err_Ok. done. Qed.

Lemma throw_if_Err c (e e' : E) (s s' : S) :
  throw_if c e s = (Err e', s') ↔ c = true ∧ e' = e ∧ s' = s.
Proof.
  unfold throw_if, lift, guard_err. destruct c; split; try done.
  - by intros [= -> ->].
  - by intros (_ & -> & ->).
  - intros (? & _). done.
Qed.

(** Stateful [for _, x := range l] whose body may return an error. *)
Fixpoint forM_ {A} (l : list A) (f : A → GoM S E unit) : GoM S E unit :=
  match l with
  | [] => mret tt
  | x :: l => _ ← f x; forM_ l f
  end.
End GoM.

(** A bind, whatever its outcome. *)
Lemma gom_bind_inv {S E A B} (m : GoM S E A) (f : A → GoM S E B) st x st' :
  (m ≫= f) st = (x, st') →
  ∃ y st1, m st = (y, st1) ∧
    match y with Ok a => f a st1 = (x, st') | Err e => x = Err e ∧ st' = st1 end.
Proof.
  unfold mbind, gom_bind. destruct (m st) as [[a|e] st1]; intros E1; eexists _, st1; (split; [done|]); [done|].
  by injection E1 as <- <-.
Qed.

Lemma lift_inv {S E A} (r : result E A) (st : S) y st1 : lift r st = (y, st1) → y = r ∧ st1 = st.
Proof. unfold lift. generalize r. by intros ? [= <- <-]. Qed.

(** One step of a computation whose first statement is pure. *)
Ltac pure_step E := apply gom_bind_inv in E as (? & ? & [-> ->]%lift_inv & E).

Lemma mret_inv {S E A} (a : A) (st : S) (x : result E A) st1 : (mret a : GoM S E A) st = (x, st1) → x = Ok a ∧ st1 = st.
Proof. generalize a. by intros ? [= <- <-]. Qed.

(** Unfold one [GoM]/[result] computation in a hypothesis that it succeeded. *)
Ltac inv_go :=
  repeat match goal with
  | H : (_ ≫= _) _ = (Ok _, _) |- _ =>
      apply gom_bind_Ok in H as (? & ? & ? & H)
  | H : lift _ _ = (Ok _, _) |- _ => apply lift_Ok in H as [? ->]
  | H : throw_if _ _ _ = (Ok _, _) |- _ => apply throw_if_Ok in H as [? ->]
  | H : mret _ _ = (Ok _, _) |- _ => injection H as ?; subst
  | H : gets _ _ = (Ok _, _) |- _ => injection H as ?; subst
  | H : get _ = (Ok _, _) |- _ => injection H as ?; subst
  | H : modify _ _ = (Ok _, _) |- _ => injection H as ?; subst
  | H : _ ≫= _ = Ok _ |- _ => apply result_bind_Ok in H as (? & ? & H)
  | H : guard_err _ _ = Ok _ |- _ => apply guard_err_Ok in H
  | H : throw _ _ = (Ok _, _) |- _ => discriminate H
  | H : (Err _, _) = (Ok _, _) |- _ => discriminate H
  | H : (Ok _, _) = (Ok _, _) |- _ => injection H as ?; subst
  end.

(** Symbolically executes the stateful code in the goal, one case per path;
    [unf] unfolds the component's own primitive operations. *)
Ltac exec_go_with unf :=
  repeat (unfold mbind, gom_bind, mret, gom_ret, throw_if, lift, gets, get, modify, throw, guard_err; unf;
          cbn [fst snd];
          match goal with
          | |- context [match ?x with _ => _ end] =>
              lazymatch x with
              | context [match _ with _ => _ end] => fail
              | _ => destruct x eqn:?
              end
          end);
  unfold mbind, gom_bind, mret, gom_ret, throw_if, lift, gets, get, modify, throw, guard_err; unf;
  cbn [fst snd].

Create HintDb endlessfs.
#[export] Hint Resolve byte_val_range u64_range bytes_nil_le : endlessfs.
