(* ===== verification/GoLib.v ===== *)
(** * Models of the Go standard library used by the sources

    [strings.Split]/[Join] on one-byte separators, [unicode/utf8] decoding,
    [unicode.IsControl]/[IsSpace], [strings.EqualFold] against an ASCII
    target, [encoding/base64.RawURLEncoding], [fmt]'s [%016x], decimal
    formatting and [sort.Search], each with the facts the components use. *)

From Stdlib Require Import ZArith Lia.
From S2P Require Import Prelude.

Open Scope Z_scope.

#[local] Ltac Zify.zify_post_hook ::= Z.to_euclidean_division_equations.

(** ** strings *)

Definition HasPrefix (s p : gostring) : bool := bool_decide (p `prefix_of` s).
Definition HasSuffix (s p : gostring) : bool := bool_decide (p `suffix_of` s).
Definition ContainsByte (s : gostring) (c : ascii) : bool := bool_decide (c ∈ s).

Definition slash : ascii := "/"%char.
Definition nul : ascii := byte_of 0.

(** [strings.Split(s, c)] for a one-byte separator. *)
Fixpoint split_on (c : ascii) (s : gostring) : list gostring :=
  match s with
  | [] => [[]]
  | x :: s =>
      if decide (x = c) then [] :: split_on c s
      else match split_on c s with
           | h :: t => (x :: h) :: t
           | [] => [[x]]
           end
  end.

(** [strings.Join(l, sep)] *)
Fixpoint join (sep : gostring) (l : list gostring) : gostring :=
  match l with
  | [] => []
  | [s] => s
  | s :: l => s ++ sep ++ join sep l
  end.

(** [strings.LastIndexByte], or [None] for -1. *)
Fixpoint last_index_byte (c : ascii) (s : gostring) : option nat :=
  match s with
  | [] => None
  | x :: s =>
      match last_index_byte c s with
      | Some i => Some (S i)
      | None => if decide (x = c) then Some 0%nat else None
      end
  end.

(** [strings.TrimSuffix], [strings.TrimPrefix] *)
Definition TrimPrefix (s p : gostring) : gostring :=
  if HasPrefix s p then drop (length p) s else s.
Definition TrimSuffix (s p : gostring) : gostring :=
  if HasSuffix s p then take (length s - length p) s else s.

Lemma split_on_nonempty c s : split_on c s ≠ [].
Proof. induction s as [|x s IH]; simpl; [done|]. case_decide; [done|]. by destruct (split_on c s). Qed.

Lemma join_split_on c s : join [c] (split_on c s) = s.
Proof.
  induction s as [|x s IH]; simpl; [done|].
  pose proof (split_on_nonempty c s) as Hne.
  destruct (split_on c s) as [|h t] eqn:E; [done|].
  case_decide as Hx; [subst x|]; simpl in *; [by rewrite IH|].
  destruct t; simpl in *; by rewrite IH.
Qed.

Lemma split_on_no_sep c s : Forall (λ p, c ∉ p) (split_on c s).
Proof.
  induction s as [|x s IH]; simpl; [repeat constructor; set_solver|].
  case_decide as Hx; [by constructor; [set_solver|]|].
  destruct (split_on c s) as [|h t]; [repeat constructor; set_solver|].
  apply list.Forall_cons in IH as [??]. constructor; [set_solver|done].
Qed.

Lemma split_on_notin c s : c ∉ s → split_on c s = [s].
Proof.
  induction s as [|x s IH]; simpl; [done|]. intros Hx.
  rewrite IH by set_solver. case_decide; [set_solver|done].
Qed.

Lemma split_on_app c s t : c ∉ s → split_on c (s ++ c :: t) = s :: split_on c t.
Proof.
  induction s as [|x s IH]; simpl; intros Hx.
  - by rewrite decide_True.
  - rewrite IH by set_solver. case_decide; [set_solver|done].
Qed.

Lemma split_on_join c l :
  l ≠ [] → Forall (λ p, c ∉ p) l → split_on c (join [c] l) = l.
Proof.
  induction l as [|s l IH]; [done|]. intros _ Hall.
  apply list.Forall_cons in Hall as [Hs Hl].
  destruct l as [|s' l]; [by apply split_on_notin|].
  change (join [c] (s :: s' :: l)) with (s ++ c :: join [c] (s' :: l)).
  rewrite split_on_app by done. by rewrite IH.
Qed.

Lemma join_cons sep s l : l ≠ [] → join sep (s :: l) = s ++ sep ++ join sep l.
Proof. by destruct l. Qed.

Lemma join_snoc sep s l : l ≠ [] → join sep (l ++ [s]) = join sep l ++ sep ++ s.
Proof.
  induction l as [|x l IH]; [done|]. intros _.
  destruct l as [|y l]; [done|].
  rewrite <-app_comm_cons, join_cons by (by destruct l).
  rewrite IH by done. rewrite (join_cons sep x (y :: l)) by done.
  by rewrite <-!(assoc_L (++)).
Qed.

Lemma split_on_snoc c s : split_on c (s ++ [c]) = split_on c s ++ [[]].
Proof.
  rewrite <-(split_on_join c (split_on c s ++ [[]])).
  - by rewrite join_snoc, join_split_on, app_nil_r by apply split_on_nonempty.
  - by destruct (split_on c s).
  - apply Forall_app. split; [apply split_on_no_sep|]. apply List.Forall_cons; [apply not_elem_of_nil|constructor].
Qed.

Lemma join_app sep l m :
  l ≠ [] → m ≠ [] → join sep (l ++ m) = join sep l ++ sep ++ join sep m.
Proof.
  intros Hl Hm. induction l as [|x l IH]; [done|].
  destruct l as [|y l]; [by apply (join_cons sep x m)|].
  rewrite <-app_comm_cons, join_cons by done. rewrite IH by done.
  rewrite (join_cons sep x (y :: l)) by done. by rewrite <-!(assoc_L (++)).
Qed.

Lemma join_inj c l l' :
  l ≠ [] → l' ≠ [] → Forall (λ p, c ∉ p) l → Forall (λ p, c ∉ p) l' →
  join [c] l = join [c] l' → l = l'.
Proof.
  intros Hl Hl' Hc Hc' E. by rewrite <-(split_on_join c l), E, split_on_join.
Qed.

(** A joined path extends another by whole components only. *)
Lemma join_prefix c l l' :
  l ≠ [] → l' ≠ [] → Forall (λ p, c ∉ p) l → Forall (λ p, c ∉ p) l' →
  (join [c] l ++ [c]) `prefix_of` join [c] l' ↔ ∃ m, m ≠ [] ∧ l' = l ++ m.
Proof.
  intros Hl Hl' Hc Hc'. split.
  - intros [k Ek]. exists (split_on c k). split; [apply split_on_nonempty|].
    apply (join_inj c); [done|by destruct l|done| |].
    { apply Forall_app. split; [done|apply split_on_no_sep]. }
    rewrite Ek, join_app by (done || apply split_on_nonempty).
    by rewrite join_split_on, <-(assoc_L (++)).
  - intros (m & Hm & ->). rewrite join_app by done. exists (join [c] m).
    by rewrite <-(assoc_L (++)).
Qed.

Lemma last_index_byte_None c s : last_index_byte c s = None ↔ c ∉ s.
Proof.
  induction s as [|x s IH]; simpl; [set_solver|].
  destruct (last_index_byte c s); [|case_decide]; set_solver.
Qed.

Lemma last_index_byte_app c s t :
  c ∉ t → last_index_byte c (s ++ c :: t) = Some (length s).
Proof.
  intros Ht. induction s as [|x s IH]; simpl.
  - apply last_index_byte_None in Ht as ->. by rewrite decide_True.
  - by rewrite IH.
Qed.

Lemma HasPrefix_spec s p : HasPrefix s p = true ↔ p `prefix_of` s.
Proof. apply bool_decide_eq_true. Qed.

(** ** unicode/utf8 *)

Definition RuneError : Z := 0xFFFD.

Definition in_range (lo hi : Z) (c : ascii) : bool :=
  (lo <=? byte_val c) && (byte_val c <=? hi).
Definition is_cont (c : ascii) : bool := in_range 0x80 0xBF c.

(** [utf8.DecodeRuneInString]: the first rune and its width in bytes; an
    invalid or truncated sequence is [(RuneError, 1)]. *)
Definition decode_rune (s : gostring) : Z * nat :=
  match s with
  | [] => (RuneError, 0%nat)
  | c0 :: s1 =>
      let v0 := byte_val c0 in
      if v0 <? 0x80 then (v0, 1%nat)
      else if in_range 0xC2 0xDF c0 then
        match s1 with
        | c1 :: _ =>
            if is_cont c1 then (v0 mod 32 * 64 + byte_val c1 mod 64, 2%nat)
            else (RuneError, 1%nat)
        | _ => (RuneError, 1%nat)
        end
      else if in_range 0xE0 0xEF c0 then
        match s1 with
        | c1 :: c2 :: _ =>
            let lo := if v0 =? 0xE0 then 0xA0 else 0x80 in
            let hi := if v0 =? 0xED then 0x9F else 0xBF in
            if in_range lo hi c1 && is_cont c2
            then (v0 mod 16 * 4096 + byte_val c1 mod 64 * 64 + byte_val c2 mod 64, 3%nat)
            else (RuneError, 1%nat)
        | _ => (RuneError, 1%nat)
        end
      else if in_range 0xF0 0xF4 c0 then
        match s1 with
        | c1 :: c2 :: c3 :: _ =>
            let lo := if v0 =? 0xF0 then 0x90 else 0x80 in
            let hi := if v0 =? 0xF4 then 0x8F else 0xBF in
            if in_range lo hi c1 && is_cont c2 && is_cont c3
            then (v0 mod 8 * 262144 + byte_val c1 mod 64 * 4096
                  + byte_val c2 mod 64 * 64 + byte_val c3 mod 64, 4%nat)
            else (RuneError, 1%nat)
        | _ => (RuneError, 1%nat)
        end
      else (RuneError, 1%nat)
  end.

(** [for _, r := range s]: the decoded runes with their widths. Every step
    consumes at least one byte, so [length s] steps exhaust [s]. *)
Fixpoint runes_fuel (n : nat) (s : gostring) : list (Z * nat) :=
  match n, s with
  | S n, _ :: _ => let r := decode_rune s in r :: runes_fuel n (drop (snd r) s)
  | _, _ => []
  end.
Definition runes (s : gostring) : list (Z * nat) := runes_fuel (length s) s.

Definition rune_ok (r : Z * nat) : bool :=
  negb ((fst r =? RuneError) && (snd r =? 1)%nat).

(** [utf8.ValidString] *)
Definition ValidString (s : gostring) : bool := forallb rune_ok (runes s).

(** [utf8.RuneCountInString] *)
Definition RuneCount (s : gostring) : Z := len (runes s).

Lemma decode_rune_size s : s ≠ [] → (1 ≤ snd (decode_rune s) ≤ length s)%nat.
Proof.
  destruct s as [|c0 s1]; [done|]. intros _. unfold decode_rune.
  repeat (case_match; simpl in *; try lia).
Qed.

Lemma runes_fuel_enough n s : (length s ≤ n)%nat → runes_fuel n s = runes s.
Proof.
  unfold runes. remember (length s) as m eqn:Hm.
  assert (length s ≤ m)%nat as Hle by lia. clear Hm. revert n s Hle.
  induction m as [|m IH]; intros n s Hm Hn.
  - destruct s; simpl in *; [by destruct n|lia].
  - destruct s as [|c s]; [by destruct n|].
    destruct n as [|n]; [lia|]. cbn [runes_fuel]. f_equal.
    pose proof (decode_rune_size (c :: s) ltac:(done)) as Hsz.
    apply IH; rewrite ?length_drop; simpl in *; lia.
Qed.

Lemma runes_cons c s :
  runes (c :: s) = decode_rune (c :: s) :: runes (drop (snd (decode_rune (c :: s))) (c :: s)).
Proof.
  unfold runes at 1. cbn [length runes_fuel]. f_equal.
  pose proof (decode_rune_size (c :: s) ltac:(done)) as Hsz.
  apply runes_fuel_enough. rewrite length_drop. simpl in *. lia.
Qed.

Definition is_ascii (s : gostring) : Prop := Forall (λ c, byte_val c < 0x80) s.

Lemma runes_ascii s : is_ascii s → runes s = map (λ c, (byte_val c, 1%nat)) s.
Proof.
  induction s as [|c s IH]; [done|]. intros [Hc Hs]%list.Forall_cons.
  rewrite runes_cons. assert (decode_rune (c :: s) = (byte_val c, 1%nat)) as ->.
  { unfold decode_rune. apply Z.ltb_lt in Hc. by rewrite Hc. }
  cbn [snd drop map]. rewrite drop_0. by rewrite IH.
Qed.

Lemma ValidString_ascii s : is_ascii s → ValidString s = true.
Proof.
  intros Hs. unfold ValidString. rewrite runes_ascii by done.
  induction Hs as [|c s Hc Hs IH]; [done|]. cbn [map forallb].
  rewrite IH, andb_true_r. unfold rune_ok, RuneError. cbn [fst snd].
  destruct (Z.eqb_spec (byte_val c) 0xFFFD); [lia|done].
Qed.

(** ** unicode *)

(** [unicode.IsControl]: category Cc. *)
Definition IsControl (r : Z) : bool := (r <? 0x20) || ((0x7F <=? r) && (r <? 0xA0)).

(** [unicode.IsSpace]: the White_Space property. *)
Definition IsSpace (r : Z) : bool :=
  ((0x09 <=? r) && (r <=? 0x0D)) || (r =? 0x20) || (r =? 0x85) || (r =? 0xA0)
  || (r =? 0x1680) || ((0x2000 <=? r) && (r <=? 0x200A)) || (r =? 0x2028)
  || (r =? 0x2029) || (r =? 0x202F) || (r =? 0x205F) || (r =? 0x3000).

(** [strings.EqualFold(s, t)] for an ASCII [t]. Simple case folding relates an
    ASCII letter to its other case, and additionally [k] to U+212A and [s] to
    U+017F. *)
Definition ascii_lower (v : Z) : Z := if (0x41 <=? v) && (v <=? 0x5A) then v + 32 else v.
Definition fold_rune (r : Z) : Z :=
  if r =? 0x212A then 0x6B else if r =? 0x17F then 0x73 else ascii_lower r.
Definition EqualFold_ascii (s t : gostring) : bool :=
  bool_decide (map (λ r, fold_rune (fst r)) (runes s) = map (λ c, ascii_lower (byte_val c)) t).

(** [strings.TrimSpace]: drop leading, then trailing, white-space runes. *)
Fixpoint trim_left_fuel (n : nat) (s : gostring) : gostring :=
  match n, s with
  | S n, _ :: _ =>
      let '(r, w) := decode_rune s in
      if IsSpace r then trim_left_fuel n (drop w s) else s
  | _, _ => s
  end.
(** The byte length of [s] up to the end of its last non-space rune. *)
Fixpoint trimmed_len (off keep : nat) (rs : list (Z * nat)) : nat :=
  match rs with
  | [] => keep
  | (r, w) :: rs =>
      trimmed_len (off + w) (if IsSpace r then keep else off + w)%nat rs
  end.
Definition TrimSpace (s : gostring) : gostring :=
  let l := trim_left_fuel (length s) s in take (trimmed_len 0 0 (runes l)) l.

(** ** encoding/base64: [RawURLEncoding] *)

Definition b64_char (z : Z) : ascii :=
  byte_of (if z <? 26 then 65 + z else if z <? 52 then 71 + z
           else if z <? 62 then z - 4 else if z =? 62 then 45 else 95).
Definition b64_val (c : ascii) : option Z :=
  let v := byte_val c in
  if in_range 65 90 c then Some (v - 65) else if in_range 97 122 c then Some (v - 71)
  else if in_range 48 57 c then Some (v + 4) else if v =? 45 then Some 62
  else if v =? 95 then Some 63 else None.

Fixpoint b64_encode (l : gostring) : gostring :=
  match l with
  | [] => []
  | [a] => let a := byte_val a in [b64_char (a / 4); b64_char (a mod 4 * 16)]
  | [a; b] =>
      let a := byte_val a in let b := byte_val b in
      [b64_char (a / 4); b64_char (a mod 4 * 16 + b / 16); b64_char (b mod 16 * 4)]
  | a :: b :: c :: l =>
      let a := byte_val a in let b := byte_val b in let c := byte_val c in
      b64_char (a / 4) :: b64_char (a mod 4 * 16 + b / 16)
      :: b64_char (b mod 16 * 4 + c / 64) :: b64_char (c mod 64) :: b64_encode l
  end.

Fixpoint b64_decode_digits (l : gostring) : option gostring :=
  match l with
  | [] => Some []
  | [_] => None
  | [w; x] =>
      w ← b64_val w; x ← b64_val x; Some [byte_of (w * 4 + x / 16)]
  | [w; x; y] =>
      w ← b64_val w; x ← b64_val x; y ← b64_val y;
      Some [byte_of (w * 4 + x / 16); byte_of (x mod 16 * 16 + y / 4)]
  | w :: x :: y :: z :: l =>
      w ← b64_val w; x ← b64_val x; y ← b64_val y; z ← b64_val z;
      r ← b64_decode_digits l;
      Some (byte_of (w * 4 + x / 16) :: byte_of (x mod 16 * 16 + y / 4)
            :: byte_of (y mod 4 * 64 + z) :: r)
  end.

(** The decoder skips carriage returns and newlines and, not being strict,
    ignores the unused low bits of the final digit. *)
Definition b64_skip (c : ascii) : Prop := byte_val c = 10 ∨ byte_val c = 13.
#[export] Instance b64_skip_dec c : Decision (b64_skip c).
Proof. unfold b64_skip. apply _. Defined.
Definition b64_decode (s : gostring) : option gostring :=
  b64_decode_digits (filter (λ c, ¬ b64_skip c) s).

Lemma b64_val_char z : 0 ≤ z < 64 → b64_val (b64_char z) = Some z.
Proof.
  intros Hz. assert (∃ n : nat, z = Z.of_nat n ∧ (n < 64)%nat) as (n & -> & Hn).
  { exists (Z.to_nat z). lia. }
  do 64 (destruct n as [|n]; [vm_compute; reflexivity|]). lia.
Qed.

(** The alphabet: letters, digits, [-] and [_]. *)
Definition b64_alphabet (c : ascii) : Prop := is_Some (b64_val c).

Lemma b64_char_alphabet z : 0 ≤ z < 64 → b64_alphabet (b64_char z).
Proof. intros Hz. unfold b64_alphabet. rewrite b64_val_char by done. by eexists. Qed.

Lemma triple_ind {A} (P : list A → Prop) :
  P [] → (∀ a, P [a]) → (∀ a b, P [a; b]) →
  (∀ a b c l, P l → P (a :: b :: c :: l)) → ∀ l, P l.
Proof.
  intros H0 H1 H2 H3. fix IH 1. intros [|a [|b [|c l]]]; [done|by apply H1|by apply H2|].
  apply H3, IH.
Qed.

Ltac b64_digits :=
  repeat match goal with c : ascii |- _ =>
    lazymatch goal with
    | _ : 0 ≤ byte_val c < 256 |- _ => fail
    | _ => pose proof (byte_val_range c)
    end end.

Lemma b64_decode_encode_digits l : b64_decode_digits (b64_encode l) = Some l.
Proof.
  induction l as [|a|a b|a b c l IH] using triple_ind; [done|..];
    b64_digits; cbn [b64_encode b64_decode_digits];
    rewrite !b64_val_char by lia; cbn [mbind option_bind]; [..|rewrite IH];
    cbn [mbind option_bind]; repeat f_equal;
    apply byte_val_inj; rewrite byte_val_of; lia.
Qed.

Lemma b64_encode_alphabet l : Forall b64_alphabet (b64_encode l).
Proof.
  induction l as [|a|a b|a b c l IH] using triple_ind; b64_digits; cbn [b64_encode];
    repeat first [apply List.Forall_cons | apply List.Forall_nil | apply b64_char_alphabet];
    try done; lia.
Qed.

Lemma b64_alphabet_noskip c : b64_alphabet c → ¬ b64_skip c.
Proof.
  intros [z Hz] [Hc|Hc]; unfold b64_val, in_range in Hz; rewrite Hc in Hz; vm_compute in Hz; done.
Qed.

Lemma b64_decode_encode l : b64_decode (b64_encode l) = Some l.
Proof.
  unfold b64_decode. rewrite list_filter_all; [apply b64_decode_encode_digits|].
  eapply list.Forall_impl; [apply b64_encode_alphabet|]. intros c Hc. by apply b64_alphabet_noskip.
Qed.

#[export] Instance b64_encode_inj : Inj (=) (=) b64_encode.
Proof.
  intros l l' E. pose proof (b64_decode_encode l) as H.
  rewrite E, b64_decode_encode in H. by injection H.
Qed.

Lemma b64_alphabet_not c d : b64_val c = None → b64_alphabet d → c ≠ d.
Proof. intros Hc [z Hz] ->. congruence. Qed.

Lemma b64_encode_notin c l : b64_val c = None → c ∉ b64_encode l.
Proof.
  intros Hc Hin. pose proof (b64_encode_alphabet l) as Hall.
  rewrite list.Forall_forall in Hall. by apply (b64_alphabet_not c c Hc); [apply Hall|].
Qed.

Lemma b64_encode_nil l : b64_encode l = [] ↔ l = [].
Proof. destruct l as [|a [|b [|c l]]]; split; simpl; intros; congruence. Qed.

(** A canonical encoding is one that re-encodes to itself. *)
Definition b64_canonical (s : gostring) : option gostring :=
  d ← b64_decode s; if decide (b64_encode d = s) then Some d else None.

Lemma b64_canonical_Some s d : b64_canonical s = Some d ↔ s = b64_encode d.
Proof.
  unfold b64_canonical. split.
  - destruct (b64_decode s) as [d'|]; simpl; [|done]. case_decide; congruence.
  - intros ->. rewrite b64_decode_encode. simpl. by rewrite decide_True.
Qed.

(** ** fmt and strconv *)

Definition hex_char (z : Z) : ascii := byte_of (if z <? 10 then 48 + z else 87 + z).

(** The low [n] hexadecimal digits of [z]; [fmt.Sprintf("%016x", z)] of a
    [uint64] is [hex_digits 16 z []]. *)
Fixpoint hex_digits (n : nat) (z : Z) (acc : gostring) : gostring :=
  match n with
  | O => acc
  | S n => hex_digits n (z / 16) (hex_char (z mod 16) :: acc)
  end.
Definition Sprintf_016x (z : Z) : gostring := hex_digits 16 z [].

(** [strconv.Itoa], [strconv.FormatInt(z, 10)], [fmt]'s [%d]. A number has at
    most as many decimal as binary digits, which bounds the loop. *)
Definition dec_char (z : Z) : ascii := byte_of (48 + z).
Fixpoint dec_digits (n : nat) (z : Z) (acc : gostring) : gostring :=
  match n with
  | O => acc
  | S n =>
      let acc := dec_char (z mod 10) :: acc in
      if z / 10 =? 0 then acc else dec_digits n (z / 10) acc
  end.
Definition Itoa (z : Z) : gostring :=
  if z <? 0 then "-" ++ dec_digits (S (Z.to_nat (Z.log2 (- z)))) (- z) []
  else dec_digits (S (Z.to_nat (Z.log2 z))) z [].

(** The value of a run of decimal digits. *)
Definition digit_val (c : ascii) : Z := byte_val c - 48.
Definition is_digit (c : ascii) : bool := in_range 48 57 c.
Definition dec_value (s : gostring) : Z := fold_left (λ a c, a * 10 + digit_val c) s 0.

Lemma dec_value_nonneg s : forallb is_digit s = true → 0 ≤ dec_value s.
Proof.
  unfold dec_value. assert (∀ a, 0 ≤ a → forallb is_digit s = true → 0 ≤ fold_left (λ a c, a * 10 + digit_val c) s a) as H.
  { induction s as [|c l IH]; cbn [forallb fold_left]; [done|].
    intros a Ha [Hc Hl]%andb_true_iff. apply IH; [|done].
    unfold is_digit, in_range, digit_val in *. apply andb_true_iff in Hc as [Hc%Z.leb_le _]. lia. }
  by apply H.
Qed.

Lemma dec_char_digit z : 0 ≤ z < 10 → is_digit (dec_char z) = true ∧ digit_val (dec_char z) = z.
Proof.
  intros Hz. unfold is_digit, digit_val, dec_char, in_range. rewrite byte_val_of by lia.
  split; [|lia]. apply andb_true_iff. split; apply Z.leb_le; lia.
Qed.

Lemma dec_digits_spec n z acc :
  0 ≤ z < 10 ^ Z.of_nat n →
  Forall (λ c, is_digit c = true) acc →
  Forall (λ c, is_digit c = true) (dec_digits n z acc) ∧
  fold_left (λ a c, a * 10 + digit_val c) (dec_digits n z acc) 0 =
  fold_left (λ a c, a * 10 + digit_val c) acc z.
Proof.
  revert z acc. induction n as [|n IH]; intros z acc Hz Hacc.
  - change (10 ^ Z.of_nat 0) with 1 in Hz. simpl. split; [done|]. f_equal. lia.
  - rewrite Nat2Z.inj_succ, Z.pow_succ_r in Hz by lia. cbn [dec_digits].
    destruct (dec_char_digit (z mod 10)) as [Hd Hv]; [lia|].
    destruct (Z.eqb_spec (z / 10) 0) as [E|E].
    + split; [by constructor|]. cbn [fold_left]. f_equal. lia.
    + destruct (IH (z / 10) (dec_char (z mod 10) :: acc)) as [H1 H2]; [lia|by constructor|].
      split; [done|]. rewrite H2. cbn [fold_left]. f_equal. lia.
Qed.

Lemma Itoa_spec z :
  0 ≤ z → Forall (λ c, is_digit c = true) (Itoa z) ∧ dec_value (Itoa z) = z ∧ Itoa z ≠ [].
Proof.
  intros Hz. unfold Itoa. destruct (Z.ltb_spec z 0); [lia|].
  assert (z < 10 ^ Z.of_nat (S (Z.to_nat (Z.log2 z)))) as Hb.
  { rewrite Nat2Z.inj_succ, Z2Nat.id by apply Z.log2_nonneg.
    destruct (decide (z = 0)) as [->|Hnz]; [done|].
    eapply Z.lt_le_trans; [apply Z.log2_spec; lia|].
    apply Z.pow_le_mono_l. lia. }
  destruct (dec_digits_spec _ z [] (conj Hz Hb)) as [H1 H2]; [done|].
  split; [done|]. split; [exact H2|]. cbn [dec_digits].
  case_match; [done|]. intros E. assert (length (dec_digits (Z.to_nat (Z.log2 z)) (z / 10)
    [dec_char (z mod 10)]) ≠ 0%nat) as Hl; [|by rewrite E in Hl].
  assert (∀ n y acc, acc ≠ [] → length (dec_digits n y acc) ≠ 0%nat) as Hn; [|by apply Hn].
  induction n as [|n IH]; intros y acc Ha; cbn [dec_digits]; [by destruct acc|].
  case_match; [done|]. by apply IH.
Qed.

Lemma hex_char_inj x y : 0 ≤ x < 16 → 0 ≤ y < 16 → hex_char x = hex_char y → x = y.
Proof.
  intros Hx Hy E. apply (f_equal byte_val) in E. unfold hex_char in E.
  destruct (Z.ltb_spec x 10), (Z.ltb_spec y 10); rewrite !byte_val_of in E; lia.
Qed.

Lemma hex_digits_app n z acc : hex_digits n z acc = hex_digits n z [] ++ acc.
Proof.
  revert z acc. induction n as [|n IH]; intros z acc; simpl; [done|].
  rewrite IH, (IH _ [_]). by rewrite <-(assoc_L (++)).
Qed.

Lemma hex_digits_length n z acc : length (hex_digits n z acc) = (n + length acc)%nat.
Proof. revert z acc. induction n as [|n IH]; intros z acc; simpl; [done|]. rewrite IH. simpl. lia. Qed.

Lemma hex_digits_inj n x y :
  0 ≤ x < 16 ^ Z.of_nat n → 0 ≤ y < 16 ^ Z.of_nat n →
  hex_digits n x [] = hex_digits n y [] → x = y.
Proof.
  revert x y. induction n as [|n IH]; intros x y Hx Hy.
  - change (16 ^ Z.of_nat 0) with 1 in *. intros _. lia.
  - rewrite Nat2Z.inj_succ, Z.pow_succ_r in Hx, Hy by lia.
    simpl. rewrite (hex_digits_app n (x / 16)), (hex_digits_app n (y / 16)).
    intros [E1 E2]%app_inj_2; [|done].
    apply IH in E1; [|lia..]. injection E2 as E2.
    apply hex_char_inj in E2; [|lia..]. lia.
Qed.

Lemma Sprintf_016x_inj x y :
  0 ≤ x ≤ MaxUint64 → 0 ≤ y ≤ MaxUint64 → Sprintf_016x x = Sprintf_016x y → x = y.
Proof.
  unfold MaxUint64. intros Hx Hy. apply hex_digits_inj;
    change (16 ^ Z.of_nat 16) with 18446744073709551616; lia.
Qed.

(** ** sort.Search: binary search for the least index where [f] holds *)

Fixpoint search_loop (fuel : nat) (f : nat → bool) (i j : nat) : nat :=
  match fuel with
  | O => i
  | S fuel =>
      if (i <? j)%nat then
        let h := ((i + j) / 2)%nat in
        if f h then search_loop fuel f i h else search_loop fuel f (S h) j
      else i
  end.
Definition Search (n : nat) (f : nat → bool) : nat := search_loop n f 0 n.

Lemma search_loop_spec fuel f i j :
  (j - i ≤ fuel)%nat → (i ≤ j)%nat →
  (∀ x y, (x ≤ y)%nat → (y < j)%nat → f x = true → f y = true) →
  (∀ x, (x < i)%nat → f x = false) →
  let r := search_loop fuel f i j in
  (i ≤ r ≤ j)%nat ∧ (∀ x, (x < r)%nat → f x = false) ∧ ((r < j)%nat → f r = true).
Proof.
  revert i j. induction fuel as [|fuel IH]; intros i j Hf Hij Hmono Hlow; cbn zeta; cbn [search_loop].
  - split; [lia|]. split; [done|lia].
  - destruct (Nat.ltb_spec i j) as [Hlt|Hge]; [|split; [lia|split; [done|lia]]].
    pose proof (Nat.div_mod_eq (i + j) 2) as Hd.
    pose proof (Nat.mod_upper_bound (i + j) 2 ltac:(lia)) as Hm.
    set (h := ((i + j) / 2)%nat) in *.
    destruct (f h) eqn:Eh.
    + destruct (IH i h) as (H1 & H2 & H3); [lia|lia| |done|].
      { intros x y ???. apply (Hmono x); [done|lia|done]. }
      split; [lia|]. split; [done|]. intros Hr.
      destruct (decide (search_loop fuel f i h = h)) as [->|Hne]; [done|]. apply H3. lia.
    + destruct (IH (S h) j) as (H1 & H2 & H3); [lia|lia|done| |].
      { intros x Hx. destruct (f x) eqn:Ex; [|done].
        rewrite <-Eh. symmetry. apply (Hmono x h); [lia|lia|done]. }
      split; [lia|]. split; done.
Qed.

(** ** UTF-8 text cut at an ASCII byte *)

Lemma in_range_ascii lo hi c : 0x80 ≤ lo → byte_val c < 0x80 → in_range lo hi c = false.
Proof. intros ??. unfold in_range. destruct (Z.leb_spec lo (byte_val c)); [lia|done]. Qed.

Lemma decode_rune_app_ascii s c t :
  s ≠ [] → byte_val c < 0x80 → decode_rune (s ++ c :: t) = decode_rune s.
Proof.
  intros Hs Hc.
  assert (∀ hi, in_range 0x80 hi c = false) as R1 by (intros; by apply in_range_ascii).
  assert (∀ hi, in_range 0x90 hi c = false) as R2 by (intros; by apply in_range_ascii).
  assert (∀ hi, in_range 0xA0 hi c = false) as R3 by (intros; by apply in_range_ascii).
  assert (∀ (b : bool) hi, in_range (if b then 0xA0 else 0x80) hi c = false) as R4
    by (intros []; auto).
  assert (∀ (b : bool) hi, in_range (if b then 0x90 else 0x80) hi c = false) as R5
    by (intros []; auto).
  destruct s as [|c0 [|c1 [|c2 [|c3 s]]]]; [done|..]; cbn [app decode_rune];
    unfold is_cont in *; rewrite ?R1, ?R4, ?R5, ?andb_false_r; try done;
    repeat case_match; done.
Qed.

Lemma runes_app_ascii s c t :
  byte_val c < 0x80 → runes (s ++ c :: t) = runes s ++ (byte_val c, 1%nat) :: runes t.
Proof.
  intros Hc. remember (length s) as n eqn:Hn. revert s Hn.
  induction n as [n IH] using lt_wf_ind. intros s Hn. destruct s as [|c0 s].
  - cbn [app]. rewrite runes_cons. assert (decode_rune (c :: t) = (byte_val c, 1%nat)) as ->.
    { unfold decode_rune. apply Z.ltb_lt in Hc. by rewrite Hc. }
    done.
  - rewrite (runes_cons c0 s). cbn [app]. rewrite runes_cons.
    change (c0 :: s ++ c :: t) with ((c0 :: s) ++ c :: t).
    rewrite decode_rune_app_ascii by done.
    pose proof (decode_rune_size (c0 :: s) ltac:(done)) as Hsz.
    rewrite drop_app_le by lia. simpl. f_equal. eapply IH; [|done].
    rewrite length_drop. simpl in *. lia.
Qed.

Lemma ValidString_app_ascii s c t :
  byte_val c < 0x80 → ValidString (s ++ c :: t) = ValidString s && ValidString t.
Proof.
  intros Hc. unfold ValidString. rewrite runes_app_ascii by done.
  rewrite forallb_app. cbn [forallb]. unfold rune_ok at 2, RuneError. cbn [fst snd].
  destruct (Z.eqb_spec (byte_val c) 0xFFFD); [lia|done].
Qed.

Lemma ValidString_join c l :
  byte_val c < 0x80 → ValidString (join [c] l) = forallb ValidString l.
Proof.
  intros Hc. induction l as [|s l IH]; [done|].
  destruct l as [|s' l]; [by cbn; rewrite andb_true_r|].
  change (join [c] (s :: s' :: l)) with (s ++ c :: join [c] (s' :: l)).
  rewrite ValidString_app_ascii by done. by rewrite IH.
Qed.

Lemma HasSuffix_snoc s c d : HasSuffix (s ++ [c]) [d] = bool_decide (c = d).
Proof.
  unfold HasSuffix. apply bool_decide_ext. split.
  - intros [k E]. by apply app_inj_tail in E as [_ ->].
  - intros ->. by exists s.
Qed.

(** ** [strconv.ParseInt(s, 10, 64)] *)

Definition ParseInt (s : gostring) : option Z :=
  let '(neg, digits) :=
    match s with
    | c :: rest => if bool_decide (c = "+"%char) then (false, rest)
                   else if bool_decide (c = "-"%char) then (true, rest) else (false, s)
    | [] => (false, s)
    end in
  if bool_decide (digits = []) || negb (forallb is_digit digits) then None
  else
    let v := dec_value digits in
    if neg then (if v <=? MaxInt64 + 1 then Some (- v) else None)
    else (if v <=? MaxInt64 then Some v else None).

Lemma ParseInt_Itoa z : 0 ≤ z ≤ MaxInt64 → ParseInt (Itoa z) = Some z.
Proof.
  intros Hz. destruct (Itoa_spec z) as (Hd & Hv & Hne); [lia|]. unfold ParseInt.
  destruct (Itoa z) as [|c rest] eqn:E; [done|].
  apply list.Forall_cons in Hd as Hd'. destruct Hd' as [Hc _].
  rewrite !bool_decide_eq_false_2 by (intros ->; done).
  assert (forallb is_digit (c :: rest) = true) as ->.
  { apply forallb_forall. intros x Hx. rewrite list.Forall_forall in Hd. apply Hd. by apply list_elem_of_In. }
  cbn [negb orb]. rewrite Hv. destruct (Z.leb_spec z MaxInt64); [done|lia].
Qed.

Lemma ParseInt_range s z : ParseInt s = Some z → - MaxInt64 - 1 ≤ z ≤ MaxInt64.
Proof.
  unfold ParseInt. set (p := match s with [] => _ | _ :: _ => _ end). destruct p as [neg digits].
  destruct (bool_decide (digits = []) || negb (forallb is_digit digits)) eqn:E; [done|].
  apply orb_false_iff in E as [_ E%negb_false_iff].
  assert (0 ≤ dec_value digits) as Hpos by (by apply dec_value_nonneg).
  unfold MaxInt64. destruct neg; case_match; intros [= <-]; lia.
Qed.

(** ** Loops over runes that admit only ASCII *)

Lemma decode_rune_ascii c s :
  fst (decode_rune (c :: s)) < 0x80 → byte_val c < 0x80 ∧ decode_rune (c :: s) = (byte_val c, 1%nat).
Proof.
  pose proof (byte_val_range c) as Hc. cbn [decode_rune].
  destruct (Z.ltb_spec (byte_val c) 0x80) as [|Hge]; [done|]. intros Hr. exfalso. revert Hr.
  unfold in_range, is_cont, RuneError.
  repeat (case_match; cbn [fst]; try lia);
    repeat match goal with
    | H : _ && _ = true |- _ => apply andb_true_iff in H as [? ?]
    | H : in_range _ _ _ = true |- _ => unfold in_range in H
    | H : (_ <=? _) = true |- _ => apply Z.leb_le in H
    | H : (_ =? _) = true |- _ => apply Z.eqb_eq in H
    | H : (_ =? _) = false |- _ => apply Z.eqb_neq in H
    end.
  all: try lia.
Qed.

Lemma runes_forallb_ascii (P : Z → bool) s :
  (∀ r, P r = true → r < 0x80) →
  forallb (λ r, P (fst r)) (runes s) = true ↔ Forall (λ c, P (byte_val c) = true) s.
Proof.
  intros HP. split.
  - induction s as [|c s IH]; [constructor|]. rewrite runes_cons. cbn [forallb].
    rewrite andb_true_iff. intros [Hc Hs].
    destruct (decode_rune_ascii c s) as [_ E]; [by apply HP|]. rewrite E in *. cbn [fst snd drop] in *.
    rewrite drop_0 in Hs. constructor; auto.
  - intros Hs. rewrite runes_ascii.
    + apply forallb_forall. intros r (c & <- & Hc)%in_map_iff. cbn.
      rewrite list.Forall_forall in Hs. apply Hs. by apply list_elem_of_In.
    + unfold is_ascii. eapply list.Forall_impl; [exact Hs|]. intros c Hc. by apply HP.
Qed.
