(* ===== verification/GoHash.v ===== *)
(** * Go standard library: the digests the code uses

    [crypto/sha256], [crypto/md5] and the Castagnoli [hash/crc32] as executable
    functions on byte strings.  The components take SHA-256 and MD5 through the
    classes [SHA256] and [MD5Sum], so that their theorems hold for any digest
    function; [sha256_Sum256] and [md5_Sum] are the instances for the real ones. *)

From Stdlib Require Import ZArith Lia.
From S2P Require Import Prelude GoLib.

Open Scope Z_scope.

(** [sha256.Sum256] as a slice of 32 bytes. *)
Class SHA256 := sha256 : gostring → gostring.
(** [md5.Sum] as a slice of 16 bytes. *)
Class MD5Sum := md5 : gostring → gostring.

(** [hex.EncodeToString] *)
Definition hex_encode (s : gostring) : gostring := concat (map (λ c, hex_digits 2 (byte_val c) []) s).

(** ** 32-bit words *)

Definition w32 (z : Z) : Z := Z.land z 0xFFFFFFFF.
Definition add32 (x y : Z) : Z := w32 (x + y).
Definition not32 (x : Z) : Z := Z.lxor x 0xFFFFFFFF.
Definition rotr32 (n x : Z) : Z := Z.lor (Z.shiftr x n) (w32 (Z.shiftl x (32 - n))).
Definition rotl32 (n x : Z) : Z := Z.lor (w32 (Z.shiftl x n)) (Z.shiftr x (32 - n)).

(** [binary.BigEndian] and [binary.LittleEndian] on [n] bytes. *)
Fixpoint put_be (n : nat) (z : Z) (acc : gostring) : gostring :=
  match n with
  | O => acc
  | S n => put_be n (z / 256) (byte_of (z mod 256) :: acc)
  end.
Definition put_le (n : nat) (z : Z) : gostring := reverse (put_be n z []).
Definition get_be (l : gostring) : Z := fold_left (λ a c, a * 256 + byte_val c) l 0.
Definition get_le (l : gostring) : Z := get_be (reverse l).

Fixpoint chunks {A} (fuel n : nat) (l : list A) : list (list A) :=
  match fuel, l with
  | S fuel, _ :: _ => take n l :: chunks fuel n (drop n l)
  | _, _ => []
  end.
Definition chunks_of {A} (n : nat) (l : list A) : list (list A) := chunks (length l) n l.

(** The Merkle-Damgard padding; [lenb] encodes the bit length in 8 bytes. *)
Definition md_pad (lenb : Z → gostring) (m : gostring) : gostring :=
  let zeros := (55 - len m) mod 64 in
  m ++ [byte_of 0x80] ++ replicate (Z.to_nat zeros) nul ++ lenb (len m * 8).

(** ** SHA-256 *)

(** The round constants and the initial state are the leading 32 bits of the
    fractional parts of the cube and square roots of the first primes. *)
Definition primes_upto (n : nat) : list Z :=
  map Z.of_nat (filter (λ p, forallb (λ d, negb (p mod d =? 0)%nat) (seq 2 (p - 2)) = true) (seq 2 (n - 1))).

(** The largest [r] below [2 ^ 40] with [r ^ e ≤ x], one bit at a time. *)
Definition integer_root (e x : Z) : Z :=
  fold_left (λ r i, let r' := r + 2 ^ Z.of_nat i in if r' ^ e <=? x then r' else r) (reverse (seq 0 40)) 0.

Definition root_fraction (e p : Z) : Z := integer_root e (p * 2 ^ (32 * e)) mod 2 ^ 32.

Definition sha256_K : list Z := Eval vm_compute in map (root_fraction 3) (primes_upto 311).
Definition sha256_H : list Z := Eval vm_compute in map (root_fraction 2) (primes_upto 19).

(** One step of the message schedule, on the last sixteen words, newest first. *)
Definition sha256_next (w : list Z) : Z :=
  let at_ i := nth (i - 1) w 0 in
  let s0 := let x := at_ 15%nat in Z.lxor (Z.lxor (rotr32 7 x) (rotr32 18 x)) (Z.shiftr x 3) in
  let s1 := let x := at_ 2%nat in Z.lxor (Z.lxor (rotr32 17 x) (rotr32 19 x)) (Z.shiftr x 10) in
  add32 (add32 (at_ 16%nat) s0) (add32 (at_ 7%nat) s1).

Fixpoint sha256_schedule (n : nat) (w : list Z) : list Z :=
  match n with
  | O => []
  | S n => let x := sha256_next w in x :: sha256_schedule n (x :: take 15 w)
  end.

Definition sha256_round (st : list Z) (kw : Z * Z) : list Z :=
  match st with
  | [a; b; c; d; e; f; g; h] =>
      let S1 := Z.lxor (Z.lxor (rotr32 6 e) (rotr32 11 e)) (rotr32 25 e) in
      let ch := Z.lxor (Z.land e f) (Z.land (not32 e) g) in
      let t1 := w32 (h + S1 + ch + fst kw + snd kw) in
      let S0 := Z.lxor (Z.lxor (rotr32 2 a) (rotr32 13 a)) (rotr32 22 a) in
      let maj := Z.lxor (Z.lxor (Z.land a b) (Z.land a c)) (Z.land b c) in
      [w32 (t1 + S0 + maj); a; b; c; add32 d t1; e; f; g]
  | _ => st
  end.

Definition sha256_block (st : list Z) (block : gostring) : list Z :=
  let w := map get_be (chunks_of 4 block) in
  let ws := w ++ sha256_schedule 48 (reverse w) in
  zip_with add32 st (fold_left sha256_round (zip sha256_K ws) st).

Definition sha256_Sum256 (m : gostring) : gostring :=
  concat (map (λ z, put_be 4 z [])
    (fold_left sha256_block (chunks_of 64 (md_pad (λ z, put_be 8 z []) m)) sha256_H)).

(** ** MD5 *)

Definition md5_T : list Z :=
  [0xd76aa478; 0xe8c7b756; 0x242070db; 0xc1bdceee; 0xf57c0faf; 0x4787c62a;
   0xa8304613; 0xfd469501; 0x698098d8; 0x8b44f7af; 0xffff5bb1; 0x895cd7be;
   0x6b901122; 0xfd987193; 0xa679438e; 0x49b40821; 0xf61e2562; 0xc040b340;
   0x265e5a51; 0xe9b6c7aa; 0xd62f105d; 0x02441453; 0xd8a1e681; 0xe7d3fbc8;
   0x21e1cde6; 0xc33707d6; 0xf4d50d87; 0x455a14ed; 0xa9e3e905; 0xfcefa3f8;
   0x676f02d9; 0x8d2a4c8a; 0xfffa3942; 0x8771f681; 0x6d9d6122; 0xfde5380c;
   0xa4beea44; 0x4bdecfa9; 0xf6bb4b60; 0xbebfbc70; 0x289b7ec6; 0xeaa127fa;
   0xd4ef3085; 0x04881d05; 0xd9d4d039; 0xe6db99e5; 0x1fa27cf8; 0xc4ac5665;
   0xf4292244; 0x432aff97; 0xab9423a7; 0xfc93a039; 0x655b59c3; 0x8f0ccc92;
   0xffeff47d; 0x85845dd1; 0x6fa87e4f; 0xfe2ce6e0; 0xa3014314; 0x4e0811a1;
   0xf7537e82; 0xbd3af235; 0x2ad7d2bb; 0xeb86d391].
Definition md5_S : list Z :=
  [7; 12; 17; 22; 7; 12; 17; 22; 7; 12; 17; 22; 7; 12; 17; 22; 5; 9; 14; 20; 5; 9; 14; 20; 5; 9; 14; 20; 5; 9; 14; 20; 4; 11; 16; 23; 4; 11; 16; 23; 4; 11; 16; 23; 4; 11; 16; 23; 6; 10; 15; 21; 6; 10; 15; 21; 6; 10; 15; 21; 6; 10; 15; 21].
Definition md5_G : list nat :=
  [0; 1; 2; 3; 4; 5; 6; 7; 8; 9; 10; 11; 12; 13; 14; 15; 1; 6; 11; 0; 5; 10; 15; 4; 9; 14; 3; 8; 13; 2; 7; 12; 5; 8; 11; 14; 1; 4; 7; 10; 13; 0; 3; 6; 9; 12; 15; 2; 0; 7; 14; 5; 12; 3; 10; 1; 8; 15; 6; 13; 4; 11; 2; 9]%nat.

Definition md5_round (x : list Z) (st : list Z) (r : nat * (Z * (Z * nat))) : list Z :=
  let '(i, (t, (s, g))) := r in
  match st with
  | [a; b; c; d] =>
      let f := if (i <? 16)%nat then Z.lor (Z.land b c) (Z.land (not32 b) d)
               else if (i <? 32)%nat then Z.lor (Z.land d b) (Z.land (not32 d) c)
               else if (i <? 48)%nat then Z.lxor (Z.lxor b c) d
               else Z.lxor c (Z.lor b (not32 d)) in
      [d; add32 b (rotl32 s (w32 (a + f + t + nth g x 0))); b; c]
  | _ => st
  end.

Definition md5_block (st : list Z) (block : gostring) : list Z :=
  let x := map get_le (chunks_of 4 block) in
  zip_with add32 st (fold_left (md5_round x) (zip (seq 0 64) (zip md5_T (zip md5_S md5_G))) st).

Definition md5_Sum (m : gostring) : gostring :=
  concat (map (put_le 4)
    (fold_left md5_block (chunks_of 64 (md_pad (put_le 8) m))
       [0x67452301; 0xefcdab89; 0x98badcfe; 0x10325476])).

(** ** CRC-32C, the reflected Castagnoli polynomial *)

Definition crc32c_bit (crc : Z) : Z :=
  if Z.odd crc then Z.lxor (Z.shiftr crc 1) 0x82F63B78 else Z.shiftr crc 1.
Definition crc32c_byte (crc : Z) (c : ascii) : Z :=
  Nat.iter 8 crc32c_bit (Z.lxor crc (byte_val c)).
(** [crc32.Checksum(data, crc32.MakeTable(crc32.Castagnoli))] *)
Definition crc32c_Checksum (data : gostring) : Z :=
  Z.lxor (fold_left crc32c_byte data 0xFFFFFFFF) 0xFFFFFFFF.

(** Published test vectors. *)
Example sha256_abc : hex_encode (sha256_Sum256 "abc") =
  bs "ba7816bf8f01cfea414140de5dae2223b00361a396177a9cb410ff61f20015ad".
Proof. vm_compute. reflexivity. Qed.
Example sha256_long : hex_encode (sha256_Sum256 "aaaaaaaaaaaaaaaaaaaaaaaaaaaaaaaaaaaaaaaaaaaaaaaaaaaaaaaaaaaaaaaaaaaaaa") =
  bs "6bd5e5034855a11241f0dee8fc72850ffd9955b28347a86428b5fa19119f6ad0".
Proof. vm_compute. reflexivity. Qed.
Example md5_abc : hex_encode (md5_Sum "abc") = bs "900150983cd24fb0d6963f7d28e17f72".
Proof. vm_compute. reflexivity. Qed.
Example crc32c_check : crc32c_Checksum "123456789" = 0xE3069283.
Proof. vm_compute. reflexivity. Qed.

(** ** Facts *)

Lemma put_be_length n z acc : length (put_be n z acc) = (n + length acc)%nat.
Proof. revert z acc. induction n as [|n IH]; intros z acc; [done|]. cbn [put_be]. rewrite IH. cbn. lia. Qed.

Lemma get_be_app l k : get_be (l ++ k) = get_be l * 256 ^ len k + get_be k.
Proof.
  unfold get_be. rewrite fold_left_app. generalize (fold_left (λ a c, a * 256 + byte_val c) l 0) as z.
  assert (∀ z, fold_left (λ a c, a * 256 + byte_val c) k z
    = z * 256 ^ len k + fold_left (λ a c, a * 256 + byte_val c) k 0) as Hk; [|intros z; apply Hk].
  induction k as [|c k IH]; intros z; [change (256 ^ len []) with 1; cbn; lia|]. cbn [fold_left]. rewrite (IH (z * 256 + _)), (IH (0 * 256 + _)).
  replace (len (c :: k)) with (len k + 1) by (unfold len; cbn; lia).
  rewrite Z.pow_add_r by (try apply len_nonneg; lia). lia.
Qed.

Lemma put_be_app n z acc : put_be n z acc = put_be n z [] ++ acc.
Proof.
  revert z acc. induction n as [|n IH]; intros z acc; [done|]. cbn [put_be].
  rewrite IH, (IH _ [_]), <-(assoc_L (++)). done.
Qed.

Lemma get_put_be n z : 0 ≤ z < 256 ^ Z.of_nat n → get_be (put_be n z []) = z.
Proof.
  revert z. induction n as [|n IH]; intros z Hz.
  { change (256 ^ Z.of_nat 0) with 1 in Hz. cbn. lia. }
  cbn [put_be]. rewrite put_be_app, get_be_app.
  rewrite Nat2Z.inj_succ, Z.pow_succ_r in Hz by lia.
  rewrite IH by (split; [apply Z.div_pos; lia|apply Z.div_lt_upper_bound; lia]).
  change (256 ^ len [byte_of (z mod 256)]) with 256. unfold get_be; cbn [fold_left].
  rewrite byte_val_of by (apply Z.mod_pos_bound; lia). pose proof (Z.div_mod z 256 ltac:(lia)). lia.
Qed.

Lemma put_get_be l : put_be (length l) (get_be l) [] = l.
Proof.
  induction l as [|c l IH] using rev_ind; [done|].
  rewrite length_app, Nat.add_1_r, get_be_app. cbn [put_be].
  pose proof (byte_val_range c).
  replace (get_be [c]) with (byte_val c) by (cbn; lia). change (256 ^ len [c]) with 256.
  rewrite Z.div_add_l, (Z.div_small (byte_val c)), Z.add_0_r by lia.
  rewrite (Z.add_comm _ (byte_val c)), Z.mod_add, Z.mod_small, byte_of_val by lia.
  by rewrite put_be_app, IH.
Qed.

Lemma get_be_range l : 0 ≤ get_be l < 256 ^ len l.
Proof.
  induction l as [|c l IH] using rev_ind; [change (256 ^ len []) with 1; cbn; lia|].
  rewrite get_be_app, len_app. pose proof (byte_val_range c).
  replace (get_be [c]) with (byte_val c) by (cbn; lia). change (len [c]) with 1.
  rewrite Z.pow_add_r by (try apply len_nonneg; lia). change (256 ^ 1) with 256. lia.
Qed.

Lemma hex_encode_length s : length (hex_encode s) = (2 * length s)%nat.
Proof. unfold hex_encode. induction s as [|c s IH]; [done|]. cbn [map concat]. rewrite length_app, IH, hex_digits_length. change (length (c :: s)) with (S (length s)). change (length []) with 0%nat. lia. Qed.

Lemma hex_encode_inj s t : hex_encode s = hex_encode t → s = t.
Proof.
  revert t. induction s as [|c s IH]; intros [|d t]; unfold hex_encode in *; cbn [map concat]; try done.
  intros E. apply app_inj_1 in E as [E1 E2]; [|by rewrite !hex_digits_length].
  apply hex_digits_inj in E1; [|apply (byte_val_range c)|apply (byte_val_range d)].
  apply byte_val_inj in E1 as ->. by rewrite (IH t).
Qed.

(** SHA-256 digests have 32 bytes. *)
Class SHA256Laws `{SHA256} : Prop := sha256_length s : length (sha256 s) = 32%nat.

Lemma sha256_round_length st kw : length st = 8%nat → length (sha256_round st kw) = 8%nat.
Proof. destruct st as [|a [|b [|c [|d [|e [|f [|g [|h []]]]]]]]]; done. Qed.

Lemma sha256_rounds_length l st : length st = 8%nat → length (fold_left sha256_round l st) = 8%nat.
Proof. revert st. induction l as [|x l IH]; intros st Hst; [done|]. cbn. by apply IH, sha256_round_length. Qed.

Lemma sha256_block_length st block : length st = 8%nat → length (sha256_block st block) = 8%nat.
Proof.
  intros Hst. unfold sha256_block. rewrite length_zip_with, sha256_rounds_length by done. by rewrite Hst.
Qed.

Lemma sha256_Sum256_length m : length (sha256_Sum256 m) = 32%nat.
Proof.
  unfold sha256_Sum256. set (blocks := chunks_of 64 _).
  assert (∀ l st, length st = 8%nat → length (fold_left sha256_block l st) = 8%nat) as Hf.
  { induction l as [|x l IH]; intros st Hst; [done|]. cbn. by apply IH, sha256_block_length. }
  specialize (Hf blocks sha256_H eq_refl).
  destruct (fold_left sha256_block blocks sha256_H) as [|a [|b [|c [|d [|e [|f [|g [|h []]]]]]]]]; try done.
Qed.

Lemma sha256_real_laws : @SHA256Laws sha256_Sum256.
Proof. exact sha256_Sum256_length. Qed.
