(* ===== verification/GoJSON.v ===== *)
(** * encoding/json as the sources use it

    The compact encoder for strings, byte slices, unsigned numbers, booleans,
    objects and arrays, and a reader for the text it produces.  The sources
    accept a stored body only when re-encoding the decoded value gives the same
    bytes, so a reader that inverts the encoder decides the same language. *)

From Stdlib Require Import ZArith Lia.
From S2P Require Import Prelude GoLib.

Open Scope Z_scope.

#[local] Ltac Zify.zify_post_hook ::= Z.to_euclidean_division_equations.

Definition dquote : ascii := byte_of 34.
Definition backslash : ascii := byte_of 92.

(** ** Encoding *)

Definition hex4 (z : Z) : gostring := hex_digits 4 z [].
Definition u_escape (z : Z) : gostring := backslash :: byte_of 117 :: hex4 z.

(** One ASCII byte; [html] is [SetEscapeHTML], the default of [json.Marshal]. *)
Definition esc_ascii (html : bool) (c : ascii) : gostring :=
  let v := byte_val c in
  if v =? 34 then [backslash; dquote]
  else if v =? 92 then [backslash; backslash]
  else if v =? 8 then [backslash; byte_of 98]
  else if v =? 12 then [backslash; byte_of 102]
  else if v =? 10 then [backslash; byte_of 110]
  else if v =? 13 then [backslash; byte_of 114]
  else if v =? 9 then [backslash; byte_of 116]
  else if v <? 32 then u_escape v
  else if html && ((v =? 60) || (v =? 62) || (v =? 38)) then u_escape v
  else [c].

Fixpoint escape_fuel (n : nat) (html : bool) (s : gostring) : gostring :=
  match n, s with
  | S n, c :: s' =>
      if byte_val c <? 0x80 then esc_ascii html c ++ escape_fuel n html s'
      else
        let '(r, w) := decode_rune s in
        if (w =? 1)%nat then u_escape RuneError ++ escape_fuel n html s'
        else if (r =? 0x2028) || (r =? 0x2029) then u_escape r ++ escape_fuel n html (drop w s)
        else take w s ++ escape_fuel n html (drop w s)
  | _, _ => []
  end.

Definition json_quote (s : gostring) : gostring := dquote :: s ++ [dquote].
Definition json_string (html : bool) (s : gostring) : gostring :=
  json_quote (escape_fuel (length s) html s).

(** [[]byte]: standard padded base64, and [null] for an empty slice (every
    empty slice the sources encode is nil). *)
Definition std_char (c : ascii) : ascii :=
  if byte_val c =? 45 then byte_of 43 else if byte_val c =? 95 then byte_of 47 else c.
Definition b64_std_encode (l : gostring) : gostring :=
  map std_char (b64_encode l) ++
  match (length l mod 3)%nat with
  | 1%nat => [byte_of 61; byte_of 61]
  | 2%nat => [byte_of 61]
  | _ => []
  end.
Definition json_bytes (l : gostring) : gostring :=
  if decide (l = []) then "null" else json_quote (b64_std_encode l).

(** A [[]byte] that may be nil: nil is [null], an empty slice the empty string. *)
Definition json_slice (l : option gostring) : gostring :=
  match l with None => "null" | Some l => json_quote (b64_std_encode l) end.

Definition json_uint (z : Z) : gostring := Itoa z.
Definition json_bool (b : bool) : gostring := if b then "true" else "false".

(** One present field, an object of its present fields, an array. *)
Definition json_field (name value : gostring) : gostring := json_quote name ++ ":" ++ value.
Definition json_object (fields : list gostring) : gostring := "{" ++ join "," fields ++ "}".
Definition json_array (items : list gostring) : gostring := "[" ++ join "," items ++ "]".
(** [omitempty] *)
Definition json_omit (present : bool) (field : gostring) : list gostring :=
  if present then [field] else [].

(** ** Reading the encoder's output back *)

Definition reader (A : Type) : Type := gostring → option (A * gostring).

#[export] Instance reader_ret : MRet reader := λ A a s, Some (a, s).
#[export] Instance reader_bind : MBind reader := λ A B f r s,
  match r s with Some (a, s') => f a s' | None => None end.

Definition read_lit (p : gostring) : reader unit := λ s,
  if decide (take (length p) s = p) then Some (tt, drop (length p) s) else None.

(** A field that may be absent: taken when the text starts with [p]. *)
Definition read_opt {A} (p : gostring) (absent : A) (r : reader A) : reader A := λ s,
  if decide (take (length p) s = p) then r (drop (length p) s) else Some (absent, s).

Definition hex_val (c : ascii) : Z :=
  if is_digit c then byte_val c - 48 else byte_val c - 87.

(** [utf8.EncodeRune] for the code points a [\\u] escape of the encoder names. *)
Definition encode_rune (r : Z) : gostring :=
  if r <? 0x80 then [byte_of r]
  else if r <? 0x800 then [byte_of (0xC0 + r / 64); byte_of (0x80 + r mod 64)]
  else [byte_of (0xE0 + r / 4096); byte_of (0x80 + r / 64 mod 64); byte_of (0x80 + r mod 64)].

Definition unesc_char (c : ascii) : ascii :=
  let v := byte_val c in
  if v =? 98 then byte_of 8 else if v =? 102 then byte_of 12 else if v =? 110 then byte_of 10
  else if v =? 114 then byte_of 13 else if v =? 116 then byte_of 9 else c.

Fixpoint read_chars (s : gostring) : option (gostring * gostring) :=
  match s with
  | [] => None
  | c :: s1 =>
      if decide (c = dquote) then Some ([], s1)
      else if decide (c = backslash) then
        match s1 with
        | [] => None
        | e :: s2 =>
            if decide (e = byte_of 117) then
              match s2 with
              | h1 :: h2 :: h3 :: h4 :: s3 =>
                  match read_chars s3 with
                  | Some (t, r) =>
                      Some (encode_rune (hex_val h1 * 4096 + hex_val h2 * 256
                              + hex_val h3 * 16 + hex_val h4) ++ t, r)
                  | None => None
                  end
              | _ => None
              end
            else match read_chars s2 with
                 | Some (t, r) => Some (unesc_char e :: t, r)
                 | None => None
                 end
        end
      else match read_chars s1 with
           | Some (t, r) => Some (c :: t, r)
           | None => None
           end
  end.
Definition read_string : reader gostring := _ ← read_lit [dquote]; read_chars.

Fixpoint read_span (s : gostring) : gostring * gostring :=
  match s with
  | c :: s' => if is_digit c then let '(d, r) := read_span s' in (c :: d, r) else ([], s)
  | [] => ([], [])
  end.
Definition read_uint : reader Z := λ s,
  let '(d, r) := read_span s in if decide (d = []) then None else Some (dec_value d, r).

(** A number that must fit its Go type. *)
Definition read_upto (maximum : Z) : reader Z := λ s,
  match read_uint s with
  | Some (z, r) => if z <=? maximum then Some (z, r) else None
  | None => None
  end.
Definition read_uint64 : reader Z := read_upto MaxUint64.
Definition read_int : reader Z := read_upto MaxInt64.

Definition url_char (c : ascii) : ascii :=
  if byte_val c =? 43 then byte_of 45 else if byte_val c =? 47 then byte_of 95 else c.
Definition read_slice : reader (option gostring) := λ s,
  match read_lit "null" s with
  | Some (_, r) => Some (None, r)
  | None =>
      match read_string s with
      | Some (t, r) =>
          match b64_decode (map url_char (filter (λ c, byte_val c ≠ 61) t)) with
          | Some d => Some (Some d, r)
          | None => None
          end
      | None => None
      end
  end.

Fixpoint read_items_fuel {A} (n : nat) (item : reader A) : reader (list A) :=
  match n with
  | O => λ _, None
  | S n =>
      a ← item;
      read_opt "," [a] (l ← read_items_fuel n item; mret (a :: l))
  end.
Definition read_array {A} (item : reader A) : reader (list A) :=
  _ ← read_lit "["; l ← (λ s, read_items_fuel (length s) item s); _ ← read_lit "]"; mret l.

(** ** The reader inverts the encoder *)

Lemma reader_bind_Some {A B} (r : reader A) (k : A → reader B) s a s' :
  r s = Some (a, s') → (r ≫= k) s = k a s'.
Proof. unfold mbind, reader_bind. by intros ->. Qed.

Lemma read_lit_app p rest : read_lit p (p ++ rest) = Some (tt, rest).
Proof. unfold read_lit. by rewrite take_app_length, decide_True, drop_app_length. Qed.

Lemma read_opt_app {A} p (a : A) r rest : read_opt p a r (p ++ rest) = r rest.
Proof. unfold read_opt. by rewrite take_app_length, decide_True, drop_app_length. Qed.

Lemma read_opt_absent {A} p (a : A) r s :
  take (length p) s ≠ p → read_opt p a r s = Some (a, s).
Proof. intros Hne. unfold read_opt. by rewrite decide_False. Qed.

Lemma read_chars_ascii html c t x r :
  byte_val c < 0x80 → read_chars t = Some (x, r) →
  read_chars (esc_ascii html c ++ t) = Some (c :: x, r).
Proof.
  intros Hc Ht.
  destruct c as [[] [] [] [] [] [] [] []]; try (exfalso; vm_compute in Hc; discriminate);
    destruct html; cbv -[read_chars] in *;
    match goal with |- ?f _ = _ => unfold f; fold read_chars end;
    cbv -[read_chars]; rewrite Ht; vm_compute; reflexivity.
Qed.

Lemma read_chars_raw l t x r :
  Forall (λ c, 0x80 ≤ byte_val c) l → read_chars t = Some (x, r) →
  read_chars (l ++ t) = Some (l ++ x, r).
Proof.
  intros Hl Ht. induction Hl as [|c l Hc Hl IH]; [done|]. cbn [app read_chars].
  rewrite decide_False, decide_False, IH; [done|..];
    intros ->; vm_compute in Hc; by apply Hc.
Qed.

(** A multi-byte rune of valid text: its bytes, and the two escaped ones. *)
Lemma decode_rune_wide s r w :
  decode_rune s = (r, w) → (w ≠ 1)%nat → s ≠ [] →
  Forall (λ c, 0x80 ≤ byte_val c) (take w s) ∧
  (r = 0x2028 ∨ r = 0x2029 → take w s = encode_rune r).
Proof.
  intros E Hw Hs. destruct s as [|c0 s1]; [done|]. unfold decode_rune in E.
  pose proof (byte_val_range c0).
  destruct (Z.ltb_spec (byte_val c0) 0x80); [congruence|].
  assert (∀ lo hi c, in_range lo hi c = true → lo ≤ byte_val c ≤ hi) as HR.
  { intros lo hi c [?%Z.leb_le ?%Z.leb_le]%andb_true_iff. lia. }
  repeat (case_match; try congruence); simplify_eq;
    repeat match goal with
    | Hb : _ && _ = true |- _ => apply andb_true_iff in Hb as [??]
    | Hb : is_cont _ = true |- _ => apply HR in Hb
    | Hb : in_range _ _ _ = true |- _ => apply HR in Hb
    end;
    (split; [cbn [take]; repeat constructor; repeat case_match; lia|]);
    intros Hr; cbn [take]; repeat case_match; try lia;
    destruct Hr as [Hr|Hr]; rewrite Hr; cbn [encode_rune Z.ltb Z.compare Pos.compare Pos.compare_cont];
    repeat f_equal; apply byte_val_inj; rewrite byte_val_of; lia.
Qed.

Lemma read_chars_u_escape r t x rest :
  r = 0x2028 ∨ r = 0x2029 → read_chars t = Some (x, rest) →
  read_chars (u_escape r ++ t) = Some (encode_rune r ++ x, rest).
Proof.
  intros [-> | ->] Ht; cbv -[read_chars];
    (match goal with |- ?f _ = _ => unfold f; fold read_chars end);
    cbv -[read_chars]; rewrite Ht; vm_compute; reflexivity.
Qed.

Lemma ValidString_cons_inv c s :
  ValidString (c :: s) = true →
  rune_ok (decode_rune (c :: s)) = true ∧
  ValidString (drop (snd (decode_rune (c :: s))) (c :: s)) = true.
Proof. unfold ValidString. rewrite runes_cons. cbn [forallb]. by rewrite andb_true_iff. Qed.

Lemma decode_rune_one c s :
  rune_ok (decode_rune (c :: s)) = true → snd (decode_rune (c :: s)) = 1%nat → byte_val c < 0x80.
Proof.
  destruct (Z.ltb_spec (byte_val c) 0x80); [done|]. intros Hok Hw. exfalso.
  unfold rune_ok in Hok. rewrite Hw in Hok. revert Hok Hw. unfold decode_rune.
  destruct (Z.ltb_spec (byte_val c) 0x80); [lia|].
  repeat case_match; cbn [fst snd]; done.
Qed.

Lemma read_chars_escape html n s rest :
  (length s ≤ n)%nat → ValidString s = true →
  read_chars (escape_fuel n html s ++ dquote :: rest) = Some (s, rest).
Proof.
  revert s. induction n as [|n IH]; intros s Hn Hv.
  { destruct s; [reflexivity|simpl in Hn; lia]. }
  destruct s as [|c s]; [reflexivity|].
  cbn [escape_fuel length] in *. apply ValidString_cons_inv in Hv as [Hok Hv].
  pose proof (decode_rune_size (c :: s) ltac:(done)) as Hsz.
  destruct (Z.ltb_spec (byte_val c) 0x80) as [Hc|Hc].
  - rewrite <-(assoc_L (++)). apply read_chars_ascii; [done|]. apply IH; [lia|].
    assert (snd (decode_rune (c :: s)) = 1%nat) as E1.
    { unfold decode_rune. apply Z.ltb_lt in Hc. by rewrite Hc. }
    rewrite E1 in Hv. cbn [drop] in Hv. by rewrite drop_0 in Hv.
  - destruct (decode_rune (c :: s)) as [r w] eqn:Ed. cbn [fst snd] in *.
    destruct (Nat.eqb_spec w 1) as [->|Hw].
    { exfalso. pose proof (decode_rune_one c s) as Hone. rewrite Ed in Hone.
      specialize (Hone Hok eq_refl). lia. }
    destruct (decode_rune_wide _ _ _ Ed Hw ltac:(done)) as [Hwide Henc].
    assert (read_chars (escape_fuel n html (drop w (c :: s)) ++ dquote :: rest)
            = Some (drop w (c :: s), rest)) as Hrest.
    { apply IH; [|done]. rewrite length_drop. simpl in *. lia. }
    destruct ((r =? 0x2028) || (r =? 0x2029)) eqn:Er; rewrite <-(assoc_L (++)).
    + apply orb_true_iff in Er. rewrite !Z.eqb_eq in Er.
      erewrite read_chars_u_escape by done. by rewrite <-Henc, take_drop.
    + erewrite read_chars_raw by done. by rewrite take_drop.
Qed.

Lemma read_string_app html s rest :
  ValidString s = true → read_string (json_string html s ++ rest) = Some (s, rest).
Proof.
  intros Hs. unfold read_string, json_string, json_quote.
  change ((dquote :: escape_fuel (length s) html s ++ [dquote]) ++ rest)
    with ([dquote] ++ (escape_fuel (length s) html s ++ [dquote]) ++ rest).
  erewrite reader_bind_Some by apply read_lit_app.
  rewrite <-(assoc_L (++)). by apply read_chars_escape.
Qed.

Definition nodigit (rest : gostring) : Prop :=
  match rest with c :: _ => is_digit c = false | [] => True end.

Lemma read_span_app d rest :
  Forall (λ c, is_digit c = true) d → nodigit rest → read_span (d ++ rest) = (d, rest).
Proof.
  intros Hd Hr. induction Hd as [|c d Hc Hd IH]; cbn [app].
  - destruct rest as [|c rest]; [done|]. simpl in *. by rewrite Hr.
  - cbn [read_span]. by rewrite Hc, IH.
Qed.

Lemma read_uint_app z rest :
  0 ≤ z → nodigit rest → read_uint (json_uint z ++ rest) = Some (z, rest).
Proof.
  intros Hz Hr. destruct (Itoa_spec z Hz) as (Hd & Hv & Hne).
  unfold read_uint, json_uint. rewrite read_span_app by done. by rewrite decide_False, Hv.
Qed.

Lemma read_upto_app m z rest :
  0 ≤ z ≤ m → nodigit rest → read_upto m (json_uint z ++ rest) = Some (z, rest).
Proof.
  intros Hz Hr. unfold read_upto. rewrite read_uint_app by (done || lia). by rewrite (proj2 (Z.leb_le _ _)) by lia.
Qed.

Lemma read_chars_plain l rest :
  Forall (λ c, c ≠ dquote ∧ c ≠ backslash) l →
  read_chars (l ++ dquote :: rest) = Some (l, rest).
Proof.
  induction 1 as [|c l [Hc Hc'] Hl IH]; [reflexivity|].
  cbn [app read_chars]. by rewrite decide_False, decide_False, IH.
Qed.

Lemma std_char_alphabet c :
  b64_alphabet c →
  url_char (std_char c) = c ∧ byte_val (std_char c) ≠ 61 ∧ std_char c ≠ dquote ∧ std_char c ≠ backslash.
Proof.
  intros [z Hz]. destruct c as [[] [] [] [] [] [] [] []]; vm_compute in Hz; try discriminate Hz;
    vm_compute; repeat split; congruence.
Qed.

Lemma b64_std_plain l : Forall (λ c, c ≠ dquote ∧ c ≠ backslash) (b64_std_encode l).
Proof.
  unfold b64_std_encode. apply Forall_app. split.
  - apply Forall_map. eapply list.Forall_impl; [apply b64_encode_alphabet|].
    intros c Hc. by apply std_char_alphabet in Hc as (_ & _ & ? & ?).
  - repeat case_match; repeat constructor; by vm_compute.
Qed.

Lemma b64_std_decode l :
  b64_decode (map url_char (filter (λ c, byte_val c ≠ 61) (b64_std_encode l))) = Some l.
Proof.
  assert (filter (λ c, byte_val c ≠ 61) (b64_std_encode l) = map std_char (b64_encode l)) as ->.
  { unfold b64_std_encode. rewrite filter_app, list_filter_all.
    - match goal with |- _ ++ ?f = _ => assert (f = []) as -> by (repeat case_match; reflexivity) end.
      by rewrite (right_id_L [] (++)).
    - apply Forall_map. eapply list.Forall_impl; [apply b64_encode_alphabet|].
      intros c Hc. by apply std_char_alphabet in Hc as (_ & ? & _). }
  rewrite map_map, <-(b64_decode_encode l). f_equal.
  pose proof (b64_encode_alphabet l) as Hal.
  induction Hal as [|c k Hc Hk IH]; [done|]. simpl. rewrite IH. f_equal.
  by apply std_char_alphabet.
Qed.

Lemma read_slice_app l rest : read_slice (json_slice l ++ rest) = Some (l, rest).
Proof.
  unfold read_slice, json_slice. destruct l as [l|]; [|by rewrite read_lit_app].
  unfold json_quote. cbn [app].
  assert (∀ k, read_lit "null" (dquote :: k) = None) as ->.
  { intros k. unfold read_lit. rewrite decide_False; [done|]. by intros [=]. }
  assert (read_string (dquote :: (b64_std_encode l ++ [dquote]) ++ rest)
          = Some (b64_std_encode l, rest)) as ->.
  { unfold read_string.
    change (dquote :: (b64_std_encode l ++ [dquote]) ++ rest)
      with ([dquote] ++ (b64_std_encode l ++ [dquote]) ++ rest).
    erewrite reader_bind_Some by apply read_lit_app. rewrite <-(assoc_L (++)).
    apply read_chars_plain, b64_std_plain. }
  by rewrite b64_std_decode.
Qed.

Lemma json_quote_length s : length (json_quote s) = S (S (length s)).
Proof. unfold json_quote. simpl. rewrite length_app. simpl. lia. Qed.

(** Arrays of items whose texts are non-empty. *)
Lemma read_items_app {A} (item : reader A) (enc : A → gostring) (P : A → Prop) l n rest :
  (∀ a rest, P a → item (enc a ++ rest) = Some (a, rest)) →
  l ≠ [] → Forall P l → (length l ≤ n)%nat →
  take 1 rest ≠ "," →
  read_items_fuel n item (join "," (map enc l) ++ rest) = Some (l, rest).
Proof.
  intros Hitem Hl HP Hn Hrest. revert n Hn. induction HP as [|a l Ha HP IH]; [done|].
  intros n Hn. destruct n as [|n]; [simpl in Hn; lia|]. cbn [read_items_fuel map].
  destruct l as [|b l].
  - cbn [map join]. erewrite reader_bind_Some by by apply Hitem.
    by apply read_opt_absent.
  - assert (join "," (enc a :: map enc (b :: l)) ++ rest
            = enc a ++ "," ++ join "," (map enc (b :: l)) ++ rest) as ->.
    { cbn [map]. rewrite join_cons by done. by rewrite <-!(assoc_L (++)). }
    erewrite reader_bind_Some by by apply Hitem. rewrite read_opt_app.
    erewrite reader_bind_Some; [|apply IH; [done|simpl in *; lia]]. done.
Qed.

Lemma join_length_ge {A} (enc : A → gostring) l :
  (∀ a, enc a ≠ []) → (length l ≤ length (join "," (map enc l)))%nat.
Proof.
  intros Hne. induction l as [|a l IH]; [done|].
  assert (1 ≤ length (enc a))%nat as Ha by (specialize (Hne a); destruct (enc a); [done|simpl; lia]).
  destruct l as [|b l]; [exact Ha|]. change (map enc (a :: b :: l)) with (enc a :: map enc (b :: l)).
  rewrite join_cons by done. rewrite !length_app.
  change (length (a :: b :: l)) with (S (length (b :: l))). lia.
Qed.

Lemma read_array_app {A} (item : reader A) (enc : A → gostring) (P : A → Prop) l rest :
  (∀ a rest, P a → item (enc a ++ rest) = Some (a, rest)) →
  (∀ a, enc a ≠ []) → l ≠ [] → Forall P l →
  read_array item (json_array (map enc l) ++ rest) = Some (l, rest).
Proof.
  intros Hitem Hne Hl HP. unfold read_array, json_array. rewrite <-!(assoc_L (++)).
  erewrite reader_bind_Some by apply read_lit_app.
  erewrite reader_bind_Some.
  2: { apply (read_items_app item enc P); try done.
       rewrite length_app. pose proof (join_length_ge enc l Hne). lia. }
  by erewrite reader_bind_Some by apply read_lit_app.
Qed.
