(* ===== verification/GoTime.v ===== *)
(** * Go's time package as the sources use it

    An instant is a number of nanoseconds since the Unix epoch, always shown in
    UTC: the sources convert with [UTC()] before they store or print a time.
    The proleptic Gregorian calendar, the layouts [time.RFC3339Nano] and
    "20060102T150405.000000000Z", and readers for both. *)

From Stdlib Require Import ZArith Lia.
From S2P Require Import Prelude GoLib GoJSON.

Open Scope Z_scope.

Definition second : Z := 1000000000.
Definition day : Z := 86400 * second.

(** [time.Time{}], the first instant of year 1. *)
Definition zero_time : Z := -62135596800 * second.
Definition IsZero (t : Z) : bool := t =? zero_time.

(** ** The calendar *)

(** Days from the start of year 0 to the start of year [y]. *)
Definition days_before (y : Z) : Z := 365 * y + (y + 3) / 4 - (y + 99) / 100 + (y + 399) / 400.
Definition leap (y : Z) : bool := (y mod 4 =? 0) && (negb (y mod 100 =? 0) || (y mod 400 =? 0)).

Definition year_of (d : Z) : Z :=
  let y := (400 * d) / 146097 in
  if d <? days_before y then y - 1 else if days_before (y + 1) <=? d then y + 1 else y.

Definition month_lengths (y : Z) : list Z :=
  [31; if leap y then 29 else 28; 31; 30; 31; 30; 31; 31; 30; 31; 30; 31].

(** The month and the day of the month, both from 1, of a day of the year. *)
Fixpoint month_day (lengths : list Z) (m d : Z) : Z * Z :=
  match lengths with
  | [] => (m, d + 1)
  | n :: lengths => if d <? n then (m, d + 1) else month_day lengths (m + 1) (d - n)
  end.

Fixpoint days_in_months (lengths : list Z) (m : nat) : Z :=
  match m, lengths with
  | S m, n :: lengths => n + days_in_months lengths m
  | _, _ => 0
  end.

(** Days from the start of year 0 to the epoch. *)
Definition epoch_day : Z := 719528.

Record civil := { Year : Z; Month : Z; Day : Z; Hour : Z; Minute : Z; Second_ : Z; Nanosecond : Z }.

Definition civil_of (t : Z) : civil :=
  let d := t / day + epoch_day in
  let rest := t mod day in
  let y := year_of d in
  let '(m, dd) := month_day (month_lengths y) 1 (d - days_before y) in
  let s := rest / second in
  {| Year := y; Month := m; Day := dd; Hour := s / 3600; Minute := s / 60 mod 60; Second_ := s mod 60;
     Nanosecond := rest mod second |}.

Definition time_of (c : civil) : Z :=
  (days_before (Year c) + days_in_months (month_lengths (Year c)) (Z.to_nat (Month c - 1)) + (Day c - 1) - epoch_day) * day
  + (Hour c * 3600 + Minute c * 60 + Second_ c) * second + Nanosecond c.

(** ** Layouts *)

(** [n] decimal digits, leading zeros included. *)
Fixpoint digits (n : nat) (z : Z) : gostring :=
  match n with
  | O => []
  | S n => digits n (z / 10) ++ [dec_char (z mod 10)]
  end.

(** [time.Format("20060102T150405.000000000Z")] *)
Definition format_compact (t : Z) : gostring :=
  let c := civil_of t in
  digits 4 (Year c) ++ digits 2 (Month c) ++ digits 2 (Day c) ++ "T"
  ++ digits 2 (Hour c) ++ digits 2 (Minute c) ++ digits 2 (Second_ c) ++ "." ++ digits 9 (Nanosecond c) ++ "Z".

Fixpoint trim_zeros (s : gostring) : gostring :=
  match s with
  | [] => []
  | c :: s => let rest := trim_zeros s in
              if bool_decide (c = dec_char 0) && bool_decide (rest = []) then [] else c :: rest
  end.

(** The fraction of [time.RFC3339Nano]: trailing zeros are dropped. *)
Definition fraction (ns : Z) : gostring := if ns =? 0 then [] else "." ++ trim_zeros (digits 9 ns).

Definition format_rfc3339nano (t : Z) : gostring :=
  let c := civil_of t in
  digits 4 (Year c) ++ "-" ++ digits 2 (Month c) ++ "-" ++ digits 2 (Day c) ++ "T"
  ++ digits 2 (Hour c) ++ ":" ++ digits 2 (Minute c) ++ ":" ++ digits 2 (Second_ c) ++ fraction (Nanosecond c) ++ "Z".

(** The years the layouts can show in four digits; [MarshalJSON] refuses the
    others. *)
Definition year_ok (t : Z) : bool := let y := Year (civil_of t) in (0 <=? y) && (y <=? 9999).

Definition json_time (t : Z) : gostring := json_quote (format_rfc3339nano t).

(** ** Readers *)

(** Exactly [n] digits. *)
Definition read_digits (n : nat) : reader Z := λ s,
  let d := take n s in
  if (length d =? n)%nat && forallb is_digit d then Some (dec_value d, drop n s) else None.

(** The calendar fields must be in range. *)
Definition valid_civil (c : civil) : bool :=
  (1 <=? Month c) && (Month c <=? 12) && (1 <=? Day c)
  && (Day c <=? nth (Z.to_nat (Month c - 1)) (month_lengths (Year c)) 0)
  && (Hour c <=? 23) && (Minute c <=? 59) && (Second_ c <=? 59).

Definition check_civil (c : civil) : reader Z := λ s, if valid_civil c then Some (time_of c, s) else None.

(** [time.Parse("20060102T150405.000000000Z", s)] *)
Definition read_compact : reader Z :=
  y ← read_digits 4; m ← read_digits 2; d ← read_digits 2; _ ← read_lit "T";
  hh ← read_digits 2; mm ← read_digits 2; ss ← read_digits 2; _ ← read_lit ".";
  ns ← read_digits 9; _ ← read_lit "Z";
  check_civil {| Year := y; Month := m; Day := d; Hour := hh; Minute := mm; Second_ := ss; Nanosecond := ns |}.

Definition parse_compact (s : gostring) : option Z :=
  match read_compact s with Some (t, []) => Some t | _ => None end.

(** The digits of a fraction, up to nanoseconds. *)
Definition read_fraction : reader Z := λ s,
  let '(d, rest) := read_span s in
  if (length d =? 0)%nat || (9 <? length d)%nat then None
  else Some (dec_value (d ++ replicate (9 - length d) (dec_char 0)), rest).

Definition read_rfc3339 : reader Z :=
  y ← read_digits 4; _ ← read_lit "-"; m ← read_digits 2; _ ← read_lit "-"; d ← read_digits 2; _ ← read_lit "T";
  hh ← read_digits 2; _ ← read_lit ":"; mm ← read_digits 2; _ ← read_lit ":"; ss ← read_digits 2;
  ns ← read_opt "." 0 read_fraction; _ ← read_lit "Z";
  check_civil {| Year := y; Month := m; Day := d; Hour := hh; Minute := mm; Second_ := ss; Nanosecond := ns |}.

Definition read_time : reader Z := _ ← read_lit [dquote]; t ← read_rfc3339; _ ← read_lit [dquote]; mret t.

Example format_epoch : format_rfc3339nano 0 = bs "1970-01-01T00:00:00Z".
Proof. vm_compute. reflexivity. Qed.
Example format_zero : format_rfc3339nano zero_time = bs "0001-01-01T00:00:00Z".
Proof. vm_compute. reflexivity. Qed.
Example format_leap : format_rfc3339nano (951782399 * second + 120000000) = bs "2000-02-28T23:59:59.12Z".
Proof. vm_compute. reflexivity. Qed.
Example format_compact_leap : format_compact (951782400 * second + 7) = bs "20000229T000000.000000007Z".
Proof. vm_compute. reflexivity. Qed.
Example read_leap : read_time (json_time (951782400 * second + 7)) = Some (951782400 * second + 7, []).
Proof. vm_compute. reflexivity. Qed.

(** ** The calendar is a bijection *)

Ltac div_lia := Z.to_euclidean_division_equations; lia.

Lemma year_spec d : days_before (year_of d) ≤ d < days_before (year_of d + 1).
Proof.
  unfold year_of. set (y := (400 * d) / 146097).
  assert (days_before (y - 1) ≤ d < days_before (y + 2)) as [H1 H2] by (unfold days_before; subst y; div_lia).
  destruct (Z.ltb_spec d (days_before y)).
  - replace (y - 1 + 1) with y by lia. lia.
  - destruct (Z.leb_spec (days_before (y + 1)) d); [|lia]. replace (y + 1 + 1) with (y + 2) by lia. lia.
Qed.

Lemma days_before_mono y y' : y ≤ y' → days_before y ≤ days_before y'.
Proof. unfold days_before. intros. div_lia. Qed.

Lemma year_of_unique d y : days_before y ≤ d < days_before (y + 1) → year_of d = y.
Proof.
  intros Hd. pose proof (year_spec d) as Hs.
  destruct (Z.lt_trichotomy (year_of d) y) as [Hl|[?|Hl]]; [|done|].
  - pose proof (days_before_mono (year_of d + 1) y). lia.
  - pose proof (days_before_mono (y + 1) (year_of d)). lia.
Qed.

Definition year_length (y : Z) : Z := days_in_months (month_lengths y) 12.

Lemma year_length_spec y : days_before (y + 1) = days_before y + year_length y.
Proof.
  unfold year_length, days_before, month_lengths, leap. cbn [days_in_months].
  destruct (Z.eqb_spec (y mod 4) 0), (Z.eqb_spec (y mod 100) 0), (Z.eqb_spec (y mod 400) 0); cbn [negb andb orb]; div_lia.
Qed.

Lemma month_day_spec lengths m d :
  0 ≤ d < days_in_months lengths (length lengths) →
  ∃ k dd, month_day lengths m d = (m + Z.of_nat k, dd) ∧ (k < length lengths)%nat ∧ 1 ≤ dd ≤ nth k lengths 0 ∧
    d = days_in_months lengths k + dd - 1.
Proof.
  revert m d. induction lengths as [|n lengths IH]; intros m d Hd; cbn in Hd; [lia|]. cbn [month_day].
  destruct (Z.ltb_spec d n).
  - exists 0%nat, (d + 1). cbn. split; [f_equal; lia|]. lia.
  - destruct (IH (m + 1) (d - n)) as (k & dd & E & Hk & Hdd & Ed); [lia|]. exists (S k), dd. rewrite E.
    split; [f_equal; lia|]. cbn [length nth days_in_months]. lia.
Qed.

Lemma days_in_months_nonneg lengths k : Forall (λ n, 0 ≤ n) lengths → 0 ≤ days_in_months lengths k.
Proof.
  intros Hl. revert k. induction Hl as [|n l Hn Hl IH]; intros [|k]; cbn; try lia. specialize (IH k). lia.
Qed.

Lemma month_day_of lengths m k dd :
  Forall (λ n, 0 ≤ n) lengths → (k < length lengths)%nat → 1 ≤ dd ≤ nth k lengths 0 →
  month_day lengths m (days_in_months lengths k + dd - 1) = (m + Z.of_nat k, dd).
Proof.
  intros Hl. revert m k. induction Hl as [|n l Hn Hl IH]; intros m k Hk Hdd; cbn in Hk; [lia|]. cbn [month_day].
  destruct k as [|k]; cbn [days_in_months nth] in *.
  - destruct (Z.ltb_spec (0 + dd - 1) n); [|lia]. f_equal; lia.
  - pose proof (days_in_months_nonneg l k Hl). destruct (Z.ltb_spec (n + days_in_months l k + dd - 1) n); [lia|].
    replace (n + days_in_months l k + dd - 1 - n) with (days_in_months l k + dd - 1) by lia.
    rewrite IH by (done || lia). f_equal. lia.
Qed.

Lemma month_lengths_nonneg y : Forall (λ n, 0 ≤ n) (month_lengths y).
Proof. unfold month_lengths. destruct (leap y); repeat constructor; lia. Qed.

(** The fields of an instant are in range and determine it. *)
Lemma civil_of_valid t :
  valid_civil (civil_of t) = true ∧ time_of (civil_of t) = t ∧
  1 ≤ Month (civil_of t) ≤ 12 ∧ 1 ≤ Day (civil_of t) ≤ 31 ∧ 0 ≤ Hour (civil_of t) ≤ 23 ∧
  0 ≤ Minute (civil_of t) ≤ 59 ∧ 0 ≤ Second_ (civil_of t) ≤ 59 ∧ 0 ≤ Nanosecond (civil_of t) < second.
Proof.
  unfold civil_of. set (d := t / day + epoch_day). set (y := year_of d).
  pose proof (year_spec d) as Hy. fold y in Hy. rewrite year_length_spec in Hy.
  destruct (month_day_spec (month_lengths y) 1 (d - days_before y)) as (k & dd & -> & Hk & Hdd & Ed).
  { unfold year_length in Hy. change (length (month_lengths y)) with 12%nat. lia. }
  change (length (month_lengths y)) with 12%nat in Hk.
  assert (nth k (month_lengths y) 0 ≤ 31) as H31.
  { unfold month_lengths. destruct (leap y); do 12 (destruct k as [|k]; [cbn; lia|]); lia. }
  unfold valid_civil, time_of. cbn [Month Day Hour Minute Second_ Nanosecond Year].
  replace (Z.to_nat (1 + Z.of_nat k - 1)) with k by lia.
  assert (0 ≤ t mod day < day) as Hr by (apply Z.mod_pos_bound; done).
  assert (0 ≤ t mod day / second < 86400) as Hs by (unfold day, second in *; div_lia).
  set (s := t mod day / second) in *.
  assert (0 ≤ s / 3600 ≤ 23 ∧ 0 ≤ s / 60 mod 60 ≤ 59 ∧ 0 ≤ s mod 60 ≤ 59 ∧ s / 3600 * 3600 + s / 60 mod 60 * 60 + s mod 60 = s) as
    (H1 & H2 & H3 & H4) by (clear -Hs; div_lia).
  assert (0 ≤ (t mod day) mod second < second) as H5 by (apply Z.mod_pos_bound; done).
  split; [|split; [|lia]].
  - rewrite !andb_true_iff, !Z.leb_le. lia.
  - rewrite H4. replace (days_before y + days_in_months (month_lengths y) k + (dd - 1) - epoch_day) with (t / day) by lia.
    subst s. clear. unfold day, second. div_lia.
Qed.

Lemma civil_of_inj t t' : civil_of t = civil_of t' → t = t'.
Proof.
  intros E. destruct (civil_of_valid t) as (_ & <- & _). destruct (civil_of_valid t') as (_ & <- & _). by rewrite E.
Qed.

(** ** The layouts are read back *)

Lemma digits_length n z : length (digits n z) = n.
Proof. revert z. induction n as [|n IH]; intros z; [done|]. cbn. rewrite length_app, IH. cbn. lia. Qed.

Lemma digits_are_digits n z : forallb is_digit (digits n z) = true.
Proof.
  revert z. induction n as [|n IH]; intros z; [done|]. cbn [digits]. rewrite forallb_app, IH. cbn.
  destruct (dec_char_digit (z mod 10)) as [-> _]; [div_lia|done].
Qed.

Lemma digits_value n z : 0 ≤ z < 10 ^ Z.of_nat n → dec_value (digits n z) = z.
Proof.
  revert z. induction n as [|n IH]; intros z Hz; [cbn in *; lia|].
  replace (10 ^ Z.of_nat (S n)) with (10 * 10 ^ Z.of_nat n) in Hz by (rewrite Nat2Z.inj_succ, Z.pow_succ_r; lia).
  cbn [digits]. unfold dec_value in *. rewrite fold_left_app, IH by div_lia. cbn.
  destruct (dec_char_digit (z mod 10)) as [_ ->]; div_lia.
Qed.

Lemma read_digits_app n z rest : 0 ≤ z < 10 ^ Z.of_nat n → read_digits n (digits n z ++ rest) = Some (z, rest).
Proof.
  intros Hz. unfold read_digits. rewrite take_app_length', drop_app_length' by (by rewrite digits_length).
  by rewrite digits_length, Nat.eqb_refl, digits_are_digits, digits_value.
Qed.

Lemma trim_zeros_spec s : ∃ k, s = trim_zeros s ++ replicate k (dec_char 0).
Proof.
  induction s as [|c s [k IH]]; [by exists 0%nat|]. cbn [trim_zeros].
  destruct (bool_decide (c = dec_char 0) && bool_decide (trim_zeros s = [])) eqn:E.
  - rewrite andb_true_iff, !bool_decide_eq_true in E. destruct E as [-> E]. exists (S k). rewrite IH, E. done.
  - exists k. cbn. by rewrite <-IH.
Qed.

Lemma read_fraction_app ns rest :
  0 ≤ ns < second → read_opt "." 0 read_fraction (fraction ns ++ "Z" ++ rest) = Some (ns, "Z" ++ rest).
Proof.
  intros Hns. unfold fraction. destruct (Z.eqb_spec ns 0) as [->|Hne]; [done|].
  rewrite <-(assoc_L (++)), read_opt_app. unfold read_fraction.
  destruct (trim_zeros_spec (digits 9 ns)) as (k & Ek). set (d := trim_zeros (digits 9 ns)) in *.
  assert (length d + k = 9)%nat as Hl by (rewrite <-(digits_length 9 ns), Ek, length_app, length_replicate; done).
  assert (Forall (λ c, is_digit c = true) d) as Hd.
  { pose proof (digits_are_digits 9 ns) as H9. rewrite Ek, forallb_app, andb_true_iff in H9.
    apply list.Forall_forall. intros c Hc%list_elem_of_In. by apply (proj1 (forallb_forall _ _) (proj1 H9)). }
  rewrite read_span_app by done. replace (9 - length d)%nat with k by lia.
  rewrite <-Ek, digits_value by (unfold second in *; cbn; lia).
  destruct (Nat.eqb_spec (length d) 0) as [E0|]; [|by destruct (Nat.ltb_spec 9 (length d)); [lia|]].
  exfalso. destruct d; [|done]. apply Hne. rewrite <-(digits_value 9 ns) by (unfold second in *; cbn; lia).
  rewrite Ek. replace k with 9%nat by (cbn in Hl; lia). done.
Qed.

Lemma check_civil_of t rest : check_civil (civil_of t) rest = Some (t, rest).
Proof. unfold check_civil. destruct (civil_of_valid t) as (-> & -> & _). done. Qed.

Lemma year_ok_range t : year_ok t = true → 0 ≤ Year (civil_of t) < 10 ^ Z.of_nat 4.
Proof. unfold year_ok. rewrite andb_true_iff, !Z.leb_le. cbn. lia. Qed.

Ltac read_fields :=
  repeat first [erewrite reader_bind_Some by apply read_lit_app
               |erewrite reader_bind_Some by (apply read_digits_app; cbn; lia)].

Lemma read_time_app t rest : year_ok t = true → read_time (json_time t ++ rest) = Some (t, rest).
Proof.
  intros Hy%year_ok_range. destruct (civil_of_valid t) as (_ & _ & ? & ? & ? & ? & ? & Hns).
  unfold read_time, json_time, json_quote, format_rfc3339nano. rewrite <-!(assoc_L (++)). cbn zeta.
  change (dquote :: ?s) with ([dquote] ++ s). rewrite <-!(assoc_L (++)).
  erewrite reader_bind_Some by apply read_lit_app. erewrite reader_bind_Some.
  2:{ unfold read_rfc3339. read_fields. erewrite reader_bind_Some by (by apply read_fraction_app).
      erewrite reader_bind_Some by apply read_lit_app.
      match goal with |- check_civil ?c _ = _ => replace c with (civil_of t) by (by destruct (civil_of t)) end.
      apply check_civil_of. }
  by erewrite reader_bind_Some by apply read_lit_app.
Qed.

Lemma parse_format_compact t : year_ok t = true → parse_compact (format_compact t) = Some t.
Proof.
  intros Hy%year_ok_range. destruct (civil_of_valid t) as (_ & _ & ? & ? & ? & ? & ? & Hns).
  unfold parse_compact. rewrite <-(app_nil_r (format_compact t)). unfold format_compact, read_compact. cbn zeta.
  rewrite <-!(assoc_L (++)). read_fields.
  erewrite reader_bind_Some by (apply read_digits_app; unfold second in *; cbn; lia).
  erewrite reader_bind_Some by apply read_lit_app.
  match goal with |- context [check_civil ?c _] => replace c with (civil_of t) by (by destruct (civil_of t)) end.
  by rewrite check_civil_of.
Qed.

(** ** Byte order of the compact layout is time order *)

Lemma digits_lt n a b s t :
  0 ≤ a → b < 10 ^ Z.of_nat n → a < b → bytes_lt (digits n a ++ s) (digits n b ++ t).
Proof.
  revert a b s t. induction n as [|n IH]; intros a b s t Ha Hb Hab; [cbn in Hb; lia|].
  replace (10 ^ Z.of_nat (S n)) with (10 * 10 ^ Z.of_nat n) in Hb by (rewrite Nat2Z.inj_succ, Z.pow_succ_r; lia).
  cbn [digits]. rewrite <-!(assoc_L (++)). destruct (decide (a / 10 = b / 10)) as [E|E].
  - rewrite E. unfold bytes_lt. rewrite bytes_app_cmp. cbn [app bytes_cmp].
    assert (byte_val (dec_char (a mod 10)) < byte_val (dec_char (b mod 10))) as Hlt.
    { unfold dec_char. rewrite !byte_val_of by div_lia. div_lia. }
    apply Z.compare_lt_iff in Hlt. by rewrite Hlt.
  - apply IH; div_lia.
Qed.

Lemma bytes_lt_app p s t : bytes_lt s t → bytes_lt (p ++ s) (p ++ t).
Proof. unfold bytes_lt. by rewrite bytes_app_cmp. Qed.

Definition lex (c c' : civil) : Prop :=
  Year c < Year c' ∨ Year c = Year c' ∧ (Month c < Month c' ∨ Month c = Month c' ∧ (Day c < Day c' ∨ Day c = Day c' ∧
  (Hour c < Hour c' ∨ Hour c = Hour c' ∧ (Minute c < Minute c' ∨ Minute c = Minute c' ∧
  (Second_ c < Second_ c' ∨ Second_ c = Second_ c' ∧ Nanosecond c < Nanosecond c'))))).

Lemma days_in_months_step lengths k k' :
  Forall (λ n, 0 ≤ n) lengths → (k < k' ≤ length lengths)%nat → days_in_months lengths k + nth k lengths 0 ≤ days_in_months lengths k'.
Proof.
  intros Hl. revert k k'. induction Hl as [|n l Hn Hl IH]; intros k k' Hk; cbn in Hk; [lia|].
  destruct k' as [|k']; [lia|]. destruct k as [|k]; cbn [days_in_months nth].
  - pose proof (days_in_months_nonneg l k' Hl). lia.
  - specialize (IH k k'). lia.
Qed.

Lemma month_day_lex y d d' :
  0 ≤ d < d' → d' < year_length y →
  let '(m, dd) := month_day (month_lengths y) 1 d in
  let '(m', dd') := month_day (month_lengths y) 1 d' in m < m' ∨ m = m' ∧ dd < dd'.
Proof.
  intros Hd Hd'. unfold year_length in Hd'.
  destruct (month_day_spec (month_lengths y) 1 d) as (k & dd & -> & Hk & Hdd & Ed); [change (length (month_lengths y)) with 12%nat; lia|].
  destruct (month_day_spec (month_lengths y) 1 d') as (k' & dd' & -> & Hk' & Hdd' & Ed'); [change (length (month_lengths y)) with 12%nat; lia|].
  destruct (Nat.lt_trichotomy k k') as [?|[->|Hlt]]; [left; lia|right; lia|].
  pose proof (days_in_months_step (month_lengths y) k' k (month_lengths_nonneg y) ltac:(lia)). lia.
Qed.

Lemma civil_of_lex t t' : t < t' → lex (civil_of t) (civil_of t').
Proof.
  intros Ht. unfold civil_of, lex. set (d := t / day + epoch_day). set (d' := t' / day + epoch_day).
  pose proof (year_spec d) as Hy. pose proof (year_spec d') as Hy'.
  assert (d < d' ∨ d = d' ∧ t mod day < t' mod day) as Hd.
  { subst d d'. unfold day, second in *. clear -Ht. div_lia. }
  destruct Hd as [Hd|[Ed Hr]].
  - destruct (Z.lt_trichotomy (year_of d) (year_of d')) as [Hlt|[E|Hlt]].
    + destruct (month_day _ _ _) as [m dd], (month_day _ _ _) as [m' dd']. by left.
    + rewrite E in *. rewrite year_length_spec in Hy'.
      pose proof (month_day_lex (year_of d') (d - days_before (year_of d')) (d' - days_before (year_of d')) ltac:(lia) ltac:(lia)) as Hm.
      destruct (month_day _ _ _) as [m dd], (month_day _ _ _) as [m' dd']. cbn. right. split; [done|].
      destruct Hm as [?|[-> ?]]; [by left|right]. split; [done|by left].
    + pose proof (days_before_mono (year_of d' + 1) (year_of d)). lia.
  - rewrite Ed. destruct (month_day _ _ _) as [m dd]. cbn. right. split; [done|]. right. split; [done|]. right. split; [done|].
    assert (0 ≤ t mod day < day ∧ 0 ≤ t' mod day < day) as [Hb Hb'] by (split; apply Z.mod_pos_bound; done).
    revert Hr Hb Hb'. generalize (t mod day) (t' mod day). clear. intros r r' Hr Hb Hb'.
    assert (r / second < r' / second ∨ r / second = r' / second ∧ r mod second < r' mod second) as Hs
      by (unfold second in *; div_lia).
    revert Hs. generalize (r / second) (r' / second). intros s s' [Hs|[-> ?]]; [|tauto].
    destruct (Z.lt_trichotomy (s / 3600) (s' / 3600)) as [?|[E1|?]]; [by left|right; split; [done|]|div_lia].
    destruct (Z.lt_trichotomy (s / 60 mod 60) (s' / 60 mod 60)) as [?|[E2|?]]; [by left|right; split; [done|]|div_lia].
    left. div_lia.
Qed.

Lemma format_compact_lt t t' s s' :
  year_ok t = true → year_ok t' = true → t < t' → bytes_lt (format_compact t ++ s) (format_compact t' ++ s').
Proof.
  intros Hy%year_ok_range Hy'%year_ok_range Ht%civil_of_lex.
  destruct (civil_of_valid t) as (_ & _ & ? & ? & ? & ? & ? & Hns). destruct (civil_of_valid t') as (_ & _ & ? & ? & ? & ? & ? & Hns').
  unfold format_compact. cbn zeta. unfold second in *. rewrite <-!(assoc_L (++)).
  repeat (destruct Ht as [Ht|[-> Ht]]; [apply digits_lt; cbn; lia|apply bytes_lt_app; try apply bytes_lt_app]).
  apply digits_lt; cbn; lia.
Qed.
