(* ===== verification/GoHeap.v ===== *)
(** * container/heap

    The binary heap of Go's standard library over a slice: [heap.Push] and
    [heap.Pop], with [up] and [down] as they are there.  The slice is a list, and
    [less x y] is the interface's [Less] at two values. *)

From Stdlib Require Import Lia.
From S2P Require Import Prelude.

Module GoHeap.

Section Heap.
Context {A : Type} (less : A → A → bool).

Definition swap (l : list A) (i j : nat) : list A :=
  match l !! i, l !! j with Some x, Some y => <[j := x]> (<[i := y]> l) | _, _ => l end.

Definition less_at (l : list A) (i j : nat) : bool :=
  match l !! i, l !! j with Some x, Some y => less x y | _, _ => false end.

Definition parent (j : nat) : nat := (j - 1) / 2.

Fixpoint up (fuel : nat) (l : list A) (j : nat) : list A :=
  match fuel with
  | O => l
  | S fuel =>
      let i := parent j in
      if (i =? j) || negb (less_at l j i) then l else up fuel (swap l i j) i
  end.

Fixpoint down (fuel : nat) (l : list A) (i n : nat) : list A :=
  match fuel with
  | O => l
  | S fuel =>
      let j1 := 2 * i + 1 in
      if n <=? j1 then l
      else
        let j := if (j1 + 1 <? n) && less_at l (j1 + 1) j1 then j1 + 1 else j1 in
        if negb (less_at l j i) then l else down fuel (swap l i j) j n
  end.

Definition heap_push (l : list A) (x : A) : list A := up (S (length l)) (l ++ [x]) (length l).

Definition heap_pop (l : list A) : option (A * list A) :=
  let n := length l - 1 in
  let l := down n (swap l 0 n) 0 n in
  match l !! n with Some x => Some (x, take n l) | None => None end.

(** ** Swapping *)

Lemma swap_length l i j : length (swap l i j) = length l.
Proof. unfold swap. destruct (l !! i), (l !! j); [|done..]. by rewrite !length_insert. Qed.

Lemma swap_lookup l i j k x y :
  l !! i = Some x → l !! j = Some y → i ≠ j → swap l i j !! k = if decide (k = j) then Some x else if decide (k = i) then Some y else l !! k.
Proof.
  intros Hi Hj Hij. unfold swap. rewrite Hi, Hj. pose proof (lookup_lt_Some _ _ _ Hi). pose proof (lookup_lt_Some _ _ _ Hj).
  destruct (decide (k = j)) as [->|Hk]; [apply list_lookup_insert_eq; by rewrite length_insert|]. rewrite list_lookup_insert_ne by done.
  destruct (decide (k = i)) as [->|?]; [by apply list_lookup_insert_eq|by rewrite list_lookup_insert_ne].
Qed.

Lemma swap_permutation l i j : swap l i j ≡ₚ l.
Proof. unfold swap. destruct (l !! i) eqn:Hi, (l !! j) eqn:Hj; [|done..]. by apply Permutation_insert_swap. Qed.

Lemma up_permutation fuel : ∀ l j, up fuel l j ≡ₚ l.
Proof.
  induction fuel as [|fuel IH]; intros l j; cbn [up]; [done|]. destruct ((_ =? _) || _); [done|]. by rewrite IH, swap_permutation.
Qed.

Lemma down_permutation fuel : ∀ l i n, down fuel l i n ≡ₚ l.
Proof.
  induction fuel as [|fuel IH]; intros l i n; cbn [down]; [done|]. destruct (_ <=? _); [done|]. destruct (negb _); [done|]. by rewrite IH, swap_permutation.
Qed.

(** ** The order *)

(** [R x y]: [y] is not less than [x]. *)
Definition R (x y : A) : Prop := less y x = false.
Hypothesis less_order : PreOrder R.
Hypothesis less_weak : ∀ x y, less x y = true → R x y.

(** Every value is at least its parent, for the indices that satisfy [P]. *)
Definition ordered (P : nat → Prop) (l : list A) : Prop :=
  ∀ i x y, 0 < i → P i → l !! i = Some x → l !! parent i = Some y → R y x.

Definition heap_ok : list A → Prop := ordered (λ _, True).

(** The children of [j] are at least its parent. *)
Definition grand (P : nat → Prop) (l : list A) (j : nat) : Prop :=
  ∀ c x y, 0 < c → 0 < j → P c → parent c = j → l !! c = Some x → l !! parent j = Some y → R y x.

Lemma parent_lt j : 0 < j → parent j < j.
Proof. intros Hj. unfold parent. apply Nat.Div0.div_lt_upper_bound. lia. Qed.

Lemma parent_iff c j : 0 < c → parent c = j ↔ c = 2 * j + 1 ∨ c = 2 * j + 2.
Proof.
  intros Hc. unfold parent. pose proof (Nat.div_mod_eq (c - 1) 2). pose proof (Nat.mod_upper_bound (c - 1) 2).
  split; [lia|]. intros [->| ->]; [replace (2 * j + 1 - 1) with (j * 2) by lia; by apply Nat.div_mul|].
  replace (2 * j + 2 - 1) with (1 + j * 2) by lia. by rewrite Nat.div_add.
Qed.

Lemma heap_least l x : heap_ok l → l !! 0 = Some x → ∀ i y, l !! i = Some y → R x y.
Proof.
  intros Hh H0 i. induction (lt_wf i) as [i _ IH]. intros y Hy. destruct i as [|i]; [rewrite H0 in Hy; injection Hy as <-; reflexivity|].
  pose proof (parent_lt (S i) ltac:(lia)) as Hp. pose proof (lookup_lt_Some _ _ _ Hy).
  destruct (lookup_lt_is_Some_2 l (parent (S i)) ltac:(lia)) as [z Hz]. etrans; [by apply (IH (parent (S i)))|]. by apply (Hh (S i)); [lia|..].
Qed.

(** Exchanging [j] with its parent [i], which is greater, mends [j]. *)
Lemma swap_lookups l i j xi xj k x :
  l !! i = Some xi → l !! j = Some xj → i ≠ j → swap l i j !! k = Some x →
  k = j ∧ x = xi ∨ k = i ∧ x = xj ∨ k ≠ i ∧ k ≠ j ∧ l !! k = Some x.
Proof.
  intros Hi Hj Hne. rewrite (swap_lookup _ _ _ _ _ _ Hi Hj Hne). repeat case_decide; naive_solver.
Qed.

Lemma up_ok fuel : ∀ l j, j < length l → j < fuel → ordered (.≠ j) l → grand (λ _, True) l j → heap_ok (up fuel l j).
Proof.
  induction fuel as [|fuel IH]; intros l j Hj Hf Ho Hg; [lia|]. cbn [up]. destruct (lookup_lt_is_Some_2 l j Hj) as [xj Hxj].
  destruct (Nat.eqb_spec (parent j) j) as [Ej|Ej]; cbn [orb].
  { assert (j = 0) as -> by (destruct (decide (0 < j)) as [Hp%parent_lt|]; lia). intros i x y Hi _. apply Ho; [done|lia]. }
  assert (0 < j) as Hj0 by (destruct j; [by unfold parent in Ej|lia]). pose proof (parent_lt j Hj0) as Hp. set (i := parent j) in *.
  destruct (lookup_lt_is_Some_2 l i ltac:(lia)) as [xi Hxi]. unfold less_at. rewrite Hxi, Hxj. destruct (less xj xi) eqn:El; cbn [negb].
  - apply IH; [rewrite swap_length; lia|lia| |].
    + intros k x y Hk Hki Hx Hy. destruct (swap_lookups _ _ _ _ _ _ _ Hxi Hxj ltac:(lia) Hx) as [[-> ->]|[[-> _]|(_ & Hkj & Hx')]]; [|done|].
      * fold i in Hy. destruct (swap_lookups _ _ _ _ _ _ _ Hxi Hxj ltac:(lia) Hy) as [[? _]|[[_ ->]|(? & _)]]; [lia| |done]. by apply less_weak.
      * destruct (swap_lookups _ _ _ _ _ _ _ Hxi Hxj ltac:(lia) Hy) as [[Epk ->]|[[Epk ->]|(_ & _ & Hy')]].
        -- by apply (Hg k x xi).
        -- trans xi; [by apply less_weak|]. apply (Ho k x xi); [done|done|done|by rewrite Epk].
        -- by apply (Ho k).
    + intros c x y Hc Hi0 _ Hpc Hx Hy. pose proof (parent_lt i Hi0).
      destruct (swap_lookups _ _ _ _ _ _ _ Hxi Hxj ltac:(lia) Hy) as [[? _]|[[? _]|(_ & _ & Hy')]]; [lia..|].
      assert (R y xi) as Hyi by (apply (Ho i xi y); [done|lia|done|done]).
      destruct (swap_lookups _ _ _ _ _ _ _ Hxi Hxj ltac:(lia) Hx) as [[-> ->]|[[-> _]|(_ & Hcj & Hx')]]; [done|lia|].
      trans xi; [done|]. apply (Ho c x xi); [done|done|done|by rewrite Hpc].
  - intros k x y Hk _ Hx Hy. destruct (decide (k = j)) as [->|]; [|by apply (Ho k)]. fold i in Hy. rewrite Hxi in Hy. rewrite Hxj in Hx. by simplify_eq.
Qed.

Lemma down_ok fuel : ∀ l i n, n ≤ length l → n ≤ fuel + i → ordered (λ k, k < n ∧ parent k ≠ i) l → grand (λ k, k < n) l i →
  ordered (λ k, k < n) (down fuel l i n) ∧ ∀ k, n ≤ k → i < n → down fuel l i n !! k = l !! k.
Proof.
  induction fuel as [|fuel IH]; intros l i n Hl Hf Ho Hg; cbn [down].
  { split; [|done]. intros k x y Hk Hkn Hx Hy. apply (Ho k x y); [done| |done..]. split; [done|]. intros Hp%parent_iff; lia. }
  destruct (Nat.leb_spec n (2 * i + 1)) as [Hn|Hn].
  { split; [|done]. intros k x y Hk Hkn Hx Hy. apply (Ho k x y); [done| |done..]. split; [done|]. intros Hp%parent_iff; lia. }
  destruct (lookup_lt_is_Some_2 l i ltac:(lia)) as [xi Hxi].
  set (j := if (2 * i + 1 + 1 <? n) && less_at l (2 * i + 1 + 1) (2 * i + 1) then _ else _).
  assert (j < n ∧ parent j = i ∧ 0 < j ∧ ∃ xj, l !! j = Some xj ∧ ∀ k x, 0 < k → k < n → parent k = i → l !! k = Some x → R xj x) as (Hjn & Hpj & Hj0 & xj & Hxj & Hmin).
  { destruct (lookup_lt_is_Some_2 l (2 * i + 1) ltac:(lia)) as [x1 Hx1]. destruct ((2 * i + 1 + 1 <? n) && _) eqn:E; subst j.
    - apply andb_true_iff in E as [E1%Nat.ltb_lt E2]. unfold less_at in E2. destruct (l !! (2 * i + 1 + 1)) as [x2|] eqn:Hx2; [|done]. rewrite Hx1 in E2.
      split; [done|]. split; [apply parent_iff; lia|]. split; [lia|]. exists x2. split; [done|]. intros k x Hk _ [->| ->]%parent_iff Hx; [| |done].
      + simplify_eq. by apply less_weak.
      + replace (2 * i + 2) with (2 * i + 1 + 1) in Hx by lia. simplify_eq. reflexivity.
    - split; [done|]. split; [apply parent_iff; lia|]. split; [lia|]. exists x1. split; [done|]. intros k x Hk Hkn [->| ->]%parent_iff Hx; [| |done].
      + simplify_eq. reflexivity.
      + apply andb_false_iff in E as [E%Nat.ltb_ge|E]; [lia|]. unfold less_at in E. replace (2 * i + 1 + 1) with (2 * i + 2) in E by lia. by rewrite Hx, Hx1 in E. }
  clearbody j. pose proof (parent_lt j Hj0). unfold less_at. rewrite Hxi, Hxj. destruct (less xj xi) eqn:El; cbn [negb].
  - destruct (IH (swap l i j) j n) as [H1 H2]; [by rewrite swap_length|lia| | |split; [exact H1|]].
    + intros k x y Hk [Hkn Hpk] Hx Hy.
      destruct (swap_lookups _ _ _ _ _ _ _ Hxi Hxj ltac:(lia) Hx) as [[-> ->]|[[-> ->]|(Hki & Hkj & Hx')]].
      * rewrite Hpj in Hy. destruct (swap_lookups _ _ _ _ _ _ _ Hxi Hxj ltac:(lia) Hy) as [[? _]|[[_ ->]|(? & _)]]; [lia| |done]. by apply less_weak.
      * pose proof (parent_lt i Hk). destruct (swap_lookups _ _ _ _ _ _ _ Hxi Hxj ltac:(lia) Hy) as [[? _]|[[? _]|(_ & _ & Hy')]]; [lia..|]. by apply (Hg j xj y).
      * destruct (swap_lookups _ _ _ _ _ _ _ Hxi Hxj ltac:(lia) Hy) as [[? _]|[[Epk ->]|(Hpi & _ & Hy')]]; [done|by apply (Hmin k)|by apply (Ho k)].
    + intros c x y Hc _ Hcn Hpc Hx Hy. rewrite Hpj in Hy. pose proof (parent_lt c Hc).
      destruct (swap_lookups _ _ _ _ _ _ _ Hxi Hxj ltac:(lia) Hy) as [[? _]|[[_ ->]|(? & _)]]; [lia| |done].
      destruct (swap_lookups _ _ _ _ _ _ _ Hxi Hxj ltac:(lia) Hx) as [[? _]|[[? _]|(_ & _ & Hx')]]; [lia..|]. apply (Ho c x xj); [done|split; [done|lia]|done|by rewrite Hpc].
    + intros k Hk _. rewrite H2 by done. rewrite (swap_lookup _ _ _ _ _ _ Hxi Hxj) by lia. rewrite !decide_False by lia. done.
  - split; [|done]. intros k x y Hk Hkn Hx Hy. destruct (decide (parent k = i)) as [Hp|]; [|by apply (Ho k)]. rewrite Hp, Hxi in Hy. injection Hy as <-.
    trans xj; [exact El|]. by apply (Hmin k).
Qed.

(** ** Push and pop *)

Lemma heap_push_ok l x : heap_ok l → heap_ok (heap_push l x) ∧ heap_push l x ≡ₚ x :: l.
Proof.
  intros Hh. unfold heap_push. split; [|rewrite up_permutation; apply Permutation_app_comm]. apply up_ok; [rewrite length_app; cbn; lia|lia| |].
  - intros i y z Hi Hne Hy Hz. pose proof (parent_lt i Hi). pose proof (lookup_lt_Some _ _ _ Hy) as Hlt. rewrite length_app in Hlt. cbn in Hlt.
    rewrite lookup_app_l in Hy, Hz by lia. by apply (Hh i).
  - intros c y z Hc _ _ Hp Hy. pose proof (lookup_lt_Some _ _ _ Hy) as Hlt. rewrite length_app in Hlt. cbn in Hlt. apply parent_iff in Hp; lia.
Qed.

Lemma heap_pop_ok l : heap_ok l → l ≠ [] → ∃ x l', heap_pop l = Some (x, l') ∧ l ≡ₚ x :: l' ∧ heap_ok l' ∧ Forall (R x) l'.
Proof.
  intros Hh Hne. destruct l as [|x0 tl] eqn:El; [done|]. rewrite <-El in *. clear Hne. assert (l !! 0 = Some x0) as H0 by (by rewrite El).
  set (n := length l - 1). assert (length l = S n) as Hlen by (subst n; rewrite El; cbn; lia).
  destruct (lookup_lt_is_Some_2 l n ltac:(lia)) as [xn Hn].
  assert (∀ k, 0 < k → k < n → swap l 0 n !! k = l !! k) as Hmid.
  { intros k Hk Hkn. rewrite (swap_lookup _ _ _ _ _ _ H0 Hn) by lia. by rewrite !decide_False by lia. }
  destruct (down_ok n (swap l 0 n) 0 n) as [Ho Hrest]; [rewrite swap_length; lia|lia| |intros c x y; lia|].
  { intros k x y Hk [Hkn Hp] Hx Hy. pose proof (parent_lt k Hk). rewrite Hmid in Hx, Hy by lia. by apply (Hh k). }
  assert (down n (swap l 0 n) 0 n !! n = Some x0) as Hlast.
  { destruct (decide (0 < n)).
    - rewrite Hrest by lia. rewrite (swap_lookup _ _ _ _ _ _ H0 Hn) by lia. by rewrite decide_True.
    - assert (n = 0) as -> by lia. unfold swap. rewrite H0. by rewrite El. }
  unfold heap_pop. fold n. rewrite Hlast. exists x0, (take n (down n (swap l 0 n) 0 n)). split; [done|].
  assert (l ≡ₚ x0 :: take n (down n (swap l 0 n) 0 n)) as Hperm.
  { assert (length (down n (swap l 0 n) 0 n) = S n) as Hld by (rewrite (Permutation_length (down_permutation _ _ _ _)), swap_length; done).
    rewrite <-(swap_permutation l 0 n), <-(down_permutation n (swap l 0 n) 0 n) at 1. rewrite <-(take_drop_middle _ _ _ Hlast) at 1.
    rewrite drop_ge by lia. by rewrite Permutation_app_comm. }
  split; [done|]. split.
  - intros k x y Hk _ Hx Hy. apply lookup_take_Some in Hx as [Hx Hkn]. apply lookup_take_Some in Hy as [Hy _]. by apply (Ho k).
  - apply list.Forall_forall. intros y Hy. assert (y ∈ l) as [i Hi]%list_elem_of_lookup by (rewrite Hperm; by right). by apply (heap_least l x0 Hh H0 i).
Qed.
End Heap.
End GoHeap.
