(* ===== verification/Errors.v ===== *)
(** * The error taxonomy of internal/domain/errors.go

    An error value is one of the shapes the program builds: a [*domain.Error],
    one of the package sentinels, an error wrapped by [fmt.Errorf("...%w")], or
    an error of some other package about which only its text is known. *)

From S2P Require Import Prelude.

Abbreviation ErrorKind := gostring (only parsing).
Definition ErrorInvalid : ErrorKind := "invalid".
Definition ErrorUnauthenticated : ErrorKind := "unauthenticated".
Definition ErrorUnauthorized : ErrorKind := "unauthorized".
Definition ErrorNotFound : ErrorKind := "not_found".
Definition ErrorConflict : ErrorKind := "conflict".
Definition ErrorPreconditionFailed : ErrorKind := "precondition_failed".
Definition ErrorRateLimited : ErrorKind := "rate_limited".
Definition ErrorUnavailable : ErrorKind := "unavailable".
Definition ErrorInternal : ErrorKind := "internal".

(** The [errors.New] sentinels; two are equal only when they are the same one. *)
Inductive Sentinel :=
| ErrInvalid | ErrUnauthenticated | ErrUnauthorized | ErrNotFound | ErrConflict
| ErrPreconditionFailed | ErrRateLimited | ErrUnavailable | ErrInternal.

#[export] Instance Sentinel_eq_dec : EqDecision Sentinel.
Proof. solve_decision. Defined.

Inductive error :=
| DomainError (Kind : ErrorKind) (Message : gostring) (Cause : option error)
| SentinelError (s : Sentinel)
| Errorf (prefix : gostring) (wrapped : error)
| OtherError (text : gostring).

Abbreviation res := (result error).

(** [ctx.Err()]: [None] while the request is live. *)
Abbreviation context := (option error).

Definition sentinel (kind : ErrorKind) : Sentinel :=
  if decide (kind = ErrorInvalid) then ErrInvalid
  else if decide (kind = ErrorUnauthenticated) then ErrUnauthenticated
  else if decide (kind = ErrorUnauthorized) then ErrUnauthorized
  else if decide (kind = ErrorNotFound) then ErrNotFound
  else if decide (kind = ErrorConflict) then ErrConflict
  else if decide (kind = ErrorPreconditionFailed) then ErrPreconditionFailed
  else if decide (kind = ErrorRateLimited) then ErrRateLimited
  else if decide (kind = ErrorUnavailable) then ErrUnavailable
  else ErrInternal.

Definition NewError (kind : ErrorKind) (message : gostring) : error :=
  DomainError kind message None.
Definition WrapError (kind : ErrorKind) (message : gostring) (cause : error) : error :=
  DomainError kind message (Some cause).

(** The method [Unwrap] of [*domain.Error]. *)
Definition Error_Unwrap (Kind : ErrorKind) (Cause : option error) : error :=
  match Cause with
  | Some cause => cause
  | None => SentinelError (sentinel Kind)
  end.

(** The method [Is] of [*domain.Error]. *)
Definition Error_Is (Kind : ErrorKind) (target : Sentinel) : bool :=
  bool_decide (target = sentinel Kind).

(** The method [Error] of [*domain.Error]. *)
Definition Error_Error (Kind : ErrorKind) (Message : gostring) : gostring :=
  if decide (Message = []) then Kind else Kind ++ ": " ++ Message.

(** [errors.Is(err, target)] for a sentinel target: the chain of [Unwrap]s,
    asking equality and then the error's own [Is] method at each link. *)
Fixpoint errors_Is (err : error) (target : Sentinel) : bool :=
  match err with
  | DomainError kind _ cause =>
      Error_Is kind target ||
      match cause with
      | Some e => errors_Is e target
      | None => bool_decide (sentinel kind = target)
      end
  | SentinelError s => bool_decide (s = target)
  | Errorf _ e => errors_Is e target
  | OtherError _ => false
  end.

(** [errors.As(err, &domainError)]: the first [*domain.Error] of the chain. *)
Fixpoint errors_As (err : error) : option ErrorKind :=
  match err with
  | DomainError kind _ _ => Some kind
  | Errorf _ e => errors_As e
  | SentinelError _ | OtherError _ => None
  end.

Definition kind_candidates : list ErrorKind :=
  [ErrorInvalid; ErrorUnauthenticated; ErrorUnauthorized; ErrorNotFound; ErrorConflict;
   ErrorPreconditionFailed; ErrorRateLimited; ErrorUnavailable].

Definition KindOf (err : error) : ErrorKind :=
  match errors_As err with
  | Some kind => kind
  | None =>
      match filter (λ candidate, errors_Is err (sentinel candidate) = true) kind_candidates with
      | candidate :: _ => candidate
      | [] => ErrorInternal
      end
  end.

(** ** What callers rely on *)

Lemma KindOf_NewError k m : KindOf (NewError k m) = k.
Proof. done. Qed.

Lemma KindOf_WrapError k m e : KindOf (WrapError k m e) = k.
Proof. done. Qed.

Lemma KindOf_Errorf p e : KindOf (Errorf p e) = KindOf e.
Proof. done. Qed.

Lemma KindOf_SentinelError s : sentinel (KindOf (SentinelError s)) = s.
Proof. by destruct s. Qed.

Lemma errors_Is_As err k : errors_As err = Some k → errors_Is err (sentinel k) = true.
Proof.
  induction err as [kind m c| |p e IH|]; simpl; try done.
  intros [= ->]. unfold Error_Is. by rewrite bool_decide_eq_true_2.
Qed.

(** Two links of the taxonomy agree: the stable kind reported for an error is
    one whose sentinel the error matches, unless nothing in its chain is known. *)
Lemma KindOf_candidate err :
  errors_As err = None → KindOf err ≠ ErrorInternal → errors_Is err (sentinel (KindOf err)) = true.
Proof.
  unfold KindOf. intros ->.
  destruct (filter _ kind_candidates) as [|c l] eqn:E; [done|]. intros _.
  assert (c ∈ filter (λ k, errors_Is err (sentinel k) = true) kind_candidates) as Hc
    by (rewrite E; set_solver).
  by apply list_elem_of_filter in Hc as [Hc _].
Qed.

(** [fails_only k r]: if [r] is an error, its kind is [k]. *)
Definition fails_only {A} (k : ErrorKind) (r : res A) : Prop :=
  match r with Ok _ => True | Err e => KindOf e = k end.

Lemma fails_only_guard k c m : fails_only k (guard_err c (NewError k m)).
Proof. by destruct c. Qed.

Lemma fails_only_Ok {A} k (a : A) : fails_only k (Ok a).
Proof. done. Qed.

Lemma fails_only_Err {A} k m : @fails_only A k (Err (NewError k m)).
Proof. done. Qed.

Lemma fails_only_bind {A B} k (r : res A) (f : A → res B) :
  fails_only k r → (∀ a, fails_only k (f a)) → fails_only k (r ≫= f).
Proof. destruct r; simpl; auto. Qed.

Lemma fails_only_elim {A} k (r : res A) e : fails_only k r → r = Err e → KindOf e = k.
Proof. by intros ? ->. Qed.

#[export] Hint Resolve fails_only_guard fails_only_Ok fails_only_Err : endlessfs.

(** Walk a monadic body whose every refusal carries the same kind. *)
Ltac solve_fails_only :=
  repeat match goal with
  | |- fails_only _ (_ ≫= _) => apply fails_only_bind; [|intros ?]
  | |- fails_only _ (if ?c then _ else _) => destruct c
  | |- fails_only _ (let _ := _ in _) => cbv zeta
  end; eauto with endlessfs.
