(* ===== verification/DomainPath.v ===== *)
(** * Virtual paths: internal/domain/path.go

    [UserPath] is the provider-independent absolute path every operation of
    the drive takes.  Unicode normalization is golang.org/x/text, outside the
    sources: it is the parameter [nfc] of the class [NFC], with the facts the
    code relies on in [NFCLaws]. *)

From Stdlib Require Import ZArith Lia.
From S2P Require Import Prelude GoLib Errors.

Open Scope Z_scope.

(** [norm.NFC.String] *)
Class NFC := nfc : gostring → gostring.

(** Unicode NFC is idempotent, maps valid UTF-8 to valid UTF-8 and the empty
    string to itself, and treats U+002F as an inert boundary: it neither
    composes with its neighbours nor arises from other characters. *)
Class NFCLaws `{NFC} : Prop := {
  nfc_idem s : nfc (nfc s) = nfc s;
  nfc_valid s : ValidString s = true → ValidString (nfc s) = true;
  nfc_empty : nfc [] = [];
  nfc_slash s t : nfc (s ++ slash :: t) = nfc s ++ slash :: nfc t;
  nfc_no_slash s : slash ∉ s → slash ∉ nfc s;
}.

(** The identity satisfies the laws (it is NFC on ASCII text). *)
Definition ascii_nfc : NFC := λ s, s.
Lemma ascii_nfc_laws : @NFCLaws ascii_nfc.
Proof. by split. Qed.

Definition maxPathBytes : Z := 4096.
Definition maxSegmentBytes : Z := 255.

(** The zero value ([normalized] empty) is invalid. *)
Record UserPath := { normalized : gostring }.

#[export] Instance UserPath_eq_dec : EqDecision UserPath.
Proof. solve_decision. Defined.
#[export] Instance UserPath_countable : Countable UserPath.
Proof.
  apply (inj_countable' normalized (λ s, {| normalized := s |})). by intros [].
Defined.

Definition root_path : UserPath := {| normalized := "/" |}.
Definition zero_path : UserPath := {| normalized := [] |}.

Definition forbidden_char (character : Z) : bool :=
  (character =? 0x5C) || (character =? 0) || (character <? 0x20) || (character =? 0x7F).

Definition validatePathSegment (segment : gostring) : res unit :=
  _ ← guard_err (bool_decide (segment = [])) (NewError ErrorInvalid "empty path segment");
  _ ← guard_err (maxSegmentBytes <? len segment)
        (NewError ErrorInvalid "path segment exceeds 255 UTF-8 bytes");
  _ ← guard_err (bool_decide (segment = ".") || bool_decide (segment = ".."))
        (NewError ErrorInvalid "dot path segment");
  guard_err (existsb (λ r, forbidden_char (fst r)) (runes segment))
    (NewError ErrorInvalid "forbidden path character").

(** The loop over [segments], wrapping the first error with its position. *)
Fixpoint validate_segments (index : Z) (segments : list gostring) : res unit :=
  match segments with
  | [] => Ok tt
  | segment :: segments =>
      match validatePathSegment segment with
      | Err err => Err (Errorf ("segment " ++ Itoa (index + 1) ++ ": ") err)
      | Ok _ => validate_segments (index + 1) segments
      end
  end.

Definition reserved_segment (segment : gostring) : bool :=
  EqualFold_ascii segment ".endlessfs" || EqualFold_ascii segment ".trash".

Section Path.
Context `{NFC}.

Definition ParseUserPath (value : gostring) : res UserPath :=
  _ ← guard_err (negb (ValidString value)) (NewError ErrorInvalid "path must be valid UTF-8");
  let value := nfc value in
  if bool_decide (value = "/") then Ok {| normalized := value |} else
  _ ← guard_err (bool_decide (value = []) || bool_decide (head value ≠ Some slash))
        (NewError ErrorInvalid "path must be absolute");
  _ ← guard_err (maxPathBytes <? len value)
        (NewError ErrorInvalid "path exceeds 4096 UTF-8 bytes");
  _ ← guard_err (HasSuffix value "/")
        (NewError ErrorInvalid "path must not have a trailing separator");
  let segments := split_on slash (drop 1 value) in
  _ ← validate_segments 0 segments;
  _ ← guard_err (reserved_segment (default [] (head segments)))
        (NewError ErrorInvalid "reserved top-level path");
  Ok {| normalized := value |}.

Definition String (p : UserPath) : gostring := normalized p.
Definition IsRoot (p : UserPath) : bool := bool_decide (normalized p = "/").
Definition Valid (p : UserPath) : bool := bool_decide (normalized p ≠ []).

Definition Segments (p : UserPath) : list gostring :=
  if IsRoot p then []
  else if negb (Valid p) then []
  else split_on slash (drop 1 (normalized p)).

Definition Name (p : UserPath) : gostring :=
  match last (Segments p) with
  | Some name => name
  | None => []
  end.

Definition Parent (p : UserPath) : UserPath :=
  if negb (Valid p) || IsRoot p then root_path
  else match last_index_byte slash (normalized p) with
       | Some 0%nat => root_path
       | Some index => {| normalized := take index (normalized p) |}
       | None => zero_path
       end.

Definition Join (p : UserPath) (segment : gostring) : res UserPath :=
  _ ← guard_err (negb (Valid p)) (NewError ErrorInvalid "invalid base path");
  _ ← guard_err (negb (ValidString segment))
        (NewError ErrorInvalid "path segment must be valid UTF-8");
  let segment := nfc segment in
  _ ← validatePathSegment segment;
  _ ← guard_err (reserved_segment segment && IsRoot p)
        (NewError ErrorInvalid "reserved top-level path");
  let value := if IsRoot p then slash :: segment
               else normalized p ++ slash :: segment in
  ParseUserPath value.

Definition IsDescendantOf (p root : UserPath) : bool :=
  if negb (Valid p) || negb (Valid root) || bool_decide (p = root) then false
  else if IsRoot root then negb (IsRoot p)
  else HasPrefix (normalized p) (normalized root ++ [slash]).
End Path.

(** ** The canonical form of a path: a list of segments *)

Definition path_of (l : list gostring) : gostring :=
  match l with [] => [slash] | _ => slash :: join [slash] l end.

Section Theory.
Context `{NFCLaws}.

(** What one segment of a canonical path satisfies. *)
Record good_segment (s : gostring) : Prop := {
  seg_nonempty : s ≠ [];
  seg_short : len s ≤ maxSegmentBytes;
  seg_not_dot : s ≠ "." ∧ s ≠ "..";
  seg_chars : Forall (λ r, forbidden_char (fst r) = false) (runes s);
  seg_no_slash : slash ∉ s;
  seg_utf8 : ValidString s = true;
  seg_nfc : nfc s = s;
}.

Record good_segments (l : list gostring) : Prop := {
  gs_each : Forall good_segment l;
  gs_short : len (path_of l) ≤ maxPathBytes;
  gs_reserved : reserved_segment (default [] (head l)) = false;
}.

Lemma slash_ascii : byte_val slash < 0x80.
Proof. done. Qed.

Lemma validatePathSegment_Ok s :
  validatePathSegment s = Ok tt ↔
  s ≠ [] ∧ len s ≤ maxSegmentBytes ∧ (s ≠ "." ∧ s ≠ "..") ∧
  Forall (λ r, forbidden_char (fst r) = false) (runes s).
Proof.
  assert (existsb (λ r, forbidden_char (fst r)) (runes s) = false ↔
          Forall (λ r, forbidden_char (fst r) = false) (runes s)) as Hch.
  { induction (runes s) as [|r rs IH]; simpl; [by split; [constructor|]|].
    rewrite orb_false_iff, IH, list.Forall_cons. done. }
  unfold validatePathSegment. rewrite <-Hch. split.
  - intros E. inv_go. rewrite orb_false_iff in *.
    rewrite bool_decide_eq_false, Z.ltb_ge in *. destruct_and!.
    rewrite !bool_decide_eq_false in *. done.
  - intros (H1 & H2 & [H3 H4] & H5).
    rewrite !bool_decide_eq_false_2 by done. apply Z.ltb_ge in H2. by rewrite H2, H5.
Qed.

Lemma validate_segments_Ok i l :
  validate_segments i l = Ok tt ↔ Forall (λ s, validatePathSegment s = Ok tt) l.
Proof.
  revert i. induction l as [|s l IH]; intros i; simpl; [done|].
  rewrite list.Forall_cons. destruct (validatePathSegment s) as [[]|]; [|naive_solver].
  rewrite IH. naive_solver.
Qed.

Lemma nfc_join l : Forall (λ s, slash ∉ s) l → nfc (join [slash] l) = join [slash] (map nfc l).
Proof.
  induction 1 as [|s l Hs Hl IH]; [apply nfc_empty|].
  destruct l as [|s' l]; [done|].
  change (join [slash] (s :: s' :: l)) with (s ++ slash :: join [slash] (s' :: l)).
  rewrite nfc_slash, IH. done.
Qed.

Lemma map_id_Forall {A} (f : A → A) k : map f k = k → Forall (λ x, f x = x) k.
Proof. induction k as [|x k IH]; [done|]. simpl. intros [= ??]. constructor; auto. Qed.

Lemma nfc_path_of l :
  l ≠ [] → Forall (λ s, slash ∉ s) l →
  nfc (path_of l) = path_of l → Forall (λ s, nfc s = s) l.
Proof.
  intros Hl Hns E. apply map_id_Forall, (join_inj slash); try done.
  - by destruct l.
  - apply Forall_map. eapply list.Forall_impl; [done|]. apply nfc_no_slash.
  - rewrite <-nfc_join by done.
    assert (path_of l = [] ++ slash :: join [slash] l) as Ep by (by destruct l).
    rewrite Ep, nfc_slash, nfc_empty in E. cbn [app] in E. congruence.
Qed.

Lemma good_path_of_nfc l : Forall good_segment l → nfc (path_of l) = path_of l.
Proof.
  intros Hg. assert (∀ t, nfc (slash :: t) = slash :: nfc t) as Hs.
  { intros t. change (slash :: t) with ([] ++ slash :: t). by rewrite nfc_slash, nfc_empty. }
  destruct l as [|s l]; unfold path_of; rewrite Hs; [by rewrite nfc_empty|].
  rewrite nfc_join by (eapply list.Forall_impl; [done|]; by intros ? []).
  do 2 f_equal. induction Hg as [|x k Hx Hk IH]; [done|]. simpl. rewrite IH. f_equal. apply Hx.
Qed.

Lemma good_path_of_utf8 l : Forall good_segment l → ValidString (path_of l) = true.
Proof.
  intros Hg. destruct l as [|s l]; [done|]. unfold path_of.
  change (slash :: join [slash] (s :: l)) with ([] ++ slash :: join [slash] (s :: l)).
  rewrite ValidString_app_ascii, ValidString_join by done. cbn [andb].
  apply forallb_forall. intros x Hx%list_elem_of_In.
  rewrite list.Forall_forall in Hg. by apply Hg.
Qed.

Lemma path_of_not_root l : l ≠ [] → Forall (λ s, s ≠ []) l → path_of l ≠ [slash].
Proof.
  destruct l as [|s l]; [done|]. intros _ [Hs Hl]%list.Forall_cons. unfold path_of.
  intros [= E]. destruct l; simpl in E; [done|]. by apply app_nil in E as [? ?].
Qed.

Lemma path_of_no_trailing l :
  l ≠ [] → Forall (λ s, s ≠ [] ∧ slash ∉ s) l → HasSuffix (path_of l) [slash] = false.
Proof.
  intros Hl Hall. destruct l as [|s l] using rev_ind; [done|].
  apply Forall_app in Hall as [_ [[Hs Hns] _]%list.Forall_cons].
  destruct s as [|c s _] using rev_ind; [done|].
  assert (∃ k, path_of (l ++ [s ++ [c]]) = k ++ [c]) as [k ->].
  { destruct l as [|x l].
    - by exists (slash :: s).
    - exists (slash :: join [slash] (x :: l) ++ slash :: s).
      change (path_of ((x :: l) ++ [s ++ [c]])) with (slash :: join [slash] ((x :: l) ++ [s ++ [c]])).
      rewrite join_snoc by done. simpl. by rewrite <-!(assoc_L (++)). }
  rewrite HasSuffix_snoc. apply bool_decide_eq_false_2. intros ->. set_solver.
Qed.

Lemma head_slash_join (v : gostring) :
  head v = Some slash → v = slash :: join [slash] (split_on slash (drop 1 v)).
Proof.
  destruct v as [|c v]; [done|]. intros [= ->]. simpl. by rewrite drop_0, join_split_on.
Qed.

Lemma good_segments_weaken l : good_segments l → Forall (λ s, s ≠ [] ∧ slash ∉ s) l.
Proof. intros [Hg _ _]. eapply list.Forall_impl; [done|]. by intros ? []. Qed.

Lemma good_nonempty l : Forall (λ s, s ≠ [] ∧ slash ∉ s) l → Forall (λ s : gostring, s ≠ []) l.
Proof. intros Hg. eapply list.Forall_impl; [done|]. by intros ? []. Qed.
Lemma good_noslash l : Forall (λ s, s ≠ [] ∧ slash ∉ s) l → Forall (λ s : gostring, slash ∉ s) l.
Proof. intros Hg. eapply list.Forall_impl; [done|]. by intros ? []. Qed.

Lemma good_segments_nil : good_segments [].
Proof. split; [apply List.Forall_nil|by vm_compute|by vm_compute]. Qed.

(** Soundness: what an accepted string denotes. *)
Lemma ParseUserPath_sound v p :
  ParseUserPath v = Ok p →
  ValidString v = true ∧ ∃ l, good_segments l ∧ nfc v = path_of l ∧ p = {| normalized := path_of l |}.
Proof.
  unfold ParseUserPath. intros E. inv_go. apply negb_false_iff in H1.
  split; [done|]. case_bool_decide as Hr.
  { injection E as <-. exists []. rewrite Hr. split; [apply good_segments_nil|done]. }
  inv_go. injection E as <-.
  match goal with Hx : _ || _ = false |- _ =>
    apply orb_false_iff in Hx as [Hne%bool_decide_eq_false Hh%bool_decide_eq_false] end.
  match goal with Hx : (_ <? _) = false |- _ => apply Z.ltb_ge in Hx end.
  apply dec_stable in Hh.
  match goal with Hx : validate_segments _ _ = Ok ?u |- _ =>
    destruct u; rename Hx into Hvs; rewrite validate_segments_Ok in Hvs end.
  pose proof (head_slash_join _ Hh) as Ev.
  set (l := split_on slash (drop 1 (nfc v))) in *.
  assert (l ≠ []) as Hl by apply split_on_nonempty.
  assert (path_of l = nfc v) as Ep by (rewrite Ev; by destruct l).
  assert (Forall (λ s, slash ∉ s) l) as Hns by apply split_on_no_sep.
  assert (Forall (λ s, nfc s = s) l) as Hnf.
  { apply nfc_path_of; [done..|]. by rewrite Ep, nfc_idem. }
  assert (forallb ValidString l = true) as Hu.
  { pose proof (nfc_valid _ H1) as Hv. rewrite Ev in Hv.
    change (slash :: join [slash] l) with ([] ++ slash :: join [slash] l) in Hv.
    by rewrite ValidString_app_ascii, ValidString_join in Hv by done. }
  exists l. rewrite Ep. split; [|done]. split; [|by rewrite Ep|done].
  apply list.Forall_forall. intros s Hs.
  rewrite list.Forall_forall in Hvs, Hns, Hnf. rewrite forallb_forall in Hu.
  destruct (proj1 (validatePathSegment_Ok s) (Hvs s Hs)) as (? & ? & ? & ?).
  split; try done; [by apply Hns|by apply Hu, list_elem_of_In|by apply Hnf].
Qed.

(** Completeness: every canonical path is accepted and is its own result. *)
Lemma ParseUserPath_complete l v :
  good_segments l → ValidString v = true → nfc v = path_of l →
  ParseUserPath v = Ok {| normalized := path_of l |}.
Proof.
  intros Hg Hv Ev. unfold ParseUserPath. rewrite Hv, Ev. cbn [negb guard_err].
  pose proof (good_segments_weaken l Hg) as Hw. destruct Hg as [Hg Hlen Hres].
  change (bs "/") with [slash]. cbn [mbind result_bind].
  case_bool_decide as Hr; [done|].
  destruct l as [|s l]; [done|].
  assert (head (path_of (s :: l)) = Some slash) as Hh by done.
  rewrite Hh, (bool_decide_eq_false_2 (path_of (s :: l) = [])) by done.
  rewrite bool_decide_eq_false_2 by naive_solver. cbn [orb guard_err mbind result_bind].
  apply Z.ltb_ge in Hlen. rewrite Hlen. cbn [guard_err mbind result_bind].
  rewrite path_of_no_trailing by done. cbn [guard_err mbind result_bind].
  assert (split_on slash (drop 1 (path_of (s :: l))) = s :: l) as ->.
  { change (drop 1 (path_of (s :: l))) with (drop 0 (join [slash] (s :: l))).
    rewrite drop_0. apply split_on_join; [done|by apply good_noslash]. }
  assert (validate_segments 0 (s :: l) = Ok tt) as ->.
  { apply validate_segments_Ok. eapply list.Forall_impl; [exact Hg|].
    intros x []. by apply validatePathSegment_Ok. }
  cbn [mbind result_bind]. by rewrite Hres.
Qed.

Lemma ParseUserPath_path_of l :
  good_segments l → ParseUserPath (path_of l) = Ok {| normalized := path_of l |}.
Proof.
  intros Hg. apply ParseUserPath_complete; [done|..]; destruct Hg as [Hg _ _];
    [by apply good_path_of_utf8|by apply good_path_of_nfc].
Qed.

(** ** The accessors on canonical paths *)

Definition of_segments (l : list gostring) : UserPath := {| normalized := path_of l |}.

Lemma IsRoot_of_segments l :
  Forall (λ s, s ≠ [] ∧ slash ∉ s) l → IsRoot (of_segments l) = bool_decide (l = []).
Proof.
  intros Hl. unfold IsRoot. apply bool_decide_ext. split; [|by intros ->].
  intros E. destruct l; [done|]. exfalso.
  by eapply path_of_not_root; [..|exact E]; [|apply good_nonempty].
Qed.

Lemma Valid_of_segments l : Valid (of_segments l) = true.
Proof. unfold Valid. apply bool_decide_eq_true_2. by destruct l. Qed.

Lemma Segments_of_segments l :
  Forall (λ s, s ≠ [] ∧ slash ∉ s) l → Segments (of_segments l) = l.
Proof.
  intros Hl. unfold Segments. rewrite IsRoot_of_segments, Valid_of_segments by done.
  case_bool_decide as E; [done|]. simpl. destruct l as [|s l]; [done|].
  simpl. rewrite drop_0. apply (split_on_join slash (s :: l)); [done|by apply good_noslash].
Qed.

Lemma path_of_snoc l s :
  path_of (l ++ [s]) = (if decide (l = []) then [] else path_of l) ++ slash :: s.
Proof.
  destruct l as [|x l]; [done|]. rewrite decide_False by done.
  change (path_of ((x :: l) ++ [s])) with (slash :: join [slash] ((x :: l) ++ [s])).
  by rewrite join_snoc.
Qed.

Lemma Parent_of_segments l s :
  Forall (λ s, s ≠ [] ∧ slash ∉ s) (l ++ [s]) → Parent (of_segments (l ++ [s])) = of_segments l.
Proof.
  intros Hl. unfold Parent. rewrite IsRoot_of_segments, Valid_of_segments by done.
  rewrite bool_decide_eq_false_2 by (by destruct l). cbn [negb orb].
  apply Forall_app in Hl as [Hl [[Hs Hns] _]%list.Forall_cons].
  unfold of_segments at 1. cbn [normalized]. rewrite path_of_snoc, last_index_byte_app by done.
  case_decide as Hnil; [by subst l|]. unfold of_segments. cbn [normalized].
  rewrite path_of_snoc, decide_False, take_app_length by done.
  destruct l; [done|]. by unfold path_of.
Qed.

Lemma Name_of_segments l s :
  Forall (λ s, s ≠ [] ∧ slash ∉ s) (l ++ [s]) → Name (of_segments (l ++ [s])) = s.
Proof. intros Hl. unfold Name. by rewrite Segments_of_segments, last_snoc. Qed.

Lemma path_of_inj l l' :
  Forall (λ s, s ≠ [] ∧ slash ∉ s) l → Forall (λ s, s ≠ [] ∧ slash ∉ s) l' →
  path_of l = path_of l' → l = l'.
Proof.
  intros Hl Hl' E. rewrite <-(Segments_of_segments l), <-(Segments_of_segments l') by done.
  unfold of_segments. by rewrite E.
Qed.

Lemma path_of_app l k :
  k ≠ [] → path_of (l ++ k) = (if decide (l = []) then [] else path_of l) ++ path_of k.
Proof.
  intros Hk. destruct l as [|x l]; [done|]. rewrite decide_False by done.
  induction k as [|y k IH] using rev_ind; [done|].
  rewrite (assoc_L (++)), path_of_snoc, decide_False by (by destruct l).
  rewrite path_of_snoc. destruct k as [|z k]; [by rewrite (right_id_L [] (++))|].
  rewrite decide_False by done. rewrite IH by done. by rewrite <-(assoc_L (++)).
Qed.

Definition segs_ok (l : list gostring) : Prop := Forall (λ s, s ≠ [] ∧ slash ∉ s) l.

Lemma Join_value l s :
  (if IsRoot (of_segments l) then slash :: s else normalized (of_segments l) ++ slash :: s)
  = path_of (l ++ [s]) ∨ ¬ segs_ok l.
Proof.
  destruct (decide (segs_ok l)) as [Hl|?]; [left|by right].
  rewrite IsRoot_of_segments by done. rewrite path_of_snoc.
  case_bool_decide; case_decide; done.
Qed.

Lemma nfc_path_snoc l s :
  good_segments l → nfc (path_of (l ++ [nfc s])) = path_of (l ++ [nfc s]).
Proof.
  intros Hg. rewrite path_of_snoc, nfc_slash, nfc_idem. case_decide; [by rewrite nfc_empty|].
  rewrite good_path_of_nfc; [done|apply Hg].
Qed.

Lemma path_of_inj_noslash l l' :
  l ≠ [] → l' ≠ [] → Forall (λ s, slash ∉ s) l → Forall (λ s, slash ∉ s) l' →
  path_of l = path_of l' → l = l'.
Proof.
  intros Hl Hl' Hs Hs' E. apply (join_inj slash); [done..|].
  assert (∀ m : list gostring, m ≠ [] → path_of m = slash :: join [slash] m) as Hp by (by intros []).
  rewrite !Hp in E by done. by injection E.
Qed.

Lemma path_of_two l a b :
  path_of (l ++ [a ++ slash :: b]) = path_of (l ++ [a; b]) ∧ (2 ≤ length (path_of (l ++ [a; b])))%nat.
Proof.
  change [a; b] with ([a] ++ [b]).
  rewrite (assoc_L (++)), (path_of_snoc (l ++ [a])), decide_False by (by destruct l).
  rewrite !path_of_snoc, <-(assoc_L (++)). split; [done|].
  rewrite !length_app. cbn [length]. rewrite ?length_app. cbn [length]. lia.
Qed.

Lemma Join_spec l s q :
  good_segments l → slash ∉ s →
  Join (of_segments l) s = Ok q ↔
  ValidString s = true ∧ good_segments (l ++ [nfc s]) ∧ q = of_segments (l ++ [nfc s]).
Proof.
  intros Hg Hs. pose proof (good_segments_weaken l Hg) as Hw.
  destruct (Join_value l (nfc s)) as [Ev|]; [|done].
  unfold Join. rewrite Valid_of_segments, Ev. cbn [negb guard_err mbind result_bind].
  split.
  - intros E. inv_go. destruct x0.
    match goal with Hx : negb _ = false |- _ => apply negb_false_iff in Hx; rename Hx into Hv end.
    match goal with Hx : validatePathSegment _ = _ |- _ =>
      apply validatePathSegment_Ok in Hx as (Hne & ? & ? & ?) end.
    apply ParseUserPath_sound in E as (_ & l' & Hg' & El' & ->).
    rewrite nfc_path_snoc in El' by done. apply path_of_inj in El'; [by subst l'| |by apply good_segments_weaken].
    apply Forall_app. split; [done|]. constructor; [|done]. split; [done|by apply nfc_no_slash].
  - intros (Hv & Hg' & ->). rewrite Hv. cbn [negb guard_err mbind result_bind].
    pose proof Hg' as [Hall _ Hres]. apply Forall_app in Hall as [_ [Hseg _]%list.Forall_cons].
    assert (validatePathSegment (nfc s) = Ok tt) as ->.
    { apply validatePathSegment_Ok. by destruct Hseg. }
    cbn [mbind result_bind].
    assert (reserved_segment (nfc s) && IsRoot (of_segments l) = false) as ->.
    { rewrite IsRoot_of_segments by done. case_bool_decide; [|by rewrite andb_false_r].
      subst l. simpl in Hres. by rewrite Hres. }
    cbn [guard_err mbind result_bind]. by apply ParseUserPath_path_of.
Qed.

Lemma IsDescendantOf_spec l r :
  segs_ok l → segs_ok r →
  IsDescendantOf (of_segments l) (of_segments r) = true ↔ ∃ k, k ≠ [] ∧ l = r ++ k.
Proof.
  intros Hl Hr. unfold IsDescendantOf.
  rewrite !Valid_of_segments, !IsRoot_of_segments by done. cbn [negb orb].
  case_bool_decide as E.
  { apply (f_equal normalized) in E. apply path_of_inj in E as ->; [|done..].
    split; [done|]. intros (k & Hk & E). by rewrite <-(app_nil_r r) in E at 1; simplify_eq. }
  case_bool_decide as Er; [subst r|].
  { rewrite negb_true_iff, bool_decide_eq_false. split.
    - intros Hne. by exists l.
    - by intros (k & Hk & ->). }
  rewrite HasPrefix_spec. unfold of_segments. cbn [normalized]. split.
  - intros [k Ek]. exists (split_on slash k). split; [apply split_on_nonempty|].
    destruct r as [|x r]; [done|]. destruct l as [|y l].
    { apply (f_equal length) in Ek. unfold path_of in Ek.
      rewrite !length_app in Ek. cbn [length] in Ek. lia. }
    assert (join [slash] (y :: l) = join [slash] (x :: r) ++ [slash] ++ k) as Ek'.
    { unfold path_of in Ek. rewrite <-(assoc_L (++)) in Ek. by injection Ek. }
    apply (join_inj slash); [done|by destruct r|by apply good_noslash| |].
    { apply Forall_app. split; [by apply good_noslash|apply split_on_no_sep]. }
    rewrite join_app by (done || apply split_on_nonempty). by rewrite join_split_on.
  - intros (k & Hk & ->). rewrite path_of_app by done. rewrite decide_False by done.
    destruct k as [|x k]; [done|]. unfold path_of at 3.
    exists (join [slash] (x :: k)). by rewrite <-(assoc_L (++)).
Qed.
End Theory.

(** ** Properties of virtual paths *)

Section Properties.
Context `{NFCLaws}.

Lemma parse_parsed v p : ParseUserPath v = Ok p → ∃ l, good_segments l ∧ p = of_segments l.
Proof. intros (_ & l & Hg & _ & ->)%ParseUserPath_sound. by exists l. Qed.

(** [ParseUserPath] accepts exactly the valid UTF-8 strings whose NFC form
    is a canonical absolute path (segments of 1 to 255 bytes, none of them [.]
    or [..], no backslash, NUL, control or DEL character, at most 4096 bytes in
    all, no reserved first segment), and returns that form. *)
Theorem ParseUserPath_accepts_canonical v p :
  ParseUserPath v = Ok p ↔
  ValidString v = true ∧ ∃ l, good_segments l ∧ nfc v = path_of l ∧ p = of_segments l.
Proof.
  split; [apply ParseUserPath_sound|].
  intros (Hv & l & Hg & E & ->). by apply ParseUserPath_complete.
Qed.

(** Joining one name to a parsed path gives, exactly when the extended
    segment list is canonical, the child with that name: its parent is the
    base, its name the normalized segment, and it lies strictly below the base. *)
Theorem Join_child v p s q :
  ParseUserPath v = Ok p → slash ∉ s → Join p s = Ok q →
  Segments q = Segments p ++ [nfc s] ∧ Parent q = p ∧ Name q = nfc s ∧
  IsDescendantOf q p = true ∧ ParseUserPath (String q) = Ok q.
Proof.
  intros (l & Hg & ->)%parse_parsed Hs E.
  apply (Join_spec l s q Hg Hs) in E as (Hv & Hg' & ->).
  pose proof (good_segments_weaken _ Hg) as Hw. pose proof (good_segments_weaken _ Hg') as Hw'.
  rewrite !Segments_of_segments by done.
  split; [done|]. split; [by apply Parent_of_segments|]. split; [by apply Name_of_segments|].
  split; [|by apply ParseUserPath_path_of].
  apply IsDescendantOf_spec; [done..|]. by exists [nfc s].
Qed.

(** On parsed paths [IsDescendantOf] is the strict-prefix relation on
    segment lists, so a sibling whose name merely extends another's is not
    taken for a descendant. *)
Theorem IsDescendantOf_segments v w p r :
  ParseUserPath v = Ok p → ParseUserPath w = Ok r →
  IsDescendantOf p r = true ↔ ∃ k, k ≠ [] ∧ Segments p = Segments r ++ k.
Proof.
  intros (l & Hg%good_segments_weaken & ->)%parse_parsed.
  intros (l' & Hg'%good_segments_weaken & ->)%parse_parsed.
  rewrite !Segments_of_segments by done. by apply IsDescendantOf_spec.
Qed.

(** [Join] does not reject a separator inside its argument: a two-part
    argument descends two levels, so the result's parent is not the base. *)
Theorem Join_separator_descends v p a b q :
  ParseUserPath v = Ok p → slash ∉ a → slash ∉ b → Join p (a ++ slash :: b) = Ok q →
  Segments q = Segments p ++ [nfc a; nfc b] ∧ Parent q ≠ p.
Proof.
  intros (l & Hg & ->)%parse_parsed Ha Hb E.
  pose proof (good_segments_weaken _ Hg) as Hw.
  destruct (Join_value l (nfc a ++ slash :: nfc b)) as [Ev|]; [|done].
  unfold Join in E. rewrite nfc_slash, Ev in E. inv_go.
  apply ParseUserPath_sound in E as (_ & k & Hk & Ek & ->).
  rewrite <-nfc_slash, nfc_path_snoc, nfc_slash in Ek by done.
  destruct (path_of_two l (nfc a) (nfc b)) as [E2 Hlen]. rewrite E2 in Ek.
  apply path_of_inj_noslash in Ek; [subst k| | | |].
  2: by destruct l.
  2: { intros ->. rewrite Ek in Hlen. simpl in Hlen. lia. }
  2: { apply Forall_app. split; [by apply good_noslash|].
       repeat constructor; by apply nfc_no_slash. }
  2: by apply good_noslash, good_segments_weaken.
  pose proof (good_segments_weaken _ Hk) as Hw'.
  fold (of_segments (l ++ [nfc a; nfc b])). rewrite !Segments_of_segments by done.
  split; [done|]. change [nfc a; nfc b] with ([nfc a] ++ [nfc b]) in *.
  rewrite (assoc_L (++)) in Hw' |- *. rewrite Parent_of_segments by done.
  intros E%(f_equal normalized).
  apply path_of_inj in E; [|by apply Forall_app in Hw' as [? _]|done].
  apply (f_equal length) in E. rewrite length_app in E. simpl in E. lia.
Qed.

Lemma validatePathSegment_fails s : fails_only ErrorInvalid (validatePathSegment s).
Proof. unfold validatePathSegment. solve_fails_only. Qed.

Lemma validate_segments_fails i l : fails_only ErrorInvalid (validate_segments i l).
Proof.
  revert i. induction l as [|s l IH]; intros i; simpl; [done|].
  pose proof (validatePathSegment_fails s) as Hs.
  destruct (validatePathSegment s) as [?|e]; [apply IH|exact Hs].
Qed.

Lemma ParseUserPath_fails v : fails_only ErrorInvalid (ParseUserPath v).
Proof.
  unfold ParseUserPath. solve_fails_only. apply validate_segments_fails.
Qed.

Lemma Join_fails p s : fails_only ErrorInvalid (Join p s).
Proof.
  unfold Join. solve_fails_only; [apply validatePathSegment_fails|apply ParseUserPath_fails].
Qed.

(** Every refusal of [ParseUserPath] and of [Join] is an [invalid] error,
    also when [fmt.Errorf] has added the segment position. *)
Theorem path_errors_invalid v p s e :
  (ParseUserPath v = Err e ∨ Join p s = Err e) → KindOf e = ErrorInvalid.
Proof.
  intros [E|E]; eapply fails_only_elim; [apply ParseUserPath_fails|exact E|apply Join_fails|exact E].
Qed.
End Properties.

(** *** Witnesses *)

Lemma ParseUserPath_accepts_canonical_witness :
  @ParseUserPath ascii_nfc "/a/Report.txt" = Ok (of_segments ["a" : gostring; "Report.txt" : gostring]).
Proof.
  apply (@ParseUserPath_accepts_canonical ascii_nfc ascii_nfc_laws).
  apply (@ParseUserPath_sound ascii_nfc ascii_nfc_laws). vm_compute. reflexivity.
Defined.

Lemma Join_child_witness :
  @ParseUserPath ascii_nfc "/a" = Ok (of_segments ["a" : gostring]) ∧
  Name (of_segments ["a" : gostring; "b" : gostring]) = "b".
Proof.
  split; [vm_compute; reflexivity|].
  apply (@Join_child ascii_nfc ascii_nfc_laws "/a" (of_segments ["a" : gostring]) "b");
    [vm_compute; reflexivity|vm_compute; by intros [=]%list_elem_of_singleton|vm_compute; reflexivity].
Defined.

Lemma IsDescendantOf_segments_witness :
  IsDescendantOf (of_segments ["ab" : gostring]) (of_segments ["a" : gostring]) = false ∧
  ¬ ∃ k, k ≠ [] ∧ Segments (of_segments ["ab" : gostring]) = Segments (of_segments ["a" : gostring]) ++ k.
Proof.
  split; [vm_compute; reflexivity|].
  rewrite <-(@IsDescendantOf_segments ascii_nfc ascii_nfc_laws "/ab" "/a"); by vm_compute.
Defined.

Lemma Join_separator_descends_witness :
  Parent (of_segments ["d" : gostring; "x" : gostring; "y" : gostring]) ≠ of_segments ["d" : gostring].
Proof.
  apply (@Join_separator_descends ascii_nfc ascii_nfc_laws "/d" (of_segments ["d" : gostring]) "x" "y");
    [vm_compute; reflexivity|vm_compute; by intros [=]%list_elem_of_singleton..|vm_compute; reflexivity].
Defined.

Lemma path_errors_invalid_witness :
  KindOf (Errorf "segment 2: " (NewError ErrorInvalid "dot path segment")) = ErrorInvalid.
Proof.
  apply (@path_errors_invalid ascii_nfc "/a/../b" root_path []).
  left. vm_compute. reflexivity.
Defined.
