(* ===== verification/DomainIDs.v ===== *)
(** * Identifiers, scopes and labels: internal/domain/id.go and names.go

    User IDs and opaque IDs are unpadded base64url strings; an owner-scoped
    opaque ID packs an owner and an opaque ID into one canonical locator.
    Randomness is the byte stream the generator reads from. *)

From Stdlib Require Import ZArith Lia.
From S2P Require Import Prelude GoLib Errors DomainPath.

Open Scope Z_scope.

#[local] Ltac Zify.zify_post_hook ::= Z.to_euclidean_division_equations.

(** ** names.go: human-readable labels *)

Section Labels.
Context `{NFC}.

Definition forbidden_label_char (r : Z * nat) : bool :=
  IsControl (fst r) || (fst r =? 0x2028) || (fst r =? 0x2029).

Definition normalizeHumanLabel (value : gostring) (maxCodePoints : Z) : res gostring :=
  _ ← guard_err (negb (ValidString value)) (NewError ErrorInvalid "value must be valid UTF-8");
  let value := TrimSpace (nfc value) in
  _ ← guard_err (bool_decide (value = [])) (NewError ErrorInvalid "value must not be empty");
  _ ← guard_err (256 <? len value) (NewError ErrorInvalid "value exceeds 256 UTF-8 bytes");
  _ ← guard_err (maxCodePoints <? RuneCount value)
        (NewError ErrorInvalid "value exceeds code-point limit");
  _ ← guard_err (existsb forbidden_label_char (runes value))
        (NewError ErrorInvalid "value contains a forbidden character");
  Ok value.

Record DisplayName := { displayName_value : gostring }.
Record CredentialLabel := { credentialLabel_value : gostring }.

Definition ParseDisplayName (value : gostring) : res DisplayName :=
  normalized ← normalizeHumanLabel value 100;
  Ok {| displayName_value := normalized |}.

Definition ParseCredentialLabel (value : gostring) : res CredentialLabel :=
  normalized ← normalizeHumanLabel value 64;
  Ok {| credentialLabel_value := normalized |}.
End Labels.

(** ** id.go: users, areas and scopes *)

Record UserID := { userID_value : gostring }.

#[export] Instance UserID_eq_dec : EqDecision UserID.
Proof. solve_decision. Defined.
#[export] Instance UserID_countable : Countable UserID.
Proof. apply (inj_countable' userID_value (λ s, {| userID_value := s |})). by intros []. Defined.

Definition ParseUserID (value : gostring) : res UserID :=
  match b64_decode value with
  | Some decoded =>
      if (len decoded <? 16) || negb (bool_decide (b64_encode decoded = value))
      then Err (NewError ErrorInvalid "invalid user ID")
      else Ok {| userID_value := value |}
  | None => Err (NewError ErrorInvalid "invalid user ID")
  end.

Definition UserID_Valid (id : UserID) : bool := bool_decide (userID_value id ≠ []).

(** [type Area uint8] *)
Definition Area := Z.
Definition AreaLive : Area := 1.
Definition AreaTrash : Area := 2.

Record Scope := { scope_userID : UserID; scope_area : Area }.

#[export] Instance Scope_eq_dec : EqDecision Scope.
Proof. solve_decision. Defined.
#[export] Instance Scope_countable : Countable Scope.
Proof.
  apply (inj_countable' (λ s, (scope_userID s, scope_area s))
    (λ p, {| scope_userID := fst p; scope_area := snd p |})). by intros [].
Defined.

Definition NewScope (userID : UserID) (area : Area) : res Scope :=
  _ ← guard_err (negb (UserID_Valid userID)) (NewError ErrorInvalid "scope requires a user ID");
  _ ← guard_err (negb (area =? AreaLive) && negb (area =? AreaTrash))
        (NewError ErrorInvalid "scope requires a valid area");
  Ok {| scope_userID := userID; scope_area := area |}.

Definition Scope_Valid (s : Scope) : bool :=
  UserID_Valid (scope_userID s) && ((scope_area s =? AreaLive) || (scope_area s =? AreaTrash)).

(** ** id.go: the generator *)

(** The bytes the random source has still to deliver. *)
Record IDGenerator := { source : gostring }.

(** [io.ReadFull] consumes what is left when it comes up short. *)
Definition IDGenerator_bytes (size : nat) : GoM IDGenerator error gostring := λ g,
  if (length (source g) <? size)%nat then
    (Err (WrapError ErrorInternal "secure randomness unavailable"
            (OtherError (if decide (source g = []) then "EOF" else "unexpected EOF"))),
     {| source := [] |})
  else (Ok (b64_encode (take size (source g))), {| source := drop size (source g) |}).

Definition IDGenerator_UserID : GoM IDGenerator error UserID :=
  value ← IDGenerator_bytes 16; mret {| userID_value := value |}.
Definition OpaqueID : GoM IDGenerator error gostring := IDGenerator_bytes 16.
Definition BearerToken : GoM IDGenerator error gostring := IDGenerator_bytes 32.

(** ** id.go: owner-scoped opaque IDs *)

Definition scopedOpaqueIDPrefix : gostring := bs "EFSOID1" ++ [nul].

(** [binary.BigEndian.PutUint16] and [Uint16] *)
Definition put_uint16 (n : Z) : gostring := [byte_of (n / 256 mod 256); byte_of (n mod 256)].
Definition get_uint16 (s : gostring) : Z :=
  match s with a :: b :: _ => byte_val a * 256 + byte_val b | _ => 0 end.

Definition ScopeOpaqueID (owner : UserID) (opaque : gostring) : res gostring :=
  let invalid := NewError ErrorInvalid "invalid owner-scoped opaque ID material" in
  match b64_decode (userID_value owner), b64_decode opaque with
  | Some ownerBytes, Some opaqueBytes =>
      _ ← guard_err (negb (UserID_Valid owner) || (len ownerBytes <? 16)
            || negb (bool_decide (b64_encode ownerBytes = userID_value owner))
            || (len opaqueBytes <? 16)
            || negb (bool_decide (b64_encode opaqueBytes = opaque))) invalid;
      _ ← guard_err (65535 <? len ownerBytes) invalid;
      Ok (b64_encode (scopedOpaqueIDPrefix ++ put_uint16 (len ownerBytes)
                      ++ ownerBytes ++ opaqueBytes))
  | _, _ => Err invalid
  end.

Definition ParseScopedOpaqueID (value : gostring) : res (UserID * gostring) :=
  let invalid := NewError ErrorInvalid "invalid owner-scoped opaque ID" in
  match b64_decode value with
  | None => Err invalid
  | Some decoded =>
      _ ← guard_err (negb (bool_decide (b64_encode decoded = value))
            || (len decoded <? len scopedOpaqueIDPrefix + 2 + 16 + 16)
            || negb (HasPrefix decoded scopedOpaqueIDPrefix)) invalid;
      let rest := drop (length scopedOpaqueIDPrefix) decoded in
      let ownerLength := get_uint16 (take 2 rest) in
      let offset := len scopedOpaqueIDPrefix + 2 in
      _ ← guard_err ((ownerLength <? 16) || (len decoded <? offset + ownerLength + 16)) invalid;
      let body := drop (Z.to_nat offset) decoded in
      match ParseUserID (b64_encode (take (Z.to_nat ownerLength) body)) with
      | Err _ => Err invalid
      | Ok owner => Ok (owner, b64_encode (drop (Z.to_nat ownerLength) body))
      end
  end.

(** ** Facts *)

Lemma ParseUserID_Ok v u :
  ParseUserID v = Ok u ↔ ∃ d, 16 ≤ len d ∧ v = b64_encode d ∧ u = {| userID_value := v |}.
Proof.
  unfold ParseUserID. split.
  - destruct (b64_decode v) as [d|]; [|done].
    destruct (Z.ltb_spec (len d) 16); [done|]. case_bool_decide; [|done].
    intros [= <-]. by exists d.
  - intros (d & Hd & -> & ->). rewrite b64_decode_encode.
    apply Z.ltb_ge in Hd. by rewrite Hd, bool_decide_eq_true_2.
Qed.

(** The material of a scoped locator. *)
Definition scoped_material (owner : UserID) (opaque v : gostring) : Prop :=
  ∃ o x, 16 ≤ len o ≤ 65535 ∧ 16 ≤ len x ∧
    owner = {| userID_value := b64_encode o |} ∧ opaque = b64_encode x ∧
    v = b64_encode (scopedOpaqueIDPrefix ++ put_uint16 (len o) ++ o ++ x).

Lemma ScopeOpaqueID_Ok owner opaque v :
  ScopeOpaqueID owner opaque = Ok v ↔ scoped_material owner opaque v.
Proof.
  destruct owner as [ov]. unfold ScopeOpaqueID, scoped_material. cbn [userID_value]. split.
  - destruct (b64_decode ov) as [o|], (b64_decode opaque) as [x|]; try done.
    intros E. inv_go. rewrite !orb_false_iff, !negb_false_iff, !bool_decide_eq_true in *.
    rewrite !Z.ltb_ge in *. destruct_and!. injection E as <-.
    exists o, x. repeat split; try done; lia || congruence.
  - intros (o & x & Ho & Hx & [= ->] & -> & ->). rewrite !b64_decode_encode.
    rewrite !(bool_decide_eq_true_2 (b64_encode _ = b64_encode _)) by done.
    assert (UserID_Valid {| userID_value := b64_encode o |} = true) as ->.
    { apply bool_decide_eq_true_2. cbn. rewrite b64_encode_nil. apply len_ge_nonempty. lia. }
    destruct (Z.ltb_spec (len o) 16); [lia|]. destruct (Z.ltb_spec (len x) 16); [lia|].
    cbn [negb orb guard_err mbind result_bind].
    destruct (Z.ltb_spec 65535 (len o)); [lia|]. done.
Qed.

Lemma put_get_uint16 a b : put_uint16 (byte_val a * 256 + byte_val b) = [a; b].
Proof.
  pose proof (byte_val_range a). pose proof (byte_val_range b). unfold put_uint16.
  repeat f_equal; apply byte_val_inj; rewrite byte_val_of; lia.
Qed.

Lemma get_put_uint16 n k : 0 ≤ n ≤ 65535 → get_uint16 (put_uint16 n ++ k) = n.
Proof. intros Hn. cbn. rewrite !byte_val_of; lia. Qed.

Lemma ParseScopedOpaqueID_sound v owner opaque :
  ParseScopedOpaqueID v = Ok (owner, opaque) → scoped_material owner opaque v.
Proof.
  unfold ParseScopedOpaqueID, scoped_material.
  destruct (b64_decode v) as [d|] eqn:Ed; [|done]. intros E. inv_go.
  rewrite !orb_false_iff, !negb_false_iff, !Z.ltb_ge, bool_decide_eq_true in *.
  destruct_and!.
  match goal with Hp : HasPrefix d _ = true |- _ => apply HasPrefix_spec in Hp as [r ->] end.
  rewrite drop_app_length in *. rewrite len_app in *.
  destruct r as [|a [|b s]]; [unfold len in *; simpl in *; lia..|].
  change (Z.to_nat (len scopedOpaqueIDPrefix + 2)) with 10%nat in E.
  assert (drop 10 (scopedOpaqueIDPrefix ++ a :: b :: s) = s) as Eb by done.
  rewrite Eb in E. cbn [take get_uint16] in *.
  set (n := byte_val a * 256 + byte_val b) in *.
  pose proof (byte_val_range a). pose proof (byte_val_range b).
  assert (len (a :: b :: s) = 2 + len s) as Hlen by (unfold len; simpl; lia).
  destruct (ParseUserID _) as [u|] eqn:Eu; [|done]. injection E as <- <-.
  apply ParseUserID_Ok in Eu as (o & Ho & Eo%b64_encode_inj & ->). subst o.
  assert (len (take (Z.to_nat n) s) = n) as Hn.
  { unfold len in *. rewrite length_take. lia. }
  assert (16 ≤ len (drop (Z.to_nat n) s)) as Hx.
  { unfold len in *. rewrite length_drop. lia. }
  exists (take (Z.to_nat n) s), (drop (Z.to_nat n) s). rewrite Hn.
  split; [lia|]. split; [done|]. split; [done|]. split; [done|].
  rewrite take_drop. unfold n. by rewrite put_get_uint16.
Qed.

Lemma ParseScopedOpaqueID_complete v owner opaque :
  scoped_material owner opaque v → ParseScopedOpaqueID v = Ok (owner, opaque).
Proof.
  unfold ParseScopedOpaqueID, scoped_material.
  intros (o & x & Ho & Hx & -> & -> & ->). rewrite b64_decode_encode.
  rewrite bool_decide_eq_true_2 by done.
  assert (HasPrefix (scopedOpaqueIDPrefix ++ put_uint16 (len o) ++ o ++ x) scopedOpaqueIDPrefix
          = true) as -> by (apply HasPrefix_spec; by eexists).
  rewrite drop_app_length, !len_app.
  assert (len (put_uint16 (len o)) = 2) as -> by done.
  pose proof (len_nonneg o). pose proof (len_nonneg x).
  destruct (Z.ltb_spec (len scopedOpaqueIDPrefix + (2 + (len o + len x)))
    (len scopedOpaqueIDPrefix + 2 + 16 + 16)); [lia|].
  cbn [negb orb guard_err mbind result_bind].
  assert (get_uint16 (take 2 (put_uint16 (len o) ++ o ++ x)) = len o) as ->.
  { change (take 2 (put_uint16 (len o) ++ o ++ x)) with (put_uint16 (len o) ++ []).
    apply get_put_uint16. lia. }
  destruct (Z.ltb_spec (len o) 16); [lia|].
  destruct (Z.ltb_spec (len scopedOpaqueIDPrefix + (2 + (len o + len x)))
    (len scopedOpaqueIDPrefix + 2 + len o + 16)); [lia|].
  cbn [orb guard_err mbind result_bind].
  change (Z.to_nat (len scopedOpaqueIDPrefix + 2)) with 10%nat.
  change (drop 10 (scopedOpaqueIDPrefix ++ put_uint16 (len o) ++ o ++ x)) with (o ++ x).
  assert (Z.to_nat (len o) = length o) as -> by (unfold len; lia).
  rewrite take_app_length, drop_app_length.
  assert (ParseUserID (b64_encode o) = Ok {| userID_value := b64_encode o |}) as ->; [|done].
  apply ParseUserID_Ok. exists o. split; [lia|done].
Qed.

(** ** Properties of identifiers *)

(** An owner-scoped locator is a faithful encoding: [ScopeOpaqueID] builds
    [v] from an owner and an opaque ID exactly when [ParseScopedOpaqueID] reads
    that owner and that opaque ID back from [v]; no other string parses. *)
Theorem scoped_opaque_id_roundtrip owner opaque v :
  ScopeOpaqueID owner opaque = Ok v ↔ ParseScopedOpaqueID v = Ok (owner, opaque).
Proof.
  rewrite ScopeOpaqueID_Ok. split;
    [apply ParseScopedOpaqueID_complete|apply ParseScopedOpaqueID_sound].
Qed.

(** A generated user ID is a valid user ID built from exactly sixteen fresh
    bytes of the source, and different bytes give different IDs; the generator
    fails only when the source cannot deliver them. *)
Theorem generated_user_id g :
  match IDGenerator_UserID g with
  | (Ok u, g') =>
      ParseUserID (userID_value u) = Ok u ∧
      ∃ b, length b = 16%nat ∧ source g = b ++ source g' ∧
        ∀ b', userID_value u = b64_encode b' → b' = b
  | (Err e, g') => KindOf e = ErrorInternal ∧ (length (source g) < 16)%nat
  end.
Proof.
  unfold IDGenerator_UserID, mbind, gom_bind, IDGenerator_bytes.
  destruct (Nat.ltb_spec (length (source g)) 16) as [Hlt|Hge]; [done|].
  cbn [mret gom_ret userID_value source]. split.
  - apply ParseUserID_Ok. exists (take 16 (source g)). split; [|done].
    unfold len. rewrite length_take. lia.
  - exists (take 16 (source g)). rewrite take_drop, length_take.
    split; [lia|]. split; [done|]. by intros b' ->%b64_encode_inj.
Qed.

(** An accepted label is a non-empty text of at most 256 bytes and
    [maxCodePoints] code points without control characters or line separators. *)
Theorem label_bounds `{NFC} value maxCodePoints label :
  normalizeHumanLabel value maxCodePoints = Ok label →
  label = TrimSpace (nfc value) ∧ 1 ≤ len label ≤ 256 ∧ RuneCount label ≤ maxCodePoints ∧
  Forall (λ r, forbidden_label_char r = false) (runes label).
Proof.
  unfold normalizeHumanLabel. intros E. inv_go. injection E as <-.
  rewrite bool_decide_eq_false, !Z.ltb_ge in *.
  split; [done|]. split.
  { split; [|done]. destruct (TrimSpace (nfc value)); [done|]. unfold len. simpl. lia. }
  split; [done|]. apply list.Forall_forall. intros r Hr.
  destruct (forbidden_label_char r) eqn:Er; [|done].
  match goal with Hx : existsb _ _ = false |- _ => rewrite <-Hx end.
  symmetry. apply existsb_exists. exists r. by rewrite <-list_elem_of_In.
Qed.

Lemma label_bounds_witness : RuneCount (bs "Ada Lovelace") ≤ 100.
Proof.
  apply (@label_bounds ascii_nfc "  Ada Lovelace " 100 "Ada Lovelace").
  vm_compute. reflexivity.
Defined.
