(* ===== verification/Versioned.v ===== *)
(** * Stores with issued versions

    The state store and the object backend both keep a map of records, stamp
    every write with the next value of a 64-bit counter, and use the stamp as an
    optimistic-concurrency token.  [VersionedStore] is what they promise; the
    freshness and no-ABA facts below are proved once against it. *)

From Stdlib Require Import ZArith Lia.
From S2P Require Import Prelude.

Open Scope Z_scope.

Class VersionedStore (St R : Type) := {
  vs_records : St → gmap gostring R;
  vs_counter : St → Z;
  vs_version : R → gostring;
  vs_issue : Z → gostring;
  vs_issue_inj i j :
    0 ≤ i ≤ MaxUint64 → 0 ≤ j ≤ MaxUint64 → vs_issue i = vs_issue j → i = j;
}.

Section Versioned.
Context {St R : Type} `{VS : VersionedStore St R}.

(** One step on the records; the first component counts the versions issued. *)
Inductive micro : Z * St → Z * St → Prop :=
| micro_write n s s' k r :
    vs_records s' = <[k := r]> (vs_records s) →
    vs_counter s' = u64 (vs_counter s + 1) →
    vs_version r = vs_issue (u64 (vs_counter s + 1)) →
    micro (n, s) (n + 1, s')
| micro_delete n s s' k :
    vs_records s' = delete k (vs_records s) → vs_counter s' = vs_counter s → micro (n, s) (n, s')
| micro_other n s s' :
    vs_records s' = vs_records s → vs_counter s' = vs_counter s → micro (n, s) (n, s').

(** With [n] versions issued and no counter wrap-around, every stored version
    is one of those issued, and no two records share one. *)
Record version_wf (n : Z) (s : St) : Prop := {
  wf_counter : 0 ≤ n ∧ vs_counter s = u64 n;
  wf_issued k r : vs_records s !! k = Some r → ∃ i, 1 ≤ i ≤ n ∧ vs_version r = vs_issue i;
  wf_unique k k' r r' :
    vs_records s !! k = Some r → vs_records s !! k' = Some r' →
    vs_version r = vs_version r' → k = k';
}.

Lemma version_wf_init s : vs_records s = ∅ → vs_counter s = 0 → version_wf 0 s.
Proof. intros Hr Hc. split; [by rewrite Hc|..]; intros *; rewrite Hr, lookup_empty; done. Qed.

Lemma u64_succ n : 0 ≤ n → n + 1 ≤ MaxUint64 → u64 (u64 n + 1) = n + 1.
Proof. intros ??. rewrite (u64_small n), u64_small by lia. done. Qed.

Lemma version_wf_micro n s n' s' :
  micro (n, s) (n', s') → version_wf n s → n' ≤ MaxUint64 → version_wf n' s'.
Proof.
  inversion 1 as [? ? ? k r Hr Hv Hs|? ? ? k Hr Hv|? ? ? Hr Hv]; subst; intros [[Hn Hc] Hi Hu] Hmax.
  - assert (u64 (vs_counter s + 1) = n + 1) as Eu by (rewrite Hc; by apply u64_succ).
    rewrite Eu in *. split.
    + split; [lia|]. rewrite Hv. symmetry. apply u64_small. lia.
    + intros k' r'. rewrite Hr, lookup_insert. case_decide.
      * intros [= <-]. exists (n + 1). split; [lia|done].
      * intros (i & ? & ?)%Hi. exists i. split; [lia|done].
    + intros k1 k2 r1 r2. rewrite Hr, !lookup_insert.
      repeat case_decide; subst; try done.
      * intros [= <-] (i & ? & Ei)%Hi. rewrite Hs, Ei. intros E%vs_issue_inj; lia.
      * intros (i & ? & Ei)%Hi [= <-]. rewrite Hs, Ei. intros E%vs_issue_inj; lia.
      * apply Hu.
  - split; [by rewrite Hv|..].
    + intros k' r. rewrite Hr. intros [_ Hk]%lookup_delete_Some. eauto.
    + intros k1 k2 r1 r2. rewrite Hr. intros [_ H1]%lookup_delete_Some [_ H2]%lookup_delete_Some. eauto.
  - split; [by rewrite Hv|..]; intros *; rewrite Hr; eauto.
Qed.

Lemma micro_mono n s n' s' : micro (n, s) (n', s') → n ≤ n'.
Proof. inversion 1; lia. Qed.

Lemma rtc_micro_mono x y : rtc micro x y → x.1 ≤ y.1.
Proof.
  induction 1 as [|[n s] [n1 s1] y H1 Hr IH]; [done|]. apply micro_mono in H1. cbn in *. lia.
Qed.

(** Rule induction, while the counter has not wrapped around. *)
Lemma rtc_micro_ind (P : Z → St → Prop) :
  (∀ n s n' s', micro (n, s) (n', s') → n' ≤ MaxUint64 → P n s → P n' s') →
  ∀ n s n' s', rtc micro (n, s) (n', s') → n' ≤ MaxUint64 → P n s → P n' s'.
Proof.
  intros Hstep n s n' s' Hr Hmax HP.
  change (P (n, s).1 (n, s).2) in HP. change (P (n', s').1 (n', s').2).
  change (n' ≤ MaxUint64) with ((n', s').1 ≤ MaxUint64) in Hmax.
  induction Hr as [x|[n0 s0] [n1 s1] z H1 Hr IH]; [done|].
  apply IH; [done|]. pose proof (rtc_micro_mono _ _ Hr). cbn in *. apply (Hstep n0 s0); [done|lia|done].
Qed.

Lemma version_wf_rtc n s n' s' :
  rtc micro (n, s) (n', s') → n' ≤ MaxUint64 → version_wf n s → version_wf n' s'.
Proof. apply rtc_micro_ind. intros ???? Hm Hmax Hwf. by eapply version_wf_micro. Qed.

(** What a later state holds at a key: the old record or a newer version. *)
Lemma version_history n0 s0 n s :
  rtc micro (n0, s0) (n, s) → n ≤ MaxUint64 → version_wf n0 s0 →
  ∀ k r, vs_records s !! k = Some r →
    vs_records s0 !! k = Some r ∨ ∃ i, n0 < i ≤ n ∧ vs_version r = vs_issue i.
Proof.
  intros Hr Hmax Hwf.
  refine (proj2 (proj2 (rtc_micro_ind (λ m t, n0 ≤ m ∧ version_wf m t ∧ ∀ k r,
    vs_records t !! k = Some r →
    vs_records s0 !! k = Some r ∨ ∃ i, n0 < i ≤ m ∧ vs_version r = vs_issue i)
    _ _ _ _ _ Hr Hmax _))).
  - clear -Hwf. intros n s n' s' Hm Hmax (Hle & Hs & IH).
    split; [apply micro_mono in Hm; lia|]. split; [by eapply version_wf_micro|].
    destruct Hs as [[Hn Hc] _ _].
    inversion Hm as [? ? ? k r0 Hrec Hv Hs|? ? ? k Hrec Hv|? ? ? Hrec Hv]; subst; intros k' r; rewrite Hrec.
    + rewrite lookup_insert. case_decide.
      * intros [= <-]. right. exists (n + 1). rewrite Hs, Hc, u64_succ by lia. split; [lia|done].
      * intros [?|(i & ? & ?)]%IH; [by left|right]. exists i. split; [lia|done].
    + intros [_ Hk]%lookup_delete_Some. by apply IH.
    + apply IH.
  - split; [lia|]. split; [done|]. intros k r ?. by left.
Qed.

(** The next version differs from every stored one. *)
Lemma next_version_fresh n s k r :
  version_wf n s → n + 1 ≤ MaxUint64 → vs_records s !! k = Some r →
  vs_version r ≠ vs_issue (u64 (vs_counter s + 1)).
Proof.
  intros Hwf Hmax Hk Hv. destruct (wf_issued _ _ Hwf _ _ Hk) as (i & Hi & Ei).
  destruct (wf_counter _ _ Hwf) as [Hn Hc]. rewrite Hc, u64_succ, Ei in Hv by lia.
  apply vs_issue_inj in Hv; lia.
Qed.

(** A version names one record of its key, now and later. *)
Lemma version_identifies n0 s0 n s k r r' :
  rtc micro (n0, s0) (n, s) → n ≤ MaxUint64 → version_wf n0 s0 →
  vs_records s0 !! k = Some r → vs_records s !! k = Some r' → vs_version r = vs_version r' → r = r'.
Proof.
  intros Hr Hmax Hwf E E' Hv. pose proof (rtc_micro_mono _ _ Hr). cbn in *.
  destruct (version_history _ _ _ _ Hr Hmax Hwf _ _ E') as [E0|(i & Hi & Ei)]; [congruence|].
  destruct (wf_issued _ _ Hwf _ _ E) as (j & Hj & Ej). rewrite Ei, Ej in Hv. apply vs_issue_inj in Hv; lia.
Qed.

(** Once the record of a key has been replaced or removed, its version never
    comes back. *)
Lemma version_gone n0 s0 n1 s1 n s k r r' :
  rtc micro (n0, s0) (n1, s1) → rtc micro (n1, s1) (n, s) → n ≤ MaxUint64 → version_wf n0 s0 →
  vs_records s0 !! k = Some r → vs_records s1 !! k ≠ Some r → vs_records s !! k = Some r' →
  vs_version r' ≠ vs_version r.
Proof.
  intros H1 H2 Hmax Hwf E Hne E' Hv.
  pose proof (rtc_micro_mono _ _ H1). pose proof (rtc_micro_mono _ _ H2). cbn in *.
  assert (version_wf n1 s1) as Hwf1 by (eapply version_wf_rtc; [exact H1|lia|done]).
  assert (r = r') as <- by (eapply version_identifies; [by trans (n1, s1)|done..]).
  destruct (version_history _ _ _ _ H2 Hmax Hwf1 _ _ E') as [E0|(i & Hi & Ei)]; [done|].
  destruct (wf_issued _ _ Hwf _ _ E) as (j & Hj & Ej).
  rewrite Ei in Ej. apply vs_issue_inj in Ej; lia.
Qed.
End Versioned.
