(* ===== verification/StateStore.v ===== *)
(** * Conditional application state: internal/state

    Namespaced record keys (state.go), the normalization and fingerprint of an
    atomic mutation (atomic.go) and the deterministic [MemoryStore] (memory.go)
    that the identity, sharing and preference services run against in memory.
    The store's mutex makes each method one atomic step; [ctx.Err()] is the
    argument [ctx].  SHA-256 is the class
    parameter [sha256]. *)

From Stdlib Require Import ZArith Lia.
From S2P Require Import Prelude GoLib GoHash GoJSON Errors.

Open Scope Z_scope.

Module State.

(** ** state.go: keys *)

Abbreviation Namespace := gostring (only parsing).
Definition NamespaceBootstrap : Namespace := "bootstrap".
Definition NamespaceUsers : Namespace := "users".
Definition NamespaceAccounts : Namespace := "accounts".
Definition NamespaceCredentials : Namespace := "credentials".
Definition NamespaceRoles : Namespace := "roles".
Definition NamespaceSessions : Namespace := "sessions".
Definition NamespaceCeremonies : Namespace := "ceremonies".
Definition NamespaceInvites : Namespace := "invites".
Definition NamespaceRecoveries : Namespace := "recoveries".
Definition NamespaceShares : Namespace := "shares".
Definition NamespaceTrash : Namespace := "trash".
Definition NamespaceUploads : Namespace := "uploads".
Definition NamespaceOperations : Namespace := "operations".
Definition NamespaceIdempotency : Namespace := "idempotency".
Definition NamespacePreferences : Namespace := "preferences".

Definition validNamespaces : list Namespace :=
  [NamespaceBootstrap; NamespaceUsers; NamespaceAccounts; NamespaceCredentials;
   NamespaceRoles; NamespaceSessions; NamespaceCeremonies; NamespaceInvites;
   NamespaceRecoveries; NamespaceShares; NamespaceTrash; NamespaceUploads;
   NamespaceOperations; NamespaceIdempotency; NamespacePreferences].

Record Key := { key_value : gostring }.
Record Prefix := { prefix_value : gostring }.

#[export] Instance Key_eq_dec : EqDecision Key.
Proof. solve_decision. Defined.
#[export] Instance Prefix_eq_dec : EqDecision Prefix.
Proof. solve_decision. Defined.

(** The loop that base64url-encodes the parts. *)
Fixpoint encode_parts (parts : list gostring) : res (list gostring) :=
  match parts with
  | [] => Ok []
  | part :: parts =>
      _ ← guard_err (bool_decide (part = []) || negb (ValidString part))
            (NewError ErrorInvalid "invalid state key part");
      rest ← encode_parts parts;
      Ok (b64_encode part :: rest)
  end.

Definition encodedPath (namespace : Namespace) (parts : list gostring) : res gostring :=
  _ ← guard_err (negb (bool_decide (namespace ∈ validNamespaces)))
        (NewError ErrorInvalid "invalid state namespace");
  encoded ← encode_parts parts;
  Ok (join "/" (namespace :: encoded)).

Definition NewKey (namespace : Namespace) (parts : list gostring) : res Key :=
  value ← encodedPath namespace parts;
  Ok {| key_value := value |}.

Definition NewPrefix (namespace : Namespace) (parts : list gostring) : res Prefix :=
  value ← encodedPath namespace parts;
  Ok {| prefix_value := value ++ "/" |}.

Definition Key_Valid (k : Key) : bool := bool_decide (key_value k ≠ []).
Definition Prefix_Valid (p : Prefix) : bool := bool_decide (prefix_value p ≠ []).

Abbreviation Version := gostring (only parsing).

Record Value := { Value_Data : gostring; Value_Version : Version }.
Record Item := { Item_Key : Key; Item_Value : Value }.
Record PageRequest := { PageRequest_Limit : Z; PageRequest_Cursor : gostring }.
Record Page := { Page_Items : list Item; Page_NextCursor : gostring }.

(** [type Requirement uint8] *)
Definition RequirementAny : Z := 1.
Definition RequirementAbsent : Z := 2.
Definition RequirementPresent : Z := 3.

Record Change := {
  Change_Key : Key;
  Change_Requirement : Z;
  Change_ExpectedVersion : Version;
  Change_Delete : bool;
  Change_Data : gostring;
}.

(** [RetainUntil] is an instant in nanoseconds, so [UTC()] is the identity. *)
Record Mutation := {
  Mutation_ID : gostring;
  Mutation_RetainUntil : Z;
  Mutation_Changes : list Change;
  Mutation_Result : gostring;
}.

Record ChangeResult := { ChangeResult_Key : Key; ChangeResult_Version : Version }.

Record MutationOutcome := {
  Outcome_ID : gostring;
  Outcome_Changes : list ChangeResult;
  Outcome_Result : gostring;
  Outcome_Replayed : bool;
}.

Definition normalizePageLimit (limit : Z) : res Z :=
  if limit =? 0 then Ok 200
  else if (limit <? 1) || (1000 <? limit)
  then Err (NewError ErrorInvalid "page limit must be between 1 and 1000")
  else Ok limit.

Definition validateKey (key : Key) : res unit :=
  guard_err (negb (Key_Valid key)) (NewError ErrorInvalid "invalid state key").

Definition validatePrefix (prefix : Prefix) : res unit :=
  guard_err (negb (Prefix_Valid prefix)) (NewError ErrorInvalid "invalid state prefix").

Definition contextError (ctx : context) : res unit :=
  match ctx with
  | Some err => Err (WrapError ErrorUnavailable "state request canceled" err)
  | None => Ok tt
  end.

Definition versionString (counter : Z) : Version := "s" ++ Sprintf_016x counter.

(** codec.go *)
Definition MaxRecordBytes : Z := 65536.

Definition validateRecordData (data : gostring) : res unit :=
  guard_err (MaxRecordBytes <? len data) (NewError ErrorInvalid "invalid state record size").

(** ** atomic.go: normalization and intent fingerprint *)

(** [json.Marshal] of one [mutationFingerprintChange]. *)
Definition json_change (c : Change) : gostring :=
  json_object ([json_field "key" (json_string true (key_value (Change_Key c)));
                json_field "requirement" (json_uint (Change_Requirement c))]
    ++ json_omit (bool_decide (Change_ExpectedVersion c ≠ []))
         (json_field "expectedVersion" (json_string true (Change_ExpectedVersion c)))
    ++ json_omit (Change_Delete c) (json_field "delete" (json_bool true))
    ++ json_omit (bool_decide (Change_Data c ≠ [])) (json_field "data" (json_bytes (Change_Data c)))).

Definition json_intent (changes : list Change) (result : gostring) : gostring :=
  json_object ([json_field "changes" (json_array (map json_change changes))]
    ++ json_omit (bool_decide (result ≠ [])) (json_field "result" (json_bytes result))).

Definition change_key_le (a b : Change) : Prop :=
  bytes_le (key_value (Change_Key a)) (key_value (Change_Key b)).
#[export] Instance change_key_le_dec a b : Decision (change_key_le a b).
Proof. unfold change_key_le. apply _. Defined.

(** The loop over the sorted changes; [previous] is the key before. *)
Fixpoint check_changes (previous : gostring) (changes : list Change) : res unit :=
  match changes with
  | [] => Ok tt
  | change :: changes =>
      _ ← validateKey (Change_Key change);
      _ ← guard_err (bool_decide (key_value (Change_Key change) = previous))
            (NewError ErrorInvalid "atomic state mutation contains a duplicate key");
      _ ← guard_err ((Change_Requirement change <? RequirementAny)
                     || (RequirementPresent <? Change_Requirement change))
            (NewError ErrorInvalid "invalid atomic state precondition");
      _ ← guard_err (negb (Change_Requirement change =? RequirementPresent)
                     && bool_decide (Change_ExpectedVersion change ≠ []))
            (NewError ErrorInvalid "atomic state version requires a present precondition");
      _ ← guard_err (Change_Delete change
                     && (negb (Change_Requirement change =? RequirementPresent)
                         || bool_decide (Change_Data change ≠ [])))
            (NewError ErrorInvalid "invalid atomic state deletion");
      _ ← (if negb (Change_Delete change) then validateRecordData (Change_Data change) else Ok tt);
      check_changes (key_value (Change_Key change)) changes
  end.

Section Store.
Context `{SHA256}.

Definition fingerprint_prefix : gostring := bs "endlessfs-atomic-state-mutation-v1" ++ [nul].

Definition NormalizeMutation (mutation : Mutation) : res (Mutation * gostring) :=
  _ ← guard_err (bool_decide (Mutation_ID mutation = []) || negb (ValidString (Mutation_ID mutation))
                 || bool_decide (Mutation_Changes mutation = []))
        (NewError ErrorInvalid "invalid atomic state mutation");
  _ ← guard_err (MaxRecordBytes <? len (Mutation_Result mutation))
        (NewError ErrorInvalid "atomic state mutation result exceeds size limit");
  let changes := merge_sort change_key_le (Mutation_Changes mutation) in
  _ ← check_changes [] changes;
  let digest := sha256 (fingerprint_prefix ++ json_intent changes (Mutation_Result mutation)) in
  Ok ({| Mutation_ID := Mutation_ID mutation;
         Mutation_RetainUntil := Mutation_RetainUntil mutation;
         Mutation_Changes := changes;
         Mutation_Result := Mutation_Result mutation |}, hex_encode digest).

(** ** memory.go: the store *)

Record memoryRecord := { record_data : gostring; record_version : Version }.

Record listSnapshot := {
  snapshot_prefix : Prefix;
  snapshot_limit : Z;
  snapshot_items : list Item;
  snapshot_index : Z;
}.

Record memoryMutationOutcome := { recorded_fingerprint : gostring; recorded_outcome : MutationOutcome }.

Record MemoryStore := {
  records : gmap gostring memoryRecord;
  snapshots : gmap gostring listSnapshot;
  outcomes : gmap gostring memoryMutationOutcome;
  versions : Z;
  cursors : Z;
}.

Definition NewMemoryStore : MemoryStore :=
  {| records := ∅; snapshots := ∅; outcomes := ∅; versions := 0; cursors := 0 |}.

Definition set_records (f : gmap gostring memoryRecord → gmap gostring memoryRecord) (s : MemoryStore) :=
  {| records := f (records s); snapshots := snapshots s; outcomes := outcomes s;
     versions := versions s; cursors := cursors s |}.
Definition set_snapshots (f : gmap gostring listSnapshot → gmap gostring listSnapshot) (s : MemoryStore) :=
  {| records := records s; snapshots := f (snapshots s); outcomes := outcomes s;
     versions := versions s; cursors := cursors s |}.
Definition set_outcomes (f : gmap gostring memoryMutationOutcome → gmap gostring memoryMutationOutcome)
    (s : MemoryStore) :=
  {| records := records s; snapshots := snapshots s; outcomes := f (outcomes s);
     versions := versions s; cursors := cursors s |}.

Abbreviation StoreM := (GoM MemoryStore error).

Definition nextVersion : StoreM Version := λ s,
  let versions' := u64 (versions s + 1) in
  (Ok (versionString versions'),
   {| records := records s; snapshots := snapshots s; outcomes := outcomes s;
      versions := versions'; cursors := cursors s |}).

(** The precondition of one change against the records. *)
Definition check_precondition (recs : gmap gostring memoryRecord) (change : Change) : res unit :=
  let found := recs !! key_value (Change_Key change) in
  if Change_Requirement change =? RequirementAbsent then
    match found with
    | Some _ => Err (NewError ErrorConflict "state record already exists")
    | None => Ok tt
    end
  else if Change_Requirement change =? RequirementPresent then
    match found with
    | None => Err (NewError ErrorNotFound "state record not found")
    | Some record =>
        guard_err (bool_decide (Change_ExpectedVersion change ≠ [])
                   && negb (bool_decide (record_version record = Change_ExpectedVersion change)))
          (NewError ErrorPreconditionFailed "stale state version")
    end
  else Ok tt.

(** The body of the second loop, for one change. *)
Definition apply_change (change : Change) : StoreM ChangeResult :=
  if Change_Delete change then
    _ ← modify (set_records (delete (key_value (Change_Key change))));
    mret {| ChangeResult_Key := Change_Key change; ChangeResult_Version := [] |}
  else
    version ← nextVersion;
    _ ← modify (set_records (insert (key_value (Change_Key change))
                 {| record_data := Change_Data change; record_version := version |}));
    mret {| ChangeResult_Key := Change_Key change; ChangeResult_Version := version |}.

Fixpoint apply_changes (changes : list Change) : StoreM (list ChangeResult) :=
  match changes with
  | [] => mret []
  | change :: changes =>
      r ← apply_change change;
      rs ← apply_changes changes;
      mret (r :: rs)
  end.

Definition applyMutation (ctx : context) (mutation : Mutation) : StoreM MutationOutcome :=
  _ ← lift (contextError ctx);
  '(normalized, fingerprint) ← lift (NormalizeMutation mutation);
  recs ← gets outcomes;
  match recs !! Mutation_ID normalized with
  | Some recorded =>
      if bool_decide (recorded_fingerprint recorded ≠ fingerprint)
      then throw (NewError ErrorConflict "atomic state idempotency key was reused")
      else
        let outcome := recorded_outcome recorded in
        mret {| Outcome_ID := Outcome_ID outcome; Outcome_Changes := Outcome_Changes outcome;
                Outcome_Result := Outcome_Result outcome; Outcome_Replayed := true |}
  | None =>
      current ← gets records;
      _ ← lift (mapM_ (check_precondition current) (Mutation_Changes normalized));
      results ← apply_changes (Mutation_Changes normalized);
      let outcome := {| Outcome_ID := Mutation_ID normalized; Outcome_Changes := results;
                        Outcome_Result := Mutation_Result normalized; Outcome_Replayed := false |} in
      _ ← modify (set_outcomes (insert (Mutation_ID normalized)
                   {| recorded_fingerprint := fingerprint; recorded_outcome := outcome |}));
      mret outcome
  end.

Definition Mutate (ctx : context) (mutation : Mutation) : StoreM MutationOutcome :=
  applyMutation ctx mutation.
Definition Transact (ctx : context) (mutation : Mutation) : StoreM MutationOutcome :=
  applyMutation ctx mutation.

Definition Get (ctx : context) (key : Key) : StoreM Value :=
  _ ← lift (contextError ctx);
  _ ← lift (validateKey key);
  recs ← gets records;
  match recs !! key_value key with
  | None => throw (NewError ErrorNotFound "state record not found")
  | Some record => mret {| Value_Data := record_data record; Value_Version := record_version record |}
  end.

Definition snapshotPage (cursor : gostring) (snapshot : listSnapshot) : StoreM Page := λ s,
  let end_ := Z.min (snapshot_index snapshot + snapshot_limit snapshot) (len (snapshot_items snapshot)) in
  let items := take (Z.to_nat (end_ - snapshot_index snapshot))
                 (drop (Z.to_nat (snapshot_index snapshot)) (snapshot_items snapshot)) in
  let snapshot := {| snapshot_prefix := snapshot_prefix snapshot; snapshot_limit := snapshot_limit snapshot;
                     snapshot_items := snapshot_items snapshot; snapshot_index := end_ |} in
  if end_ =? len (snapshot_items snapshot) then
    (Ok {| Page_Items := items; Page_NextCursor := [] |}, set_snapshots (delete cursor) s)
  else
    (Ok {| Page_Items := items; Page_NextCursor := cursor |}, set_snapshots (insert cursor snapshot) s).

(** The sorted items of the records under a prefix. *)
Definition matching_items (recs : gmap gostring memoryRecord) (prefix : Prefix) : list Item :=
  let keys := filter (λ k, HasPrefix k (prefix_value prefix) = true) (map fst (map_to_list recs)) in
  omap (λ k, record ← recs !! k;
             Some {| Item_Key := {| key_value := k |};
                     Item_Value := {| Value_Data := record_data record;
                                      Value_Version := record_version record |} |})
    (sort_Strings keys).

Definition List (ctx : context) (prefix : Prefix) (request : PageRequest) : StoreM Page :=
  _ ← lift (contextError ctx);
  _ ← lift (validatePrefix prefix);
  limit ← lift (normalizePageLimit (PageRequest_Limit request));
  if bool_decide (PageRequest_Cursor request ≠ []) then
    snaps ← gets snapshots;
    match snaps !! PageRequest_Cursor request with
    | None => throw (NewError ErrorInvalid "invalid or out-of-scope state cursor")
    | Some snapshot =>
        if bool_decide (snapshot_prefix snapshot ≠ prefix) || negb (snapshot_limit snapshot =? limit)
        then throw (NewError ErrorInvalid "invalid or out-of-scope state cursor")
        else snapshotPage (PageRequest_Cursor request) snapshot
    end
  else
    recs ← gets records;
    let items := matching_items recs prefix in
    if len items <=? limit then mret {| Page_Items := items; Page_NextCursor := [] |}
    else
      _ ← modify (λ s, {| records := records s; snapshots := snapshots s; outcomes := outcomes s;
                          versions := versions s; cursors := u64 (cursors s + 1) |});
      count ← gets cursors;
      let cursor := "c" ++ versionString count in
      let snapshot := {| snapshot_prefix := prefix; snapshot_limit := limit;
                         snapshot_items := items; snapshot_index := 0 |} in
      _ ← modify (set_snapshots (insert cursor snapshot));
      snapshotPage cursor snapshot.

Definition Create (ctx : context) (key : Key) (data : gostring) : StoreM Version :=
  _ ← lift (contextError ctx);
  _ ← lift (validateKey key);
  _ ← lift (validateRecordData data);
  recs ← gets records;
  _ ← throw_if (bool_decide (is_Some (recs !! key_value key)))
        (NewError ErrorConflict "state record already exists");
  version ← nextVersion;
  _ ← modify (set_records (insert (key_value key) {| record_data := data; record_version := version |}));
  mret version.

Definition CompareAndSwap (ctx : context) (key : Key) (current : Version) (data : gostring) : StoreM Version :=
  _ ← lift (contextError ctx);
  _ ← lift (validateKey key);
  _ ← lift (validateRecordData data);
  _ ← throw_if (bool_decide (current = [])) (NewError ErrorInvalid "current state version is required");
  recs ← gets records;
  match recs !! key_value key with
  | None => throw (NewError ErrorNotFound "state record not found")
  | Some record =>
      _ ← throw_if (bool_decide (record_version record ≠ current))
            (NewError ErrorPreconditionFailed "stale state version");
      version ← nextVersion;
      _ ← modify (set_records (insert (key_value key) {| record_data := data; record_version := version |}));
      mret version
  end.

Definition Delete (ctx : context) (key : Key) (current : Version) : StoreM unit :=
  _ ← lift (contextError ctx);
  _ ← lift (validateKey key);
  _ ← throw_if (bool_decide (current = [])) (NewError ErrorInvalid "current state version is required");
  recs ← gets records;
  match recs !! key_value key with
  | None => throw (NewError ErrorNotFound "state record not found")
  | Some record =>
      _ ← throw_if (bool_decide (record_version record ≠ current))
            (NewError ErrorPreconditionFailed "stale state version");
      modify (set_records (delete (key_value key)))
  end.
End Store.

Abbreviation StoreM := (GoM MemoryStore error).

(** ** Keys *)

Section KeyTheory.
Definition part_ok (part : gostring) : Prop := part ≠ [] ∧ ValidString part = true.

Lemma encode_parts_Ok ps es :
  encode_parts ps = Ok es ↔ Forall part_ok ps ∧ es = map b64_encode ps.
Proof.
  revert es. induction ps as [|p ps IH]; intros es; cbn [encode_parts map].
  { split; [by intros [= <-]|by intros [_ ->]]. }
  rewrite list.Forall_cons. split.
  - intros E. inv_go. injection E as <-.
    match goal with Hg : _ || _ = false |- _ =>
      rewrite orb_false_iff, bool_decide_eq_false, negb_false_iff in Hg end.
    match goal with He : encode_parts ps = _ |- _ => apply IH in He as [? ->] end. done.
  - intros [[[Hp Hv] Hps] ->]. rewrite bool_decide_eq_false_2, Hv by done.
    cbn [negb orb guard_err mbind result_bind].
    by rewrite (proj2 (IH _) (conj Hps eq_refl)).
Qed.

Lemma encodedPath_Ok ns ps v :
  encodedPath ns ps = Ok v ↔
  ns ∈ validNamespaces ∧ Forall part_ok ps ∧ v = join [slash] (ns :: map b64_encode ps).
Proof.
  unfold encodedPath. split.
  - intros E. inv_go. injection E as <-.
    match goal with Hg : negb _ = false |- _ => rewrite negb_false_iff, bool_decide_eq_true in Hg end.
    match goal with He : encode_parts ps = _ |- _ => apply encode_parts_Ok in He as [? ->] end. done.
  - intros (Hns & Hps & ->). rewrite bool_decide_eq_true_2 by done.
    cbn [negb guard_err mbind result_bind].
    by rewrite (proj2 (encode_parts_Ok _ _) (conj Hps eq_refl)).
Qed.

Lemma encoded_no_slash ns ps :
  ns ∈ validNamespaces → Forall (λ p, slash ∉ p) (ns :: map b64_encode ps).
Proof.
  intros Hns. constructor.
  - assert (Forall (λ p, slash ∉ p) validNamespaces) as Hall.
    { apply (bool_decide_unpack _). vm_compute. exact I. }
    rewrite list.Forall_forall in Hall. by apply Hall.
  - apply Forall_map, list.Forall_forall. intros p _. by apply b64_encode_notin.
Qed.

Lemma encodedPath_inj ns ps ns' ps' v :
  encodedPath ns ps = Ok v → encodedPath ns' ps' = Ok v → ns = ns' ∧ ps = ps'.
Proof.
  intros (Hns & Hps & ->)%encodedPath_Ok (Hns' & Hps' & E)%encodedPath_Ok.
  apply join_inj in E; [|done|done|by apply encoded_no_slash..].
  injection E as -> E. split; [done|]. by apply (inj (map b64_encode)) in E.
Qed.
End KeyTheory.
End State.
