(* ===== verification/StateTheory.v ===== *)
(** * Correctness of the in-memory state store

    Every method of [State.MemoryStore] decomposes into micro steps on the
    records (a versioned write, a delete, or a step that touches neither
    records nor the version counter).  Version freshness and the absence of
    ABA follow by rule induction on micro steps; atomicity, idempotent replay,
    conditional-write and paging behaviour are stated on the methods. *)

From Stdlib Require Import ZArith Lia.
From S2P Require Import Prelude GoLib GoHash GoJSON Errors Versioned StateStore.

Open Scope Z_scope.

Module StateTheory.
Import State.

Section Theory.
Context `{SHA256}.

(** ** The store as a versioned store *)

Lemma versionString_inj i j :
  0 ≤ i ≤ MaxUint64 → 0 ≤ j ≤ MaxUint64 → versionString i = versionString j → i = j.
Proof. unfold versionString. intros Hi Hj E. apply Sprintf_016x_inj; [done..|]. exact (app_inv_head (bs "s") _ _ E). Qed.

#[export] Instance memory_versioned : VersionedStore MemoryStore memoryRecord := {|
  vs_records := records; vs_counter := versions; vs_version := record_version;
  vs_issue := versionString; vs_issue_inj := versionString_inj |}.

(** The methods of the store, as one type of calls. *)
Inductive op :=
| OpGet (ctx : context) (key : Key)
| OpList (ctx : context) (prefix : Prefix) (request : PageRequest)
| OpCreate (ctx : context) (key : Key) (data : gostring)
| OpCompareAndSwap (ctx : context) (key : Key) (current : gostring) (data : gostring)
| OpDelete (ctx : context) (key : Key) (current : gostring)
| OpMutate (ctx : context) (mutation : Mutation)
| OpTransact (ctx : context) (mutation : Mutation).

Definition run (o : op) (s : MemoryStore) : MemoryStore :=
  match o with
  | OpGet ctx key => snd (Get ctx key s)
  | OpList ctx prefix request => snd (List ctx prefix request s)
  | OpCreate ctx key data => snd (Create ctx key data s)
  | OpCompareAndSwap ctx key current data => snd (CompareAndSwap ctx key current data s)
  | OpDelete ctx key current => snd (Delete ctx key current s)
  | OpMutate ctx mutation => snd (Mutate ctx mutation s)
  | OpTransact ctx mutation => snd (Transact ctx mutation s)
  end.

Lemma micro_refl n s : rtc micro (n, s) (n, s).
Proof. apply rtc_refl. Qed.

Lemma bind_snd {A B} (P : MemoryStore → Prop) (m : StoreM A) (k : A → StoreM B) s :
  (∀ e s1, m s = (Err e, s1) → P s1) →
  (∀ a s1, m s = (Ok a, s1) → P (snd (k a s1))) →
  P (snd ((m ≫= k) s)).
Proof. unfold mbind, gom_bind. destruct (m s) as [[a|e] s1]; simpl; eauto. Qed.

Lemma micro_apply_change c n s :
  ∃ r s' n', apply_change c s = (Ok r, s') ∧ micro (n, s) (n', s') ∧ n ≤ n' ≤ n + 1.
Proof.
  unfold apply_change. destruct (Change_Delete c); do 3 eexists; (split; [reflexivity|]).
  - split; [by eapply micro_delete|lia].
  - split; [by eapply micro_write|lia].
Qed.

Lemma apply_changes_cons c cs s :
  apply_changes (c :: cs) s =
  (r ← apply_change c; rs ← apply_changes cs; mret (r :: rs)) s.
Proof. done. Qed.

Lemma micro_apply_changes cs n s :
  ∃ rs s' n', apply_changes cs s = (Ok rs, s') ∧ rtc micro (n, s) (n', s') ∧ n ≤ n' ≤ n + len cs.
Proof.
  revert n s. induction cs as [|c cs IH]; intros n s.
  { exists [], s, n. split; [done|]. split; [constructor|unfold len; simpl; lia]. }
  destruct (micro_apply_change c n s) as (r & s1 & n1 & E1 & H1 & B1).
  destruct (IH n1 s1) as (rs & s2 & n2 & E2 & H2 & B2).
  exists (r :: rs), s2, n2. split; [|split; [by eapply rtc_l|unfold len in *; simpl; lia]].
  rewrite apply_changes_cons. unfold mbind, gom_bind. by rewrite E1, E2.
Qed.

Ltac micro_done :=
  match goal with
  | |- ∃ n', rtc micro (?n, ?s) (n', ?s) ∧ _ => exists n; split; [apply rtc_refl|lia]
  end.

Lemma micro_snapshotPage cursor snap n s :
  rtc micro (n, s) (n, snd (snapshotPage cursor snap s)).
Proof.
  unfold snapshotPage. case_match; cbn [snd]; by apply rtc_once, micro_other.
Qed.

(** The most versions one call can issue. *)
Definition weight (o : op) : Z :=
  match o with
  | OpCreate _ _ _ | OpCompareAndSwap _ _ _ _ => 1
  | OpMutate _ m | OpTransact _ m => len (Mutation_Changes m)
  | OpGet _ _ | OpList _ _ _ | OpDelete _ _ _ => 0
  end.

Lemma NormalizeMutation_changes m m' fp :
  NormalizeMutation m = Ok (m', fp) → len (Mutation_Changes m') = len (Mutation_Changes m).
Proof.
  unfold NormalizeMutation. intros E. inv_go. injection E as <- <-. cbn.
  unfold len. by rewrite merge_sort_Permutation.
Qed.

(** Each method is a sequence of micro steps. *)
Lemma run_micro o n s :
  ∃ n', rtc micro (n, s) (n', run o s) ∧ n ≤ n' ≤ n + weight o.
Proof.
  assert (∀ ctx m, ∃ n', rtc micro (n, s) (n', snd (applyMutation ctx m s))
                         ∧ n ≤ n' ≤ n + len (Mutation_Changes m)) as Hmut.
  { intros ctx m. pose proof (len_nonneg (Mutation_Changes m)). unfold applyMutation.
    apply bind_snd; [intros ?? [= _ <-]; micro_done|]. intros ? ? [_ ->]%lift_Ok.
    apply bind_snd; [intros ?? [= _ <-]; micro_done|]. intros [norm fp] ? [Hnorm ->]%lift_Ok.
    apply NormalizeMutation_changes in Hnorm.
    apply bind_snd; [done|]. intros ? ? [= <- <-].
    case_match; [case_match; cbn; micro_done|].
    apply bind_snd; [done|]. intros ? ? [= <- <-].
    apply bind_snd; [intros ?? [= _ <-]; micro_done|]. intros ? ? [_ ->]%lift_Ok.
    destruct (micro_apply_changes (Mutation_Changes norm) n s) as (rs & s' & n' & E & Hr & Hb).
    apply bind_snd; [by rewrite E|]. rewrite E. intros ? ? [= <- <-]. cbn.
    exists n'. split; [|lia]. eapply rtc_r; [exact Hr|]. by apply micro_other. }
  destruct o as [ctx key|ctx p req|ctx key d|ctx key v d|ctx key v|ctx m|ctx m]; cbn [run weight];
    try apply Hmut; unfold Get, List, Create, CompareAndSwap, Delete;
    (apply bind_snd; [intros ?? [= _ <-]; micro_done|]; intros ? ? [_ ->]%lift_Ok);
    (apply bind_snd; [intros ?? [= _ <-]; micro_done|]; intros ? ? [_ ->]%lift_Ok).
  - apply bind_snd; [done|]. intros ? ? [= <- <-]. case_match; cbn; micro_done.
  - apply bind_snd; [intros ?? [= _ <-]; micro_done|]. intros ? ? [_ ->]%lift_Ok.
    case_match.
    + apply bind_snd; [done|]. intros ? ? [= <- <-]. case_match; [|cbn; micro_done].
      case_match; [cbn; micro_done|]. exists n. split; [apply micro_snapshotPage|lia].
    + apply bind_snd; [done|]. intros ? ? [= <- <-]. case_match; [cbn; micro_done|].
      exists n. split; [|lia]. eapply rtc_l; [|apply micro_snapshotPage]. by apply micro_other.
  - apply bind_snd; [intros ?? [= _ <-]; micro_done|]. intros ? ? [_ ->]%lift_Ok.
    apply bind_snd; [done|]. intros ? ? [= <- <-].
    apply bind_snd; [intros ?? [= _ <-]; micro_done|]. intros ? ? [_ ->]%throw_if_Ok.
    exists (n + 1). split; [by eapply rtc_once, micro_write|lia].
  - apply bind_snd; [intros ?? [= _ <-]; micro_done|]. intros ? ? [_ ->]%lift_Ok.
    apply bind_snd; [intros ?? [= _ <-]; micro_done|]. intros ? ? [_ ->]%throw_if_Ok.
    apply bind_snd; [done|]. intros ? ? [= <- <-]. case_match; [|cbn; micro_done].
    apply bind_snd; [intros ?? [= _ <-]; micro_done|]. intros ? ? [_ ->]%throw_if_Ok.
    exists (n + 1). split; [by eapply rtc_once, micro_write|lia].
  - apply bind_snd; [intros ?? [= _ <-]; micro_done|]. intros ? ? [_ ->]%throw_if_Ok.
    apply bind_snd; [done|]. intros ? ? [= <- <-]. case_match; [|cbn; micro_done].
    apply bind_snd; [intros ?? [= _ <-]; micro_done|]. intros ? ? [_ ->]%throw_if_Ok.
    exists n. split; [by eapply rtc_once, micro_delete|lia].
Qed.

(** ** Runs of calls *)

Definition run_all (os : list op) (s : MemoryStore) : MemoryStore := foldl (λ s o, run o s) s os.
Definition total_weight (os : list op) : Z := foldr (λ o z, weight o + z) 0 os.

Lemma weight_nonneg o : 0 ≤ weight o.
Proof. destruct o; cbn; try lia; apply len_nonneg. Qed.

Lemma run_all_micro os n s :
  ∃ n', rtc micro (n, s) (n', run_all os s) ∧ n ≤ n' ≤ n + total_weight os.
Proof.
  revert n s. induction os as [|o os IH]; intros n s.
  { exists n. split; [apply rtc_refl|cbn; lia]. }
  destruct (run_micro o n s) as (n1 & H1 & B1).
  destruct (IH n1 (run o s)) as (n2 & H2 & B2).
  exists n2. split; [by trans (n1, run o s)|unfold total_weight in *; cbn; lia].
Qed.

Lemma run_all_wf os :
  total_weight os ≤ MaxUint64 →
  ∃ n, n ≤ total_weight os ∧ version_wf n (run_all os NewMemoryStore).
Proof.
  intros Hw. destruct (run_all_micro os 0 NewMemoryStore) as (n & Hr & Hb).
  exists n. split; [lia|]. eapply version_wf_rtc; [exact Hr|lia|by apply version_wf_init].
Qed.

(** ** Frames: what a call leaves alone *)

Lemma apply_changes_frame cs s r s' :
  apply_changes cs s = (r, s') →
  outcomes s' = outcomes s ∧ snapshots s' = snapshots s ∧ cursors s' = cursors s.
Proof.
  revert s r s'. induction cs as [|c cs IH]; intros s r s'; [by intros [= _ <-]|].
  rewrite apply_changes_cons. unfold mbind, gom_bind.
  destruct (micro_apply_change c 0 s) as (x & s1 & n1 & E & _). rewrite E.
  assert (outcomes s1 = outcomes s ∧ snapshots s1 = snapshots s ∧ cursors s1 = cursors s) as (Ho & Hs & Hc).
  { revert E. unfold apply_change. case_match; intros [= _ <-]; done. }
  destruct (apply_changes cs s1) as [r1 s2] eqn:E1. destruct (IH _ _ _ E1) as (Ho1 & Hs1 & Hc1).
  destruct r1; intros [= _ <-]; by rewrite Ho1, Hs1, Hc1.
Qed.

Ltac exec_go := exec_go_with ltac:(unfold nextVersion).

(** A recorded outcome is never dropped or changed. *)
Lemma run_outcome o s id r : outcomes s !! id = Some r → outcomes (run o s) !! id = Some r.
Proof.
  intros Hr.
  destruct o; cbn [run]; unfold Get, List, Create, CompareAndSwap, Delete, Mutate, Transact,
    applyMutation, snapshotPage; exec_go; try done.
  all: match goal with E : apply_changes _ _ = _ |- _ => apply apply_changes_frame in E as (Ho & _) end.
  all: cbn; rewrite ?Ho; try done.
  all: rewrite lookup_insert_ne; congruence.
Qed.

Lemma run_all_outcome os s id r :
  outcomes s !! id = Some r → outcomes (run_all os s) !! id = Some r.
Proof. revert s. induction os as [|o os IH]; intros s Hr; [done|]. by apply IH, run_outcome. Qed.

Definition cursor_of (n : Z) : gostring := "c" ++ versionString n.

(** The calls that advance the listing cursor named [c]. *)
Definition uses_cursor (c : gostring) (o : op) : bool :=
  match o with OpList _ _ req => bool_decide (PageRequest_Cursor req = c) | _ => false end.

Lemma cursor_of_inj i j :
  0 ≤ i ≤ MaxUint64 → 0 ≤ j ≤ MaxUint64 → cursor_of i = cursor_of j → i = j.
Proof. intros ?? E. apply versionString_inj; [done..|]. exact (app_inv_head (bs "c") _ _ E). Qed.

(** A live cursor survives every call that does not use it. *)
Lemma run_cursor o s i :
  0 ≤ i ≤ cursors s → cursors s + 1 ≤ MaxUint64 → uses_cursor (cursor_of i) o = false →
  snapshots (run o s) !! cursor_of i = snapshots s !! cursor_of i ∧
  cursors s ≤ cursors (run o s) ≤ cursors s + 1.
Proof.
  intros Hi Hmax Hu.
  assert (u64 (cursors s + 1) = cursors s + 1) as Eu by (apply u64_small; lia).
  assert (cursor_of (cursors s + 1) ≠ cursor_of i) as Hne.
  { intros E%cursor_of_inj; lia. }
  destruct o; cbn [run uses_cursor] in *; unfold Get, List, Create, CompareAndSwap, Delete, Mutate, Transact,
    applyMutation, snapshotPage; exec_go; try (split; [done|lia]).
  all: try match goal with E : apply_changes _ _ = _ |- _ =>
         apply apply_changes_frame in E as (Ho & Hs & Hc); cbn; rewrite ?Hs, ?Hc; split; [done|lia] end.
  all: cbn; rewrite ?Eu; (split; [|lia]).
  all: try (apply bool_decide_eq_false in Hu).
  all: rewrite ?lookup_delete_ne, ?lookup_insert_ne; try done.
  all: unfold cursor_of in *; try congruence.
Qed.

Lemma run_all_cursor os s i :
  0 ≤ i ≤ cursors s → cursors s + len os ≤ MaxUint64 → Forall (λ o, uses_cursor (cursor_of i) o = false) os →
  snapshots (run_all os s) !! cursor_of i = snapshots s !! cursor_of i ∧
  cursors s ≤ cursors (run_all os s) ≤ cursors s + len os.
Proof.
  revert s. induction os as [|o os IH]; intros s Hi Hmax Hos; [unfold len; cbn; split; [done|lia]|].
  apply list.Forall_cons in Hos as [Ho Hos]. assert (len (o :: os) = len os + 1) as El by (unfold len; cbn; lia).
  rewrite El in *. change (run_all (o :: os) s) with (run_all os (run o s)).
  pose proof (len_nonneg os).
  destruct (run_cursor o s i) as [E B]; [lia..|done|].
  destruct (IH (run o s)) as [E' B']; [lia..|done|].
  split; [by rewrite <-E|lia].
Qed.

(** ** Mutations *)

Lemma applyMutation_Err ctx m s e s' : applyMutation ctx m s = (Err e, s') → s' = s.
Proof.
  unfold applyMutation. exec_go; try (intros [= _ <-]; done).
  all: destruct (micro_apply_changes (Mutation_Changes m0) 0 s) as (? & ? & ? & ? & _); congruence.
Qed.

Lemma mapM_precondition_perm recs cs cs' :
  cs ≡ₚ cs' → mapM_ (check_precondition recs) cs = Ok tt → Forall (λ c, check_precondition recs c = Ok tt) cs'.
Proof. intros Hp ?%mapM_Ok. by rewrite <-Hp. Qed.

Definition change_key (c : Change) : gostring := key_value (Change_Key c).

Lemma check_changes_sorted prev cs :
  check_changes prev cs = Ok tt → Sorted change_key_le cs →
  Forall (λ c, bytes_le prev (change_key c)) cs →
  StronglySorted bytes_lt (map change_key cs) ∧ Forall (bytes_lt prev) (map change_key cs).
Proof.
  revert prev. induction cs as [|c cs IH]; intros prev Hc Hs Hp; [split; constructor|].
  cbn [check_changes] in Hc. inv_go.
  repeat match goal with u : unit |- _ => destruct u end.
  apply list.Forall_cons in Hp as [Hpc Hp].
  apply Sorted_StronglySorted in Hs; [|intros ???; unfold change_key_le; by etrans].
  inversion Hs as [|? ? Hs' Hall]; subst.
  destruct (IH (change_key c)) as [Hss Hlts]; [done|by apply StronglySorted_Sorted|by eapply list.Forall_impl|].
  assert (bytes_lt prev (change_key c)) as Hlt.
  { apply bytes_le_lt_eq in Hpc as [?|E]; [done|].
    match goal with Hd : bool_decide (key_value _ = prev) = false |- _ =>
      apply bool_decide_eq_false in Hd; by destruct Hd end. }
  split; cbn; constructor; try done.
  eapply list.Forall_impl; [exact Hlts|]. intros k ?. by trans (change_key c).
Qed.

Lemma NormalizeMutation_spec m m' fp :
  NormalizeMutation m = Ok (m', fp) →
  Mutation_ID m' = Mutation_ID m ∧ Mutation_Result m' = Mutation_Result m ∧
  Mutation_Changes m' ≡ₚ Mutation_Changes m ∧ Mutation_Changes m ≠ [] ∧
  StronglySorted bytes_lt (map change_key (Mutation_Changes m')).
Proof.
  unfold NormalizeMutation. intros E. inv_go. injection E as <- <-. cbn.
  repeat match goal with u : unit |- _ => destruct u end.
  split; [done|]. split; [done|]. split; [apply merge_sort_Permutation|]. split.
  - match goal with Hb : _ || _ = false |- _ => rewrite orb_false_iff, bool_decide_eq_false in Hb; apply Hb end.
  - eapply check_changes_sorted; [done| |].
    + assert (Total change_key_le) by (intros ??; apply (total bytes_le)). apply (Sorted_merge_sort _).
    + apply list.Forall_forall. intros ? _. apply bytes_nil_le.
Qed.

(** The effect of a duplicate-free list of changes on the records. *)
Definition change_effect (s' : MemoryStore) (rs : list ChangeResult) (c : Change) : Prop :=
  if Change_Delete c then records s' !! change_key c = None
  else ∃ v, {| ChangeResult_Key := Change_Key c; ChangeResult_Version := v |} ∈ rs ∧
            records s' !! change_key c = Some {| record_data := Change_Data c; record_version := v |}.

Lemma apply_change_spec c s r s' :
  apply_change c s = (Ok r, s') →
  change_effect s' [r] c ∧ ∀ k, k ≠ change_key c → records s' !! k = records s !! k.
Proof.
  unfold apply_change, change_effect, change_key. destruct (Change_Delete c); intros [= <- <-]; cbn.
  - split; [apply lookup_delete_eq|]. intros k Hk. by rewrite lookup_delete_ne.
  - split; [|intros k Hk; by rewrite lookup_insert_ne].
    eexists. split; [by apply list_elem_of_singleton|]. apply lookup_insert_eq.
Qed.

Lemma apply_changes_spec cs s rs s' :
  NoDup (map change_key cs) → apply_changes cs s = (Ok rs, s') →
  Forall (change_effect s' rs) cs ∧ ∀ k, k ∉ map change_key cs → records s' !! k = records s !! k.
Proof.
  revert s rs s'. induction cs as [|c cs IH]; intros s rs s' Hnd E.
  { injection E as <- <-. split; [constructor|done]. }
  rewrite apply_changes_cons in E. inv_go. cbn in Hnd. apply NoDup_cons in Hnd as [Hc Hnd].
  match goal with H1 : apply_change c s = _ |- _ => apply apply_change_spec in H1 as [He Hf] end.
  match goal with H2 : apply_changes cs _ = _ |- _ => apply IH in H2 as [Hes Hfs]; [|done] end.
  split.
  - constructor.
    + revert He. unfold change_effect. rewrite Hfs by done. case_match; [done|].
      intros (v & Hin%list_elem_of_singleton & ?). exists v. split; [rewrite Hin; left|done].
    + eapply list.Forall_impl; [exact Hes|]. intros c'. unfold change_effect. case_match; [done|].
      intros (v & ? & ?). exists v. split; [by right|done].
  - intros k Hk. cbn in Hk. apply not_elem_of_cons in Hk as [? ?]. by rewrite Hfs, Hf.
Qed.

(** ** Outcomes of calls *)

Definition err_of {A} (r : res A) : option error := match r with Ok _ => None | Err e => Some e end.

(** The error a call returns in state [s], if any. *)
Definition call_error (o : op) (s : MemoryStore) : option error :=
  match o with
  | OpGet ctx key => err_of (fst (Get ctx key s))
  | OpList ctx prefix request => err_of (fst (List ctx prefix request s))
  | OpCreate ctx key data => err_of (fst (Create ctx key data s))
  | OpCompareAndSwap ctx key current data => err_of (fst (CompareAndSwap ctx key current data s))
  | OpDelete ctx key current => err_of (fst (Delete ctx key current s))
  | OpMutate ctx mutation => err_of (fst (Mutate ctx mutation s))
  | OpTransact ctx mutation => err_of (fst (Transact ctx mutation s))
  end.

(** A conditional write or delete of [key] at version [v]. *)
Definition conditional_on (key : Key) (v : gostring) (o : op) : Prop :=
  match o with
  | OpCompareAndSwap _ k c _ | OpDelete _ k c => k = key ∧ c = v
  | _ => False
  end.

(** What a conditional call that succeeded found and left at its key. *)
Lemma conditional_won o key v s :
  conditional_on key v o → call_error o s = None →
  (∃ r, records s !! key_value key = Some r ∧ record_version r = v) ∧
  ∀ r, records (run o s) !! key_value key = Some r →
       record_version r = versionString (u64 (versions s + 1)) ∧ weight o = 1.
Proof.
  destruct o; cbn [conditional_on call_error run weight]; try done; intros [-> ->];
    unfold CompareAndSwap, Delete, guard_err; exec_go; try done; intros _;
    match goal with E : bool_decide (record_version ?m ≠ v) = false |- _ =>
      apply bool_decide_eq_false, dec_stable in E end.
  all: split; [by eexists|]; cbn; intros r.
  - rewrite lookup_insert_eq. by intros [= <-].
  - by rewrite lookup_delete_eq.
Qed.

(** A conditional call can only succeed at the version that is stored. *)
Lemma conditional_stale o key v s :
  conditional_on key v o →
  (∀ r, records s !! key_value key = Some r → record_version r ≠ v) →
  is_Some (call_error o s).
Proof.
  intros Hc Hr. destruct (call_error o s) eqn:E; [by eexists|].
  destruct (conditional_won o key v s Hc E) as [(r & Hk & Hv) _]. by destruct (Hr r Hk).
Qed.

Lemma run_all_app os os' s : run_all (os ++ os') s = run_all os' (run_all os s).
Proof. apply foldl_app. Qed.

Lemma total_weight_app os os' : total_weight (os ++ os') = total_weight os + total_weight os'.
Proof. unfold total_weight. induction os; cbn in *; lia. Qed.

Lemma total_weight_nonneg os : 0 ≤ total_weight os.
Proof. unfold total_weight. induction os as [|o os IH]; cbn; [lia|]. pose proof (weight_nonneg o). lia. Qed.

(** ** Listing *)

Definition page_request (limit : Z) (cursor : gostring) : PageRequest :=
  {| PageRequest_Limit := limit; PageRequest_Cursor := cursor |}.

(** A client that follows cursors to the end, the calls of [interference]
    running before each page; one list per page bounds the pages. *)
Fixpoint drain (prefix : Prefix) (limit : Z) (interference : list (list op)) (cursor : gostring)
    (s : MemoryStore) : option (list Item) :=
  match interference with
  | [] => None
  | os :: rest =>
      let s := run_all os s in
      match List None prefix (page_request limit cursor) s with
      | (Err _, _) => None
      | (Ok page, s') =>
          if bool_decide (Page_NextCursor page = []) then Some (Page_Items page)
          else items ← drain prefix limit rest (Page_NextCursor page) s'; Some (Page_Items page ++ items)
      end
  end.

Definition total_calls (interference : list (list op)) : Z := foldr (λ os z, len os + z) 0 interference.

Lemma total_calls_nonneg os : 0 ≤ total_calls os.
Proof. unfold total_calls. induction os as [|o os IH]; cbn; [lia|]. pose proof (len_nonneg o). lia. Qed.

Lemma normalizePageLimit_pos req limit : normalizePageLimit req = Ok limit → 1 ≤ limit ≤ 1000.
Proof.
  unfold normalizePageLimit. repeat case_match; intros [= <-]; [lia|].
  match goal with Hb : _ || _ = false |- _ => apply orb_false_iff in Hb; lia end.
Qed.

Lemma versionString_nonempty n : versionString n ≠ [].
Proof. done. Qed.

(** A page request on a live cursor of the right scope returns its next page. *)
Lemma List_next prefix req limit i snap s :
  Prefix_Valid prefix = true → normalizePageLimit req = Ok limit →
  snapshots s !! cursor_of i = Some snap → snapshot_prefix snap = prefix → snapshot_limit snap = limit →
  List None prefix (page_request req (cursor_of i)) s = snapshotPage (cursor_of i) snap s.
Proof.
  intros Hp Hl Hs Ep El. unfold List, validatePrefix. rewrite Hp.
  unfold mbind, gom_bind, lift, gets, guard_err, contextError; cbn [negb PageRequest_Cursor PageRequest_Limit page_request].
  rewrite (bool_decide_eq_true_2 (cursor_of i ≠ [])) by done. rewrite Hl, Hs, Ep, El.
  rewrite bool_decide_eq_false_2 by (intros Hne; by apply Hne). by rewrite Z.eqb_refl.
Qed.

Lemma snapshotPage_spec c snap s :
  0 ≤ snapshot_index snap → 1 ≤ snapshot_limit snap →
  let rest := drop (Z.to_nat (snapshot_index snap)) (snapshot_items snap) in
  let n := Z.to_nat (snapshot_limit snap) in
  if bool_decide (length rest ≤ n)%nat
  then snapshotPage c snap s =
         (Ok {| Page_Items := rest; Page_NextCursor := [] |}, set_snapshots (delete c) s)
       ∨ len (snapshot_items snap) < snapshot_index snap
  else snapshotPage c snap s =
         (Ok {| Page_Items := take n rest; Page_NextCursor := c |},
          set_snapshots (insert c {| snapshot_prefix := snapshot_prefix snap; snapshot_limit := snapshot_limit snap;
            snapshot_items := snapshot_items snap;
            snapshot_index := snapshot_index snap + snapshot_limit snap |}) s).
Proof.
  intros Hi Hl rest n. unfold snapshotPage. cbn [snapshot_items].
  assert (length rest = length (snapshot_items snap) - Z.to_nat (snapshot_index snap))%nat as Elen by apply length_drop.
  unfold len. case_bool_decide as Hc.
  - destruct (decide (Z.of_nat (length (snapshot_items snap)) < snapshot_index snap)); [by right|left].
    rewrite Z.min_r, Z.eqb_refl by lia. rewrite take_ge; [done|]. fold rest. lia.
  - rewrite Z.min_l by lia. rewrite (proj2 (Z.eqb_neq _ _)) by lia.
    replace (Z.to_nat (snapshot_index snap + snapshot_limit snap - snapshot_index snap)) with n by lia. done.
Qed.

Lemma drain_snapshot prefix req limit interference i snap s :
  Prefix_Valid prefix = true → normalizePageLimit req = Ok limit →
  snapshots s !! cursor_of i = Some snap → snapshot_prefix snap = prefix → snapshot_limit snap = limit →
  0 ≤ snapshot_index snap ≤ len (snapshot_items snap) →
  len (snapshot_items snap) ≤ snapshot_index snap + limit * len interference → interference ≠ [] →
  0 ≤ i ≤ cursors s → cursors s + total_calls interference ≤ MaxUint64 →
  Forall (Forall (λ o, uses_cursor (cursor_of i) o = false)) interference →
  drain prefix req interference (cursor_of i) s
  = Some (drop (Z.to_nat (snapshot_index snap)) (snapshot_items snap)).
Proof.
  intros Hp Hl. pose proof (normalizePageLimit_pos _ _ Hl) as Hlim.
  revert snap s. induction interference as [|os rest IH]; intros snap s Hs Ep El Hidx Hfuel Hne Hi Hmax Hint; [done|].
  apply list.Forall_cons in Hint as [Hos Hrest]. cbn [drain].
  change (total_calls (os :: rest)) with (len os + total_calls rest) in Hmax.
  assert (len (os :: rest) = len rest + 1) as Elen by (unfold len; cbn; lia). rewrite Elen in Hfuel.
  pose proof (total_calls_nonneg rest). pose proof (len_nonneg rest).
  destruct (run_all_cursor os s i) as [Es Bs]; [lia..|done|].
  rewrite (List_next prefix req limit i snap) by (rewrite ?Es; done).
  pose proof (snapshotPage_spec (cursor_of i) snap (run_all os s)) as Hpage. cbn zeta in Hpage.
  specialize (Hpage ltac:(lia) ltac:(lia)). rewrite length_drop in Hpage.
  case_bool_decide as Hc.
  - destruct Hpage as [->|]; [|lia]. done.
  - rewrite Hpage. cbn [Page_NextCursor Page_Items]. rewrite bool_decide_eq_false_2 by done.
    erewrite IH; [| apply lookup_insert_eq |..]; cbn [snapshot_prefix snapshot_limit snapshot_items snapshot_index];
      try done; try (unfold len in *; cbn; nia).
    + cbn. f_equal. rewrite <-(take_drop (Z.to_nat (snapshot_limit snap)) (drop _ _)) at 2. f_equal.
      rewrite drop_drop. f_equal. lia.
    + intros ->. unfold len in *. cbn in Hfuel. lia.
Qed.

(** ** The items a listing snapshots *)

Definition item_of (k : gostring) (r : memoryRecord) : Item :=
  {| Item_Key := {| key_value := k |};
     Item_Value := {| Value_Data := record_data r; Value_Version := record_version r |} |}.

Lemma matching_keys_elem (recs : gmap gostring memoryRecord) prefix k :
  k ∈ sort_Strings (filter (λ k, HasPrefix k (prefix_value prefix) = true) (map fst (map_to_list recs))) ↔
  HasPrefix k (prefix_value prefix) = true ∧ is_Some (recs !! k).
Proof.
  unfold sort_Strings. rewrite merge_sort_Permutation, list_elem_of_filter, list_elem_of_fmap.
  split; intros [Hp Hr]; (split; [done|]).
  - destruct Hr as ([k' r] & -> & Hr%elem_of_map_to_list). by eexists.
  - destruct Hr as [r Hr]. exists (k, r). split; [done|]. by apply elem_of_map_to_list.
Qed.

Lemma matching_items_elem recs prefix it :
  it ∈ matching_items recs prefix ↔
  ∃ k r, recs !! k = Some r ∧ HasPrefix k (prefix_value prefix) = true ∧ it = item_of k r.
Proof.
  unfold matching_items. rewrite list_elem_of_omap. split.
  - intros (k & [Hp [r Hr]]%matching_keys_elem & E). rewrite Hr in E. injection E as <-. by exists k, r.
  - intros (k & r & Hr & Hp & ->). exists k. split; [by apply matching_keys_elem|]. by rewrite Hr.
Qed.

Lemma matching_items_sorted recs prefix :
  StronglySorted bytes_lt (map (λ it, key_value (Item_Key it)) (matching_items recs prefix)).
Proof.
  apply omap_sorted_keys.
  - intros k b E. cbn in E. destruct (recs !! k); [by injection E as <-|done].
  - unfold sort_Strings. apply sorted_le_lt.
    + apply (StronglySorted_merge_sort _).
    + rewrite merge_sort_Permutation. apply NoDup_filter, NoDup_fst_map_to_list.
Qed.

(** ** Claims *)

(** The record key of a namespace and its parts determines both: two
    different (namespace, parts) pairs never share a record. *)
Theorem NewKey_injective ns ps ns' ps' k :
  NewKey ns ps = Ok k → NewKey ns' ps' = Ok k → ns = ns' ∧ ps = ps'.
Proof.
  unfold NewKey. intros E E'. inv_go. injection E as <-. injection E' as E'. subst.
  by eapply encodedPath_inj.
Qed.

(** A list prefix selects exactly the keys strictly below it: the same
    namespace, and the prefix's parts followed by at least one more part. *)
Theorem NewPrefix_selects_descendants ns ps ns' qs k p :
  NewKey ns ps = Ok k → NewPrefix ns' qs = Ok p →
  HasPrefix (key_value k) (prefix_value p) = true ↔
  ns = ns' ∧ ∃ q rest, ps = qs ++ q :: rest.
Proof.
  unfold NewKey, NewPrefix. intros E E'. inv_go. injection E as <-. injection E' as <-. cbn.
  repeat match goal with H : encodedPath _ _ = Ok _ |- _ => apply encodedPath_Ok in H as (? & ? & ->) end.
  rewrite HasPrefix_spec. change (bs "/") with [slash].
  rewrite join_prefix by (done || by apply encoded_no_slash).
  split.
  - intros (m & Hm & Eq). cbn in Eq. injection Eq as -> Eq. split; [done|].
    apply fmap_app_inv in Eq as (l1 & l2 & E1 & E2 & ->).
    apply (inj (map b64_encode)) in E1 as <-. destruct l2 as [|q' rest']; [by subst|]. by exists q', rest'.
  - intros (-> & q & rest & ->). exists (map b64_encode (q :: rest)). split; [done|]. cbn. by rewrite map_app.
Qed.

(** A call that returns an error changes nothing at all. *)
Theorem failed_call_changes_nothing o s e : call_error o s = Some e → run o s = s.
Proof.
  destruct o; cbn [run call_error];
    [unfold Get|unfold List, snapshotPage|unfold Create|unfold CompareAndSwap|unfold Delete
    |unfold Mutate; destruct (applyMutation ctx mutation s) as [[]] eqn:E; [done|by apply applyMutation_Err in E as ->]
    |unfold Transact; destruct (applyMutation ctx mutation s) as [[]] eqn:E; [done|by apply applyMutation_Err in E as ->]].
  all: exec_go; done.
Qed.

(** A committed mutation found every precondition satisfied on the records
    before it, writes or deletes exactly the records it names, reports the
    version of each write, and leaves every other record alone. *)
Theorem mutate_commits_all ctx m s out s' :
  Mutate ctx m s = (Ok out, s') → outcomes s !! Mutation_ID m = None →
  Forall (λ c, check_precondition (records s) c = Ok tt) (Mutation_Changes m) ∧
  Forall (change_effect s' (Outcome_Changes out)) (Mutation_Changes m) ∧
  (∀ k, k ∉ map change_key (Mutation_Changes m) → records s' !! k = records s !! k) ∧
  Outcome_ID out = Mutation_ID m ∧ Outcome_Result out = Mutation_Result m ∧ Outcome_Replayed out = false.
Proof.
  unfold Mutate, applyMutation. intros E Hnone. inv_go.
  match goal with x : Mutation * gostring |- _ => destruct x as [norm fp] end.
  match goal with Hn : NormalizeMutation m = _ |- _ =>
    apply NormalizeMutation_spec in Hn as (Hid & Hres & Hperm & _ & Hss) end.
  inv_go. rewrite Hid, Hnone in E. inv_go. repeat match goal with u : unit |- _ => destruct u end.
  match goal with Ha : apply_changes _ _ = _ |- _ =>
    apply apply_changes_spec in Ha as [He Hf]; [|by apply sorted_lt_NoDup] end.
  rewrite <-Hperm. cbn [Outcome_ID Outcome_Result Outcome_Replayed Outcome_Changes].
  split; [by apply mapM_Ok|]. split; [exact He|]. split; [|done].
  intros k Hk. apply Hf. by rewrite Hperm.
Qed.

(** C28: Exactly-once mutations: after a mutation returned an outcome, and any
    calls whatsoever, repeating it returns the same outcome marked as replayed
    and changes nothing; another mutation under the same ID with a different
    fingerprint is a conflict. *)
Theorem mutate_exactly_once ctx m s out s1 os :
  Mutate ctx m s = (Ok out, s1) →
  let s2 := run_all os s1 in
  Mutate None m s2 = (Ok {| Outcome_ID := Outcome_ID out; Outcome_Changes := Outcome_Changes out;
                            Outcome_Result := Outcome_Result out; Outcome_Replayed := true |}, s2) ∧
  ∀ norm fp m' norm' fp',
    NormalizeMutation m = Ok (norm, fp) → NormalizeMutation m' = Ok (norm', fp') →
    Mutation_ID m' = Mutation_ID m → fp' ≠ fp →
    Mutate None m' s2 = (Err (NewError ErrorConflict "atomic state idempotency key was reused"), s2).
Proof.
  intros Hm s2. unfold Mutate, applyMutation in Hm. inv_go.
  match goal with x : Mutation * gostring |- _ => destruct x as [norm fp] end. inv_go.
  match goal with Hn : NormalizeMutation m = _ |- _ => rename Hn into Hnorm end.
  pose proof (NormalizeMutation_spec _ _ _ Hnorm) as (Hid & Hres & _).
  assert (∃ r, outcomes s1 !! Mutation_ID m = Some r ∧ recorded_fingerprint r = fp ∧
               Outcome_ID (recorded_outcome r) = Outcome_ID out ∧
               Outcome_Changes (recorded_outcome r) = Outcome_Changes out ∧
               Outcome_Result (recorded_outcome r) = Outcome_Result out) as (r & Hr & Hfp & E1 & E2 & E3).
  { destruct (_ !! Mutation_ID norm) as [r|] eqn:Er in Hm.
    - case_bool_decide as Hfp; inv_go. exists r. rewrite <-Hid. done.
    - inv_go. cbn. rewrite Hid, lookup_insert_eq. by eexists. }
  apply (run_all_outcome os) in Hr. fold s2 in Hr.
  assert (∀ m' norm' fp', NormalizeMutation m' = Ok (norm', fp') → Mutation_ID m' = Mutation_ID m →
    Mutate None m' s2 = if bool_decide (fp ≠ fp')
      then (Err (NewError ErrorConflict "atomic state idempotency key was reused"), s2)
      else (Ok {| Outcome_ID := Outcome_ID out; Outcome_Changes := Outcome_Changes out;
                  Outcome_Result := Outcome_Result out; Outcome_Replayed := true |}, s2)) as Hrun.
  { intros m' norm' fp' Hn' Hid'. pose proof (NormalizeMutation_spec _ _ _ Hn') as (Hid2 & _).
    unfold Mutate, applyMutation. rewrite Hn'. unfold mbind, gom_bind, lift, gets. cbn.
    rewrite Hid2, Hid', Hr, Hfp. unfold throw, mret, gom_ret. case_bool_decide; [done|]. by rewrite E1, E2, E3. }
  split.
  - rewrite (Hrun m norm fp) by done. by rewrite bool_decide_eq_false_2 by (intros Hne; by apply Hne).
  - intros norm0 fp0 m' norm' fp' En Hn' Hid' Hne. rewrite Hnorm in En. injection En as <- <-.
    rewrite (Hrun m' norm' fp') by done. by rewrite bool_decide_eq_true_2 by congruence.
Qed.

(** A version names one value forever: if two reads of a key, any calls
    apart, return the same version then they return the same data (as long as
    fewer than 2^64 versions are issued). *)
Theorem version_identifies_content os os' key v v' :
  total_weight (os ++ os') ≤ MaxUint64 →
  fst (Get None key (run_all os NewMemoryStore)) = Ok v →
  fst (Get None key (run_all (os ++ os') NewMemoryStore)) = Ok v' →
  Value_Version v = Value_Version v' → v = v'.
Proof.
  rewrite total_weight_app, run_all_app. intros Hw.
  pose proof (total_weight_nonneg os). pose proof (total_weight_nonneg os').
  destruct (run_all_wf os) as (n & Hn & Hwf); [lia|].
  destruct (run_all_micro os' n (run_all os NewMemoryStore)) as (n' & Hr & Hb).
  unfold Get. exec_go; try done. intros [= <-] [= <-]. cbn. intros Hv.
  match goal with E : records (run_all os' _) !! _ = Some ?r', E' : records _ !! _ = Some ?r |- _ =>
    assert (r = r') as ->; [|done] end.
  eapply version_identifies; [exact Hr|lia|done..].
Qed.

(** One winner per version: after a conditional write or delete of a key at
    version [v] succeeded, every later conditional call on the key at [v] is
    refused, whatever happened in between (no ABA). *)
Theorem conditional_single_winner os o1 os' o2 key v :
  total_weight (os ++ o1 :: os') ≤ MaxUint64 →
  conditional_on key v o1 → call_error o1 (run_all os NewMemoryStore) = None →
  conditional_on key v o2 → is_Some (call_error o2 (run_all (os ++ o1 :: os') NewMemoryStore)).
Proof.
  rewrite total_weight_app, run_all_app. intros Hw Hc1 Hok Hc2.
  change (total_weight (o1 :: os')) with (weight o1 + total_weight os') in Hw.
  pose proof (total_weight_nonneg os). pose proof (total_weight_nonneg os'). pose proof (weight_nonneg o1).
  destruct (run_all_wf os) as (n & Hn & Hwf); [lia|].
  set (s := run_all os NewMemoryStore) in *. change (run_all (o1 :: os') s) with (run_all os' (run o1 s)).
  destruct (run_micro o1 n s) as (n1 & Hr1 & Hb1).
  destruct (run_all_micro os' n1 (run o1 s)) as (n2 & Hr2 & Hb2).
  destruct (conditional_won o1 key v s Hc1 Hok) as [(r & Hk & Hv) Hafter].
  apply (conditional_stale o2 key v); [done|]. intros r2 Hr'. rewrite <-Hv. change (vs_version r2 ≠ vs_version r).
  eapply (version_gone n s n1 (run o1 s) n2); [done|done|lia|done|done| |done].
  intros E0. destruct (Hafter r E0) as [Hnew Hone].
  eapply (next_version_fresh n s); [done|lia|done..].
Qed.

(** Paging is snapshot-consistent and complete: following cursors from a
    first page yields, with one request per page, exactly the records that were
    under the prefix at the first request, in strictly increasing key order,
    although other calls run between the pages (none of them using the
    listing's own cursor). *)
Theorem list_drains_snapshot prefix req limit interference s :
  Prefix_Valid prefix = true → normalizePageLimit req = Ok limit →
  0 ≤ cursors s → cursors s + 1 + total_calls interference ≤ MaxUint64 →
  len (matching_items (records s) prefix) ≤ limit * (1 + len interference) →
  Forall (Forall (λ o, uses_cursor (cursor_of (cursors s + 1)) o = false)) interference →
  ∃ items, drain prefix req ([] :: interference) [] s = Some items ∧
    StronglySorted bytes_lt (map (λ it, key_value (Item_Key it)) items) ∧
    ∀ it, it ∈ items ↔ ∃ k r, records s !! k = Some r ∧ HasPrefix k (prefix_value prefix) = true ∧
                              it = item_of k r.
Proof.
  intros Hp Hl Hc Hmax Hfuel Hint. exists (matching_items (records s) prefix).
  split; [|split; [apply matching_items_sorted|apply matching_items_elem]].
  pose proof (normalizePageLimit_pos _ _ Hl) as Hlim. pose proof (total_calls_nonneg interference).
  cbn [drain run_all foldl]. unfold List, validatePrefix. rewrite Hp.
  unfold mbind at 1 2 3 4 5 6 7 8, gom_bind, lift, gets, guard_err, contextError, modify.
  cbn [negb PageRequest_Cursor PageRequest_Limit page_request]. rewrite Hl.
  rewrite (bool_decide_eq_false_2 ([] ≠ [])) by (intros Hne; by apply Hne).
  set (items := matching_items (records s) prefix) in *.
  destruct (Z.leb_spec (len items) limit) as [Hle|Hgt]; [done|].
  cbn [cursors]. rewrite u64_small by lia. fold (cursor_of (cursors s + 1)).
  set (snap := {| snapshot_prefix := prefix |}). set (s1 := set_snapshots _ _).
  pose proof (snapshotPage_spec (cursor_of (cursors s + 1)) snap s1 ltac:(done)) as Hpage.
  cbn zeta in Hpage. specialize (Hpage ltac:(cbn; lia)). cbn [snapshot_items snapshot_limit snapshot_index snap] in Hpage.
  rewrite drop_0, bool_decide_eq_false_2 in Hpage by (unfold len in *; lia).
  rewrite Hpage. cbn [Page_NextCursor Page_Items]. rewrite bool_decide_eq_false_2 by done.
  erewrite drain_snapshot; [|done|done|apply lookup_insert_eq|..]; try done; cbn [snapshot_items snapshot_limit snapshot_index snapshot_prefix snap];
    try (cbn; unfold len in *; nia).
  - cbn. f_equal. apply take_drop.
  - intros ->. unfold len in *; cbn in *; lia.
Qed.
End Theory.

(** ** Witnesses: concrete runs with the real SHA-256 *)

#[local] Instance sha256_real : SHA256 := sha256_Sum256.

Definition key1 : Key := {| key_value := "users/dQ" |}.
Definition key2 : Key := {| key_value := "users/dg" |}.
Definition prefix_users : Prefix := {| prefix_value := "users/" |}.
Definition v1 : gostring := versionString 1.

Definition mut1 : Mutation := {|
  Mutation_ID := "m1"; Mutation_RetainUntil := 0; Mutation_Result := "ok";
  Mutation_Changes := [
    {| Change_Key := key2; Change_Requirement := RequirementAbsent; Change_ExpectedVersion := [];
       Change_Delete := false; Change_Data := "new" |};
    {| Change_Key := key1; Change_Requirement := RequirementPresent; Change_ExpectedVersion := v1;
       Change_Delete := true; Change_Data := [] |}] |}.

Definition store1 : MemoryStore := run_all [OpCreate None key1 "a"] NewMemoryStore.

Lemma NewKey_injective_witness : bs "users" = bs "users" ∧ [bs "u"] = [bs "u"].
Proof. apply (NewKey_injective "users" ["u"%string:gostring] "users" ["u"%string:gostring] key1); vm_compute; reflexivity. Defined.

Lemma NewPrefix_selects_descendants_witness :
  HasPrefix (key_value key1) (prefix_value prefix_users) = true ↔
  bs "users" = bs "users" ∧ ∃ q rest, [bs "u"] = [] ++ q :: rest.
Proof. apply (NewPrefix_selects_descendants "users" [bs "u"] "users" []); vm_compute; reflexivity. Defined.

Lemma failed_call_changes_nothing_witness : run (OpDelete None key2 v1) store1 = store1.
Proof.
  apply (failed_call_changes_nothing _ _ (NewError ErrorNotFound "state record not found")).
  vm_compute; reflexivity.
Defined.

Lemma mutate_commits_all_witness :
  ∃ out s', Mutate None mut1 store1 = (Ok out, s') ∧
    ∀ k, k ∉ map change_key (Mutation_Changes mut1) → records s' !! k = records store1 !! k.
Proof.
  destruct (Mutate None mut1 store1) as [[out|e] s'] eqn:E; [|vm_compute in E; discriminate E].
  exists out, s'. split; [reflexivity|].
  apply (mutate_commits_all None mut1 store1 out s'); [exact E|vm_compute; reflexivity].
Defined.

Lemma mutate_exactly_once_witness :
  ∃ out s1, Mutate None mut1 store1 = (Ok out, s1) ∧
    Mutate None mut1 (run_all [OpCreate None key1 "b"] s1) =
      (Ok {| Outcome_ID := Outcome_ID out; Outcome_Changes := Outcome_Changes out;
             Outcome_Result := Outcome_Result out; Outcome_Replayed := true |},
       run_all [OpCreate None key1 "b"] s1).
Proof.
  destruct (Mutate None mut1 store1) as [[out|e] s1] eqn:E; [|vm_compute in E; discriminate E].
  exists out, s1. split; [reflexivity|].
  exact (proj1 (mutate_exactly_once None mut1 store1 out s1 [OpCreate None key1 "b"] E)).
Defined.

Lemma version_identifies_content_witness :
  ∃ v v', fst (Get None key1 store1) = Ok v ∧
    fst (Get None key1 (run_all ([OpCreate None key1 "a"] ++ [OpCreate None key2 "c"]) NewMemoryStore)) = Ok v' ∧ v = v'.
Proof.
  eexists _, _. split; [vm_compute; reflexivity|]. split; [vm_compute; reflexivity|].
  apply (version_identifies_content [OpCreate None key1 "a"] [OpCreate None key2 "c"] key1);
    vm_compute; try reflexivity; discriminate.
Defined.

Lemma conditional_single_winner_witness :
  is_Some (call_error (OpCompareAndSwap None key1 v1 "c")
    (run_all ([OpCreate None key1 "a"] ++ OpDelete None key1 v1 :: [OpCreate None key1 "a"]) NewMemoryStore)).
Proof.
  apply (conditional_single_winner [OpCreate None key1 "a"] (OpDelete None key1 v1) [OpCreate None key1 "a"]
    (OpCompareAndSwap None key1 v1 "c") key1 v1); try done; vm_compute; try reflexivity; discriminate.
Defined.

Definition store2 : MemoryStore := run_all [OpCreate None key1 "a"; OpCreate None key2 "b"] NewMemoryStore.

Lemma list_drains_snapshot_witness :
  ∃ items, drain prefix_users 1 ([] :: [[OpDelete None key2 (versionString 2)]]) [] store2 = Some items ∧
    StronglySorted bytes_lt (map (λ it, key_value (Item_Key it)) items) ∧
    ∀ it, it ∈ items ↔ ∃ k r, records store2 !! k = Some r ∧
      HasPrefix k (prefix_value prefix_users) = true ∧ it = item_of k r.
Proof.
  apply (list_drains_snapshot prefix_users 1 1 [[OpDelete None key2 (versionString 2)]] store2);
    [vm_compute; try reflexivity; discriminate..|repeat constructor].
Defined.
End StateTheory.
