(* ===== verification/ObjectStore.v ===== *)
(** * The object transport boundary: internal/objectstore

    [Integrity] is internal/integrity, [ObjectStore] is objectstore.go and the
    request and capability types of transfer.go, and [MemoryBackend] is the
    strongly consistent in-memory backend (memory/memory.go) with its direct
    transfer data plane (memory/transfer.go).  The backend's mutex makes each
    method one atomic step; [ctx.Err()] and [clock.Now()] are the arguments
    [ctx] and [now] (instants in nanoseconds, so [UTC()] is the identity). *)

From Stdlib Require Import ZArith Lia.
From S2P Require Import Prelude GoLib GoHash Errors DomainIDs.

Open Scope Z_scope.

(** ** internal/integrity/crc32c.go *)

Module Integrity.

Definition EncodeCRC32C (value : Z) : gostring := b64_encode (put_be 4 value []).

Definition CRC32C (data : gostring) : gostring := EncodeCRC32C (crc32c_Checksum data).

Definition md5_Size : Z := 16.

Definition EncodeMD5 (value : gostring) : gostring :=
  if negb (len value =? md5_Size) then [] else b64_encode value.

Definition MD5 `{MD5Sum} (data : gostring) : gostring := EncodeMD5 (md5 data).

(** [None] is the result [(_, false)]. *)
Definition ParseMD5 (value : gostring) : option gostring :=
  match b64_decode value with
  | None => None
  | Some decoded =>
      if negb (len decoded =? md5_Size) || negb (bool_decide (b64_encode decoded = value)) then None
      else Some decoded
  end.

Definition ParseCRC32C (value : gostring) : option Z :=
  match b64_decode value with
  | None => None
  | Some decoded =>
      if negb (len decoded =? 4) || negb (bool_decide (b64_encode decoded = value)) then None
      else Some (get_be decoded)
  end.
End Integrity.

(** ** objectstore.go *)

Module ObjectStore.

Definition MaxKeyBytes : Z := 240.
Definition MaxKeySegments : Z := 24.

Record Key := { key_value : gostring }.
#[export] Instance Key_eq_dec : EqDecision Key.
Proof. solve_decision. Defined.

Definition key_character (r : Z) : bool :=
  ((97 <=? r) && (r <=? 122)) || ((48 <=? r) && (r <=? 57)) || (r =? 45) || (r =? 46).

Definition check_segment (segment : gostring) : res unit :=
  _ ← guard_err (bool_decide (segment = []) || bool_decide (segment = bs ".")
                 || bool_decide (segment = bs ".."))
        (NewError ErrorInvalid "invalid object key segment");
  guard_err (negb (forallb (λ r, key_character (fst r)) (runes segment)))
    (NewError ErrorInvalid "invalid object key character").

Definition ParseKey (value : gostring) : res Key :=
  _ ← guard_err ((len value =? 0) || (MaxKeyBytes <? len value) || HasPrefix value "/" || HasSuffix value "/")
        (NewError ErrorInvalid "invalid object key");
  let segments := split_on slash value in
  _ ← guard_err (MaxKeySegments <? len segments)
        (NewError ErrorInvalid "object key has too many segments");
  _ ← mapM_ check_segment segments;
  Ok {| key_value := value |}.

(** A Go panic; no theorem below reaches it. *)
Definition panic : error := OtherError "panic".

Definition MustKey (value : gostring) : res Key :=
  match ParseKey value with Err _ => Err panic | Ok key => Ok key end.

Definition Key_Valid (k : Key) : bool :=
  match ParseKey (key_value k) with Ok parsed => bool_decide (parsed = k) | Err _ => false end.

Abbreviation NativeVersion := gostring (only parsing).

Record Object := {
  Object_Key : Key; Object_Body : gostring; Object_Version : NativeVersion; Object_Size : Z;
}.

(** The streamed body is the sequence of bytes still to be read. *)
Record ObjectReader := {
  Reader_Key : Key; Reader_Body : gostring; Reader_Version : NativeVersion; Reader_Size : Z;
}.

Record ContentFingerprint := { Fingerprint_MD5 : gostring; Fingerprint_CRC32C : gostring }.
Definition no_fingerprint : ContentFingerprint := {| Fingerprint_MD5 := []; Fingerprint_CRC32C := [] |}.

Record ObjectInfo := {
  Info_Key : Key; Info_Version : NativeVersion; Info_Size : Z; Info_Fingerprint : ContentFingerprint;
}.

Definition Fingerprint_Validate (f : ContentFingerprint) : res unit :=
  match Integrity.ParseMD5 (Fingerprint_MD5 f) with
  | None => Err (NewError ErrorInvalid "invalid MD5 content fingerprint")
  | Some _ =>
      match Integrity.ParseCRC32C (Fingerprint_CRC32C f) with
      | None => Err (NewError ErrorInvalid "invalid CRC32C content fingerprint")
      | Some _ => Ok tt
      end
  end.

Definition Fingerprint_Complete (f : ContentFingerprint) : bool := is_Ok (Fingerprint_Validate f).

Definition FingerprintFor `{MD5Sum} (body : gostring) : ContentFingerprint :=
  {| Fingerprint_MD5 := Integrity.MD5 body; Fingerprint_CRC32C := Integrity.CRC32C body |}.

Definition ChecksumCRC32C : gostring := "crc32c".

Record Checksum := { Checksum_Algorithm : gostring; Checksum_Value : gostring }.
#[export] Instance Checksum_eq_dec : EqDecision Checksum.
Proof. solve_decision. Defined.

Record ExpectedIntegrity := { Expected_Size : Z; Expected_Checksum : Checksum }.

Definition IntegrityFor (body : gostring) : ExpectedIntegrity :=
  {| Expected_Size := len body;
     Expected_Checksum := {| Checksum_Algorithm := ChecksumCRC32C;
                             Checksum_Value := Integrity.CRC32C body |} |}.

Definition Expected_Validate (i : ExpectedIntegrity) : res unit :=
  let invalid := Err (NewError ErrorInvalid "invalid expected object integrity") in
  if (0 <=? Expected_Size i)
     && bool_decide (Checksum_Algorithm (Expected_Checksum i) = ChecksumCRC32C)
  then match Integrity.ParseCRC32C (Checksum_Value (Expected_Checksum i)) with
       | Some _ => Ok tt
       | None => invalid
       end
  else invalid.

(** [type PutMode uint8] *)
Definition PutCreateOnly : Z := 1.
Definition PutMatch : Z := 2.

Record PutCondition := { Put_Mode : Z; Put_Version : NativeVersion }.

Definition PutCondition_Validate (c : PutCondition) : res unit :=
  if (Put_Mode c =? PutCreateOnly) && bool_decide (Put_Version c = []) then Ok tt
  else if (Put_Mode c =? PutMatch) && bool_decide (Put_Version c ≠ []) then Ok tt
  else Err (NewError ErrorInvalid "invalid object put condition").

Record DeleteCondition := { Delete_Version : NativeVersion }.
Record CopyCondition := { Copy_SourceVersion : NativeVersion; Copy_Destination : PutCondition }.
Record CopyResult := { Copy_Version : NativeVersion; Copy_Size : Z }.

Record ListRequest := {
  List_Prefix : gostring; List_Limit : Z; List_Cursor : gostring; List_After : gostring;
}.
Record ListPage := { Page_Objects : list ObjectInfo; Page_NextCursor : gostring }.

Definition ValidatePrefix (prefix : gostring) : res unit :=
  _ ← guard_err (bool_decide (prefix = []) || (MaxKeyBytes + 1 <? len prefix) || negb (HasSuffix prefix "/"))
        (NewError ErrorInvalid "invalid object prefix");
  match ParseKey (TrimSuffix prefix "/") with Ok _ => Ok tt | Err err => Err err end.

Definition ListRequest_Validate (r : ListRequest) : res unit :=
  _ ← ValidatePrefix (List_Prefix r);
  _ ← guard_err (bool_decide (List_Cursor r ≠ []) && bool_decide (List_After r ≠ []))
        (NewError ErrorInvalid "object list cursor and after key are mutually exclusive");
  if bool_decide (List_After r ≠ []) then
    let invalid := NewError ErrorInvalid "invalid object list after key" in
    match ParseKey (List_After r) with
    | Err _ => Err invalid
    | Ok key => guard_err (negb (HasPrefix (key_value key) (List_Prefix r))) invalid
    end
  else Ok tt.

Definition ContextError (ctx : context) : res unit :=
  match ctx with
  | Some err => Err (WrapError ErrorUnavailable "object request canceled" err)
  | None => Ok tt
  end.

Definition VersionString (prefix : gostring) (counter : Z) : NativeVersion := prefix ++ Sprintf_016x counter.

(** ** transfer.go *)

(** The protocol names of internal/domain/storage.go. *)
Definition UploadSingle : gostring := "single".
Definition UploadResumable : gostring := "resumable".
Definition UploadFramingWholeObject : gostring := "whole-object".
Definition UploadFramingOffsetHeader : gostring := "offset-header".
Definition DispositionAttachment : gostring := "attachment".
Definition DispositionInline : gostring := "inline".

Record ChunkRules := { Rules_MinimumSize : Z; Rules_MaximumSize : Z; Rules_Multiple : Z }.

Record UploadRequest := {
  Upload_UploadID : gostring;
  Upload_Key : Key;
  Upload_Size : Z;
  Upload_MediaType : gostring;
  Upload_Resumable : bool;
  Upload_ExpiresAt : Z;
  Upload_InitiationExpiresAt : Z;
}.

Record UploadCapability := {
  Cap_Protocol : gostring;
  Cap_URL : gostring;
  Cap_Method : gostring;
  Cap_Headers : gmap gostring gostring;
  Cap_ExpiresAt : Z;
  Cap_ChunkRules : option ChunkRules;
  Cap_Framing : gostring;
  Cap_DeclaredSize : Z;
}.

Record UploadProgress_ := {
  Progress_Offset : Z;
  Progress_Size : Z;
  Progress_ExpiresAt : Z;
  Progress_Complete : bool;
  Progress_Version : NativeVersion;
  Progress_Fingerprint : ContentFingerprint;
  Progress_Materialized : bool;
}.

Record UploadHandle := { Handle_Capability : UploadCapability; Handle_Lease : gostring }.

Record DownloadRequest := {
  Download_Key : Key;
  Download_Version : NativeVersion;
  Download_Immutable : bool;
  Download_Filename : gostring;
  Download_MediaType : gostring;
  Download_Disposition : gostring;
  Download_ExpiresAt : Z;
}.

Record DownloadCapability := {
  DownloadCap_URL : gostring;
  DownloadCap_Method : gostring;
  DownloadCap_Headers : gmap gostring gostring;
  DownloadCap_ExpiresAt : Z;
}.
End ObjectStore.
