(* ===== verification/ObjectMemory.v ===== *)
(** * The in-memory object backend: internal/objectstore/memory

    memory.go (conditional object store) and transfer.go (direct upload and
    download data plane).  An HTTP handler returns early by [throw]ing its
    response; [Headers] of a response holds the headers the handlers set
    themselves, and the body of an error response is its message. *)

From Stdlib Require Import ZArith Lia.
From S2P Require Import Prelude GoLib GoHash Errors DomainIDs ObjectStore.

Open Scope Z_scope.

(** [mime.ParseMediaType]: the media type, [None] on an error. *)
Class MIME := ParseMediaType : gostring → option gostring.

(** [net/url.Parse] and [net.ParseIP] accept the text as an http URL of a
    loopback address with a port and no user, path, query or fragment. *)
Class LoopbackURL := loopback_url : gostring → bool.

(** internal/domain/storage.go: [NormalizeMediaType] *)
Definition NormalizeMediaType `{MIME} (value : gostring) : res gostring :=
  let invalid := NewError ErrorInvalid "invalid media type" in
  _ ← guard_err (bool_decide (value = []) || (255 <? len value)
                 || ContainsByte value (byte_of 13) || ContainsByte value (byte_of 10)) invalid;
  match ParseMediaType value with
  | None => Err invalid
  | Some base =>
      _ ← guard_err (negb (ContainsByte base slash)) invalid;
      Ok (map (λ c, byte_of (ascii_lower (byte_val c))) base)
  end.

Module MemoryBackend.
Import ObjectStore.

Record record := {
  body : gostring;
  version : NativeVersion;
  size : Z;
  materialized : bool;
  fingerprint : ContentFingerprint;
}.

Record snapshot := {
  snapshot_prefix : gostring;
  snapshot_limit : Z;
  snapshot_objects : list ObjectInfo;
  snapshot_index : Z;
}.

(** A running [md5] or [crc32c] hash is the bytes written to it. *)
Record uploadSession := {
  session_id : gostring;
  session_key : Key;
  session_size : Z;
  session_mediaType : gostring;
  session_protocol : gostring;
  session_expiresAt : Z;
  session_offset : Z;
  session_body : gostring;
  session_materialized : bool;
  session_md5 : gostring;
  session_crc32c : gostring;
  session_fingerprint : ContentFingerprint;
  session_tokenHash : gostring;
  session_aborted : bool;
  session_version : NativeVersion;
  session_capability : UploadCapability;
}.

Record downloadSession := {
  download_key : Key;
  download_version : NativeVersion;
  download_filename : gostring;
  download_mediaType : gostring;
  download_disposition : gostring;
  download_expiresAt : Z;
}.

Record Backend := {
  records : gmap gostring record;
  snapshots : gmap gostring snapshot;
  versions : Z;
  cursors : Z;
  ids : IDGenerator;
  dataPlaneURL : gostring;
  uploads : gmap gostring uploadSession;
  uploadTokens : gmap gostring gostring;
  downloads : gmap gostring downloadSession;
  transferFaults : gmap gostring (list gostring);
  uploadBytes : Z;
  downloadBytes : Z;
}.

Definition upd_records (f : gmap gostring record → gmap gostring record) (b : Backend) : Backend :=
  {| records := f (records b); snapshots := snapshots b; versions := versions b; cursors := cursors b;
     ids := ids b; dataPlaneURL := dataPlaneURL b; uploads := uploads b; uploadTokens := uploadTokens b;
     downloads := downloads b; transferFaults := transferFaults b; uploadBytes := uploadBytes b; downloadBytes := downloadBytes b |}.
Definition upd_snapshots (f : gmap gostring snapshot → gmap gostring snapshot) (b : Backend) : Backend :=
  {| records := records b; snapshots := f (snapshots b); versions := versions b; cursors := cursors b;
     ids := ids b; dataPlaneURL := dataPlaneURL b; uploads := uploads b; uploadTokens := uploadTokens b;
     downloads := downloads b; transferFaults := transferFaults b; uploadBytes := uploadBytes b; downloadBytes := downloadBytes b |}.
Definition upd_versions (f : Z → Z) (b : Backend) : Backend :=
  {| records := records b; snapshots := snapshots b; versions := f (versions b); cursors := cursors b;
     ids := ids b; dataPlaneURL := dataPlaneURL b; uploads := uploads b; uploadTokens := uploadTokens b;
     downloads := downloads b; transferFaults := transferFaults b; uploadBytes := uploadBytes b; downloadBytes := downloadBytes b |}.
Definition upd_cursors (f : Z → Z) (b : Backend) : Backend :=
  {| records := records b; snapshots := snapshots b; versions := versions b; cursors := f (cursors b);
     ids := ids b; dataPlaneURL := dataPlaneURL b; uploads := uploads b; uploadTokens := uploadTokens b;
     downloads := downloads b; transferFaults := transferFaults b; uploadBytes := uploadBytes b; downloadBytes := downloadBytes b |}.
Definition upd_ids (f : IDGenerator → IDGenerator) (b : Backend) : Backend :=
  {| records := records b; snapshots := snapshots b; versions := versions b; cursors := cursors b;
     ids := f (ids b); dataPlaneURL := dataPlaneURL b; uploads := uploads b; uploadTokens := uploadTokens b;
     downloads := downloads b; transferFaults := transferFaults b; uploadBytes := uploadBytes b; downloadBytes := downloadBytes b |}.
Definition upd_dataPlaneURL (f : gostring → gostring) (b : Backend) : Backend :=
  {| records := records b; snapshots := snapshots b; versions := versions b; cursors := cursors b;
     ids := ids b; dataPlaneURL := f (dataPlaneURL b); uploads := uploads b; uploadTokens := uploadTokens b;
     downloads := downloads b; transferFaults := transferFaults b; uploadBytes := uploadBytes b; downloadBytes := downloadBytes b |}.
Definition upd_uploads (f : gmap gostring uploadSession → gmap gostring uploadSession) (b : Backend) : Backend :=
  {| records := records b; snapshots := snapshots b; versions := versions b; cursors := cursors b;
     ids := ids b; dataPlaneURL := dataPlaneURL b; uploads := f (uploads b); uploadTokens := uploadTokens b;
     downloads := downloads b; transferFaults := transferFaults b; uploadBytes := uploadBytes b; downloadBytes := downloadBytes b |}.
Definition upd_uploadTokens (f : gmap gostring gostring → gmap gostring gostring) (b : Backend) : Backend :=
  {| records := records b; snapshots := snapshots b; versions := versions b; cursors := cursors b;
     ids := ids b; dataPlaneURL := dataPlaneURL b; uploads := uploads b; uploadTokens := f (uploadTokens b);
     downloads := downloads b; transferFaults := transferFaults b; uploadBytes := uploadBytes b; downloadBytes := downloadBytes b |}.
Definition upd_downloads (f : gmap gostring downloadSession → gmap gostring downloadSession) (b : Backend) : Backend :=
  {| records := records b; snapshots := snapshots b; versions := versions b; cursors := cursors b;
     ids := ids b; dataPlaneURL := dataPlaneURL b; uploads := uploads b; uploadTokens := uploadTokens b;
     downloads := f (downloads b); transferFaults := transferFaults b; uploadBytes := uploadBytes b; downloadBytes := downloadBytes b |}.
Definition upd_transferFaults (f : gmap gostring (list gostring) → gmap gostring (list gostring)) (b : Backend) : Backend :=
  {| records := records b; snapshots := snapshots b; versions := versions b; cursors := cursors b;
     ids := ids b; dataPlaneURL := dataPlaneURL b; uploads := uploads b; uploadTokens := uploadTokens b;
     downloads := downloads b; transferFaults := f (transferFaults b); uploadBytes := uploadBytes b; downloadBytes := downloadBytes b |}.
Definition upd_uploadBytes (f : Z → Z) (b : Backend) : Backend :=
  {| records := records b; snapshots := snapshots b; versions := versions b; cursors := cursors b;
     ids := ids b; dataPlaneURL := dataPlaneURL b; uploads := uploads b; uploadTokens := uploadTokens b;
     downloads := downloads b; transferFaults := transferFaults b; uploadBytes := f (uploadBytes b); downloadBytes := downloadBytes b |}.
Definition upd_downloadBytes (f : Z → Z) (b : Backend) : Backend :=
  {| records := records b; snapshots := snapshots b; versions := versions b; cursors := cursors b;
     ids := ids b; dataPlaneURL := dataPlaneURL b; uploads := uploads b; uploadTokens := uploadTokens b;
     downloads := downloads b; transferFaults := transferFaults b; uploadBytes := uploadBytes b; downloadBytes := f (downloadBytes b) |}.

Definition New (ids : IDGenerator) : Backend :=
  {| records := ∅; snapshots := ∅; versions := 0; cursors := 0; ids := ids; dataPlaneURL := [];
     uploads := ∅; uploadTokens := ∅; downloads := ∅; transferFaults := ∅;
     uploadBytes := 0; downloadBytes := 0 |}.

Abbreviation BackendM := (GoM Backend error).

(** [b.versions++; VersionString("m", b.versions)] *)
Definition nextVersion {E} : GoM Backend E NativeVersion := λ b,
  let b := upd_versions (λ v, u64 (v + 1)) b in
  (Ok (VersionString "m" (versions b)), b).

Definition info_of (key : Key) (r : record) : ObjectInfo :=
  {| Info_Key := key; Info_Version := version r; Info_Size := size r; Info_Fingerprint := fingerprint r |}.

Section Backend.
Context `{SHA256} `{MD5Sum} `{MIME} `{LoopbackURL}.

(** ** memory.go *)

Definition Head (ctx : context) (key : Key) : BackendM ObjectInfo :=
  _ ← lift (ContextError ctx);
  _ ← throw_if (negb (Key_Valid key)) (NewError ErrorInvalid "invalid object key");
  recs ← gets records;
  match recs !! key_value key with
  | None => throw (NewError ErrorNotFound "object not found")
  | Some record => mret (info_of key record)
  end.

Definition Verify (ctx : context) (key : Key) (expected : ExpectedIntegrity) : BackendM ObjectInfo :=
  _ ← lift (ContextError ctx);
  _ ← throw_if (negb (Key_Valid key)) (NewError ErrorInvalid "invalid object key");
  _ ← lift (Expected_Validate expected);
  recs ← gets records;
  match recs !! key_value key with
  | None => throw (NewError ErrorNotFound "object not found")
  | Some record =>
      _ ← throw_if (negb (materialized record))
            (NewError ErrorUnavailable "object integrity is not materialized");
      let actual := IntegrityFor (body record) in
      _ ← throw_if (negb (size record =? Expected_Size expected)
                    || bool_decide (Expected_Checksum actual ≠ Expected_Checksum expected))
            (NewError ErrorPreconditionFailed "object integrity does not match");
      mret (info_of key record)
  end.

Definition Open (ctx : context) (key : Key) : BackendM ObjectReader :=
  _ ← lift (ContextError ctx);
  _ ← throw_if (negb (Key_Valid key)) (NewError ErrorInvalid "invalid object key");
  recs ← gets records;
  match recs !! key_value key with
  | None => throw (NewError ErrorNotFound "object not found")
  | Some record =>
      _ ← throw_if (negb (materialized record) && (len (body record) <? size record))
            (NewError ErrorUnavailable "logical object body is not materialized");
      mret {| Reader_Key := key; Reader_Body := body record; Reader_Version := version record;
              Reader_Size := size record |}
  end.

(** Reading and closing an in-memory reader cannot fail. *)
Definition Get (ctx : context) (key : Key) : BackendM Object :=
  reader ← Open ctx key;
  mret {| Object_Key := key; Object_Body := Reader_Body reader; Object_Version := Reader_Version reader;
          Object_Size := Reader_Size reader |}.

Definition page (cursor : gostring) (value : snapshot) : BackendM ListPage := λ b,
  let end_ := Z.min (snapshot_index value + snapshot_limit value) (len (snapshot_objects value)) in
  let objects := take (Z.to_nat (end_ - snapshot_index value))
                   (drop (Z.to_nat (snapshot_index value)) (snapshot_objects value)) in
  let value := {| snapshot_prefix := snapshot_prefix value; snapshot_limit := snapshot_limit value;
                  snapshot_objects := snapshot_objects value; snapshot_index := end_ |} in
  if end_ =? len (snapshot_objects value) then
    (Ok {| Page_Objects := objects; Page_NextCursor := [] |}, upd_snapshots (delete cursor) b)
  else
    (Ok {| Page_Objects := objects; Page_NextCursor := cursor |}, upd_snapshots (insert cursor value) b).

Definition matching_keys (recs : gmap gostring record) (request : ListRequest) : list gostring :=
  sort_Strings (filter (λ k, HasPrefix k (List_Prefix request) = true ∧ bytes_lt (List_After request) k)
                  (map fst (map_to_list recs))).

Fixpoint object_infos (recs : gmap gostring record) (keys : list gostring) : res (list ObjectInfo) :=
  match keys with
  | [] => Ok []
  | value :: keys =>
      match recs !! value with
      | None => Err panic
      | Some record =>
          key ← MustKey value;
          infos ← object_infos recs keys;
          Ok (info_of key record :: infos)
      end
  end.

Definition List (ctx : context) (request : ListRequest) : BackendM ListPage :=
  _ ← lift (ContextError ctx);
  _ ← lift (ListRequest_Validate request);
  let limit := if List_Limit request =? 0 then 1000 else List_Limit request in
  _ ← throw_if ((limit <? 1) || (1000 <? limit)) (NewError ErrorInvalid "invalid object list limit");
  if bool_decide (List_Cursor request ≠ []) then
    snaps ← gets snapshots;
    match snaps !! List_Cursor request with
    | None => throw (NewError ErrorInvalid "invalid object list cursor")
    | Some value =>
        if negb (bool_decide (snapshot_prefix value = List_Prefix request)) || negb (snapshot_limit value =? limit)
        then throw (NewError ErrorInvalid "invalid object list cursor")
        else page (List_Cursor request) value
    end
  else
    recs ← gets records;
    objects ← lift (object_infos recs (matching_keys recs request));
    if len objects <=? limit then mret {| Page_Objects := objects; Page_NextCursor := [] |}
    else
      _ ← modify (upd_cursors (λ c, u64 (c + 1)));
      count ← gets cursors;
      let cursor := VersionString "c" count in
      let value := {| snapshot_prefix := List_Prefix request; snapshot_limit := limit;
                      snapshot_objects := objects; snapshot_index := 0 |} in
      _ ← modify (upd_snapshots (insert cursor value));
      page cursor value.

(** The switch on the put condition; [noun] names the object in its errors. *)
Definition check_put (noun stale : gostring) (condition : PutCondition) (current : option record) : res unit :=
  if Put_Mode condition =? PutCreateOnly then
    match current with
    | Some _ => Err (NewError ErrorConflict (noun ++ " already exists"))
    | None => Ok tt
    end
  else if Put_Mode condition =? PutMatch then
    match current with
    | None => Err (NewError ErrorNotFound (noun ++ " not found"))
    | Some record =>
        guard_err (bool_decide (version record ≠ Put_Version condition)) (NewError ErrorPreconditionFailed stale)
    end
  else Ok tt.

Definition Put (ctx : context) (key : Key) (data : gostring) (condition : PutCondition) : BackendM NativeVersion :=
  _ ← lift (ContextError ctx);
  _ ← throw_if (negb (Key_Valid key)) (NewError ErrorInvalid "invalid object key");
  _ ← lift (PutCondition_Validate condition);
  recs ← gets records;
  _ ← lift (check_put "object" "stale object version" condition (recs !! key_value key));
  version ← nextVersion;
  _ ← modify (upd_records (insert (key_value key)
        {| body := data; version := version; size := len data; materialized := true;
           fingerprint := FingerprintFor data |}));
  mret version.

Definition Delete (ctx : context) (key : Key) (condition : DeleteCondition) : BackendM unit :=
  _ ← lift (ContextError ctx);
  _ ← throw_if (negb (Key_Valid key) || bool_decide (Delete_Version condition = []))
        (NewError ErrorInvalid "invalid object delete");
  recs ← gets records;
  match recs !! key_value key with
  | None => throw (NewError ErrorNotFound "object not found")
  | Some current =>
      _ ← throw_if (bool_decide (version current ≠ Delete_Version condition))
            (NewError ErrorPreconditionFailed "stale object version");
      modify (upd_records (delete (key_value key)))
  end.

Definition Copy (ctx : context) (source destination : Key) (condition : CopyCondition) : BackendM CopyResult :=
  _ ← lift (ContextError ctx);
  _ ← throw_if (negb (Key_Valid source) || negb (Key_Valid destination)
                || bool_decide (Copy_SourceVersion condition = []))
        (NewError ErrorInvalid "invalid object copy");
  _ ← lift (PutCondition_Validate (Copy_Destination condition));
  recs ← gets records;
  match recs !! key_value source with
  | None => throw (NewError ErrorNotFound "source object not found")
  | Some sourceRecord =>
      _ ← throw_if (bool_decide (version sourceRecord ≠ Copy_SourceVersion condition))
            (NewError ErrorPreconditionFailed "stale source object version");
      _ ← lift (check_put "destination object" "stale destination object version"
                  (Copy_Destination condition) (recs !! key_value destination));
      version ← nextVersion;
      _ ← modify (upd_records (insert (key_value destination)
            {| body := body sourceRecord; version := version; size := size sourceRecord;
               materialized := materialized sourceRecord; fingerprint := fingerprint sourceRecord |}));
      mret {| Copy_Version := version; Copy_Size := size sourceRecord |}
  end.

Definition Export (b : Backend) : gmap gostring gostring := body <$> records b.

(** Go ranges over the map in an unspecified order: [objects] is any listing of it. *)
Definition Import (objects : list (gostring * gostring)) : BackendM unit :=
  forM_ objects (λ '(key, data),
    parsed ← lift (ParseKey key);
    _ ← Put None parsed data {| Put_Mode := PutCreateOnly; Put_Version := [] |};
    mret tt).

(** ** transfer.go: sessions *)

Definition TransferUploadData : gostring := "upload_data".
Definition TransferDownloadData : gostring := "download_data".
Definition TransferFaultInterrupted : gostring := "interrupted_upload".
Definition TransferFaultNoFingerprint : gostring := "missing_provider_fingerprint".

(** [strings.TrimRight(s, "/")] *)
Fixpoint trim_slashes (reversed : gostring) : gostring :=
  match reversed with
  | c :: rest => if bool_decide (c = slash) then trim_slashes rest else reversed
  | [] => []
  end.

(** The clock and the generator are never nil here. *)
Definition ConfigureDataPlane (baseURL : gostring) (newIDs : IDGenerator) : BackendM unit :=
  _ ← throw_if (negb (loopback_url baseURL))
        (NewError ErrorInvalid "memory data plane requires a loopback URL, clock, and IDs");
  _ ← modify (upd_dataPlaneURL (λ _, reverse (trim_slashes (reverse baseURL))));
  modify (upd_ids (λ _, newIDs)).

Definition InjectTransferFault (operation fault : gostring) (b : Backend) : Backend :=
  upd_transferFaults (λ m, <[operation := default [] (m !! operation) ++ [fault]]> m) b.

Definition TransferByteCounts (b : Backend) : Z * Z := (uploadBytes b, downloadBytes b).

Definition BackendKind : gostring := "memory".

(** Draws a bearer token from the backend's generator. *)
Definition draw_token : BackendM gostring := λ b,
  let '(r, g) := BearerToken (ids b) in (r, upd_ids (λ _, g) b).

(** The maps and rules are copied, which is the identity on values. *)
Definition copyUploadCapability (capability : UploadCapability) : UploadCapability := capability.

Definition handle_of (capability : UploadCapability) (uploadID : gostring) : UploadHandle :=
  {| Handle_Capability := capability; Handle_Lease := uploadID |}.

Definition BeginUpload (ctx : context) (now : Z) (request : UploadRequest) : BackendM UploadHandle :=
  _ ← lift (ContextError ctx);
  _ ← throw_if (bool_decide (Upload_UploadID request = []) || negb (Key_Valid (Upload_Key request))
                || (Upload_Size request <? 0) || bool_decide (Upload_MediaType request = [])
                || negb (now <? Upload_ExpiresAt request))
        (NewError ErrorInvalid "invalid direct upload request");
  url ← gets dataPlaneURL;
  _ ← throw_if (bool_decide (url = [])) (NewError ErrorUnavailable "memory data plane is not configured");
  ups ← gets uploads;
  match ups !! Upload_UploadID request with
  | Some existing =>
      _ ← throw_if (bool_decide (session_key existing ≠ Upload_Key request)
                    || negb (session_size existing =? Upload_Size request)
                    || bool_decide (session_mediaType existing ≠ Upload_MediaType request)
                    || negb (session_expiresAt existing =? Upload_ExpiresAt request)
                    || session_aborted existing)
            (NewError ErrorConflict "upload already exists");
      mret (handle_of (copyUploadCapability (session_capability existing)) (Upload_UploadID request))
  | None =>
      token ← draw_token;
      let resumable := Upload_Resumable request in
      let protocol := if resumable then UploadResumable else UploadSingle in
      let method := bs (if resumable then "PATCH" else "PUT") in
      let framing := if resumable then UploadFramingOffsetHeader else UploadFramingWholeObject in
      let chunkRules := if resumable
        then Some {| Rules_MinimumSize := 1; Rules_MaximumSize := Z.shiftl 8 20; Rules_Multiple := 1 |}
        else None in
      let hash := sha256 token in
      let headers0 : gmap gostring gostring := {[ bs "Content-Type" := Upload_MediaType request ]} in
      let headers := if resumable then <[bs "Upload-Offset" := bs "0"]> headers0 else headers0 in
      let capability := {|
        Cap_Protocol := protocol; Cap_URL := url ++ "/cap/upload/" ++ token; Cap_Method := method;
        Cap_Headers := headers; Cap_ExpiresAt := Upload_ExpiresAt request; Cap_ChunkRules := chunkRules;
        Cap_Framing := framing; Cap_DeclaredSize := Upload_Size request |} in
      let session := {|
        session_id := Upload_UploadID request; session_key := Upload_Key request;
        session_size := Upload_Size request; session_mediaType := Upload_MediaType request;
        session_protocol := protocol; session_expiresAt := Upload_ExpiresAt request;
        session_offset := 0; session_body := []; session_materialized := true;
        session_md5 := []; session_crc32c := []; session_fingerprint := no_fingerprint;
        session_tokenHash := hash; session_aborted := false; session_version := [];
        session_capability := copyUploadCapability capability |} in
      _ ← modify (upd_uploads (insert (Upload_UploadID request) session));
      _ ← modify (upd_uploadTokens (insert hash (Upload_UploadID request)));
      mret (handle_of capability (Upload_UploadID request))
  end.

Definition ResumeUpload (ctx : context) (now : Z) (lease : gostring) : BackendM UploadCapability :=
  _ ← lift (ContextError ctx);
  ups ← gets uploads;
  match ups !! lease with
  | None => throw (NewError ErrorNotFound "upload not found")
  | Some session =>
      _ ← throw_if (session_aborted session || negb (now <? session_expiresAt session))
            (NewError ErrorNotFound "upload not found");
      mret (copyUploadCapability (session_capability session))
  end.

Definition consumeTransferFault {E} (operation fault : gostring) : GoM Backend E bool := λ b,
  match transferFaults b !! operation with
  | Some (f :: rest) =>
      if bool_decide (f = fault) then (Ok true, upd_transferFaults (insert operation rest) b)
      else (Ok false, b)
  | _ => (Ok false, b)
  end.

Definition sessionFingerprint (session : uploadSession) : ContentFingerprint :=
  if negb (session_offset session =? session_size session) then no_fingerprint
  else if Fingerprint_Complete (session_fingerprint session) then session_fingerprint session
  else if negb (session_materialized session) then no_fingerprint
  else {| Fingerprint_MD5 := Integrity.EncodeMD5 (md5 (session_md5 session));
          Fingerprint_CRC32C := Integrity.EncodeCRC32C (crc32c_Checksum (session_crc32c session)) |}.

Definition UploadProgress (ctx : context) (lease : gostring) : BackendM UploadProgress_ :=
  _ ← lift (ContextError ctx);
  ups ← gets uploads;
  match ups !! lease with
  | None => throw (NewError ErrorNotFound "upload not found")
  | Some session =>
      _ ← throw_if (session_aborted session) (NewError ErrorNotFound "upload not found");
      faulty ← consumeTransferFault TransferUploadData TransferFaultNoFingerprint;
      mret {| Progress_Offset := session_offset session; Progress_Size := session_size session;
              Progress_ExpiresAt := session_expiresAt session;
              Progress_Complete := (session_offset session =? session_size session)
                                   && bool_decide (session_version session ≠ []);
              Progress_Version := session_version session;
              Progress_Fingerprint := if faulty : bool then no_fingerprint else sessionFingerprint session;
              Progress_Materialized := session_materialized session |}
  end.

Definition AbortUpload (ctx : context) (lease : gostring) : BackendM unit :=
  _ ← lift (ContextError ctx);
  ups ← gets uploads;
  match ups !! lease with
  | None => throw (NewError ErrorNotFound "upload not found")
  | Some session =>
      _ ← modify (upd_uploadTokens (delete (session_tokenHash session)));
      modify (upd_uploads (delete lease))
  end.

Definition CreateDownload (ctx : context) (now : Z) (request : DownloadRequest) : BackendM DownloadCapability :=
  _ ← lift (ContextError ctx);
  _ ← throw_if (negb (Key_Valid (Download_Key request))
                || Bool.eqb (Download_Immutable request) (bool_decide (Download_Version request ≠ []))
                || bool_decide (Download_Filename request = []) || bool_decide (Download_MediaType request = [])
                || negb (now <? Download_ExpiresAt request)
                || (bool_decide (Download_Disposition request ≠ DispositionAttachment)
                    && bool_decide (Download_Disposition request ≠ DispositionInline)))
        (NewError ErrorInvalid "invalid direct download request");
  recs ← gets records;
  match recs !! key_value (Download_Key request) with
  | None => throw (NewError ErrorNotFound "download object not found")
  | Some record =>
      _ ← throw_if (negb (Download_Immutable request)
                    && bool_decide (version record ≠ Download_Version request))
            (NewError ErrorPreconditionFailed "download object version does not match");
      let version := if Download_Immutable request then version record else Download_Version request in
      url ← gets dataPlaneURL;
      _ ← throw_if (bool_decide (url = [])) (NewError ErrorUnavailable "memory data plane is not configured");
      token ← draw_token;
      let hash := sha256 token in
      _ ← modify (upd_downloads (insert hash
            {| download_key := Download_Key request; download_version := version;
               download_filename := Download_Filename request; download_mediaType := Download_MediaType request;
               download_disposition := Download_Disposition request;
               download_expiresAt := Download_ExpiresAt request |}));
      mret {| DownloadCap_URL := url ++ "/cap/download/" ++ token; DownloadCap_Method := "GET";
              DownloadCap_Headers := ∅; DownloadCap_ExpiresAt := Download_ExpiresAt request |}
  end.

Definition UploadOffset (ctx : context) (uploadID : gostring) : BackendM Z :=
  progress ← UploadProgress ctx uploadID;
  mret (Progress_Offset progress).

(** [session.version = v] *)
Definition with_version (s : uploadSession) (v : NativeVersion) : uploadSession :=
  {| session_id := session_id s; session_key := session_key s; session_size := session_size s;
     session_mediaType := session_mediaType s; session_protocol := session_protocol s; session_expiresAt :=
     session_expiresAt s; session_offset := session_offset s; session_body := session_body s;
     session_materialized := session_materialized s; session_md5 := session_md5 s; session_crc32c :=
     session_crc32c s; session_fingerprint := session_fingerprint s; session_tokenHash := session_tokenHash s;
     session_aborted := session_aborted s; session_version := v; session_capability := session_capability s |}.

(** Stores the object of a session that reached its size. *)
Definition finish_session {E} (stored : gostring) (s : uploadSession) : GoM Backend E uploadSession :=
  version ← nextVersion;
  let s := with_version s version in
  _ ← modify (upd_records (insert (key_value (session_key s))
        {| body := stored; version := version; size := session_size s;
           materialized := session_materialized s; fingerprint := sessionFingerprint s |}));
  mret s.

Definition simulated_body : gostring := "memory-provider-attested-unmaterialized-object".

(** The session's fields after a simulated transfer up to [offset]. *)
Definition simulate_session (s : uploadSession) (offset : Z) : uploadSession :=
  {| session_id := session_id s; session_key := session_key s; session_size := session_size s;
     session_mediaType := session_mediaType s; session_protocol := session_protocol s; session_expiresAt :=
     session_expiresAt s; session_offset := offset; session_body := []; session_materialized := false;
     session_md5 := session_md5 s; session_crc32c := session_crc32c s; session_fingerprint := if offset =?
     session_size s then FingerprintFor simulated_body else session_fingerprint s; session_tokenHash :=
     session_tokenHash s; session_aborted := session_aborted s; session_version := session_version s;
     session_capability := session_capability s |}.

Definition SimulateUploadOffset (ctx : context) (uploadID : gostring) (offset : Z) : BackendM unit :=
  _ ← lift (ContextError ctx);
  ups ← gets uploads;
  let invalid := NewError ErrorInvalid "invalid simulated upload offset" in
  match ups !! uploadID with
  | None => throw invalid
  | Some s =>
      _ ← throw_if (bool_decide (session_protocol s ≠ UploadResumable) || (offset <? session_offset s)
                    || (session_size s <? offset)) invalid;
      let s := simulate_session s offset in
      s ← (if offset =? session_size s then finish_session [] s else mret s);
      modify (upd_uploads (insert uploadID s))
  end.

(** ** transfer.go: the data plane *)

Record Request := {
  Request_Method : gostring;
  Request_Path : gostring;
  Request_ContentType : gostring;
  Request_UploadOffset : gostring;
  Request_Range : gostring;
  Request_Body : gostring;
  Request_BodyError : bool;  (** reading past [Request_Body] fails *)
}.

Record Response := { Status : Z; Headers : gmap gostring gostring; Response_Body : gostring }.

Definition reply (status : Z) (headers : gmap gostring gostring) (text : gostring) : Response :=
  {| Status := status; Headers := headers; Response_Body := text |}.
Definition NotFound : Response := reply 404 ∅ "404 page not found".

Abbreviation ServeM := (GoM Backend Response).

(** [io.ReadAll(io.LimitReader(body, n))]: the bytes read, and whether it failed. *)
Definition read_limited (request : Request) (n : Z) : gostring * bool :=
  let n := Z.to_nat n in
  (take n (Request_Body request), Request_BodyError request && (length (Request_Body request) <? n)%nat).

Definition chunk_limit : Z := Z.shiftl 8 20.
Definition materialized_limit : Z := Z.shiftl 16 20.

(** The session after [acceptedBody] was appended. *)
Definition accept_body (s : uploadSession) (acceptedBody : gostring) : uploadSession :=
  let keep := session_materialized s && (i64 (session_offset s + len acceptedBody) <=? materialized_limit) in
  {| session_id := session_id s; session_key := session_key s; session_size := session_size s;
     session_mediaType := session_mediaType s; session_protocol := session_protocol s; session_expiresAt :=
     session_expiresAt s; session_offset := i64 (session_offset s + len acceptedBody); session_body := if keep
     then session_body s ++ acceptedBody else []; session_materialized := keep; session_md5 := session_md5 s ++
     acceptedBody; session_crc32c := session_crc32c s ++ acceptedBody; session_fingerprint := session_fingerprint
     s; session_tokenHash := session_tokenHash s; session_aborted := session_aborted s; session_version :=
     session_version s; session_capability := session_capability s |}.

(** The checks of [serveUpload], up to the body it may accept. *)
Definition upload_admit (now : Z) (request : Request) (token : gostring) :
    ServeM (gostring * uploadSession * gostring) :=
  let hash := sha256 token in
  tokens ← gets uploadTokens;
  ups ← gets uploads;
  match tokens !! hash ≫= λ uploadID, pair uploadID <$> ups !! uploadID with
  | None => throw NotFound
  | Some (uploadID, s) =>
      _ ← throw_if (session_aborted s) NotFound;
      let resumable := bool_decide (session_protocol s = UploadResumable) in
      let expectedMethod := bs (if resumable then "PATCH" else "PUT") in
      _ ← throw_if (bool_decide (Request_Method request ≠ expectedMethod))
            (reply 405 {[ bs "Allow" := expectedMethod ]} "method not allowed");
      _ ← throw_if (negb (now <? session_expiresAt s)) (reply 410 ∅ "capability unavailable");
      _ ← throw_if (match NormalizeMediaType (Request_ContentType request) with
                    | Err _ => true
                    | Ok mediaType => bool_decide (mediaType ≠ session_mediaType s)
                    end)
            (reply 412 ∅ "upload constraint mismatch");
      _ ← throw_if (resumable && match ParseInt (Request_UploadOffset request) with
                                 | None => true
                                 | Some offset => negb (offset =? session_offset s)
                                 end)
            (reply 409 {[ bs "Upload-Offset" := Itoa (session_offset s) ]} "upload offset mismatch");
      let limit0 := i64 (session_size s - session_offset s) in
      let limit := if resumable then Z.min limit0 chunk_limit else limit0 in
      let '(received, failed) := read_limited request (i64 (limit + 1)) in
      _ ← modify (upd_uploadBytes (λ n, i64 (n + len received)));
      _ ← throw_if (failed || (limit <? len received)) (reply 413 ∅ "upload body is invalid");
      _ ← throw_if (bool_decide (session_protocol s = UploadSingle) && negb (len received =? session_size s))
            (reply 412 ∅ "single upload size mismatch");
      mret (uploadID, s, received)
  end.

(** The rest of [serveUpload]: accepting what was received. *)
Definition upload_commit (uploadID : gostring) (s : uploadSession) (received : gostring) : ServeM Response :=
  interrupted ← consumeTransferFault TransferUploadData TransferFaultInterrupted;
  let accepted := if (interrupted : bool) && (0 <? len received)
                  then Z.max 1 (len received / 2) else len received in
  let s := accept_body s (take (Z.to_nat accepted) received) in
  let headers := {[ bs "Upload-Offset" := Itoa (session_offset s) ]} in
  s ← (if session_offset s =? session_size s then finish_session (session_body s) s else mret s);
  _ ← modify (upd_uploads (insert uploadID s));
  _ ← throw_if (negb (accepted =? len received)) (reply 503 headers "upload interrupted");
  mret (reply 204 headers []).

Definition serveUpload (now : Z) (request : Request) (token : gostring) : ServeM Response :=
  '(uploadID, s, received) ← upload_admit now request token;
  upload_commit uploadID s received.

Definition ErrRange : error := SentinelError ErrInvalid.

Definition parseRange (header : gostring) (size : Z) : res (Z * Z * bool) :=
  if size =? 0 then
    if bool_decide (header = []) then Ok (0, -1, false) else Err ErrRange
  else if bool_decide (header = []) then Ok (0, size - 1, false)
  else if negb (HasPrefix header "bytes=") || ContainsByte header ","%char then Err ErrRange
  else match split_on "-"%char (TrimPrefix header "bytes=") with
       | [first; last_] =>
           _ ← guard_err (bool_decide (first = [])) ErrRange;
           match ParseInt first with
           | None => Err ErrRange
           | Some start =>
               _ ← guard_err ((start <? 0) || (size <=? start)) ErrRange;
               if bool_decide (last_ = []) then Ok (start, size - 1, true)
               else match ParseInt last_ with
                    | None => Err ErrRange
                    | Some end_ =>
                        _ ← guard_err (end_ <? start) ErrRange;
                        Ok (start, Z.min end_ (size - 1), true)
                    end
           end
       | _ => Err ErrRange
       end.

(** [fmt]'s [%q] of the file name, a parameter of the response only. *)
Variable quote : gostring → gostring.

(** [body[start : end]] panics outside the bounds of the slice. *)
Definition slice (data : gostring) (start end_ : Z) : option gostring :=
  if (0 <=? start) && (start <=? end_) && (end_ <=? len data)
  then Some (take (Z.to_nat (end_ - start)) (drop (Z.to_nat start) data))
  else None.

Definition panic_response : Response := reply 500 ∅ "panic".

Definition serveDownload (now : Z) (request : Request) (token : gostring) : ServeM Response :=
  let hash := sha256 token in
  sessions ← gets downloads;
  match sessions !! hash with
  | None => throw NotFound
  | Some session =>
      _ ← throw_if (bool_decide (Request_Method request ≠ "GET"))
            (reply 405 {[ bs "Allow" := bs "GET" ]} "method not allowed");
      _ ← throw_if (negb (now <? download_expiresAt session)) (reply 410 ∅ "capability unavailable");
      recs ← gets records;
      match recs !! key_value (download_key session) with
      | None => throw NotFound
      | Some record =>
          _ ← throw_if (bool_decide (version record ≠ download_version session)) NotFound;
          match parseRange (Request_Range request) (size record) with
          | Err _ => throw (reply 416 {[ bs "Content-Range" := "bytes */" ++ Itoa (size record) ]} [])
          | Ok (start, end_, partial) =>
              let length := i64 (end_ - start + 1) in
              let headers0 : gmap gostring gostring := list_to_map [
                (bs "Accept-Ranges", bs "bytes");
                (bs "Content-Type", download_mediaType session);
                (bs "Content-Disposition",
                   download_disposition session ++ "; filename=" ++ quote (download_filename session));
                (bs "Content-Length", Itoa length)] in
              let headers := if partial : bool
                then <[bs "Content-Range" := "bytes " ++ Itoa start ++ "-" ++ Itoa end_ ++ "/" ++ Itoa (size record)]> headers0
                else headers0 in
              match (if materialized record then slice (body record) start (end_ + 1)
                     else Some (replicate (Z.to_nat length) nul)) with
              | None => throw panic_response
              | Some data =>
                  _ ← modify (upd_downloadBytes (λ n, i64 (n + length)));
                  mret (reply (if partial then 206 else 200) headers data)
              end
          end
      end
  end.

Definition security_headers : gmap gostring gostring := list_to_map [
  (bs "Cache-Control", bs "no-store");
  (bs "Referrer-Policy", bs "no-referrer");
  (bs "X-Content-Type-Options", bs "nosniff");
  (bs "Content-Security-Policy",
     bs "default-src 'none'; object-src 'none'; base-uri 'none'; frame-ancestors 'none'; sandbox")].

Definition respond (r : result Response Response) : Response :=
  let r := match r with Ok r => r | Err r => r end in
  {| Status := Status r; Headers := Headers r ∪ security_headers; Response_Body := Response_Body r |}.

Definition ServeHTTP (now : Z) (request : Request) (b : Backend) : Response * Backend :=
  let run (m : ServeM Response) := let '(r, b') := m b in (respond r, b') in
  match split_on slash (TrimPrefix (Request_Path request) "/") with
  | [root; kind; token] =>
      if bool_decide (root ≠ bs "cap") || bool_decide (token = []) then run (throw NotFound)
      else if bool_decide (kind = bs "upload") then run (serveUpload now request token)
      else if bool_decide (kind = bs "download") then run (serveDownload now request token)
      else run (throw NotFound)
  | _ => run (throw NotFound)
  end.
End Backend.
End MemoryBackend.
