(* ===== verification/FileTypes.v ===== *)
(** * The vocabulary of the drive: internal/domain/storage.go

    Entries, requests and results of the provider interface, with the small
    files of the package that add to them (directory_preparation.go,
    upload_actions.go, upload_admission.go, upload_lifecycle.go).  Times are
    nanoseconds; a JSON-only attribute of a field has no counterpart. *)

From Stdlib Require Import ZArith Lia.
From S2P Require Import Prelude GoLib Errors DomainPath DomainIDs ObjectStore.

Open Scope Z_scope.

Module FileTypes.

Abbreviation Version := gostring (only parsing).
Abbreviation UploadID := gostring (only parsing).
Abbreviation OperationID := gostring (only parsing).

(** [type EntryKind string] *)
Definition EntryFile : gostring := "file".
Definition EntryDirectory : gostring := "directory".

Record Entry := {
  Entry_Path : UserPath;
  Entry_Name : gostring;
  Entry_Kind : gostring;
  Entry_Size : Z;
  Entry_FileCount : Z;
  Entry_MediaType : gostring;
  Entry_ModifiedAt : Z;
  Entry_Version : Version;
  Entry_ContentID : gostring;
  Entry_ContentVersion : gostring;
  Entry_ContentModifiedAt : Z;
}.

(** [type ConflictMode string] *)
Definition ConflictFail : gostring := "fail".
Definition ConflictReplace : gostring := "replace".
Definition ConflictRename : gostring := "rename".

Definition ConflictMode_Valid (m : gostring) : bool :=
  bool_decide (m = ConflictFail) || bool_decide (m = ConflictReplace) || bool_decide (m = ConflictRename).

Definition NormalizeConflictMode (mode : gostring) : res gostring :=
  if bool_decide (mode = []) then Ok ConflictFail
  else _ ← guard_err (negb (ConflictMode_Valid mode)) (NewError ErrorInvalid "invalid conflict mode"); Ok mode.

(** [type SortField string] *)
Definition SortName : gostring := "name".
Definition SortModified : gostring := "modified".
Definition SortSize : gostring := "size".
Definition SortKind : gostring := "kind".

Record ListRequest := {
  List_Directory : UserPath;
  List_PageSize : Z;
  List_Cursor : gostring;
  List_Sort : gostring;
  List_Descending : bool;
}.

Record ListPage := { Page_Current : Entry; Page_Entries : list Entry; Page_NextCursor : gostring }.

Record ChildLookupRequest := { Lookup_Directory : UserPath; Lookup_Names : list gostring }.
Record ChildLookup := { Child_Current : Entry; Child_Entries : list Entry }.

Record CreateDirectoryRequest := {
  Create_Path : UserPath;
  Create_Conflict : gostring;
  Create_ExpectedVersion : Version;
}.

(** [MoveRequest] is the same type. *)
Record CopyRequest := {
  Copy_Source : UserPath;
  Copy_Destination : UserPath;
  Copy_Conflict : gostring;
  Copy_ExpectedSource : Version;
  Copy_ExpectedTarget : Version;
  Copy_IdempotencyKey : gostring;
}.

Record DeleteRequest := {
  Delete_Path : UserPath;
  Delete_ExpectedVersion : Version;
  Delete_IdempotencyKey : gostring;
}.

Record TrashRequest := {
  Trash_Path : UserPath;
  Trash_ExpectedVersion : Version;
  Trash_TrashID : gostring;
  Trash_IdempotencyKey : gostring;
}.

Record TrashEntry := {
  TrashEntry_TrashID : gostring;
  TrashEntry_OwnerUserID : UserID;
  TrashEntry_OriginalPath : UserPath;
  TrashEntry_TrashedPath : UserPath;
  TrashEntry_Entry : Entry;
  TrashEntry_TrashedAt : Z;
  TrashEntry_OriginalVersion : Version;
}.

Record TrashListRequest := { TrashList_Limit : Z; TrashList_Cursor : gostring }.
Record TrashListPage := { TrashPage_Items : list TrashEntry; TrashPage_NextCursor : gostring }.

(** [type OperationState string] *)
Definition OperationPending : gostring := "pending".
Definition OperationRunning : gostring := "running".
Definition OperationSucceeded : gostring := "succeeded".
Definition OperationFailed : gostring := "failed".

Record Operation := {
  Operation_ID : OperationID;
  Operation_State : gostring;
  Operation_ErrorKind : gostring;
  Operation_Error : gostring;
  Operation_StartedAt : Z;
  Operation_UpdatedAt : Z;
}.

Record NamespaceBatchItemResult := {
  Item_Source : UserPath;
  Item_Destination : UserPath;
  Item_TrashID : gostring;
  Item_OperationID : OperationID;
  Item_State : gostring;
}.

Record NamespaceBatchResult := { Batch_Operation : Operation; Batch_Items : list NamespaceBatchItemResult }.

(** ** Uploads *)

(** [type UploadState string] *)
Definition UploadStateActive : gostring := "active".
Definition UploadStateCompleted : gostring := "completed".
Definition UploadStateAborted : gostring := "aborted".
Definition UploadStateExpired : gostring := "expired".

Record UploadCapability := {
  UCap_UploadID : UploadID;
  UCap_Protocol : gostring;
  UCap_URL : gostring;
  UCap_Method : gostring;
  UCap_Headers : gmap gostring gostring;
  UCap_ExpiresAt : Z;
  UCap_ChunkRules : option ObjectStore.ChunkRules;
  UCap_Framing : gostring;
  UCap_DeclaredSize : Z;
  UCap_BatchID : gostring;
  UCap_BatchIndex : Z;
  UCap_BatchCount : Z;
}.

Record UploadStatus := {
  UStatus_UploadID : UploadID;
  UStatus_State : gostring;
  UStatus_Path : UserPath;
  UStatus_Protocol : gostring;
  UStatus_ConfirmedOffset : Z;
  UStatus_DataComplete : bool;
  UStatus_DeclaredSize : Z;
  UStatus_ExpiresAt : Z;
}.

Record CreateUploadRequest := {
  CUpload_Path : UserPath;
  CUpload_Size : Z;
  CUpload_MediaType : gostring;
  CUpload_Conflict : gostring;
  CUpload_ExpectedVersion : Version;
  CUpload_Resumable : bool;
  CUpload_IdempotencyKey : gostring;
}.

Record CompleteUploadRequest := {
  Complete_UploadID : UploadID;
  Complete_Path : UserPath;
  Complete_Size : Z;
  Complete_MediaType : gostring;
  Complete_CRC32C : gostring;
}.

Record CompleteUploadBatchItem := { CItem_UploadID : UploadID; CItem_CRC32C : gostring }.
Record CompleteUploadBatchRequest := {
  CBatch_Items : list CompleteUploadBatchItem;
  CBatch_IdempotencyKey : gostring;
}.

Record AbortUploadBatchRequest := {
  ABatch_UploadIDs : list UploadID;
  ABatch_BatchID : gostring;
  ABatch_IdempotencyKey : gostring;
}.

Record CreateDownloadRequest := {
  CDownload_Path : UserPath;
  CDownload_Version : Version;
  CDownload_Disposition : gostring;
}.

Record DownloadCapability := {
  DCap_URL : gostring;
  DCap_Method : gostring;
  DCap_Headers : gmap gostring gostring;
  DCap_ExpiresAt : Z;
}.

(** ** directory_preparation.go *)

Definition MaxDirectoryPreparationItems : Z := 100.

Fixpoint preparation_paths (seen : list UserPath) (paths : list UserPath) : res unit :=
  match paths with
  | [] => Ok tt
  | path :: paths =>
      _ ← guard_err (negb (Valid path) || IsRoot path || bool_decide (path ∈ seen))
            (NewError ErrorInvalid "invalid or duplicate directory preparation path");
      preparation_paths (path :: seen) paths
  end.

Definition ValidateDirectoryPreparationPaths (paths : list UserPath) : res unit :=
  _ ← guard_err ((len paths <? 1) || (MaxDirectoryPreparationItems <? len paths))
        (NewError ErrorInvalid "directory preparation must contain 1 to 100 paths");
  preparation_paths [] paths.

Record DirectoryPreparationResult := {
  Prep_Index : Z;
  Prep_Path : UserPath;
  Prep_Ready : bool;
  Prep_ErrorCode : gostring;
  Prep_Retryable : bool;
}.

(** ** upload_lifecycle.go, upload_actions.go, upload_admission.go *)

Definition MaxUploadLifecycleItems : Z := 100.

Record UploadLifecycleItem := {
  Life_Index : Z;
  Life_UploadID : UploadID;
  Life_Status : option UploadStatus;
  Life_Capability : option UploadCapability;
  Life_ErrorKind : gostring;
  Life_NextAction : gostring;
}.

Record UploadActionItem := { Action_UploadID : UploadID; Action_Action : gostring; Action_CRC32C : gostring }.

Record UploadActionResult := {
  ActionResult_Index : Z;
  ActionResult_UploadID : UploadID;
  ActionResult_Action : gostring;
  ActionResult_Outcome : gostring;
  ActionResult_Status : option UploadStatus;
  ActionResult_Entry : option Entry;
  ActionResult_ErrorKind : gostring;
  ActionResult_Retryable : bool;
  ActionResult_NextAction : gostring;
}.

Record UploadAdmissionResult := {
  Admission_Index : Z;
  Admission_ID : gostring;
  Admission_UploadID : UploadID;
  Admission_Outcome : gostring;
  Admission_Status : option UploadStatus;
  Admission_Capability : option UploadCapability;
  Admission_ErrorKind : gostring;
  Admission_Retryable : bool;
  Admission_NextAction : gostring;
}.
End FileTypes.
