(* ===== verification/DriveMemory.v ===== *)
(** * The reference provider of the drive: internal/provider/memory

    memory.go (state, listings, directories, recursive sizes) and operations.go
    (copy, move, delete, operation records).  The provider is one record behind a
    mutex; every exported method runs as one step.

    - The clock is read as [now], once per call.
    - [range] over a Go map visits it in an order the language leaves open: the
      class [MapOrder] is that order, any permutation of the map.
    - [scopeObjectsLocked] creates the missing map of a scope; a scope without a
      map and one with an empty map are the same here. *)

From Stdlib Require Import ZArith Lia.
From S2P Require Import Prelude GoLib GoHash Errors DomainPath DomainIDs ObjectStore ObjectMemory GoJSON GoTime FileTypes.

Open Scope Z_scope.

(** The order in which [for k, v := range m] visits a map. *)
Class MapOrder := range_map : ∀ {A}, gmap gostring A → list (gostring * A).
Class MapOrderLaws `{MapOrder} : Prop := range_map_all : ∀ {A} (m : gmap gostring A), range_map m ≡ₚ map_to_list m.

(** [utf8.RuneStart], and the width of [utf8.DecodeLastRuneInString]. *)
Definition RuneStart (c : ascii) : bool := negb (is_cont c).

Fixpoint back_to_start (n : nat) (k : nat) (reversed : gostring) : nat :=
  match n, reversed with
  | S n, c :: reversed => if RuneStart c then S k else back_to_start n (S k) reversed
  | O, _ :: _ => S k
  | _, [] => k
  end.

Definition last_rune_width (s : gostring) : nat :=
  match reverse s with
  | [] => 0
  | c :: reversed =>
      if byte_val c <? 0x80 then 1
      else let k := back_to_start 3 1 reversed in
           if (snd (decode_rune (drop (length s - k) s)) =? k)%nat then k else 1
  end.

(** [candidateBase[:len(candidateBase)-size]] *)
Definition drop_last_rune (s : gostring) : gostring := take (length s - last_rune_width s) s.

Module DriveMemory.
Import FileTypes.

Definition OperationList : gostring := "list".
Definition OperationLookupChildren : gostring := "lookup_children".
Definition OperationStat : gostring := "stat".
Definition OperationCreateDirectory : gostring := "create_directory".
Definition OperationCreateUpload : gostring := "create_upload".
Definition OperationCompleteUpload : gostring := "complete_upload".
Definition OperationCompleteUploads : gostring := "complete_upload_batch".
Definition OperationAbortUpload : gostring := "abort_upload".
Definition OperationAbortUploads : gostring := "abort_upload_batch".
Definition OperationCreateDownload : gostring := "create_download".
Definition OperationUploadData : gostring := "upload_data".
Definition OperationDownloadData : gostring := "download_data".
Definition OperationCopy : gostring := "copy".
Definition OperationMove : gostring := "move".
Definition OperationDelete : gostring := "delete".

(** [type Fault string] *)
Abbreviation Fault := gostring (only parsing).
Definition FaultExpired : Fault := "expired".
Definition FaultNotFound : Fault := "not_found".
Definition FaultConflict : Fault := "conflict".
Definition FaultPartialOperation : Fault := "partial_operation".
Definition FaultRateLimited : Fault := "rate_limited".
Definition FaultUnavailable : Fault := "unavailable".
Definition FaultChecksumMismatch : Fault := "checksum_mismatch".
Definition FaultInterruptedUpload : Fault := "interrupted_upload".
Definition FaultStaleVersion : Fault := "stale_version".

(** ** State *)

Record Options := {
  UploadTTL : Z;
  DownloadTTL : Z;
  MaxMaterializedBytes : Z;
  ChunkRules : ObjectStore.ChunkRules;
  AllowedOrigin : gostring;
}.

Record Instrumentation := {
  ProviderCalls : gmap gostring Z;
  ControlPlaneBytes : Z;
  UploadBytes : Z;
  DownloadBytes : Z;
}.

Record object := { obj_entry : Entry; obj_data : gostring; obj_materialized : bool }.

Record upload := {
  up_id : UploadID;
  up_scope : Scope;
  up_requestedPath : UserPath;
  up_path : UserPath;
  up_size : Z;
  up_mediaType : gostring;
  up_conflict : gostring;
  up_expectedVersion : Version;
  up_targetExisted : bool;
  up_protocol : gostring;
  up_expiresAt : Z;
  up_offset : Z;
  up_data : gostring;
  up_materialized : bool;
  up_dataReceived : bool;
  up_capability : UploadCapability;
  up_state : gostring;
  up_capabilityHash : gostring;
  up_batchID : gostring;
  up_batchIndex : Z;
  up_batchCount : Z;
  up_completedEntry : option Entry;
  up_completedCRC32C : gostring;
}.

Record download := {
  down_scope : Scope;
  down_path : UserPath;
  down_version : Version;
  down_disposition : gostring;
  down_expiresAt : Z;
}.

Record listSnapshot := {
  ls_scope : Scope;
  ls_directory : UserPath;
  ls_pageSize : Z;
  ls_sort : gostring;
  ls_descending : bool;
  ls_entries : list Entry;
  ls_current : Entry;
  ls_index : Z;
}.

Record trashListSnapshot := { ts_owner : UserID; ts_limit : Z; ts_items : list TrashEntry; ts_index : Z }.

Record idempotentResult := { ir_fingerprint : gostring; ir_operation : Operation }.
Record idempotentUpload := { iu_fingerprint : gostring; iu_capability : UploadCapability }.
Record idempotentUploadCompletionBatch := { ic_fingerprint : gostring; ic_result : list Entry }.
Record namespaceBatchResult := { nb_fingerprint : gostring; nb_result : NamespaceBatchResult }.
Record namespaceMutationResult := { nm_fingerprint : gostring; nm_operation : Operation }.

Record Provider := {
  options : Options;
  ids : IDGenerator;
  baseURL : gostring;
  objects : gmap Scope (gmap gostring object);
  uploads : gmap gostring upload;
  uploadTokens : gmap gostring gostring;
  downloads : gmap gostring download;
  listSnapshots : gmap gostring listSnapshot;
  trashSnapshots : gmap gostring trashListSnapshot;
  trashEntries : gmap gostring TrashEntry;
  namespaceBatches : gmap gostring namespaceBatchResult;
  namespaceMutations : gmap gostring namespaceMutationResult;
  operations : gmap gostring Operation;
  idempotency : gmap gostring idempotentResult;
  uploadIdempotency : gmap gostring idempotentUpload;
  uploadCompletions : gmap gostring idempotentUploadCompletionBatch;
  uploadAborts : gmap gostring gostring;
  faults : gmap gostring (list Fault);
  metrics : Instrumentation;
  versions : Z;
}.

(** [p.f = f(p.f)] for each field that is assigned to. *)
Definition upd_ids (f : IDGenerator → IDGenerator) (p : Provider) : Provider :=
  {| options := options p; ids := f (ids p); baseURL := baseURL p; objects := objects p; uploads := uploads p; uploadTokens
     := uploadTokens p; downloads := downloads p; listSnapshots := listSnapshots p; trashSnapshots := trashSnapshots p;
     trashEntries := trashEntries p; namespaceBatches := namespaceBatches p; namespaceMutations := namespaceMutations p;
     operations := operations p; idempotency := idempotency p; uploadIdempotency := uploadIdempotency p; uploadCompletions
     := uploadCompletions p; uploadAborts := uploadAborts p; faults := faults p; metrics := metrics p; versions := versions
     p |}.
Definition upd_baseURL (f : gostring → gostring) (p : Provider) : Provider :=
  {| options := options p; ids := ids p; baseURL := f (baseURL p); objects := objects p; uploads := uploads p; uploadTokens
     := uploadTokens p; downloads := downloads p; listSnapshots := listSnapshots p; trashSnapshots := trashSnapshots p;
     trashEntries := trashEntries p; namespaceBatches := namespaceBatches p; namespaceMutations := namespaceMutations p;
     operations := operations p; idempotency := idempotency p; uploadIdempotency := uploadIdempotency p; uploadCompletions
     := uploadCompletions p; uploadAborts := uploadAborts p; faults := faults p; metrics := metrics p; versions := versions
     p |}.
Definition upd_objects (f : gmap Scope (gmap gostring object) → gmap Scope (gmap gostring object)) (p : Provider) : Provider :=
  {| options := options p; ids := ids p; baseURL := baseURL p; objects := f (objects p); uploads := uploads p; uploadTokens
     := uploadTokens p; downloads := downloads p; listSnapshots := listSnapshots p; trashSnapshots := trashSnapshots p;
     trashEntries := trashEntries p; namespaceBatches := namespaceBatches p; namespaceMutations := namespaceMutations p;
     operations := operations p; idempotency := idempotency p; uploadIdempotency := uploadIdempotency p; uploadCompletions
     := uploadCompletions p; uploadAborts := uploadAborts p; faults := faults p; metrics := metrics p; versions := versions
     p |}.
Definition upd_uploads (f : gmap gostring upload → gmap gostring upload) (p : Provider) : Provider :=
  {| options := options p; ids := ids p; baseURL := baseURL p; objects := objects p; uploads := f (uploads p); uploadTokens
     := uploadTokens p; downloads := downloads p; listSnapshots := listSnapshots p; trashSnapshots := trashSnapshots p;
     trashEntries := trashEntries p; namespaceBatches := namespaceBatches p; namespaceMutations := namespaceMutations p;
     operations := operations p; idempotency := idempotency p; uploadIdempotency := uploadIdempotency p; uploadCompletions
     := uploadCompletions p; uploadAborts := uploadAborts p; faults := faults p; metrics := metrics p; versions := versions
     p |}.
Definition upd_uploadTokens (f : gmap gostring gostring → gmap gostring gostring) (p : Provider) : Provider :=
  {| options := options p; ids := ids p; baseURL := baseURL p; objects := objects p; uploads := uploads p; uploadTokens :=
     f (uploadTokens p); downloads := downloads p; listSnapshots := listSnapshots p; trashSnapshots := trashSnapshots p;
     trashEntries := trashEntries p; namespaceBatches := namespaceBatches p; namespaceMutations := namespaceMutations p;
     operations := operations p; idempotency := idempotency p; uploadIdempotency := uploadIdempotency p; uploadCompletions
     := uploadCompletions p; uploadAborts := uploadAborts p; faults := faults p; metrics := metrics p; versions := versions
     p |}.
Definition upd_downloads (f : gmap gostring download → gmap gostring download) (p : Provider) : Provider :=
  {| options := options p; ids := ids p; baseURL := baseURL p; objects := objects p; uploads := uploads p; uploadTokens :=
     uploadTokens p; downloads := f (downloads p); listSnapshots := listSnapshots p; trashSnapshots := trashSnapshots p;
     trashEntries := trashEntries p; namespaceBatches := namespaceBatches p; namespaceMutations := namespaceMutations p;
     operations := operations p; idempotency := idempotency p; uploadIdempotency := uploadIdempotency p; uploadCompletions
     := uploadCompletions p; uploadAborts := uploadAborts p; faults := faults p; metrics := metrics p; versions := versions
     p |}.
Definition upd_listSnapshots (f : gmap gostring listSnapshot → gmap gostring listSnapshot) (p : Provider) : Provider :=
  {| options := options p; ids := ids p; baseURL := baseURL p; objects := objects p; uploads := uploads p; uploadTokens :=
     uploadTokens p; downloads := downloads p; listSnapshots := f (listSnapshots p); trashSnapshots := trashSnapshots p;
     trashEntries := trashEntries p; namespaceBatches := namespaceBatches p; namespaceMutations := namespaceMutations p;
     operations := operations p; idempotency := idempotency p; uploadIdempotency := uploadIdempotency p; uploadCompletions
     := uploadCompletions p; uploadAborts := uploadAborts p; faults := faults p; metrics := metrics p; versions := versions
     p |}.
Definition upd_trashSnapshots (f : gmap gostring trashListSnapshot → gmap gostring trashListSnapshot) (p : Provider) : Provider :=
  {| options := options p; ids := ids p; baseURL := baseURL p; objects := objects p; uploads := uploads p; uploadTokens :=
     uploadTokens p; downloads := downloads p; listSnapshots := listSnapshots p; trashSnapshots := f (trashSnapshots p);
     trashEntries := trashEntries p; namespaceBatches := namespaceBatches p; namespaceMutations := namespaceMutations p;
     operations := operations p; idempotency := idempotency p; uploadIdempotency := uploadIdempotency p; uploadCompletions
     := uploadCompletions p; uploadAborts := uploadAborts p; faults := faults p; metrics := metrics p; versions := versions
     p |}.
Definition upd_trashEntries (f : gmap gostring TrashEntry → gmap gostring TrashEntry) (p : Provider) : Provider :=
  {| options := options p; ids := ids p; baseURL := baseURL p; objects := objects p; uploads := uploads p; uploadTokens :=
     uploadTokens p; downloads := downloads p; listSnapshots := listSnapshots p; trashSnapshots := trashSnapshots p;
     trashEntries := f (trashEntries p); namespaceBatches := namespaceBatches p; namespaceMutations := namespaceMutations
     p; operations := operations p; idempotency := idempotency p; uploadIdempotency := uploadIdempotency p;
     uploadCompletions := uploadCompletions p; uploadAborts := uploadAborts p; faults := faults p; metrics := metrics p;
     versions := versions p |}.
Definition upd_namespaceBatches (f : gmap gostring namespaceBatchResult → gmap gostring namespaceBatchResult) (p : Provider) : Provider :=
  {| options := options p; ids := ids p; baseURL := baseURL p; objects := objects p; uploads := uploads p; uploadTokens :=
     uploadTokens p; downloads := downloads p; listSnapshots := listSnapshots p; trashSnapshots := trashSnapshots p;
     trashEntries := trashEntries p; namespaceBatches := f (namespaceBatches p); namespaceMutations := namespaceMutations
     p; operations := operations p; idempotency := idempotency p; uploadIdempotency := uploadIdempotency p;
     uploadCompletions := uploadCompletions p; uploadAborts := uploadAborts p; faults := faults p; metrics := metrics p;
     versions := versions p |}.
Definition upd_namespaceMutations (f : gmap gostring namespaceMutationResult → gmap gostring namespaceMutationResult) (p : Provider) : Provider :=
  {| options := options p; ids := ids p; baseURL := baseURL p; objects := objects p; uploads := uploads p; uploadTokens :=
     uploadTokens p; downloads := downloads p; listSnapshots := listSnapshots p; trashSnapshots := trashSnapshots p;
     trashEntries := trashEntries p; namespaceBatches := namespaceBatches p; namespaceMutations := f (namespaceMutations
     p); operations := operations p; idempotency := idempotency p; uploadIdempotency := uploadIdempotency p;
     uploadCompletions := uploadCompletions p; uploadAborts := uploadAborts p; faults := faults p; metrics := metrics p;
     versions := versions p |}.
Definition upd_operations (f : gmap gostring Operation → gmap gostring Operation) (p : Provider) : Provider :=
  {| options := options p; ids := ids p; baseURL := baseURL p; objects := objects p; uploads := uploads p; uploadTokens :=
     uploadTokens p; downloads := downloads p; listSnapshots := listSnapshots p; trashSnapshots := trashSnapshots p;
     trashEntries := trashEntries p; namespaceBatches := namespaceBatches p; namespaceMutations := namespaceMutations p;
     operations := f (operations p); idempotency := idempotency p; uploadIdempotency := uploadIdempotency p;
     uploadCompletions := uploadCompletions p; uploadAborts := uploadAborts p; faults := faults p; metrics := metrics p;
     versions := versions p |}.
Definition upd_idempotency (f : gmap gostring idempotentResult → gmap gostring idempotentResult) (p : Provider) : Provider :=
  {| options := options p; ids := ids p; baseURL := baseURL p; objects := objects p; uploads := uploads p; uploadTokens :=
     uploadTokens p; downloads := downloads p; listSnapshots := listSnapshots p; trashSnapshots := trashSnapshots p;
     trashEntries := trashEntries p; namespaceBatches := namespaceBatches p; namespaceMutations := namespaceMutations p;
     operations := operations p; idempotency := f (idempotency p); uploadIdempotency := uploadIdempotency p;
     uploadCompletions := uploadCompletions p; uploadAborts := uploadAborts p; faults := faults p; metrics := metrics p;
     versions := versions p |}.
Definition upd_uploadIdempotency (f : gmap gostring idempotentUpload → gmap gostring idempotentUpload) (p : Provider) : Provider :=
  {| options := options p; ids := ids p; baseURL := baseURL p; objects := objects p; uploads := uploads p; uploadTokens :=
     uploadTokens p; downloads := downloads p; listSnapshots := listSnapshots p; trashSnapshots := trashSnapshots p;
     trashEntries := trashEntries p; namespaceBatches := namespaceBatches p; namespaceMutations := namespaceMutations p;
     operations := operations p; idempotency := idempotency p; uploadIdempotency := f (uploadIdempotency p);
     uploadCompletions := uploadCompletions p; uploadAborts := uploadAborts p; faults := faults p; metrics := metrics p;
     versions := versions p |}.
Definition upd_uploadCompletions (f : gmap gostring idempotentUploadCompletionBatch → gmap gostring idempotentUploadCompletionBatch) (p : Provider) : Provider :=
  {| options := options p; ids := ids p; baseURL := baseURL p; objects := objects p; uploads := uploads p; uploadTokens :=
     uploadTokens p; downloads := downloads p; listSnapshots := listSnapshots p; trashSnapshots := trashSnapshots p;
     trashEntries := trashEntries p; namespaceBatches := namespaceBatches p; namespaceMutations := namespaceMutations p;
     operations := operations p; idempotency := idempotency p; uploadIdempotency := uploadIdempotency p; uploadCompletions
     := f (uploadCompletions p); uploadAborts := uploadAborts p; faults := faults p; metrics := metrics p; versions :=
     versions p |}.
Definition upd_uploadAborts (f : gmap gostring gostring → gmap gostring gostring) (p : Provider) : Provider :=
  {| options := options p; ids := ids p; baseURL := baseURL p; objects := objects p; uploads := uploads p; uploadTokens :=
     uploadTokens p; downloads := downloads p; listSnapshots := listSnapshots p; trashSnapshots := trashSnapshots p;
     trashEntries := trashEntries p; namespaceBatches := namespaceBatches p; namespaceMutations := namespaceMutations p;
     operations := operations p; idempotency := idempotency p; uploadIdempotency := uploadIdempotency p; uploadCompletions
     := uploadCompletions p; uploadAborts := f (uploadAborts p); faults := faults p; metrics := metrics p; versions :=
     versions p |}.
Definition upd_faults (f : gmap gostring (list Fault) → gmap gostring (list Fault)) (p : Provider) : Provider :=
  {| options := options p; ids := ids p; baseURL := baseURL p; objects := objects p; uploads := uploads p; uploadTokens :=
     uploadTokens p; downloads := downloads p; listSnapshots := listSnapshots p; trashSnapshots := trashSnapshots p;
     trashEntries := trashEntries p; namespaceBatches := namespaceBatches p; namespaceMutations := namespaceMutations p;
     operations := operations p; idempotency := idempotency p; uploadIdempotency := uploadIdempotency p; uploadCompletions
     := uploadCompletions p; uploadAborts := uploadAborts p; faults := f (faults p); metrics := metrics p; versions :=
     versions p |}.
Definition upd_metrics (f : Instrumentation → Instrumentation) (p : Provider) : Provider :=
  {| options := options p; ids := ids p; baseURL := baseURL p; objects := objects p; uploads := uploads p; uploadTokens :=
     uploadTokens p; downloads := downloads p; listSnapshots := listSnapshots p; trashSnapshots := trashSnapshots p;
     trashEntries := trashEntries p; namespaceBatches := namespaceBatches p; namespaceMutations := namespaceMutations p;
     operations := operations p; idempotency := idempotency p; uploadIdempotency := uploadIdempotency p; uploadCompletions
     := uploadCompletions p; uploadAborts := uploadAborts p; faults := faults p; metrics := f (metrics p); versions :=
     versions p |}.
Definition upd_versions (f : Z → Z) (p : Provider) : Provider :=
  {| options := options p; ids := ids p; baseURL := baseURL p; objects := objects p; uploads := uploads p; uploadTokens :=
     uploadTokens p; downloads := downloads p; listSnapshots := listSnapshots p; trashSnapshots := trashSnapshots p;
     trashEntries := trashEntries p; namespaceBatches := namespaceBatches p; namespaceMutations := namespaceMutations p;
     operations := operations p; idempotency := idempotency p; uploadIdempotency := uploadIdempotency p; uploadCompletions
     := uploadCompletions p; uploadAborts := uploadAborts p; faults := faults p; metrics := metrics p; versions := f
     (versions p) |}.

Abbreviation DriveM := (GoM Provider error).

(** [options.X == 0] takes the default. *)
Definition New (o : Options) (generator : IDGenerator) : Provider :=
  {| options :=
       {| UploadTTL := if UploadTTL o =? 0 then 5 * 60 * 1000000000 else UploadTTL o;
          DownloadTTL := if DownloadTTL o =? 0 then 60 * 1000000000 else DownloadTTL o;
          MaxMaterializedBytes := if MaxMaterializedBytes o =? 0 then Z.shiftl 16 20 else MaxMaterializedBytes o;
          ChunkRules := if ObjectStore.Rules_MaximumSize (ChunkRules o) =? 0
            then {| ObjectStore.Rules_MinimumSize := 1; ObjectStore.Rules_MaximumSize := Z.shiftl 8 20; ObjectStore.Rules_Multiple := 1 |}
            else ChunkRules o;
          AllowedOrigin := AllowedOrigin o |};
     ids := generator; baseURL := []; objects := ∅; uploads := ∅; uploadTokens := ∅; downloads := ∅; listSnapshots := ∅;
     trashSnapshots := ∅; trashEntries := ∅; namespaceBatches := ∅; namespaceMutations := ∅; operations := ∅; idempotency := ∅;
     uploadIdempotency := ∅; uploadCompletions := ∅; uploadAborts := ∅; faults := ∅;
     metrics := {| ProviderCalls := ∅; ControlPlaneBytes := 0; UploadBytes := 0; DownloadBytes := 0 |}; versions := 0 |}.

Definition SetDataPlaneBaseURL `{LoopbackURL} (url : gostring) : DriveM unit :=
  _ ← throw_if (negb (loopback_url url)) (NewError ErrorInvalid "mock data plane must use a loopback URL");
  modify (upd_baseURL (λ _, reverse (MemoryBackend.trim_slashes (reverse url)))).

Definition InjectFault (operation : gostring) (fault : Fault) (p : Provider) : Provider :=
  upd_faults (λ m, <[operation := default [] (m !! operation) ++ [fault]]> m) p.

Definition RecordControlPlaneBytes (count : Z) (p : Provider) : Provider :=
  upd_metrics (λ i, {| ProviderCalls := ProviderCalls i; ControlPlaneBytes := i64 (ControlPlaneBytes i + count);
                       UploadBytes := UploadBytes i; DownloadBytes := DownloadBytes i |}) p.

(** [p.ids.OpaqueID()], [p.ids.BearerToken()] *)
Definition draw_id {A} (m : GoM IDGenerator error A) : DriveM A := λ p,
  let '(r, g) := m (ids p) in (r, upd_ids (λ _, g) p).

(** ** Requests *)

Definition validateContextScope (ctx : context) (scope : Scope) : res unit :=
  match ctx with
  | Some err => Err (WrapError ErrorUnavailable "provider request canceled" err)
  | None => guard_err (negb (Scope_Valid scope)) (NewError ErrorUnauthorized "invalid storage scope")
  end.

Definition normalizePageSize (size : Z) : res Z :=
  if size =? 0 then Ok 200
  else _ ← guard_err ((size <? 1) || (10000 <? size)) (NewError ErrorInvalid "page size must be between 1 and 10000"); Ok size.

Definition validateIdempotencyKey (value : gostring) : res unit :=
  if bool_decide (value = []) then Ok tt
  else
    _ ← guard_err (negb (ValidString value) || (128 <? len value)) (NewError ErrorInvalid "invalid idempotency key");
    guard_err (existsb (λ r, IsControl (fst r)) (runes value)) (NewError ErrorInvalid "invalid idempotency key").

Definition count_call (operation : gostring) (i : Instrumentation) : Instrumentation :=
  {| ProviderCalls := <[operation := u64 (default 0 (ProviderCalls i !! operation) + 1)]> (ProviderCalls i);
     ControlPlaneBytes := ControlPlaneBytes i; UploadBytes := UploadBytes i; DownloadBytes := DownloadBytes i |}.

(** The error of an injected fault; [None] leaves it in the queue. *)
Definition fault_error (fault : Fault) : option error :=
  if bool_decide (fault = FaultNotFound) then Some (NewError ErrorNotFound "injected not found")
  else if bool_decide (fault = FaultConflict) then Some (NewError ErrorConflict "injected conflict")
  else if bool_decide (fault = FaultRateLimited) then Some (NewError ErrorRateLimited "injected rate limit")
  else if bool_decide (fault = FaultUnavailable) then Some (NewError ErrorUnavailable "injected unavailability")
  else if bool_decide (fault = FaultStaleVersion) then Some (NewError ErrorPreconditionFailed "injected stale version")
  else if bool_decide (fault = FaultExpired) || bool_decide (fault = FaultChecksumMismatch)
          || bool_decide (fault = FaultInterruptedUpload) || bool_decide (fault = FaultPartialOperation) then None
  else Some (NewError ErrorInternal "unknown injected fault").

Definition beforeLocked (operation : gostring) : DriveM unit :=
  _ ← modify (upd_metrics (count_call operation));
  queues ← gets faults;
  match queues !! operation with
  | Some (fault :: rest) =>
      match fault_error fault with
      | Some err => _ ← modify (upd_faults (insert operation rest)); throw err
      | None => mret tt
      end
  | _ => mret tt
  end.

Definition consumeSpecificFaultLocked {E} (operation : gostring) (wanted : Fault) : GoM Provider E bool := λ p,
  match faults p !! operation with
  | Some (fault :: rest) =>
      if bool_decide (fault = wanted) then (Ok true, upd_faults (insert operation rest) p) else (Ok false, p)
  | _ => (Ok false, p)
  end.

(** ** Objects of a scope *)

Definition scopeObjects (scope : Scope) (p : Provider) : gmap gostring object := default ∅ (objects p !! scope).

(** [p.objects[scope] = f(p.objects[scope])] *)
Definition on_scope (scope : Scope) (f : gmap gostring object → gmap gostring object) : Provider → Provider :=
  upd_objects (λ m, <[scope := f (default ∅ (m !! scope))]> m).

Definition is_file (item : object) : bool := bool_decide (Entry_Kind (obj_entry item) = EntryFile).
Definition is_directory (item : object) : bool := bool_decide (Entry_Kind (obj_entry item) = EntryDirectory).

Definition requireParentLocked (scope : Scope) (path : UserPath) : DriveM unit :=
  let parent := Parent path in
  if IsRoot parent then mret tt
  else
    items ← gets (scopeObjects scope);
    match items !! String parent with
    | Some item => throw_if (negb (is_directory item)) (NewError ErrorNotFound "parent directory not found")
    | None => throw (NewError ErrorNotFound "parent directory not found")
    end.

(** [p.versions++; fmt.Sprintf("p%016x", p.versions)] *)
Definition nextVersion {E} : GoM Provider E Version := λ p,
  let p := upd_versions (λ v, u64 (v + 1)) p in (Ok (bs "p" ++ Sprintf_016x (versions p)), p).

Definition overflow : error := NewError ErrorInvalid "directory recursive byte aggregate overflows".

Fixpoint sum_files (items : list object) (total : Z) : res Z :=
  match items with
  | [] => Ok total
  | item :: items =>
      if negb (is_file item) then sum_files items total
      else
        let size := Entry_Size (obj_entry item) in
        _ ← guard_err ((size <? 0) || (MaxInt64 - total <? size)) overflow;
        sum_files items (total + size)
  end.

(** The directories above a path, the root excluded: every step shortens the path. *)
Fixpoint ancestors (fuel : nat) (parent : UserPath) : list UserPath :=
  match fuel with
  | O => []
  | S fuel => if IsRoot parent then [] else parent :: ancestors fuel (Parent parent)
  end.

Definition ancestors_of (path : UserPath) : list UserPath := ancestors (length (normalized path)) (Parent path).

(** [totals] and [counts] by directory *)
Abbreviation aggregates := (gmap gostring Z * gmap gostring Z)%type.

Fixpoint add_totals (size : Z) (parents : list UserPath) (sums : aggregates) : res aggregates :=
  match parents with
  | [] => Ok sums
  | parent :: parents =>
      let '(totals, counts) := sums in
      let current := default 0 (totals !! String parent) in
      _ ← guard_err ((size <? 0) || (MaxInt64 - current <? size)) overflow;
      add_totals size parents
        (<[String parent := current + size]> totals, <[String parent := i64 (default 0 (counts !! String parent) + 1)]> counts)
  end.

Fixpoint sum_directories (items : list object) (sums : aggregates) : res aggregates :=
  match items with
  | [] => Ok sums
  | item :: items =>
      if negb (is_file item) then sum_directories items sums
      else
        sums ← add_totals (Entry_Size (obj_entry item)) (ancestors_of (Entry_Path (obj_entry item))) sums;
        sum_directories items sums
  end.

Definition with_aggregates (e : Entry) (size count : Z) (version : Version) : Entry :=
  {| Entry_Path := Entry_Path e; Entry_Name := Entry_Name e; Entry_Kind := Entry_Kind e; Entry_Size := size; Entry_FileCount := count;
     Entry_MediaType := Entry_MediaType e; Entry_ModifiedAt := Entry_ModifiedAt e; Entry_Version := version;
     Entry_ContentID := Entry_ContentID e; Entry_ContentVersion := Entry_ContentVersion e;
     Entry_ContentModifiedAt := Entry_ContentModifiedAt e |}.

Definition refresh_directory (scope : Scope) (sums : aggregates) (visited : gostring * object) : DriveM unit :=
  let '(path, item) := visited in
  let size := default 0 (fst sums !! path) in
  let count := default 0 (snd sums !! path) in
  if negb (is_directory item) || ((Entry_Size (obj_entry item) =? size) && (Entry_FileCount (obj_entry item) =? count)) then mret tt
  else
    version ← nextVersion;
    modify (on_scope scope (insert path
      {| obj_entry := with_aggregates (obj_entry item) size count version; obj_data := obj_data item;
         obj_materialized := obj_materialized item |})).

(** [path]: the fields of a new entry *)
Definition new_entry (now : Z) (path : UserPath) (kind : gostring) (size : Z) (mediaType : gostring) (version : Version) : Entry :=
  {| Entry_Path := path; Entry_Name := Name path; Entry_Kind := kind; Entry_Size := size;
     Entry_FileCount := if bool_decide (kind = EntryFile) then 1 else 0; Entry_MediaType := mediaType; Entry_ModifiedAt := now;
     Entry_Version := version; Entry_ContentID := []; Entry_ContentVersion := []; Entry_ContentModifiedAt := zero_time |}.

Definition newEntryLocked (now : Z) (path : UserPath) (kind : gostring) (size : Z) (mediaType : gostring) : DriveM Entry :=
  version ← nextVersion; mret (new_entry now path kind size mediaType version).

Definition newFileEntryLocked (now : Z) (path : UserPath) (size : Z) (mediaType : gostring) : DriveM Entry :=
  contentID ← draw_id OpaqueID;
  contentVersion ← draw_id OpaqueID;
  e ← newEntryLocked now path EntryFile size mediaType;
  mret {| Entry_Path := Entry_Path e; Entry_Name := Entry_Name e; Entry_Kind := Entry_Kind e; Entry_Size := Entry_Size e;
          Entry_FileCount := Entry_FileCount e; Entry_MediaType := Entry_MediaType e; Entry_ModifiedAt := Entry_ModifiedAt e;
          Entry_Version := Entry_Version e; Entry_ContentID := contentID; Entry_ContentVersion := contentVersion;
          Entry_ContentModifiedAt := now |}.

Section Tree.
Context `{NFC} `{MapOrder}.

Definition in_tree (path : UserPath) (candidate : gostring) : bool :=
  match ParseUserPath candidate with
  | Ok candidatePath => bool_decide (candidatePath = path) || IsDescendantOf candidatePath path
  | Err _ => false
  end.

Definition deleteTreeLocked (scope : Scope) (path : UserPath) : Provider → Provider :=
  on_scope scope (filter (λ kv, in_tree path (fst kv) = false)).

Definition rootRecursiveBytesLocked (scope : Scope) : DriveM Z :=
  items ← gets (scopeObjects scope);
  lift (sum_files (map snd (range_map items)) 0).

Definition rootRecursiveFileCountLocked (scope : Scope) : DriveM Z :=
  items ← gets (scopeObjects scope);
  mret (len (filter (λ item, is_file item = true) (map snd (range_map items)))).

Definition recomputeRecursiveBytesLocked (scope : Scope) : DriveM unit :=
  _ ← rootRecursiveBytesLocked scope;
  items ← gets (scopeObjects scope);
  sums ← lift (sum_directories (map snd (range_map items)) (∅, ∅));
  forM_ (range_map items) (refresh_directory scope sums).

Definition statLocked (scope : Scope) (path : UserPath) : DriveM Entry :=
  if IsRoot path then
    recursiveBytes ← rootRecursiveBytesLocked scope;
    fileCount ← rootRecursiveFileCountLocked scope;
    mret {| Entry_Path := path; Entry_Name := []; Entry_Kind := EntryDirectory; Entry_Size := recursiveBytes;
            Entry_FileCount := fileCount; Entry_MediaType := []; Entry_ModifiedAt := 0; Entry_Version := "root";
            Entry_ContentID := []; Entry_ContentVersion := []; Entry_ContentModifiedAt := zero_time |}
  else
    items ← gets (scopeObjects scope);
    match items !! String path with
    | Some item => mret (obj_entry item)
    | None => throw (NewError ErrorNotFound "entry not found")
    end.

(** ** A name that is not taken *)

(** [for len(candidateBase)+len(suffix)+len(extension) > 255 && candidateBase != ""] *)
Fixpoint shorten (fuel : nat) (limit : Z) (base : gostring) : gostring :=
  match fuel with
  | O => base
  | S fuel => if (limit <? len base) && bool_decide (base ≠ []) then shorten fuel limit (drop_last_rune base) else base
  end.

(** [for err != nil && candidateBase != ""] *)
Fixpoint join_shortened (fuel : nat) (parent : UserPath) (base rest : gostring) : res UserPath :=
  match Join parent (base ++ rest) with
  | Ok candidate => Ok candidate
  | Err err =>
      match fuel with
      | O => Err err
      | S fuel => if bool_decide (base = []) then Err err else join_shortened fuel parent (drop_last_rune base) rest
      end
  end.

Definition renamed_candidate (parent : UserPath) (base extension : gostring) (index : Z) : res UserPath :=
  let suffix := " (" ++ Itoa index ++ ")" in
  let candidateBase := shorten (length base) (255 - len suffix - len extension) base in
  join_shortened (length candidateBase) parent candidateBase (suffix ++ extension).

Fixpoint renamed_path (fuel : nat) (index : Z) (parent : UserPath) (base extension : gostring) (items : gmap gostring object) :
    res UserPath :=
  match fuel with
  | O => Err (NewError ErrorConflict "unable to generate a conflict-free name")
  | S fuel =>
      candidate ← renamed_candidate parent base extension index;
      match items !! String candidate with
      | None => Ok candidate
      | Some _ => renamed_path fuel (index + 1) parent base extension items
      end
  end.

(** The name is cut at its last dot, unless that is its first byte. *)
Definition split_extension (name : gostring) : gostring * gostring :=
  match last_index_byte "."%char name with
  | Some (S index) => (take (S index) name, drop (S index) name)
  | _ => (name, [])
  end.

Definition availableRenamedPathLocked (scope : Scope) (path : UserPath) : DriveM UserPath :=
  items ← gets (scopeObjects scope);
  let '(base, extension) := split_extension (Name path) in
  lift (renamed_path (Z.to_nat 10000) 1 (Parent path) base extension items).

Definition resolveTreeDestinationLocked (scope : Scope) (path : UserPath) (conflict : gostring) (expected : Version) : DriveM UserPath :=
  items ← gets (scopeObjects scope);
  match items !! String path with
  | None => mret path
  | Some item =>
      if bool_decide (conflict = ConflictFail) then throw (NewError ErrorConflict "destination already exists")
      else if bool_decide (conflict = ConflictReplace) then
        _ ← throw_if (bool_decide (expected = []) || bool_decide (expected ≠ Entry_Version (obj_entry item)))
              (NewError ErrorPreconditionFailed "destination version does not match");
        mret path
      else if bool_decide (conflict = ConflictRename) then availableRenamedPathLocked scope path
      else throw (NewError ErrorInvalid "invalid conflict mode")
  end.

(** As [resolveTreeDestinationLocked], but a replaced destination is deleted. *)
Definition resolveDestinationLocked (scope : Scope) (path : UserPath) (conflict : gostring) (expected : Version) : DriveM UserPath :=
  items ← gets (scopeObjects scope);
  match items !! String path with
  | None => mret path
  | Some item =>
      if bool_decide (conflict = ConflictFail) then throw (NewError ErrorConflict "destination already exists")
      else if bool_decide (conflict = ConflictReplace) then
        _ ← throw_if (bool_decide (expected = []) || bool_decide (expected ≠ Entry_Version (obj_entry item)))
              (NewError ErrorPreconditionFailed "destination version does not match");
        _ ← modify (deleteTreeLocked scope path);
        mret path
      else if bool_decide (conflict = ConflictRename) then availableRenamedPathLocked scope path
      else throw (NewError ErrorInvalid "invalid conflict mode")
  end.
End Tree.

(** ** Listings *)

Definition compare_entries (field : gostring) (a b : Entry) : comparison :=
  let by_field :=
    if bool_decide (field = SortModified) then Entry_ModifiedAt a ?= Entry_ModifiedAt b
    else if bool_decide (field = SortSize) then Entry_Size a ?= Entry_Size b
    else if bool_decide (field = SortKind) then bytes_cmp (Entry_Kind a) (Entry_Kind b)
    else bytes_cmp (Entry_Name a) (Entry_Name b) in
  match by_field with
  | Eq => bytes_cmp (String (Entry_Path a)) (String (Entry_Path b))
  | c => c
  end.

(** [a] may stand before [b]. *)
Definition entry_le (field : gostring) (descending : bool) (a b : Entry) : Prop :=
  compare_entries field a b ≠ if descending then Lt else Gt.

#[export] Instance comparison_eq_dec : EqDecision comparison.
Proof. solve_decision. Defined.
#[export] Instance entry_le_dec field descending a b : Decision (entry_le field descending a b).
Proof. unfold entry_le. apply _. Defined.

Definition sortEntries (entries : list Entry) (field : gostring) (descending : bool) : list Entry :=
  merge_sort (entry_le field descending) entries.

(** [snapshot.entries[snapshot.index:end]], with the index stored behind the cursor. *)
Definition listPageLocked (cursor : gostring) (snapshot : listSnapshot) : DriveM ListPage :=
  let end_ := Z.min (ls_index snapshot + ls_pageSize snapshot) (len (ls_entries snapshot)) in
  let entries := take (Z.to_nat (end_ - ls_index snapshot)) (drop (Z.to_nat (ls_index snapshot)) (ls_entries snapshot)) in
  if end_ =? len (ls_entries snapshot) then
    _ ← modify (upd_listSnapshots (delete cursor));
    mret {| Page_Current := ls_current snapshot; Page_Entries := entries; Page_NextCursor := [] |}
  else
    _ ← modify (upd_listSnapshots (insert cursor
          {| ls_scope := ls_scope snapshot; ls_directory := ls_directory snapshot; ls_pageSize := ls_pageSize snapshot;
             ls_sort := ls_sort snapshot; ls_descending := ls_descending snapshot; ls_entries := ls_entries snapshot;
             ls_current := ls_current snapshot; ls_index := end_ |}));
    mret {| Page_Current := ls_current snapshot; Page_Entries := entries; Page_NextCursor := cursor |}.

Definition valid_sort (field : gostring) : bool :=
  bool_decide (field = SortName) || bool_decide (field = SortModified) || bool_decide (field = SortSize) || bool_decide (field = SortKind).

(** The snapshot was taken for the same listing. *)
Definition resumes (scope : Scope) (request : ListRequest) (pageSize : Z) (field : gostring) (snapshot : listSnapshot) : bool :=
  bool_decide (ls_scope snapshot = scope) && bool_decide (ls_directory snapshot = List_Directory request)
  && (ls_pageSize snapshot =? pageSize) && bool_decide (ls_sort snapshot = field)
  && Bool.eqb (ls_descending snapshot) (List_Descending request).

Section Operations.
Context `{NFC} `{MapOrder} `{SHA256}.
Variables (ctx : context) (now : Z).

Definition children (items : gmap gostring object) (directory : UserPath) : list Entry :=
  filter (λ e, Parent (Entry_Path e) = directory) (map (λ kv, obj_entry (snd kv)) (range_map items)).

Definition List (scope : Scope) (request : ListRequest) : DriveM ListPage :=
  _ ← lift (validateContextScope ctx scope);
  _ ← throw_if (negb (Valid (List_Directory request))) (NewError ErrorInvalid "directory path is required");
  pageSize ← lift (normalizePageSize (List_PageSize request));
  let field := if bool_decide (List_Sort request = []) then SortName else List_Sort request in
  _ ← throw_if (negb (valid_sort field)) (NewError ErrorInvalid "invalid list sort");
  _ ← beforeLocked OperationList;
  if bool_decide (List_Cursor request ≠ []) then
    snapshots ← gets listSnapshots;
    match snapshots !! List_Cursor request with
    | None => throw (NewError ErrorInvalid "invalid or out-of-scope list cursor")
    | Some snapshot =>
        _ ← throw_if (negb (resumes scope request pageSize field snapshot))
              (NewError ErrorInvalid "invalid or out-of-scope list cursor");
        listPageLocked (List_Cursor request) snapshot
    end
  else
    current ← statLocked scope (List_Directory request);
    _ ← throw_if (bool_decide (Entry_Kind current ≠ EntryDirectory)) (NewError ErrorNotFound "directory not found");
    items ← gets (scopeObjects scope);
    let entries := sortEntries (children items (List_Directory request)) field (List_Descending request) in
    if len entries <=? pageSize then mret {| Page_Current := current; Page_Entries := entries; Page_NextCursor := [] |}
    else
      cursor ← draw_id OpaqueID;
      let snapshot := {| ls_scope := scope; ls_directory := List_Directory request; ls_pageSize := pageSize; ls_sort := field;
                         ls_descending := List_Descending request; ls_entries := entries; ls_current := current; ls_index := 0 |} in
      _ ← modify (upd_listSnapshots (insert cursor snapshot));
      listPageLocked cursor snapshot.

Fixpoint lookup_paths (directory : UserPath) (seen : list gostring) (names : list gostring) : res (list UserPath) :=
  match names with
  | [] => Ok []
  | name :: names =>
      match Join directory name with
      | Err _ => Err (NewError ErrorInvalid "child lookup name is invalid")
      | Ok path =>
          _ ← guard_err (bool_decide (name ∈ seen)) (NewError ErrorInvalid "child lookup contains duplicate names");
          paths ← lookup_paths directory (name :: seen) names;
          Ok (path :: paths)
      end
  end.

Fixpoint lookup_entries (items : gmap gostring object) (directory : UserPath) (paths : list UserPath) : res (list Entry) :=
  match paths with
  | [] => Ok []
  | path :: paths =>
      let missing := NewError ErrorNotFound "entry not found" in
      match items !! String path with
      | None => Err missing
      | Some item =>
          _ ← guard_err (bool_decide (Parent (Entry_Path (obj_entry item)) ≠ directory)) missing;
          entries ← lookup_entries items directory paths;
          Ok (obj_entry item :: entries)
      end
  end.

Definition LookupChildren (scope : Scope) (request : ChildLookupRequest) : DriveM ChildLookup :=
  _ ← lift (validateContextScope ctx scope);
  _ ← throw_if (negb (Valid (Lookup_Directory request)) || (len (Lookup_Names request) <? 1) || (1000 <? len (Lookup_Names request)))
        (NewError ErrorInvalid "child lookup request is invalid");
  paths ← lift (lookup_paths (Lookup_Directory request) [] (Lookup_Names request));
  _ ← beforeLocked OperationLookupChildren;
  current ← statLocked scope (Lookup_Directory request);
  _ ← throw_if (bool_decide (Entry_Kind current ≠ EntryDirectory)) (NewError ErrorNotFound "directory not found");
  items ← gets (scopeObjects scope);
  entries ← lift (lookup_entries items (Lookup_Directory request) paths);
  mret {| Child_Current := current; Child_Entries := entries |}.

Definition Stat (scope : Scope) (path : UserPath) : DriveM Entry :=
  _ ← lift (validateContextScope ctx scope);
  _ ← throw_if (negb (Valid path)) (NewError ErrorInvalid "path is required");
  _ ← beforeLocked OperationStat;
  statLocked scope path.

(** [if err := m; err != nil { undo; return err }] *)
Definition or_undo {A} (m : DriveM A) (undo : Provider → Provider) : DriveM A := λ p,
  match m p with
  | (Err err, p') => (Err err, undo p')
  | done => done
  end.

Definition CreateDirectory (scope : Scope) (request : CreateDirectoryRequest) : DriveM Entry :=
  _ ← lift (validateContextScope ctx scope);
  _ ← throw_if (negb (Valid (Create_Path request)) || IsRoot (Create_Path request)) (NewError ErrorInvalid "directory path is invalid");
  conflict ← lift (NormalizeConflictMode (Create_Conflict request));
  _ ← beforeLocked OperationCreateDirectory;
  _ ← requireParentLocked scope (Create_Path request);
  path ← resolveDestinationLocked scope (Create_Path request) conflict (Create_ExpectedVersion request);
  original ← gets (scopeObjects scope);
  entry ← newEntryLocked now path EntryDirectory 0 [];
  _ ← modify (on_scope scope (insert (String path) {| obj_entry := entry; obj_data := []; obj_materialized := true |}));
  _ ← or_undo (recomputeRecursiveBytesLocked scope) (on_scope scope (λ _, original));
  mret entry.

(** ** Operations and their records *)

Definition operationKey (userID : UserID) (operationID : OperationID) : gostring := userID_value userID ++ nul :: operationID.

Definition idempotencyKey (userID : UserID) (operation key : gostring) : gostring :=
  userID_value userID ++ nul :: operation ++ nul :: key.

Definition operationFingerprint (values : list gostring) : gostring := b64_encode (sha256 (join [nul] values)).

Definition newOperationLocked (userID : UserID) : DriveM Operation :=
  value ← draw_id OpaqueID;
  mret {| Operation_ID := value; Operation_State := OperationRunning; Operation_ErrorKind := []; Operation_Error := [];
          Operation_StartedAt := now; Operation_UpdatedAt := now |}.

Definition saveOperationLocked (userID : UserID) (operation : Operation) : Provider → Provider :=
  upd_operations (insert (operationKey userID (Operation_ID operation)) operation).

Definition idempotentLocked (userID : UserID) (operation key fingerprint : gostring) : DriveM (option Operation) :=
  if bool_decide (key = []) then mret None
  else
    saved ← gets idempotency;
    match saved !! idempotencyKey userID operation key with
    | None => mret None
    | Some result =>
        _ ← throw_if (bool_decide (ir_fingerprint result ≠ fingerprint))
              (NewError ErrorConflict "idempotency key was used for a different request");
        mret (Some (ir_operation result))
    end.

Definition saveIdempotentLocked (userID : UserID) (operation key fingerprint : gostring) (result : Operation) : Provider → Provider :=
  if bool_decide (key = []) then (λ p, p)
  else upd_idempotency (insert (idempotencyKey userID operation key) {| ir_fingerprint := fingerprint; ir_operation := result |}).

Definition ended (operation : Operation) (state kind text : gostring) : Operation :=
  {| Operation_ID := Operation_ID operation; Operation_State := state; Operation_ErrorKind := kind; Operation_Error := text;
     Operation_StartedAt := Operation_StartedAt operation; Operation_UpdatedAt := now |}.

Definition succeeded (operation : Operation) : Operation := ended operation OperationSucceeded [] [].
Definition partially_failed (operation : Operation) : Operation :=
  ended operation OperationFailed ErrorUnavailable "injected partial operation failure".

(** [p.saveOperationLocked; p.saveIdempotentLocked; return operation, nil] *)
Definition finish_operation (userID : UserID) (name key fingerprint : gostring) (operation : Operation) : DriveM Operation :=
  _ ← modify (saveOperationLocked userID operation);
  _ ← modify (saveIdempotentLocked userID name key fingerprint operation);
  mret operation.

(** ** Copy and move *)

Record treeItem := { oldPath : UserPath; newPath : UserPath; item_value : object; item_entry : Entry }.

(** The entry of a copied or moved item: a file keeps its content identity. *)
Definition carried_entry (e : Entry) (item : object) : Entry :=
  let old := obj_entry item in
  if is_file item then
    {| Entry_Path := Entry_Path e; Entry_Name := Entry_Name e; Entry_Kind := Entry_Kind e; Entry_Size := Entry_Size e;
       Entry_FileCount := Entry_FileCount e; Entry_MediaType := Entry_MediaType e; Entry_ModifiedAt := Entry_ModifiedAt old;
       Entry_Version := Entry_Version e; Entry_ContentID := Entry_ContentID old; Entry_ContentVersion := Entry_ContentVersion old;
       Entry_ContentModifiedAt := Entry_ContentModifiedAt old |}
  else e.

Section Collect.
Variables (to : Scope) (source destination : UserPath) (conflict : gostring) (expectedTarget : Version).

Definition relocated (path : UserPath) : res UserPath :=
  ParseUserPath (String destination ++ TrimPrefix (String path) (String source)).

(** An object at the new path is in the way, unless it is the one to replace. *)
Definition in_the_way (path : UserPath) (existing : object) : bool :=
  bool_decide (path ≠ destination) || bool_decide (conflict ≠ ConflictReplace)
  || bool_decide (Entry_Version (obj_entry existing) ≠ expectedTarget).

Fixpoint collect_items (items : list (gostring * object)) : DriveM (list treeItem) :=
  match items with
  | [] => mret []
  | (pathValue, item) :: items =>
      match ParseUserPath pathValue with
      | Ok path =>
          if bool_decide (path ≠ source) && negb (IsDescendantOf path source) then collect_items items
          else
            target ← lift (relocated path);
            taken ← gets (scopeObjects to);
            _ ← throw_if (match taken !! String target with Some existing => in_the_way target existing | None => false end)
                  (NewError ErrorConflict "destination tree conflicts with existing content");
            entry ← newEntryLocked now target (Entry_Kind (obj_entry item)) (Entry_Size (obj_entry item)) (Entry_MediaType (obj_entry item));
            rest ← collect_items items;
            mret ({| oldPath := path; newPath := target; item_value := item; item_entry := carried_entry entry item |} :: rest)
      | Err _ => collect_items items
      end
  end.
End Collect.

Definition place_item (items : gmap gostring object) (item : treeItem) : gmap gostring object :=
  <[String (newPath item) := {| obj_entry := item_entry item; obj_data := obj_data (item_value item);
                                obj_materialized := obj_materialized (item_value item) |}]> items.

Definition remove_item (items : gmap gostring object) (item : treeItem) : gmap gostring object := delete (String (oldPath item)) items.

(** The edits of the objects, with both scopes restored when a sum overflows. *)
Definition relocate_tree (move : bool) (from to : Scope) (destination : UserPath) (conflict : gostring) (items : list treeItem) : DriveM unit :=
  originalFrom ← gets (scopeObjects from);
  originalTo ← gets (scopeObjects to);
  let restoreObjects p :=
    let p := on_scope from (λ _, originalFrom) p in
    if bool_decide (from = to) then p else on_scope to (λ _, originalTo) p in
  _ ← modify (if bool_decide (conflict = ConflictReplace) then deleteTreeLocked to destination else λ p, p);
  _ ← modify (on_scope to (λ m, fold_left place_item items m));
  _ ← modify (if move then on_scope from (λ m, fold_left remove_item items m) else λ p, p);
  _ ← or_undo (recomputeRecursiveBytesLocked to) restoreObjects;
  if bool_decide (from = to) then mret tt else or_undo (recomputeRecursiveBytesLocked from) restoreObjects.

Definition Sprint_bool (b : bool) : gostring := if b then "true" else "false".

Definition copy_fingerprint (move : bool) (from to : Scope) (conflict : gostring) (request : CopyRequest) : gostring :=
  operationFingerprint [userID_value (scope_userID from); Itoa (scope_area from); Itoa (scope_area to);
    String (Copy_Source request); String (Copy_Destination request); conflict;
    Copy_ExpectedSource request; Copy_ExpectedTarget request; Sprint_bool move].

(** The checks of [copyOrMove] before it takes the lock. *)
Definition check_copy (from to : Scope) (request : CopyRequest) : res gostring :=
  _ ← validateContextScope ctx from;
  _ ← validateContextScope ctx to;
  _ ← guard_err (bool_decide (scope_userID from ≠ scope_userID to)) (NewError ErrorUnauthorized "cross-user operations are forbidden");
  _ ← guard_err (negb (Valid (Copy_Source request)) || IsRoot (Copy_Source request)
                 || negb (Valid (Copy_Destination request)) || IsRoot (Copy_Destination request))
        (NewError ErrorInvalid "source and destination paths are required");
  conflict ← NormalizeConflictMode (Copy_Conflict request);
  _ ← guard_err (bool_decide (from = to) && bool_decide (Copy_Source request = Copy_Destination request)
                 && bool_decide (conflict ≠ ConflictRename))
        (NewError ErrorInvalid "source and destination are identical");
  _ ← guard_err (bool_decide (from = to) && IsDescendantOf (Copy_Destination request) (Copy_Source request))
        (NewError ErrorInvalid "destination cannot be inside the source tree");
  _ ← validateIdempotencyKey (Copy_IdempotencyKey request);
  Ok conflict.

Definition copyOrMove (operationName : gostring) (move : bool) (from to : Scope) (request : CopyRequest) : DriveM Operation :=
  conflict ← lift (check_copy from to request);
  let user := scope_userID from in
  let key := Copy_IdempotencyKey request in
  let fingerprint := copy_fingerprint move from to conflict request in
  saved ← idempotentLocked user operationName key fingerprint;
  match saved with
  | Some result => mret result
  | None =>
      _ ← beforeLocked operationName;
      items ← gets (scopeObjects from);
      match items !! String (Copy_Source request) with
      | None => throw (NewError ErrorNotFound "source not found")
      | Some root =>
          _ ← throw_if (bool_decide (Copy_ExpectedSource request ≠ [])
                        && bool_decide (Entry_Version (obj_entry root) ≠ Copy_ExpectedSource request))
                (NewError ErrorPreconditionFailed "source version does not match");
          _ ← requireParentLocked to (Copy_Destination request);
          destination ← resolveTreeDestinationLocked to (Copy_Destination request) conflict (Copy_ExpectedTarget request);
          operation ← newOperationLocked user;
          partial ← consumeSpecificFaultLocked operationName FaultPartialOperation;
          if (partial : bool) then finish_operation user operationName key fingerprint (partially_failed operation)
          else
            collected ← collect_items to (Copy_Source request) destination conflict (Copy_ExpectedTarget request) (range_map items);
            _ ← relocate_tree move from to destination conflict collected;
            finish_operation user operationName key fingerprint (succeeded operation)
      end
  end.

Definition Copy : Scope → Scope → CopyRequest → DriveM Operation := copyOrMove OperationCopy false.
Definition Move : Scope → Scope → CopyRequest → DriveM Operation := copyOrMove OperationMove true.

(** ** Deleting *)

Definition delete_fingerprint (scope : Scope) (request : DeleteRequest) : gostring :=
  operationFingerprint [userID_value (scope_userID scope); Itoa (scope_area scope); String (Delete_Path request);
    Delete_ExpectedVersion request].

Definition Delete (scope : Scope) (request : DeleteRequest) : DriveM Operation :=
  _ ← lift (validateContextScope ctx scope);
  _ ← throw_if (negb (Valid (Delete_Path request)) || IsRoot (Delete_Path request)) (NewError ErrorInvalid "delete path is invalid");
  _ ← lift (validateIdempotencyKey (Delete_IdempotencyKey request));
  let user := scope_userID scope in
  let key := Delete_IdempotencyKey request in
  let fingerprint := delete_fingerprint scope request in
  saved ← idempotentLocked user OperationDelete key fingerprint;
  match saved with
  | Some result => mret result
  | None =>
      _ ← beforeLocked OperationDelete;
      items ← gets (scopeObjects scope);
      match items !! String (Delete_Path request) with
      | None => throw (NewError ErrorNotFound "entry not found")
      | Some item =>
          _ ← throw_if (bool_decide (Delete_ExpectedVersion request ≠ [])
                        && bool_decide (Entry_Version (obj_entry item) ≠ Delete_ExpectedVersion request))
                (NewError ErrorPreconditionFailed "entry version does not match");
          operation ← newOperationLocked user;
          partial ← consumeSpecificFaultLocked OperationDelete FaultPartialOperation;
          operation ← (if (partial : bool) then mret (partially_failed operation)
                       else
                         _ ← modify (deleteTreeLocked scope (Delete_Path request));
                         _ ← recomputeRecursiveBytesLocked scope;
                         mret (succeeded operation));
          finish_operation user OperationDelete key fingerprint operation
      end
  end.

Definition GetOperation (userID : UserID) (operationID : OperationID) : DriveM Operation :=
  _ ← lift (match ctx with Some err => Err (WrapError ErrorUnavailable "provider request canceled" err) | None => Ok tt end);
  _ ← throw_if (negb (UserID_Valid userID) || bool_decide (operationID = []))
        (NewError ErrorInvalid "user and operation IDs are required");
  saved ← gets operations;
  match saved !! operationKey userID operationID with
  | None => throw (NewError ErrorNotFound "operation not found")
  | Some operation => mret operation
  end.

(** ** directory_preparation.go *)

Definition preparation_result (index : Z) (path : UserPath) (ready : bool) (code : gostring) : DirectoryPreparationResult :=
  {| Prep_Index := index; Prep_Path := path; Prep_Ready := ready; Prep_ErrorCode := code; Prep_Retryable := false |}.

(** An ancestor that is a file. *)
Definition file_above (items : gmap gostring object) (path : UserPath) : bool :=
  existsb (λ parent, match items !! String parent with Some ancestor => negb (is_directory ancestor) | None => false end)
    (ancestors_of path).

Definition prepare_directory (scope : Scope) (index : Z) (path : UserPath) : DriveM DirectoryPreparationResult :=
  items ← gets (scopeObjects scope);
  match items !! String path with
  | Some existing =>
      mret (if is_directory existing then preparation_result index path true [] else preparation_result index path false ErrorConflict)
  | None =>
      if file_above items path then mret (preparation_result index path false ErrorConflict)
      else λ p,
        match requireParentLocked scope path p with
        | (Err _, p) => (Ok (preparation_result index path false ErrorNotFound), p)
        | (Ok _, p) =>
            (entry ← newEntryLocked now path EntryDirectory 0 [];
             _ ← modify (on_scope scope (insert (String path) {| obj_entry := entry; obj_data := []; obj_materialized := true |}));
             mret (preparation_result index path true [])) p
        end
  end.

Definition path_le (a b : Z * UserPath) : Prop := bytes_le (String (snd a)) (String (snd b)).
#[local] Instance path_le_dec a b : Decision (path_le a b).
Proof. unfold path_le. apply _. Defined.

Fixpoint prepare_ordered (scope : Scope) (paths : list (Z * UserPath)) : DriveM (list DirectoryPreparationResult) :=
  match paths with
  | [] => mret []
  | (index, path) :: paths =>
      result ← prepare_directory scope index path;
      rest ← prepare_ordered scope paths;
      mret (result :: rest)
  end.

(** [result[index] = item], for distinct indices *)
Definition by_index (a b : DirectoryPreparationResult) : Prop := Prep_Index a ≤ Prep_Index b.
#[local] Instance by_index_dec a b : Decision (by_index a b).
Proof. unfold by_index. apply _. Defined.

Definition PrepareDirectories (scope : Scope) (paths : list UserPath) : DriveM (list DirectoryPreparationResult) :=
  _ ← lift (validateContextScope ctx scope);
  _ ← throw_if (negb (scope_area scope =? AreaLive)) (NewError ErrorInvalid "directory preparation requires live scope");
  _ ← lift (ValidateDirectoryPreparationPaths paths);
  _ ← beforeLocked OperationCreateDirectory;
  results ← prepare_ordered scope (merge_sort path_le (imap (λ i path, (Z.of_nat i, path)) paths));
  mret (merge_sort by_index results).
End Operations.
End DriveMemory.
