(* ===== verification/DriveTrash.v ===== *)
(** * Trash and batches of the reference provider: internal/provider/memory/namespace.go

    A method here enters the provider's lock several times; the model runs it
    without other calls in between. *)

From Stdlib Require Import ZArith Lia.
From S2P Require Import Prelude GoLib GoHash Errors DomainPath DomainIDs ObjectStore ObjectMemory GoJSON GoTime FileTypes DriveMemory.

Open Scope Z_scope.

Module DriveTrash.
Import FileTypes DriveMemory.

(** A failed [MustParseUserPath] panics. *)
Definition MustParseUserPath `{NFC} (value : gostring) : res UserPath :=
  match ParseUserPath value with Ok path => Ok path | Err _ => Err ObjectStore.panic end.

Definition memoryTrashKey (owner : UserID) (trashID : gostring) : gostring := userID_value owner ++ nul :: trashID.

Definition validateMemoryTrashID (value : gostring) : res unit :=
  guard_err (bool_decide (value = []) || ContainsByte value slash || ContainsByte value nul) (NewError ErrorInvalid "invalid trash ID").

Definition memoryNamespaceMutationKey (owner : UserID) (kind key : gostring) : gostring :=
  userID_value owner ++ nul :: kind ++ nul :: key.

Definition replayNamespaceMutation (owner : UserID) (kind key fingerprint : gostring) : DriveM (option Operation) :=
  saved ← gets namespaceMutations;
  match saved !! memoryNamespaceMutationKey owner kind key with
  | None => mret None
  | Some prior =>
      _ ← throw_if (bool_decide (nm_fingerprint prior ≠ fingerprint))
            (NewError ErrorConflict "idempotency key was used for a different request");
      mret (Some (nm_operation prior))
  end.

Definition saveNamespaceMutation (owner : UserID) (kind key fingerprint : gostring) (operation : Operation) : Provider → Provider :=
  upd_namespaceMutations (insert (memoryNamespaceMutationKey owner kind key)
    {| nm_fingerprint := fingerprint; nm_operation := operation |}).

(** [scope, _ := domain.NewScope(owner, area)] of a valid owner *)
Definition live (owner : UserID) : Scope := {| scope_userID := owner; scope_area := AreaLive |}.
Definition trash (owner : UserID) : Scope := {| scope_userID := owner; scope_area := AreaTrash |}.

(** The entry of a key that a map does not hold. *)
Definition zero_entry : Entry :=
  {| Entry_Path := zero_path; Entry_Name := []; Entry_Kind := []; Entry_Size := 0; Entry_FileCount := 0; Entry_MediaType := [];
     Entry_ModifiedAt := zero_time; Entry_Version := []; Entry_ContentID := []; Entry_ContentVersion := [];
     Entry_ContentModifiedAt := zero_time |}.

Definition zero_trash_entry : TrashEntry :=
  {| TrashEntry_TrashID := []; TrashEntry_OwnerUserID := {| userID_value := [] |}; TrashEntry_OriginalPath := zero_path;
     TrashEntry_TrashedPath := zero_path; TrashEntry_Entry := zero_entry; TrashEntry_TrashedAt := zero_time;
     TrashEntry_OriginalVersion := [] |}.

Definition has_succeeded (operation : Operation) : bool := bool_decide (Operation_State operation = OperationSucceeded).

Section Trash.
Context `{NFC} `{MapOrder} `{SHA256}.
Variables (ctx : context) (now : Z).

Definition canceled_request : res unit :=
  match ctx with Some err => Err (WrapError ErrorUnavailable "provider request canceled" err) | None => Ok tt end.

Definition MoveToTrash (owner : UserID) (request : TrashRequest) : DriveM Operation :=
  let path := Trash_Path request in
  let trashID := Trash_TrashID request in
  let key := Trash_IdempotencyKey request in
  _ ← throw_if (negb (UserID_Valid owner) || negb (Valid path) || IsRoot path || negb (is_Ok (validateMemoryTrashID trashID)))
        (NewError ErrorInvalid "invalid trash request");
  _ ← lift (validateIdempotencyKey key);
  let fingerprint := operationFingerprint [String path; Trash_ExpectedVersion request; trashID] in
  prior ← replayNamespaceMutation owner "trash" key fingerprint;
  match prior with
  | Some operation => mret operation
  | None =>
      source ← Stat ctx (live owner) path;
      _ ← throw_if (bool_decide (Trash_ExpectedVersion request ≠ []) && bool_decide (Trash_ExpectedVersion request ≠ Entry_Version source))
            (NewError ErrorPreconditionFailed "trash source version changed");
      destination ← lift (MustParseUserPath (slash :: trashID));
      operation ← Move ctx now (live owner) (trash owner)
        {| Copy_Source := path; Copy_Destination := destination; Copy_Conflict := ConflictFail;
           Copy_ExpectedSource := Entry_Version source; Copy_ExpectedTarget := []; Copy_IdempotencyKey := key |};
      if negb (has_succeeded operation) then mret operation
      else
        items ← gets (scopeObjects (trash owner));
        let entry := match items !! String destination with Some item => obj_entry item | None => zero_entry end in
        _ ← modify (upd_trashEntries (insert (memoryTrashKey owner trashID)
              {| TrashEntry_TrashID := trashID; TrashEntry_OwnerUserID := owner; TrashEntry_OriginalPath := path;
                 TrashEntry_TrashedPath := destination; TrashEntry_Entry := entry; TrashEntry_TrashedAt := now;
                 TrashEntry_OriginalVersion := Entry_Version source |}));
        _ ← modify (saveNamespaceMutation owner "trash" key fingerprint operation);
        mret operation
  end.

(** The newest first, then by ID. *)
Definition trash_le (a b : TrashEntry) : Prop :=
  if TrashEntry_TrashedAt a =? TrashEntry_TrashedAt b then bytes_le (TrashEntry_TrashID a) (TrashEntry_TrashID b)
  else TrashEntry_TrashedAt b < TrashEntry_TrashedAt a.
#[local] Instance trash_le_dec a b : Decision (trash_le a b).
Proof. unfold trash_le. destruct (_ =? _); apply _. Defined.

Definition trashPageLocked (cursor : gostring) (snapshot : trashListSnapshot) : DriveM TrashListPage :=
  let end_ := Z.min (ts_index snapshot + ts_limit snapshot) (len (ts_items snapshot)) in
  let items := take (Z.to_nat (end_ - ts_index snapshot)) (drop (Z.to_nat (ts_index snapshot)) (ts_items snapshot)) in
  if end_ =? len (ts_items snapshot) then
    _ ← modify (upd_trashSnapshots (delete cursor));
    mret {| TrashPage_Items := items; TrashPage_NextCursor := [] |}
  else
    _ ← modify (upd_trashSnapshots (insert cursor
          {| ts_owner := ts_owner snapshot; ts_limit := ts_limit snapshot; ts_items := ts_items snapshot; ts_index := end_ |}));
    mret {| TrashPage_Items := items; TrashPage_NextCursor := cursor |}.

Definition ListTrash (owner : UserID) (request : TrashListRequest) : DriveM TrashListPage :=
  _ ← lift canceled_request;
  _ ← throw_if (negb (UserID_Valid owner)) (NewError ErrorInvalid "invalid trash owner");
  let limit := if TrashList_Limit request =? 0 then 200 else TrashList_Limit request in
  _ ← throw_if ((limit <? 1) || (10000 <? limit)) (NewError ErrorInvalid "trash page limit must be between 1 and 10000");
  if bool_decide (TrashList_Cursor request ≠ []) then
    snapshots ← gets trashSnapshots;
    match snapshots !! TrashList_Cursor request with
    | None => throw (NewError ErrorInvalid "invalid or out-of-scope trash cursor")
    | Some snapshot =>
        _ ← throw_if (bool_decide (ts_owner snapshot ≠ owner) || negb (ts_limit snapshot =? limit))
              (NewError ErrorInvalid "invalid or out-of-scope trash cursor");
        trashPageLocked (TrashList_Cursor request) snapshot
    end
  else
    entries ← gets trashEntries;
    let prefix := userID_value owner ++ [nul] in
    let items := merge_sort trash_le (map snd (filter (λ kv, HasPrefix (fst kv) prefix = true) (range_map entries))) in
    if len items <=? limit then mret {| TrashPage_Items := items; TrashPage_NextCursor := [] |}
    else
      cursor ← draw_id OpaqueID;
      let snapshot := {| ts_owner := owner; ts_limit := limit; ts_items := items; ts_index := 0 |} in
      _ ← modify (upd_trashSnapshots (insert cursor snapshot));
      trashPageLocked cursor snapshot.

(** The tail of restoring and of deleting: the record goes with the entry. *)
Definition settle_trash (owner : UserID) (trashID kind key fingerprint : gostring) (operation : Operation) : DriveM Operation :=
  if negb (has_succeeded operation) then mret operation
  else
    _ ← modify (upd_trashEntries (delete (memoryTrashKey owner trashID)));
    _ ← modify (saveNamespaceMutation owner kind key fingerprint operation);
    mret operation.

Definition RestoreFromTrash (owner : UserID) (trashID conflict key : gostring) : DriveM Operation :=
  _ ← lift canceled_request;
  _ ← throw_if (negb (UserID_Valid owner) || negb (is_Ok (validateMemoryTrashID trashID))) (NewError ErrorInvalid "invalid restore request");
  _ ← lift (validateIdempotencyKey key);
  let fingerprint := operationFingerprint [trashID; conflict] in
  prior ← replayNamespaceMutation owner "restore" key fingerprint;
  match prior with
  | Some operation => mret operation
  | None =>
      entries ← gets trashEntries;
      match entries !! memoryTrashKey owner trashID with
      | None => throw (NewError ErrorNotFound "trash entry not found")
      | Some record =>
          operation ← Move ctx now (trash owner) (live owner)
            {| Copy_Source := TrashEntry_TrashedPath record; Copy_Destination := TrashEntry_OriginalPath record; Copy_Conflict := conflict;
               Copy_ExpectedSource := Entry_Version (TrashEntry_Entry record); Copy_ExpectedTarget := []; Copy_IdempotencyKey := key |};
          settle_trash owner trashID "restore" key fingerprint operation
      end
  end.

Definition DeleteFromTrash (owner : UserID) (trashID key : gostring) : DriveM Operation :=
  _ ← lift canceled_request;
  _ ← throw_if (negb (UserID_Valid owner) || negb (is_Ok (validateMemoryTrashID trashID)))
        (NewError ErrorInvalid "invalid trash deletion request");
  _ ← lift (validateIdempotencyKey key);
  let fingerprint := operationFingerprint [trashID] in
  prior ← replayNamespaceMutation owner "delete-trash" key fingerprint;
  match prior with
  | Some operation => mret operation
  | None =>
      entries ← gets trashEntries;
      match entries !! memoryTrashKey owner trashID with
      | None => throw (NewError ErrorNotFound "trash entry not found")
      | Some record =>
          operation ← Delete ctx now (trash owner)
            {| Delete_Path := TrashEntry_TrashedPath record; Delete_ExpectedVersion := Entry_Version (TrashEntry_Entry record);
               Delete_IdempotencyKey := key |};
          settle_trash owner trashID "delete-trash" key fingerprint operation
      end
  end.

(** ** Batches *)

Record memoryNamespaceSnapshot := {
  ns_objects : gmap Scope (gmap gostring object);
  ns_operations : gmap gostring Operation;
  ns_idempotency : gmap gostring idempotentResult;
  ns_trash : gmap gostring TrashEntry;
  ns_batches : gmap gostring namespaceBatchResult;
  ns_mutations : gmap gostring namespaceMutationResult;
}.

Definition namespaceSnapshot (p : Provider) : memoryNamespaceSnapshot :=
  {| ns_objects := objects p; ns_operations := operations p; ns_idempotency := idempotency p; ns_trash := trashEntries p;
     ns_batches := namespaceBatches p; ns_mutations := namespaceMutations p |}.

Definition restoreNamespaceSnapshot (snapshot : memoryNamespaceSnapshot) (p : Provider) : Provider :=
  upd_objects (λ _, ns_objects snapshot) (upd_operations (λ _, ns_operations snapshot) (upd_idempotency (λ _, ns_idempotency snapshot)
    (upd_trashEntries (λ _, ns_trash snapshot) (upd_namespaceBatches (λ _, ns_batches snapshot)
      (upd_namespaceMutations (λ _, ns_mutations snapshot) p))))).

Definition memoryBatchKey (owner : UserID) (label key : gostring) : gostring := userID_value owner ++ nul :: label ++ nul :: key.

Definition replayMemoryBatch (owner : UserID) (label key fingerprint : gostring) : DriveM (option NamespaceBatchResult) :=
  saved ← gets namespaceBatches;
  match saved !! memoryBatchKey owner label key with
  | None => mret None
  | Some prior =>
      _ ← throw_if (bool_decide (nb_fingerprint prior ≠ fingerprint))
            (NewError ErrorConflict "idempotency key was used for a different batch");
      mret (Some (nb_result prior))
  end.

Definition finishMemoryBatch (owner : UserID) (label key fingerprint : gostring) (items : list NamespaceBatchItemResult) :
    DriveM NamespaceBatchResult :=
  operation ← newOperationLocked now owner;
  let operation := succeeded now operation in
  _ ← modify (saveOperationLocked owner operation);
  let items := map (λ i, {| Item_Source := Item_Source i; Item_Destination := Item_Destination i; Item_TrashID := Item_TrashID i;
                            Item_OperationID := Operation_ID operation; Item_State := OperationSucceeded |}) items in
  let result := {| Batch_Operation := operation; Batch_Items := items |} in
  _ ← modify (upd_namespaceBatches (insert (memoryBatchKey owner label key) {| nb_fingerprint := fingerprint; nb_result := result |}));
  mret result.

(** What one item of a batch runs, and what is reported of it. *)
Definition batch_step (run : DriveM Operation) (item : NamespaceBatchItemResult) : DriveM NamespaceBatchItemResult :=
  operation ← run;
  _ ← throw_if (negb (has_succeeded operation)) (NewError ErrorUnavailable "mock batch item failed");
  mret item.

Fixpoint batch_loop {A} (step : Z → A → DriveM NamespaceBatchItemResult) (index : Z) (requests : list A) :
    DriveM (list NamespaceBatchItemResult) :=
  match requests with
  | [] => mret []
  | request :: requests =>
      item ← step index request;
      items ← batch_loop step (index + 1) requests;
      mret (item :: items)
  end.

(** A panic unwinds past the code that restores the snapshot. *)
Definition is_panic (err : error) : bool :=
  match err with OtherError text => bool_decide (text = bs "panic") | _ => false end.

(** Everything after the replay of a batch: all items, or the snapshot again. *)
Definition run_batch {A} (owner : UserID) (label key fingerprint : gostring) (step : Z → A → DriveM NamespaceBatchItemResult)
    (requests : list A) : DriveM NamespaceBatchResult := λ p,
  match (items ← batch_loop step 0 requests; finishMemoryBatch owner label key fingerprint items) p with
  | (Err err, p') => (Err err, if is_panic err then p' else restoreNamespaceSnapshot (namespaceSnapshot p) p')
  | finished => finished
  end.

Definition batch_key (key : gostring) (index : Z) : gostring := key ++ ":" ++ Itoa index.

Definition batch_item (source destination : UserPath) (trashID : gostring) : NamespaceBatchItemResult :=
  {| Item_Source := source; Item_Destination := destination; Item_TrashID := trashID; Item_OperationID := []; Item_State := [] |}.

Definition batch_invalid {A} (owner : UserID) (requests : list A) (key : gostring) : bool :=
  negb (UserID_Valid owner) || (len requests <? 1) || (10000 <? len requests) || negb (is_Ok (validateIdempotencyKey key)).

Definition copy_step (owner : UserID) (move : bool) (key : gostring) (index : Z) (request : CopyRequest) : DriveM NamespaceBatchItemResult :=
  let request := {| Copy_Source := Copy_Source request; Copy_Destination := Copy_Destination request; Copy_Conflict := Copy_Conflict request;
                    Copy_ExpectedSource := Copy_ExpectedSource request; Copy_ExpectedTarget := Copy_ExpectedTarget request;
                    Copy_IdempotencyKey := batch_key key index |} in
  batch_step (if move then Move ctx now (live owner) (live owner) request else Copy ctx now (live owner) (live owner) request)
    (batch_item (Copy_Source request) (Copy_Destination request) []).

Definition BatchCopyMove (owner : UserID) (requests : list CopyRequest) (move : bool) (key : gostring) : DriveM NamespaceBatchResult :=
  _ ← throw_if (batch_invalid owner requests key) (NewError ErrorInvalid "invalid copy/move batch");
  let label := "batch-copy-move-" ++ Sprint_bool move in
  let fingerprint := operationFingerprint (concat (map (λ r,
    [String (Copy_Source r); String (Copy_Destination r); Copy_Conflict r; Copy_ExpectedSource r; Copy_ExpectedTarget r; Sprint_bool move])
    requests)) in
  prior ← replayMemoryBatch owner label key fingerprint;
  match prior with
  | Some result => mret result
  | None => run_batch owner label key fingerprint (copy_step owner move key) requests
  end.

Definition trash_step (owner : UserID) (key : gostring) (index : Z) (request : TrashRequest) : DriveM NamespaceBatchItemResult :=
  let request := {| Trash_Path := Trash_Path request; Trash_ExpectedVersion := Trash_ExpectedVersion request;
                    Trash_TrashID := Trash_TrashID request; Trash_IdempotencyKey := batch_key key index |} in
  batch_step (MoveToTrash owner request) (batch_item (Trash_Path request) zero_path (Trash_TrashID request)).

Definition BatchMoveToTrash (owner : UserID) (requests : list TrashRequest) (key : gostring) : DriveM NamespaceBatchResult :=
  _ ← throw_if (batch_invalid owner requests key) (NewError ErrorInvalid "invalid trash batch");
  let fingerprint := operationFingerprint (concat (map (λ r,
    [String (Trash_Path r); Trash_ExpectedVersion r; Trash_TrashID r]) requests)) in
  prior ← replayMemoryBatch owner "batch-trash" key fingerprint;
  match prior with
  | Some result => mret result
  | None => run_batch owner "batch-trash" key fingerprint (trash_step owner key) requests
  end.

Fixpoint distinct_trash_ids (seen : list gostring) (trashIDs : list gostring) : res unit :=
  match trashIDs with
  | [] => Ok tt
  | trashID :: trashIDs =>
      _ ← guard_err (negb (is_Ok (validateMemoryTrashID trashID))) (NewError ErrorInvalid "invalid trash ID");
      _ ← guard_err (bool_decide (trashID ∈ seen)) (NewError ErrorInvalid "duplicate trash ID");
      distinct_trash_ids (trashID :: seen) trashIDs
  end.

Definition trash_record (owner : UserID) (trashID : gostring) : DriveM TrashEntry :=
  entries ← gets trashEntries; mret (default zero_trash_entry (entries !! memoryTrashKey owner trashID)).

Definition restore_step (owner : UserID) (conflict key : gostring) (index : Z) (trashID : gostring) : DriveM NamespaceBatchItemResult :=
  record ← trash_record owner trashID;
  done ← batch_step (RestoreFromTrash owner trashID conflict (batch_key key index))
           (batch_item zero_path (TrashEntry_OriginalPath record) trashID);
  source ← lift (MustParseUserPath (slash :: trashID));
  mret (batch_item source (Item_Destination done) (Item_TrashID done)).

Definition BatchRestoreFromTrash (owner : UserID) (trashIDs : list gostring) (conflict key : gostring) : DriveM NamespaceBatchResult :=
  _ ← throw_if (batch_invalid owner trashIDs key) (NewError ErrorInvalid "invalid restore-trash batch");
  normalized ← lift (NormalizeConflictMode conflict);
  let fingerprint := operationFingerprint (normalized :: trashIDs) in
  prior ← replayMemoryBatch owner "batch-restore-trash" key fingerprint;
  match prior with
  | Some result => mret result
  | None =>
      _ ← lift (distinct_trash_ids [] trashIDs);
      run_batch owner "batch-restore-trash" key fingerprint (restore_step owner normalized key) trashIDs
  end.

Definition delete_step (owner : UserID) (key : gostring) (index : Z) (trashID : gostring) : DriveM NamespaceBatchItemResult :=
  record ← trash_record owner trashID;
  batch_step (DeleteFromTrash owner trashID (batch_key key index)) (batch_item (TrashEntry_OriginalPath record) zero_path trashID).

Definition BatchDeleteFromTrash (owner : UserID) (trashIDs : list gostring) (key : gostring) : DriveM NamespaceBatchResult :=
  _ ← throw_if (batch_invalid owner trashIDs key) (NewError ErrorInvalid "invalid delete-trash batch");
  let fingerprint := operationFingerprint trashIDs in
  prior ← replayMemoryBatch owner "batch-delete-trash" key fingerprint;
  match prior with
  | Some result => mret result
  | None =>
      _ ← lift (distinct_trash_ids [] trashIDs);
      run_batch owner "batch-delete-trash" key fingerprint (delete_step owner key) trashIDs
  end.

Definition GetBatchOperation (owner : UserID) (operationID : OperationID) : DriveM Operation := GetOperation ctx owner operationID.
End Trash.
End DriveTrash.
