(* ===== verification/DriveUpload.v ===== *)
(** * Uploads and downloads of the reference provider

    transfer.go, upload_admission.go, upload_actions.go and upload_lifecycle.go of
    internal/provider/memory: upload sessions and capabilities, their completion
    into files, and the HTTP data plane.  A session is a pointer in Go; here the
    map [uploads] holds its current value.  [net/http.DetectContentType] and
    [mime.FormatMediaType] are parameters. *)

From Stdlib Require Import ZArith Lia.
From S2P Require Import Prelude GoLib GoHash Errors DomainPath DomainIDs ObjectStore ObjectMemory GoJSON GoTime FileTypes DriveMemory DriveTrash.

Open Scope Z_scope.

(** [http.DetectContentType] *)
Class ContentSniffer := DetectContentType : gostring → gostring.
(** [mime.FormatMediaType(disposition, {"filename": name})] *)
Class MediaFormat := FormatMediaType : gostring → gostring → gostring.

Module DriveUpload.
Import FileTypes DriveMemory.

(** [session.batchID, session.batchIndex, session.batchCount = ...] *)
Definition with_batch (s : upload) (id : gostring) (index count : Z) : upload :=
  {| up_id := up_id s; up_scope := up_scope s; up_requestedPath := up_requestedPath s; up_path := up_path s; up_size :=
     up_size s; up_mediaType := up_mediaType s; up_conflict := up_conflict s; up_expectedVersion := up_expectedVersion s;
     up_targetExisted := up_targetExisted s; up_protocol := up_protocol s; up_expiresAt := up_expiresAt s; up_offset :=
     up_offset s; up_data := up_data s; up_materialized := up_materialized s; up_dataReceived := up_dataReceived s;
     up_capability := up_capability s; up_state := up_state s; up_capabilityHash := up_capabilityHash s; up_batchID := id;
     up_batchIndex := index; up_batchCount := count; up_completedEntry := up_completedEntry s; up_completedCRC32C :=
     up_completedCRC32C s |}.

(** [session.state = state] *)
Definition with_state (s : upload) (state : gostring) : upload :=
  {| up_id := up_id s; up_scope := up_scope s; up_requestedPath := up_requestedPath s; up_path := up_path s; up_size :=
     up_size s; up_mediaType := up_mediaType s; up_conflict := up_conflict s; up_expectedVersion := up_expectedVersion s;
     up_targetExisted := up_targetExisted s; up_protocol := up_protocol s; up_expiresAt := up_expiresAt s; up_offset :=
     up_offset s; up_data := up_data s; up_materialized := up_materialized s; up_dataReceived := up_dataReceived s;
     up_capability := up_capability s; up_state := state; up_capabilityHash := up_capabilityHash s; up_batchID :=
     up_batchID s; up_batchIndex := up_batchIndex s; up_batchCount := up_batchCount s; up_completedEntry :=
     up_completedEntry s; up_completedCRC32C := up_completedCRC32C s |}.

(** The session of a completed upload. *)
Definition with_completion (s : upload) (entry : Entry) (crc32c : gostring) : upload :=
  {| up_id := up_id s; up_scope := up_scope s; up_requestedPath := up_requestedPath s; up_path := up_path s; up_size :=
     up_size s; up_mediaType := up_mediaType s; up_conflict := up_conflict s; up_expectedVersion := up_expectedVersion s;
     up_targetExisted := up_targetExisted s; up_protocol := up_protocol s; up_expiresAt := up_expiresAt s; up_offset :=
     up_size s; up_data := up_data s; up_materialized := up_materialized s; up_dataReceived := up_dataReceived s;
     up_capability := up_capability s; up_state := UploadStateCompleted; up_capabilityHash := up_capabilityHash s;
     up_batchID := up_batchID s; up_batchIndex := up_batchIndex s; up_batchCount := up_batchCount s; up_completedEntry :=
     Some entry; up_completedCRC32C := crc32c |}.

(** The session after a simulated transfer up to [offset]. *)
Definition with_offset (s : upload) (offset : Z) : upload :=
  {| up_id := up_id s; up_scope := up_scope s; up_requestedPath := up_requestedPath s; up_path := up_path s; up_size :=
     up_size s; up_mediaType := up_mediaType s; up_conflict := up_conflict s; up_expectedVersion := up_expectedVersion s;
     up_targetExisted := up_targetExisted s; up_protocol := up_protocol s; up_expiresAt := up_expiresAt s; up_offset :=
     offset; up_data := []; up_materialized := false; up_dataReceived := up_dataReceived s; up_capability := up_capability
     s; up_state := up_state s; up_capabilityHash := up_capabilityHash s; up_batchID := up_batchID s; up_batchIndex :=
     up_batchIndex s; up_batchCount := up_batchCount s; up_completedEntry := up_completedEntry s; up_completedCRC32C :=
     up_completedCRC32C s |}.

(** The session after [accepted] was received. *)
Definition with_body (s : upload) (keep : bool) (accepted : gostring) : upload :=
  {| up_id := up_id s; up_scope := up_scope s; up_requestedPath := up_requestedPath s; up_path := up_path s; up_size :=
     up_size s; up_mediaType := up_mediaType s; up_conflict := up_conflict s; up_expectedVersion := up_expectedVersion s;
     up_targetExisted := up_targetExisted s; up_protocol := up_protocol s; up_expiresAt := up_expiresAt s; up_offset := i64
     (up_offset s + len accepted); up_data := if keep then up_data s ++ accepted else []; up_materialized := keep;
     up_dataReceived := true; up_capability := up_capability s; up_state := up_state s; up_capabilityHash :=
     up_capabilityHash s; up_batchID := up_batchID s; up_batchIndex := up_batchIndex s; up_batchCount := up_batchCount s;
     up_completedEntry := up_completedEntry s; up_completedCRC32C := up_completedCRC32C s |}.

Definition upload_not_found : error := NewError ErrorNotFound "upload not found".

Definition expired (now : Z) (s : upload) : bool := negb (now <? up_expiresAt s).

Definition session_state (now : Z) (s : upload) : gostring :=
  if bool_decide (up_state s = UploadStateActive) && expired now s then UploadStateExpired else up_state s.

Definition status_of (now : Z) (s : upload) (uploadID : UploadID) : UploadStatus :=
  let state := session_state now s in
  {| UStatus_UploadID := uploadID; UStatus_State := state; UStatus_Path := up_requestedPath s; UStatus_Protocol := up_protocol s;
     UStatus_ConfirmedOffset := up_offset s;
     UStatus_DataComplete := (bool_decide (state = UploadStateActive) || bool_decide (state = UploadStateCompleted))
       && (up_offset s =? up_size s) && ((0 <? up_size s) || up_dataReceived s || bool_decide (state = UploadStateCompleted));
     UStatus_DeclaredSize := up_size s; UStatus_ExpiresAt := up_expiresAt s |}.

(** The headers are copied, which is the identity on values. *)
Definition batch_capability (s : upload) : UploadCapability :=
  let c := up_capability s in
  {| UCap_UploadID := UCap_UploadID c; UCap_Protocol := UCap_Protocol c; UCap_URL := UCap_URL c; UCap_Method := UCap_Method c;
     UCap_Headers := UCap_Headers c; UCap_ExpiresAt := UCap_ExpiresAt c; UCap_ChunkRules := UCap_ChunkRules c;
     UCap_Framing := UCap_Framing c; UCap_DeclaredSize := UCap_DeclaredSize c; UCap_BatchID := up_batchID s;
     UCap_BatchIndex := up_batchIndex s; UCap_BatchCount := up_batchCount s |}.

Definition in_batch (c : UploadCapability) (id : gostring) (index count : Z) : UploadCapability :=
  {| UCap_UploadID := UCap_UploadID c; UCap_Protocol := UCap_Protocol c; UCap_URL := UCap_URL c; UCap_Method := UCap_Method c;
     UCap_Headers := UCap_Headers c; UCap_ExpiresAt := UCap_ExpiresAt c; UCap_ChunkRules := UCap_ChunkRules c;
     UCap_Framing := UCap_Framing c; UCap_DeclaredSize := UCap_DeclaredSize c; UCap_BatchID := id;
     UCap_BatchIndex := index; UCap_BatchCount := count |}.

(** A bare sentinel, [domain.ErrInvalid] and the like *)
Definition retryable (err : error) : bool :=
  errors_Is err ErrUnavailable || errors_Is err ErrRateLimited || errors_Is err ErrInternal.

Section Upload.
Context `{NFC} `{MapOrder} `{SHA256} `{MIME} `{ContentSniffer} `{MediaFormat}.
Variables (ctx : context) (now : Z).

(** ** Creating *)

Definition upload_fingerprint (scope : Scope) (request : CreateUploadRequest) (mediaType conflict : gostring) : gostring :=
  operationFingerprint [userID_value (scope_userID scope); String (CUpload_Path request); Itoa (CUpload_Size request); mediaType; conflict;
    CUpload_ExpectedVersion request; Sprint_bool (CUpload_Resumable request)].

(** The path an upload will be stored at, and whether it replaces something. *)
Definition upload_target (scope : Scope) (request : CreateUploadRequest) (conflict : gostring) : DriveM (UserPath * bool) :=
  items ← gets (scopeObjects scope);
  match items !! String (CUpload_Path request) with
  | None => mret (CUpload_Path request, false)
  | Some existing =>
      if bool_decide (conflict = ConflictFail) then throw (NewError ErrorConflict "upload destination already exists")
      else if bool_decide (conflict = ConflictReplace) then
        _ ← throw_if (bool_decide (CUpload_ExpectedVersion request = [])
                      || bool_decide (CUpload_ExpectedVersion request ≠ Entry_Version (obj_entry existing)))
              (NewError ErrorPreconditionFailed "upload destination version does not match");
        mret (CUpload_Path request, true)
      else path ← availableRenamedPathLocked scope (CUpload_Path request); mret (path, false)
  end.

Definition createUpload (scope : Scope) (request : CreateUploadRequest) : DriveM UploadCapability :=
  _ ← lift (validateContextScope ctx scope);
  _ ← throw_if (negb (Valid (CUpload_Path request)) || IsRoot (CUpload_Path request) || (CUpload_Size request <? 0))
        (NewError ErrorInvalid "invalid upload destination or size");
  mediaType ← lift (NormalizeMediaType (CUpload_MediaType request));
  conflict ← lift (NormalizeConflictMode (CUpload_Conflict request));
  _ ← lift (validateIdempotencyKey (CUpload_IdempotencyKey request));
  let fingerprint := upload_fingerprint scope request mediaType conflict in
  let key := idempotencyKey (scope_userID scope) OperationCreateUpload (CUpload_IdempotencyKey request) in
  let keyed := bool_decide (CUpload_IdempotencyKey request ≠ []) in
  saved ← gets uploadIdempotency;
  match (if keyed then saved !! key else None) with
  | Some prior =>
      _ ← throw_if (bool_decide (iu_fingerprint prior ≠ fingerprint))
            (NewError ErrorConflict "idempotency key was used for a different request");
      mret (iu_capability prior)
  | None =>
      _ ← beforeLocked OperationCreateUpload;
      url ← gets baseURL;
      _ ← throw_if (bool_decide (url = [])) (NewError ErrorUnavailable "mock data plane URL is not configured");
      _ ← requireParentLocked scope (CUpload_Path request);
      '(path, targetExisted) ← upload_target scope request conflict;
      let resumable := CUpload_Resumable request in
      conf ← gets options;
      _ ← throw_if (negb resumable && (MaxMaterializedBytes conf <? CUpload_Size request))
            (NewError ErrorInvalid "large uploads must be resumable");
      uploadID ← draw_id OpaqueID;
      token ← draw_id BearerToken;
      late ← consumeSpecificFaultLocked OperationCreateUpload FaultExpired;
      let expiresAt := if (late : bool) then now - second else now + UploadTTL conf in
      let protocol := if resumable then ObjectStore.UploadResumable else ObjectStore.UploadSingle in
      let hash := sha256 token in
      let headers0 : gmap gostring gostring := {[ bs "Content-Type" := mediaType ]} in
      let capability := {|
        UCap_UploadID := uploadID; UCap_Protocol := protocol; UCap_URL := url ++ "/cap/upload/" ++ token;
        UCap_Method := bs (if resumable then "PATCH" else "PUT");
        UCap_Headers := if resumable then <[bs "Upload-Offset" := bs "0"]> headers0 else headers0; UCap_ExpiresAt := expiresAt;
        UCap_ChunkRules := if resumable then Some (ChunkRules conf) else None;
        UCap_Framing := if resumable then ObjectStore.UploadFramingOffsetHeader else ObjectStore.UploadFramingWholeObject;
        UCap_DeclaredSize := CUpload_Size request; UCap_BatchID := []; UCap_BatchIndex := 0; UCap_BatchCount := 0 |} in
      let session := {|
        up_id := uploadID; up_scope := scope; up_requestedPath := CUpload_Path request; up_path := path; up_size := CUpload_Size request;
        up_mediaType := mediaType; up_conflict := conflict; up_expectedVersion := CUpload_ExpectedVersion request;
        up_targetExisted := targetExisted; up_protocol := protocol; up_expiresAt := expiresAt; up_offset := 0; up_data := [];
        up_materialized := true; up_dataReceived := false; up_capability := capability; up_state := UploadStateActive;
        up_capabilityHash := hash; up_batchID := []; up_batchIndex := 0; up_batchCount := 0; up_completedEntry := None;
        up_completedCRC32C := [] |} in
      _ ← modify (upd_uploads (insert uploadID session));
      _ ← modify (upd_uploadTokens (insert hash uploadID));
      _ ← modify (if keyed then upd_uploadIdempotency (insert key {| iu_fingerprint := fingerprint; iu_capability := capability |})
                  else λ p, p);
      mret capability
  end.

Definition CreateUpload : Scope → CreateUploadRequest → DriveM UploadCapability := createUpload.

Fixpoint create_each (scope : Scope) (requests : list CreateUploadRequest) : DriveM (list UploadCapability) :=
  match requests with
  | [] => mret []
  | request :: requests =>
      capability ← createUpload scope request;
      rest ← create_each scope requests;
      mret (capability :: rest)
  end.

(** [rollback]: what did not exist before is removed. *)
Definition keep_known {A} (known : gmap gostring A) (m : gmap gostring A) : gmap gostring A :=
  filter (λ kv, is_Some (known !! fst kv)) m.

Definition rollback_uploads (before p : Provider) : Provider :=
  upd_uploads (keep_known (uploads before)) (upd_uploadTokens (keep_known (uploadTokens before))
    (upd_uploadIdempotency (keep_known (uploadIdempotency before)) p)).

Fixpoint assign_batch (batchID : gostring) (index count : Z) (capabilities : list UploadCapability) : DriveM (list UploadCapability) :=
  match capabilities with
  | [] => mret []
  | capability :: capabilities =>
      sessions ← gets uploads;
      match sessions !! UCap_UploadID capability with
      | None => throw ObjectStore.panic
      | Some session =>
          _ ← modify (upd_uploads (insert (UCap_UploadID capability) (with_batch session batchID index count)));
          rest ← assign_batch batchID (index + 1) count capabilities;
          mret (in_batch capability batchID index count :: rest)
      end
  end.

Definition CreateUploadBatch (scope : Scope) (requests : list CreateUploadRequest) : DriveM (list UploadCapability) :=
  _ ← throw_if ((len requests <? 1) || (10000 <? len requests)) (NewError ErrorInvalid "upload batch must contain 1 to 10000 items");
  before ← get;
  capabilities ← or_undo (create_each scope requests) (rollback_uploads before);
  let batchID := operationFingerprint (userID_value (scope_userID scope) :: map UCap_UploadID capabilities) in
  assign_batch batchID 0 (len capabilities) capabilities.

(** ** Status *)

Definition find_upload (scope : Scope) (uploadID : UploadID) : DriveM upload :=
  sessions ← gets uploads;
  match sessions !! uploadID with
  | None => throw upload_not_found
  | Some session => _ ← throw_if (bool_decide (up_scope session ≠ scope)) upload_not_found; mret session
  end.

Definition UploadStatus_ (scope : Scope) (uploadID : UploadID) : DriveM UploadStatus :=
  _ ← lift (validateContextScope ctx scope);
  _ ← throw_if (bool_decide (uploadID = [])) (NewError ErrorInvalid "upload ID is required");
  session ← find_upload scope uploadID;
  mret (status_of now session uploadID).

Definition ResumeUpload (scope : Scope) (uploadID : UploadID) : DriveM UploadCapability :=
  _ ← lift (validateContextScope ctx scope);
  _ ← throw_if (bool_decide (uploadID = [])) (NewError ErrorInvalid "upload ID is required");
  session ← find_upload scope uploadID;
  _ ← throw_if (bool_decide (up_state session ≠ UploadStateActive) || expired now session)
        (NewError ErrorConflict "upload is no longer active");
  mret (batch_capability session).

Definition UploadOffset (scope : Scope) (uploadID : UploadID) : DriveM Z :=
  _ ← lift (validateContextScope ctx scope);
  session ← find_upload scope uploadID;
  mret (up_offset session).

Definition SimulateUploadOffset (scope : Scope) (uploadID : UploadID) (offset : Z) : DriveM unit :=
  _ ← lift (validateContextScope ctx scope);
  session ← find_upload scope uploadID;
  _ ← throw_if (bool_decide (up_protocol session ≠ ObjectStore.UploadResumable) || (offset <? up_offset session) || (up_size session <? offset))
        (NewError ErrorInvalid "invalid simulated upload offset");
  modify (upd_uploads (insert uploadID (with_offset session offset))).

(** ** Completing *)

Definition octet_stream : gostring := "application/octet-stream".

Definition sniffed (declared : gostring) : bool :=
  existsb (λ t, bool_decide (declared = bs t)) ["image/png"; "image/jpeg"; "image/gif"; "image/webp"; "application/pdf"; "text/plain"]%string.

Definition trustedMediaType (declared data : gostring) (materialized : bool) : gostring :=
  if sniffed declared then
    if negb materialized then octet_stream
    else match ParseMediaType (DetectContentType data) with
         | None => octet_stream
         | Some detected =>
             if bool_decide (detected ≠ declared) then octet_stream
             else if bool_decide (declared = bs "text/plain") && negb (ValidString data) then octet_stream
             else declared
         end
  else declared.

(** The checks of [completeUpload]; the session may be completed. *)
Definition check_completion (scope : Scope) (request : CompleteUploadRequest) (mediaType : gostring) : DriveM upload :=
  session ← find_upload scope (Complete_UploadID request);
  _ ← throw_if (bool_decide (up_state session ≠ UploadStateActive)) upload_not_found;
  _ ← throw_if (expired now session) (NewError ErrorPreconditionFailed "upload capability expired");
  _ ← throw_if (bool_decide (Complete_Path request ≠ up_requestedPath session) || negb (Complete_Size request =? up_size session)
                || bool_decide (mediaType ≠ up_mediaType session))
        (NewError ErrorPreconditionFailed "upload constraints do not match initiation");
  _ ← throw_if (negb (up_offset session =? up_size session)) (NewError ErrorPreconditionFailed "upload is incomplete");
  mismatch ← consumeSpecificFaultLocked OperationCompleteUpload FaultChecksumMismatch;
  _ ← throw_if (mismatch : bool) (NewError ErrorPreconditionFailed "upload checksum does not match");
  items ← gets (scopeObjects scope);
  let current := items !! String (up_path session) in
  _ ← (if up_targetExisted session
       then throw_if (match current with
                      | Some item => bool_decide (Entry_Version (obj_entry item) ≠ up_expectedVersion session)
                      | None => true
                      end) (NewError ErrorPreconditionFailed "upload destination changed")
       else throw_if (bool_decide (is_Some current)) (NewError ErrorConflict "upload destination appeared during transfer"));
  mret session.

Definition completeUpload (scope : Scope) (request : CompleteUploadRequest) : DriveM Entry :=
  _ ← lift (validateContextScope ctx scope);
  _ ← throw_if (bool_decide (Complete_UploadID request = []) || negb (Valid (Complete_Path request)) || (Complete_Size request <? 0))
        (NewError ErrorInvalid "invalid upload completion");
  mediaType ← lift (NormalizeMediaType (Complete_MediaType request));
  _ ← beforeLocked OperationCompleteUpload;
  session ← check_completion scope request mediaType;
  let data := up_data session in
  let stored := trustedMediaType (up_mediaType session) data (up_materialized session) in
  entry ← newFileEntryLocked now (up_path session) (up_size session) stored;
  original ← gets (scopeObjects scope);
  _ ← modify (if up_targetExisted session then deleteTreeLocked scope (up_path session) else λ p, p);
  _ ← modify (on_scope scope (insert (String (up_path session))
        {| obj_entry := entry; obj_data := data; obj_materialized := up_materialized session |}));
  _ ← or_undo (recomputeRecursiveBytesLocked scope) (on_scope scope (λ _, original));
  _ ← modify (upd_uploadTokens (delete (up_capabilityHash session)));
  let crc32c := if up_materialized session then Integrity.CRC32C data else Complete_CRC32C request in
  _ ← modify (upd_uploads (insert (Complete_UploadID request) (with_completion session entry crc32c)));
  mret entry.

Definition CompleteUpload : Scope → CompleteUploadRequest → DriveM Entry := completeUpload.

Definition abortUpload (scope : Scope) (uploadID : UploadID) : DriveM unit :=
  _ ← lift (validateContextScope ctx scope);
  _ ← throw_if (bool_decide (uploadID = [])) (NewError ErrorInvalid "upload ID is required");
  _ ← beforeLocked OperationAbortUpload;
  session ← find_upload scope uploadID;
  _ ← throw_if (bool_decide (up_state session ≠ UploadStateActive)) upload_not_found;
  _ ← modify (upd_uploads (insert uploadID (with_state session UploadStateAborted)));
  modify (upd_uploadTokens (delete (up_capabilityHash session))).

Definition AbortUpload : Scope → UploadID → DriveM unit := abortUpload.

(** ** Batches *)

Fixpoint check_completions (seen : list UploadID) (items : list CompleteUploadBatchItem) : res unit :=
  match items with
  | [] => Ok tt
  | item :: items =>
      _ ← guard_err (bool_decide (CItem_UploadID item = [])) (NewError ErrorInvalid "invalid upload completion item");
      _ ← guard_err (negb (bool_decide (is_Some (Integrity.ParseCRC32C (CItem_CRC32C item)))))
            (NewError ErrorInvalid "invalid upload completion checksum");
      _ ← guard_err (bool_decide (CItem_UploadID item ∈ seen)) (NewError ErrorInvalid "upload completion batch repeats an upload");
      check_completions (CItem_UploadID item :: seen) items
  end.

Fixpoint completions_of (scope : Scope) (items : list CompleteUploadBatchItem) : DriveM (list CompleteUploadRequest) :=
  match items with
  | [] => mret []
  | item :: items =>
      session ← find_upload scope (CItem_UploadID item);
      _ ← throw_if (bool_decide (up_state session ≠ UploadStateActive)) upload_not_found;
      _ ← throw_if (negb (up_materialized session) || bool_decide (Integrity.CRC32C (up_data session) ≠ CItem_CRC32C item))
            (NewError ErrorPreconditionFailed "upload checksum does not match");
      rest ← completions_of scope items;
      mret ({| Complete_UploadID := CItem_UploadID item; Complete_Path := up_requestedPath session; Complete_Size := up_size session;
               Complete_MediaType := up_mediaType session; Complete_CRC32C := CItem_CRC32C item |} :: rest)
  end.

Fixpoint complete_each (scope : Scope) (requests : list CompleteUploadRequest) : DriveM (list Entry) :=
  match requests with
  | [] => mret []
  | request :: requests =>
      entry ← completeUpload scope request;
      rest ← complete_each scope requests;
      mret (entry :: rest)
  end.

(** [p.uploads[id] = original[id]] for the given uploads *)
Definition restore_sessions (before : Provider) (uploadIDs : list UploadID) (m : gmap gostring upload) : gmap gostring upload :=
  foldr (λ id m, match uploads before !! id with Some session => <[id := session]> m | None => m end) m uploadIDs.

Definition CompleteUploadBatch (scope : Scope) (request : CompleteUploadBatchRequest) : DriveM (list Entry) :=
  _ ← lift (validateContextScope ctx scope);
  let items := CBatch_Items request in
  _ ← throw_if ((len items <? 1) || (10000 <? len items) || negb (is_Ok (validateIdempotencyKey (CBatch_IdempotencyKey request))))
        (NewError ErrorInvalid "invalid upload completion batch");
  _ ← lift (check_completions [] items);
  let fingerprint := operationFingerprint (Itoa (len items) :: concat (map (λ i, [CItem_UploadID i; CItem_CRC32C i]) items)) in
  let key := idempotencyKey (scope_userID scope) OperationCompleteUploads (CBatch_IdempotencyKey request) in
  saved ← gets uploadCompletions;
  match saved !! key with
  | Some prior =>
      _ ← throw_if (bool_decide (ic_fingerprint prior ≠ fingerprint))
            (NewError ErrorConflict "idempotency key was used for a different request");
      mret (ic_result prior)
  | None =>
      before ← get;
      completions ← completions_of scope items;
      entries ← or_undo (complete_each scope completions) (λ p,
        on_scope scope (λ _, scopeObjects scope before) (upd_uploadTokens (λ _, uploadTokens before)
          (upd_uploads (restore_sessions before (map CItem_UploadID items)) p)));
      _ ← modify (upd_uploadCompletions (insert key {| ic_fingerprint := fingerprint; ic_result := entries |}));
      mret entries
  end.

Definition validMemoryBatchID (value : gostring) : bool :=
  match b64_decode value with
  | Some decoded => (len decoded =? 32) && bool_decide (b64_encode decoded = value)
  | None => false
  end.

Fixpoint check_aborts (seen : list UploadID) (uploadIDs : list UploadID) : res unit :=
  match uploadIDs with
  | [] => Ok tt
  | uploadID :: uploadIDs =>
      _ ← guard_err (bool_decide (uploadID = [])) (NewError ErrorInvalid "invalid upload cancellation item");
      _ ← guard_err (bool_decide (uploadID ∈ seen)) (NewError ErrorInvalid "upload cancellation batch repeats an upload");
      check_aborts (uploadID :: seen) uploadIDs
  end.

Definition check_abort (scope : Scope) (request : AbortUploadBatchRequest) (uploadID : UploadID) : DriveM unit :=
  session ← find_upload scope uploadID;
  _ ← throw_if (bool_decide (up_state session ≠ UploadStateActive)) upload_not_found;
  throw_if (bool_decide (ABatch_BatchID request ≠ [])
            && (bool_decide (up_batchID session ≠ ABatch_BatchID request) || negb (up_batchCount session =? len (ABatch_UploadIDs request))))
    (NewError ErrorConflict "upload cancellation does not match one complete admitted batch").

Definition AbortUploadBatch (scope : Scope) (request : AbortUploadBatchRequest) : DriveM unit :=
  _ ← lift (validateContextScope ctx scope);
  let uploadIDs := ABatch_UploadIDs request in
  _ ← throw_if ((len uploadIDs <? 1) || (10000 <? len uploadIDs) || negb (is_Ok (validateIdempotencyKey (ABatch_IdempotencyKey request)))
                || (bool_decide (ABatch_BatchID request ≠ []) && negb (validMemoryBatchID (ABatch_BatchID request))))
        (NewError ErrorInvalid "invalid upload cancellation batch");
  _ ← lift (check_aborts [] uploadIDs);
  let fingerprint := operationFingerprint (Itoa (len uploadIDs) :: ABatch_BatchID request :: uploadIDs) in
  let key := idempotencyKey (scope_userID scope) OperationAbortUploads (ABatch_IdempotencyKey request) in
  saved ← gets uploadAborts;
  match saved !! key with
  | Some prior =>
      throw_if (bool_decide (prior ≠ fingerprint)) (NewError ErrorConflict "idempotency key was used for a different request")
  | None =>
      before ← get;
      _ ← forM_ uploadIDs (check_abort scope request);
      _ ← or_undo (forM_ uploadIDs (abortUpload scope)) (λ p,
            upd_uploadTokens (λ _, uploadTokens before) (upd_uploads (restore_sessions before uploadIDs) p));
      modify (upd_uploadAborts (insert key fingerprint))
  end.

(** ** upload_lifecycle.go *)

Fixpoint check_ids (text : gostring) (seen : list UploadID) (uploadIDs : list UploadID) : res unit :=
  match uploadIDs with
  | [] => Ok tt
  | uploadID :: uploadIDs =>
      _ ← guard_err (bool_decide (uploadID = []) || (256 <? len uploadID) || bool_decide (uploadID ∈ seen)) (NewError ErrorInvalid text);
      check_ids text (uploadID :: seen) uploadIDs
  end.

Definition lifecycle_item (sessions : gmap gostring upload) (scope : Scope) (resume : bool) (index : nat) (uploadID : UploadID) :
    UploadLifecycleItem :=
  let item status capability kind action :=
    {| Life_Index := Z.of_nat index; Life_UploadID := uploadID; Life_Status := status; Life_Capability := capability;
       Life_ErrorKind := kind; Life_NextAction := action |} in
  match sessions !! uploadID with
  | None => item None None ErrorNotFound "attention"
  | Some session =>
      if bool_decide (up_scope session ≠ scope) then item None None ErrorNotFound "attention"
      else
        let status := status_of now session uploadID in
        let state := UStatus_State status in
        if bool_decide (state = UploadStateExpired) || bool_decide (state = UploadStateAborted) then item (Some status) None [] "restart"
        else if bool_decide (state = UploadStateCompleted) then item (Some status) None [] "done"
        else if UStatus_DataComplete status then item (Some status) None [] "complete"
        else if resume then item (Some status) (Some (batch_capability session)) [] "transfer"
        else item (Some status) None [] "resume"
  end.

Definition UploadLifecycle (scope : Scope) (uploadIDs : list UploadID) (resume : bool) : DriveM (list UploadLifecycleItem) :=
  _ ← lift (validateContextScope ctx scope);
  _ ← throw_if ((len uploadIDs <? 1) || (MaxUploadLifecycleItems <? len uploadIDs))
        (NewError ErrorInvalid "invalid upload recovery page size");
  _ ← lift (check_ids "invalid or repeated upload recovery ID" [] uploadIDs);
  sessions ← gets uploads;
  mret (imap (lifecycle_item sessions scope resume) uploadIDs).

(** ** upload_actions.go *)

Definition action_result (index : Z) (item : UploadActionItem) (status : option UploadStatus) (entry : option Entry)
    (outcome next : gostring) : UploadActionResult :=
  {| ActionResult_Index := index; ActionResult_UploadID := Action_UploadID item; ActionResult_Action := Action_Action item;
     ActionResult_Outcome := outcome; ActionResult_Status := status; ActionResult_Entry := entry; ActionResult_ErrorKind := [];
     ActionResult_Retryable := false; ActionResult_NextAction := next |}.

(** [fail(err)] *)
Definition action_failure (index : Z) (item : UploadActionItem) (status : option UploadStatus) (err : error) : UploadActionResult :=
  {| ActionResult_Index := index; ActionResult_UploadID := Action_UploadID item; ActionResult_Action := Action_Action item;
     ActionResult_Outcome := if retryable err then "retryable" else "rejected"; ActionResult_Status := status;
     ActionResult_Entry := None; ActionResult_ErrorKind := KindOf err; ActionResult_Retryable := retryable err;
     ActionResult_NextAction := if retryable err then "retry" else "attention" |}.

(** [fail(err); result.NextAction = "restart"] *)
Definition action_restart (r : UploadActionResult) : UploadActionResult :=
  {| ActionResult_Index := ActionResult_Index r; ActionResult_UploadID := ActionResult_UploadID r; ActionResult_Action := ActionResult_Action r;
     ActionResult_Outcome := ActionResult_Outcome r; ActionResult_Status := ActionResult_Status r; ActionResult_Entry := ActionResult_Entry r;
     ActionResult_ErrorKind := ActionResult_ErrorKind r; ActionResult_Retryable := ActionResult_Retryable r;
     ActionResult_NextAction := "restart" |}.

Definition with_status (s : UploadStatus) (state : gostring) (complete : bool) (offset : Z) : UploadStatus :=
  {| UStatus_UploadID := UStatus_UploadID s; UStatus_State := state; UStatus_Path := UStatus_Path s; UStatus_Protocol := UStatus_Protocol s;
     UStatus_ConfirmedOffset := offset; UStatus_DataComplete := complete; UStatus_DeclaredSize := UStatus_DeclaredSize s;
     UStatus_ExpiresAt := UStatus_ExpiresAt s |}.

(** An outcome as a value: [x, err := m] *)
Definition outcome {A} (m : DriveM A) : DriveM (res A) := λ p, let '(r, p') := m p in (Ok r, p').

Definition is_action (item : UploadActionItem) (action : gostring) : bool := bool_decide (Action_Action item = action).

Definition run_action (scope : Scope) (index : Z) (item : UploadActionItem) (copy : upload) (status : UploadStatus) : DriveM UploadActionResult :=
  let conflict := SentinelError ErrConflict in
  if bool_decide (up_state copy = UploadStateCompleted) then
    mret (if is_action item "complete" && bool_decide (up_completedCRC32C copy ≠ Action_CRC32C item)
          then action_failure index item (Some status) conflict
          else action_result index item (Some status) (up_completedEntry copy)
                 (if is_action item "cancel" then "already_completed" else "already_applied") "done")
  else if bool_decide (up_state copy = UploadStateAborted) then
    mret (if is_action item "cancel" then action_result index item (Some status) None "already_applied" "done"
          else action_restart (action_failure index item (Some status) conflict))
  else if is_action item "complete" then
    if bool_decide (UStatus_State status = UploadStateExpired)
    then mret (action_restart (action_failure index item (Some status) conflict))
    else if negb (up_materialized copy) || bool_decide (Integrity.CRC32C (up_data copy) ≠ Action_CRC32C item)
    then mret (action_failure index item (Some status) (SentinelError ErrPreconditionFailed))
    else
      completed ← outcome (completeUpload scope
        {| Complete_UploadID := Action_UploadID item; Complete_Path := up_requestedPath copy; Complete_Size := up_size copy;
           Complete_MediaType := up_mediaType copy; Complete_CRC32C := Action_CRC32C item |});
      mret match completed with
           | Err err => action_failure index item (Some status) err
           | Ok entry => action_result index item (Some (with_status status UploadStateCompleted true (up_size copy))) (Some entry) "applied" "done"
           end
  else
    aborted ← outcome (abortUpload scope (Action_UploadID item));
    mret match aborted with
         | Err err => action_failure index item (Some status) err
         | Ok _ => action_result index item
                     (Some (with_status status UploadStateAborted (UStatus_DataComplete status) (UStatus_ConfirmedOffset status))) None
                     "applied" "done"
         end.

Definition invalid_action (item : UploadActionItem) : bool :=
  (negb (is_action item "complete") && negb (is_action item "cancel"))
  || (is_action item "cancel" && bool_decide (Action_CRC32C item ≠ []))
  || (is_action item "complete" && negb (bool_decide (is_Some (Integrity.ParseCRC32C (Action_CRC32C item))))).

Definition upload_action (scope : Scope) (index : Z) (item : UploadActionItem) : DriveM UploadActionResult :=
  if invalid_action item then mret (action_failure index item None (SentinelError ErrInvalid))
  else
    sessions ← gets uploads;
    match sessions !! Action_UploadID item with
    | None => mret (action_failure index item None (SentinelError ErrNotFound))
    | Some copy =>
        if bool_decide (up_scope copy ≠ scope) then mret (action_failure index item None (SentinelError ErrNotFound))
        else
          status ← outcome (UploadStatus_ scope (Action_UploadID item));
          match status with
          | Err err => mret (action_failure index item None err)
          | Ok status => run_action scope index item copy status
          end
    end.

Fixpoint action_loop (scope : Scope) (index : Z) (items : list UploadActionItem) : DriveM (list UploadActionResult) :=
  match items with
  | [] => mret []
  | item :: items =>
      result ← upload_action scope index item;
      rest ← action_loop scope (index + 1) items;
      mret (result :: rest)
  end.

(** The context does not end during a call. *)
Definition UploadActions (scope : Scope) (items : list UploadActionItem) : DriveM (list UploadActionResult) :=
  _ ← lift (validateContextScope ctx scope);
  _ ← throw_if ((len items <? 1) || (MaxUploadLifecycleItems <? len items)) (NewError ErrorInvalid "invalid upload action page size");
  _ ← lift (check_ids "invalid or repeated upload action ID" [] (map Action_UploadID items));
  action_loop scope 0 items.

(** ** upload_admission.go *)

Fixpoint check_admissions (seen : list gostring) (keys : list gostring) : res unit :=
  match keys with
  | [] => Ok tt
  | key :: keys =>
      _ ← guard_err ((len key <? 16) || negb (is_Ok (validateIdempotencyKey key)) || bool_decide (key ∈ seen))
            (NewError ErrorInvalid "invalid or repeated admission key");
      check_admissions (key :: seen) keys
  end.

Definition admission (index : Z) (request : CreateUploadRequest) (uploadID : UploadID) (status : option UploadStatus)
    (capability : option UploadCapability) (result next : gostring) (kind : gostring) (again : bool) : UploadAdmissionResult :=
  {| Admission_Index := index; Admission_ID := CUpload_IdempotencyKey request; Admission_UploadID := uploadID; Admission_Outcome := result;
     Admission_Status := status; Admission_Capability := capability; Admission_ErrorKind := kind; Admission_Retryable := again;
     Admission_NextAction := next |}.

Definition admitted (index : Z) (request : CreateUploadRequest) (existed : bool) (capability : UploadCapability) (status : UploadStatus) :
    UploadAdmissionResult :=
  let state := UStatus_State status in
  let result := admission index request (UCap_UploadID capability) (Some status) in
  if bool_decide (state = UploadStateCompleted) then result None "completed" "done" [] false
  else if bool_decide (state = UploadStateExpired) || bool_decide (state = UploadStateAborted) then result None state "restart" [] false
  else
    let accepted := bs (if existed then "already_accepted" else "accepted") in
    if UStatus_DataComplete status then result None accepted "complete" [] false
    else result (Some capability) accepted "transfer" [] false.

Definition admit_upload (scope : Scope) (index : Z) (request : CreateUploadRequest) : DriveM UploadAdmissionResult :=
  saved ← gets uploadIdempotency;
  let existed := bool_decide (is_Some (saved !! idempotencyKey (scope_userID scope) OperationCreateUpload (CUpload_IdempotencyKey request))) in
  created ← outcome (createUpload scope request);
  match created with
  | Err err =>
      mret (admission index request [] None None (if retryable err then "retryable" else "rejected")
              (if retryable err then "retry" else "attention") (KindOf err) (retryable err))
  | Ok capability =>
      status ← UploadStatus_ scope (UCap_UploadID capability);
      mret (admitted index request existed capability status)
  end.

Fixpoint admission_loop (scope : Scope) (index : Z) (requests : list CreateUploadRequest) : DriveM (list UploadAdmissionResult) :=
  match requests with
  | [] => mret []
  | request :: requests =>
      result ← admit_upload scope index request;
      rest ← admission_loop scope (index + 1) requests;
      mret (result :: rest)
  end.

Definition AdmitUploads (scope : Scope) (requests : list CreateUploadRequest) : DriveM (list UploadAdmissionResult) :=
  _ ← lift (validateContextScope ctx scope);
  _ ← throw_if ((len requests <? 1) || (MaxUploadLifecycleItems <? len requests)) (NewError ErrorInvalid "invalid admission page size");
  _ ← lift (check_admissions [] (map CUpload_IdempotencyKey requests));
  admission_loop scope 0 requests.

(** ** Downloads *)

Definition CreateDownload (scope : Scope) (request : CreateDownloadRequest) : DriveM DownloadCapability :=
  _ ← lift (validateContextScope ctx scope);
  _ ← throw_if (negb (Valid (CDownload_Path request)) || IsRoot (CDownload_Path request)) (NewError ErrorInvalid "download path is invalid");
  let disposition := if bool_decide (CDownload_Disposition request = []) then ObjectStore.DispositionAttachment
                     else CDownload_Disposition request in
  _ ← throw_if (bool_decide (disposition ≠ ObjectStore.DispositionAttachment) && bool_decide (disposition ≠ ObjectStore.DispositionInline))
        (NewError ErrorInvalid "invalid download disposition");
  _ ← beforeLocked OperationCreateDownload;
  items ← gets (scopeObjects scope);
  match items !! String (CDownload_Path request) with
  | None => throw (NewError ErrorNotFound "file not found")
  | Some item =>
      _ ← throw_if (negb (is_file item)) (NewError ErrorNotFound "file not found");
      _ ← throw_if (bool_decide (CDownload_Version request = [])
                    || bool_decide (CDownload_Version request ≠ Entry_Version (obj_entry item)))
            (NewError ErrorPreconditionFailed "download version does not match");
      url ← gets baseURL;
      _ ← throw_if (bool_decide (url = [])) (NewError ErrorUnavailable "mock data plane URL is not configured");
      token ← draw_id BearerToken;
      conf ← gets options;
      late ← consumeSpecificFaultLocked OperationCreateDownload FaultExpired;
      let expiresAt := if (late : bool) then now - second else now + Z.min (DownloadTTL conf) (600 * second) in
      _ ← modify (upd_downloads (insert (sha256 token)
            {| down_scope := scope; down_path := CDownload_Path request; down_version := CDownload_Version request;
               down_disposition := disposition; down_expiresAt := expiresAt |}));
      mret {| DCap_URL := url ++ "/cap/download/" ++ token; DCap_Method := "GET"; DCap_Headers := ∅; DCap_ExpiresAt := expiresAt |}
  end.

(** ** The data plane *)

Record Request := {
  Request_Method : gostring;
  Request_Path : gostring;
  Request_Origin : gostring;
  Request_ContentType : gostring;
  Request_UploadOffset : gostring;
  Request_Range : gostring;
  Request_Body : gostring;
  Request_BodyError : bool;  (** reading past [Request_Body] fails *)
}.

Abbreviation Response := MemoryBackend.Response.
Abbreviation reply := MemoryBackend.reply.
Abbreviation NotFound := MemoryBackend.NotFound.
Abbreviation ServeM := (GoM Provider Response).

Definition writeDataPlaneError (err : error) : Response :=
  let kind := KindOf err in
  if bool_decide (kind = ErrorRateLimited) then reply 429 ∅ "temporarily unavailable"
  else if bool_decide (kind = ErrorUnavailable) then reply 503 ∅ "temporarily unavailable"
  else if bool_decide (kind = ErrorConflict) || bool_decide (kind = ErrorPreconditionFailed) then reply 409 ∅ "request conflict"
  else reply 404 ∅ "request unavailable".

(** [if err := p.beforeLocked(op); err != nil { writeDataPlaneError; return }] *)
Definition serve_before (operation : gostring) : ServeM unit := λ p,
  match beforeLocked operation p with
  | (Ok _, p) => (Ok tt, p)
  | (Err err, p) => (Err (writeDataPlaneError err), p)
  end.

Definition parseOffset (value : gostring) : option Z :=
  match ParseInt value with
  | Some offset => if offset <? 0 then None else Some offset
  | None => None
  end.

(** [io.ReadAll(io.LimitReader(body, n))]: the bytes read, and whether it failed. *)
Definition read_limited (request : Request) (n : Z) : gostring * bool :=
  let n := Z.to_nat n in
  (take n (Request_Body request), Request_BodyError request && (length (Request_Body request) <? n)%nat).

Definition count_upload (n : Z) (i : Instrumentation) : Instrumentation :=
  {| ProviderCalls := ProviderCalls i; ControlPlaneBytes := ControlPlaneBytes i; UploadBytes := i64 (UploadBytes i + n);
     DownloadBytes := DownloadBytes i |}.
Definition count_download (n : Z) (i : Instrumentation) : Instrumentation :=
  {| ProviderCalls := ProviderCalls i; ControlPlaneBytes := ControlPlaneBytes i; UploadBytes := UploadBytes i;
     DownloadBytes := i64 (DownloadBytes i + n) |}.

Definition is_resumable (s : upload) : bool := bool_decide (up_protocol s = ObjectStore.UploadResumable).

(** The checks of [serveUpload], up to the body it may accept. *)
Definition upload_checks (request : Request) (token : gostring) : ServeM (UploadID * upload * gostring) :=
  _ ← serve_before OperationUploadData;
  tokens ← gets uploadTokens;
  sessions ← gets uploads;
  match tokens !! sha256 token ≫= λ uploadID, pair uploadID <$> sessions !! uploadID with
  | None => throw NotFound
  | Some (uploadID, s) =>
      _ ← throw_if (bool_decide (up_state s ≠ UploadStateActive)) NotFound;
      let expectedMethod := bs (if is_resumable s then "PATCH" else "PUT") in
      _ ← throw_if (bool_decide (Request_Method request ≠ expectedMethod))
            (reply 405 {[ bs "Allow" := expectedMethod ]} "method not allowed");
      _ ← throw_if (expired now s) (reply 410 ∅ "capability unavailable");
      _ ← throw_if (match NormalizeMediaType (Request_ContentType request) with
                    | Err _ => true
                    | Ok mediaType => bool_decide (mediaType ≠ up_mediaType s)
                    end) (reply 412 ∅ "upload constraint mismatch");
      _ ← throw_if (is_resumable s && match parseOffset (Request_UploadOffset request) with
                                      | None => true
                                      | Some offset => negb (offset =? up_offset s)
                                      end)
            (reply 409 {[ bs "Upload-Offset" := Itoa (up_offset s) ]} "upload offset mismatch");
      conf ← gets options;
      let limit0 := i64 (up_size s - up_offset s) in
      let limit := if is_resumable s then Z.min limit0 (ObjectStore.Rules_MaximumSize (ChunkRules conf)) else limit0 in
      let '(received, failed) := read_limited request (i64 (limit + 1)) in
      _ ← modify (upd_metrics (count_upload (len received)));
      _ ← throw_if failed (reply 503 ∅ "upload interrupted");
      _ ← throw_if (limit <? len received) (reply 413 ∅ "upload chunk too large");
      _ ← throw_if (bool_decide (up_protocol s = ObjectStore.UploadSingle) && negb (len received =? up_size s))
            (reply 412 ∅ "single upload size mismatch");
      mret (uploadID, s, received)
  end.

(** A chunk that is not the last one obeys the chunk rules; [%] panics on zero. *)
Definition chunk_refused (conf : Options) (s : upload) (accepted : Z) : option Response :=
  let rules := ChunkRules conf in
  if is_resumable s && (0 <? accepted) && (i64 (up_offset s + accepted) <? up_size s) then
    if accepted <? ObjectStore.Rules_MinimumSize rules then Some (reply 400 ∅ "upload chunk violates chunk rules")
    else if ObjectStore.Rules_Multiple rules =? 0 then Some MemoryBackend.panic_response
    else if negb (Z.rem accepted (ObjectStore.Rules_Multiple rules) =? 0) then Some (reply 400 ∅ "upload chunk violates chunk rules")
    else None
  else None.

Definition serveUpload (request : Request) (token : gostring) : ServeM Response :=
  '(uploadID, s, received) ← upload_checks request token;
  interrupted ← consumeSpecificFaultLocked OperationUploadData FaultInterruptedUpload;
  let accepted := if (interrupted : bool) && (0 <? len received) then Z.max 1 (len received / 2) else len received in
  conf ← gets options;
  match chunk_refused conf s accepted with
  | Some refused => throw refused
  | None =>
      let keep := up_materialized s && (i64 (up_offset s + accepted) <=? MaxMaterializedBytes conf) in
      let s := with_body s keep (take (Z.to_nat accepted) received) in
      _ ← modify (upd_uploads (insert uploadID s));
      let headers := {[ bs "Upload-Offset" := Itoa (up_offset s) ]} in
      _ ← throw_if (interrupted : bool) (reply 503 headers "upload interrupted");
      mret (reply 204 headers [])
  end.

Definition range_error : error := OtherError "invalid range".

Definition parseRange (value : gostring) (size : Z) : res (Z * Z * bool) :=
  if size <? 0 then Err range_error
  else if bool_decide (value = []) then Ok (if size =? 0 then (0, -1, false) else (0, size - 1, false))
  else if negb (HasPrefix value "bytes=") || ContainsByte value ","%char || (size =? 0) then Err range_error
  else match split_on "-"%char (TrimPrefix value "bytes=") with
       | [first; last_] =>
           if bool_decide (first = []) then
             match ParseInt last_ with
             | None => Err range_error
             | Some suffix =>
                 _ ← guard_err (suffix <=? 0) range_error;
                 Ok (size - Z.min suffix size, size - 1, true)
             end
           else match ParseInt first with
                | None => Err range_error
                | Some start =>
                    _ ← guard_err ((start <? 0) || (size <=? start)) range_error;
                    if bool_decide (last_ = []) then Ok (start, size - 1, true)
                    else match ParseInt last_ with
                         | None => Err range_error
                         | Some end_ => _ ← guard_err (end_ <? start) range_error; Ok (start, Z.min end_ (size - 1), true)
                         end
                end
       | _ => Err range_error
       end.

Definition safeDisposition (disposition filename : gostring) : gostring :=
  let disposition := if bool_decide (disposition ≠ ObjectStore.DispositionAttachment) && bool_decide (disposition ≠ ObjectStore.DispositionInline)
                     then ObjectStore.DispositionAttachment else disposition in
  let value := FormatMediaType disposition filename in
  if bool_decide (value = []) then disposition else value.

(** The client reads the whole body; a body that is not kept is zeros. *)
Definition serveDownload (request : Request) (token : gostring) : ServeM Response :=
  _ ← serve_before OperationDownloadData;
  capabilities ← gets downloads;
  match capabilities !! sha256 token with
  | None => throw NotFound
  | Some capability =>
      _ ← throw_if (bool_decide (Request_Method request ≠ bs "GET")) (reply 405 {[ bs "Allow" := bs "GET" ]} "method not allowed");
      _ ← throw_if (negb (now <? down_expiresAt capability)) (reply 410 ∅ "capability unavailable");
      items ← gets (scopeObjects (down_scope capability));
      match items !! String (down_path capability) with
      | None => throw NotFound
      | Some item =>
          let entry := obj_entry item in
          _ ← throw_if (negb (is_file item) || bool_decide (Entry_Version entry ≠ down_version capability)) NotFound;
          match parseRange (Request_Range request) (Entry_Size entry) with
          | Err _ => throw (reply 416 {[ bs "Content-Range" := "bytes */" ++ Itoa (Entry_Size entry) ]} "range not satisfiable")
          | Ok (start, end_, partial) =>
              let length := i64 (end_ - start + 1) in
              let headers0 : gmap gostring gostring := list_to_map [
                (bs "Accept-Ranges", bs "bytes");
                (bs "Content-Type", Entry_MediaType entry);
                (bs "Content-Length", Itoa length);
                (bs "Content-Disposition", safeDisposition (down_disposition capability) (Entry_Name entry))] in
              let headers := if partial : bool
                then <[bs "Content-Range" := "bytes " ++ Itoa start ++ "-" ++ Itoa end_ ++ "/" ++ Itoa (Entry_Size entry)]> headers0
                else headers0 in
              match (if obj_materialized item then MemoryBackend.slice (obj_data item) start (end_ + 1)
                     else Some (replicate (Z.to_nat length) nul)) with
              | None => throw MemoryBackend.panic_response
              | Some data =>
                  _ ← modify (upd_metrics (count_download (len data)));
                  mret (reply (if partial then 206 else 200) headers data)
              end
          end
      end
  end.

Definition cors_headers (origin : gostring) : gmap gostring gostring := list_to_map [
  (bs "Access-Control-Allow-Origin", origin); (bs "Vary", bs "Origin");
  (bs "Access-Control-Expose-Headers", bs "Content-Length, Content-Range, Content-Disposition, Upload-Offset")].

Definition preflight_headers : gmap gostring gostring := list_to_map [
  (bs "Access-Control-Allow-Methods", bs "GET, PUT, PATCH, OPTIONS");
  (bs "Access-Control-Allow-Headers", bs "Content-Type, Range, Upload-Offset"); (bs "Access-Control-Max-Age", bs "300")].

Definition respond (common : gmap gostring gostring) (r : result Response Response) : Response :=
  let r := match r with Ok r => r | Err r => r end in
  {| MemoryBackend.Status := MemoryBackend.Status r; MemoryBackend.Headers := MemoryBackend.Headers r ∪ common;
     MemoryBackend.Response_Body := MemoryBackend.Response_Body r |}.

Definition ServeHTTP (request : Request) (p : Provider) : Response * Provider :=
  let run common (m : ServeM Response) := let '(r, p') := m p in (respond common r, p') in
  let security := MemoryBackend.security_headers in
  match split_on slash (TrimPrefix (Request_Path request) "/") with
  | [root; kind; token] =>
      if bool_decide (root ≠ bs "cap") || bool_decide (token = []) then run security (throw NotFound)
      else
        let origin := Request_Origin request in
        let allowed := AllowedOrigin (options p) in
        if bool_decide (origin ≠ []) && (bool_decide (allowed = []) || bool_decide (origin ≠ allowed))
        then run security (throw (reply 403 ∅ "origin is not allowed"))
        else
          let common := if bool_decide (origin ≠ []) then cors_headers allowed ∪ security else security in
          if bool_decide (Request_Method request = bs "OPTIONS") then run common (throw (reply 204 preflight_headers []))
          else if bool_decide (kind = bs "upload") then run common (serveUpload request token)
          else if bool_decide (kind = bs "download") then run common (serveDownload request token)
          else run common (throw NotFound)
  | _ => run security (throw NotFound)
  end.
End Upload.
End DriveUpload.
