(* ===== verification/DriveTheory.v ===== *)
(** * Trees of paths

    What the reference provider's maps of objects mean: canonical paths as lists
    of segments, sums over the files below a directory, and the tree of nodes an
    object map stands for. *)

From Stdlib Require Import ZArith Lia.
From S2P Require Import Prelude GoLib GoHash Errors DomainPath DomainIDs ObjectStore ObjectMemory GoJSON GoTime FileTypes DriveMemory.

Open Scope Z_scope.

Module DriveTheory.
Import FileTypes DriveMemory.

(** ** Sums over a map *)

Fixpoint lsum {A} (f : A → Z) (l : list A) : Z :=
  match l with
  | [] => 0
  | x :: l => f x + lsum f l
  end.

Definition msum {A} (f : A → Z) (m : gmap gostring A) : Z := lsum (λ kv, f (snd kv)) (map_to_list m).

Lemma lsum_perm {A} (f : A → Z) l l' : l ≡ₚ l' → lsum f l = lsum f l'.
Proof. induction 1; cbn; lia. Qed.

Lemma lsum_nonneg {A} (f : A → Z) l : Forall (λ x, 0 ≤ f x) l → 0 ≤ lsum f l.
Proof. induction 1; cbn; lia. Qed.

Lemma lsum_le {A} (f g : A → Z) l : Forall (λ x, f x ≤ g x) l → lsum f l ≤ lsum g l.
Proof. induction 1; cbn; lia. Qed.

Lemma lsum_zero {A} (f : A → Z) l : Forall (λ x, f x = 0) l → lsum f l = 0.
Proof. induction 1; cbn; lia. Qed.

Lemma lsum_map {A B} (f : B → Z) (g : A → B) l : lsum f (map g l) = lsum (λ x, f (g x)) l.
Proof. induction l; cbn; lia. Qed.

Lemma msum_lsum {A} (f : A → Z) m : msum f m = lsum (λ kv, f (snd kv)) (map_to_list m).
Proof. done. Qed.

Lemma msum_insert {A} (f : A → Z) (k : gostring) (x : A) (m : gmap gostring A) : m !! k = None → msum f (<[k := x]> m) = f x + msum f m.
Proof. intros Hk. rewrite !msum_lsum, (lsum_perm _ _ _ (map_to_list_insert m k x Hk)). done. Qed.

Lemma msum_fmap {A B} (f : B → Z) (g : A → B) (m : gmap gostring A) : msum f (g <$> m) = msum (λ x, f (g x)) m.
Proof. rewrite !msum_lsum, map_to_list_fmap. rewrite (lsum_map (λ kv : gostring * B, f (snd kv)) (prod_map id g)). done. Qed.

Lemma msum_ext {A B} (f : A → Z) (g : B → Z) (m : gmap gostring A) (m' : gmap gostring B) :
  (∀ k, f <$> m !! k = g <$> m' !! k) → msum f m = msum g m'.
Proof.
  intros Hk. transitivity (msum (λ z, z) (f <$> m)); [by rewrite msum_fmap|]. transitivity (msum (λ z, z) (g <$> m')); [|by rewrite msum_fmap].
  f_equal. apply map_eq. intros k. by rewrite !lookup_fmap.
Qed.

Lemma msum_all {A} (P : Z → Prop) (f : A → Z) (m : gmap gostring A) :
  (∀ k x, m !! k = Some x → P (f x)) → Forall (λ kv, P (f (snd kv))) (map_to_list m).
Proof. intros Hf. apply list.Forall_forall. intros [k x] Hkx%elem_of_map_to_list. by eapply Hf. Qed.

Lemma msum_filter_le {A} (f : A → Z) (Q : gostring * A → Prop) `{!∀ x, Decision (Q x)} (m : gmap gostring A) :
  (∀ k x, m !! k = Some x → 0 ≤ f x) → msum f (filter Q m) ≤ msum f m.
Proof.
  induction m as [|k x m Hk IH] using map_ind; intros Hf; [done|].
  assert (∀ k' x', m !! k' = Some x' → 0 ≤ f x') as Hf'.
  { intros k' x' Hx. apply (Hf k'). rewrite lookup_insert_ne; [done|]. congruence. }
  specialize (IH Hf'). pose proof (Hf k x (lookup_insert_eq _ _ _)). destruct (decide (Q (k, x))) as [HQ|HQ].
  - rewrite map_filter_insert_True by done. rewrite !msum_insert; [lia|done|]. apply map_lookup_filter_None. by left.
  - rewrite map_filter_insert_False by done. rewrite delete_id by done. rewrite msum_insert by done. lia.
Qed.

(** ** Folds of edits *)

Lemma fold_insert_ne {A I} (f : I → gostring) (g : I → A) (l : list I) (m : gmap gostring A) (k : gostring) :
  k ∉ map f l → fold_left (λ m i, <[f i := g i]> m) l m !! k = m !! k.
Proof.
  revert m. induction l as [|i l IH]; intros m Hk; [done|]. cbn in *. apply not_elem_of_cons in Hk as [Hne Hk].
  rewrite IH by done. by apply lookup_insert_ne.
Qed.

Lemma fold_insert_eq {A I} (f : I → gostring) (g : I → A) (l : list I) (m : gmap gostring A) (i : I) :
  NoDup (map f l) → i ∈ l → fold_left (λ m i, <[f i := g i]> m) l m !! f i = Some (g i).
Proof.
  revert m. induction l as [|j l IH]; intros m Hn Hi; [by apply not_elem_of_nil in Hi|]. cbn in *. apply NoDup_cons in Hn as [Hj Hn].
  apply elem_of_cons in Hi as [->|Hi]; [|by apply IH]. rewrite fold_insert_ne by done. apply lookup_insert_eq.
Qed.

Lemma fold_delete {A I} (f : I → gostring) (l : list I) (m : gmap gostring A) (k : gostring) :
  fold_left (λ m i, delete (f i) m) l m !! k = if decide (k ∈ map f l) then None else m !! k.
Proof.
  revert m. induction l as [|i l IH]; intros m; [by rewrite decide_False by apply not_elem_of_nil|]. cbn [fold_left map]. rewrite IH.
  destruct (decide (k ∈ map f l)) as [Hk|Hk]; [by rewrite decide_True by by right|]. destruct (decide (k = f i)) as [->|Hne].
  - rewrite decide_True by left. apply lookup_delete_eq.
  - rewrite decide_False by (by rewrite not_elem_of_cons). by apply lookup_delete_ne.
Qed.

(** ** Canonical paths *)

Section Paths.
Context `{NFCLaws}.

Lemma good_of_path l : good_segments l → ParseUserPath (path_of l) = Ok (of_segments l).
Proof. apply ParseUserPath_path_of. Qed.

Lemma of_segments_inj l l' : good_segments l → good_segments l' → of_segments l = of_segments l' → l = l'.
Proof. intros Hl Hl' E. apply path_of_inj; [by apply good_segments_weaken..|]. by injection E. Qed.

Lemma path_of_good_inj l l' : good_segments l → good_segments l' → path_of l = path_of l' → l = l'.
Proof. intros Hl Hl' E. by apply path_of_inj; [apply good_segments_weaken..|]. Qed.

Lemma descends p l : good_segments p → good_segments l → IsDescendantOf (of_segments l) (of_segments p) = true ↔ p `prefix_of` l ∧ l ≠ p.
Proof.
  intros Hp Hl. rewrite IsDescendantOf_spec by by apply good_segments_weaken. split.
  - intros (k & Hk & ->). split; [by exists k|]. intros E. apply Hk. by apply (app_inv_head p); rewrite app_nil_r.
  - intros [[k ->] Hne]. exists k. split; [|done]. intros ->. apply Hne. by rewrite app_nil_r.
Qed.

Lemma in_tree_spec p l : good_segments p → good_segments l → in_tree (of_segments p) (path_of l) = true ↔ p `prefix_of` l.
Proof.
  intros Hp Hl. unfold in_tree. rewrite good_of_path by done. rewrite orb_true_iff, bool_decide_eq_true, descends by done. split.
  - intros [E|[Hpre _]]; [|done]. by apply of_segments_inj in E as ->.
  - intros Hpre. destruct (decide (l = p)) as [->|Hne]; [by left|by right].
Qed.

Lemma good_prefix p l : p `prefix_of` l → good_segments l → p ≠ [] → good_segments p.
Proof.
  intros [k ->] [Hall Hlen Hres] Hp. split; [by apply Forall_app in Hall as [? _]| |by destruct p].
  destruct k as [|x k]; [by rewrite app_nil_r in Hlen|]. rewrite path_of_app, decide_False, len_app in Hlen by done.
  pose proof (len_nonneg (path_of (x :: k))). lia.
Qed.

Lemma path_nonempty l : l ≠ [] → IsRoot (of_segments l) = true → good_segments l → False.
Proof. intros Hl Hr Hg. rewrite IsRoot_of_segments in Hr by by apply good_segments_weaken. apply bool_decide_eq_true in Hr. done. Qed.

Lemma not_root l : good_segments l → l ≠ [] → IsRoot (of_segments l) = false.
Proof. intros Hg Hl. rewrite IsRoot_of_segments by by apply good_segments_weaken. by apply bool_decide_eq_false_2. Qed.

(** *** Where a moved path ends up *)

Lemma trim_source src r : src ≠ [] → TrimPrefix (path_of (src ++ r)) (path_of src) = match r with [] => [] | _ => path_of r end.
Proof.
  intros Hs. unfold TrimPrefix, HasPrefix. destruct r as [|x r].
  - rewrite app_nil_r, bool_decide_eq_true_2 by done. by rewrite drop_all.
  - rewrite path_of_app, decide_False by done. rewrite bool_decide_eq_true_2 by by eexists. by rewrite drop_app_length.
Qed.

Lemma relocated_spec src dst r q :
  src ≠ [] → dst ≠ [] → good_segments (src ++ r) → good_segments dst →
  relocated (of_segments src) (of_segments dst) (of_segments (src ++ r)) = Ok q ↔ good_segments (dst ++ r) ∧ q = of_segments (dst ++ r).
Proof.
  intros Hs Hd Hsr Hdst. unfold relocated, String, of_segments. cbn [normalized]. rewrite trim_source by done.
  assert (path_of dst ++ match r with [] => [] | _ => path_of r end = path_of (dst ++ r)) as ->.
  { destruct r as [|x r]; [by rewrite !app_nil_r|]. by rewrite path_of_app, decide_False by done. }
  assert (Forall good_segment (dst ++ r)) as Hall.
  { apply Forall_app. split; [apply Hdst|]. destruct Hsr as [Hsr _ _]. by apply Forall_app in Hsr as [_ ?]. }
  split.
  - intros (_ & l & Hl & E & ->)%ParseUserPath_sound. rewrite good_path_of_nfc in E by done.
    apply path_of_inj in E as <-; [done| |by apply good_segments_weaken]. eapply list.Forall_impl; [exact Hall|]. by intros s [].
  - intros [Hg ->]. by apply ParseUserPath_path_of.
Qed.

(** *** The directories above a path *)

(** The non-empty prefixes of [l], the longest first. *)
Definition above (l : list gostring) : list (list gostring) := map (λ n, take n l) (reverse (seq 1 (length l))).

Lemma above_snoc l s : above (l ++ [s]) = (l ++ [s]) :: above l.
Proof.
  unfold above. rewrite length_app, Nat.add_1_r, seq_S, reverse_snoc. cbn [map]. f_equal; [by rewrite take_ge by (rewrite length_app; cbn; lia)|].
  apply map_ext_in. intros n Hn%list_elem_of_In. rewrite elem_of_reverse, elem_of_seq in Hn. rewrite take_app_le by lia. done.
Qed.

Lemma elem_of_above d l : d ∈ above l ↔ d ≠ [] ∧ d `prefix_of` l.
Proof.
  unfold above. rewrite list_elem_of_fmap. split.
  - intros (n & -> & Hn). rewrite elem_of_reverse, elem_of_seq in Hn. split; [|apply prefix_take]. destruct l; cbn in Hn; [lia|]. by destruct n; [lia|].
  - intros [Hd [k ->]]. exists (length d). rewrite take_app_length. split; [done|]. rewrite elem_of_reverse, elem_of_seq, length_app.
    destruct d; [done|]. cbn. lia.
Qed.

Lemma NoDup_above l : NoDup (above l).
Proof.
  unfold above. apply NoDup_fmap_2_strong; [|rewrite reverse_Permutation; apply NoDup_seq]. intros n m Hn Hm E.
  rewrite elem_of_reverse, elem_of_seq in Hn, Hm. apply (f_equal length) in E. rewrite !length_take in E. lia.
Qed.

Lemma ancestors_spec fuel l : good_segments l → (length l < fuel)%nat → ancestors fuel (of_segments l) = map of_segments (above l).
Proof.
  revert fuel. induction l as [|s l IH] using rev_ind; intros fuel Hg Hf.
  - destruct fuel; [lia|]. done.
  - destruct fuel as [|fuel]; [lia|]. cbn [ancestors]. rewrite not_root by (done || by destruct l). rewrite above_snoc. cbn [map]. f_equal.
    rewrite Parent_of_segments by by apply good_segments_weaken. rewrite length_app in Hf. cbn in Hf.
    destruct (decide (l = [])) as [->|Hl]; [by destruct fuel; [lia|]|]. apply IH; [|lia]. eapply good_prefix; [|exact Hg|done]. by exists [s].
Qed.

Lemma path_longer l : segs_ok l → (length l < length (path_of l))%nat ∨ l = [].
Proof.
  induction l as [|s l IH] using rev_ind; intros Hl; [by right|left]. apply Forall_app in Hl as [Hl [[Hs _] _]%list.Forall_cons].
  rewrite path_of_snoc, !length_app. cbn [length]. destruct s; [done|]. cbn [length]. destruct (IH Hl) as [Hlt| ->]; [|cbn; lia].
  case_decide; [subst l; cbn in *; lia|lia].
Qed.

Lemma ancestors_of_spec l s : good_segments (l ++ [s]) → ancestors_of (of_segments (l ++ [s])) = map of_segments (above l).
Proof.
  intros Hg. unfold ancestors_of. rewrite Parent_of_segments by by apply good_segments_weaken.
  destruct (path_longer (l ++ [s])) as [Hlt|E]; [by apply good_segments_weaken| |by destruct l].
  rewrite length_app in Hlt. cbn [length normalized of_segments] in *.
  destruct (decide (l = [])) as [->|Hl]; [by destruct (length (path_of _)); [lia|]|].
  apply ancestors_spec; [|lia]. eapply good_prefix; [|exact Hg|done]. by exists [s].
Qed.

(** A directory is above a path exactly when the path descends from it. *)
Lemma ancestor_iff d l :
  good_segments d → d ≠ [] → good_segments l → l ≠ [] →
  path_of d ∈ map String (ancestors_of (of_segments l)) ↔ IsDescendantOf (of_segments l) (of_segments d) = true.
Proof.
  intros Hd Hdn Hl Hln. destruct l as [|s l _] using rev_ind; [done|]. rewrite ancestors_of_spec, descends by done. rewrite map_map.
  rewrite list_elem_of_fmap. setoid_rewrite elem_of_above. split.
  - intros (x & E & Hx & Hpre). unfold String in E. cbn in E.
    assert (good_segments x) as Hgx by (eapply good_prefix; [|exact Hl|done]; etrans; [exact Hpre|by exists [s]]).
    apply path_of_good_inj in E as ->; [|done..]. split; [etrans; [exact Hpre|by exists [s]]|].
    destruct Hpre as [k ->]. intros E%(f_equal length). rewrite !length_app in E. cbn in E. lia.
  - intros [[k E] Hne]. exists d. split; [done|]. split; [done|]. destruct k as [|y k _] using rev_ind; [by rewrite app_nil_r in E|].
    rewrite (assoc_L (++)) in E. apply app_inj_tail in E as [-> _]. by exists k.
Qed.

Lemma NoDup_ancestors l : good_segments l → l ≠ [] → NoDup (map String (ancestors_of (of_segments l))).
Proof.
  intros Hl Hln. destruct l as [|s l _] using rev_ind; [done|]. rewrite ancestors_of_spec by done. rewrite map_map.
  apply NoDup_fmap_2_strong; [|apply NoDup_above]. intros x y Hx Hy E. apply elem_of_above in Hx as [Hx Hpx], Hy as [Hy Hpy].
  apply path_of_good_inj; [| |exact E]; eapply good_prefix; try exact Hl; try done; (etrans; [eassumption|by exists [s]]).
Qed.
End Paths.
End DriveTheory.
