(* ===== verification/DriveSums.v ===== *)
(** * Recursive sizes

    What an object map must satisfy, and what recomputing the sizes of its
    directories establishes. *)

From Stdlib Require Import ZArith Lia.
From S2P Require Import Prelude GoLib GoHash Errors DomainPath DomainIDs ObjectStore ObjectMemory GoJSON GoTime FileTypes DriveMemory DriveTheory.

Open Scope Z_scope.

Module DriveSums.
Import FileTypes DriveMemory DriveTheory.

(** ** Files below a directory *)

Definition below (d : UserPath) (o : object) : bool := is_file o && IsDescendantOf (Entry_Path (obj_entry o)) d.

Definition size_in (d : UserPath) (o : object) : Z := if below d o then Entry_Size (obj_entry o) else 0.
Definition count_in (d : UserPath) (o : object) : Z := if below d o then 1 else 0.

Definition size_below (items : gmap gostring object) (d : UserPath) : Z := msum (size_in d) items.
Definition count_below (items : gmap gostring object) (d : UserPath) : Z := msum (count_in d) items.

Lemma file_not_directory o : is_file o = true → is_directory o = true → False.
Proof. unfold is_file, is_directory. rewrite !bool_decide_eq_true. intros -> E. discriminate E. Qed.

Section Shape.
Context `{NFC}.

(** The fields of an entry stored under the path [l]. *)
Record entry_at (l : list gostring) (o : object) : Prop := {
  ea_good : good_segments l;
  ea_path : Entry_Path (obj_entry o) = of_segments l;
  ea_name : Entry_Name (obj_entry o) = Name (of_segments l);
  ea_kind : is_file o = true ∨ is_directory o = true;
  ea_file : is_file o = true → 0 ≤ Entry_Size (obj_entry o) ∧ Entry_FileCount (obj_entry o) = 1 ∧
            (obj_materialized o = true → len (obj_data o) = Entry_Size (obj_entry o));
}.

(** Every object is stored under its own path, below a directory. *)
Record shaped (items : gmap gostring object) : Prop := {
  sh_at k o : items !! k = Some o → ∃ l, l ≠ [] ∧ k = path_of l ∧ entry_at l o;
  sh_rooted l s : good_segments (l ++ [s]) → l ≠ [] → is_Some (items !! path_of (l ++ [s])) →
    ∃ d, items !! path_of l = Some d ∧ is_directory d = true;
}.

(** The recorded sizes and counts of directories are those of the files below
    them, and all files together fit an [int64]. *)
Record summed (items : gmap gostring object) : Prop := {
  su_directory k d : items !! k = Some d → is_directory d = true →
    Entry_Size (obj_entry d) = size_below items (Entry_Path (obj_entry d)) ∧
    Entry_FileCount (obj_entry d) = i64 (count_below items (Entry_Path (obj_entry d)));
  su_total : size_below items root_path ≤ MaxInt64;
}.
End Shape.

Section Sums.
Context `{NFCLaws} `{!MapOrder} `{!MapOrderLaws}.

Lemma shaped_lookup items l o : shaped items → good_segments l → items !! path_of l = Some o → entry_at l o.
Proof.
  intros Hs Hl Ho. destruct (sh_at _ Hs _ _ Ho) as (l' & _ & E & He). apply path_of_good_inj in E as ->; [done|done|by destruct He].
Qed.

Lemma size_in_nonneg items d k o : shaped items → items !! k = Some o → 0 ≤ size_in d o.
Proof.
  intros Hs Ho. destruct (sh_at _ Hs _ _ Ho) as (l & _ & _ & He). unfold size_in, below. destruct (is_file o) eqn:Ef; [|done].
  destruct (ea_file _ _ He Ef). cbn. destruct (IsDescendantOf _ _); lia.
Qed.

Lemma size_below_root items : shaped items → size_below items root_path = msum (λ o, if is_file o then Entry_Size (obj_entry o) else 0) items.
Proof.
  intros Hs. apply msum_ext. intros k. destruct (items !! k) as [o|] eqn:Ho; [|done]. cbn. f_equal.
  destruct (sh_at _ Hs _ _ Ho) as (l & Hl & _ & He). unfold size_in, below. rewrite (ea_path _ _ He).
  assert (IsDescendantOf (of_segments l) root_path = true) as ->; [|by rewrite andb_true_r]. change root_path with (of_segments []).
  apply descends; [apply good_segments_nil|apply He|]. split; [apply prefix_nil|done].
Qed.

Lemma size_below_le items d : shaped items → size_below items d ≤ size_below items root_path.
Proof.
  intros Hs. rewrite size_below_root by done. apply lsum_le, list.Forall_forall. intros [k o] Ho%elem_of_map_to_list. cbn.
  destruct (sh_at _ Hs _ _ Ho) as (l & _ & _ & He). unfold size_in, below. destruct (is_file o) eqn:Ef; [|done].
  destruct (ea_file _ _ He Ef). cbn. destruct (IsDescendantOf _ _); lia.
Qed.

(** ** The loops of recomputeRecursiveBytesLocked *)

Definition file_size (o : object) : Z := if is_file o then Entry_Size (obj_entry o) else 0.

Lemma sum_files_spec l total :
  Forall (λ o, 0 ≤ file_size o) l → 0 ≤ total ≤ MaxInt64 →
  sum_files l total = if MaxInt64 <? total + lsum file_size l then Err overflow else Ok (total + lsum file_size l).
Proof.
  revert total. induction l as [|o l IH]; intros total Hl Ht.
  - cbn. rewrite Z.add_0_r. destruct (Z.ltb_spec MaxInt64 total); [lia|done].
  - apply list.Forall_cons in Hl as [Ho Hl]. cbn [sum_files lsum]. unfold file_size in Ho |- * at 1 3. pose proof (lsum_nonneg file_size l Hl) as Hn.
    destruct (is_file o); cbn [negb].
    + destruct (Z.ltb_spec (Entry_Size (obj_entry o)) 0); [lia|]. cbn [orb]. destruct (Z.ltb_spec (MaxInt64 - total) (Entry_Size (obj_entry o))).
      * cbn. destruct (Z.ltb_spec MaxInt64 (total + (Entry_Size (obj_entry o) + lsum file_size l))); [done|lia].
      * cbn [guard_err mbind result_bind]. rewrite IH by (done || lia). by rewrite !Z.add_assoc.
    + rewrite IH by done. by rewrite Z.add_0_l.
Qed.

Definition total_of (sums : aggregates) (d : gostring) : Z := default 0 (fst sums !! d).
Definition count_of (sums : aggregates) (d : gostring) : Z := default 0 (snd sums !! d).

Lemma add_totals_spec size parents sums :
  NoDup (map String parents) → 0 ≤ size → (∀ d, d ∈ map String parents → total_of sums d + size ≤ MaxInt64) →
  ∃ sums', add_totals size parents sums = Ok sums' ∧
    (∀ d, total_of sums' d = total_of sums d + if bool_decide (d ∈ map String parents) then size else 0) ∧
    (∀ d, count_of sums' d = if bool_decide (d ∈ map String parents) then i64 (count_of sums d + 1) else count_of sums d).
Proof.
  revert sums. induction parents as [|q parents IH]; intros sums Hn Hs Hb.
  - exists sums. split; [done|]. split; intros d; rewrite bool_decide_eq_false_2 by apply not_elem_of_nil; [lia|done].
  - cbn [map] in *. apply NoDup_cons in Hn as [Hq Hn]. destruct sums as [totals counts]. cbn [add_totals].
    change (default 0 (totals !! String q)) with (total_of (totals, counts) (String q)).
    pose proof (Hb (String q) ltac:(by left)) as Hbq.
    destruct (Z.ltb_spec size 0); [lia|]. destruct (Z.ltb_spec (MaxInt64 - total_of (totals, counts) (String q)) size); [lia|].
    cbn [orb guard_err mbind result_bind].
    edestruct (IH (<[String q := total_of (totals, counts) (String q) + size]> totals,
                   <[String q := i64 (default 0 (counts !! String q) + 1)]> counts)) as (sums' & E & Ht & Hc); [done|done| |].
    { intros d Hd. unfold total_of at 1. cbn [fst]. destruct (decide (d = String q)) as [->|Hne]; [done|].
      rewrite lookup_insert_ne by done. apply Hb. by right. }
    exists sums'. split; [exact E|]. split; intros d; [rewrite Ht|rewrite Hc]; unfold total_of, count_of; cbn [fst snd];
      destruct (decide (d = String q)) as [->|Hne].
    + rewrite lookup_insert_eq, bool_decide_eq_false_2, bool_decide_eq_true_2 by (done || by left). cbn. unfold total_of. cbn. lia.
    + rewrite lookup_insert_ne by done. f_equal. erewrite bool_decide_ext; [done|]. rewrite elem_of_cons. naive_solver.
    + rewrite lookup_insert_eq, bool_decide_eq_false_2, bool_decide_eq_true_2 by (done || by left). done.
    + rewrite lookup_insert_ne by done. erewrite bool_decide_ext; [done|]. rewrite elem_of_cons. naive_solver.
Qed.

(** [o] counts towards the directory stored under [d]. *)
Definition under (d : gostring) (o : object) : bool :=
  is_file o && bool_decide (d ∈ map String (ancestors_of (Entry_Path (obj_entry o)))).
Definition size_under (d : gostring) (o : object) : Z := if under d o then Entry_Size (obj_entry o) else 0.
Definition count_under (d : gostring) (o : object) : Z := if under d o then 1 else 0.

Definition placed (o : object) : Prop := ∃ l, l ≠ [] ∧ entry_at l o.

Lemma i64_i64_add a b : i64 (i64 a + b) = i64 (a + b).
Proof.
  unfold i64. f_equal. replace ((a + 2 ^ 63) mod 2 ^ 64 - 2 ^ 63 + b + 2 ^ 63) with ((a + 2 ^ 63) mod 2 ^ 64 + b) by lia.
  rewrite Zplus_mod_idemp_l. f_equal. lia.
Qed.

Lemma i64_idem a : i64 (i64 a) = i64 a.
Proof. pose proof (i64_i64_add a 0) as E. by rewrite !Z.add_0_r in E. Qed.

Lemma i64_add_i64 a b : i64 (a + i64 b) = i64 (a + b).
Proof. by rewrite Z.add_comm, i64_i64_add, Z.add_comm. Qed.

Lemma size_under_bounds d o : placed o → 0 ≤ size_under d o ≤ file_size o.
Proof.
  intros (l & _ & He). unfold size_under, under, file_size. destruct (is_file o) eqn:Ef; [|done]. destruct (ea_file _ _ He Ef). cbn.
  case_bool_decide; lia.
Qed.

Lemma sum_directories_spec l sums :
  Forall placed l → (∀ d, 0 ≤ total_of sums d ∧ total_of sums d + lsum file_size l ≤ MaxInt64) →
  ∃ sums', sum_directories l sums = Ok sums' ∧
    (∀ d, total_of sums' d = total_of sums d + lsum (size_under d) l) ∧
    (∀ d, i64 (count_of sums d) = count_of sums d → count_of sums' d = i64 (count_of sums d + lsum (count_under d) l)).
Proof.
  revert sums. induction l as [|o l IH]; intros sums Hl Hb.
  - exists sums. split; [done|]. split; intros d; cbn; [lia|]. intros Hd. by rewrite Z.add_0_r.
  - apply list.Forall_cons in Hl as [(m & Hm & He) Hl]. cbn [sum_directories lsum].
    assert (Forall (λ o, 0 ≤ file_size o) l) as Hnn.
    { eapply list.Forall_impl; [exact Hl|]. intros o' Ho'. pose proof (size_under_bounds [] o' Ho'). lia. }
    pose proof (lsum_nonneg file_size l Hnn) as Hln.
    destruct (is_file o) eqn:Ef; cbn [negb].
    + destruct (ea_file _ _ He Ef) as (Hsz & _ & _). rewrite (ea_path _ _ He).
      assert (file_size o = Entry_Size (obj_entry o)) as Efs by (unfold file_size; by rewrite Ef).
      edestruct (add_totals_spec (Entry_Size (obj_entry o)) (ancestors_of (of_segments m)) sums) as (s1 & -> & Ht1 & Hc1);
        [by apply NoDup_ancestors; [apply He|]|done| |].
      { intros d _. destruct (Hb d) as [_ Hd]. cbn in Hd. lia. }
      cbn [mbind result_bind]. edestruct (IH s1) as (s2 & E2 & Ht2 & Hc2); [done| |].
      { intros d. destruct (Hb d) as [Hb1 Hb2]. cbn in Hb2. rewrite Ht1. case_bool_decide; lia. }
      exists s2. split; [exact E2|]. split.
      * intros d. rewrite Ht2, Ht1. unfold size_under at 2, under. rewrite Ef, (ea_path _ _ He). cbn [andb]. case_bool_decide; lia.
      * intros d Hd. rewrite Hc2.
        -- rewrite Hc1. unfold count_under at 2, under. rewrite Ef, (ea_path _ _ He). cbn [andb]. case_bool_decide; [|done].
           rewrite i64_i64_add. f_equal. lia.
        -- rewrite Hc1. case_bool_decide; [|done]. apply i64_idem.
    + assert (file_size o = 0) as Efs by (unfold file_size; by rewrite Ef).
      edestruct (IH sums) as (s2 & E2 & Ht2 & Hc2); [done| |].
      { intros d. destruct (Hb d) as [Hb1 Hb2]. cbn in Hb2. lia. }
      exists s2. split; [exact E2|]. unfold size_under, count_under, under. rewrite Ef. cbn [andb]. split; intros d; [by rewrite Ht2|].
      intros Hd. by rewrite Hc2.
Qed.

(** ** What recomputing changes *)

(** Everything but the objects and the version counter. *)
Definition apart (p : Provider) : Provider := upd_versions (λ _, 0) (upd_objects (λ _, ∅) p).

Lemma scope_same scope f p : scopeObjects scope (on_scope scope f p) = f (scopeObjects scope p).
Proof. unfold scopeObjects, on_scope, upd_objects. cbn. by rewrite lookup_insert_eq. Qed.

Lemma scope_other scope other f p : other ≠ scope → scopeObjects other (on_scope scope f p) = scopeObjects other p.
Proof. intros Hne. unfold scopeObjects, on_scope, upd_objects. cbn. by rewrite lookup_insert_ne. Qed.

Lemma apart_scope scope f p : apart (on_scope scope f p) = apart p.
Proof. done. Qed.

Definition refreshed (size count : Z) (version : gostring) (o : object) : object :=
  {| obj_entry := with_aggregates (obj_entry o) size count version; obj_data := obj_data o; obj_materialized := obj_materialized o |}.

(** A directory has got new sums and perhaps a new version; nothing else changed. *)
Definition updated (size count : Z) (o o' : object) : Prop :=
  if is_directory o then ∃ version, o' = refreshed size count version o else o' = o.

Lemma refreshed_same o : refreshed (Entry_Size (obj_entry o)) (Entry_FileCount (obj_entry o)) (Entry_Version (obj_entry o)) o = o.
Proof. by destruct o as [[] ? ?]. Qed.

Lemma refresh_one scope sums k o p :
  ∃ p', refresh_directory scope sums (k, o) p = (Ok tt, p') ∧ apart p' = apart p ∧
    (∀ other, other ≠ scope → scopeObjects other p' = scopeObjects other p) ∧
    (∀ k', k' ≠ k → scopeObjects scope p' !! k' = scopeObjects scope p !! k') ∧
    (scopeObjects scope p !! k = Some o → ∃ o', scopeObjects scope p' !! k = Some o' ∧ updated (total_of sums k) (count_of sums k) o o').
Proof.
  unfold refresh_directory. change (default 0 (fst sums !! k)) with (total_of sums k). change (default 0 (snd sums !! k)) with (count_of sums k).
  destruct (is_directory o) eqn:Ed; cbn [negb orb].
  - destruct (_ && _) eqn:Es.
    + exists p. split; [done|]. split; [done|]. split; [done|]. split; [done|]. intros Ho. exists o. split; [done|]. unfold updated. rewrite Ed.
      apply andb_true_iff in Es as [E1%Z.eqb_eq E2%Z.eqb_eq]. exists (Entry_Version (obj_entry o)). rewrite <-E1, <-E2. by rewrite refreshed_same.
    + unfold mbind, gom_bind, nextVersion, modify. eexists. split; [done|]. split; [done|]. split; [intros other Hne; by rewrite scope_other|].
      split; [intros k' Hk; rewrite scope_same; by apply lookup_insert_ne|]. intros _. rewrite scope_same, lookup_insert_eq. eexists. split; [done|].
      unfold updated. rewrite Ed. by eexists.
  - exists p. split; [done|]. split; [done|]. split; [done|]. split; [done|]. intros Ho. exists o. split; [done|]. unfold updated. by rewrite Ed.
Qed.

Lemma refresh_loop scope sums its p :
  NoDup (map fst its) → (∀ k o, (k, o) ∈ its → scopeObjects scope p !! k = Some o) →
  ∃ p', forM_ its (refresh_directory scope sums) p = (Ok tt, p') ∧ apart p' = apart p ∧
    (∀ other, other ≠ scope → scopeObjects other p' = scopeObjects other p) ∧
    (∀ k, k ∉ map fst its → scopeObjects scope p' !! k = scopeObjects scope p !! k) ∧
    (∀ k o, (k, o) ∈ its → ∃ o', scopeObjects scope p' !! k = Some o' ∧ updated (total_of sums k) (count_of sums k) o o').
Proof.
  revert p. induction its as [|[k o] its IH]; intros p Hn Hin.
  - exists p. repeat split; try done. intros k o Hko. by apply not_elem_of_nil in Hko.
  - cbn [map fst] in Hn. apply NoDup_cons in Hn as [Hk Hn]. destruct (refresh_one scope sums k o p) as (p1 & E1 & Ha1 & Ho1 & Hk1 & Hu1).
    destruct (IH p1 Hn) as (p2 & E2 & Ha2 & Ho2 & Hk2 & Hu2).
    { intros k' o' Hko. rewrite Hk1; [apply Hin; by right|]. intros ->. apply Hk. apply list_elem_of_fmap. by exists (k, o'). }
    exists p2. split; [cbn [forM_]; unfold mbind, gom_bind; by rewrite E1|]. split; [congruence|].
    split; [intros other Hne; by rewrite Ho2, Ho1|]. split.
    + intros k' [Hne Hk']%not_elem_of_cons. by rewrite Hk2, Hk1.
    + intros k' o' [[= -> ->]|Hko]%elem_of_cons; [|by apply Hu2]. destruct (Hu1 (Hin k o ltac:(by left))) as (o' & Ho' & Hu).
      exists o'. split; [by rewrite Hk2|done].
Qed.

(** [items'] is [items] with the sums of its directories recomputed. *)
Definition resummed (items items' : gmap gostring object) : Prop :=
  ∀ k, match items !! k with
       | None => items' !! k = None
       | Some o => ∃ o', items' !! k = Some o' ∧
           updated (size_below items {| normalized := k |}) (i64 (count_below items {| normalized := k |})) o o'
       end.

Lemma range_snd_placed items : shaped items → Forall placed (map snd (range_map items)).
Proof.
  intros Hs. apply list.Forall_forall. intros o (kv & -> & Hkv)%list_elem_of_fmap. destruct kv as [k o]. rewrite range_map_all in Hkv.
  apply elem_of_map_to_list in Hkv. destruct (sh_at _ Hs _ _ Hkv) as (l & Hl & _ & He). by exists l.
Qed.

Lemma lsum_range {A} (f : A → Z) (items : gmap gostring A) : lsum f (map snd (range_map items)) = msum f items.
Proof. rewrite lsum_map. apply lsum_perm, range_map_all. Qed.

Lemma under_below items k o d :
  shaped items → items !! k = Some o → is_directory o = true → placed d → under k d = below {| normalized := k |} d.
Proof.
  intros Hs Ho Hd (m & Hm & He). destruct (sh_at _ Hs _ _ Ho) as (l & Hl & -> & Hl'). unfold under, below. rewrite (ea_path _ _ He).
  destruct (is_file d); [|done]. cbn [andb]. apply eq_true_iff_eq. rewrite bool_decide_eq_true.
  apply ancestor_iff; [apply Hl'|done|apply He|done].
Qed.

Lemma recompute_spec scope p :
  let items := scopeObjects scope p in
  shaped items →
  if MaxInt64 <? size_below items root_path then recomputeRecursiveBytesLocked scope p = (Err overflow, p)
  else ∃ p', recomputeRecursiveBytesLocked scope p = (Ok tt, p') ∧ apart p' = apart p ∧
         (∀ other, other ≠ scope → scopeObjects other p' = scopeObjects other p) ∧ resummed items (scopeObjects scope p').
Proof.
  intros items Hs. pose proof (range_snd_placed items Hs) as Hp.
  assert (Forall (λ o, 0 ≤ file_size o) (map snd (range_map items))) as Hnn.
  { eapply list.Forall_impl; [exact Hp|]. intros o Ho. pose proof (size_under_bounds [] o Ho). lia. }
  assert (lsum file_size (map snd (range_map items)) = size_below items root_path) as Etot by (rewrite size_below_root by done; apply lsum_range).
  unfold recomputeRecursiveBytesLocked, rootRecursiveBytesLocked, mbind, gom_bind, gets, lift. fold items.
  rewrite sum_files_spec by (done || unfold MaxInt64; lia). rewrite Z.add_0_l, Etot. destruct (Z.ltb_spec MaxInt64 (size_below items root_path)); [done|].
  edestruct (sum_directories_spec (map snd (range_map items)) (∅, ∅)) as (sums & -> & Ht & Hc); [done| |].
  { intros d. unfold total_of. cbn [fst]. rewrite lookup_empty. cbn. lia. }
  edestruct (refresh_loop scope sums (range_map items) p) as (p' & -> & Ha & Ho & Hk & Hu).
  { rewrite range_map_all. apply NoDup_fst_map_to_list. }
  { intros k o Hko. rewrite range_map_all in Hko. by apply elem_of_map_to_list in Hko. }
  exists p'. split; [done|]. split; [done|]. split; [done|]. intros k. destruct (items !! k) as [o|] eqn:Eo.
  - destruct (Hu k o) as (o' & Ho' & Hup); [rewrite range_map_all; by apply elem_of_map_to_list|]. exists o'. split; [done|].
    unfold updated in *. destruct (is_directory o) eqn:Ed; [|done]. destruct Hup as (version & ->). exists version. f_equal.
    + rewrite Ht. unfold total_of. cbn [fst]. rewrite lookup_empty, lsum_range. cbn [default]. rewrite Z.add_0_l.
      apply msum_ext. intros k'. destruct (items !! k') as [d|] eqn:Ed'; [|done]. cbn. f_equal. unfold size_under, size_in.
      destruct (sh_at _ Hs _ _ Ed') as (m & Hm & _ & He). by rewrite (under_below items k o) by (done || by exists m).
    + rewrite Hc; unfold count_of; cbn [snd]; rewrite lookup_empty; [|done]. rewrite lsum_range. cbn [default]. rewrite Z.add_0_l. f_equal.
      apply msum_ext. intros k'. destruct (items !! k') as [d|] eqn:Ed'; [|done]. cbn. f_equal. unfold count_under, count_in.
      destruct (sh_at _ Hs _ _ Ed') as (m & Hm & _ & He). by rewrite (under_below items k o) by (done || by exists m).
  - rewrite Hk; [done|]. intros (kv & E & Hkv)%list_elem_of_fmap. destruct kv as [k' o]. cbn in E. subst k'. rewrite range_map_all in Hkv.
    apply elem_of_map_to_list in Hkv. congruence.
Qed.

(** ** The new sums are right *)

Lemma updated_fields size count o o' :
  updated size count o o' →
  obj_data o' = obj_data o ∧ obj_materialized o' = obj_materialized o ∧ Entry_Path (obj_entry o') = Entry_Path (obj_entry o) ∧
  Entry_Name (obj_entry o') = Entry_Name (obj_entry o) ∧ Entry_Kind (obj_entry o') = Entry_Kind (obj_entry o) ∧ (is_file o = true → o' = o).
Proof.
  unfold updated. destruct (is_directory o) eqn:Ed; [|by intros ->]. intros (v & ->). repeat split. intros Ef. by destruct (file_not_directory o).
Qed.

Lemma updated_kind size count o o' : updated size count o o' → is_file o' = is_file o ∧ is_directory o' = is_directory o.
Proof. intros (_ & _ & _ & _ & E & _)%updated_fields. unfold is_file, is_directory. by rewrite E. Qed.

Lemma updated_at size count l o o' : updated size count o o' → entry_at l o → entry_at l o'.
Proof.
  intros Hu [Hg Hp Hn Hk Hf]. destruct (updated_kind _ _ _ _ Hu) as [Kf Kd]. destruct (updated_fields _ _ _ _ Hu) as (_ & _ & Ep & En & _ & Ef).
  split; [done|congruence|congruence|by rewrite Kf, Kd|]. rewrite Kf. intros E. rewrite (Ef E). by apply Hf.
Qed.

Lemma resummed_shaped items items' : resummed items items' → shaped items → shaped items'.
Proof.
  intros Hr Hs. split.
  - intros k o' Ho'. specialize (Hr k). destruct (items !! k) as [o|] eqn:Eo; [|congruence]. destruct Hr as (o1 & E & Hu).
    assert (o1 = o') as -> by congruence. destruct (sh_at _ Hs _ _ Eo) as (l & Hl & -> & He). exists l. split; [done|]. split; [done|]. by eapply updated_at.
  - intros l s Hg Hl [o' Ho']. pose proof (Hr (path_of (l ++ [s]))) as Hk. destruct (items !! path_of (l ++ [s])) as [o|] eqn:Eo; [|congruence].
    destruct (sh_rooted _ Hs l s Hg Hl ltac:(by rewrite Eo)) as (d & Ed & Hd). pose proof (Hr (path_of l)) as Hkd. rewrite Ed in Hkd.
    destruct Hkd as (d' & Ed' & Hu). exists d'. split; [done|]. by rewrite (proj2 (updated_kind _ _ _ _ Hu)).
Qed.

Lemma resummed_msum (f : UserPath → object → Z) items items' d :
  (∀ o, is_file o = false → f d o = 0) → resummed items items' → msum (f d) items' = msum (f d) items.
Proof.
  intros Hf Hr. apply msum_ext. intros k. specialize (Hr k). destruct (items !! k) as [o|]; [|by rewrite Hr]. destruct Hr as (o' & -> & Hu). cbn. f_equal.
  destruct (is_file o) eqn:Ef; [by rewrite (proj2 (proj2 (proj2 (proj2 (proj2 (updated_fields _ _ _ _ Hu))))))|].
  rewrite !Hf; [done|done|]. by rewrite (proj1 (updated_kind _ _ _ _ Hu)).
Qed.

Lemma size_in_other d o : is_file o = false → size_in d o = 0.
Proof. intros E. unfold size_in, below. by rewrite E. Qed.
Lemma count_in_other d o : is_file o = false → count_in d o = 0.
Proof. intros E. unfold count_in, below. by rewrite E. Qed.

Lemma resummed_summed items items' :
  resummed items items' → shaped items → size_below items root_path ≤ MaxInt64 → summed items'.
Proof.
  intros Hr Hs Ht. split.
  - intros k d' Hd' Hdir. pose proof (Hr k) as Hk. destruct (items !! k) as [d|] eqn:Ed; [|congruence]. destruct Hk as (d1 & E & Hu).
    assert (d1 = d') as -> by congruence. destruct (sh_at _ Hs _ _ Ed) as (l & Hl & -> & He).
    rewrite (proj2 (updated_kind _ _ _ _ Hu)) in Hdir. unfold updated in Hu. rewrite Hdir in Hu. destruct Hu as (v & ->). cbn.
    rewrite (ea_path _ _ He). unfold size_below, count_below.
    rewrite (resummed_msum size_in items items') by (done || apply size_in_other).
    by rewrite (resummed_msum count_in items items') by (done || apply count_in_other).
  - unfold size_below in *. by rewrite (resummed_msum size_in items items') by (done || apply size_in_other).
Qed.
End Sums.
End DriveSums.
