(* ===== verification/DriveCopy.v ===== *)
(** * Copying and moving trees

    The tree an object map stands for, what grafting a copy of a subtree means
    for it, and that the edits of [copyOrMove] do that. *)

From Stdlib Require Import ZArith Lia.
From S2P Require Import Prelude GoLib GoHash Errors DomainPath DomainIDs ObjectStore ObjectMemory GoJSON GoTime FileTypes DriveMemory DriveTheory DriveSums.

Open Scope Z_scope.

Module DriveCopy.
Import FileTypes DriveMemory DriveTheory DriveSums.

(** ** Trees *)

(** What a path holds for its users: versions and the sums of directories are
    bookkeeping. *)
Inductive node :=
  | DirectoryNode
  | FileNode (mediaType data : gostring) (materialized : bool) (size modified : Z) (contentID contentVersion : gostring) (contentModified : Z).

Definition node_of (o : object) : node :=
  let e := obj_entry o in
  if is_file o
  then FileNode (Entry_MediaType e) (obj_data o) (obj_materialized o) (Entry_Size e) (Entry_ModifiedAt e) (Entry_ContentID e)
         (Entry_ContentVersion e) (Entry_ContentModifiedAt e)
  else DirectoryNode.

Abbreviation tree := (list gostring → option node).

Definition tree_of (items : gmap gostring object) : tree := λ l, node_of <$> items !! path_of l.

(** The rest of [l] after [d]. *)
Definition strip (d l : list gostring) : option (list gostring) :=
  if bool_decide (d `prefix_of` l) then Some (drop (length d) l) else None.

(** [t] without what lies at or below [d]. *)
Definition pruned (d : list gostring) (t : tree) : tree := λ l, match strip d l with Some _ => None | None => t l end.

(** [t] with the subtree of [s] at [src] in place of what lies at or below [dst]. *)
Definition grafted (s : tree) (src dst : list gostring) (t : tree) : tree :=
  λ l, match strip dst l with Some r => s (src ++ r) | None => t l end.

Lemma strip_app d r : strip d (d ++ r) = Some r.
Proof. unfold strip. rewrite bool_decide_eq_true_2 by by exists r. by rewrite drop_app_length. Qed.

Lemma strip_Some d l r : strip d l = Some r ↔ l = d ++ r.
Proof.
  split; [|intros ->; apply strip_app]. unfold strip. case_bool_decide as Hp; [|done]. destruct Hp as [k ->]. rewrite drop_app_length. by intros [= ->].
Qed.

Lemma strip_None d l : strip d l = None ↔ ¬ d `prefix_of` l.
Proof. unfold strip. by case_bool_decide. Qed.

Section Trees.
Context `{NFC}.

(** Equal at every path a user can name. *)
Definition same_tree (t t' : tree) : Prop := ∀ l, l ≠ [] → good_segments l → t l = t' l.

#[export] Instance same_tree_equiv : Equivalence same_tree.
Proof.
  split; [by intros t l|by intros t t' Ht l Hl Hg; rewrite Ht|]. intros t1 t2 t3 H1 H2 l Hl Hg. by rewrite H1, H2.
Qed.

#[export] Instance pruned_proper d : Proper (same_tree ==> same_tree) (pruned d).
Proof. intros t t' Ht l Hl Hg. unfold pruned. destruct (strip d l); [done|by apply Ht]. Qed.

Lemma updated_node size count o o' : updated size count o o' → node_of o' = node_of o.
Proof.
  intros Hu. destruct (is_file o) eqn:Ef.
  - by rewrite (proj2 (proj2 (proj2 (proj2 (proj2 (updated_fields _ _ _ _ Hu)))))).
  - unfold node_of. by rewrite (proj1 (updated_kind _ _ _ _ Hu)), Ef.
Qed.

Lemma resummed_tree items items' : resummed items items' → same_tree (tree_of items') (tree_of items).
Proof.
  intros Hr l Hl Hg. unfold tree_of. specialize (Hr (path_of l)). destruct (items !! path_of l) as [o|]; [|by rewrite Hr].
  destruct Hr as (o' & -> & Hu). cbn. f_equal. by eapply updated_node.
Qed.
End Trees.

Section Copy.
Context `{NFCLaws} `{!MapOrder} `{!MapOrderLaws}.

(** Keys are canonical. *)
Lemma shaped_segs items l o : shaped items → segs_ok l → items !! path_of l = Some o → entry_at l o ∧ l ≠ [].
Proof.
  intros Hs Hl Ho. destruct (sh_at _ Hs _ _ Ho) as (l' & Hl' & E & He).
  apply path_of_inj in E as ->; [done|done|]. apply good_segments_weaken. apply He.
Qed.

(** Nothing lies below a path that holds nothing. *)
Lemma shaped_closed items d r : shaped items → d ≠ [] → good_segments (d ++ r) → items !! path_of d = None → items !! path_of (d ++ r) = None.
Proof.
  intros Hs Hd Hg Hn. induction r as [|s r IH] using rev_ind; [by rewrite app_nil_r|]. rewrite (assoc_L (++)) in Hg |- *.
  assert (good_segments (d ++ r)) as Hg' by (eapply good_prefix; [|exact Hg|by destruct d]; by exists [s]).
  specialize (IH Hg'). destruct (items !! path_of ((d ++ r) ++ [s])) as [o|] eqn:Eo; [|done].
  destruct (sh_rooted _ Hs (d ++ r) s Hg) as (d' & Ed & _); [by destruct d|by rewrite Eo|]. congruence.
Qed.

(** ** Deleting a tree *)

Definition deleted (d : list gostring) (items : gmap gostring object) : gmap gostring object :=
  filter (λ kv, in_tree (of_segments d) (fst kv) = false) items.

Lemma deleted_lookup d items l :
  shaped items → good_segments d → good_segments l → deleted d items !! path_of l = match strip d l with Some _ => None | None => items !! path_of l end.
Proof.
  intros Hs Hd Hl. unfold deleted. destruct (strip d l) as [r|] eqn:E.
  - apply strip_Some in E as ->. apply map_lookup_filter_None. right. intros o Ho. cbn. rewrite not_false_iff_true.
    apply in_tree_spec; [done..|]. by exists r.
  - apply strip_None in E. destruct (items !! path_of l) as [o|] eqn:Eo; [|apply map_lookup_filter_None; by left].
    apply map_lookup_filter_Some. split; [done|]. cbn. apply not_true_iff_false. by rewrite in_tree_spec.
Qed.

Lemma deleted_sub d items k o : deleted d items !! k = Some o → items !! k = Some o.
Proof. unfold deleted. by intros [? _]%map_lookup_filter_Some. Qed.

Lemma deleted_shaped d items : shaped items → good_segments d → shaped (deleted d items).
Proof.
  intros Hs Hd. split; [intros k o Ho%deleted_sub; by apply (sh_at _ Hs)|]. intros l s Hg Hl [o Ho].
  assert (good_segments l) as Hgl by (eapply good_prefix; [|exact Hg|done]; by exists [s]).
  rewrite deleted_lookup in Ho by done. destruct (strip d (l ++ [s])) eqn:Es; [done|]. apply strip_None in Es.
  destruct (sh_rooted _ Hs l s Hg Hl ltac:(by rewrite Ho)) as (e & Ee & Hdir). exists e. split; [|done]. rewrite deleted_lookup by done.
  assert (strip d l = None) as ->; [|done]. apply strip_None. intros Hpre. apply Es. etrans; [exact Hpre|by exists [s]].
Qed.

Lemma deleted_tree d items : shaped items → good_segments d → same_tree (tree_of (deleted d items)) (pruned d (tree_of items)).
Proof. intros Hs Hd l Hl Hg. unfold tree_of, pruned. rewrite deleted_lookup by done. by destruct (strip d l). Qed.

Lemma deleted_total d items root : shaped items → size_below (deleted d items) root ≤ size_below items root.
Proof. intros Hs. apply msum_filter_le. intros k o Ho. by eapply size_in_nonneg. Qed.

(** ** The items of a tree *)

Variable now : Z.

Definition carried (path : UserPath) (version : gostring) (o : object) : object :=
  {| obj_entry := carried_entry (new_entry now path (Entry_Kind (obj_entry o)) (Entry_Size (obj_entry o)) (Entry_MediaType (obj_entry o)) version) o;
     obj_data := obj_data o; obj_materialized := obj_materialized o |}.

Lemma carried_kind path version o : is_file (carried path version o) = is_file o ∧ is_directory (carried path version o) = is_directory o.
Proof. unfold carried, carried_entry. destruct (is_file o) eqn:Ef; [|done]. cbn. by rewrite <-Ef. Qed.

Lemma carried_node path version o : node_of (carried path version o) = node_of o.
Proof.
  unfold node_of. rewrite (proj1 (carried_kind path version o)). destruct (is_file o) eqn:Ef; [|done]. unfold carried, carried_entry. by rewrite Ef.
Qed.

Lemma carried_at l l' version o : entry_at l o → good_segments l' → entry_at l' (carried (of_segments l') version o).
Proof.
  intros [Hg Hp Hn Hk Hf] Hg'. destruct (carried_kind (of_segments l') version o) as [Kf Kd]. split.
  - done.
  - unfold carried, carried_entry. by destruct (is_file o).
  - unfold carried, carried_entry. by destruct (is_file o).
  - by rewrite Kf, Kd.
  - rewrite Kf. intros Ef. destruct (Hf Ef) as (Hsz & Hc & Hm). unfold carried, carried_entry. rewrite Ef. cbn.
    split; [done|]. split; [|done]. unfold is_file in Ef. apply bool_decide_eq_true in Ef. rewrite Ef. by rewrite bool_decide_eq_true_2.
Qed.

(** What [collect_items] makes of the object at [src ++ r]. *)
Definition item_for (src dst : list gostring) (taken : gmap gostring object) (way : UserPath → object → bool)
    (r : list gostring) (o : object) (item : treeItem) : Prop :=
  good_segments (src ++ r) ∧ good_segments (dst ++ r) ∧ oldPath item = of_segments (src ++ r) ∧ newPath item = of_segments (dst ++ r) ∧
  (∃ version, carried (of_segments (dst ++ r)) version o =
     {| obj_entry := item_entry item; obj_data := obj_data (item_value item); obj_materialized := obj_materialized (item_value item) |}) ∧
  (∀ e, taken !! path_of (dst ++ r) = Some e → way (of_segments (dst ++ r)) e = false).

(** Only the version counter and the objects may differ. *)
Definition counted (p p' : Provider) : Prop := objects p' = objects p ∧ apart p' = apart p.

#[export] Instance counted_preorder : PreOrder counted.
Proof. split; [done|]. intros p1 p2 p3 [] []. split; congruence. Qed.

Lemma counted_scope scope p p' : counted p p' → scopeObjects scope p' = scopeObjects scope p.
Proof. intros [E _]. unfold scopeObjects. by rewrite E. Qed.

Lemma collect_spec to src dst conflict expected its p x p' :
  src ≠ [] → dst ≠ [] → good_segments src → good_segments dst →
  (∀ k o, (k, o) ∈ its → ∃ l, l ≠ [] ∧ k = path_of l ∧ good_segments l) → NoDup (map fst its) →
  collect_items now to (of_segments src) (of_segments dst) conflict expected its p = (x, p') →
  counted p p' ∧ ∀ items, x = Ok items →
    (∀ item, item ∈ items → ∃ r o, (path_of (src ++ r), o) ∈ its ∧
       item_for src dst (scopeObjects to p) (in_the_way (of_segments dst) conflict expected) r o item) ∧
    (∀ r o, segs_ok r → (path_of (src ++ r), o) ∈ its → ∃ item, item ∈ items ∧
       item_for src dst (scopeObjects to p) (in_the_way (of_segments dst) conflict expected) r o item) ∧
    NoDup (map (λ i, String (oldPath i)) items).
Proof.
  intros Hsn Hdn Hsrc Hdst. revert p x p'. induction its as [|[k o] its IH]; intros p x p' Hcan Hn E.
  - apply mret_inv in E as [-> ->]. split; [done|]. intros items [= <-]. split; [|split; [|constructor]].
    + intros i Hi. by apply not_elem_of_nil in Hi.
    + intros r o _ Hro. by apply not_elem_of_nil in Hro.
  - cbn [collect_items] in E. cbn [map fst] in Hn. apply NoDup_cons in Hn as [Hk Hn].
    destruct (Hcan k o ltac:(by left)) as (l & Hl & -> & Hgl). rewrite good_of_path in E by done.
    assert (∀ k o, (k, o) ∈ its → ∃ l, l ≠ [] ∧ k = path_of l ∧ good_segments l) as Hcan' by (intros ?? Hin; apply (Hcan k o0); by right).
    destruct (bool_decide (of_segments l ≠ of_segments src) && negb (IsDescendantOf (of_segments l) (of_segments src))) eqn:Eout.
    + destruct (IH _ _ _ Hcan' Hn E) as [Hq Hx]. split; [done|]. intros items Hitems. destruct (Hx items Hitems) as (H1' & H2' & H3'). split; [|split].
      * intros i Hi. destruct (H1' i Hi) as (r & o' & Hin & Hfor). exists r, o'. split; [by right|done].
      * intros r o' Hr [[= E1 E2]|Hin]%elem_of_cons; [|by apply H2']. exfalso. apply andb_true_iff in Eout as [Hne%bool_decide_eq_true Hnd%negb_true_iff].
        apply path_of_inj in E1; [|apply Forall_app; split; [by apply good_segments_weaken|done]|by apply good_segments_weaken]. subst l.
        destruct (decide (r = [])) as [->|Hrn]; [by rewrite app_nil_r in Hne|]. apply not_true_iff_false in Hnd. apply Hnd. apply descends; [done..|].
        split; [by exists r|]. intros E3. apply Hrn. apply (app_inv_head src). by rewrite app_nil_r.
      * done.
    + assert (∃ r, l = src ++ r) as [r ->].
      { apply andb_false_iff in Eout as [E1%bool_decide_eq_false|E1%negb_false_iff].
        - apply dec_stable in E1. apply of_segments_inj in E1 as ->; [|done..]. exists []. by rewrite app_nil_r.
        - apply descends in E1 as [[r ->] _]; [|done..]. by exists r. }
      apply gom_bind_inv in E as (y & p1 & E1 & E). apply lift_inv in E1 as [-> ->].
      destruct (relocated _ _ _) as [q|e] eqn:Eq; [|destruct E as [-> ->]; by split].
      apply relocated_spec in Eq as [Hgd ->]; [|done..]. apply gom_bind_inv in E as (y & p1 & E1 & E). injection E1 as <- <-.
      apply gom_bind_inv in E as (y & p1 & E1 & E). apply lift_inv in E1 as [-> ->].
      destruct (guard_err _ _) as [u|e] eqn:Eg; [|destruct E as [-> ->]; by split]. apply guard_err_Ok in Eg.
      apply gom_bind_inv in E as (y & p1 & E1 & E). unfold newEntryLocked, mbind, gom_bind, nextVersion, mret, gom_ret in E1.
      injection E1 as <- <-. set (p1 := upd_versions _ p) in E. match type of E with context [new_entry _ _ _ _ _ ?w] => set (v := w) in E end. assert (counted p p1) as Hq1 by done.
      apply gom_bind_inv in E as (y & p2 & E2 & E). destruct (IH _ _ _ Hcan' Hn E2) as [Hq2 Hx].
      destruct y as [rest|e]; [|destruct E as [-> ->]; split; [by etrans|done]]. apply mret_inv in E as [-> ->].
      split; [by etrans|]. intros items [= <-]. rewrite (counted_scope to p p1) in Hx by done. destruct (Hx rest eq_refl) as (H1' & H2' & H3').
      set (item := {| oldPath := _; newPath := _ |}).
      assert (item_for src dst (scopeObjects to p) (in_the_way (of_segments dst) conflict expected) r o item) as Hitem.
      { split; [done|]. split; [done|]. split; [done|]. split; [done|]. split; [by exists v|]. intros e He. unfold String in Eg. cbn in Eg. by rewrite He in Eg. }
      split; [|split].
      * intros i [->|Hi]%elem_of_cons; [exists r, o; split; [by left|done]|]. destruct (H1' i Hi) as (r' & o' & Hin & Hfor).
        exists r', o'. split; [by right|done].
      * intros r' o' Hr' [[= E3 ->]|Hin]%elem_of_cons.
        -- apply path_of_inj in E3; [|apply Forall_app; split; [by apply good_segments_weaken|done]|by apply good_segments_weaken].
           apply app_inv_head in E3 as ->. exists item. split; [by left|done].
        -- destruct (H2' r' o' Hr' Hin) as (i & Hi & Hfor). exists i. split; [by right|done].
      * cbn [map]. apply NoDup_cons. split; [|done]. intros (i & Ei & Hi)%list_elem_of_fmap. destruct (H1' i Hi) as (r' & o' & Hin & _ & _ & Ho & _).
        rewrite Ho in Ei. unfold String in Ei. cbn in Ei. apply Hk. apply list_elem_of_fmap. exists (path_of (src ++ r'), o'). cbn. by rewrite Ei.
Qed.

(** ** The edits *)

Section Edits.
Variables (src dst : list gostring) (conflict expected : gostring) (from to : gmap gostring object) (items : list treeItem).

Definition way : UserPath → object → bool := in_the_way (of_segments dst) conflict expected.

(** [items] lists the objects of [from] at or below [src], to be placed in [to]. *)
Record collected : Prop := {
  co_item i : i ∈ items → ∃ r o, from !! path_of (src ++ r) = Some o ∧ item_for src dst to way r o i;
  co_all r o : segs_ok r → from !! path_of (src ++ r) = Some o → ∃ i, i ∈ items ∧ item_for src dst to way r o i;
  co_old : NoDup (map (λ i, String (oldPath i)) items);
}.

Hypothesis Hcol : collected.
Hypothesis Hfrom : shaped from.
Hypothesis Hto : shaped to.
Hypothesis Hsrc : good_segments src ∧ src ≠ [].
Hypothesis Hdst : good_segments dst ∧ dst ≠ [].

Lemma old_inj i j : i ∈ items → j ∈ items → oldPath i = oldPath j → i = j.
Proof.
  intros (n & Hn)%list_elem_of_lookup (m & Hm)%list_elem_of_lookup E. pose proof co_old Hcol as Hnd. rewrite NoDup_alt in Hnd.
  assert (n = m) as ->; [|congruence]. apply (Hnd n m (String (oldPath i))); rewrite list_lookup_fmap, ?Hn, ?Hm; cbn; by rewrite ?E.
Qed.

Lemma items_new : NoDup (map (λ i, String (newPath i)) items).
Proof.
  apply NoDup_fmap_2_strong; [|by eapply NoDup_fmap_1, co_old]. intros i j Hi Hj E.
  destruct (co_item Hcol i Hi) as (r & o & _ & Hg1 & Hg1' & Hold1 & Hnew1 & _). destruct (co_item Hcol j Hj) as (r' & o' & _ & Hg2 & Hg2' & Hold2 & Hnew2 & _).
  rewrite Hnew1, Hnew2 in E. apply path_of_good_inj, app_inv_head in E as ->; [|done..]. apply old_inj; [done..|congruence].
Qed.

Lemma place_lookup base l : good_segments l →
  match strip dst l with
  | Some r => match from !! path_of (src ++ r) with
              | Some o => ∃ v, fold_left place_item items base !! path_of l = Some (carried (of_segments l) v o)
              | None => fold_left place_item items base !! path_of l = base !! path_of l
              end
  | None => fold_left place_item items base !! path_of l = base !! path_of l
  end.
Proof.
  intros Hl. pose proof items_new as Hnew. destruct Hsrc as [Hgs Hsn].
  assert (∀ i, i ∈ items → ∀ r o, item_for src dst to way r o i → path_of (dst ++ r) = String (newPath i)) as Hkey by (by intros i _ r o (_ & _ & _ & -> & _)).
  assert (path_of l ∉ map (λ i, String (newPath i)) items → fold_left place_item items base !! path_of l = base !! path_of l) as Hout by apply fold_insert_ne.
  destruct (strip dst l) as [r|] eqn:Es.
  - apply strip_Some in Es as ->. assert (segs_ok r) as Hr by (apply good_segments_weaken, Forall_app in Hl; apply Hl).
    destruct (from !! path_of (src ++ r)) as [o|] eqn:Eo.
    + destruct (co_all Hcol r o Hr Eo) as (i & Hi & Hfor). rewrite (Hkey i Hi r o Hfor).
      unfold place_item. rewrite (fold_insert_eq (λ i, String (newPath i)) _ items base i Hnew Hi).
      destruct Hfor as (_ & _ & _ & _ & (v & Hv) & _). exists v. by rewrite Hv.
    + apply Hout. intros (i & Ei & Hi)%list_elem_of_fmap. destruct (co_item Hcol i Hi) as (r' & o & Hro & Hfor).
      rewrite <-(Hkey i Hi r' o Hfor) in Ei. destruct Hfor as (_ & Hg & _). apply path_of_good_inj, app_inv_head in Ei as ->; [congruence|done..].
  - apply Hout. intros (i & Ei & Hi)%list_elem_of_fmap. destruct (co_item Hcol i Hi) as (r' & o & Hro & Hfor).
    rewrite <-(Hkey i Hi r' o Hfor) in Ei. destruct Hfor as (_ & Hg & _). apply path_of_good_inj in Ei as ->; [|done..]. by rewrite strip_app in Es.
Qed.

Lemma place_keys base k o : fold_left place_item items base !! k = Some o → (∃ l, good_segments l ∧ l ≠ [] ∧ k = path_of l) ∨ base !! k = Some o.
Proof.
  intros Ho. destruct (decide (k ∈ map (λ i, String (newPath i)) items)) as [(i & -> & Hi)%list_elem_of_fmap|Hk].
  - destruct (co_item Hcol i Hi) as (r & o' & _ & _ & Hg & _ & -> & _). left. exists (dst ++ r). split; [done|]. split; [|done]. destruct Hdst. by destruct dst.
  - right. rewrite <-Ho. symmetry. by apply fold_insert_ne.
Qed.

Lemma remove_lookup base l : good_segments l →
  fold_left remove_item items base !! path_of l =
  match strip src l with Some r => if from !! path_of (src ++ r) is Some _ then None else base !! path_of l | None => base !! path_of l end.
Proof.
  intros Hl. unfold remove_item. rewrite fold_delete. destruct (decide _) as [(i & E & Hi)%list_elem_of_fmap|Hn].
  - destruct (co_item Hcol i Hi) as (r & o & Hro & Hg & _ & Hold & _). rewrite Hold in E. apply path_of_good_inj in E as ->; [|done..].
    by rewrite strip_app, Hro.
  - destruct (strip src l) as [r|] eqn:Es; [|done]. apply strip_Some in Es as ->. destruct (from !! path_of (src ++ r)) as [o|] eqn:Eo; [|done].
    exfalso. apply Hn. assert (segs_ok r) as Hr by (apply good_segments_weaken, Forall_app in Hl; apply Hl).
    destruct (co_all Hcol r o Hr Eo) as (i & Hi & _ & _ & Hold & _). apply list_elem_of_fmap. exists i. split; [by rewrite Hold|done].
Qed.

Lemma remove_sub base k o : fold_left remove_item items base !! k = Some o → base !! k = Some o.
Proof. unfold remove_item. rewrite fold_delete. by destruct (decide _). Qed.

(** *** Between two scopes *)

Variable move : bool.
Variable same : bool.
Hypothesis Hsame : same = true → from = to.

(** Where the copy ends up, and where the source was. *)
Definition base_to : gmap gostring object := if bool_decide (conflict = ConflictReplace) then deleted dst to else to.
Definition placed_to : gmap gostring object := fold_left place_item items base_to.
Definition final_to : gmap gostring object := if move && same then fold_left remove_item items placed_to else placed_to.

(** The destination is free or replaced, has a parent, and is not in the source. *)
Hypothesis Hfree : conflict ≠ ConflictReplace → to !! path_of dst = None.
Hypothesis Houtside : same = true → ¬ src `prefix_of` dst.
Hypothesis Hparent : ∀ q s, dst = q ++ [s] → q ≠ [] → ∃ d, to !! path_of q = Some d ∧ is_directory d = true.

Lemma base_lookup l : good_segments l → strip dst l = None → base_to !! path_of l = to !! path_of l.
Proof. intros Hl Es. unfold base_to. case_bool_decide; [|done]. destruct Hdst. by rewrite deleted_lookup, Es. Qed.

Lemma base_under r : good_segments (dst ++ r) → base_to !! path_of (dst ++ r) = None.
Proof.
  intros Hl. unfold base_to. destruct Hdst. case_bool_decide; [by rewrite deleted_lookup, strip_app|]. apply shaped_closed; [done..|by apply Hfree].
Qed.

(** What is placed is not removed again. *)
Lemma not_removed r r' o o' :
  same = true → segs_ok r → dst ++ r = src ++ r' → from !! path_of (src ++ r) = Some o → from !! path_of (src ++ r') = Some o' → False.
Proof.
  intros Hs Hr E Hro Hro'. destruct (co_all Hcol r o Hr Hro) as (i & _ & _ & Hg & _ & _ & _ & Hway). rewrite <-E, (Hsame Hs) in Hro'.
  specialize (Hway _ Hro'). unfold way, in_the_way in Hway. apply orb_false_iff in Hway as [[Hp%bool_decide_eq_false _]%orb_false_iff _].
  apply dec_stable in Hp. destruct Hdst as [Hgd Hdn]. apply of_segments_inj in Hp; [|done..].
  apply (Houtside Hs). exists r'. congruence.
Qed.

Definition kept (t : tree) : tree := if move && same then pruned src t else t.

Lemma final_lookup l : good_segments l → l ≠ [] →
  match strip dst l with
  | Some r => match from !! path_of (src ++ r) with
              | Some o => ∃ v, final_to !! path_of l = Some (carried (of_segments l) v o)
              | None => final_to !! path_of l = None
              end
  | None => final_to !! path_of l = if move && same && bool_decide (src `prefix_of` l) then None else to !! path_of l
  end.
Proof.
  intros Hl Hln. pose proof (place_lookup base_to l Hl) as Hp. fold placed_to in Hp. destruct (strip dst l) as [r|] eqn:Es.
  - apply strip_Some in Es as ->. rewrite (base_under r Hl) in Hp. assert (segs_ok r) as Hr by (apply good_segments_weaken, Forall_app in Hl; apply Hl).
    unfold final_to. destruct (move && same) eqn:Em; [|done]. apply andb_true_iff in Em as [_ Hs]. rewrite remove_lookup by done.
    destruct (from !! path_of (src ++ r)) as [o|] eqn:Eo.
    + destruct (strip src (dst ++ r)) as [r'|] eqn:Es'; [|done]. apply strip_Some in Es'. destruct (from !! path_of (src ++ r')) as [o'|] eqn:Eo'; [|done].
      exfalso. by eapply not_removed.
    + rewrite Hp. destruct (strip src (dst ++ r)); [|done]. by case_match.
  - rewrite (base_lookup l Hl Es) in Hp. unfold final_to. destruct (move && same) eqn:Em; cbn [andb]; [|done]. apply andb_true_iff in Em as [_ Hs].
    rewrite remove_lookup by done. destruct (strip src l) as [r|] eqn:Es'.
    + apply strip_Some in Es' as ->. rewrite bool_decide_eq_true_2 by by exists r. destruct (from !! path_of (src ++ r)) eqn:Eo; [done|].
      rewrite Hp. by rewrite <-(Hsame Hs).
    + apply strip_None in Es'. rewrite bool_decide_eq_false_2 by done. done.
Qed.

Lemma final_tree : same_tree (tree_of final_to) (grafted (tree_of from) src dst (kept (tree_of to))).
Proof.
  intros l Hl Hg. pose proof (final_lookup l Hg Hl) as Hf. unfold tree_of, grafted, kept, pruned. destruct (strip dst l) as [r|].
  - destruct (from !! path_of (src ++ r)) as [o|]; [|by rewrite Hf]. destruct Hf as (v & ->). cbn. f_equal. apply carried_node.
  - rewrite Hf. destruct (move && same); cbn [andb]; [|done]. unfold strip. by case_bool_decide.
Qed.

Lemma final_keys k o : final_to !! k = Some o → ∃ l, good_segments l ∧ l ≠ [] ∧ k = path_of l.
Proof.
  intros Ho. assert (placed_to !! k = Some o) as Hp by (unfold final_to in Ho; destruct (move && same); [by apply remove_sub|done]).
  apply place_keys in Hp as [Hk|Hb]; [done|]. assert (to !! k = Some o) as Ht by (unfold base_to in Hb; case_bool_decide; [by eapply deleted_sub|done]).
  destruct (sh_at _ Hto _ _ Ht) as (l & Hl & -> & He). exists l. split; [apply He|done].
Qed.

Lemma final_shaped : shaped final_to.
Proof.
  destruct Hdst as [Hgd Hdn], Hsrc as [Hgs Hsn]. split.
  - intros k o Ho. destruct (final_keys k o Ho) as (l & Hg & Hl & ->). exists l. split; [done|]. split; [done|].
    pose proof (final_lookup l Hg Hl) as Hf. destruct (strip dst l) as [r|] eqn:Es.
    + apply strip_Some in Es as ->. destruct (from !! path_of (src ++ r)) as [o'|] eqn:Eo; [|congruence]. destruct Hf as (v & Ef).
      assert (o = carried (of_segments (dst ++ r)) v o') as -> by congruence.
      destruct (shaped_segs from (src ++ r) o' Hfrom) as [He _]; [|done|by eapply carried_at].
      apply Forall_app. split; [by apply good_segments_weaken|]. by apply good_segments_weaken, Forall_app in Hg as [_ ?].
    + destruct (_ && _); [congruence|]. eapply shaped_lookup; [exact Hto|done|congruence].
  - intros l s Hg Hl [o Ho]. assert (good_segments l) as Hgl by (eapply good_prefix; [|exact Hg|done]; by exists [s]).
    pose proof (final_lookup (l ++ [s]) Hg ltac:(by destruct l)) as Hf. pose proof (final_lookup l Hgl Hl) as Hfl.
    destruct (strip dst (l ++ [s])) as [r|] eqn:Es.
    + apply strip_Some in Es. destruct r as [|s' r _] using rev_ind.
      * rewrite app_nil_r in Es. destruct (Hparent l s (eq_sym Es) Hl) as (d & Ed & Hd).
        assert (strip dst l = None) as El. { apply strip_None. intros [k Ek]. apply (f_equal length) in Es. rewrite Ek, !length_app in Es. cbn in Es. lia. }
        rewrite El in Hfl. exists d. rewrite Hfl. split; [|done]. destruct (move && same) eqn:Em; cbn [andb]; [|done]. apply andb_true_iff in Em as [_ Hs].
        rewrite bool_decide_eq_false_2; [done|]. intros Hpre. apply (Houtside Hs). rewrite <-Es. etrans; [exact Hpre|by exists [s]].
      * rewrite (assoc_L (++)) in Es. apply app_inj_tail in Es as [-> <-]. rewrite strip_app in Hfl.
        destruct (from !! path_of (src ++ r ++ [s])) as [o'|] eqn:Eo; [|congruence].
        assert (good_segments (src ++ r ++ [s])) as Hgo.
        { destruct (shaped_segs from (src ++ r ++ [s]) o' Hfrom) as [[Hgo _ _ _ _] _]; [|done|done]. apply Forall_app. split; [by apply good_segments_weaken|].
          apply good_segments_weaken in Hg. rewrite <-(assoc_L (++)) in Hg. by apply Forall_app in Hg as [_ ?]. }
        rewrite (assoc_L (++)) in Hgo, Eo. destruct (sh_rooted _ Hfrom (src ++ r) s Hgo) as (d & Ed & Hd); [by destruct src|by rewrite Eo|].
        rewrite Ed in Hfl. destruct Hfl as (v & ->). eexists. split; [done|]. by rewrite (proj2 (carried_kind _ _ _)).
    + apply strip_None in Es. assert (strip dst l = None) as El. { apply strip_None. intros Hpre. apply Es. etrans; [exact Hpre|by exists [s]]. }
      rewrite El in Hfl. destruct (move && same && bool_decide (src `prefix_of` l ++ [s])) eqn:Em; [congruence|]. rewrite Ho in Hf.
      destruct (sh_rooted _ Hto l s Hg Hl ltac:(by rewrite <-Hf)) as (d & Ed & Hd). exists d. rewrite Hfl. split; [|done].
      destruct (move && same); cbn [andb] in *; [|done]. apply bool_decide_eq_false in Em. rewrite bool_decide_eq_false_2; [done|].
      intros Hpre. apply Em. etrans; [exact Hpre|by exists [s]].
Qed.

(** The scope that a move leaves, when it is another one. *)
Definition final_from : gmap gostring object := if move then fold_left remove_item items from else from.

Lemma final_from_lookup l : good_segments l → final_from !! path_of l = if move && bool_decide (src `prefix_of` l) then None else from !! path_of l.
Proof.
  intros Hl. unfold final_from. destruct move; [|done]. rewrite remove_lookup by done. unfold strip. case_bool_decide as Hp; [|done].
  destruct Hp as [r ->]. rewrite drop_app_length. cbn [andb]. by destruct (from !! path_of (src ++ r)).
Qed.

Lemma final_from_tree : same_tree (tree_of final_from) (if move then pruned src (tree_of from) else tree_of from).
Proof.
  intros l Hl Hg. unfold tree_of at 1. rewrite final_from_lookup by done. destruct move; [|done]. cbn [andb]. unfold pruned, strip. by case_bool_decide.
Qed.

Lemma final_from_shaped : shaped final_from.
Proof.
  split.
  - intros k o Ho. apply (sh_at _ Hfrom). unfold final_from in Ho. destruct move; [by apply remove_sub|done].
  - intros l s Hg Hl [o Ho]. assert (good_segments l) as Hgl by (eapply good_prefix; [|exact Hg|done]; by exists [s]).
    rewrite final_from_lookup in Ho by done. destruct (move && bool_decide (src `prefix_of` l ++ [s])) eqn:Em; [done|].
    destruct (sh_rooted _ Hfrom l s Hg Hl ltac:(by rewrite Ho)) as (d & Ed & Hd). exists d. rewrite final_from_lookup by done. split; [|done].
    destruct move; cbn [andb] in *; [|done]. apply bool_decide_eq_false in Em. rewrite bool_decide_eq_false_2; [done|].
    intros Hpre. apply Em. etrans; [exact Hpre|by exists [s]].
Qed.
End Edits.
End Copy.
End DriveCopy.
