(* ===== verification/DriveOps.v ===== *)
(** * The operations of the reference provider, one at a time

    What each step of an operation may change, what a destination resolves to,
    and what copying, moving, deleting and creating directories do to the trees
    of the scopes. *)

From Stdlib Require Import ZArith Lia.
From S2P Require Import Prelude GoLib GoHash Errors DomainPath DomainIDs ObjectStore ObjectMemory GoJSON GoTime FileTypes DriveMemory DriveTheory DriveSums DriveCopy.

Open Scope Z_scope.

Module DriveOps.
Import FileTypes DriveMemory DriveTheory DriveSums DriveCopy.

(** ** Steps that leave the drive alone *)

(** Only drawn identifiers, queued faults, call counts and the version counter
    may differ. *)
Definition calm (p p' : Provider) : Prop :=
  p' = upd_ids (λ _, ids p') (upd_faults (λ _, faults p') (upd_metrics (λ _, metrics p') (upd_versions (λ _, versions p') p))).

#[export] Instance calm_preorder : PreOrder calm.
Proof.
  split; [by intros []|]. intros [] [] []. unfold calm, upd_ids, upd_faults, upd_metrics, upd_versions. cbn. by intros [=] [=]; subst.
Qed.

Lemma calm_objects p p' : calm p p' → objects p' = objects p.
Proof. intros E. exact (f_equal objects E). Qed.

Lemma calm_scope scope p p' : calm p p' → scopeObjects scope p' = scopeObjects scope p.
Proof. intros E%calm_objects. unfold scopeObjects. by rewrite E. Qed.

Lemma calm_idempotency p p' : calm p p' → idempotency p' = idempotency p.
Proof. intros E. exact (f_equal idempotency E). Qed.

Lemma calm_trashEntries p p' : calm p p' → trashEntries p' = trashEntries p.
Proof. intros E. exact (f_equal trashEntries E). Qed.

Lemma counted_calm p p' : counted p p' → calm p p'.
Proof.
  intros [Eo Ea]. destruct p, p'. unfold apart, calm, upd_versions, upd_objects, upd_ids, upd_faults, upd_metrics in *. cbn in *.
  injection Ea. by intros; subst.
Qed.

(** A computation that only takes calm steps. *)
Definition keeps {E A} (m : GoM Provider E A) : Prop := ∀ p x p', m p = (x, p') → calm p p'.

Lemma calm_step_bind {E A B} (m : GoM Provider E A) (f : A → GoM Provider E B) : keeps m → (∀ a, keeps (f a)) → keeps (m ≫= f).
Proof.
  intros Hm Hf p x p' Ex. apply gom_bind_inv in Ex as (y & p1 & E1 & Ex). specialize (Hm _ _ _ E1). destruct y as [a|e]; [|by destruct Ex as [_ ->]].
  etrans; [exact Hm|by eapply Hf].
Qed.

Lemma calm_step_ret {E A} (a : A) : keeps (mret a : GoM Provider E A).
Proof. by intros p x p' [_ ->]%mret_inv. Qed.

Lemma calm_step_lift {E A} (r : result E A) : keeps (lift r).
Proof. by intros p x p' [_ ->]%lift_inv. Qed.

Lemma keeps_throw_if {E} c (e : E) : keeps (throw_if c e).
Proof. by intros p x p' [_ ->]%lift_inv. Qed.

Lemma calm_step_throw {E A} (e : E) : keeps (throw e : GoM Provider E A).
Proof. by intros p x p' [= _ <-]. Qed.

Lemma keeps_gets {E A} (f : Provider → A) : keeps (gets f : GoM Provider E A).
Proof. by intros p x p' [= _ <-]. Qed.

Lemma keeps_before operation : keeps (beforeLocked operation).
Proof.
  intros p x p' E. unfold beforeLocked, mbind, gom_bind, modify, gets, throw, mret, gom_ret in E. cbn in E.
  destruct (faults p !! operation) as [[|fault rest]|]; [by injection E as <- <-; destruct p| |by injection E as <- <-; destruct p].
  destruct (fault_error fault); by injection E as <- <-; destruct p.
Qed.

Lemma keeps_consume {E} operation wanted : keeps (consumeSpecificFaultLocked operation wanted : GoM Provider E bool).
Proof.
  intros p x p'. unfold consumeSpecificFaultLocked. destruct (faults p !! operation) as [[|fault rest]|]; [by intros [= <- <-]| |by intros [= <- <-]].
  case_bool_decide; intros [= <- <-]; [by destruct p|done].
Qed.

Lemma keeps_draw {A} (m : GoM IDGenerator error A) : keeps (draw_id m).
Proof. intros p x p'. unfold draw_id. destruct (m (ids p)) as [r g]. intros [= <- <-]. by destruct p. Qed.

Lemma keeps_version {E} : keeps (nextVersion : GoM Provider E Version).
Proof. intros p x p' [= <- <-]. by destruct p. Qed.

Create HintDb calm.
#[export] Hint Resolve calm_step_bind calm_step_ret calm_step_lift keeps_throw_if calm_step_throw keeps_gets keeps_before keeps_consume keeps_draw keeps_version : calm.

(** A calm computation, by its shape. *)
Ltac stay :=
  repeat (first
    [ solve [eauto with calm]
    | apply calm_step_bind; [|intros ?]
    | case_match ]).

Section Calm.
Context `{NFC} `{!MapOrder} `{!SHA256}.

Lemma keeps_parent scope path : keeps (requireParentLocked scope path).
Proof. unfold requireParentLocked. stay. Qed.

Lemma keeps_entry now path kind size mediaType : keeps (newEntryLocked now path kind size mediaType).
Proof. unfold newEntryLocked. stay. Qed.

Lemma keeps_operation now user : keeps (newOperationLocked now user).
Proof. unfold newOperationLocked. stay. Qed.

Lemma keeps_idempotent user operation key fingerprint : keeps (idempotentLocked user operation key fingerprint).
Proof. unfold idempotentLocked. stay. Qed.

Lemma keeps_renamed scope path : keeps (availableRenamedPathLocked scope path).
Proof. unfold availableRenamedPathLocked. stay. Qed.

Lemma keeps_resolve_tree scope path conflict expected : keeps (resolveTreeDestinationLocked scope path conflict expected).
Proof. pose proof keeps_renamed. unfold resolveTreeDestinationLocked. stay. Qed.

Lemma keeps_stat scope path : keeps (statLocked scope path).
Proof. unfold statLocked, rootRecursiveBytesLocked, rootRecursiveFileCountLocked. stay. Qed.
End Calm.
#[export] Hint Resolve keeps_parent keeps_entry keeps_operation keeps_idempotent keeps_renamed keeps_resolve_tree keeps_stat : calm.

(** ** What the steps establish *)

Section Steps.
Context `{NFCLaws} `{!MapOrder} `{!MapOrderLaws} `{!SHA256}.

(** Every value of type [UserPath]: the zero value, or one that was parsed. *)
Definition user_path (path : UserPath) : Prop := path = zero_path ∨ ∃ l, good_segments l ∧ path = of_segments l.

Lemma parsed_path v path : ParseUserPath v = Ok path → user_path path.
Proof. intros Hv. right. by eapply parse_parsed. Qed.

(** The guard every operation puts on a path it changes. *)
Lemma usable_path path : user_path path → negb (Valid path) || IsRoot path = false → ∃ l, good_segments l ∧ l ≠ [] ∧ path = of_segments l.
Proof.
  intros [->|(l & Hl & ->)] [Hv Hr]%orb_false_iff; [done|]. exists l. split; [done|]. split; [|done]. intros ->. done.
Qed.

Lemma digit_not_slash c : is_digit c = true → c ≠ slash.
Proof. by intros Hc ->. Qed.

Lemma Itoa_noslash z : 0 ≤ z → slash ∉ Itoa z.
Proof. intros (Hd & _)%Itoa_spec Hin. rewrite list.Forall_forall in Hd. by apply (digit_not_slash slash (Hd slash Hin)). Qed.

Lemma noslash_app (s t : gostring) : slash ∉ s → slash ∉ t → slash ∉ s ++ t.
Proof. rewrite elem_of_app. tauto. Qed.

Lemma noslash_take n (s : gostring) : slash ∉ s → slash ∉ take n s.
Proof. intros Hs Hin. apply Hs. eapply subseteq_take, Hin. Qed.

Lemma noslash_drop n (s : gostring) : slash ∉ s → slash ∉ drop n s.
Proof. intros Hs Hin. apply Hs. eapply subseteq_drop, Hin. Qed.

Lemma shorten_noslash fuel limit (base : gostring) : slash ∉ base → slash ∉ shorten fuel limit base.
Proof. revert base. induction fuel as [|fuel IH]; intros base Hb; [done|]. cbn. case_match; [|done]. apply IH. by apply noslash_take. Qed.

Lemma join_shortened_spec fuel q (base rest : gostring) c :
  good_segments q → slash ∉ base → slash ∉ rest → join_shortened fuel (of_segments q) base rest = Ok c →
  ∃ s, good_segments (q ++ [s]) ∧ c = of_segments (q ++ [s]).
Proof.
  intros Hq. revert base. induction fuel as [|fuel IH]; intros base Hb Hr E; cbn [join_shortened] in E;
    destruct (Join (of_segments q) (base ++ rest)) as [c'|e] eqn:Ej.
  1, 3: injection E as ->; apply Join_spec in Ej as (_ & Hg & ->); [by eexists|done|by apply noslash_app].
  - done.
  - case_bool_decide; [done|]. apply (IH (drop_last_rune base)); [by apply noslash_take|done..].
Qed.

Lemma renamed_path_spec (fuel : nat) (index : Z) (q : list gostring) (base extension : gostring) (items : gmap gostring object) (c : UserPath) :
  good_segments q → 0 ≤ index → slash ∉ base → slash ∉ extension → renamed_path fuel index (of_segments q) base extension items = Ok c →
  ∃ s, good_segments (q ++ [s]) ∧ c = of_segments (q ++ [s]) ∧ items !! path_of (q ++ [s]) = None.
Proof.
  intros Hq. revert index. induction fuel as [|fuel IH]; intros index Hi Hb He E; [done|]. cbn [renamed_path] in E.
  destruct (renamed_candidate _ _ _ _) as [c'|e] eqn:Ec; [|done]. cbn [mbind result_bind] in E.
  destruct (items !! String c') as [o|] eqn:Eo; [apply (IH (index + 1)); [lia|done..]|]. injection E as ->.
  unfold renamed_candidate in Ec. apply join_shortened_spec in Ec as (s & Hs & ->); [by exists s|done|by apply shorten_noslash|].
  apply noslash_app; [|done]. apply (noslash_app (bs " (")); [|apply noslash_app; [by apply Itoa_noslash|]]; by apply (bool_decide_eq_true_1 _).
Qed.

Lemma split_noslash (name : gostring) : slash ∉ name → slash ∉ fst (split_extension name) ∧ slash ∉ snd (split_extension name).
Proof.
  intros Hn. unfold split_extension. destruct (last_index_byte _ name) as [[|i]|]; cbn [fst snd]; try (split; [done|apply not_elem_of_nil]).
  split; [by apply noslash_take|by apply noslash_drop].
Qed.

Lemma available_spec scope q s p c p' :
  good_segments (q ++ [s]) → availableRenamedPathLocked scope (of_segments (q ++ [s])) p = (Ok c, p') →
  ∃ s', good_segments (q ++ [s']) ∧ c = of_segments (q ++ [s']) ∧ scopeObjects scope p !! path_of (q ++ [s']) = None.
Proof.
  intros Hg. pose proof (good_segments_weaken _ Hg) as Hw. unfold availableRenamedPathLocked. rewrite Parent_of_segments, Name_of_segments by done.
  assert (slash ∉ s) as Hs by (apply Forall_app in Hw as [_ [[_ ?] _]%list.Forall_cons]; done).
  destruct (split_noslash s Hs) as [Hb He]. destruct (split_extension s) as [base extension]. cbn [fst snd] in *.
  intros E. apply gom_bind_inv in E as (items & p1 & E1 & E). injection E1 as <- <-. apply lift_inv in E as [E ->]. symmetry in E.
  apply renamed_path_spec in E; [done| |lia|done..].
  destruct (decide (q = [])) as [->|Hq]; [apply good_segments_nil|]. eapply good_prefix; [|exact Hg|done]. by exists [s].
Qed.

(** The destination is the one asked for, free or to be replaced, or a free name
    next to it. *)
Definition resolves (conflict : gostring) (items : gmap gostring object) (dst dst' : list gostring) : Prop :=
  dst' = dst ∧ (conflict ≠ ConflictReplace → items !! path_of dst = None) ∨
  conflict = ConflictRename ∧ is_Some (items !! path_of dst) ∧ items !! path_of dst' = None ∧ ∃ q s s', dst = q ++ [s] ∧ dst' = q ++ [s'].

Lemma resolve_tree_spec scope dst conflict expected p c p' :
  good_segments dst → dst ≠ [] → resolveTreeDestinationLocked scope (of_segments dst) conflict expected p = (Ok c, p') →
  ∃ dst', good_segments dst' ∧ dst' ≠ [] ∧ c = of_segments dst' ∧ resolves conflict (scopeObjects scope p) dst dst'.
Proof.
  intros Hg Hn E. unfold resolveTreeDestinationLocked in E. apply gom_bind_inv in E as (items & p1 & E1 & E). injection E1 as <- <-.
  unfold String in E. cbn [normalized of_segments] in E. destruct (scopeObjects scope p !! path_of dst) as [o|] eqn:Eo.
  - case_bool_decide as Hf; [done|]. case_bool_decide as Hr.
    + apply gom_bind_inv in E as (y & p1 & E1 & E). apply lift_inv in E1 as [-> ->]. destruct (guard_err _ _); [|by destruct E].
      apply mret_inv in E as [[= ->] _]. exists dst. split; [done|]. split; [done|]. split; [done|]. left. split; [done|]. by intros [].
    + case_bool_decide as Hm; [|done]. destruct dst as [|s q _] using rev_ind; [done|]. apply available_spec in E as (s' & Hg' & -> & Hfree); [|done].
      exists (q ++ [s']). split; [done|]. split; [by destruct q|]. split; [done|]. right. split; [done|]. split; [done|]. split; [done|]. by exists q, s, s'.
  - apply mret_inv in E as [[= ->] _]. exists dst. split; [done|]. split; [done|]. split; [done|]. by left.
Qed.

Lemma require_parent_spec scope l p p' :
  good_segments l → requireParentLocked scope (of_segments l) p = (Ok tt, p') →
  ∀ q s, l = q ++ [s] → q ≠ [] → ∃ d, scopeObjects scope p !! path_of q = Some d ∧ is_directory d = true.
Proof.
  intros Hg E q s -> Hq. unfold requireParentLocked in E. rewrite Parent_of_segments in E by by apply good_segments_weaken.
  rewrite not_root in E; [|eapply good_prefix; [|exact Hg|done]; by exists [s]|done].
  apply gom_bind_inv in E as (items & p1 & E1 & E). injection E1 as <- <-. unfold String in E. cbn [normalized of_segments] in E.
  destruct (scopeObjects scope p !! path_of q) as [d|]; [|done]. exists d. split; [done|].
  apply lift_inv in E as [E _]. symmetry in E. apply guard_err_Ok in E. by apply negb_false_iff in E.
Qed.

(** A destination next to the one asked for has the same parent. *)
Lemma resolves_parent conflict items dst dst' :
  resolves conflict items dst dst' → (∀ q s, dst = q ++ [s] → q ≠ [] → ∃ d, items !! path_of q = Some d ∧ is_directory d = true) →
  ∀ q s, dst' = q ++ [s] → q ≠ [] → ∃ d, items !! path_of q = Some d ∧ is_directory d = true.
Proof.
  intros [[-> _]|(_ & _ & _ & q & s & s' & -> & ->)] Hp q' s'' E Hq; [by eapply Hp|]. apply app_inj_tail in E as [-> ->]. by eapply Hp.
Qed.

Lemma resolves_free conflict items dst dst' : resolves conflict items dst dst' → conflict ≠ ConflictReplace → items !! path_of dst' = None.
Proof. intros [[-> Hf]|(_ & _ & Hf & _)]; [done|]. done. Qed.

(** A copy does not land in its own source. *)
Lemma resolves_outside conflict items src dst dst' :
  resolves conflict items dst dst' → (src = dst → conflict = ConflictRename) → (src `prefix_of` dst → src = dst) →
  is_Some (items !! path_of src) → ¬ src `prefix_of` dst'.
Proof.
  intros Hr Heq Hpre [o Ho] Hin. destruct Hr as [[-> Hf]|(_ & _ & Hf & q & s & s' & -> & ->)].
  - specialize (Hpre Hin). subst src. assert (items !! path_of dst = None); [|congruence]. apply Hf. rewrite (Heq eq_refl). done.
  - destruct Hin as [k E]. destruct k as [|x k _] using rev_ind; [rewrite app_nil_r in E; congruence|].
    rewrite (assoc_L (++)) in E. apply app_inj_tail in E as [-> _].
    assert (src = (src ++ k) ++ [s]) as E; [apply Hpre; exists (k ++ [s]); by rewrite (assoc_L (++))|].
    apply (f_equal length) in E. rewrite !length_app in E. cbn in E. lia.
Qed.

(** ** Recomputing, undone when it fails *)

Lemma or_undo_inv {A} (m : DriveM A) undo p x p' :
  or_undo m undo p = (x, p') → ∃ p1, m p = (x, p1) ∧ p' = match x with Ok _ => p1 | Err _ => undo p1 end.
Proof. unfold or_undo. destruct (m p) as [[a|e] p1]; intros [= <- <-]; by eexists. Qed.

Lemma recompute_inv scope p x p' :
  shaped (scopeObjects scope p) → recomputeRecursiveBytesLocked scope p = (x, p') →
  match x with
  | Err e => e = overflow ∧ MaxInt64 < size_below (scopeObjects scope p) root_path ∧ p' = p
  | Ok _ => size_below (scopeObjects scope p) root_path ≤ MaxInt64 ∧ apart p' = apart p ∧
            (∀ other, other ≠ scope → scopeObjects other p' = scopeObjects other p) ∧ resummed (scopeObjects scope p) (scopeObjects scope p')
  end.
Proof.
  intros Hs E. pose proof (recompute_spec scope p Hs) as Hr. cbn zeta in Hr. destruct (Z.ltb_spec MaxInt64 (size_below (scopeObjects scope p) root_path)).
  - rewrite Hr in E. by injection E as <- <-.
  - destruct Hr as (p1 & Hp1 & Ha & Ho & Hsum). rewrite Hp1 in E. by injection E as <- <-.
Qed.

Section Relocate.
Variables (now : Z) (src dst : list gostring) (conflict expected : gostring) (items : list treeItem) (move : bool) (from to : Scope) (p : Provider).

Abbreviation oldFrom := (scopeObjects from p).
Abbreviation oldTo := (scopeObjects to p).
Abbreviation newTo := (final_to dst conflict oldTo items move (bool_decide (from = to))).
Abbreviation newFrom := (final_from oldFrom items move).

(** The provider with all edits made and no sums recomputed. *)
Definition edited : Provider :=
  (if move then on_scope from (λ m, fold_left remove_item items m) else λ p, p)
    (on_scope to (λ m, fold_left place_item items m)
       ((if bool_decide (conflict = ConflictReplace) then deleteTreeLocked to (of_segments dst) else λ p, p) p)).

Lemma edited_apart : apart edited = apart p.
Proof. unfold edited. destruct move, (bool_decide (conflict = ConflictReplace)); done. Qed.

Lemma edited_other other : other ≠ from → other ≠ to → scopeObjects other edited = scopeObjects other p.
Proof.
  intros Hf Ht. unfold edited, deleteTreeLocked. destruct move, (bool_decide (conflict = ConflictReplace)); by rewrite ?scope_other.
Qed.

Lemma edited_to : scopeObjects to edited = newTo.
Proof.
  unfold edited, final_to, placed_to, base_to, deleteTreeLocked. destruct (bool_decide_reflect (from = to)) as [<-|Hft],
    move, (bool_decide (conflict = ConflictReplace)); cbn [andb]; rewrite ?scope_same, ?scope_other, ?scope_same by congruence; done.
Qed.

Lemma edited_from : from ≠ to → scopeObjects from edited = newFrom.
Proof.
  intros Hft. unfold edited, final_from, deleteTreeLocked.
  destruct move, (bool_decide (conflict = ConflictReplace)); rewrite ?scope_same, ?scope_other by done; done.
Qed.

Lemma relocate_tree_spec x p' :
  shaped newTo → (from ≠ to → shaped newFrom) → relocate_tree move from to (of_segments dst) conflict items p = (x, p') →
  apart p' = apart p ∧ (∀ other, other ≠ from → other ≠ to → scopeObjects other p' = scopeObjects other p) ∧
  match x with
  | Err e => e = overflow ∧ ∀ scope, scopeObjects scope p' = scopeObjects scope p
  | Ok _ => size_below newTo root_path ≤ MaxInt64 ∧ resummed newTo (scopeObjects to p') ∧
            (from ≠ to → size_below newFrom root_path ≤ MaxInt64 ∧ resummed newFrom (scopeObjects from p'))
  end.
Proof.
  intros Hto Hfrom E. unfold relocate_tree in E. do 5 (apply gom_bind_inv in E as (? & ? & Ex & E); injection Ex as <- <-). fold edited in E.
  set (undo := λ q : Provider, _) in E.
  assert (∀ q, apart q = apart p → (∀ other, other ≠ from → other ≠ to → scopeObjects other q = scopeObjects other p) →
    apart (undo q) = apart p ∧ ∀ scope, scopeObjects scope (undo q) = scopeObjects scope p) as Hundo.
  { intros q Hq Hother. subst undo. cbn beta. case_bool_decide as Hft; (split; [done|]); intros scope.
    - destruct (decide (scope = from)) as [->|Hne]; [by rewrite scope_same|]. rewrite scope_other by done. apply Hother; congruence.
    - destruct (decide (scope = to)) as [->|Hne]; [by rewrite scope_same|]. rewrite scope_other by done.
      destruct (decide (scope = from)) as [->|Hne']; [by rewrite scope_same|]. rewrite scope_other by done. by apply Hother. }
  apply gom_bind_inv in E as (y & p1 & E1 & E). apply or_undo_inv in E1 as (p0 & E1 & ->).
  rewrite <-edited_to in Hto. apply recompute_inv in E1; [|done]. rewrite edited_to in E1. destruct y as [[]|e].
  2: { destruct E as [-> ->]. destruct E1 as (-> & _ & ->). destruct (Hundo edited edited_apart edited_other) as [Ha Hs]. split; [done|]. split; [auto|done]. }
  destruct E1 as (Ht & Ha & Ho & Hr). rewrite edited_apart in Ha. case_bool_decide as Hft.
  - apply mret_inv in E as [-> ->]. split; [done|]. split; [|done]. intros other Hf Hto'. rewrite Ho by done. by apply edited_other.
  - apply or_undo_inv in E as (p2 & E2 & ->). assert (scopeObjects from p0 = newFrom) as E0 by (by rewrite Ho, edited_from).
    apply recompute_inv in E2; [|rewrite E0; by apply Hfrom]. rewrite E0 in E2. destruct x as [[]|e].
    + destruct E2 as (Ht2 & Ha2 & Ho2 & Hr2). split; [congruence|]. split; [|split; [done|split; [|done]]].
      * intros other Hf Hto'. rewrite Ho2, Ho by done. by apply edited_other.
      * by rewrite Ho2.
    + destruct E2 as (-> & _ & ->). destruct (Hundo p0 Ha) as [Hau Hs]; [|done].
      intros other Hf Hto'. rewrite Ho by done. by apply edited_other.
Qed.
End Relocate.
End Steps.
End DriveOps.
