(* ===== verification/DriveEffects.v ===== *)
(** * What the operations do to the drive

    [copyOrMove], [Delete] and [CreateDirectory] of the reference provider: their
    effect on the tree of every scope, the sums they leave behind, what they
    record under an idempotency key, and that an error changes nothing. *)

From Stdlib Require Import ZArith Lia.
From S2P Require Import Prelude GoLib GoHash Errors DomainPath DomainIDs ObjectStore ObjectMemory GoJSON GoTime FileTypes DriveMemory DriveTheory DriveSums DriveCopy DriveOps.

Open Scope Z_scope.

Module DriveEffects.
Import FileTypes DriveMemory DriveTheory DriveSums DriveCopy DriveOps.

(** Take one step that leaves the drive alone. *)
Ltac calm_step E y p' Hc :=
  let Ey := fresh "Ey" in
  apply gom_bind_inv in E as (y & p' & Ey & E);
  match type of Ey with ?m ?p = _ =>
    assert (calm p p') as Hc by (let K := fresh in assert (keeps m) as K by stay; exact (K _ _ _ Ey)) end.

(** The same, after steps that left it alone. *)
Ltac calm_next Hc E y p' Hc' :=
  let Hs := fresh "Hs" in
  calm_step E y p' Hs; pose proof (transitivity Hc Hs) as Hc'; clear Hs.

Section Effects.
Context `{NFCLaws} `{!MapOrder} `{!MapOrderLaws} `{!SHA256}.

(** ** The drive *)

(** Nothing was done to the trash records or the upload sessions. *)
Definition untouched (p p' : Provider) : Prop := trashEntries p' = trashEntries p ∧ uploads p' = uploads p.

#[export] Instance untouched_preorder : PreOrder untouched.
Proof. split; [done|]. intros p1 p2 p3 [] []. split; congruence. Qed.

(** Every scope is a tree whose directories have the right sums. *)
Definition drive_ok (p : Provider) : Prop := ∀ scope, shaped (scopeObjects scope p) ∧ summed (scopeObjects scope p).

Definition same_drive (p p' : Provider) : Prop := ∀ scope, scopeObjects scope p' = scopeObjects scope p.

#[export] Instance same_drive_preorder : PreOrder same_drive.
Proof. split; [by intros p scope|]. intros p1 p2 p3 H1' H2' scope. by rewrite H2', H1'. Qed.

Lemma calm_same p p' : calm p p' → same_drive p p'.
Proof. intros Hc scope. by apply calm_scope. Qed.

Lemma same_drive_ok p p' : same_drive p p' → drive_ok p → drive_ok p'.
Proof. intros Hs Hok scope. rewrite Hs. apply Hok. Qed.

(** What an operation leaves behind for its repetition. *)
Definition noted (user : UserID) (name key fingerprint : gostring) (operation : Operation) (p p' : Provider) : Prop :=
  idempotency p' = idempotency (saveIdempotentLocked user name key fingerprint operation p) ∧
  operations p' !! operationKey user (Operation_ID operation) = Some operation.

(** The request was answered before, under the same key. *)
Definition answered (user : UserID) (name key fingerprint : gostring) (operation : Operation) (p : Provider) : Prop :=
  key ≠ [] ∧ idempotency p !! idempotencyKey user name key = Some {| ir_fingerprint := fingerprint; ir_operation := operation |}.

(** Nothing was answered under the key. *)
Definition unanswered (user : UserID) (name key : gostring) (p : Provider) : Prop :=
  key = [] ∨ idempotency p !! idempotencyKey user name key = None.

Lemma idempotent_inv user name key fingerprint p y p' :
  idempotentLocked user name key fingerprint p = (y, p') →
  p' = p ∧ match y with
           | Ok (Some operation) => answered user name key fingerprint operation p
           | Ok None => unanswered user name key p
           | Err _ => True
           end.
Proof.
  unfold idempotentLocked. case_bool_decide as Hk; [intros [-> ->]%mret_inv; split; [done|by left]|]. intros E.
  apply gom_bind_inv in E as (saved & p1 & E1 & E). injection E1 as <- <-.
  destruct (idempotency p !! _) as [[f o]|] eqn:Es; [|apply mret_inv in E as [-> ->]; split; [done|by right]].
  apply gom_bind_inv in E as (u & p1 & E1 & E). apply lift_inv in E1 as [-> ->]. destruct (guard_err _ _) as [u|] eqn:Eg; [|by destruct E as [-> ->]].
  apply guard_err_Ok, bool_decide_eq_false, dec_stable in Eg. apply mret_inv in E as [-> ->]. cbn in *. subst f. split; [done|]. split; [done|exact Es].
Qed.

Lemma idempotent_answered user name key fingerprint operation p :
  answered user name key fingerprint operation p → idempotentLocked user name key fingerprint p = (Ok (Some operation), p).
Proof.
  intros [Hk Hs]. unfold idempotentLocked. rewrite bool_decide_eq_false_2 by done. unfold mbind, gom_bind, gets. rewrite Hs. cbn.
  by rewrite bool_decide_eq_false_2 by (intros Hn; by apply Hn).
Qed.

Lemma noted_answered user name key fingerprint operation p p' :
  key ≠ [] → noted user name key fingerprint operation p p' → answered user name key fingerprint operation p'.
Proof.
  intros Hk [Hi _]. split; [done|]. rewrite Hi. unfold saveIdempotentLocked. rewrite bool_decide_eq_false_2 by done. cbn. apply lookup_insert_eq.
Qed.

Lemma finish_inv user name key fingerprint operation p x p' :
  finish_operation user name key fingerprint operation p = (x, p') →
  x = Ok operation ∧ same_drive p p' ∧ noted user name key fingerprint operation p p' ∧ untouched p p'.
Proof.
  intros E. unfold finish_operation, mbind, gom_bind, modify in E. apply mret_inv in E as [-> ->]. unfold saveOperationLocked, noted, saveIdempotentLocked.
  case_bool_decide; (split; [done|]; split; [by intros scope|]; split; [|done]; split; [done|apply lookup_insert_eq]).
Qed.

(** Only the objects and what [calm] lets differ may differ. *)
Definition aside (p p' : Provider) : Prop := calm (upd_objects (λ _, ∅) p) (upd_objects (λ _, ∅) p').

#[export] Instance aside_preorder : PreOrder aside.
Proof. split; [by intros p; unfold aside|]. intros p1 p2 p3 H1' H2'. unfold aside in *. by etrans. Qed.

Lemma calm_aside p p' : calm p p' → aside p p'.
Proof. unfold aside, calm. intros E. rewrite E at 1. by destruct p. Qed.

Lemma apart_aside p p' : apart p' = apart p → aside p p'.
Proof. intros E. apply counted_calm. split; [done|]. exact E. Qed.

Lemma aside_idempotency p p' : aside p p' → idempotency p' = idempotency p.
Proof. intros E. exact (f_equal idempotency E). Qed.
Lemma aside_untouched p p' : aside p p' → untouched p p'.
Proof. intros E. split; [exact (f_equal trashEntries E)|exact (f_equal uploads E)]. Qed.
Lemma aside_operations p p' : aside p p' → operations p' = operations p.
Proof. intros E. exact (f_equal operations E). Qed.

(** ** Copy and move *)

(** The tree at [src] of the scope [from] stands at [dst] of the scope [to]; a
    move has removed it from where it was. *)
Record relocation (move : bool) (from to : Scope) (src dst : list gostring) (p p' : Provider) : Prop := {
  rl_to : same_tree (tree_of (scopeObjects to p'))
    (grafted (tree_of (scopeObjects from p)) src dst
       (if move && bool_decide (from = to) then pruned src (tree_of (scopeObjects to p)) else tree_of (scopeObjects to p)));
  rl_from : from ≠ to → same_tree (tree_of (scopeObjects from p'))
    (if move then pruned src (tree_of (scopeObjects from p)) else tree_of (scopeObjects from p));
  rl_other other : other ≠ from → other ≠ to → scopeObjects other p' = scopeObjects other p;
  rl_fits r : segs_ok r → is_Some (scopeObjects from p !! path_of (src ++ r)) → good_segments (dst ++ r);
}.

Lemma relocation_same move from to src dst p p1 p2 p' :
  same_drive p p1 → same_drive p2 p' → relocation move from to src dst p1 p2 → relocation move from to src dst p p'.
Proof.
  intros H1' H2' [Ht Hf Ho Hr]. split; [by rewrite H2', <-!H1'|intros Hne; rewrite H2', <-!H1'; by apply Hf|intros other Hn1 Hn2; by rewrite H2', Ho|].
  intros r. rewrite <-H1'. apply Hr.
Qed.

Lemma shaped_canonical (items : gmap gostring object) (k : gostring) (o : object) :
  shaped items → (k, o) ∈ range_map items → ∃ l, l ≠ [] ∧ k = path_of l ∧ good_segments l.
Proof.
  intros Hs Hin. rewrite range_map_all in Hin. apply elem_of_map_to_list in Hin. destruct (sh_at _ Hs _ _ Hin) as (l & Hl & -> & He).
  exists l. split; [done|]. split; [done|apply He].
Qed.

Lemma collect_collected (now : Z) (to : Scope) (src dst : list gostring) (conflict expected : gostring) (items : gmap gostring object) (p : Provider)
    (found : list treeItem) (p' : Provider) :
  shaped items → good_segments src ∧ src ≠ [] → good_segments dst ∧ dst ≠ [] →
  collect_items now to (of_segments src) (of_segments dst) conflict expected (range_map items) p = (Ok found, p') →
  counted p p' ∧ collected now src dst conflict expected items (scopeObjects to p) found.
Proof.
  intros Hs [Hgs Hsn] [Hgd Hdn] E. apply collect_spec in E as [Hc Hx]; [|done..|by intros; eapply shaped_canonical|].
  2: { rewrite range_map_all. apply NoDup_fst_map_to_list. }
  split; [done|]. destruct (Hx found eq_refl) as (H1' & H2' & H3'). split; [| |done].
  - intros i Hi. destruct (H1' i Hi) as (r & o & Hin & Hfor). exists r, o. split; [|done]. rewrite range_map_all in Hin. by apply elem_of_map_to_list in Hin.
  - intros r o Hr Ho. apply H2'; [done|]. rewrite range_map_all. by apply elem_of_map_to_list.
Qed.

Section Relocation.
Variables (now : Z) (move : bool) (from to : Scope) (src dst : list gostring) (conflict expected : gostring) (p : Provider).
Hypothesis Hok : drive_ok p.
Hypothesis Hsrc : good_segments src ∧ src ≠ [].
Hypothesis Hdst : good_segments dst ∧ dst ≠ [].
Hypothesis Hfree : conflict ≠ ConflictReplace → scopeObjects to p !! path_of dst = None.
Hypothesis Houtside : bool_decide (from = to) = true → ¬ src `prefix_of` dst.
Hypothesis Hparent : ∀ q s, dst = q ++ [s] → q ≠ [] → ∃ d, scopeObjects to p !! path_of q = Some d ∧ is_directory d = true.

Lemma relocate_step found p1 x p2 :
  collect_items now to (of_segments src) (of_segments dst) conflict expected (range_map (scopeObjects from p)) p = (Ok found, p1) →
  relocate_tree move from to (of_segments dst) conflict found p1 = (x, p2) →
  aside p p2 ∧ match x with Err _ => same_drive p p2 | Ok _ => relocation move from to src dst p p2 ∧ drive_ok p2 end.
Proof.
  intros Ec Er. destruct (Hok from) as [Hsf Htf], (Hok to) as [Hst Htt]. apply collect_collected in Ec as [Hc Hcol]; [|done..].
  pose proof (counted_calm _ _ Hc) as Hcalm. assert (bool_decide (from = to) = true → scopeObjects from p = scopeObjects to p) as Hsame.
  { intros ->%bool_decide_eq_true. done. }
  assert (∀ scope, scopeObjects scope p1 = scopeObjects scope p) as Ep by (intros; by apply counted_scope).
  assert (shaped (final_to dst conflict (scopeObjects to p) found move (bool_decide (from = to)))) as Hft by by eapply final_shaped.
  assert (shaped (final_from (scopeObjects from p) found move)) as Hff by by eapply final_from_shaped.
  apply relocate_tree_spec in Er as (Ha & Hother & Hx); [|by rewrite Ep|by rewrite Ep].
  split; [etrans; [by apply calm_aside|by apply apart_aside]|]. destruct x as [[]|e].
  - rewrite !Ep in Hx. destruct Hx as (Ht & Hr & Hf). split.
    + split.
      * rewrite (resummed_tree _ _ Hr). etrans; [by eapply final_tree|]. done.
      * intros Hne. destruct (Hf Hne) as [_ Hrf]. rewrite (resummed_tree _ _ Hrf). by eapply final_from_tree.
      * intros other H1' H2'. by rewrite Hother, Ep.
      * intros r Hr' [o Ho']. by destruct (co_all _ _ _ _ _ _ _ _ Hcol r o Hr' Ho') as (i & _ & _ & Hg & _).
    + intros scope. destruct (decide (scope = to)) as [->|Hnt]; [split; [by eapply resummed_shaped|by eapply resummed_summed]|].
      destruct (decide (scope = from)) as [->|Hnf]; [|by rewrite Hother, Ep].
      destruct (Hf Hnt) as [Htf' Hrf]. split; [by eapply resummed_shaped|by eapply resummed_summed].
  - destruct Hx as [_ Hx]. intros scope. by rewrite Hx, Ep.
Qed.
End Relocation.

Lemma check_copy_inv ctx from to request conflict :
  user_path (Copy_Source request) → user_path (Copy_Destination request) → check_copy ctx from to request = Ok conflict →
  scope_userID from = scope_userID to ∧ NormalizeConflictMode (Copy_Conflict request) = Ok conflict ∧
  ∃ src dst, good_segments src ∧ src ≠ [] ∧ Copy_Source request = of_segments src ∧
    good_segments dst ∧ dst ≠ [] ∧ Copy_Destination request = of_segments dst ∧
    (from = to → (src = dst → conflict = ConflictRename) ∧ (src `prefix_of` dst → src = dst)).
Proof.
  intros Hus Hud E. unfold check_copy in E. inv_go.
  match goal with Hx : bool_decide (scope_userID from ≠ scope_userID to) = false |- _ => apply bool_decide_eq_false, dec_stable in Hx as Huser end.
  match goal with Hx : negb (Valid (Copy_Source request)) || _ || _ || _ = false |- _ => rename Hx into Hv end.
  apply orb_false_iff in Hv as [[Hv Hv2]%orb_false_iff Hv3].
  destruct (usable_path _ Hus Hv) as (src & Hgs & Hsn & Es). destruct (usable_path _ Hud) as (dst & Hgd & Hdn & Ed); [by rewrite Hv2, Hv3|].
  split; [done|]. injection E as <-. split; [done|]. exists src, dst. split; [done|]. split; [done|]. split; [done|]. split; [done|]. split; [done|]. split; [done|].
  intros <-. rewrite Es, Ed in *. rewrite bool_decide_eq_true_2 in * by done. cbn [andb] in *. split.
  - intros <-. match goal with Hx : bool_decide (of_segments src = _) && _ = false |- _ => rename Hx into He end.
    rewrite bool_decide_eq_true_2 in He by done. cbn [andb] in He. by apply bool_decide_eq_false, dec_stable in He.
  - intros Hpre. destruct (decide (src = dst)) as [|Hne]; [done|]. exfalso.
    match goal with Hx : IsDescendantOf _ _ = false |- _ => apply not_true_iff_false in Hx; apply Hx end. apply descends; [done..|]. by split.
Qed.

(** The operation carried the tree of its source to where its destination
    resolves to. *)
Definition carried_out (move : bool) (from to : Scope) (request : CopyRequest) (conflict : gostring) (p p' : Provider) : Prop :=
  ∃ src dst dst', Copy_Source request = of_segments src ∧ Copy_Destination request = of_segments dst ∧
    (good_segments src ∧ src ≠ []) ∧ (good_segments dst ∧ dst ≠ []) ∧ (good_segments dst' ∧ dst' ≠ []) ∧
    is_Some (scopeObjects from p !! path_of src) ∧ resolves conflict (scopeObjects to p) dst dst' ∧ relocation move from to src dst' p p'.

(** A repeated request is answered from its record.  Otherwise an error or an
    injected failure has changed no object, and a success has moved the tree;
    what is reported is on record. *)
Definition copy_outcome (name : gostring) (move : bool) (from to : Scope) (request : CopyRequest) (p : Provider) (x : res Operation) (p' : Provider) : Prop :=
  match x with
  | Err _ => same_drive p p' ∧ aside p p'
  | Ok op => ∃ conflict, NormalizeConflictMode (Copy_Conflict request) = Ok conflict ∧
      let fingerprint := copy_fingerprint move from to conflict request in
      answered (scope_userID from) name (Copy_IdempotencyKey request) fingerprint op p ∧ p' = p ∨
      unanswered (scope_userID from) name (Copy_IdempotencyKey request) p ∧
      noted (scope_userID from) name (Copy_IdempotencyKey request) fingerprint op p p' ∧ untouched p p' ∧
      (Operation_State op = OperationFailed ∧ same_drive p p' ∨
       Operation_State op = OperationSucceeded ∧ carried_out move from to request conflict p p')
  end.

Lemma noted_aside user name key fingerprint op p p1 p' :
  aside p p1 → noted user name key fingerprint op p1 p' → noted user name key fingerprint op p p'.
Proof.
  intros Ha [Hi Ho]. split; [|done]. rewrite Hi. unfold saveIdempotentLocked. apply aside_idempotency in Ha. case_bool_decide; cbn; by rewrite Ha.
Qed.

Lemma copyOrMove_effect ctx now name move from to request p x p' :
  drive_ok p → user_path (Copy_Source request) → user_path (Copy_Destination request) →
  copyOrMove ctx now name move from to request p = (x, p') → copy_outcome name move from to request p x p' ∧ drive_ok p'.
Proof.
  intros Hok Hus Hud E.
  assert (∀ e p1, calm p p1 → copy_outcome name move from to request p (Err e) p1 ∧ drive_ok p1) as Hfail.
  { intros e p1 Hc. split; [split; [by apply calm_same|by apply calm_aside]|]. eapply same_drive_ok; [by apply calm_same|done]. }
  unfold copyOrMove in E. apply gom_bind_inv in E as (y & p0 & E0 & E). apply lift_inv in E0 as [-> ->].
  destruct (check_copy ctx from to request) as [conflict|e] eqn:Echeck; [|destruct E as [-> ->]; by apply Hfail].
  apply check_copy_inv in Echeck as (Huser & Hmode & src & dst & Hgs & Hsn & Esrc & Hgd & Hdn & Edst & Hins); [|done..].
  apply gom_bind_inv in E as (y & p0 & E0 & E). apply idempotent_inv in E0 as [-> Hy].
  destruct y as [[op|]|e]; [| |destruct E as [-> ->]; by apply Hfail].
  { apply mret_inv in E as [-> ->]. split; [|done]. exists conflict. split; [done|]. by left. }
  calm_step E y p1 Hc1. destruct y as [[]|e]; [|destruct E as [-> ->]; by apply Hfail].
  apply gom_bind_inv in E as (items & p2 & E2 & E). injection E2 as <- <-. rewrite Esrc, Edst in E. unfold String in E. cbn [normalized of_segments] in E.
  rewrite (calm_scope from p p1) in E by done.
  destruct (scopeObjects from p !! path_of src) as [root|] eqn:Eroot; [|injection E as <- <-; by apply Hfail].
  calm_next Hc1 E y p2 Hc2. destruct y as [[]|e]; [|destruct E as [-> ->]; by apply Hfail].
  calm_next Hc2 E y p3 Hc3. destruct y as [[]|e]; [|destruct E as [-> ->]; by apply Hfail].
  pose proof (require_parent_spec _ _ _ _ Hgd Ey1) as Hparent. rewrite (calm_scope to p p2) in Hparent by done.
  calm_next Hc3 E y p4 Hc4. destruct y as [destination|e]; [|destruct E as [-> ->]; by apply Hfail].
  apply resolve_tree_spec in Ey2 as (dst' & Hgd' & Hdn' & -> & Hres); [|done..]. rewrite (calm_scope to p p3) in Hres by done.
  calm_next Hc4 E y p5 Hc5. destruct y as [op|e]; [|destruct E as [-> ->]; by apply Hfail].
  calm_next Hc5 E y p6 Hc6. destruct y as [partial|e]; [|destruct E as [-> ->]; by apply Hfail]. destruct partial.
  { apply finish_inv in E as (-> & Hsd & Hn & Ht). assert (same_drive p p') as Hsd' by (etrans; [by apply calm_same|done]).
    split; [|by eapply same_drive_ok]. exists conflict. split; [done|]. right. split; [exact Hy|]. split; [by eapply noted_aside; [apply calm_aside|]|].
    split; [etrans; [by apply aside_untouched, calm_aside|exact Ht]|]. by left. }
  assert (drive_ok p6) as Hok6 by (eapply same_drive_ok; [by apply calm_same|done]).
  assert (∀ scope, scopeObjects scope p6 = scopeObjects scope p) as E6 by (intros; by apply calm_scope).
  apply gom_bind_inv in E as (y & p7 & Ecol & E). destruct y as [found|e].
  2: { destruct E as [-> ->]. apply Hfail. apply collect_spec in Ecol as [Hcol _]; [|done..| |].
       - etrans; [exact Hc6|by apply counted_calm].
       - intros k o Hin. eapply shaped_canonical; [apply (Hok from)|exact Hin].
       - rewrite range_map_all. apply NoDup_fst_map_to_list. }
  apply gom_bind_inv in E as (y & p8 & Erel & E). rewrite <-(E6 from) in Ecol.
  pose proof (relocate_step now move from to src dst' conflict (Copy_ExpectedTarget request) p6 Hok6 ltac:(done) ltac:(done)) as Hstep.
  rewrite !E6 in Hstep. rewrite E6 in Ecol. edestruct Hstep as [Has Hx]; [by eapply resolves_free| |by eapply resolves_parent|exact Ecol|exact Erel|].
  { intros Heq%bool_decide_eq_true. destruct (Hins Heq). eapply resolves_outside; [exact Hres|done..|]. rewrite <-Heq. by rewrite Eroot. }
  assert (aside p p8) as Has' by (etrans; [by apply calm_aside|done]). destruct y as [[]|e].
  - destruct Hx as [Hrel Hok8]. apply finish_inv in E as (-> & Hsd & Hn & Ht). split; [|by eapply same_drive_ok]. exists conflict. split; [done|]. right.
    split; [exact Hy|]. split; [by eapply noted_aside|]. split; [etrans; [by apply aside_untouched|exact Ht]|]. right. split; [done|].
    exists src, dst, dst'. do 5 (split; [done|]). split; [by rewrite Eroot|]. split; [done|].
    by eapply relocation_same; [apply calm_same| |].
  - destruct E as [-> ->]. assert (same_drive p p8) as Hsd by (etrans; [by apply calm_same|done]). split; [done|]. by eapply same_drive_ok.
Qed.

(** ** Delete *)

Lemma erase_step scope l p x p' :
  drive_ok p → good_segments l → recomputeRecursiveBytesLocked scope (deleteTreeLocked scope (of_segments l) p) = (x, p') →
  x = Ok tt ∧ drive_ok p' ∧ aside p p' ∧ same_tree (tree_of (scopeObjects scope p')) (pruned l (tree_of (scopeObjects scope p))) ∧
  (∀ other, other ≠ scope → scopeObjects other p' = scopeObjects other p).
Proof.
  intros Hok Hl E. destruct (Hok scope) as [Hs Ht].
  assert (scopeObjects scope (deleteTreeLocked scope (of_segments l) p) = deleted l (scopeObjects scope p)) as Ed by apply scope_same.
  pose proof (deleted_shaped l _ Hs Hl) as Hds. pose proof (deleted_total l _ root_path Hs) as Hdt. pose proof (su_total _ Ht) as Htot.
  apply recompute_inv in E; [|by rewrite Ed]. rewrite Ed in E. destruct x as [[]|e]; [|destruct E as (_ & ? & _); lia].
  destruct E as (Hm & Ha & Ho & Hr). assert (∀ other, other ≠ scope → scopeObjects other p' = scopeObjects other p) as Hother.
  { intros other Hne. rewrite Ho by done. by apply scope_other. }
  split; [done|]. split; [|split; [by apply apart_aside; rewrite Ha|split; [|done]]].
  - intros other. destruct (decide (other = scope)) as [->|Hne]; [|by rewrite Hother]. split; [by eapply resummed_shaped|by eapply resummed_summed].
  - rewrite (resummed_tree _ _ Hr). by apply deleted_tree.
Qed.

Definition delete_outcome (scope : Scope) (request : DeleteRequest) (p : Provider) (x : res Operation) (p' : Provider) : Prop :=
  match x with
  | Err _ => same_drive p p' ∧ aside p p'
  | Ok op =>
      let fingerprint := delete_fingerprint scope request in
      answered (scope_userID scope) OperationDelete (Delete_IdempotencyKey request) fingerprint op p ∧ p' = p ∨
      unanswered (scope_userID scope) OperationDelete (Delete_IdempotencyKey request) p ∧
      noted (scope_userID scope) OperationDelete (Delete_IdempotencyKey request) fingerprint op p p' ∧ untouched p p' ∧
      (Operation_State op = OperationFailed ∧ same_drive p p' ∨
       Operation_State op = OperationSucceeded ∧ ∃ l, Delete_Path request = of_segments l ∧ is_Some (scopeObjects scope p !! path_of l) ∧
         same_tree (tree_of (scopeObjects scope p')) (pruned l (tree_of (scopeObjects scope p))) ∧
         ∀ other, other ≠ scope → scopeObjects other p' = scopeObjects other p)
  end.

Lemma Delete_effect ctx now scope request p x p' :
  drive_ok p → user_path (Delete_Path request) → Delete ctx now scope request p = (x, p') → delete_outcome scope request p x p' ∧ drive_ok p'.
Proof.
  intros Hok Hup E.
  assert (∀ e p1, calm p p1 → delete_outcome scope request p (Err e) p1 ∧ drive_ok p1) as Hfail.
  { intros e p1 Hc. split; [split; [by apply calm_same|by apply calm_aside]|]. eapply same_drive_ok; [by apply calm_same|done]. }
  unfold Delete in E. calm_step E y p1 Hc1. destruct y as [[]|e]; [|destruct E as [-> ->]; by apply Hfail].
  apply lift_inv in Ey as [_ ->]. apply gom_bind_inv in E as (y & p1 & E1 & E). apply lift_inv in E1 as [-> ->].
  destruct (guard_err _ _) as [u|e] eqn:Eg; [|destruct E as [-> ->]; by apply Hfail]. apply guard_err_Ok in Eg.
  destruct (usable_path _ Hup Eg) as (l & Hl & Hln & El). apply gom_bind_inv in E as (y & p1 & E1 & E). apply lift_inv in E1 as [-> ->].
  destruct (validateIdempotencyKey _); [|destruct E as [-> ->]; by apply Hfail].
  apply gom_bind_inv in E as (y & p0 & E0 & E). apply idempotent_inv in E0 as [-> Hy].
  destruct y as [[op|]|e]; [| |destruct E as [-> ->]; by apply Hfail].
  { apply mret_inv in E as [-> ->]. split; [|done]. by left. }
  clear Hc1. calm_step E y p1 Hc1. destruct y as [[]|e]; [|destruct E as [-> ->]; by apply Hfail].
  apply gom_bind_inv in E as (items & p2 & E2 & E). injection E2 as <- <-. rewrite El in E. unfold String in E. cbn [normalized of_segments] in E.
  rewrite (calm_scope scope p p1) in E by done.
  destruct (scopeObjects scope p !! path_of l) as [item|] eqn:Eitem; [|injection E as <- <-; by apply Hfail].
  calm_next Hc1 E y p2 Hc2. destruct y as [[]|e]; [|destruct E as [-> ->]; by apply Hfail].
  calm_next Hc2 E y p3 Hc3. destruct y as [op|e]; [|destruct E as [-> ->]; by apply Hfail].
  calm_next Hc3 E y p4 Hc4. destruct y as [partial|e]; [|destruct E as [-> ->]; by apply Hfail].
  apply gom_bind_inv in E as (y & p5 & E5 & E). destruct partial.
  - apply mret_inv in E5 as [-> ->]. apply finish_inv in E as (-> & Hsd & Hn & Ht).
    assert (same_drive p p') as Hsd' by (etrans; [by apply calm_same|done]). split; [|by eapply same_drive_ok]. right.
    split; [exact Hy|]. split; [by eapply noted_aside; [apply calm_aside|]|]. split; [etrans; [by apply aside_untouched, calm_aside|exact Ht]|]. by left.
  - apply gom_bind_inv in E5 as (y5 & p6 & E6 & E5). injection E6 as <- <-. apply gom_bind_inv in E5 as (y6 & p7 & E7 & E5).
    apply erase_step in E7 as (-> & Hok7 & Has & Htree & Hother); [|eapply same_drive_ok; [by apply calm_same|done]|done].
    apply mret_inv in E5 as [-> ->]. apply finish_inv in E as (-> & Hsd & Hn & Ht). split; [|by eapply same_drive_ok]. right.
    assert (aside p p7) as Has' by (etrans; [by apply calm_aside|done]).
    split; [exact Hy|]. split; [by eapply noted_aside|]. split; [etrans; [by apply aside_untouched|exact Ht]|]. right. split; [done|].
    exists l. split; [done|]. split; [by rewrite Eitem|]. rewrite Hsd, <-(calm_scope scope p p4) by done. split; [done|].
    intros other Hne. rewrite Hsd, Hother by done. by apply calm_scope.
Qed.

(** ** New objects *)

(** [t] with [n] at [l]. *)
Definition planted (l : list gostring) (n : node) (t : tree) : tree := λ m, if bool_decide (m = l) then Some n else t m.

Section Insert.
Variables (items : gmap gostring object) (l : list gostring) (o : object).
Hypothesis Hs : shaped items.
Hypothesis Hat : entry_at l o.
Hypothesis Hl : l ≠ [].
Hypothesis Hnew : items !! path_of l = None.
Hypothesis Hparent : ∀ q s, l = q ++ [s] → q ≠ [] → ∃ d, items !! path_of q = Some d ∧ is_directory d = true.

Lemma insert_shaped : shaped (<[path_of l := o]> items).
Proof.
  pose proof (ea_good _ _ Hat) as Hg. split.
  - intros k o' Ho'. destruct (decide (k = path_of l)) as [->|Hne].
    + rewrite lookup_insert_eq in Ho'. injection Ho' as <-. by exists l.
    + rewrite lookup_insert_ne in Ho' by done. by apply (sh_at _ Hs).
  - intros m s Hm Hmn Hin. assert (good_segments m) as Hgm by (eapply good_prefix; [|exact Hm|done]; by exists [s]).
    assert (∃ d, items !! path_of m = Some d ∧ is_directory d = true) as (d & Ed & Hd).
    { destruct (decide (path_of (m ++ [s]) = path_of l)) as [E|Hne].
      - apply path_of_good_inj in E; [|done..]. by apply (Hparent m s).
      - rewrite lookup_insert_ne in Hin by done. by apply (sh_rooted _ Hs m s). }
    exists d. split; [|done]. rewrite lookup_insert_ne; [done|]. congruence.
Qed.

Lemma insert_tree : same_tree (tree_of (<[path_of l := o]> items)) (planted l (node_of o) (tree_of items)).
Proof.
  intros m Hm Hg. unfold tree_of, planted. case_bool_decide as E; [subst m; by rewrite lookup_insert_eq|].
  rewrite lookup_insert_ne; [done|]. intros Ep. apply E. symmetry. apply path_of_good_inj; [apply Hat|done|done].
Qed.

Lemma insert_total : size_below (<[path_of l := o]> items) root_path = file_size o + size_below items root_path.
Proof. rewrite !size_below_root by (done || apply insert_shaped). by apply msum_insert. Qed.

Lemma nothing_below d : is_directory o = true →
  size_below items (of_segments l) = 0 ∧ count_below items (of_segments l) = 0 ∧
  size_below (<[path_of l := o]> items) d = size_below items d ∧ count_below (<[path_of l := o]> items) d = count_below items d.
Proof.
  intros Hd. assert (is_file o = false) as Hf by (apply not_true_iff_false; intros ?; by eapply file_not_directory).
  assert (∀ k o', items !! k = Some o' → below (of_segments l) o' = false) as Hb.
  { intros k o' Ho'. destruct (sh_at _ Hs _ _ Ho') as (m & Hm & -> & He). unfold below. rewrite (ea_path _ _ He). apply not_true_iff_false.
    intros [_ [[r ->] _]%descends]%andb_true_iff; [|apply Hat|apply He].
    by rewrite (shaped_closed items l r Hs Hl (ea_good _ _ He) Hnew) in Ho'. }
  split; [|split; [|split]].
  - apply lsum_zero, (msum_all (λ z, z = 0)). intros k o' Ho'. unfold size_in. by rewrite (Hb k o' Ho').
  - apply lsum_zero, (msum_all (λ z, z = 0)). intros k o' Ho'. unfold count_in. by rewrite (Hb k o' Ho').
  - unfold size_below. by rewrite msum_insert, size_in_other.
  - unfold count_below. by rewrite msum_insert, count_in_other.
Qed.

(** An empty directory needs no new sums. *)
Lemma directory_summed :
  is_directory o = true → Entry_Size (obj_entry o) = 0 → Entry_FileCount (obj_entry o) = 0 → summed items → summed (<[path_of l := o]> items).
Proof.
  intros Hd Hz Hc Ht. split.
  - intros k d Hk Hdir. destruct (nothing_below (Entry_Path (obj_entry d)) Hd) as (Z1 & Z2 & -> & ->).
    destruct (decide (k = path_of l)) as [->|Hne].
    + rewrite lookup_insert_eq in Hk. injection Hk as <-. rewrite (ea_path _ _ Hat), Z1, Z2. by rewrite Hz, Hc.
    + rewrite lookup_insert_ne in Hk by done. by eapply su_directory.
  - destruct (nothing_below root_path Hd) as (_ & _ & -> & _). by apply su_total.
Qed.
End Insert.

Definition new_directory (now : Z) (path : UserPath) (version : gostring) : object :=
  {| obj_entry := new_entry now path EntryDirectory 0 [] version; obj_data := []; obj_materialized := true |}.

Lemma new_directory_at now l version : good_segments l → entry_at l (new_directory now (of_segments l) version).
Proof. intros Hl. split; [done|done|done|by right|done]. Qed.

(** ** Creating directories *)

Lemma pruned_absent (items : gmap gostring object) (d : list gostring) :
  shaped items → d ≠ [] → items !! path_of d = None → same_tree (tree_of items) (pruned d (tree_of items)).
Proof.
  intros Hs Hd Hn l Hl Hg. unfold pruned. destruct (strip d l) as [r|] eqn:E; [|done]. apply strip_Some in E as ->. unfold tree_of.
  by rewrite (shaped_closed items d r).
Qed.

(** The destination is cleared: nothing is at [dst], and nothing else is lost. *)
Record cleared (scope : Scope) (dst : list gostring) (p p' : Provider) : Prop := {
  cl_shaped : shaped (scopeObjects scope p');
  cl_total : size_below (scopeObjects scope p') root_path ≤ size_below (scopeObjects scope p) root_path;
  cl_free : scopeObjects scope p' !! path_of dst = None;
  cl_outside l : good_segments l → ¬ dst `prefix_of` l → scopeObjects scope p' !! path_of l = scopeObjects scope p !! path_of l;
  cl_tree : same_tree (tree_of (scopeObjects scope p')) (pruned dst (tree_of (scopeObjects scope p)));
  cl_other other : other ≠ scope → scopeObjects other p' = scopeObjects other p;
}.

Lemma cleared_free scope dst p : shaped (scopeObjects scope p) → dst ≠ [] → scopeObjects scope p !! path_of dst = None → cleared scope dst p p.
Proof. intros Hs Hd Hf. split; try done. by apply pruned_absent. Qed.

Lemma cleared_deleted scope dst p :
  shaped (scopeObjects scope p) → good_segments dst → cleared scope dst p (deleteTreeLocked scope (of_segments dst) p).
Proof.
  intros Hs Hd. assert (scopeObjects scope (deleteTreeLocked scope (of_segments dst) p) = deleted dst (scopeObjects scope p)) as E by apply scope_same.
  split; rewrite ?E.
  - by apply deleted_shaped.
  - by apply deleted_total.
  - rewrite deleted_lookup by done. rewrite <-(app_nil_r dst) at 2. by rewrite strip_app.
  - intros l Hl Hn. rewrite deleted_lookup by done. by apply strip_None in Hn as ->.
  - by apply deleted_tree.
  - intros other Hne. by apply scope_other.
Qed.

(** Clearing a destination leaves its parent. *)
Lemma cleared_parent scope dst p p' :
  good_segments dst → cleared scope dst p p' →
  (∀ q s, dst = q ++ [s] → q ≠ [] → ∃ d, scopeObjects scope p !! path_of q = Some d ∧ is_directory d = true) →
  ∀ q s, dst = q ++ [s] → q ≠ [] → ∃ d, scopeObjects scope p' !! path_of q = Some d ∧ is_directory d = true.
Proof.
  intros Hg Hc Hp q s -> Hq. destruct (Hp q s eq_refl Hq) as (d & Ed & Hd). exists d. split; [|done]. rewrite (cl_outside _ _ _ _ Hc); [done| |].
  - eapply good_prefix; [|exact Hg|done]. by exists [s].
  - intros [k E]. apply (f_equal length) in E. rewrite !length_app in E. cbn in E. lia.
Qed.

Lemma resolve_spec scope dst conflict expected p x p' :
  shaped (scopeObjects scope p) → good_segments dst → dst ≠ [] → resolveDestinationLocked scope (of_segments dst) conflict expected p = (x, p') →
  apart p' = apart p ∧
  match x with
  | Err _ => p' = p
  | Ok c => ∃ dst', good_segments dst' ∧ dst' ≠ [] ∧ c = of_segments dst' ∧ resolves conflict (scopeObjects scope p) dst dst' ∧ cleared scope dst' p p'
  end.
Proof.
  intros Hs Hg Hn E. unfold resolveDestinationLocked in E. apply gom_bind_inv in E as (items & p1 & E1 & E). injection E1 as <- <-.
  unfold String in E. cbn [normalized of_segments] in E. destruct (scopeObjects scope p !! path_of dst) as [o|] eqn:Eo.
  - case_bool_decide as Hf; [by injection E as <- <-|]. case_bool_decide as Hr.
    + apply gom_bind_inv in E as (y & p1 & E1 & E). apply lift_inv in E1 as [-> ->]. destruct (guard_err _ _); [|by destruct E as [-> ->]].
      apply gom_bind_inv in E as (y & p1 & E1 & E). injection E1 as <- <-. apply mret_inv in E as [-> ->]. split; [done|].
      exists dst. split; [done|]. split; [done|]. split; [done|]. split; [|by apply cleared_deleted]. left. split; [done|]. by intros [].
    + case_bool_decide as Hm; [|by injection E as <- <-]. assert (p' = p) as ->.
      { unfold availableRenamedPathLocked in E. apply gom_bind_inv in E as (items & p1 & E1 & E). injection E1 as <- <-.
        destruct (split_extension _). by apply lift_inv in E as [_ ->]. }
      split; [done|]. destruct x as [c|e]; [|done]. destruct dst as [|s q _] using rev_ind; [done|].
      apply available_spec in E as (s' & Hg' & -> & Hfree); [|done]. exists (q ++ [s']). split; [done|]. split; [by destruct q|]. split; [done|].
      split; [|apply cleared_free; [done|by destruct q|done]]. right. split; [done|]. split; [done|]. split; [done|]. by exists q, s, s'.
  - apply mret_inv in E as [-> ->]. split; [done|]. exists dst. split; [done|]. split; [done|]. split; [done|].
    split; [by left|by apply cleared_free].
Qed.

#[export] Instance planted_proper l n : Proper (same_tree ==> same_tree) (planted l n).
Proof. intros t t' Ht m Hm Hg. unfold planted. case_bool_decide; [done|by apply Ht]. Qed.

(** A new object at a cleared place, with the sums recomputed. *)
Lemma insert_step scope l o p p1 x p' :
  drive_ok p → aside p p1 → cleared scope l p p1 → entry_at l o → l ≠ [] →
  (∀ q s, l = q ++ [s] → q ≠ [] → ∃ d, scopeObjects scope p !! path_of q = Some d ∧ is_directory d = true) →
  recomputeRecursiveBytesLocked scope (on_scope scope (insert (path_of l) o) p1) = (x, p') →
  match x with
  | Err e => e = overflow ∧ MaxInt64 < file_size o + size_below (scopeObjects scope p1) root_path ∧ p' = on_scope scope (insert (path_of l) o) p1
  | Ok _ => drive_ok p' ∧ aside p p' ∧
      same_tree (tree_of (scopeObjects scope p')) (planted l (node_of o) (pruned l (tree_of (scopeObjects scope p)))) ∧
      (∀ other, other ≠ scope → scopeObjects other p' = scopeObjects other p)
  end.
Proof.
  intros Hok Ha Hc Hat Hl Hparent E. pose proof (cleared_parent _ _ _ _ (ea_good _ _ Hat) Hc Hparent) as Hp1.
  pose proof (insert_shaped _ l o (cl_shaped _ _ _ _ Hc) Hat Hl (cl_free _ _ _ _ Hc) Hp1) as Hs.
  pose proof (insert_tree (scopeObjects scope p1) l o Hat) as Htree.
  pose proof (insert_total _ l o (cl_shaped _ _ _ _ Hc) Hat Hl (cl_free _ _ _ _ Hc) Hp1) as Htot.
  apply recompute_inv in E; [|by rewrite scope_same]. rewrite scope_same in E. destruct x as [[]|e]; [|by rewrite Htot in E].
  destruct E as (Hm & Hap & Ho & Hr). assert (∀ other, other ≠ scope → scopeObjects other p' = scopeObjects other p) as Hother.
  { intros other Hne. rewrite Ho, scope_other by done. by apply (cl_other _ _ _ _ Hc). }
  split; [|split; [etrans; [exact Ha|by apply apart_aside; rewrite Hap]|split; [|done]]].
  - intros other. destruct (decide (other = scope)) as [->|Hne]; [|by rewrite Hother]. split; [by eapply resummed_shaped|by eapply resummed_summed].
  - by rewrite (resummed_tree _ _ Hr), Htree, (cl_tree _ _ _ _ Hc).
Qed.

Definition mkdir_outcome (scope : Scope) (request : CreateDirectoryRequest) (p : Provider) (x : res Entry) (p' : Provider) : Prop :=
  aside p p' ∧
  match x with
  | Err _ => same_drive p p'
  | Ok entry => ∃ conflict dst dst', NormalizeConflictMode (Create_Conflict request) = Ok conflict ∧ Create_Path request = of_segments dst ∧
      good_segments dst' ∧ dst' ≠ [] ∧ resolves conflict (scopeObjects scope p) dst dst' ∧ Entry_Path entry = of_segments dst' ∧
      same_tree (tree_of (scopeObjects scope p')) (planted dst' DirectoryNode (pruned dst' (tree_of (scopeObjects scope p)))) ∧
      ∀ other, other ≠ scope → scopeObjects other p' = scopeObjects other p
  end.

Lemma CreateDirectory_effect ctx now scope request p x p' :
  drive_ok p → user_path (Create_Path request) → CreateDirectory ctx now scope request p = (x, p') → mkdir_outcome scope request p x p' ∧ drive_ok p'.
Proof.
  intros Hok Hup E.
  assert (∀ e p1, calm p p1 → mkdir_outcome scope request p (Err e) p1 ∧ drive_ok p1) as Hfail.
  { intros e p1 Hc. split; [split; [by apply calm_aside|by apply calm_same]|]. eapply same_drive_ok; [by apply calm_same|done]. }
  unfold CreateDirectory in E. calm_step E y p1 Hc1. destruct y as [[]|e]; [|destruct E as [-> ->]; by apply Hfail].
  apply lift_inv in Ey as [_ ->]. apply gom_bind_inv in E as (y & p1 & E1 & E). apply lift_inv in E1 as [-> ->].
  destruct (guard_err _ _) as [u|e] eqn:Eg; [|destruct E as [-> ->]; by apply Hfail]. apply guard_err_Ok in Eg.
  destruct (usable_path _ Hup Eg) as (dst & Hg & Hn & El). apply gom_bind_inv in E as (y & p1 & E1 & E). apply lift_inv in E1 as [-> ->].
  destruct (NormalizeConflictMode _) as [conflict|e] eqn:Emode; [|destruct E as [-> ->]; by apply Hfail]. rewrite El in E.
  clear Hc1. calm_step E y p1 Hc1. destruct y as [[]|e]; [|destruct E as [-> ->]; by apply Hfail].
  calm_next Hc1 E y p2 Hc2. destruct y as [[]|e]; [|destruct E as [-> ->]; by apply Hfail].
  pose proof (require_parent_spec _ _ _ _ Hg Ey0) as Hparent. rewrite (calm_scope scope p p1) in Hparent by done.
  apply gom_bind_inv in E as (y & p3 & E3 & E). apply resolve_spec in E3 as [Ha3 E3]; [|rewrite (calm_scope scope p p2) by done; apply Hok|done..].
  destruct y as [path|e]; [|destruct E as [-> ->]; subst p3; by apply Hfail]. destruct E3 as (dst' & Hg' & Hn' & -> & Hres & Hcl).
  rewrite (calm_scope scope p p2) in Hres by done. apply gom_bind_inv in E as (original & p4 & E4 & E). injection E4 as <- <-.
  apply gom_bind_inv in E as (y & p4 & E4 & E). unfold newEntryLocked, mbind, gom_bind, nextVersion, mret, gom_ret in E4. injection E4 as <- <-.
  set (p4 := upd_versions _ p3) in E. match type of E with context [new_entry _ _ _ _ _ ?w] => set (v := w) in E end.
  apply gom_bind_inv in E as (y & p5 & E5 & E). injection E5 as <- <-. apply gom_bind_inv in E as (y & p6 & E6 & E). apply or_undo_inv in E6 as (p5 & E5 & ->).
  assert (cleared scope dst' p2 p4) as Hcl4 by (destruct Hcl; by split).
  apply insert_step with (p := p2) (o := new_directory now (of_segments dst') v) in E5;
    [|eapply same_drive_ok; [by apply calm_same|done]|by apply apart_aside|done|by apply new_directory_at|done|].
  2: { rewrite (calm_scope scope p p2) by done. by eapply resolves_parent. }
  destruct y as [[]|e].
  - destruct E5 as (Hok5 & Ha5 & Ht5 & Ho5). apply mret_inv in E as [-> ->]. split; [|done].
    split; [etrans; [by apply calm_aside|done]|]. exists conflict, dst, dst'. rewrite (calm_scope scope p p2) in Ht5 by done.
    repeat (split; [done|]). intros other Hne. rewrite Ho5 by done. by apply calm_scope.
  - exfalso. destruct E5 as (_ & Hbig & _). pose proof (su_total _ (proj2 (Hok scope))) as Htot. pose proof (cl_total _ _ _ _ Hcl4) as Hle.
    rewrite (calm_scope scope p p2) in Hle by done. change (file_size _) with 0 in Hbig. lia.
Qed.
End Effects.
End DriveEffects.
