(* ===== verification/DriveNamespace.v ===== *)
(** * The trash, the batches and the invariant of the drive

    Moving to the trash and back, and the invariant that every operation on the
    namespace of the reference provider keeps. *)

From Stdlib Require Import ZArith Lia.
From S2P Require Import Prelude GoLib GoHash Errors DomainPath DomainIDs ObjectStore ObjectMemory GoJSON GoTime FileTypes DriveMemory DriveTrash DriveTheory DriveSums DriveCopy DriveOps DriveEffects.

Open Scope Z_scope.

Module DriveNamespace.
Import FileTypes DriveMemory DriveTrash DriveTheory DriveSums DriveCopy DriveOps DriveEffects.

Section Namespace.
Context `{NFCLaws} `{!MapOrder} `{!MapOrderLaws} `{!SHA256}.

(** ** The invariant *)

(** The paths on record in the trash are values of their type. *)
Definition trash_ok (p : Provider) : Prop :=
  ∀ k r, trashEntries p !! k = Some r → user_path (TrashEntry_OriginalPath r) ∧ user_path (TrashEntry_TrashedPath r).

(** An upload session aims at a path below the root, has confirmed at most its
    declared size and, while it is materialized, keeps as many bytes as it has
    confirmed. *)
Record session_ok (s : upload) : Prop := {
  so_path : ∃ l, good_segments l ∧ l ≠ [] ∧ up_path s = of_segments l;
  so_size : 0 ≤ up_offset s ≤ up_size s ∧ up_size s ≤ MaxInt64;
  so_data : up_materialized s = true → len (up_data s) = up_offset s;
}.

Definition sessions_ok (p : Provider) : Prop := ∀ id s, uploads p !! id = Some s → session_ok s.

Definition provider_ok (p : Provider) : Prop := drive_ok p ∧ trash_ok p ∧ sessions_ok p.

Lemma untouched_ok p p' : untouched p p' → drive_ok p' → provider_ok p → provider_ok p'.
Proof. intros [Et Eu] Hd (_ & Ht & Hu). split; [done|]. split; [intros k r; rewrite Et; apply Ht|intros id s; rewrite Eu; apply Hu]. Qed.

Lemma calm_ok p p' : calm p p' → provider_ok p → provider_ok p'.
Proof.
  intros Hc Hp. eapply untouched_ok; [by apply aside_untouched, calm_aside| |done]. eapply same_drive_ok; [by apply calm_same|apply Hp].
Qed.

(** Nothing that was answered is forgotten. *)
Definition remembers (p p' : Provider) : Prop := idempotency p ⊆ idempotency p'.

#[export] Instance remembers_preorder : PreOrder remembers.
Proof. split; [intros p; by unfold remembers|]. intros p1 p2 p3 H1' H2'. unfold remembers in *. by etrans. Qed.

Lemma remembers_eq p p' : idempotency p' = idempotency p → remembers p p'.
Proof. intros E. unfold remembers. by rewrite E. Qed.

Lemma calm_remembers p p' : calm p p' → remembers p p'.
Proof. intros Hc. by apply remembers_eq, calm_idempotency. Qed.

Lemma aside_remembers p p' : aside p p' → remembers p p'.
Proof. intros Ha. by apply remembers_eq, aside_idempotency. Qed.

Lemma noted_remembers user name key fingerprint op p p' :
  unanswered user name key p → noted user name key fingerprint op p p' → remembers p p'.
Proof.
  intros Hu [Hi _]. unfold remembers. rewrite Hi. unfold saveIdempotentLocked. case_bool_decide; [done|]. destruct Hu as [|Hu]; [done|].
  by apply insert_subseteq.
Qed.

Lemma unchanged_ok p : provider_ok p → provider_ok p ∧ remembers p p.
Proof. by split. Qed.

(** A computation that keeps the invariant and forgets no answer. *)
Definition safe {E A} (m : GoM Provider E A) : Prop := ∀ p x p', provider_ok p → m p = (x, p') → provider_ok p' ∧ remembers p p'.

Lemma safe_keeps {E A} (m : GoM Provider E A) : keeps m → safe m.
Proof. intros Hm p x p' Hp Ex. pose proof (Hm _ _ _ Ex) as Hc. split; [by eapply calm_ok|by apply calm_remembers]. Qed.

Lemma safe_bind {E A B} (m : GoM Provider E A) (f : A → GoM Provider E B) : safe m → (∀ a, safe (f a)) → safe (m ≫= f).
Proof.
  intros Hm Hf p x p' Hp Ex. apply gom_bind_inv in Ex as (y & p1 & E1 & Ex). destruct (Hm _ _ _ Hp E1) as [Hp1 Hr1].
  destruct y as [a|e]; [|by destruct Ex as [_ ->]]. destruct (Hf a _ _ _ Hp1 Ex). split; [done|by etrans].
Qed.

(** The rest of a computation, once something is known of the state. *)
Lemma safe_at {E A} (m : GoM Provider E A) p x p' : (provider_ok p → safe m) → provider_ok p → m p = (x, p') → provider_ok p' ∧ remembers p p'.
Proof. intros Hm Hp Ex. by eapply Hm. Qed.

Lemma safe_modify {E} f :
  (∀ p, objects (f p) = objects p) → (∀ p, trashEntries (f p) = trashEntries p) → (∀ p, uploads (f p) = uploads p) →
  (∀ p, idempotency (f p) = idempotency p) → safe (modify f : GoM Provider E unit).
Proof.
  intros Ho Ht Hu Hi p x p' Hp [= <- <-]. split; [|unfold remembers; by rewrite Hi].
  apply (untouched_ok p); [split; [apply Ht|apply Hu]| |done]. eapply same_drive_ok; [|apply Hp].
  intros scope. unfold scopeObjects. by rewrite Ho.
Qed.

Lemma safe_lift {E A} (r : result E A) : safe (lift r).
Proof. apply safe_keeps, calm_step_lift. Qed.
Lemma safe_ret {E A} (a : A) : safe (mret a : GoM Provider E A).
Proof. apply safe_keeps, calm_step_ret. Qed.
Lemma safe_throw_if {E} c (e : E) : safe (throw_if c e).
Proof. apply safe_keeps, keeps_throw_if. Qed.
Lemma safe_throw {E A} (e : E) : safe (throw e : GoM Provider E A).
Proof. apply safe_keeps, calm_step_throw. Qed.
Lemma safe_gets {E A} (f : Provider → A) : safe (gets f : GoM Provider E A).
Proof. apply safe_keeps, keeps_gets. Qed.
Lemma safe_draw {A} (m : GoM IDGenerator error A) : safe (draw_id m).
Proof. apply safe_keeps, keeps_draw. Qed.
Lemma safe_before operation : safe (beforeLocked operation).
Proof. apply safe_keeps, keeps_before. Qed.
Lemma safe_stat scope path : safe (statLocked scope path).
Proof. apply safe_keeps, keeps_stat. Qed.

Lemma safe_consume {E} operation wanted : safe (consumeSpecificFaultLocked operation wanted : GoM Provider E bool).
Proof. apply safe_keeps, keeps_consume. Qed.
Lemma safe_parent scope path : safe (requireParentLocked scope path).
Proof. apply safe_keeps, keeps_parent. Qed.

Lemma safe_copyOrMove ctx now name move from to request :
  user_path (Copy_Source request) → user_path (Copy_Destination request) → safe (copyOrMove ctx now name move from to request).
Proof.
  intros Hs Hd p x p' Hp E. apply copyOrMove_effect in E as [Ho Hok']; [|apply Hp|done..].
  destruct x as [op|e]; [|destruct Ho; split; [by eapply untouched_ok; [apply aside_untouched|..]|by apply aside_remembers]].
  destruct Ho as (conflict & _ & [[_ ->]|(Hu & Hn & Ho & _)]); [done|]. split; [by eapply untouched_ok|by eapply noted_remembers].
Qed.

Lemma safe_Delete ctx now scope request : user_path (Delete_Path request) → safe (Delete ctx now scope request).
Proof.
  intros Hs p x p' Hp E. apply Delete_effect in E as [Ho Hok']; [|apply Hp|done..].
  destruct x as [op|e]; [|destruct Ho; split; [by eapply untouched_ok; [apply aside_untouched|..]|by apply aside_remembers]].
  destruct Ho as [[_ ->]|(Hu & Hn & Ho & _)]; [done|]. split; [by eapply untouched_ok|by eapply noted_remembers].
Qed.

Lemma safe_CreateDirectory ctx now scope request : user_path (Create_Path request) → safe (CreateDirectory ctx now scope request).
Proof.
  intros Hs p x p' Hp E. apply CreateDirectory_effect in E as [[Ha _] Hok']; [|apply Hp|done..].
  split; [by eapply untouched_ok; [apply aside_untouched|..]|by apply aside_remembers].
Qed.
End Namespace.

Create HintDb safe.
#[export] Hint Resolve safe_lift safe_ret safe_throw_if safe_throw safe_gets safe_draw safe_before safe_stat safe_consume safe_parent safe_copyOrMove safe_Delete : safe.

(** A computation that keeps the invariant, by its shape. *)
Ltac secure :=
  repeat (first
    [ solve [eauto with safe]
    | apply safe_modify; done
    | apply safe_bind; [|intros ?]
    | case_match ]).

Section Trash.
Context `{NFCLaws} `{!MapOrder} `{!MapOrderLaws} `{!SHA256}.
Variables (ctx : context) (now : Z).

Lemma keeps_Stat scope path : keeps (Stat ctx scope path).
Proof. unfold Stat. stay. Qed.
#[local] Hint Resolve keeps_Stat : calm.

Lemma safe_Stat scope path : safe (Stat ctx scope path).
Proof. apply safe_keeps, keeps_Stat. Qed.
#[local] Hint Resolve safe_Stat : safe.

Lemma must_parse value path : MustParseUserPath value = Ok path → user_path path.
Proof. unfold MustParseUserPath. destruct (ParseUserPath value) as [q|e] eqn:E; [|done]. intros [= <-]. by eapply parsed_path. Qed.

Lemma replay_mutation_inv owner kind key fingerprint p y p' :
  replayNamespaceMutation owner kind key fingerprint p = (y, p') →
  p' = p ∧ match y with
           | Ok (Some op) => namespaceMutations p !! memoryNamespaceMutationKey owner kind key = Some {| nm_fingerprint := fingerprint; nm_operation := op |}
           | _ => True
           end.
Proof.
  intros E. unfold replayNamespaceMutation in E. apply gom_bind_inv in E as (saved & p1 & E1 & E). injection E1 as <- <-.
  destruct (namespaceMutations p !! _) as [[f o]|] eqn:Es; [|by apply mret_inv in E as [-> ->]].
  apply gom_bind_inv in E as (u & p1 & E1 & E). apply lift_inv in E1 as [-> ->]. destruct (guard_err _ _) as [u|] eqn:Eg; [|by destruct E as [-> ->]].
  apply guard_err_Ok, bool_decide_eq_false, dec_stable in Eg. apply mret_inv in E as [-> ->]. cbn in Eg. by subst f.
Qed.

Lemma safe_replay owner kind key fingerprint : safe (replayNamespaceMutation owner kind key fingerprint).
Proof. intros p x p' Hp [-> _]%replay_mutation_inv. done. Qed.
#[local] Hint Resolve safe_replay : safe.

Lemma safe_record owner trashID record :
  user_path (TrashEntry_OriginalPath record) → user_path (TrashEntry_TrashedPath record) →
  safe (modify (upd_trashEntries (insert (memoryTrashKey owner trashID) record)) : DriveM unit).
Proof.
  intros Ho Ht p x p' (Hd & Hr & Hu) [= <- <-]. split; [|by apply remembers_eq]. split; [done|]. split; [|done]. intros k r. cbn. destruct (decide (k = memoryTrashKey owner trashID)) as [->|Hne].
  - rewrite lookup_insert_eq. by intros [= <-].
  - rewrite lookup_insert_ne by done. apply Hr.
Qed.

Lemma safe_settle owner trashID kind key fingerprint op : safe (settle_trash owner trashID kind key fingerprint op).
Proof.
  unfold settle_trash. case_match; [secure|]. apply safe_bind; [|intros; secure].
  intros p x p' (Hd & Hr & Hu) [= <- <-]. split; [|by apply remembers_eq]. split; [done|]. split; [|done]. intros k r. cbn. intros [_ Hk]%lookup_delete_Some. by apply (Hr k).
Qed.
#[local] Hint Resolve safe_settle : safe.

Lemma safe_MoveToTrash owner request : user_path (Trash_Path request) → safe (MoveToTrash ctx now owner request).
Proof.
  intros Hp. unfold MoveToTrash. do 2 (apply safe_bind; [secure|intros ?]). apply safe_bind; [secure|intros [op|]]; [secure|].
  do 2 (apply safe_bind; [secure|intros ?]). intros p x p' Hok E. apply gom_bind_inv in E as (y & p1 & E1 & E). apply lift_inv in E1 as [-> ->].
  destruct (MustParseUserPath _) as [destination|e] eqn:Ed; [|by destruct E as [_ ->]]. apply must_parse in Ed. revert x p' Hok E. revert p.
  match goal with |- ∀ p x p', _ → ?m p = _ → _ => change (safe m) end.
  apply safe_bind; [by apply safe_copyOrMove|intros op]. case_match; [secure|]. apply safe_bind; [secure|intros items].
  apply safe_bind; [by apply safe_record|intros ?]. secure.
Qed.

Lemma safe_taken {A} (f : TrashEntry → DriveM A) (missing : DriveM A) owner trashID :
  safe missing → (∀ record, user_path (TrashEntry_OriginalPath record) → user_path (TrashEntry_TrashedPath record) → safe (f record)) →
  safe (entries ← gets trashEntries; match entries !! memoryTrashKey owner trashID with None => missing | Some record => f record end).
Proof.
  intros Hm Hf p x p' Hok E. apply gom_bind_inv in E as (entries & p1 & E1 & E). injection E1 as <- <-.
  destruct (trashEntries p !! _) as [record|] eqn:Er; [|by eapply Hm]. destruct (proj1 (proj2 Hok) _ _ Er). by eapply Hf.
Qed.

Lemma safe_RestoreFromTrash owner trashID conflict key : safe (RestoreFromTrash ctx now owner trashID conflict key).
Proof.
  unfold RestoreFromTrash. do 4 (apply safe_bind; [secure|intros ?]). case_match; [secure|].
  apply safe_taken; [secure|]. intros record Ho Ht. apply safe_bind; [by apply safe_copyOrMove|]. secure.
Qed.

Lemma safe_DeleteFromTrash owner trashID key : safe (DeleteFromTrash ctx now owner trashID key).
Proof.
  unfold DeleteFromTrash. do 4 (apply safe_bind; [secure|intros ?]). case_match; [secure|].
  apply safe_taken; [secure|]. intros record Ho Ht. apply safe_bind; [by apply safe_Delete|]. secure.
Qed.

Lemma safe_ListTrash owner request : safe (ListTrash ctx owner request).
Proof. unfold ListTrash, trashPageLocked. secure. Qed.

Lemma safe_List scope request : safe (List ctx scope request).
Proof. unfold List, listPageLocked. secure. Qed.

(** *** Batches *)

Lemma safe_loop {A} (step : Z → A → DriveM NamespaceBatchItemResult) index requests :
  (∀ i r, r ∈ requests → safe (step i r)) → safe (batch_loop step index requests).
Proof.
  revert index. induction requests as [|r requests IH]; intros index Hs; [apply safe_ret|]. cbn. apply safe_bind; [apply Hs; by left|intros item].
  apply safe_bind; [|intros ?; secure]. apply IH. intros i r' Hr. apply Hs. by right.
Qed.

Lemma safe_operation user : safe (newOperationLocked now user).
Proof. apply safe_keeps, keeps_operation. Qed.
#[local] Hint Resolve safe_operation : safe.

Lemma safe_run {A} owner label key fingerprint (step : Z → A → DriveM NamespaceBatchItemResult) requests :
  (∀ i r, r ∈ requests → safe (step i r)) → safe (run_batch now owner label key fingerprint step requests).
Proof.
  intros Hs p x p' Hok E. unfold run_batch in E. match type of E with context [match ?t with (_, _) => _ end] => destruct t as [y p1] eqn:Em end.
  assert (safe (items ← batch_loop step 0 requests; finishMemoryBatch now owner label key fingerprint items)) as Hm.
  { apply safe_bind; [by apply safe_loop|]. intros items. unfold finishMemoryBatch. secure. }
  specialize (Hm _ _ _ Hok Em). destruct y as [result|err]; injection E as <- <-; [done|]. destruct (is_panic err); [done|].
  destruct Hok as (Hd & Ht & _), Hm as ((_ & _ & Hu) & _). split; [by split|by apply remembers_eq].
Qed.

Lemma safe_replay_batch owner label key fingerprint : safe (replayMemoryBatch owner label key fingerprint).
Proof. unfold replayMemoryBatch. secure. Qed.
#[local] Hint Resolve safe_replay_batch : safe.

Lemma safe_step run item : safe run → safe (batch_step run item).
Proof. intros Hr. unfold batch_step. secure. Qed.

Lemma safe_BatchCopyMove owner requests move key :
  (∀ r, r ∈ requests → user_path (Copy_Source r) ∧ user_path (Copy_Destination r)) → safe (BatchCopyMove ctx now owner requests move key).
Proof.
  intros Hr. unfold BatchCopyMove. do 2 (apply safe_bind; [secure|intros ?]). case_match; [secure|]. apply safe_run. intros i r Hin.
  destruct (Hr r Hin). apply safe_step. case_match; by apply safe_copyOrMove.
Qed.

Lemma safe_BatchMoveToTrash owner requests key :
  (∀ r, r ∈ requests → user_path (Trash_Path r)) → safe (BatchMoveToTrash ctx now owner requests key).
Proof.
  intros Hr. unfold BatchMoveToTrash. do 2 (apply safe_bind; [secure|intros ?]). case_match; [secure|]. apply safe_run. intros i r Hin.
  apply safe_step, safe_MoveToTrash. exact (Hr r Hin).
Qed.

Lemma safe_BatchRestoreFromTrash owner trashIDs conflict key : safe (BatchRestoreFromTrash ctx now owner trashIDs conflict key).
Proof.
  unfold BatchRestoreFromTrash. do 3 (apply safe_bind; [secure|intros ?]). case_match; [secure|]. apply safe_bind; [secure|intros ?].
  apply safe_run. intros i r Hin. unfold restore_step, trash_record. apply safe_bind; [secure|intros ?].
  apply safe_bind; [apply safe_step, safe_RestoreFromTrash|intros ?]. secure.
Qed.

Lemma safe_BatchDeleteFromTrash owner trashIDs key : safe (BatchDeleteFromTrash ctx now owner trashIDs key).
Proof.
  unfold BatchDeleteFromTrash. do 2 (apply safe_bind; [secure|intros ?]). case_match; [secure|]. apply safe_bind; [secure|intros ?].
  apply safe_run. intros i r Hin. unfold delete_step, trash_record. apply safe_bind; [secure|intros ?].
  apply safe_step, safe_DeleteFromTrash.
Qed.

(** *** Preparing directories *)

Lemma require_parent_same scope path p x p' : requireParentLocked scope path p = (x, p') → p' = p.
Proof.
  unfold requireParentLocked. destruct (IsRoot _); [by intros [= _ <-]|]. intros E.
  apply gom_bind_inv in E as (items & p1 & E1 & E). injection E1 as <- <-. destruct (_ !! _); [by apply lift_inv in E as [_ ->]|by injection E].
Qed.

(** One path of a preparation: its directory is there, or nothing has changed. *)
Definition prepared (scope : Scope) (l : list gostring) (p : Provider) (result : DirectoryPreparationResult) (p' : Provider) : Prop :=
  Prep_Path result = of_segments l ∧ (∀ other, other ≠ scope → scopeObjects other p' = scopeObjects other p) ∧
  if Prep_Ready result then
    same_tree (tree_of (scopeObjects scope p')) (planted l DirectoryNode (tree_of (scopeObjects scope p))) ∧
    (tree_of (scopeObjects scope p) l = None ∨ tree_of (scopeObjects scope p) l = Some DirectoryNode)
  else p' = p.

Lemma prepare_directory_effect scope index l p x p' :
  provider_ok p → good_segments l → l ≠ [] → prepare_directory now scope index (of_segments l) p = (x, p') →
  provider_ok p' ∧ aside p p' ∧ ∃ result, x = Ok result ∧ Prep_Index result = index ∧ prepared scope l p result p'.
Proof.
  intros (Hok & Ht & Hu) Hl Hn E. destruct (Hok scope) as [Hs Hsum].
  unfold prepare_directory in E. apply gom_bind_inv in E as (items & p1 & E1 & E). injection E1 as <- <-. unfold String in E. cbn [normalized of_segments] in E.
  assert (∀ code, x = Ok (preparation_result index (of_segments l) false code) → p' = p →
    provider_ok p' ∧ aside p p' ∧ ∃ result, x = Ok result ∧ Prep_Index result = index ∧ prepared scope l p result p') as Hfail.
  { intros code -> ->. split; [done|]. split; [done|]. by eexists. }
  destruct (scopeObjects scope p !! path_of l) as [o|] eqn:Eo.
  - apply mret_inv in E as [-> ->]. destruct (is_directory o) eqn:Ed; [|by eapply Hfail]. split; [done|]. split; [done|]. eexists. split; [done|]. split; [done|].
    split; [done|]. split; [done|]. cbn [Prep_Ready preparation_result].
    assert (tree_of (scopeObjects scope p) l = Some DirectoryNode) as El.
    { unfold tree_of. rewrite Eo. cbn. unfold node_of. destruct (is_file o) eqn:Ef; [by destruct (file_not_directory o)|done]. }
    split; [|by right]. intros m Hm Hgm. unfold planted. case_bool_decide; [by subst m|done].
  - destruct (file_above _ _); [apply mret_inv in E as [-> ->]; by eapply Hfail|].
    destruct (requireParentLocked scope (of_segments l) p) as [y p1] eqn:Ep. pose proof (require_parent_same _ _ _ _ _ Ep) as ->.
    destruct y as [[]|e]; [|injection E as <- <-; by eapply Hfail]. pose proof (require_parent_spec _ _ _ _ Hl Ep) as Hparent.
    unfold newEntryLocked, mbind, gom_bind, nextVersion, mret, gom_ret, modify in E.
    injection E as <- <-. set (p1 := upd_versions _ p). match goal with |- context [new_entry _ _ _ _ _ ?w] => set (v := w) end.
    change {| obj_entry := _; obj_data := []; obj_materialized := true |} with (new_directory now (of_segments l) v).
    pose proof (new_directory_at now l v Hl) as Hat. set (o := new_directory now (of_segments l) v) in *.
    assert (scopeObjects scope (on_scope scope (insert (path_of l) o) p1) = <[path_of l := o]> (scopeObjects scope p)) as Es by exact (scope_same scope _ p1).
    assert (∀ other, other ≠ scope → scopeObjects other (on_scope scope (insert (path_of l) o) p1) = scopeObjects other p) as Hother.
    { intros other Hne. by rewrite scope_other. }
    split; [|split; [by apply apart_aside|]].
    + split; [|done]. intros other. destruct (decide (other = scope)) as [->|Hne]; [|by rewrite Hother by done; apply Hok]. rewrite Es.
      split; [by apply insert_shaped|by apply directory_summed].
    + eexists. split; [done|]. split; [done|]. split; [done|]. split; [done|]. cbn [Prep_Ready preparation_result].
      split; [rewrite Es; by apply insert_tree|]. left. unfold tree_of. by rewrite Eo.
Qed.

(** The directories of a list of paths, planted one after the other. *)
Definition planted_all (paths : list (list gostring)) (t : tree) : tree := fold_left (λ t l, planted l DirectoryNode t) paths t.

#[export] Instance planted_all_proper paths : Proper (same_tree ==> same_tree) (planted_all paths).
Proof. unfold planted_all. induction paths as [|l paths IH]; intros t t' Ht; [done|]. cbn. apply IH. by rewrite Ht. Qed.

Definition ready_paths (results : list DirectoryPreparationResult) : list (list gostring) :=
  map (λ r, Segments (Prep_Path r)) (filter (λ r, Prep_Ready r = true) results).

(** The path is usable, and a value of its type. *)
Definition target_path (path : UserPath) : Prop := ∃ l, good_segments l ∧ l ≠ [] ∧ path = of_segments l.

Lemma prepare_ordered_effect scope paths p x p' :
  provider_ok p → Forall (λ ip, target_path (snd ip)) paths → prepare_ordered now scope paths p = (x, p') →
  provider_ok p' ∧ aside p p' ∧ ∃ results, x = Ok results ∧ map (λ r, (Prep_Index r, Prep_Path r)) results = paths ∧
    (∀ other, other ≠ scope → scopeObjects other p' = scopeObjects other p) ∧
    same_tree (tree_of (scopeObjects scope p')) (planted_all (ready_paths results) (tree_of (scopeObjects scope p))).
Proof.
  revert p x p'. induction paths as [|[index path] paths IH]; intros p x p' Hok Hall E.
  - apply mret_inv in E as [-> ->]. split; [done|]. split; [done|]. by exists [].
  - apply list.Forall_cons in Hall as [(l & Hl & Hn & Ep) Hall]. cbn [snd] in Ep. subst path. cbn [prepare_ordered] in E.
    apply gom_bind_inv in E as (y & p1 & E1 & E). apply prepare_directory_effect in E1 as (Hok1 & Ha1 & result & -> & Hi & Hp & Hother & Hr); [|done..].
    apply gom_bind_inv in E as (y & p2 & E2 & E). apply IH in E2 as (Hok2 & Ha2 & results & -> & Hmap & Hother2 & Htree); [|done..].
    apply mret_inv in E as [-> ->]. split; [done|]. split; [by etrans|]. exists (result :: results). split; [done|]. split; [cbn; by rewrite Hmap, Hi, Hp|].
    split; [intros other Hne; by rewrite Hother2, Hother|]. rewrite Htree. unfold ready_paths. rewrite filter_cons.
    destruct (Prep_Ready result) eqn:Er; [rewrite decide_True by done|rewrite decide_False by done].
    + cbn [map]. rewrite Hp, Segments_of_segments by by apply good_segments_weaken. cbn. by rewrite (proj1 Hr).
    + by subst p1.
Qed.

Lemma preparation_paths_ok seen paths u : preparation_paths seen paths = Ok u → Forall (λ path, negb (Valid path) || IsRoot path = false) paths ∧ NoDup paths ∧ (∀ path, path ∈ paths → path ∉ seen).
Proof.
  revert seen. induction paths as [|path paths IH]; intros seen E; [split; [done|]; split; [constructor|]; intros q Hq; by apply not_elem_of_nil in Hq|].
  cbn [preparation_paths] in E. inv_go. match goal with Hx : _ || _ = false |- _ => apply orb_false_iff in Hx as [Hv Hseen] end.
  apply bool_decide_eq_false in Hseen. destruct (IH _ E) as (Hall & Hnd & Hout). split; [by constructor|]. split.
  - constructor; [|done]. intros Hin. apply (Hout _ Hin). by left.
  - intros q [->|Hq]%elem_of_cons; [done|]. intros Hs. apply (Hout _ Hq). by right.
Qed.

Lemma PrepareDirectories_effect scope paths p x p' :
  provider_ok p → Forall user_path paths → PrepareDirectories ctx now scope paths p = (x, p') →
  provider_ok p' ∧ aside p p' ∧
  match x with
  | Err _ => same_drive p p'
  | Ok results => ∃ ordered, ordered ≡ₚ results ∧ map (λ r, (Prep_Index r, Prep_Path r)) ordered ≡ₚ imap (λ i path, (Z.of_nat i, path)) paths ∧
      (∀ other, other ≠ scope → scopeObjects other p' = scopeObjects other p) ∧
      same_tree (tree_of (scopeObjects scope p')) (planted_all (ready_paths ordered) (tree_of (scopeObjects scope p)))
  end.
Proof.
  intros Hok Hup E.
  assert (∀ (r : res (list DirectoryPreparationResult)) e p1, r = Err e → calm p p1 → provider_ok p1 ∧ aside p p1 ∧ match r with Err _ => same_drive p p1 | _ => False end) as Hfail.
  { intros r e p1 -> Hc. split; [by eapply calm_ok|]. split; [by apply calm_aside|by apply calm_same]. }
  unfold PrepareDirectories in E. calm_step E y p1 Hc1. destruct y as [[]|e]; [|destruct E as [-> ->]; by eapply (Hfail (Err e))].
  calm_next Hc1 E y p2 Hc2. destruct y as [[]|e]; [|destruct E as [-> ->]; by eapply (Hfail (Err e))].
  calm_next Hc2 E y p3 Hc3. destruct y as [[]|e]; [|destruct E as [-> ->]; by eapply (Hfail (Err e))].
  apply lift_inv in Ey1 as [Ev _]. symmetry in Ev. unfold ValidateDirectoryPreparationPaths in Ev. inv_go. apply preparation_paths_ok in Ev as (Hall & _).
  calm_next Hc3 E y p4 Hc4. destruct y as [[]|e]; [|destruct E as [-> ->]; by eapply (Hfail (Err e))].
  apply gom_bind_inv in E as (y & p5 & E5 & E). apply prepare_ordered_effect in E5 as (Hok5 & Ha5 & ordered & -> & Hmap & Hother & Htree); [|by eapply calm_ok|].
  2: { apply list.Forall_forall. intros [i path] Hin. rewrite merge_sort_Permutation in Hin. apply elem_of_lookup_imap in Hin as (j & q & [= _ ->] & Hq).
       apply list_elem_of_lookup_2 in Hq. rewrite list.Forall_forall in Hall, Hup. destruct (usable_path q) as (l & ? & ? & ?); [by apply Hup|by apply Hall|by exists l]. }
  apply mret_inv in E as [-> ->]. split; [done|]. split; [etrans; [by apply calm_aside|done]|]. exists ordered. split; [by rewrite merge_sort_Permutation|]. split; [by rewrite Hmap, merge_sort_Permutation|].
  split; [intros other Hne; rewrite Hother by done; by apply calm_scope|]. by rewrite Htree, (calm_scope scope p p4).
Qed.

Lemma safe_PrepareDirectories scope paths : Forall user_path paths → safe (PrepareDirectories ctx now scope paths).
Proof. intros Hp p x p' Hok E. apply PrepareDirectories_effect in E as (Hok' & Ha & _); [|done..]. split; [done|by apply aside_remembers]. Qed.
End Trash.
End DriveNamespace.
