(* ===== verification/DriveTransfer.v ===== *)
(** * Upload sessions of the reference provider

    Sessions stay within their declared size, and completing one stores exactly
    the bytes it received. *)

From Stdlib Require Import ZArith Lia.
From S2P Require Import Prelude GoLib GoHash Errors DomainPath DomainIDs ObjectStore ObjectMemory GoJSON GoTime FileTypes DriveMemory DriveTrash DriveUpload DriveTheory DriveSums DriveCopy DriveOps DriveEffects DriveNamespace.

Open Scope Z_scope.

Module DriveTransfer.
Import FileTypes DriveMemory DriveUpload DriveTheory DriveSums DriveCopy DriveOps DriveEffects DriveNamespace.

Section Transfer.
Context `{NFCLaws} `{!MapOrder} `{!MapOrderLaws} `{!SHA256} `{!MIME} `{!ContentSniffer} `{!MediaFormat}.
Variables (ctx : context) (now : Z).

(** ** Sessions *)

Lemma safe_session {E} id s : session_ok s → safe (modify (upd_uploads (insert id s)) : GoM Provider E unit).
Proof.
  intros Hs p x p' (Hd & Ht & Hu) [= <- <-]. split; [|by apply remembers_eq]. split; [done|]. split; [done|]. intros id' s'. cbn. destruct (decide (id' = id)) as [->|Hne].
  - rewrite lookup_insert_eq. by intros [= <-].
  - rewrite lookup_insert_ne by done. apply Hu.
Qed.

Lemma find_inv scope id p y p' :
  find_upload scope id p = (y, p') → p' = p ∧ match y with Ok s => uploads p !! id = Some s ∧ up_scope s = scope | Err _ => True end.
Proof.
  intros E. unfold find_upload in E. apply gom_bind_inv in E as (m & p1 & E1 & E). injection E1 as <- <-.
  destruct (uploads p !! id) as [s|] eqn:Es; [|by injection E as <- <-].
  apply gom_bind_inv in E as (u & p1 & E1 & E). apply lift_inv in E1 as [-> ->]. destruct (guard_err _ _) eqn:Eg; [|by destruct E as [-> ->]].
  apply guard_err_Ok, bool_decide_eq_false, dec_stable in Eg. apply mret_inv in E as [-> ->]. done.
Qed.

Lemma safe_find {A} scope id (f : upload → DriveM A) : (∀ s, session_ok s → safe (f s)) → safe (find_upload scope id ≫= f).
Proof.
  intros Hf p x p' Hp E. apply gom_bind_inv in E as (y & p1 & E1 & E). apply find_inv in E1 as [-> Hy].
  destruct y as [s|e]; [|destruct E as [_ ->]; by apply unchanged_ok]. eapply Hf; [|exact Hp|exact E]. destruct Hy as [Hy _]. by apply (proj2 (proj2 Hp) id).
Qed.

Lemma session_state_ok s state : session_ok s → session_ok (with_state s state).
Proof. by intros []. Qed.

Lemma session_offset_ok s offset : session_ok s → up_offset s ≤ offset ≤ up_size s → session_ok (with_offset s offset).
Proof. intros [Hp Hs Hd] Ho. split; [done|cbn; lia|done]. Qed.

Lemma session_batch_ok s id index count : session_ok s → session_ok (with_batch s id index count).
Proof. by intros []. Qed.

Lemma safe_abortUpload scope id : safe (abortUpload ctx scope id).
Proof.
  unfold abortUpload. do 3 (apply safe_bind; [secure|intros ?]). apply safe_find. intros s Hs. apply safe_bind; [secure|intros ?].
  apply safe_bind; [by apply safe_session, session_state_ok|intros ?]. secure.
Qed.

Lemma safe_simulate scope id offset : safe (SimulateUploadOffset ctx scope id offset).
Proof.
  unfold SimulateUploadOffset. apply safe_bind; [secure|intros ?]. apply safe_find. intros s Hs p x p' Hp E.
  apply gom_bind_inv in E as (y & p1 & E1 & E). apply lift_inv in E1 as [-> ->]. destruct (guard_err _ _) eqn:Eg; [|destruct E as [_ ->]; by apply unchanged_ok].
  apply guard_err_Ok in Eg. apply orb_false_iff in Eg as [[_ E1%Z.ltb_ge]%orb_false_iff E2%Z.ltb_ge].
  eapply safe_session; [|exact Hp|exact E]. by apply session_offset_ok.
Qed.

(** ** Creating a session *)

Lemma upload_target_spec scope request conflict l p y p' :
  CUpload_Path request = of_segments l → good_segments l → l ≠ [] → upload_target scope request conflict p = (y, p') →
  p' = p ∧ match y with Ok (path, _) => ∃ l', good_segments l' ∧ l' ≠ [] ∧ path = of_segments l' | Err _ => True end.
Proof.
  intros El Hl Hn E. unfold upload_target in E. apply gom_bind_inv in E as (items & p1 & E1 & E). injection E1 as <- <-.
  destruct (_ !! String (CUpload_Path request)) as [o|].
  - case_bool_decide; [by injection E as <- <-|]. case_bool_decide.
    + apply gom_bind_inv in E as (u & p1 & E1 & E). apply lift_inv in E1 as [-> ->]. destruct (guard_err _ _); [|by destruct E as [-> ->]].
      apply mret_inv in E as [-> ->]. split; [done|]. by exists l.
    + apply gom_bind_inv in E as (u & p1 & E1 & E). rewrite El in E1. assert (p1 = p) as ->.
      { unfold availableRenamedPathLocked in E1. apply gom_bind_inv in E1 as (items & p2 & E2 & E1). injection E2 as <- <-.
        destruct (split_extension _). by apply lift_inv in E1 as [_ ->]. }
      destruct u as [c|e]; [|by destruct E as [-> ->]]. apply mret_inv in E as [-> ->]. split; [done|].
      destruct l as [|s q _] using rev_ind; [done|]. apply available_spec in E1 as (s' & Hg & -> & _); [|done]. exists (q ++ [s']). split; [done|]. by destruct q.
  - apply mret_inv in E as [-> ->]. split; [done|]. by exists l.
Qed.

(** Sizes are [int64] values. *)
Lemma safe_createUpload scope request :
  user_path (CUpload_Path request) → CUpload_Size request ≤ MaxInt64 → safe (createUpload ctx now scope request).
Proof.
  intros Hup Hsize. unfold createUpload. apply safe_bind; [secure|intros ?]. intros p x p' Hp E.
  apply gom_bind_inv in E as (y & p1 & E1 & E). apply lift_inv in E1 as [-> ->]. destruct (guard_err _ _) eqn:Eg; [|destruct E as [_ ->]; by apply unchanged_ok].
  apply guard_err_Ok, orb_false_iff in Eg as [Hpath Hpos%Z.ltb_ge]. destruct (usable_path _ Hup Hpath) as (l & Hl & Hn & El).
  revert Hp E. match goal with |- _ → ?m p = _ → _ => enough (safe m) as Hm by (intros Hp E; exact (Hm _ _ _ Hp E)) end.
  do 4 (apply safe_bind; [secure|intros ?]). case_match; [secure|]. do 4 (apply safe_bind; [secure|intros ?]).
  clear p x p'. intros p x p' Hp E. apply gom_bind_inv in E as (y & p1 & E1 & E). apply (upload_target_spec _ _ _ l) in E1 as [-> Hy]; [|done..].
  destruct y as [[path existed]|e]; [|destruct E as [_ ->]; by apply unchanged_ok]. destruct Hy as (l' & Hl' & Hn' & ->).
  revert Hp E. match goal with |- _ → ?m p = _ → _ => enough (safe m) as Hm by (intros Hp E; exact (Hm _ _ _ Hp E)) end.
  do 5 (apply safe_bind; [secure|intros ?]).
  apply safe_bind; [|intros ?; case_bool_decide; secure]. apply safe_session. split; [by exists l'|cbn; lia|done].
Qed.

(** ** Receiving *)

Lemma keeps_serve_before operation : keeps (serve_before operation).
Proof.
  intros p x p' E. unfold serve_before in E. destruct (beforeLocked operation p) as [[u|e] p1] eqn:Eb; injection E as <- <-; by eapply keeps_before.
Qed.

Lemma keeps_metrics {E} f : keeps (modify (upd_metrics f) : GoM Provider E unit).
Proof. intros p x p' [= <- <-]. by destruct p. Qed.

Lemma upload_checks_inv request token p y p' :
  sessions_ok p → upload_checks now request token p = (y, p') →
  calm p p' ∧ match y with
              | Ok (id, s, received) => uploads p !! id = Some s ∧ session_ok s ∧ up_state s = UploadStateActive ∧ len received ≤ up_size s - up_offset s
              | Err _ => True
              end.
Proof.
  intros Hu E. unfold upload_checks in E. apply gom_bind_inv in E as (u & p1 & E1 & E). apply keeps_serve_before in E1 as Hc1.
  destruct u as [[]|e]; [|by destruct E as [-> ->]]. apply gom_bind_inv in E as (tokens & p2 & E2 & E). injection E2 as <- <-.
  apply gom_bind_inv in E as (sessions & p2 & E2 & E). injection E2 as <- <-.
  assert (uploads p1 = uploads p) as Eu by exact (proj2 (aside_untouched _ _ (calm_aside _ _ Hc1))). rewrite Eu in E.
  destruct (uploadTokens p1 !! sha256 token) as [id|]; cbn in E; [|by injection E as <- <-].
  destruct (uploads p !! id) as [s|] eqn:Es; cbn in E; [|by injection E as <- <-]. pose proof (Hu id s Es) as Hs.
  do 5 (apply gom_bind_inv in E as (u & p2 & E2 & E); apply lift_inv in E2 as [-> ->]; destruct (guard_err _ _) eqn:?Eg in E; [|by destruct E as [-> ->]]).
  apply guard_err_Ok, bool_decide_eq_false, dec_stable in Eg.
  apply gom_bind_inv in E as (conf & p2 & E2 & E). injection E2 as <- <-.
  set (received := take _ (Request_Body request)) in E. clearbody received. apply gom_bind_inv in E as (u' & p2 & E2 & E). apply keeps_metrics in E2 as Hc2.
  destruct u' as [[]|?]; [|destruct E as [-> ->]; split; [by etrans|done]]. assert (calm p p2) as Hc by by etrans.
  do 3 (apply gom_bind_inv in E as (u' & p3 & E3 & E); apply lift_inv in E3 as [-> ->]; destruct (guard_err _ _) eqn:?Eg in E; [|by destruct E as [-> ->]]).
  apply mret_inv in E as [-> ->]. split; [done|]. split; [done|]. split; [done|]. split; [done|].
  match goal with Hx : guard_err (_ <? len received) _ = _ |- _ => apply guard_err_Ok, Z.ltb_ge in Hx as Hlen end.
  pose proof (so_size _ Hs). rewrite i64_small in Hlen by lia. destruct (is_resumable s); lia.
Qed.

Lemma with_body_ok s keep accepted :
  session_ok s → len accepted ≤ up_size s - up_offset s → (keep = true → up_materialized s = true) → session_ok (with_body s keep accepted).
Proof.
  intros [Hp Hs Hd] Hl Hk. pose proof (len_nonneg accepted). split; [done| |].
  - cbn. rewrite i64_small by lia. lia.
  - cbn. destruct keep; [|done]. intros _. rewrite len_app, (Hd (Hk eq_refl)), i64_small by lia. done.
Qed.

Lemma accepted_bound (b : bool) (received : gostring) n :
  n = (if b && (0 <? len received) then Z.max 1 (len received / 2) else len received) → len (take (Z.to_nat n) received) ≤ len received.
Proof. intros _. unfold len. rewrite length_take. lia. Qed.

Lemma safe_serveUpload request token : safe (serveUpload now request token).
Proof.
  intros p x p' Hp E. unfold serveUpload in E. apply gom_bind_inv in E as (y & p1 & E1 & E). apply upload_checks_inv in E1 as [Hc Hy]; [|apply Hp].
  pose proof (calm_ok _ _ Hc Hp) as Hp1. pose proof (calm_remembers _ _ Hc) as Hr1.
  enough (provider_ok p' ∧ remembers p1 p') as [? Hr2] by (split; [done|by etrans]).
  destruct y as [[[id s] received]|e]; [|destruct E as [_ ->]; by apply unchanged_ok]. destruct Hy as (_ & Hs & _ & Hlen).
  revert Hp1 E. match goal with |- _ → ?m p1 = _ → _ => enough (safe m) as Hm by (intros Hp1 E; exact (Hm _ _ _ Hp1 E)) end.
  apply safe_bind; [secure|intros interrupted]. apply safe_bind; [secure|intros conf]. case_match; [secure|].
  apply safe_bind; [|intros ?; secure]. apply safe_session. apply with_body_ok; [done| |by intros [? _]%andb_true_iff].
  etrans; [by eapply accepted_bound|done].
Qed.

Lemma safe_serveDownload request token : safe (serveDownload now request token).
Proof.
  unfold serveDownload. apply safe_bind; [apply safe_keeps, keeps_serve_before|intros ?]. secure.
Qed.

Lemma safe_CreateDownload scope request : safe (CreateDownload ctx now scope request).
Proof.
  unfold CreateDownload. secure.
Qed.

(** ** Completing *)

(** The directory a path lies in is there. *)
Definition parent_present (items : gmap gostring object) (l : list gostring) : Prop :=
  ∀ q s, l = q ++ [s] → q ≠ [] → ∃ d, items !! path_of q = Some d ∧ is_directory d = true.

(** The session may be completed: it is active and complete, and its destination
    is as it was. *)
Record completable (scope : Scope) (request : CompleteUploadRequest) (s : upload) (p : Provider) : Prop := {
  cp_session : uploads p !! Complete_UploadID request = Some s;
  cp_state : up_state s = UploadStateActive;
  cp_offset : up_offset s = up_size s;
  cp_target : up_targetExisted s = false → scopeObjects scope p !! String (up_path s) = None;
}.

Lemma check_completion_inv scope request mediaType p y p' :
  check_completion now scope request mediaType p = (y, p') →
  calm p p' ∧ match y with Ok s => completable scope request s p | Err _ => True end.
Proof.
  intros E. unfold check_completion in E. apply gom_bind_inv in E as (y1 & p1 & E1 & E). apply find_inv in E1 as [-> Hy].
  destruct y1 as [s|e]; [|by destruct E as [-> ->]].
  do 4 (apply gom_bind_inv in E as (u & p2 & E2 & E); apply lift_inv in E2 as [-> ->]; destruct (guard_err _ _) eqn:?Eg in E; [|by destruct E as [-> ->]]).
  calm_step E u p1 Hc. destruct u as [mismatch|e]; [|by destruct E as [-> ->]]. apply gom_bind_inv in E as (u & p2 & E2 & E). apply lift_inv in E2 as [-> ->].
  destruct (guard_err _ _) in E; [|by destruct E as [-> ->]]. apply gom_bind_inv in E as (items & p2 & E2 & E). injection E2 as <- <-.
  calm_next Hc E u p2 Hc2. destruct u as [[]|e]; [|by destruct E as [-> ->]]. apply mret_inv in E as [-> ->]. split; [done|]. split.
  - apply Hy.
  - by apply guard_err_Ok, bool_decide_eq_false, dec_stable in Eg.
  - apply guard_err_Ok, negb_false_iff, Z.eqb_eq in Eg2. done.
  - intros Ef. rewrite Ef in Ey0. apply lift_inv in Ey0 as [Ey0 _]. symmetry in Ey0. apply guard_err_Ok, bool_decide_eq_false in Ey0.
    rewrite (calm_scope scope p p1) in Ey0 by done. by apply eq_None_not_Some.
Qed.

(** The file a session becomes. *)
Definition file_of (s : upload) (contentID contentVersion : gostring) : node :=
  FileNode (trustedMediaType (up_mediaType s) (up_data s) (up_materialized s)) (up_data s) (up_materialized s) (up_size s) now
    contentID contentVersion now.

Lemma new_file_inv path size mediaType p y p' :
  newFileEntryLocked now path size mediaType p = (y, p') →
  calm p p' ∧ match y with
              | Ok e => Entry_Path e = path ∧ Entry_Name e = Name path ∧ Entry_Kind e = EntryFile ∧ Entry_Size e = size ∧ Entry_FileCount e = 1 ∧
                        Entry_MediaType e = mediaType ∧ Entry_ModifiedAt e = now ∧ Entry_ContentModifiedAt e = now
              | Err _ => True
              end.
Proof.
  intros E. unfold newFileEntryLocked in E. calm_step E u p1 Hc1. destruct u as [a|e]; [|by destruct E as [-> ->]].
  calm_next Hc1 E u p2 Hc2. destruct u as [b|e]; [|by destruct E as [-> ->]].
  calm_next Hc2 E u p3 Hc3. destruct u as [c|e]; [|by destruct E as [-> ->]]. apply mret_inv in E as [-> ->]. split; [done|].
  unfold newEntryLocked, mbind, gom_bind, nextVersion, mret, gom_ret in Ey1. injection Ey1 as <- _. done.
Qed.

Definition stored (s : upload) (entry : Entry) : object :=
  {| obj_entry := entry; obj_data := up_data s; obj_materialized := up_materialized s |}.

Lemma stored_file p y p' s l :
  session_ok s → up_offset s = up_size s → good_segments l →
  newFileEntryLocked now (of_segments l) (up_size s) (trustedMediaType (up_mediaType s) (up_data s) (up_materialized s)) p = (y, p') →
  calm p p' ∧ match y with
              | Ok e => Entry_Path e = of_segments l ∧ entry_at l (stored s e) ∧ node_of (stored s e) = file_of s (Entry_ContentID e) (Entry_ContentVersion e)
              | Err _ => True
              end.
Proof.
  intros Hs Ho Hl E. apply new_file_inv in E as [Hc He]. split; [done|]. destruct y as [e|]; [|done]. destruct He as (He1 & He2 & He3 & He4 & He5 & He6 & He7 & He8).
  assert (is_file (stored s e) = true) as Hfile by (unfold is_file; cbn; rewrite He3; by apply bool_decide_eq_true_2).
  split; [done|]. split.
  - split; [done|done|done|by left|]. intros _. cbn. rewrite He4, He5. pose proof (so_size _ Hs). split; [lia|]. split; [done|].
    intros Hm. by rewrite (so_data _ Hs Hm).
  - unfold node_of. rewrite Hfile. unfold file_of. cbn. by rewrite He4, He6, He7, He8.
Qed.

Lemma session_completion_ok s entry crc : session_ok s → up_offset s = up_size s → session_ok (with_completion s entry crc).
Proof. intros [Hp Hs Hd] Ho. split; [done|cbn; lia|]. cbn. intros Hm. by rewrite (Hd Hm). Qed.

Definition complete_outcome (scope : Scope) (request : CompleteUploadRequest) (p : Provider) (x : res Entry) (p' : Provider) : Prop :=
  match x with
  | Err _ => same_drive p p' ∧ uploads p' = uploads p
  | Ok entry => ∃ s l contentID contentVersion, completable scope request s p ∧ up_path s = of_segments l ∧ Entry_Path entry = up_path s ∧
      (∃ crc, uploads p' = <[Complete_UploadID request := with_completion s entry crc]> (uploads p)) ∧
      same_tree (tree_of (scopeObjects scope p')) (planted l (file_of s contentID contentVersion) (pruned l (tree_of (scopeObjects scope p)))) ∧
      ∀ other, other ≠ scope → scopeObjects other p' = scopeObjects other p
  end.

(** The directory an upload goes into is there. *)
Definition lands (scope : Scope) (id : UploadID) (p : Provider) : Prop :=
  ∀ s l, uploads p !! id = Some s → up_path s = of_segments l → good_segments l → parent_present (scopeObjects scope p) l.

Lemma calm_lands scope id p p' : calm p p' → lands scope id p → lands scope id p'.
Proof.
  intros Hc Hl s l. rewrite (proj2 (aside_untouched _ _ (calm_aside _ _ Hc))), (calm_scope scope p p') by done. apply Hl.
Qed.

Lemma completeUpload_effect scope request p x p' :
  provider_ok p → lands scope (Complete_UploadID request) p →
  completeUpload ctx now scope request p = (x, p') → complete_outcome scope request p x p' ∧ provider_ok p' ∧ remembers p p'.
Proof.
  intros Hok Hpar E.
  assert (∀ e p1, calm p p1 → complete_outcome scope request p (Err e) p1 ∧ provider_ok p1 ∧ remembers p p1) as Hfail.
  { intros e p1 Hc. split; [|split; [by eapply calm_ok|by apply calm_remembers]]. split; [by apply calm_same|]. apply (aside_untouched _ _ (calm_aside _ _ Hc)). }
  unfold completeUpload in E. calm_step E y p1 Hc1. destruct y as [[]|e]; [|destruct E as [-> ->]; by apply Hfail].
  calm_next Hc1 E y p2 Hc2. destruct y as [[]|e]; [|destruct E as [-> ->]; by apply Hfail].
  calm_next Hc2 E y p3 Hc3. destruct y as [mediaType|e]; [|destruct E as [-> ->]; by apply Hfail].
  calm_next Hc3 E y p4 Hc4. destruct y as [[]|e]; [|destruct E as [-> ->]; by apply Hfail].
  apply gom_bind_inv in E as (y & p5 & E5 & E). apply check_completion_inv in E5 as [Hc5 Hs]. assert (calm p p5) as Hcp5 by by etrans.
  destruct y as [s|e]; [|destruct E as [-> ->]; by apply Hfail].
  assert (completable scope request s p) as Hcomp.
  { destruct Hs as [Hs1 Hs2 Hs3 Hs4]. split; [|done|done|by rewrite <-(calm_scope scope p p4)].
    by rewrite <-(proj2 (aside_untouched _ _ (calm_aside _ _ Hc4))). }
  destruct Hok as (Hd & Ht & Hu). pose proof (Hu _ _ (cp_session _ _ _ _ Hcomp)) as Hsok. destruct (so_path _ Hsok) as (l & Hl & Hn & El).
  rewrite El in E. apply gom_bind_inv in E as (y & p6 & E6 & E). apply stored_file in E6 as [Hc6 Hentry]; [|done|apply Hcomp|done].
  assert (calm p p6) as Hcp6 by by etrans. destruct y as [entry|e]; [|destruct E as [-> ->]; by apply Hfail]. destruct Hentry as (He1 & Hat & Hnode).
  apply gom_bind_inv in E as (original & p7 & E7 & E). injection E7 as <- <-. apply gom_bind_inv in E as (y & p7 & E7 & E). injection E7 as <- <-.
  apply gom_bind_inv in E as (y & p7 & E7 & E). injection E7 as <- <-. apply gom_bind_inv in E as (y & p8 & E8 & E). apply or_undo_inv in E8 as (p9 & E9 & ->).
  change {| obj_entry := entry; obj_data := up_data s; obj_materialized := up_materialized s |} with (stored s entry) in E9. set (o := stored s entry) in *.
  set (p7 := (if up_targetExisted s then deleteTreeLocked scope (of_segments l) else λ p, p) p6) in E9.
  assert (cleared scope l p6 p7) as Hcl.
  { destruct (Hd scope) as [Hsh _]. rewrite <-(calm_scope scope p p6) in Hsh by done. subst p7. destruct (up_targetExisted s) eqn:Et.
    - by apply cleared_deleted.
    - apply cleared_free; [done|done|]. rewrite (calm_scope scope p p6) by done. pose proof (cp_target _ _ _ _ Hcomp Et) as Hfree. by rewrite El in Hfree. }
  assert (aside p6 p7) as Ha7 by (subst p7; destruct (up_targetExisted s); [by apply apart_aside|done]).
  apply insert_step with (p := p6) (l := l) in E9; [|eapply same_drive_ok; [by apply calm_same|done]|done|done|done|done|].
  2: { rewrite (calm_scope scope p p6) by done. by eapply Hpar; [apply Hcomp|..]. }
  destruct y as [[]|e].
  - destruct E9 as (Hok9 & Ha9 & Ht9 & Ho9). apply gom_bind_inv in E as (y & p10 & E10 & E). injection E10 as <- <-.
    apply gom_bind_inv in E as (y & p10 & E10 & E). injection E10 as <- <-. apply mret_inv in E as [-> ->].
    assert (aside p p9) as Has by (etrans; [by apply calm_aside|done]). destruct (aside_untouched _ _ Has) as [Etr Eup].
    split; [|split; [|exact (aside_remembers _ _ Has)]].
    + exists s, l, (Entry_ContentID entry), (Entry_ContentVersion entry). split; [done|]. split; [done|]. split; [by rewrite He1, El|].
      split; [eexists; cbn; by rewrite Eup|]. split.
      * change (scopeObjects scope (upd_uploads _ _)) with (scopeObjects scope p9). rewrite Ht9, (calm_scope scope p p6) by done.
        by rewrite Hnode.
      * intros other Hne. change (scopeObjects other (upd_uploads _ _)) with (scopeObjects other p9). rewrite Ho9 by done. by apply calm_scope.
    + split; [exact Hok9|]. split; [intros k r; cbn; rewrite Etr; apply Ht|]. intros id s'. cbn. rewrite Eup. destruct (decide (id = Complete_UploadID request)) as [->|Hne].
      * rewrite lookup_insert_eq. intros [= <-]. apply session_completion_ok; [done|apply Hcomp].
      * rewrite lookup_insert_ne by done. apply Hu.
  - destruct E9 as (_ & _ & ->). destruct E as [-> ->]. assert (same_drive p (on_scope scope (λ _, scopeObjects scope p6) (on_scope scope (insert (path_of l) o) p7))) as Hsd.
    { intros other. destruct (decide (other = scope)) as [->|Hne]; [rewrite scope_same; by apply calm_scope|]. rewrite !scope_other by done.
      rewrite (cl_other _ _ _ _ Hcl) by done. by apply calm_scope. }
    assert (aside p p7) as Has by (etrans; [by apply calm_aside|done]). destruct (aside_untouched _ _ Has) as [Etr Eup]. split; [by split|].
    split; [|exact (aside_remembers _ _ Has)]. split; [by eapply same_drive_ok|]. split; [intros k r; cbn; rewrite Etr; apply Ht|intros id s'; cbn; rewrite Eup; apply Hu].
Qed.

(** ** Batches of uploads *)

Lemma safe_outcome {A} (m : DriveM A) : safe m → safe (outcome m).
Proof. intros Hm p x p' Hp E. unfold outcome in E. destruct (m p) as [r p1] eqn:Em. injection E as <- <-. by eapply Hm. Qed.

Lemma safe_undo {A} (m : DriveM A) undo :
  safe m → (∀ p, provider_ok p → provider_ok (undo p)) → (∀ p, idempotency (undo p) = idempotency p) → safe (or_undo m undo).
Proof.
  intros Hm Hu Hi p x p' Hp E. apply or_undo_inv in E as (p1 & E1 & ->). destruct (Hm _ _ _ Hp E1) as [Hp1 Hr1]. destruct x; [done|].
  split; [by apply Hu|]. etrans; [exact Hr1|by apply remembers_eq].
Qed.

(** Only sessions change, and they stay as they should. *)
Lemma sessions_change p p' : objects p' = objects p → trashEntries p' = trashEntries p → sessions_ok p' → provider_ok p → provider_ok p'.
Proof.
  intros Eo Et Hs (Hd & Ht & _). split; [|split; [intros k r; rewrite Et; apply Ht|done]]. eapply same_drive_ok; [|exact Hd].
  intros scope. unfold scopeObjects. by rewrite Eo.
Qed.

Lemma safe_create_each scope requests :
  (∀ r, r ∈ requests → user_path (CUpload_Path r) ∧ CUpload_Size r ≤ MaxInt64) → safe (create_each ctx now scope requests).
Proof.
  induction requests as [|r requests IH]; intros Hr; [apply safe_ret|]. cbn. destruct (Hr r ltac:(by left)).
  apply safe_bind; [by apply safe_createUpload|intros ?]. apply safe_bind; [apply IH; intros r' Hin; apply Hr; by right|intros ?]. secure.
Qed.

Lemma safe_assign batchID index count capabilities : safe (assign_batch batchID index count capabilities).
Proof.
  revert index. induction capabilities as [|c capabilities IH]; intros index; [apply safe_ret|]. cbn. intros p x p' Hp E.
  apply gom_bind_inv in E as (sessions & p1 & E1 & E). injection E1 as <- <-. destruct (uploads p !! _) as [s|] eqn:Es; [|injection E as <- <-; by apply unchanged_ok].
  revert E. match goal with |- ?m p = _ → _ => enough (safe m) as Hm by (intros E; exact (Hm _ _ _ Hp E)) end.
  apply safe_bind; [by eapply safe_session, session_batch_ok, (proj2 (proj2 Hp))|intros ?]. apply safe_bind; [apply IH|intros ?]. secure.
Qed.

Lemma safe_CreateUploadBatch scope requests :
  (∀ r, r ∈ requests → user_path (CUpload_Path r) ∧ CUpload_Size r ≤ MaxInt64) → safe (CreateUploadBatch ctx now scope requests).
Proof.
  intros Hr. unfold CreateUploadBatch. apply safe_bind; [secure|intros ?]. apply safe_bind; [by apply safe_keeps; intros p x p' [= _ <-]|intros before].
  apply safe_bind; [|intros capabilities; apply safe_assign]. apply safe_undo; [by apply safe_create_each| |done]. intros p Hp.
  apply (sessions_change p); [done|done| |exact Hp]. intros id s. cbn. intros [Hs _]%map_lookup_filter_Some. by apply (proj2 (proj2 Hp) id).
Qed.

Lemma restore_sessions_ok before ids m : 
  sessions_ok before → (∀ id s, m !! id = Some s → session_ok s) → ∀ id s, restore_sessions before ids m !! id = Some s → session_ok s.
Proof.
  intros Hb Hm. induction ids as [|i ids IH]; [done|]. cbn. intros id s. destruct (uploads before !! i) as [s'|] eqn:Ei; [|apply IH].
  destruct (decide (id = i)) as [->|Hne]; [rewrite lookup_insert_eq; intros [= <-]; by eapply Hb|]. rewrite lookup_insert_ne by done. apply IH.
Qed.

Lemma safe_forM {A} (l : list A) (f : A → DriveM unit) : (∀ a, safe (f a)) → safe (forM_ l f).
Proof. intros Hf. induction l as [|a l IH]; [apply safe_ret|]. cbn. apply safe_bind; [apply Hf|intros ?; apply IH]. Qed.

Lemma safe_AbortUploadBatch scope request : safe (AbortUploadBatch ctx scope request).
Proof.
  unfold AbortUploadBatch. do 4 (apply safe_bind; [secure|intros ?]). case_match; [secure|].
  intros p x p' Hp E. apply gom_bind_inv in E as (before & p1 & E1 & E). injection E1 as <- <-. revert E.
  match goal with |- ?m p = _ → _ => enough (safe m) as Hm by (intros E; exact (Hm _ _ _ Hp E)) end.
  apply safe_bind; [apply safe_forM; intros id; unfold check_abort; apply safe_find; intros s Hs; secure|intros ?].
  apply safe_bind; [|intros ?; secure]. apply safe_undo; [apply safe_forM; intros id; apply safe_abortUpload| |done]. intros q Hq.
  apply (sessions_change q); [done|done| |exact Hq]. intros id s. cbn. eapply restore_sessions_ok; [apply Hp|apply Hq].
Qed.

Lemma safe_UploadStatus scope id : safe (UploadStatus_ ctx now scope id).
Proof. unfold UploadStatus_, find_upload. secure. Qed.

Lemma safe_ResumeUpload scope id : safe (ResumeUpload ctx now scope id).
Proof. unfold ResumeUpload, find_upload. secure. Qed.

Lemma safe_AdmitUploads scope requests :
  (∀ r, r ∈ requests → user_path (CUpload_Path r) ∧ CUpload_Size r ≤ MaxInt64) → safe (AdmitUploads ctx now scope requests).
Proof.
  intros Hr. unfold AdmitUploads. do 3 (apply safe_bind; [secure|intros ?]). generalize 0. induction requests as [|r requests IH]; intros index; [apply safe_ret|].
  cbn. apply safe_bind; [|intros ?; apply safe_bind; [apply IH; intros r' Hin; apply Hr; by right|intros ?; secure]].
  destruct (Hr r ltac:(by left)). unfold admit_upload. apply safe_bind; [secure|intros ?]. apply safe_bind; [by apply safe_outcome, safe_createUpload|intros created].
  case_match; [|secure]. apply safe_bind; [apply safe_UploadStatus|intros ?; secure].
Qed.

Lemma safe_UploadLifecycle scope ids resume : safe (UploadLifecycle ctx now scope ids resume).
Proof. unfold UploadLifecycle. secure. Qed.

(** ** Several completions *)

(** Each of the completions, run one after the other, finds its directory. *)
Fixpoint all_land (scope : Scope) (requests : list CompleteUploadRequest) (p : Provider) : Prop :=
  match requests with
  | [] => True
  | request :: requests => lands scope (Complete_UploadID request) p ∧
      ∀ entry p1, completeUpload ctx now scope request p = (Ok entry, p1) → all_land scope requests p1
  end.

Lemma complete_each_ok scope requests p x p' :
  provider_ok p → all_land scope requests p → complete_each ctx now scope requests p = (x, p') → provider_ok p' ∧ remembers p p'.
Proof.
  revert p x p'. induction requests as [|request requests IH]; intros p x p' Hp Hl E; cbn [complete_each] in E; [apply mret_inv in E as [_ ->]; by apply unchanged_ok|].
  destruct Hl as [Hl Hrest]. apply gom_bind_inv in E as (y & p1 & E1 & E). destruct (completeUpload_effect _ _ _ _ _ Hp Hl E1) as (_ & Hp1 & Hr1).
  destruct y as [entry|]; [|by destruct E as [_ ->]]. apply gom_bind_inv in E as (z & p2 & E2 & E).
  destruct (IH _ _ _ Hp1 (Hrest _ _ E1) E2) as [Hp2 Hr2]. assert (p' = p2) as -> by (destruct z; [by apply mret_inv in E as [_ ->]|by destruct E as [_ ->]]).
  split; [done|by etrans].
Qed.

Lemma completions_keep scope items : keeps (completions_of scope items).
Proof. induction items as [|item items IH]; cbn; unfold find_upload; stay. Qed.

Lemma CompleteUploadBatch_ok scope request p x p' :
  provider_ok p → (∀ completions p1, completions_of scope (CBatch_Items request) p = (Ok completions, p1) → all_land scope completions p1) →
  CompleteUploadBatch ctx now scope request p = (x, p') → provider_ok p' ∧ remembers p p'.
Proof.
  intros Hp Hl E. unfold CompleteUploadBatch in E.
  assert (∀ p1, calm p p1 → provider_ok p1 ∧ remembers p p1) as Hcalm by (intros p1 Hc; split; [by eapply calm_ok|by apply calm_remembers]).
  pure_step E. destruct (validateContextScope ctx scope); [|destruct E as [_ ->]; by apply unchanged_ok].
  pure_step E. destruct (guard_err _ _); [|destruct E as [_ ->]; by apply unchanged_ok].
  pure_step E. destruct (check_completions _ _); [|destruct E as [_ ->]; by apply unchanged_ok].
  apply gom_bind_inv in E as (saved & p1 & E1 & E). injection E1 as <- <-. destruct (uploadCompletions p !! _) as [prior|].
  { pure_step E. destruct (guard_err _ _); [apply mret_inv in E as [_ ->]|destruct E as [_ ->]]; by apply unchanged_ok. }
  apply gom_bind_inv in E as (before & p1 & E1 & E). injection E1 as <- <-. apply gom_bind_inv in E as (completions & p1 & E1 & E).
  pose proof (completions_keep _ _ _ _ _ E1) as Hc1. destruct (Hcalm _ Hc1) as [Hp1 Hr1]. destruct completions as [completions|]; [|destruct E as [_ ->]; by split].
  apply gom_bind_inv in E as (entries & p2 & E2 & E). apply or_undo_inv in E2 as (p3 & E3 & ->).
  destruct (complete_each_ok _ _ _ _ _ Hp1 (Hl _ _ E1) E3) as [Hp3 Hr3]. destruct entries as [entries|].
  - apply gom_bind_inv in E as (u & p4 & E4 & E). injection E4 as <- <-. apply mret_inv in E as [_ ->]. split; [exact Hp3|by etrans].
  - destruct E as [_ ->]. split; [|by etrans]. destruct Hp3 as (Hd3 & Ht3 & Hu3). split; [|split].
    + intros other. destruct (decide (other = scope)) as [->|Hne]; [rewrite scope_same; apply Hp|rewrite scope_other by done; apply Hd3].
    + exact Ht3.
    + intros id s. cbn. eapply restore_sessions_ok; [apply Hp|exact Hu3].
Qed.

(** Each of the actions that completes an upload finds the directory. *)
Fixpoint actions_land (scope : Scope) (index : Z) (items : list UploadActionItem) (p : Provider) : Prop :=
  match items with
  | [] => True
  | item :: items => (is_action item "complete" = true → lands scope (Action_UploadID item) p) ∧
      ∀ result p1, upload_action ctx now scope index item p = (Ok result, p1) → actions_land scope (index + 1) items p1
  end.

Lemma run_action_ok scope index item copy status p x p' :
  provider_ok p → (is_action item "complete" = true → lands scope (Action_UploadID item) p) →
  run_action ctx now scope index item copy status p = (x, p') → provider_ok p' ∧ remembers p p'.
Proof.
  intros Hp Hl E. unfold run_action in E. case_bool_decide; [apply mret_inv in E as [_ ->]; by apply unchanged_ok|].
  case_bool_decide; [apply mret_inv in E as [_ ->]; by apply unchanged_ok|]. destruct (is_action item "complete") eqn:Ea.
  - case_bool_decide; [apply mret_inv in E as [_ ->]; by apply unchanged_ok|]. destruct (_ || _); [apply mret_inv in E as [_ ->]; by apply unchanged_ok|].
    apply gom_bind_inv in E as (y & p1 & E1 & E). unfold outcome in E1. destruct (completeUpload _ _ _ _ p) as [z q] eqn:Ec. injection E1 as <- <-.
    apply mret_inv in E as [_ ->]. by apply completeUpload_effect in Ec as [_ ?]; [| |by apply Hl].
  - apply gom_bind_inv in E as (y & p1 & E1 & E). destruct (safe_outcome _ (safe_abortUpload scope (Action_UploadID item)) _ _ _ Hp E1) as [Hp1 Hr1].
    assert (p' = p1) as -> by (destruct y; [by apply mret_inv in E as [_ ->]|by destruct E as [_ ->]]). done.
Qed.

Lemma upload_action_ok scope index item p x p' :
  provider_ok p → (is_action item "complete" = true → lands scope (Action_UploadID item) p) →
  upload_action ctx now scope index item p = (x, p') → provider_ok p' ∧ remembers p p'.
Proof.
  intros Hp Hl E. unfold upload_action in E. destruct (invalid_action item); [apply mret_inv in E as [_ ->]; by apply unchanged_ok|].
  apply gom_bind_inv in E as (sessions & p1 & E1 & E). injection E1 as <- <-. destruct (uploads p !! _) as [copy|]; [|apply mret_inv in E as [_ ->]; by apply unchanged_ok].
  case_bool_decide; [apply mret_inv in E as [_ ->]; by apply unchanged_ok|]. apply gom_bind_inv in E as (status & p1 & E1 & E).
  unfold outcome in E1. destruct (UploadStatus_ _ _ _ _ p) as [z q] eqn:Es. injection E1 as <- <-.
  assert (calm p q) as Hc. { assert (keeps (UploadStatus_ ctx now scope (Action_UploadID item))) as K by (unfold UploadStatus_, find_upload; stay). exact (K _ _ _ Es). }
  pose proof (calm_ok _ _ Hc Hp) as Hq. pose proof (calm_remembers _ _ Hc) as Hr. destruct z as [status|]; [|apply mret_inv in E as [_ ->]; by split].
  destruct (run_action_ok _ _ _ _ _ _ _ _ Hq (λ Ha, calm_lands _ _ _ _ Hc (Hl Ha)) E) as [Hp' Hr']. split; [done|by etrans].
Qed.

Lemma action_loop_ok scope index items p x p' :
  provider_ok p → actions_land scope index items p → action_loop ctx now scope index items p = (x, p') → provider_ok p' ∧ remembers p p'.
Proof.
  revert index p x p'. induction items as [|item items IH]; intros index p x p' Hp Hl E; cbn [action_loop] in E; [apply mret_inv in E as [_ ->]; by apply unchanged_ok|].
  destruct Hl as [Hl Hrest]. apply gom_bind_inv in E as (y & p1 & E1 & E). destruct (upload_action_ok _ _ _ _ _ _ Hp Hl E1) as [Hp1 Hr1].
  destruct y as [result|]; [|by destruct E as [_ ->]]. apply gom_bind_inv in E as (z & p2 & E2 & E). destruct (IH _ _ _ _ Hp1 (Hrest _ _ E1) E2) as [Hp2 Hr2].
  assert (p' = p2) as -> by (destruct z; [by apply mret_inv in E as [_ ->]|by destruct E as [_ ->]]). split; [done|by etrans].
Qed.

Lemma UploadActions_ok scope items p x p' :
  provider_ok p → actions_land scope 0 items p → UploadActions ctx now scope items p = (x, p') → provider_ok p' ∧ remembers p p'.
Proof.
  intros Hp Hl E. unfold UploadActions in E. pure_step E. destruct (validateContextScope ctx scope); [|destruct E as [_ ->]; by apply unchanged_ok].
  pure_step E. destruct (guard_err _ _); [|destruct E as [_ ->]; by apply unchanged_ok].
  pure_step E. destruct (check_ids _ _ _); [|destruct E as [_ ->]; by apply unchanged_ok]. by eapply action_loop_ok.
Qed.
End Transfer.
End DriveTransfer.
