(* ===== verification/DriveRoundtrip.v ===== *)
(** * To the trash and back

    A tree that goes to the trash and is restored stands where it was, and the
    trash is as before. *)

From Stdlib Require Import ZArith Lia.
From S2P Require Import Prelude GoLib GoHash Errors DomainPath DomainIDs ObjectStore ObjectMemory GoJSON GoTime FileTypes DriveMemory DriveTrash DriveTheory DriveSums DriveCopy DriveOps DriveEffects DriveNamespace.

Open Scope Z_scope.

Module DriveRoundtrip.
Import FileTypes DriveMemory DriveTrash DriveTheory DriveSums DriveCopy DriveOps DriveEffects DriveNamespace.

Section Roundtrip.
Context `{NFCLaws} `{!MapOrder} `{!MapOrderLaws} `{!SHA256}.

(** No request has been answered under the key. *)
Definition unused (owner : UserID) (kind key : gostring) (p : Provider) : Prop :=
  namespaceMutations p !! memoryNamespaceMutationKey owner kind key = None ∧
  unanswered owner OperationMove key p.

Lemma not_answered owner kind key fingerprint op p p1 :
  unused owner kind key p → calm p p1 → ¬ answered owner OperationMove key fingerprint op p1.
Proof. intros [_ [->|Hk]] Hc [Hn Hs]; [done|]. rewrite (calm_idempotency _ _ Hc) in Hs. congruence. Qed.

Lemma fresh_move ctx now from to request p p1 op p' :
  drive_ok p → calm p p1 → user_path (Copy_Source request) → user_path (Copy_Destination request) →
  (∀ fingerprint, ¬ answered (scope_userID from) OperationMove (Copy_IdempotencyKey request) fingerprint op p1) →
  Move ctx now from to request p1 = (Ok op, p') → has_succeeded op = true →
  ∃ conflict, NormalizeConflictMode (Copy_Conflict request) = Ok conflict ∧ carried_out true from to request conflict p1 p' ∧ untouched p p'.
Proof.
  intros Hok Hc Hs Hd Hna E Hop. apply copyOrMove_effect in E as [Ho _]; [|eapply same_drive_ok; [by apply calm_same|done]|done..].
  destruct Ho as (conflict & Hmode & Ho). exists conflict. split; [done|]. apply bool_decide_eq_true in Hop.
  destruct Ho as [[Ha _]|(_ & _ & Hu & [[Hf _]|[_ Hcar]])]; [by destruct (Hna _ Ha)|by rewrite Hop in Hf|]. split; [done|].
  etrans; [by apply aside_untouched, calm_aside|done].
Qed.

(** *** Going *)

Record trashed (owner : UserID) (trashID : gostring) (src dst : list gostring) (p p' : Provider) : Prop := {
  td_src : good_segments src ∧ src ≠ [];
  td_dst : good_segments dst ∧ dst ≠ [];
  td_move : relocation true (live owner) (trash owner) src dst p p';
  td_free : scopeObjects (trash owner) p !! path_of dst = None;
  td_record : ∃ r, trashEntries p' !! memoryTrashKey owner trashID = Some r ∧
    TrashEntry_OriginalPath r = of_segments src ∧ TrashEntry_TrashedPath r = of_segments dst;
}.

Lemma areas_differ owner : live owner ≠ trash owner.
Proof. by intros [=]. Qed.

Lemma MoveToTrash_fresh ctx now owner request p op p' :
  provider_ok p → user_path (Trash_Path request) → unused owner "trash" (Trash_IdempotencyKey request) p →
  MoveToTrash ctx now owner request p = (Ok op, p') → has_succeeded op = true →
  ∃ src dst, Trash_Path request = of_segments src ∧ trashed owner (Trash_TrashID request) src dst p p'.
Proof.
  intros Hok Hup Hfresh E Hop. unfold MoveToTrash in E. inv_go.
  match goal with Hx : replayNamespaceMutation _ _ _ _ _ = (Ok ?prior, _) |- _ => rename Hx into Er; destruct prior as [op'|] end.
  { apply replay_mutation_inv in Er as [-> Hr]. destruct Hfresh as [Hf _]. by rewrite Hf in Hr. }
  apply replay_mutation_inv in Er as [-> _]. inv_go. 
  match goal with Hx : Stat _ _ _ _ = _ |- _ => apply keeps_Stat in Hx as Hc end.
  match goal with Hx : MustParseUserPath _ = Ok _ |- _ => apply must_parse in Hx as Hdest end.
  match goal with Hx : Move _ _ _ _ _ _ = (Ok ?o, _) |- _ => rename Hx into Em; rename o into op1 end.
  destruct (has_succeeded op1) eqn:Eop; cbn [negb] in E; [|apply mret_inv in E as [[= ->] _]; congruence]. inv_go.
  eapply fresh_move in Em as (conflict & Hmode & Hcar & Hun); [|apply Hok|exact Hc|done|done|intros; by eapply not_answered|done].
  destruct Hcar as (src & dst & dst' & Es & Ed & Hs & Hd & Hd' & Hsome & Hres & Hrel). injection Hmode as <-.
  destruct Hres as [[-> Hfree]|(? & _)]; [|done]. exists src, dst. split; [done|]. split; [done|done| | |].
  - eapply relocation_same; [by apply calm_same| |exact Hrel]. by intros scope.
  - rewrite <-(calm_scope _ _ _ Hc). by apply Hfree.
  - eexists. split; [cbn; by rewrite lookup_insert_eq|]. by cbn.
Qed.

(** *** Coming back *)

Lemma RestoreFromTrash_fresh ctx now owner trashID conflict key record src dst p op p' :
  provider_ok p → unused owner "restore" key p → trashEntries p !! memoryTrashKey owner trashID = Some record →
  TrashEntry_OriginalPath record = of_segments src → TrashEntry_TrashedPath record = of_segments dst → good_segments src → good_segments dst →
  scopeObjects (live owner) p !! path_of src = None →
  RestoreFromTrash ctx now owner trashID conflict key p = (Ok op, p') → has_succeeded op = true →
  relocation true (trash owner) (live owner) dst src p p'.
Proof.
  intros Hok Hfresh Hrec Eo Et Hs Hd Hfree E Hop. unfold RestoreFromTrash in E. inv_go.
  match goal with Hx : replayNamespaceMutation _ _ _ _ _ = (Ok ?prior, _) |- _ => rename Hx into Er; destruct prior as [op'|] end.
  { apply replay_mutation_inv in Er as [-> Hr]. destruct Hfresh as [Hf _]. by rewrite Hf in Hr. }
  apply replay_mutation_inv in Er as [-> _]. apply gom_bind_inv in E as (entries & p1 & E1 & E). injection E1 as <- <-. rewrite Hrec in E. inv_go.
  match goal with Hx : Move _ _ _ _ _ _ = (Ok ?o, ?q) |- _ => rename Hx into Em; rename o into op1; rename q into p1 end.
  assert (op1 = op ∧ same_drive p1 p') as [-> Hsd].
  { unfold settle_trash in E. destruct (has_succeeded op1); cbn [negb] in E; inv_go; split; try done. }
  rewrite Eo, Et in Em. eapply fresh_move in Em as (mode & Hmode & Hcar & Hun); [|apply Hok|done|right; by exists dst|right; by exists src|intros; by eapply not_answered|done].
  destruct Hcar as (dst0 & src0 & src' & E1 & E2 & [Hg0 _] & [Hg1 _] & Hd' & Hsome & Hres & Hrel). cbn in E1, E2.
  injection E1 as E1. injection E2 as E2. apply path_of_good_inj in E1 as <-; [|done..]. apply path_of_good_inj in E2 as <-; [|done..].
  destruct Hres as [[-> _]|(_ & [o Ho] & _)]; [|congruence]. by eapply relocation_same; [reflexivity|exact Hsd|].
Qed.

(** Both trees, and every other scope, are as they were. *)
Lemma back_again owner trashID src dst p p1 p2 :
  drive_ok p → drive_ok p1 → trashed owner trashID src dst p p1 → relocation true (trash owner) (live owner) dst src p1 p2 →
  same_tree (tree_of (scopeObjects (live owner) p2)) (tree_of (scopeObjects (live owner) p)) ∧
  same_tree (tree_of (scopeObjects (trash owner) p2)) (tree_of (scopeObjects (trash owner) p)) ∧
  (∀ other, other ≠ live owner → other ≠ trash owner → scopeObjects other p2 = scopeObjects other p).
Proof.
  intros Hok Hok1 [[Hgs Hsn] [Hgd Hdn] Hgo Hfree _] Hback. pose proof (areas_differ owner) as Hne.
  pose proof (rl_to _ _ _ _ _ _ _ Hgo) as Ttrash. pose proof (rl_from _ _ _ _ _ _ _ Hgo Hne) as Tlive. rewrite bool_decide_eq_false_2, andb_false_r in Ttrash by done.
  pose proof (rl_to _ _ _ _ _ _ _ Hback) as Tlive2. pose proof (rl_from _ _ _ _ _ _ _ Hback (not_eq_sym Hne)) as Ttrash2.
  rewrite bool_decide_eq_false_2, andb_false_r in Tlive2 by by apply not_eq_sym. split; [|split].
  - intros l Hl Hg. rewrite (Tlive2 l Hl Hg). unfold grafted. destruct (strip src l) as [r|] eqn:Es.
    + apply strip_Some in Es as ->. assert (segs_ok r) as Hr by (apply good_segments_weaken, Forall_app in Hg; apply Hg).
      assert (good_segments (dst ++ r) → tree_of (scopeObjects (trash owner) p1) (dst ++ r) = tree_of (scopeObjects (live owner) p) (src ++ r)) as Hgood.
      { intros Hg'. rewrite (Ttrash (dst ++ r)); [|by destruct dst|done]. unfold grafted. by rewrite strip_app. }
      destruct (scopeObjects (live owner) p !! path_of (src ++ r)) as [o|] eqn:Eo.
      * apply Hgood. apply (rl_fits _ _ _ _ _ _ _ Hgo); [done|by rewrite Eo].
      * destruct (scopeObjects (trash owner) p1 !! path_of (dst ++ r)) as [o|] eqn:Eo'; [|unfold tree_of; by rewrite Eo, Eo'].
        apply Hgood. eapply (ea_good _ o), shaped_segs; [apply (Hok1 (trash owner))| |done]. apply Forall_app. split; [by apply good_segments_weaken|done].
    + rewrite (Tlive l Hl Hg). unfold pruned. by rewrite Es.
  - intros l Hl Hg. rewrite (Ttrash2 l Hl Hg). unfold pruned. destruct (strip dst l) as [r|] eqn:Es.
    + apply strip_Some in Es as ->. unfold tree_of. by rewrite (shaped_closed _ dst r (proj1 (Hok _))).
    + rewrite (Ttrash l Hl Hg). unfold grafted. by rewrite Es.
  - intros other Hn1 Hn2. by rewrite (rl_other _ _ _ _ _ _ _ Hback), (rl_other _ _ _ _ _ _ _ Hgo).
Qed.
End Roundtrip.
End DriveRoundtrip.
