(* ===== verification/DriveListing.v ===== *)
(** * Listing a directory page by page

    The pages of one listing are slices of the snapshot its first call took: a
    client that follows the cursors reads every child once, in order, whatever
    happens to the drive in between. *)

From Stdlib Require Import ZArith Lia.
From S2P Require Import Prelude GoLib GoHash Errors DomainPath DomainIDs ObjectStore ObjectMemory GoJSON GoTime FileTypes DriveMemory DriveTheory DriveSums DriveCopy DriveOps DriveEffects.

Open Scope Z_scope.

Module DriveListing.
Import FileTypes DriveMemory DriveTheory DriveSums DriveCopy DriveOps DriveEffects.

(** ** The order of a listing *)

Lemma compare_antisym field a b : compare_entries field b a = CompOpp (compare_entries field a b).
Proof.
  unfold compare_entries. rewrite (bytes_cmp_antisym (String (Entry_Path a)) (String (Entry_Path b))).
  repeat case_bool_decide; [rewrite (Z.compare_antisym (Entry_ModifiedAt a))|rewrite (Z.compare_antisym (Entry_Size a))
    |rewrite (bytes_cmp_antisym (Entry_Kind a))|rewrite (bytes_cmp_antisym (Entry_Name a))];
    match goal with |- match CompOpp ?c with _ => _ end = _ => by destruct c end.
Qed.

#[export] Instance entry_le_total field descending : Total (entry_le field descending).
Proof.
  intros a b. unfold entry_le. rewrite (compare_antisym field a b). destruct descending, (compare_entries field a b); cbn; auto.
Qed.

Lemma sort_entries_spec entries field descending :
  sortEntries entries field descending ≡ₚ entries ∧ Sorted (entry_le field descending) (sortEntries entries field descending).
Proof. split; [apply merge_sort_Permutation|apply Sorted_merge_sort, _]. Qed.

(** ** Following the cursors *)

(** The request for the page behind a cursor. *)
Definition resumed (request : ListRequest) (cursor : gostring) : ListRequest :=
  {| List_Directory := List_Directory request; List_PageSize := List_PageSize request; List_Cursor := cursor;
     List_Sort := List_Sort request; List_Descending := List_Descending request |}.

Definition requested_field (request : ListRequest) : gostring := if bool_decide (List_Sort request = []) then SortName else List_Sort request.

(** No fault is queued for listings. *)
Definition undisturbed (p : Provider) : Prop := default [] (faults p !! OperationList) = [].

Section Listing.
Context `{NFCLaws} `{!MapOrder} `{!MapOrderLaws} `{!SHA256}.
Variables (scope : Scope) (request : ListRequest).

(** The pages after [page]; [between n] is what others do in the meantime. *)
Fixpoint follow (between : nat → Provider → Provider) (fuel : nat) (page : res ListPage * Provider) : res (list Entry) * Provider :=
  match page with
  | (Err err, p) => (Err err, p)
  | (Ok page, p) =>
      if bool_decide (Page_NextCursor page = []) then (Ok (Page_Entries page), p)
      else match fuel with
           | O => (Err (OtherError "more pages"), p)
           | S fuel =>
               match follow between fuel (List None scope (resumed request (Page_NextCursor page)) (between fuel p)) with
               | (Ok rest, p) => (Ok (Page_Entries page ++ rest), p)
               | failed => failed
               end
           end
  end.

(** A client that reads a listing to its end. *)
Definition drain (between : nat → Provider → Provider) (fuel : nat) (p : Provider) : res (list Entry) * Provider :=
  follow between fuel (List None scope request p).

Record listable : Prop := {
  lb_scope : Scope_Valid scope = true;
  lb_path : Valid (List_Directory request) = true;
  lb_size : 0 ≤ List_PageSize request ≤ 10000;
  lb_sort : valid_sort (requested_field request) = true;
}.

(** The request names a directory. *)
Definition directory_there (p : Provider) : Prop :=
  IsRoot (List_Directory request) = true ∨
  ∃ d, scopeObjects scope p !! String (List_Directory request) = Some d ∧ is_directory d = true.

Definition page_size : Z := if List_PageSize request =? 0 then 200 else List_PageSize request.

Lemma page_size_ok : listable → normalizePageSize (List_PageSize request) = Ok page_size ∧ 0 < page_size.
Proof.
  intros [_ _ Hs _]. unfold normalizePageSize, page_size. destruct (Z.eqb_spec (List_PageSize request) 0); [done|].
  destruct (Z.ltb_spec (List_PageSize request) 1); [lia|]. destruct (Z.ltb_spec 10000 (List_PageSize request)); [lia|]. split; [done|lia].
Qed.

Lemma before_quiet operation p :
  default [] (faults p !! operation) = [] → beforeLocked operation p = (Ok tt, upd_metrics (count_call operation) p).
Proof.
  intros Hq. unfold beforeLocked, mbind, gom_bind, modify, gets. cbn. destruct (faults p !! operation) as [[|f q]|]; done.
Qed.

Lemma stat_directory p :
  drive_ok p → directory_there p → ∃ current, statLocked scope (List_Directory request) p = (Ok current, p) ∧ Entry_Kind current = EntryDirectory.
Proof.
  intros Hok Hl. unfold statLocked. destruct Hl as [->|(d & Hd & Hdir)].
  - unfold rootRecursiveBytesLocked, rootRecursiveFileCountLocked, mbind, gom_bind, gets, lift. destruct (Hok scope) as [Hs Hsum].
    pose proof (range_snd_placed _ Hs) as Hp. rewrite sum_files_spec; [| |unfold MaxInt64; lia].
    2: { eapply list.Forall_impl; [exact Hp|]. intros o Ho. pose proof (size_under_bounds [] o Ho). lia. }
    rewrite lsum_range, Z.add_0_l, <-size_below_root by done. pose proof (su_total _ Hsum).
    destruct (Z.ltb_spec MaxInt64 (size_below (scopeObjects scope p) root_path)); [lia|]. by eexists.
  - destruct (IsRoot (List_Directory request)) eqn:Er.
    + apply bool_decide_eq_true in Er. destruct (sh_at _ (proj1 (Hok scope)) _ _ Hd) as (l & Hl' & E & He).
      unfold String in E. rewrite Er in E. exfalso. apply (path_of_not_root l Hl'); [|done]. eapply good_nonempty, good_segments_weaken, He.
    + unfold mbind, gom_bind, gets. rewrite Hd. exists (obj_entry d). split; [done|]. by apply bool_decide_eq_true in Hdir.
Qed.

Lemma List_resumed cursor snapshot p :
  listable → undisturbed p → cursor ≠ [] → listSnapshots p !! cursor = Some snapshot →
  resumes scope request page_size (requested_field request) snapshot = true →
  List None scope (resumed request cursor) p = listPageLocked cursor snapshot (upd_metrics (count_call OperationList) p).
Proof.
  intros Hl Hq Hc Hs Hr. destruct (page_size_ok Hl) as [Hsize _]. unfold List, mbind, gom_bind, lift, throw_if, guard_err, validateContextScope.
  cbn [List_Directory List_PageSize List_Cursor List_Sort List_Descending resumed]. fold (requested_field request).
  rewrite (lb_scope Hl), (lb_path Hl). cbn beta iota zeta delta [negb lift guard_err]. rewrite Hsize. cbn beta iota zeta.
  rewrite (lb_sort Hl). cbn beta iota zeta delta [negb lift guard_err]. rewrite before_quiet by done. cbn beta iota zeta.
  rewrite bool_decide_eq_true_2 by done. unfold gets. cbn [listSnapshots upd_metrics]. rewrite Hs.
  change (resumes scope (resumed request cursor)) with (resumes scope request). by rewrite Hr.
Qed.

(** The cursor the next listing of more than a page gets. *)
Definition fresh_cursor (p : Provider) : gostring := b64_encode (take 16 (source (ids p))).

(** What others do neither uses this client's cursor nor makes listings fail;
    they may change the drive and follow listings of their own. *)
Definition bystander (cursor : gostring) (between : nat → Provider → Provider) : Prop :=
  ∀ n p, undisturbed p → listSnapshots (between n p) !! cursor = listSnapshots p !! cursor ∧ undisturbed (between n p).

(** Another client that goes on with a listing of its own is a bystander. *)
Lemma resuming_bystander cursor other_scope other :
  List_Cursor other ≠ [] → List_Cursor other ≠ cursor → bystander cursor (λ _ p, snd (List None other_scope other p)).
Proof.
  intros Hn Hc _ p Hq. unfold List, mbind, gom_bind, lift, throw_if, guard_err.
  destruct (validateContextScope None other_scope); [|done]. destruct (negb (Valid _)); [done|].
  destruct (normalizePageSize _); [|done]. destruct (negb (valid_sort _)); [done|].
  cbn beta iota zeta delta [lift]. rewrite before_quiet by done. cbn beta iota zeta. rewrite bool_decide_eq_true_2 by done. unfold gets. cbn beta iota zeta. cbn [listSnapshots upd_metrics].
  destruct (listSnapshots p !! List_Cursor other) as [snapshot|]; [|done]. destruct (negb _); [done|].
  unfold listPageLocked, mbind, gom_bind, modify. destruct (_ =? _); cbn; (split; [|done]); [by rewrite lookup_delete_ne|by rewrite lookup_insert_ne].
Qed.

Lemma follow_snapshot between fuel cursor snapshot p :
  listable → bystander cursor between → undisturbed p → cursor ≠ [] →
  resumes scope request page_size (requested_field request) snapshot = true →
  0 ≤ ls_index snapshot ≤ len (ls_entries snapshot) → len (ls_entries snapshot) - ls_index snapshot ≤ Z.of_nat fuel →
  ∃ p', follow between fuel (listPageLocked cursor snapshot p) = (Ok (drop (Z.to_nat (ls_index snapshot)) (ls_entries snapshot)), p').
Proof.
  intros Hl Hb. destruct (page_size_ok Hl) as [_ Hpos]. revert snapshot p. induction fuel as [|fuel IH]; intros snapshot p Hq Hc Hr Hi Hf.
  all: unfold listPageLocked, mbind, gom_bind, modify, mret, gom_ret.
  all: assert (ls_pageSize snapshot = page_size) as Eps by (unfold resumes in Hr; apply andb_true_iff in Hr as [[[_ E%Z.eqb_eq]%andb_true_iff _]%andb_true_iff _]; done).
  all: set (end_ := Z.min _ _); destruct (Z.eqb_spec end_ (len (ls_entries snapshot))) as [Ee|Ee]; cbn [follow Page_NextCursor Page_Entries].
  1, 3: rewrite bool_decide_eq_true_2 by done; eexists; rewrite Ee, take_ge by (rewrite length_drop; unfold len; lia); reflexivity.
  - exfalso. subst end_. lia.
  - rewrite bool_decide_eq_false_2 by done. match goal with |- context [insert cursor ?n] => set (next := n) end.
    match goal with |- context [between fuel ?q] => destruct (Hb fuel q) as [Eb Hq']; [exact Hq|]; set (q' := between fuel q) in * end.
    rewrite (List_resumed cursor next); [|done|done|done|rewrite Eb; cbn; apply lookup_insert_eq|exact Hr].
    destruct (IH next (upd_metrics (count_call OperationList) q')) as (p' & ->); [done|done|exact Hr|cbn; subst end_; lia|cbn; subst end_; lia|].
    exists p'. subst next. do 2 f_equal. cbn [ls_entries ls_index].
    replace (Z.to_nat (end_ - ls_index snapshot)) with (Z.to_nat end_ - Z.to_nat (ls_index snapshot))%nat by (subst end_; lia).
    rewrite <-(take_drop (Z.to_nat end_ - Z.to_nat (ls_index snapshot)) (drop (Z.to_nat (ls_index snapshot)) (ls_entries snapshot))) at 2.
    f_equal. rewrite drop_drop. f_equal. subst end_. lia.
Qed.

Definition listed (p : Provider) : list Entry :=
  sortEntries (children (scopeObjects scope p) (List_Directory request)) (requested_field request) (List_Descending request).

Lemma drain_spec between fuel p :
  listable → bystander (fresh_cursor p) between → undisturbed p → drive_ok p → directory_there p → List_Cursor request = [] →
  (16 ≤ length (source (ids p)))%nat → len (listed p) ≤ Z.of_nat fuel → ∃ p', drain between fuel p = (Ok (listed p), p').
Proof.
  intros Hl Hb Hq Hok Hd Hc Hi Hf. destruct (page_size_ok Hl) as [Hsize Hpos]. unfold drain, List, mbind, gom_bind, lift, throw_if, guard_err, validateContextScope.
  fold (requested_field request). rewrite (lb_scope Hl), (lb_path Hl). cbn beta iota zeta delta [negb lift guard_err]. rewrite Hsize. cbn beta iota zeta.
  rewrite (lb_sort Hl). cbn beta iota zeta delta [negb lift guard_err]. rewrite before_quiet by done. cbn beta iota zeta.
  rewrite Hc, bool_decide_eq_false_2 by (intros Hn; by apply Hn). set (p1 := upd_metrics _ p).
  destruct (stat_directory p1) as (current & -> & Hk); [done|done|]. cbn beta iota zeta. rewrite Hk.
  rewrite bool_decide_eq_false_2 by (intros Hn; by apply Hn). unfold gets. cbn beta iota zeta. change (scopeObjects scope p1) with (scopeObjects scope p). fold (listed p).
  destruct (Z.leb_spec (len (listed p)) page_size) as [Hle|Hgt].
  - unfold mret, gom_ret. exists p1. destruct fuel; cbn [follow Page_NextCursor]; by rewrite bool_decide_eq_true_2.
  - unfold draw_id, OpaqueID, IDGenerator_bytes. change (ids p1) with (ids p). rewrite (proj2 (Nat.ltb_ge _ _) Hi). cbn beta iota zeta.
    fold (fresh_cursor p). set (cursor := fresh_cursor p) in *. unfold modify. cbn beta iota zeta.
    set (snapshot := {| ls_scope := scope |}). match goal with |- context [listPageLocked cursor snapshot ?q] => destruct (follow_snapshot between fuel cursor snapshot q) as (p' & ->) end.
    + done.
    + done.
    + exact Hq.
    + subst cursor. unfold fresh_cursor. rewrite b64_encode_nil. intros E. pose proof (length_take (source (ids p)) 16) as Et. rewrite E, Nat.min_l in Et by lia. done.
    + unfold resumes. cbn. by rewrite !bool_decide_eq_true_2, Z.eqb_refl, Bool.eqb_reflx.
    + cbn. unfold len. lia.
    + cbn. lia.
    + by exists p'.
Qed.
End Listing.
End DriveListing.
