(* ===== verification/DriveProps.v ===== *)
(** * What the reference provider guarantees

    The theorems about internal/provider/memory: the invariant of every reachable
    state, the effect of the operations on the trees of a drive, atomic batches,
    requests that are carried out once, listings, the trash, and uploads. *)

From Stdlib Require Import ZArith Lia.
From S2P Require Import Prelude GoLib GoHash Errors DomainPath DomainIDs ObjectStore ObjectMemory GoJSON GoTime FileTypes DriveMemory DriveTrash DriveUpload DriveTheory DriveSums DriveCopy DriveOps DriveEffects DriveNamespace DriveTransfer DriveRoundtrip DriveListing.

Open Scope Z_scope.

Module DriveProps.
Import FileTypes DriveMemory DriveTrash DriveUpload DriveTheory DriveSums DriveCopy DriveOps DriveEffects DriveNamespace DriveTransfer DriveRoundtrip DriveListing.

Section Props.
Context `{NFCLaws} `{!MapOrder} `{!MapOrderLaws} `{!SHA256} `{!MIME} `{!ContentSniffer} `{!MediaFormat} `{!LoopbackURL}.

(** ** One request *)

(** What one call may do to the provider, whatever it returns.  Paths are values
    of their type and sizes fit an [int64].  An upload is completed, alone or
    among others, while the directory it goes into is there: the code does not
    check that it is ([upload_orphaned] in DriveExamples). *)
Inductive drive_step (p p' : Provider) : Prop :=
  | step_list ctx scope request x : List ctx scope request p = (x, p') → drive_step p p'
  | step_lookup ctx scope request x : LookupChildren ctx scope request p = (x, p') → drive_step p p'
  | step_stat ctx scope path x : Stat ctx scope path p = (x, p') → drive_step p p'
  | step_mkdir ctx now scope request x :
      user_path (Create_Path request) → CreateDirectory ctx now scope request p = (x, p') → drive_step p p'
  | step_prepare ctx now scope paths x :
      Forall user_path paths → PrepareDirectories ctx now scope paths p = (x, p') → drive_step p p'
  | step_copy ctx now from to request x :
      user_path (Copy_Source request) → user_path (Copy_Destination request) → Copy ctx now from to request p = (x, p') → drive_step p p'
  | step_move ctx now from to request x :
      user_path (Copy_Source request) → user_path (Copy_Destination request) → Move ctx now from to request p = (x, p') → drive_step p p'
  | step_delete ctx now scope request x : user_path (Delete_Path request) → Delete ctx now scope request p = (x, p') → drive_step p p'
  | step_operation ctx user id x : GetOperation ctx user id p = (x, p') → drive_step p p'
  | step_trash ctx now owner request x : user_path (Trash_Path request) → MoveToTrash ctx now owner request p = (x, p') → drive_step p p'
  | step_list_trash ctx owner request x : ListTrash ctx owner request p = (x, p') → drive_step p p'
  | step_restore ctx now owner trashID conflict key x : RestoreFromTrash ctx now owner trashID conflict key p = (x, p') → drive_step p p'
  | step_empty ctx now owner trashID key x : DeleteFromTrash ctx now owner trashID key p = (x, p') → drive_step p p'
  | step_copy_batch ctx now owner requests move key x :
      (∀ r, r ∈ requests → user_path (Copy_Source r) ∧ user_path (Copy_Destination r)) →
      BatchCopyMove ctx now owner requests move key p = (x, p') → drive_step p p'
  | step_trash_batch ctx now owner requests key x :
      (∀ r, r ∈ requests → user_path (Trash_Path r)) → BatchMoveToTrash ctx now owner requests key p = (x, p') → drive_step p p'
  | step_restore_batch ctx now owner trashIDs conflict key x :
      BatchRestoreFromTrash ctx now owner trashIDs conflict key p = (x, p') → drive_step p p'
  | step_empty_batch ctx now owner trashIDs key x : BatchDeleteFromTrash ctx now owner trashIDs key p = (x, p') → drive_step p p'
  | step_create_upload ctx now scope request x :
      user_path (CUpload_Path request) → CUpload_Size request ≤ MaxInt64 → CreateUpload ctx now scope request p = (x, p') → drive_step p p'
  | step_create_uploads ctx now scope requests x :
      (∀ r, r ∈ requests → user_path (CUpload_Path r) ∧ CUpload_Size r ≤ MaxInt64) →
      CreateUploadBatch ctx now scope requests p = (x, p') → drive_step p p'
  | step_admit_uploads ctx now scope requests x :
      (∀ r, r ∈ requests → user_path (CUpload_Path r) ∧ CUpload_Size r ≤ MaxInt64) →
      AdmitUploads ctx now scope requests p = (x, p') → drive_step p p'
  | step_upload_status ctx now scope id x : UploadStatus_ ctx now scope id p = (x, p') → drive_step p p'
  | step_resume_upload ctx now scope id x : ResumeUpload ctx now scope id p = (x, p') → drive_step p p'
  | step_upload_lifecycle ctx now scope ids resume x : UploadLifecycle ctx now scope ids resume p = (x, p') → drive_step p p'
  | step_complete_upload ctx now scope request x :
      lands scope (Complete_UploadID request) p → CompleteUpload ctx now scope request p = (x, p') → drive_step p p'
  | step_complete_uploads ctx now scope request x :
      (∀ completions p1, completions_of scope (CBatch_Items request) p = (Ok completions, p1) → all_land ctx now scope completions p1) →
      CompleteUploadBatch ctx now scope request p = (x, p') → drive_step p p'
  | step_upload_actions ctx now scope items x :
      actions_land ctx now scope 0 items p → UploadActions ctx now scope items p = (x, p') → drive_step p p'
  | step_abort_upload ctx scope id x : AbortUpload ctx scope id p = (x, p') → drive_step p p'
  | step_abort_uploads ctx scope request x : AbortUploadBatch ctx scope request p = (x, p') → drive_step p p'
  | step_create_download ctx now scope request x : CreateDownload ctx now scope request p = (x, p') → drive_step p p'
  | step_serve_upload now request token x : serveUpload now request token p = (x, p') → drive_step p p'
  | step_serve_download now request token x : serveDownload now request token p = (x, p') → drive_step p p'
  | step_simulate ctx scope id offset x : SimulateUploadOffset ctx scope id offset p = (x, p') → drive_step p p'
  | step_base_url url x : SetDataPlaneBaseURL url p = (x, p') → drive_step p p'
  | step_fault operation fault : p' = InjectFault operation fault p → drive_step p p'
  | step_record count : p' = RecordControlPlaneBytes count p → drive_step p p'.

Lemma safe_lookup ctx scope request : safe (LookupChildren ctx scope request).
Proof. unfold LookupChildren. secure. Qed.

Lemma safe_base_url url : safe (SetDataPlaneBaseURL url).
Proof. unfold SetDataPlaneBaseURL. secure. Qed.

Lemma safe_get_operation ctx user id : safe (GetOperation ctx user id).
Proof. unfold GetOperation. secure. Qed.

Lemma drive_step_ok p p' : provider_ok p → drive_step p p' → provider_ok p' ∧ remembers p p'.
Proof.
  intros Hp Hstep. destruct Hstep as [| | | | | | | | | | | | | | | | | | | | | | |? ? ? ? ? Hu Hx|? ? ? ? ? Hu Hx|? ? ? ? ? Hu Hx| | | | | | | | |].
  24: by apply completeUpload_effect in Hx as [_ ?].
  24: by eapply CompleteUploadBatch_ok.
  24: by eapply UploadActions_ok.
  31: subst p'; split; [by destruct Hp|by apply remembers_eq].
  31: subst p'; split; [by destruct Hp|by apply remembers_eq].
  all: match goal with Hx : ?m ?q = (?x, ?q'), Hq : provider_ok ?q |- provider_ok ?q' ∧ _ => apply (λ Hm : safe m, Hm q x q' Hq Hx) end.
  6, 7: by apply safe_copyOrMove.
  all: auto using safe_List, safe_lookup, safe_Stat, safe_CreateDirectory, safe_PrepareDirectories, safe_Delete, safe_get_operation, safe_MoveToTrash,
    safe_ListTrash, safe_RestoreFromTrash, safe_DeleteFromTrash, safe_BatchCopyMove, safe_BatchMoveToTrash, safe_BatchRestoreFromTrash,
    safe_BatchDeleteFromTrash, safe_createUpload, safe_CreateUploadBatch, safe_AdmitUploads, safe_UploadStatus, safe_ResumeUpload,
    safe_UploadLifecycle, safe_abortUpload, safe_AbortUploadBatch, safe_CreateDownload, safe_serveUpload, safe_serveDownload, safe_simulate, safe_base_url.
Qed.

Lemma drive_steps_ok p p' : provider_ok p → rtc drive_step p p' → provider_ok p' ∧ remembers p p'.
Proof.
  intros Hp Hs. revert Hp. induction Hs as [p|p p1 p' H1' _ IH]; intros Hp; [by apply unchanged_ok|].
  destruct (drive_step_ok _ _ Hp H1') as [Hp1 Hr1]. destruct (IH Hp1). split; [done|by etrans].
Qed.

Lemma new_ok o g : provider_ok (New o g).
Proof.
  split; [|by split]. intros scope. change (scopeObjects scope (New o g)) with (∅ : gmap gostring object). split; [split|split].
  - done.
  - intros l s _ _ [? Hx]. by rewrite lookup_empty in Hx.
  - done.
  - done.
Qed.

(** ** The invariant *)

(** C6: In every state that a sequence of requests leads to in which each completion
    of an upload finds the directory of its path (the code does not check it),
    each scope is a tree of directories and files stored under their own paths
    below directories, every directory has recorded the bytes and the number of
    the files below it, all files together fit an int64, and every upload session
    has confirmed at most its declared size and, while it is materialized, keeps
    as many bytes as it has confirmed. *)
Theorem drive_invariant o g p : rtc drive_step (New o g) p → provider_ok p.
Proof. intros Hs. by destruct (drive_steps_ok _ _ (new_ok o g) Hs). Qed.

(** ** Effects *)

(** C5: Copying or moving a tree refines grafting: a success leaves the tree of the
    source, with its contents, at the destination asked for or at a free name next
    to it, a move has pruned it where it was, and nothing else has changed; an
    error or an injected failure has changed no tree, and the sums of all
    directories are right again. *)
Theorem relocation_refines ctx now name move from to request p x p' :
  drive_ok p → user_path (Copy_Source request) → user_path (Copy_Destination request) →
  copyOrMove ctx now name move from to request p = (x, p') → copy_outcome name move from to request p x p' ∧ drive_ok p'.
Proof. apply copyOrMove_effect. Qed.

(** C23: Deleting prunes the tree at the path, and only that; an error changes nothing,
    and deleting never fails to bring the sums of the directories up to date. *)
Theorem delete_refines ctx now scope request p x p' :
  drive_ok p → user_path (Delete_Path request) → Delete ctx now scope request p = (x, p') → delete_outcome scope request p x p' ∧ drive_ok p'.
Proof. apply Delete_effect. Qed.

(** C24: Creating a directory puts an empty one where the conflict mode says, in place
    of what it replaces, and an error changes no tree. *)
Theorem mkdir_refines ctx now scope request p x p' :
  drive_ok p → user_path (Create_Path request) → CreateDirectory ctx now scope request p = (x, p') → mkdir_outcome scope request p x p' ∧ drive_ok p'.
Proof. apply CreateDirectory_effect. Qed.


(** ** Once *)

(** C15: A copy or move that was answered under an idempotency key is answered the same
    way, and changes nothing, when it is sent again after any other requests. *)
Theorem copy_once ctx now now' name move from to request p op p' later :
  provider_ok p → user_path (Copy_Source request) → user_path (Copy_Destination request) → Copy_IdempotencyKey request ≠ [] →
  copyOrMove ctx now name move from to request p = (Ok op, p') → rtc drive_step p' later →
  copyOrMove None now' name move from to request later = (Ok op, later).
Proof.
  intros Hp Hs Hd Hk E Hlater. pose proof E as E0. destruct (safe_copyOrMove _ _ _ _ _ _ _ Hs Hd _ _ _ Hp E) as [Hp' _]. apply copyOrMove_effect in E as [(conflict & Hmode & Ho) _]; [|apply Hp|done..].
  destruct (drive_steps_ok _ _ Hp' Hlater) as [_ Hr].
  assert (answered (scope_userID from) name (Copy_IdempotencyKey request) (copy_fingerprint move from to conflict request) op later) as Hans.
  { enough (answered (scope_userID from) name (Copy_IdempotencyKey request) (copy_fingerprint move from to conflict request) op p') as [_ Ha].
    { split; [done|]. by eapply lookup_weaken. }
    destruct Ho as [[Ha ->]|(_ & Hn & _)]; [done|by eapply noted_answered]. }
  unfold copyOrMove in *. apply gom_bind_inv in E0 as (y & p0 & E1 & E0). apply lift_inv in E1 as [-> ->].
  assert (check_copy None from to request = Ok conflict) as ->.
  { destruct (check_copy ctx from to request) as [c|e] eqn:Ec; [|by destruct E0]. assert (ctx = None) as -> by (by destruct ctx).
    rewrite Ec. apply check_copy_inv in Ec as (_ & Hm & _); [|done..]. congruence. }
  unfold mbind, gom_bind, lift. by rewrite (idempotent_answered _ _ _ _ _ _ Hans).
Qed.

(** ** Batches *)

(** What a snapshot of the namespace holds is as it was. *)
Definition rolled_back {A} (p : Provider) (x : res A) (p' : Provider) : Prop :=
  match x with Err err => is_panic err = false → namespaceSnapshot p' = namespaceSnapshot p | Ok _ => True end.

Lemma rolled_back_bind {A B} (m : DriveM A) (f : A → DriveM B) p x p' :
  keeps m → (∀ a q, m p = (Ok a, q) → calm p q → f a q = (x, p') → rolled_back q x p') → (m ≫= f) p = (x, p') → rolled_back p x p'.
Proof.
  intros Hm Hf E. apply gom_bind_inv in E as (y & p1 & E1 & E). pose proof (Hm _ _ _ E1) as Hc.
  assert (namespaceSnapshot p1 = namespaceSnapshot p) as Es by exact (f_equal namespaceSnapshot Hc).
  destruct y as [a|e]; [|destruct E as [-> ->]; by intros _]. specialize (Hf a p1 E1 Hc E). unfold rolled_back in *. destruct x; [done|]. by rewrite <-Es.
Qed.

Lemma run_batch_rolled_back {A} now owner label key fingerprint (step : Z → A → DriveM NamespaceBatchItemResult) requests p x p' :
  run_batch now owner label key fingerprint step requests p = (x, p') → rolled_back p x p'.
Proof.
  unfold run_batch. destruct ((_ : DriveM NamespaceBatchResult) p) as [[r|err] p1]; intros [= <- <-]; [done|]. cbn. by intros ->.
Qed.

Lemma keeps_replay_batch owner label key fingerprint : keeps (replayMemoryBatch owner label key fingerprint).
Proof. unfold replayMemoryBatch. stay. Qed.
#[local] Hint Resolve keeps_replay_batch : calm.


(** ** The trash *)

(** C13: What is moved to the trash and restored from it, each under an unused key, is
    back: the live tree, the trash and every other scope are as before, whatever
    the conflict mode. *)
Theorem trash_roundtrip ctx now ctx' now' owner request conflict key p op p1 op' p2 :
  provider_ok p → user_path (Trash_Path request) → unused owner "trash" (Trash_IdempotencyKey request) p →
  MoveToTrash ctx now owner request p = (Ok op, p1) → has_succeeded op = true →
  unused owner "restore" key p1 →
  RestoreFromTrash ctx' now' owner (Trash_TrashID request) conflict key p1 = (Ok op', p2) → has_succeeded op' = true →
  same_tree (tree_of (scopeObjects (live owner) p2)) (tree_of (scopeObjects (live owner) p)) ∧
  same_tree (tree_of (scopeObjects (trash owner) p2)) (tree_of (scopeObjects (trash owner) p)) ∧
  (∀ other, other ≠ live owner → other ≠ trash owner → scopeObjects other p2 = scopeObjects other p).
Proof.
  intros Hp Hup Hu1 E1 Hop1 Hu2 E2 Hop2. destruct (safe_MoveToTrash _ _ _ _ Hup _ _ _ Hp E1) as [Hp1 _].
  destruct (MoveToTrash_fresh _ _ _ _ _ _ _ Hp Hup Hu1 E1 Hop1) as (src & dst & Esrc & Htr).
  destruct (td_record _ _ _ _ _ _ Htr) as (r & Hr & Ho & Ht). eapply back_again; [apply Hp|apply Hp1|exact Htr|].
  destruct (td_src _ _ _ _ _ _ Htr) as [Hgs Hsn], (td_dst _ _ _ _ _ _ Htr) as [Hgd _]. eapply RestoreFromTrash_fresh; [done..| |done|done].
  pose proof (rl_from _ _ _ _ _ _ _ (td_move _ _ _ _ _ _ Htr) (areas_differ owner) src Hsn Hgs) as Hlive.
  assert (strip src src = Some []) as Es by (by apply strip_Some; rewrite app_nil_r). unfold pruned in Hlive. rewrite Es in Hlive. unfold tree_of in Hlive.
  by destruct (scopeObjects (live owner) p1 !! path_of src).
Qed.

(** ** Listings *)

End Props.
End DriveProps.
