(* ===== verification/DriveExamples.v ===== *)
(** * The reference provider at work

    A small drive built by requests, on which the theorems of DriveProps are
    applied, and three behaviours of the provider that its callers would not
    expect. *)

From Stdlib Require Import ZArith Lia.
From S2P Require Import Prelude GoLib GoHash Errors DomainPath DomainIDs ObjectStore ObjectMemory GoJSON GoTime FileTypes DriveMemory DriveTrash DriveUpload DriveTheory DriveSums DriveCopy DriveOps DriveEffects DriveNamespace DriveTransfer DriveRoundtrip DriveListing DriveProps.

Open Scope Z_scope.

Module DriveExamples.
Import FileTypes DriveMemory DriveTrash DriveUpload DriveTheory DriveSums DriveCopy DriveOps DriveEffects DriveNamespace DriveTransfer DriveRoundtrip DriveListing DriveProps.

#[local] Existing Instance ascii_nfc.
#[local] Existing Instance ascii_nfc_laws.
#[local] Instance sha256_drive : SHA256 := sha256_Sum256.
#[local] Instance mime_drive : MIME := Some.
#[local] Instance sniff_drive : ContentSniffer := λ _, octet_stream.
#[local] Instance format_drive : MediaFormat := λ disposition _, disposition.
#[local] Instance loopback_drive : LoopbackURL := λ _, true.
#[local] Instance order_drive : MapOrder := λ A m, map_to_list m.
#[local] Instance order_drive_laws : MapOrderLaws.
Proof. intros A m. done. Qed.

(** ** A drive *)

Definition at_ (s : gostring) : UserPath := match ParseUserPath s with Ok path => path | Err _ => zero_path end.

Lemma at_ok s : user_path (at_ s).
Proof. unfold at_. destruct (ParseUserPath s) as [q|e] eqn:E; [by eapply parsed_path|by left]. Qed.
#[local] Hint Resolve at_ok : core.

Definition ada : UserID := {| userID_value := "AAAAAAAAAAAAAAAAAAAAAA" |}.
Definition entropy : gostring := map (λ i, byte_of ((i * i + i / 16 * 37) mod 256)) (seqZ 0 1024).
Definition rules : ObjectStore.ChunkRules :=
  {| ObjectStore.Rules_MinimumSize := 1; ObjectStore.Rules_MaximumSize := 64; ObjectStore.Rules_Multiple := 1 |}.
Definition settings : Options :=
  {| UploadTTL := 0; DownloadTTL := 0; MaxMaterializedBytes := 0; ChunkRules := rules; AllowedOrigin := [] |}.
Definition start : Provider := New settings {| source := entropy |}.

Definition mkdir (path : gostring) : DriveM Entry :=
  CreateDirectory None 100 (live ada) {| Create_Path := at_ path; Create_Conflict := []; Create_ExpectedVersion := [] |}.

Definition after {E A} (m : GoM Provider E A) (p : Provider) : Provider := snd (m p).

Definition connected : Provider := after (SetDataPlaneBaseURL "http://127.0.0.1") start.
Definition folders : Provider := after (mkdir "/docs/work") (after (mkdir "/docs") (after (mkdir "/music") connected)).

Definition a_file (path key : gostring) (size : Z) : CreateUploadRequest :=
  {| CUpload_Path := at_ path; CUpload_Size := size; CUpload_MediaType := "text/x-note"; CUpload_Conflict := [];
     CUpload_ExpectedVersion := []; CUpload_Resumable := false; CUpload_IdempotencyKey := key |}.

Definition offered : res UploadCapability * Provider := CreateUpload None 200 (live ada) (a_file "/docs/work/plan" "upload-1" 5) folders.
Definition upload_id : gostring := match fst offered with Ok c => UCap_UploadID c | Err _ => [] end.
Definition upload_token : gostring :=
  match fst offered with Ok c => TrimPrefix (UCap_URL c) "http://127.0.0.1/cap/upload/" | Err _ => [] end.

Definition body : Request :=
  {| Request_Method := "PUT"; Request_Path := []; Request_Origin := []; Request_ContentType := "text/x-note"; Request_UploadOffset := [];
     Request_Range := []; Request_Body := "hello"; Request_BodyError := false |}.
Definition received : Provider := after (serveUpload 210 body upload_token) (snd offered).

Definition finish_request : CompleteUploadRequest :=
  {| Complete_UploadID := upload_id; Complete_Path := at_ "/docs/work/plan"; Complete_Size := 5; Complete_MediaType := "text/x-note";
     Complete_CRC32C := [] |}.
Definition finished : res Entry * Provider := CompleteUpload None 220 (live ada) finish_request received.
Definition drive : Provider := snd finished.

(** One more request on the way. *)
Lemma reach_more p p' q : rtc drive_step p p' → drive_step p' q → rtc drive_step p q.
Proof. intros Hs H1. by eapply rtc_r. Qed.

Lemma mkdir_step path p : drive_step p (after (mkdir path) p).
Proof. eapply step_mkdir; [|apply surjective_pairing]. apply at_ok. Qed.

Lemma folders_reached : rtc drive_step start folders.
Proof.
  unfold folders, connected. do 3 (eapply reach_more; [|apply mkdir_step]). apply rtc_once. eapply step_base_url, surjective_pairing.
Qed.

Lemma received_reached : rtc drive_step start received.
Proof.
  unfold received. eapply reach_more; [eapply reach_more; [apply folders_reached|]|eapply step_serve_upload, surjective_pairing].
  apply (step_create_upload _ _ None 200 (live ada) (a_file "/docs/work/plan" "upload-1" 5) (fst offered)); [apply at_ok|done|apply surjective_pairing].
Qed.

Lemma received_session : up_path <$> uploads received !! upload_id = Some (at_ "/docs/work/plan").
Proof. vm_compute. reflexivity. Qed.

Lemma plan_segments : Segments (at_ "/docs/work/plan") = [bs "docs"; bs "work"] ++ [bs "plan"].
Proof. vm_compute. reflexivity. Qed.

Lemma work_there : is_directory <$> scopeObjects (live ada) received !! path_of [bs "docs"; bs "work"] = Some true.
Proof. vm_compute. reflexivity. Qed.

(** The directory of the upload is there. *)
Lemma received_parent s l :
  uploads received !! upload_id = Some s → up_path s = of_segments l → good_segments l → parent_present (scopeObjects (live ada) received) l.
Proof.
  intros Hs El Hl. pose proof received_session as E. rewrite Hs in E. cbn [fmap option_fmap option_map] in E. apply (inj Some) in E. rewrite El in E. apply (f_equal Segments) in E.
  rewrite Segments_of_segments in E by by apply good_segments_weaken. intros q s' -> Hq.
  rewrite plan_segments in E. apply app_inj_tail in E as [-> _]. pose proof work_there as Ew.
  destruct (scopeObjects (live ada) received !! _) as [d|]; [|done]. exists d. split; [done|]. by injection Ew.
Qed.

Lemma drive_reached : rtc drive_step start drive.
Proof.
  eapply reach_more; [apply received_reached|]. eapply (step_complete_upload _ _ None 220 (live ada) finish_request); [|apply surjective_pairing].
  exact received_parent.
Qed.

Lemma drive_fine : provider_ok drive.
Proof. by destruct (drive_steps_ok _ _ (new_ok settings {| source := entropy |}) drive_reached). Qed.

Lemma received_fine : provider_ok received.
Proof. by destruct (drive_steps_ok _ _ (new_ok settings {| source := entropy |}) received_reached). Qed.

Lemma drive_invariant_witness : rtc drive_step start drive ∧ provider_ok drive.
Proof. split; [exact drive_reached|]. exact (drive_invariant settings {| source := entropy |} drive drive_reached). Defined.

(** ** Requests *)

Definition carry (source destination conflict key : gostring) : CopyRequest :=
  {| Copy_Source := at_ source; Copy_Destination := at_ destination; Copy_Conflict := conflict; Copy_ExpectedSource := [];
     Copy_ExpectedTarget := []; Copy_IdempotencyKey := key |}.

(** What a finished operation did. *)
Definition succeeded_with (x : res Operation) : Prop := match x with Ok op => has_succeeded op = true | Err _ => False end.

Definition moved : res Operation * Provider := Move None 300 (live ada) (live ada) (carry "/docs/work" "/music/old" [] "move-1") drive.

Lemma relocation_refines_witness :
  succeeded_with (fst moved) ∧
  copy_outcome OperationMove true (live ada) (live ada) (carry "/docs/work" "/music/old" [] "move-1") drive (fst moved) (snd moved) ∧
  drive_ok (snd moved).
Proof.
  split; [vm_compute; reflexivity|]. eapply (relocation_refines None 300 OperationMove true (live ada) (live ada));
    [apply drive_fine|apply at_ok|apply at_ok|apply surjective_pairing].
Defined.

Definition removal : DeleteRequest :=
  {| Delete_Path := at_ "/docs"; Delete_ExpectedVersion := []; Delete_IdempotencyKey := "delete-1" |}.
Definition removed : res Operation * Provider := Delete None 300 (live ada) removal drive.

Lemma delete_refines_witness :
  succeeded_with (fst removed) ∧ delete_outcome (live ada) removal drive (fst removed) (snd removed) ∧ drive_ok (snd removed).
Proof.
  split; [vm_compute; reflexivity|]. eapply (delete_refines None 300 (live ada)); [apply drive_fine|apply at_ok|apply surjective_pairing].
Defined.

Definition again : CreateDirectoryRequest := {| Create_Path := at_ "/docs"; Create_Conflict := ConflictRename; Create_ExpectedVersion := [] |}.
Definition renamed : res Entry * Provider := CreateDirectory None 300 (live ada) again drive.

Lemma mkdir_refines_witness :
  (∃ entry, fst renamed = Ok entry ∧ String (Entry_Path entry) = "/docs (1)") ∧
  mkdir_outcome (live ada) again drive (fst renamed) (snd renamed) ∧ drive_ok (snd renamed).
Proof.
  split; [eexists; split; [vm_compute; reflexivity|reflexivity]|].
  eapply (mkdir_refines None 300 (live ada)); [apply drive_fine|apply at_ok|apply surjective_pairing].
Defined.


Definition later : Provider := after (mkdir "/more") (snd moved).

Definition no_operation : Operation :=
  {| Operation_ID := []; Operation_State := []; Operation_ErrorKind := []; Operation_Error := []; Operation_StartedAt := 0; Operation_UpdatedAt := 0 |}.
Definition reported (x : res Operation) : Operation := match x with Ok op => op | Err _ => no_operation end.

(** A result that is not an error. *)
Lemma succeeded_pair (r : res Operation * Provider) : succeeded_with (fst r) → r = (Ok (reported (fst r)), snd r) ∧ has_succeeded (reported (fst r)) = true.
Proof. destruct r as [[op|e] p]; [|done]. by cbn. Qed.

Lemma moved_ok : succeeded_with (fst moved).
Proof. vm_compute. reflexivity. Qed.

Lemma copy_once_witness :
  succeeded_with (fst moved) ∧
  Move None 999 (live ada) (live ada) (carry "/docs/work" "/music/old" [] "move-1") later = (Ok (reported (fst moved)), later).
Proof.
  split; [exact moved_ok|].
  apply (copy_once None 300 999 OperationMove true (live ada) (live ada) (carry "/docs/work" "/music/old" [] "move-1") drive _ (snd moved));
    [apply drive_fine|apply at_ok|apply at_ok|done|exact (proj1 (succeeded_pair moved moved_ok))|apply rtc_once, mkdir_step].
Defined.

(** *** A batch that fails half-way *)

Definition half : list CopyRequest := [carry "/docs" "/docs-copy" [] []; carry "/missing" "/x" [] []].
Definition batch : res NamespaceBatchResult * Provider := BatchCopyMove None 300 ada half false "batch-1" drive.
Definition batch_error : error := match fst batch with Err err => err | Ok _ => OtherError [] end.

Lemma batch_failed : fst batch = Err batch_error ∧ is_panic batch_error = false.
Proof. split; vm_compute; reflexivity. Qed.


(** *** To the trash and back *)

Definition discard : TrashRequest :=
  {| Trash_Path := at_ "/docs"; Trash_ExpectedVersion := []; Trash_TrashID := "t1"; Trash_IdempotencyKey := "trash-1" |}.
Definition discarded : res Operation * Provider := MoveToTrash None 300 ada discard drive.
Definition restored : res Operation * Provider := RestoreFromTrash None 400 ada (Trash_TrashID discard) ConflictFail "restore-1" (snd discarded).

Lemma trash_works : succeeded_with (fst discarded) ∧ succeeded_with (fst restored).
Proof. split; vm_compute; reflexivity. Qed.

Lemma trash_keys : unused ada "trash" (Trash_IdempotencyKey discard) drive ∧ unused ada "restore" "restore-1" (snd discarded).
Proof. split; (split; [|right]); vm_compute; reflexivity. Qed.

Lemma trash_roundtrip_witness :
  same_tree (tree_of (scopeObjects (live ada) (snd restored))) (tree_of (scopeObjects (live ada) drive)) ∧
  same_tree (tree_of (scopeObjects (trash ada) (snd restored))) (tree_of (scopeObjects (trash ada) drive)) ∧
  (∀ other, other ≠ live ada → other ≠ trash ada → scopeObjects other (snd restored) = scopeObjects other drive).
Proof.
  destruct trash_works as [Ed Er]. destruct (succeeded_pair _ Ed) as [Pd Sd], (succeeded_pair _ Er) as [Pr Sr].
  apply (trash_roundtrip None 300 None 400 ada discard ConflictFail "restore-1" drive (reported (fst discarded)) (snd discarded)
    (reported (fst restored)) (snd restored)); [apply drive_fine|apply at_ok|exact (proj1 trash_keys)|exact Pd|exact Sd|exact (proj2 trash_keys)|exact Pr|exact Sr].
Defined.

(** *** A listing, page by page *)

Definition top : ListRequest :=
  {| List_Directory := at_ "/"; List_PageSize := 1; List_Cursor := []; List_Sort := []; List_Descending := true |}.

(** Behind the back of the client another one goes on with a listing of its own
    and everything is removed. *)
Definition theirs : ListRequest :=
  {| List_Directory := at_ "/"; List_PageSize := 1; List_Cursor := "theirs"; List_Sort := []; List_Descending := false |}.

Definition wipe (_ : nat) (p : Provider) : Provider := on_scope (live ada) (λ _, ∅) (snd (List None (live ada) theirs p)).

Lemma wipe_apart : bystander (fresh_cursor drive) wipe.
Proof. intros n p Hq. apply (resuming_bystander (fresh_cursor drive) (live ada) theirs); [done| |exact n|done]. by vm_compute. Qed.


(** ** Three surprises *)

(** In this run the directory of an upload is deleted between its start and its
    end: completing the upload succeeds and leaves a file whose directory is not
    there, and the listing of the root does not show that directory. *)
Example upload_orphaned :
  let gone := snd (Delete None 215 (live ada) removal received) in
  let '(x, p) := CompleteUpload None 220 (live ada) finish_request gone in
  is_Ok x = true ∧ is_Some (scopeObjects (live ada) p !! bs "/docs/work/plan") ∧ scopeObjects (live ada) p !! bs "/docs/work" = None ∧
  match fst (List None (live ada) {| List_Directory := at_ "/"; List_PageSize := 0; List_Cursor := []; List_Sort := []; List_Descending := false |} p) with
  | Ok page => map (λ e, String (Entry_Path e)) (Page_Entries page) = [bs "/music"]
  | Err _ => False
  end.
Proof. vm_compute. split; [reflexivity|]. split; [by eexists|]. split; reflexivity. Qed.

(** Requests to the trash without an idempotency key share the empty one: here the
    second of two is refused as if it reused a key. *)
Example keyless_trash_conflicts :
  let request path id := {| Trash_Path := at_ path; Trash_ExpectedVersion := []; Trash_TrashID := id; Trash_IdempotencyKey := [] |} in
  let '(x, p) := MoveToTrash None 300 ada (request "/docs" "t1") drive in
  succeeded_with x ∧
  fst (MoveToTrash None 310 ada (request "/music" "t2") p) = Err (NewError ErrorConflict "idempotency key was used for a different request").
Proof. vm_compute. split; reflexivity. Qed.

(** A trash identifier of two dots passes its check and makes the provider panic,
    and the items of the batch before it stay in the trash. *)
Example panicking_batch_not_atomic :
  let request path id := {| Trash_Path := at_ path; Trash_ExpectedVersion := []; Trash_TrashID := id; Trash_IdempotencyKey := [] |} in
  let '(x, p) := BatchMoveToTrash None 300 ada [request "/docs" "t1"; request "/music" ".."] "batch-1" drive in
  match x with Err err => is_panic err = true | Ok _ => False end ∧
  scopeObjects (live ada) p !! bs "/docs" = None ∧ is_Some (scopeObjects (trash ada) p !! bs "/t1").
Proof. vm_compute. split; [reflexivity|]. split; [reflexivity|by eexists]. Qed.
End DriveExamples.
