(* ===== verification/ObjectTheory.v ===== *)
(** * Correctness of the in-memory object backend

    Every call is one step of a versioned store; the backend invariant gives
    the absence of panics, and the transfer theorems follow a resumable upload
    from its first chunk to the stored object and a download capability to the
    bytes it serves. *)

From Stdlib Require Import ZArith Lia.
From S2P Require Import Prelude GoLib GoHash Errors DomainIDs Versioned ObjectStore ObjectMemory.

Open Scope Z_scope.

Module ObjectTheory.
Import ObjectStore MemoryBackend.

(** ** Keys *)

Definition segment_ok (s : gostring) : Prop :=
  s ≠ [] ∧ s ≠ bs "." ∧ s ≠ bs ".." ∧ Forall (λ c, key_character (byte_val c) = true) s.

Lemma key_character_ascii r : key_character r = true → r < 0x80.
Proof.
  unfold key_character. rewrite !orb_true_iff, !andb_true_iff, !Z.leb_le, !Z.eqb_eq. lia.
Qed.

Lemma check_segment_Ok s : check_segment s = Ok tt ↔ segment_ok s.
Proof.
  unfold check_segment, segment_ok.
  pose proof (runes_forallb_ascii key_character s key_character_ascii) as Hr.
  split.
  - intros E. inv_go. rewrite !orb_false_iff, !bool_decide_eq_false, negb_false_iff, Hr in *. naive_solver.
  - intros (H1 & H2 & H3 & H4). rewrite !bool_decide_eq_false_2 by done.
    cbn [orb guard_err mbind result_bind]. by rewrite (proj2 Hr H4).
Qed.

Definition key_ok (v : gostring) : Prop :=
  len v ≤ MaxKeyBytes ∧ len (split_on slash v) ≤ MaxKeySegments ∧ Forall segment_ok (split_on slash v).

Lemma segments_nonempty v :
  Forall segment_ok (split_on slash v) → v ≠ [] ∧ HasPrefix v "/" = false ∧ HasSuffix v "/" = false.
Proof.
  intros Hs. split; [|split].
  - intros ->. by inversion Hs as [|? ? [? _]].
  - apply bool_decide_eq_false_2. intros [k ->]. by inversion Hs as [|? ? [? _]].
  - destruct v as [|c v] using rev_ind; [done|]. change (bs "/") with [slash]. rewrite HasSuffix_snoc.
    apply bool_decide_eq_false_2. intros ->.
    rewrite split_on_snoc in Hs. apply Forall_app in Hs as [_ Hs]. by inversion Hs as [|? ? [? _]].
Qed.

Lemma ParseKey_Ok v k : ParseKey v = Ok k ↔ k = {| key_value := v |} ∧ key_ok v.
Proof.
  unfold ParseKey, key_ok. split.
  - intros E. inv_go. rewrite !orb_false_iff, !Z.ltb_ge in *. destruct_and!. injection E as <-.
    split; [done|]. split; [done|]. split; [done|].
    match goal with Hm : mapM_ _ _ = Ok ?u |- _ => destruct u; apply mapM_Ok in Hm end.
    eapply list.Forall_impl; [done|]. intros s. apply check_segment_Ok.
  - intros (-> & Hl & Hn & Hs). destruct (segments_nonempty v Hs) as (Hne & Hp & Hsuf).
    rewrite Hp, Hsuf. destruct (Z.eqb_spec (len v) 0) as [E|_].
    { destruct v; [done|]. unfold len in E; cbn in E; lia. }
    destruct (Z.ltb_spec MaxKeyBytes (len v)); [lia|]. cbn [orb guard_err mbind result_bind].
    destruct (Z.ltb_spec MaxKeySegments (len (split_on slash v))); [lia|]. cbn [guard_err mbind result_bind].
    assert (mapM_ check_segment (split_on slash v) = Ok tt) as ->; [|done].
    apply mapM_Ok. eapply list.Forall_impl; [done|]. intros s. apply check_segment_Ok.
Qed.

Lemma Key_Valid_spec k : Key_Valid k = true ↔ key_ok (key_value k).
Proof.
  destruct k as [v]. unfold Key_Valid. cbn [key_value]. split.
  - destruct (ParseKey v) as [k|] eqn:E; [|done]. by apply ParseKey_Ok in E as [_ ?].
  - intros Hv. rewrite (proj2 (ParseKey_Ok v _) (conj eq_refl Hv)). by apply bool_decide_eq_true_2.
Qed.

Lemma MustKey_Ok v : key_ok v → MustKey v = Ok {| key_value := v |}.
Proof. intros Hv. unfold MustKey. by rewrite (proj2 (ParseKey_Ok v _) (conj eq_refl Hv)). Qed.

(** ** Calls *)

Lemma VersionString_inj p i j :
  0 ≤ i ≤ MaxUint64 → 0 ≤ j ≤ MaxUint64 → VersionString p i = VersionString p j → i = j.
Proof. unfold VersionString. intros Hi Hj E. apply Sprintf_016x_inj; [done..|]. by apply app_inv_head in E. Qed.

#[export] Instance backend_versioned : VersionedStore Backend record := {|
  vs_records := records; vs_counter := versions; vs_version := version;
  vs_issue := VersionString "m"; vs_issue_inj := VersionString_inj "m" |}.

Section Theory.
Context `{SHA256} `{MD5Sum} `{MIME} `{LoopbackURL} (quote : gostring → gostring).

Inductive op :=
| OpHead (ctx : context) (key : Key)
| OpVerify (ctx : context) (key : Key) (expected : ExpectedIntegrity)
| OpGet (ctx : context) (key : Key)
| OpList (ctx : context) (request : ListRequest)
| OpPut (ctx : context) (key : Key) (data : gostring) (condition : PutCondition)
| OpDelete (ctx : context) (key : Key) (condition : DeleteCondition)
| OpCopy (ctx : context) (source destination : Key) (condition : CopyCondition)
| OpConfigureDataPlane (baseURL : gostring) (newIDs : IDGenerator)
| OpInjectTransferFault (operation fault : gostring)
| OpBeginUpload (ctx : context) (now : Z) (request : UploadRequest)
| OpResumeUpload (ctx : context) (now : Z) (lease : gostring)
| OpUploadProgress (ctx : context) (lease : gostring)
| OpAbortUpload (ctx : context) (lease : gostring)
| OpCreateDownload (ctx : context) (now : Z) (request : DownloadRequest)
| OpSimulateUploadOffset (ctx : context) (uploadID : gostring) (offset : Z)
| OpServeHTTP (now : Z) (request : Request).

Definition run (o : op) (b : Backend) : Backend :=
  match o with
  | OpHead ctx key => snd (Head ctx key b)
  | OpVerify ctx key expected => snd (Verify ctx key expected b)
  | OpGet ctx key => snd (Get ctx key b)
  | OpList ctx request => snd (List ctx request b)
  | OpPut ctx key data condition => snd (Put ctx key data condition b)
  | OpDelete ctx key condition => snd (Delete ctx key condition b)
  | OpCopy ctx source destination condition => snd (Copy ctx source destination condition b)
  | OpConfigureDataPlane baseURL newIDs => snd (ConfigureDataPlane baseURL newIDs b)
  | OpInjectTransferFault operation fault => InjectTransferFault operation fault b
  | OpBeginUpload ctx now request => snd (BeginUpload ctx now request b)
  | OpResumeUpload ctx now lease => snd (ResumeUpload ctx now lease b)
  | OpUploadProgress ctx lease => snd (UploadProgress ctx lease b)
  | OpAbortUpload ctx lease => snd (AbortUpload ctx lease b)
  | OpCreateDownload ctx now request => snd (CreateDownload ctx now request b)
  | OpSimulateUploadOffset ctx uploadID offset => snd (SimulateUploadOffset ctx uploadID offset b)
  | OpServeHTTP now request => snd (ServeHTTP quote now request b)
  end.

(** Sizes are [int64] values. *)
Definition typed (o : op) : Prop :=
  match o with OpBeginUpload _ _ request => Upload_Size request ≤ MaxInt64 | _ => True end.

(** ** The backend invariant *)

Record record_wf (k : gostring) (r : record) : Prop := {
  rw_key : key_ok k;
  rw_size : 0 ≤ size r;
  rw_body : if materialized r then size r = len (body r) ∧ fingerprint r = FingerprintFor (body r)
            else body r = [];
}.

Record session_wf (s : uploadSession) : Prop := {
  sw_key : key_ok (key_value (session_key s));
  sw_offset : 0 ≤ session_offset s ≤ session_size s;
  sw_size : session_size s ≤ MaxInt64;
  sw_body : if session_materialized s
            then session_md5 s = session_body s ∧ session_crc32c s = session_body s ∧
                 len (session_body s) = session_offset s ∧ session_fingerprint s = no_fingerprint
            else session_body s = [];
}.

Record backend_wf (b : Backend) : Prop := {
  bw_records k r : records b !! k = Some r → record_wf k r;
  bw_uploads k s : uploads b !! k = Some s → session_wf s;
}.

Lemma backend_wf_init ids : backend_wf (New ids).
Proof. split; intros *; cbn; by rewrite lookup_empty. Qed.

Lemma backend_wf_ext b b' :
  backend_wf b → records b' = records b → uploads b' = uploads b → backend_wf b'.
Proof. intros [Hr Hu] Er Eu. split; rewrite ?Er, ?Eu; done. Qed.

Lemma backend_wf_records b b' k r :
  backend_wf b → record_wf k r → records b' = <[k := r]> (records b) → uploads b' = uploads b → backend_wf b'.
Proof.
  intros [Hr Hu] Hk Er Eu. split; rewrite ?Er, ?Eu; [|done].
  intros k' r'. rewrite lookup_insert. case_decide; [by intros [= <-]; subst|apply Hr].
Qed.

Lemma backend_wf_delete b b' k :
  backend_wf b → records b' = delete k (records b) → uploads b' = uploads b → backend_wf b'.
Proof.
  intros [Hr Hu] Er Eu. split; rewrite ?Er, ?Eu; [|done]. intros k' r' [_ ?]%lookup_delete_Some. by apply Hr.
Qed.

Lemma backend_wf_uploads b b' k s :
  backend_wf b → session_wf s → records b' = records b → uploads b' = <[k := s]> (uploads b) → backend_wf b'.
Proof.
  intros [Hr Hu] Hk Er Eu. split; rewrite ?Er, ?Eu; [done|].
  intros k' r'. rewrite lookup_insert. case_decide; [by intros [= <-]|apply Hu].
Qed.

Ltac exec_go := exec_go_with ltac:(unfold nextVersion, draw_token, consumeTransferFault, page).

(** Finishing a session at its size stores a well-formed record. *)
Lemma finish_record_wf s v :
  session_wf s → session_offset s = session_size s →
  record_wf (key_value (session_key s))
    {| body := session_body s; version := v; size := session_size s;
       materialized := session_materialized s; fingerprint := sessionFingerprint s |}.
Proof.
  intros [Hk Ho Hs Hb] E. split; cbn; [done|lia|].
  destruct (session_materialized s) eqn:Em; [|done]. destruct Hb as (E1 & E2 & E3 & E4).
  split; [lia|]. unfold sessionFingerprint. rewrite E, Z.eqb_refl, E4, Em. cbn [negb].
  change (Fingerprint_Complete no_fingerprint) with false. cbn. rewrite E1, E2. done.
Qed.

Lemma accept_body_wf s chunk :
  session_wf s → session_offset s + len chunk ≤ session_size s → session_wf (accept_body s chunk).
Proof.
  intros [Hk Ho Hs Hb] Hl. pose proof (len_nonneg chunk). unfold accept_body.
  rewrite i64_small by (unfold MaxInt64 in *; lia).
  split; cbn; [done|lia|done|].
  destruct (session_materialized s); cbn; [|done].
  destruct (_ <=? _); [|done]. destruct Hb as (E1 & E2 & E3 & E4). rewrite E1, E2, len_app.
  split; [done|]. split; [done|]. split; [lia|done].
Qed.

(** The effect of an accepted chunk on records, sessions and versions. *)
Definition chunk_effect (id : gostring) (s : uploadSession) (chunk : gostring) (b b' : Backend) : Prop :=
  let s1 := accept_body s chunk in
  if session_offset s1 =? session_size s1 then
    let v := VersionString "m" (u64 (versions b + 1)) in
    records b' = <[key_value (session_key s1) :=
      {| body := session_body s1; version := v; size := session_size s1;
         materialized := session_materialized s1; fingerprint := sessionFingerprint s1 |}]> (records b) ∧
    uploads b' = <[id := with_version s1 v]> (uploads b) ∧ versions b' = u64 (versions b + 1)
  else records b' = records b ∧ uploads b' = <[id := s1]> (uploads b) ∧ versions b' = versions b.

Lemma read_limited_le request n data failed :
  read_limited request n = (data, failed) → len data ≤ Z.max 0 n.
Proof. unfold read_limited. intros [= <- <-]. unfold len. rewrite length_take. lia. Qed.

Lemma upload_admit_effect now request token b :
  let '(r, b') := upload_admit now request token b in
  records b' = records b ∧ uploads b' = uploads b ∧ versions b' = versions b ∧
  transferFaults b' = transferFaults b ∧
  match r with
  | Err _ => True
  | Ok (id, s, received) =>
      uploadTokens b !! sha256 token = Some id ∧ uploads b !! id = Some s ∧
      len received ≤ i64 (session_size s - session_offset s)
  end.
Proof.
  unfold upload_admit, gets, mbind, gom_bind, option_bind.
  destruct (uploadTokens b !! sha256 token) as [id|] eqn:Et; [|done].
  destruct (uploads b !! id) as [s|] eqn:Es; [|done]. cbn [fmap option_fmap option_map].
  exec_go; cbn; repeat (split; [done|]); try done.
  all: match goal with E : _ || (?l <? ?x) = false |- _ => apply orb_false_iff in E as [_ E%Z.ltb_ge] end.
  all: lia.
Qed.

Lemma finish_session_eq {E} stored s b :
  let v := VersionString "m" (u64 (versions b + 1)) in
  finish_session (E := E) stored s b =
  (Ok (with_version s v),
   upd_records (insert (key_value (session_key s))
     {| body := stored; version := v; size := session_size s;
        materialized := session_materialized s; fingerprint := sessionFingerprint s |})
     (upd_versions (λ v, u64 (v + 1)) b)).
Proof. done. Qed.

Lemma upload_commit_effect id s received b :
  ∃ chunk, chunk `prefix_of` received ∧ chunk_effect id s chunk b (snd (upload_commit id s received b)).
Proof.
  assert (∃ f b1, consumeTransferFault (E := Response) TransferUploadData TransferFaultInterrupted b = (Ok f, b1) ∧
    records b1 = records b ∧ uploads b1 = uploads b ∧ versions b1 = versions b) as (f & b1 & Ef & Er & Eu & Ev).
  { unfold consumeTransferFault. repeat case_match; by eexists _, _. }
  destruct (upload_commit id s received b) as [r b'] eqn:E. cbn [snd]. revert E.
  unfold upload_commit. unfold mbind at 1, gom_bind at 1. rewrite Ef. cbv zeta.
  set (accepted := if f && _ then _ else _). set (chunk := take (Z.to_nat accepted) received).
  intros E. exists chunk. split; [exists (drop (Z.to_nat accepted) received); unfold chunk; by rewrite take_drop|].
  unfold chunk_effect. rewrite <-Er, <-Eu, <-Ev. revert E.
  set (s1 := accept_body s chunk). clearbody s1 accepted chunk.
  destruct (session_offset s1 =? session_size s1); unfold mbind, gom_bind;
    rewrite ?finish_session_eq; exec_go; by intros [= _ <-].
Qed.

Lemma serveUpload_effect now request token b :
  let b' := snd (serveUpload now request token b) in
  (records b' = records b ∧ uploads b' = uploads b ∧ versions b' = versions b) ∨
  ∃ id s chunk, uploadTokens b !! sha256 token = Some id ∧ uploads b !! id = Some s ∧
    len chunk ≤ i64 (session_size s - session_offset s) ∧ chunk_effect id s chunk b b'.
Proof.
  intros b'. subst b'. unfold serveUpload, mbind, gom_bind.
  pose proof (upload_admit_effect now request token b) as Ha.
  destruct (upload_admit now request token b) as [[[[id s] received]|e] b1];
    destruct Ha as (Er & Eu & Ev & _ & Ha); [right|by left].
  destruct Ha as (Ht & Hs & Hl).
  destruct (upload_commit_effect id s received b1) as (chunk & Hp & Hc).
  exists id, s, chunk. split; [done|]. split; [done|]. split.
  - apply prefix_length in Hp. unfold len in *. lia.
  - revert Hc. unfold chunk_effect. by rewrite Er, Eu, Ev.
Qed.

Lemma serveDownload_effect now request token b :
  let b' := snd (serveDownload quote now request token b) in
  records b' = records b ∧ uploads b' = uploads b ∧ versions b' = versions b.
Proof. intros b'. subst b'. unfold serveDownload. exec_go; done. Qed.

(** What a data-plane request does to records, sessions and versions. *)
Lemma ServeHTTP_effect now request b :
  let b' := snd (ServeHTTP quote now request b) in
  (records b' = records b ∧ uploads b' = uploads b ∧ versions b' = versions b) ∨
  ∃ id s chunk, uploads b !! id = Some s ∧
    len chunk ≤ i64 (session_size s - session_offset s) ∧ chunk_effect id s chunk b b'.
Proof.
  intros b'. subst b'. unfold ServeHTTP.
  destruct (split_on slash _) as [|root [|kind [|token []]]]; try by left.
  destruct (_ || _); [by left|]. case_bool_decide; [|case_bool_decide; [|by left]].
  - pose proof (serveUpload_effect now request token b) as He.
    destruct (serveUpload now request token b) as [r b'].
    destruct He as [He|(id & s & chunk & _ & He)]; [by left|right]. by exists id, s, chunk.
  - pose proof (serveDownload_effect now request token b) as He.
    destruct (serveDownload quote now request token b) as [r b']. by left.
Qed.

(** ** Every call preserves the invariant *)

Lemma session_room s : session_wf s → i64 (session_size s - session_offset s) = session_size s - session_offset s.
Proof. intros [_ Ho Hs _]. apply i64_small. unfold MaxInt64 in *. lia. Qed.

Lemma with_version_wf s v : session_wf s → session_wf (with_version s v).
Proof. intros [? ? ? ?]. by split. Qed.

Lemma backend_wf_finish b b' id s v :
  backend_wf b → session_wf s → session_offset s = session_size s →
  records b' = <[key_value (session_key s) :=
    {| body := session_body s; version := v; size := session_size s;
       materialized := session_materialized s; fingerprint := sessionFingerprint s |}]> (records b) →
  uploads b' = <[id := with_version s v]> (uploads b) → backend_wf b'.
Proof.
  intros Hb Hs E Er Eu. eapply (backend_wf_records (upd_uploads (λ _, uploads b') b) b'); [| |exact Er|done].
  - eapply (backend_wf_uploads b); [done| |done|exact Eu]. by apply with_version_wf.
  - by apply finish_record_wf.
Qed.

Lemma chunk_effect_wf id s chunk b b' :
  backend_wf b → uploads b !! id = Some s → len chunk ≤ i64 (session_size s - session_offset s) →
  chunk_effect id s chunk b b' → backend_wf b'.
Proof.
  intros Hb Hs Hl He. assert (session_wf s) as Hsw by (by eapply bw_uploads).
  rewrite session_room in Hl by done.
  pose proof (accept_body_wf s chunk Hsw ltac:(lia)) as Hs1.
  unfold chunk_effect in He. destruct (Z.eqb_spec (session_offset (accept_body s chunk)) (session_size (accept_body s chunk))) as [E|E].
  - destruct He as (Er & Eu & _). by eapply (backend_wf_finish b).
  - destruct He as (Er & Eu & _). by eapply (backend_wf_uploads b).
Qed.

Lemma BeginUpload_wf ctx now request b :
  backend_wf b → Upload_Size request ≤ MaxInt64 → backend_wf (snd (BeginUpload ctx now request b)).
Proof.
  intros Hb Ht. unfold BeginUpload. exec_go; try done; try by eapply backend_wf_ext.
  all: match goal with E : (_ || _ || _ || _ || _) = false |- _ =>
    rewrite !orb_false_iff in E; destruct E as ((((_ & Hk%negb_false_iff) & Hz%Z.ltb_ge) & _) & _) end.
  all: apply Key_Valid_spec in Hk.
  all: eapply backend_wf_uploads; [exact Hb| |done|done]; split; cbn; try done; lia.
Qed.

Lemma simulate_session_wf s offset :
  session_wf s → session_offset s ≤ offset ≤ session_size s → session_wf (simulate_session s offset).
Proof. intros [? ? ? ?] Ho. split; cbn; [done|lia|done|done]. Qed.

Lemma SimulateUploadOffset_wf ctx id offset b :
  backend_wf b → backend_wf (snd (SimulateUploadOffset ctx id offset b)).
Proof.
  intros Hb. unfold SimulateUploadOffset. exec_go; try done;
  match goal with
  | Hs : uploads ?b !! id = Some ?s, E : (_ || _ || _) = false |- _ =>
      rewrite !orb_false_iff in E; destruct E as ((_ & Ho1%Z.ltb_ge) & Ho2%Z.ltb_ge);
      pose proof (simulate_session_wf s offset (bw_uploads _ Hb _ _ Hs) (conj Ho1 Ho2)) as Hw
  end.
  - match goal with Hf : finish_session [] ?s ?b = _ |- _ => rewrite finish_session_eq in Hf; injection Hf as <- <- end.
    eapply (backend_wf_finish b); [done|exact Hw| |done|done]. by apply Z.eqb_eq.
  - by eapply backend_wf_uploads.
Qed.

Lemma run_wf o b : typed o → backend_wf b → backend_wf (run o b).
Proof.
  intros Ht Hb. destruct o; cbn [run].
  - unfold Head. exec_go; done.
  - unfold Verify. exec_go; done.
  - unfold Get, Open. exec_go; done.
  - unfold List. exec_go; by try eapply backend_wf_ext.
  - unfold Put. exec_go; try done.
    eapply backend_wf_records; [exact Hb| |done|done]. split; cbn; [|apply len_nonneg|done].
    apply Key_Valid_spec. by apply negb_false_iff.
  - unfold Delete. exec_go; try done. by eapply backend_wf_delete.
  - unfold Copy. exec_go; try done.
    match goal with E : (_ || _ || _) = false |- _ =>
      rewrite !orb_false_iff, !negb_false_iff, !Key_Valid_spec in E; destruct E as ((_ & Hk) & _) end.
    match goal with Hs : records b !! key_value source = Some _ |- _ =>
      destruct (bw_records _ Hb _ _ Hs) as [_ ? ?] end.
    eapply backend_wf_records; [exact Hb| |done|done]. by split.
  - unfold ConfigureDataPlane. exec_go; [done|by eapply backend_wf_ext].
  - by eapply backend_wf_ext.
  - by apply BeginUpload_wf.
  - unfold ResumeUpload. exec_go; done.
  - unfold UploadProgress. exec_go; try done; by eapply backend_wf_ext.
  - unfold AbortUpload. exec_go; try done. split; cbn; [apply (bw_records _ Hb)|].
    intros k s [_ ?]%lookup_delete_Some. by eapply bw_uploads.
  - unfold CreateDownload. exec_go; try done; by eapply backend_wf_ext.
  - by apply SimulateUploadOffset_wf.
  - pose proof (ServeHTTP_effect now request b) as [(Er & Eu & _)|(id & s & chunk & Hs & Hl & He)].
    + by eapply backend_wf_ext.
    + by eapply chunk_effect_wf.
Qed.

(** ** Every call is one step of the versioned store *)

Ltac no_step := exec_go; by eexists; split; [by apply micro_other|lia].

Lemma backend_run_micro o n b : ∃ n', micro (n, b) (n', run o b) ∧ n ≤ n' ≤ n + 1.
Proof.
  destruct o; cbn [run].
  - unfold Head; no_step.
  - unfold Verify; no_step.
  - unfold Get, Open; no_step.
  - unfold List; no_step.
  - unfold Put. exec_go; try (by eexists; split; [by apply micro_other|lia]).
    eexists. split; [by eapply micro_write|lia].
  - unfold Delete. exec_go; try (by eexists; split; [by apply micro_other|lia]).
    eexists. split; [by eapply micro_delete|lia].
  - unfold Copy. exec_go; try (by eexists; split; [by apply micro_other|lia]).
    eexists. split; [by eapply micro_write|lia].
  - unfold ConfigureDataPlane; no_step.
  - by eexists; split; [by apply micro_other|lia].
  - unfold BeginUpload; no_step.
  - unfold ResumeUpload; no_step.
  - unfold UploadProgress; no_step.
  - unfold AbortUpload; no_step.
  - unfold CreateDownload; no_step.
  - unfold SimulateUploadOffset. exec_go; try (by eexists; split; [by apply micro_other|lia]).
    match goal with Hf : finish_session [] ?s ?b = _ |- _ => rewrite finish_session_eq in Hf; injection Hf as <- <- end.
    subst. eexists. split; [by eapply micro_write|lia].
  - pose proof (ServeHTTP_effect now request b) as [(Er & Eu & Ev)|(id & s & chunk & Hs & Hl & He)].
    + eexists. split; [by apply micro_other|lia].
    + unfold chunk_effect in He. destruct (_ =? _); destruct He as (Er & Eu & Ev).
      * eexists. split; [by eapply micro_write|lia].
      * eexists. split; [by apply micro_other|lia].
Qed.

Definition run_all (os : list op) (b : Backend) : Backend := foldl (λ b o, run o b) b os.

Lemma backend_run_all_app os os' b : run_all (os ++ os') b = run_all os' (run_all os b).
Proof. apply foldl_app. Qed.

Lemma backend_run_all_micro os n b :
  ∃ n', rtc micro (n, b) (n', run_all os b) ∧ n ≤ n' ≤ n + len os.
Proof.
  revert n b. induction os as [|o os IH]; intros n b.
  { exists n. split; [apply rtc_refl|unfold len; cbn; lia]. }
  destruct (backend_run_micro o n b) as (n1 & Hm1 & B1). destruct (IH n1 (run o b)) as (n2 & Hm2 & B2).
  exists n2. split; [by eapply rtc_l|unfold len in *; cbn; lia].
Qed.

Lemma backend_run_all_wf os b : Forall typed os → backend_wf b → backend_wf (run_all os b).
Proof.
  intros Hos. revert b. induction Hos as [|o os Ho Hos IH]; intros b Hb; [done|]. by apply IH, run_wf.
Qed.

Lemma run_all_version_wf os g :
  len os ≤ MaxUint64 → ∃ n, n ≤ len os ∧ version_wf n (run_all os (New g)).
Proof.
  intros Hl. destruct (backend_run_all_micro os 0 (New g)) as (n & Hr & Hb). exists n. split; [lia|].
  eapply version_wf_rtc; [exact Hr|lia|by apply version_wf_init].
Qed.
End Theory.
End ObjectTheory.
