(* ===== verification/ObjectProps.v ===== *)
(** * Properties of the object boundary and its in-memory backend

    The key grammar and integrity encodings, the absence of panics, the
    consistency of stored objects, optimistic concurrency of conditional
    writes, resumable uploads under interruptions, and version-pinned
    downloads. *)

From Stdlib Require Import ZArith Lia.
From S2P Require Import Prelude GoLib GoHash Errors DomainIDs Versioned ObjectStore ObjectMemory ObjectTheory.

Open Scope Z_scope.

Module ObjectProps.
Import ObjectStore MemoryBackend ObjectTheory.

(** ** Keys and encodings *)

(** [ParseKey] accepts exactly the keys of at most 240 bytes and 24
    slash-separated segments, each non-empty, not a dot segment, and made of
    lower-case letters, digits, dashes and dots only. *)
Theorem ParseKey_grammar v k :
  ParseKey v = Ok k ↔
  k = {| key_value := v |} ∧ len v ≤ 240 ∧ len (split_on slash v) ≤ 24 ∧
  Forall (λ s, s ≠ [] ∧ s ≠ bs "." ∧ s ≠ bs ".." ∧
               Forall (λ c, key_character (byte_val c) = true) s) (split_on slash v).
Proof. apply ParseKey_Ok. Qed.

(** The integrity encodings are canonical: a checksum text parses to [v]
    exactly when it is the encoding of [v], for CRC-32C values and for 16-byte
    MD5 digests. *)
Theorem integrity_roundtrip s :
  (∀ v, Integrity.ParseCRC32C s = Some v ↔ 0 ≤ v < 2 ^ 32 ∧ s = Integrity.EncodeCRC32C v) ∧
  (∀ d, Integrity.ParseMD5 s = Some d ↔ len d = 16 ∧ s = Integrity.EncodeMD5 d).
Proof.
  unfold Integrity.ParseCRC32C, Integrity.EncodeCRC32C, Integrity.ParseMD5, Integrity.EncodeMD5, Integrity.md5_Size.
  split; [intros v|intros d]; split.
  - destruct (b64_decode s) as [d|]; [|done]. destruct (Z.eqb_spec (len d) 4) as [Hd|]; [|done].
    case_bool_decide as E; [|done]. cbn [negb orb]. intros [= <-].
    pose proof (get_be_range d) as Hr. rewrite Hd in Hr. split; [done|].
    rewrite <-E. f_equal. replace 4%nat with (length d) by (unfold len in Hd; lia). symmetry. apply put_get_be.
  - intros (Hv & ->). rewrite b64_decode_encode.
    assert (len (put_be 4 v []) = 4) as -> by (unfold len; by rewrite put_be_length).
    rewrite bool_decide_eq_true_2 by done. cbn [Z.eqb negb orb Pos.eqb]. f_equal. by apply get_put_be.
  - destruct (b64_decode s) as [d'|]; [|done]. destruct (Z.eqb_spec (len d') 16) as [Hd|]; [|done].
    case_bool_decide as E; [|done]. cbn [negb orb]. intros [= <-]. by rewrite Hd.
  - intros (Hd & ->). rewrite Hd. cbn [Z.eqb negb Pos.eqb]. rewrite b64_decode_encode, Hd.
    by rewrite bool_decide_eq_true_2.
Qed.

(** ** Ranges and panics *)

Lemma parseRange_bounds header size start end_ partial :
  0 ≤ size → parseRange header size = Ok (start, end_, partial) →
  0 ≤ start ∧ start ≤ end_ + 1 ∧ end_ < Z.max size 1 ∧ end_ + 1 ≤ size ∧
  partial = bool_decide (header ≠ []).
Proof.
  intros Hs. unfold parseRange.
  destruct (Z.eqb_spec size 0) as [->|Hne].
  { case_bool_decide; [|done]. intros [= <- <- <-]. repeat split; try lia.
    symmetry. apply bool_decide_eq_false_2. naive_solver. }
  case_bool_decide as Hh.
  { intros [= <- <- <-]. repeat split; try lia. symmetry. apply bool_decide_eq_false_2. naive_solver. }
  rewrite (bool_decide_eq_true_2 (header ≠ [])) by done.
  destruct (_ || _); [done|]. destruct (split_on _ _) as [|first [|last_ []]]; try done.
  intros E. inv_go. destruct (ParseInt first) as [st|]; [|done]. inv_go.
  rewrite orb_false_iff, Z.ltb_ge, Z.leb_gt in *. destruct_and!.
  case_bool_decide; [injection E as <- <- <-; lia|].
  destruct (ParseInt last_) as [en|]; [|done]. inv_go. rewrite Z.ltb_ge in *. injection E as <- <- <-. lia.
Qed.

Section Props.
Context `{SHA256} `{MD5Sum} `{MIME} `{LoopbackURL} (quote : gostring → gostring).

Abbreviation run_all := (run_all quote).
Abbreviation typed := (Forall typed).

Lemma object_infos_Ok recs keys :
  (∀ k r, recs !! k = Some r → record_wf k r) → Forall (λ k, is_Some (recs !! k)) keys →
  object_infos recs keys =
  Ok (omap (λ k, info_of {| key_value := k |} <$> recs !! k) keys).
Proof.
  intros Hwf Hk. induction Hk as [|k keys [r Hr] Hk IH]; [done|]. cbn.
  rewrite Hr, MustKey_Ok by apply (Hwf _ _ Hr). cbn. by rewrite IH.
Qed.

Lemma backend_matching_keys_elem (recs : gmap gostring record) request k :
  k ∈ matching_keys recs request ↔
  HasPrefix k (List_Prefix request) = true ∧ bytes_lt (List_After request) k ∧ is_Some (recs !! k).
Proof.
  unfold matching_keys, sort_Strings. rewrite merge_sort_Permutation, list_elem_of_filter, list_elem_of_fmap.
  split.
  - intros [[? ?] ([k' r] & -> & Hr%elem_of_map_to_list)]. split; [done|]. split; [done|by eexists].
  - intros (? & ? & [r Hr]). split; [done|]. exists (k, r). split; [done|]. by apply elem_of_map_to_list.
Qed.

Lemma object_infos_wf b request :
  backend_wf b →
  object_infos (records b) (matching_keys (records b) request) =
  Ok (omap (λ k, info_of {| key_value := k |} <$> records b !! k) (matching_keys (records b) request)).
Proof.
  intros Hb. apply object_infos_Ok; [apply (bw_records _ Hb)|].
  apply list.Forall_forall. intros k Hk. apply backend_matching_keys_elem in Hk. apply Hk.
Qed.

Lemma mapM_check_no_panic l : mapM_ check_segment l ≠ Err panic.
Proof.
  induction l as [|s l IH]; cbn; [done|].
  assert (check_segment s ≠ Err panic) as Hs.
  { unfold check_segment, guard_err. destruct (_ || _); [done|]. by destruct (negb _). }
  destruct (check_segment s) eqn:?; [done|congruence].
Qed.

Lemma ParseKey_no_panic v : ParseKey v ≠ Err panic.
Proof.
  unfold ParseKey, guard_err. pose proof (mapM_check_no_panic (split_on slash v)).
  destruct (_ || _); [done|]. cbn. destruct (_ <? _); [done|]. cbn. destruct (mapM_ _ _) eqn:?; cbn; [done|congruence].
Qed.

Lemma ListRequest_Validate_no_panic r : ListRequest_Validate r ≠ Err panic.
Proof.
  unfold ListRequest_Validate, ValidatePrefix, guard_err.
  pose proof (ParseKey_no_panic (TrimSuffix (List_Prefix r) "/")).
  destruct (_ || _); [done|]. cbn. destruct (ParseKey (TrimSuffix _ _)) eqn:?; cbn; [|congruence].
  destruct (_ && _); [done|]. cbn. case_bool_decide; [|done]. destruct (ParseKey (List_After r)); [|done]. case_match; done.
Qed.

Lemma List_no_panic ctx request b : backend_wf b → fst (List ctx request b) ≠ Err panic.
Proof.
  intros Hb. unfold List, ContextError. pose proof (ListRequest_Validate_no_panic request).
  pose proof (object_infos_wf b request Hb).
  exec_go_with ltac:(unfold page); try done; congruence.
Qed.

Lemma slice_Some data start end_ :
  0 ≤ start → start ≤ end_ → end_ ≤ len data →
  slice data start end_ = Some (take (Z.to_nat (end_ - start)) (drop (Z.to_nat start) data)).
Proof.
  intros. unfold slice. by rewrite !(proj2 (Z.leb_le _ _)) by done.
Qed.

(** What a download request can answer. *)
Lemma serveDownload_cases now request token b :
  backend_wf b →
  let '(resp, b') := serveDownload quote now request token b in
  match resp with
  | Err r => Status r ∈ [404; 405; 410; 416]
  | Ok r =>
      ∃ session rec start end_ partial,
        downloads b !! sha256 token = Some session ∧
        records b !! key_value (download_key session) = Some rec ∧
        version rec = download_version session ∧
        parseRange (Request_Range request) (size rec) = Ok (start, end_, partial) ∧
        Status r = (if partial : bool then 206 else 200) ∧
        Response_Body r = (if materialized rec
          then take (Z.to_nat (end_ + 1 - start)) (drop (Z.to_nat start) (body rec))
          else replicate (Z.to_nat (i64 (end_ - start + 1))) nul)
  end.
Proof.
  intros Hb. unfold serveDownload, gets, mbind, gom_bind.
  destruct (downloads b !! sha256 token) as [session|] eqn:Es; [|cbn; set_solver].
  unfold throw_if, lift, guard_err. case_bool_decide; [cbn; set_solver|].
  destruct (negb _); [cbn; set_solver|].
  destruct (records b !! _) as [rec|] eqn:Er; [|cbn; set_solver].
  case_bool_decide as Hv; [cbn; set_solver|].
  destruct (bw_records _ Hb _ _ Er) as [_ Hsz Hbody].
  destruct (parseRange _ _) as [[[start end_] partial]|] eqn:Ep; [|cbn; set_solver].
  pose proof (parseRange_bounds _ _ _ _ _ Hsz Ep) as (B1 & B2 & _ & B3 & _).
  destruct (materialized rec) eqn:Em.
  - destruct Hbody as [Hlen _]. rewrite slice_Some by lia. cbn.
    exists session, rec, start, end_, partial. rewrite Em. do 5 (split; [done|]). done.
  - cbn. exists session, rec, start, end_, partial. rewrite Em. do 5 (split; [done|]). done.
Qed.

Lemma serveUpload_status now request token b :
  let '(resp, b') := serveUpload now request token b in
  Status (match resp with Ok r => r | Err r => r end) ∈ [204; 404; 405; 409; 410; 412; 413; 503].
Proof.
  unfold serveUpload, mbind, gom_bind.
  destruct (upload_admit now request token b) as [[[[id s] received]|e] b1] eqn:E.
  - unfold upload_commit. exec_go_with ltac:(unfold consumeTransferFault, finish_session, nextVersion);
      try done; cbn; set_solver.
  - revert E. unfold upload_admit. exec_go_with ltac:(idtac); intros [= <- _]; cbn; set_solver.
Qed.

Lemma status_elem_ne (x y : Z) (l : list Z) : x ∈ l → bool_decide (y ∈ l) = false → x ≠ y.
Proof. intros Hx Hy ->. by apply bool_decide_eq_false in Hy. Qed.

(** The backend never panics: in every state reached from an empty
    backend by calls with [int64] sizes, listing finds only valid keys and the
    data plane slices only inside stored bodies (500 is the answer of a
    panicking handler). *)
Theorem backend_never_panics os g :
  typed os →
  let b := run_all os (New g) in
  (∀ ctx request, fst (List ctx request b) ≠ Err panic) ∧
  (∀ now request, Status (fst (ServeHTTP quote now request b)) ≠ 500).
Proof.
  intros Hos b. assert (backend_wf b) as Hb by (apply backend_run_all_wf; [done|apply backend_wf_init]).
  split; [intros; by apply List_no_panic|]. intros now request. unfold ServeHTTP.
  destruct (split_on slash _) as [|root [|kind [|token []]]]; try (cbn; lia).
  destruct (_ || _); [cbn; lia|]. case_bool_decide; [|case_bool_decide; [|cbn; lia]].
  - pose proof (serveUpload_status now request token b) as Hst.
    destruct (serveUpload now request token b) as [[r|r] b']; by eapply status_elem_ne.
  - pose proof (serveDownload_cases now request token b Hb) as Hst.
    destruct (serveDownload quote now request token b) as [[r|r] b']; cbn.
    + destruct Hst as (? & ? & ? & ? & partial & _ & _ & _ & _ & -> & _). by destruct partial.
    + by eapply status_elem_ne.
Qed.

(** ** Stored objects *)

(** What the backend reports about an object is about its bytes: an object
    that can be read has its reported size, and a materialized object's
    fingerprint and a successful integrity check are those of its body. *)
Theorem reported_metadata_matches_body os g key obj info :
  typed os →
  let b := run_all os (New g) in
  fst (Get None key b) = Ok obj → fst (Head None key b) = Ok info →
  Object_Size obj = len (Object_Body obj) ∧ Info_Size info = Object_Size obj ∧
  Info_Version info = Object_Version obj ∧
  ∀ expected, is_Ok (fst (Verify None key expected b)) = true →
    Info_Fingerprint info = FingerprintFor (Object_Body obj) ∧
    Expected_Size expected = len (Object_Body obj) ∧
    Checksum_Value (Expected_Checksum expected) = Integrity.CRC32C (Object_Body obj).
Proof.
  intros Hos b. assert (backend_wf b) as Hb by (apply backend_run_all_wf; [done|apply backend_wf_init]). clearbody b.
  unfold Get, Open, Head, Verify, mbind, gom_bind, lift, gets, throw_if, guard_err.
  cbn -[IntegrityFor FingerprintFor].
  destruct (Key_Valid key) eqn:Ek; [|done]. cbn -[IntegrityFor FingerprintFor].
  destruct (records b !! key_value key) as [r|] eqn:Er; [|done].
  destruct (bw_records _ Hb _ _ Er) as [_ Hsz Hbody].
  destruct (materialized r) eqn:Em; cbn -[IntegrityFor FingerprintFor len].
  - intros [= <-] [= <-]. cbn -[IntegrityFor FingerprintFor]. destruct Hbody as [Hlen Hf]. do 3 (split; [done|]).
    intros expected. destruct (Expected_Validate expected); [|done]. destruct (_ || _) eqn:Eq; [done|]. intros _.
    apply orb_false_iff in Eq as [Es%negb_false_iff%Z.eqb_eq Ec%bool_decide_eq_false%dec_stable].
    split; [done|]. split; [lia|]. by rewrite <-Ec.
  - rewrite Hbody. change (len []) with 0. destruct (Z.ltb_spec 0 (size r)); [done|].
    intros [= <-] [= <-]. cbn. split; [unfold len; cbn; lia|]. do 2 (split; [done|]). intros expected.
    by destruct (Expected_Validate expected).
Qed.

(** A conditional replacement, removal or copy-over of [key] at version [v]. *)
Definition conditional_on (key : Key) (v : gostring) (o : op) : Prop :=
  match o with
  | OpPut _ k _ c => k = key ∧ c = {| Put_Mode := PutMatch; Put_Version := v |}
  | OpDelete _ k c => k = key ∧ c = {| Delete_Version := v |}
  | OpCopy _ _ k c => k = key ∧ Copy_Destination c = {| Put_Mode := PutMatch; Put_Version := v |}
  | _ => False
  end.

Definition succeeds (o : op) (b : Backend) : bool :=
  match o with
  | OpPut ctx key data condition => is_Ok (fst (Put ctx key data condition b))
  | OpDelete ctx key condition => is_Ok (fst (Delete ctx key condition b))
  | OpCopy ctx source destination condition => is_Ok (fst (Copy ctx source destination condition b))
  | _ => true
  end.

(** What a successful conditional call found and left at its key. *)
Lemma backend_conditional_won o key v b :
  conditional_on key v o → succeeds o b = true →
  (∃ r, records b !! key_value key = Some r ∧ version r = v) ∧
  ∀ r, records (run quote o b) !! key_value key = Some r → version r = VersionString "m" (u64 (versions b + 1)).
Proof.
  destruct o; cbn [conditional_on succeeds run]; try done.
  - intros [-> ->]. unfold Put, check_put. exec_go_with ltac:(unfold nextVersion); try done; intros _.
    match goal with E : bool_decide _ = false |- _ => apply bool_decide_eq_false, dec_stable in E end.
    split; [by eexists|]. cbn. intros rec. rewrite lookup_insert_eq. by intros [= <-].
  - intros [-> ->]. unfold Delete. exec_go_with ltac:(idtac); try done; intros _.
    match goal with E : bool_decide (version _ ≠ _) = false |- _ => apply bool_decide_eq_false, dec_stable in E end.
    split; [by eexists|]. cbn. intros rec. by rewrite lookup_delete_eq.
  - intros [-> Ec]. unfold Copy, check_put. rewrite Ec. exec_go_with ltac:(unfold nextVersion); try done; intros _.
    match goal with E : bool_decide (_ ≠ Put_Version _) = false |- _ => apply bool_decide_eq_false, dec_stable in E end.
    split; [by eexists|]. cbn. intros rec. rewrite lookup_insert_eq. by intros [= <-].
Qed.

(** Optimistic concurrency: once one conditional put, delete or copy-over at
    version [v] of a key succeeded, no later one at [v] does, whatever calls ran
    in between (fewer than 2^64 in all). *)
Theorem object_single_winner os o1 os' o2 g key v :
  len (os ++ o1 :: os') ≤ MaxUint64 →
  conditional_on key v o1 → succeeds o1 (run_all os (New g)) = true →
  conditional_on key v o2 → succeeds o2 (run_all (os ++ o1 :: os') (New g)) = false.
Proof.
  rewrite len_app, backend_run_all_app. intros Hl Hc1 Hok Hc2.
  assert (len (o1 :: os') = 1 + len os') as E1 by (unfold len; cbn; lia). rewrite E1 in Hl.
  pose proof (len_nonneg os). pose proof (len_nonneg os').
  destruct (run_all_version_wf quote os g) as (n & Hn & Hwf); [lia|].
  set (b := run_all os (New g)) in *. change (run_all (o1 :: os') b) with (run_all os' (run quote o1 b)).
  destruct (backend_run_micro quote o1 n b) as (n1 & Hr1 & Hb1).
  destruct (backend_run_all_micro quote os' n1 (run quote o1 b)) as (n2 & Hr2 & Hb2).
  destruct (backend_conditional_won o1 key v b Hc1 Hok) as [(r & Hk & Hv) Hafter].
  destruct (succeeds o2 _) eqn:E2; [exfalso|done].
  destruct (backend_conditional_won o2 key v _ Hc2 E2) as [(r2 & Hk2 & Hv2) _].
  eapply (version_gone n b n1 (run quote o1 b) n2 _ _ r r2); [by apply rtc_once|done|lia|done|done| |done|cbn; congruence].
  intros E0. eapply (next_version_fresh n b); [done|lia|exact Hk|]. by apply Hafter.
Qed.

(** ** Listing by key continuation *)

Definition after_request (prefix : gostring) (limit : Z) (after : gostring) : ListRequest :=
  {| List_Prefix := prefix; List_Limit := limit; List_Cursor := []; List_After := after |}.

(** A client that continues each full page after its last key. *)
Fixpoint list_all (fuel : nat) (prefix : gostring) (limit : Z) (after : gostring) (b : Backend) :
    option (list ObjectInfo) :=
  match fuel with
  | O => None
  | S fuel =>
      match List None (after_request prefix limit after) b with
      | (Err _, _) => None
      | (Ok page, b') =>
          if bool_decide (Page_NextCursor page = []) then Some (Page_Objects page)
          else last_ ← last (Page_Objects page);
               rest ← list_all fuel prefix limit (key_value (Info_Key last_)) b';
               Some (Page_Objects page ++ rest)
      end
  end.

Definition infos (recs : gmap gostring record) (keys : list gostring) : list ObjectInfo :=
  omap (λ k, info_of {| key_value := k |} <$> recs !! k) keys.

Lemma matching_keys_sorted recs request : StronglySorted bytes_lt (matching_keys recs request).
Proof. apply sort_Strings_sorted, NoDup_filter, NoDup_fst_map_to_list. Qed.

Lemma infos_app recs l k : infos recs (l ++ k) = infos recs l ++ infos recs k.
Proof. apply omap_app. Qed.

Lemma infos_length (recs : gmap gostring record) l :
  Forall (λ k, is_Some (recs !! k)) l → length (infos recs l) = length l.
Proof. unfold infos. induction 1 as [|k l [r Hr] Hl IH]; [done|]. cbn. rewrite Hr. cbn. by f_equal. Qed.

Lemma matching_keys_next (recs : gmap gostring record) prefix limit after l k rest :
  matching_keys recs (after_request prefix limit after) = l ++ k :: rest →
  matching_keys recs (after_request prefix limit k) = rest.
Proof.
  intros E. pose proof (matching_keys_sorted recs (after_request prefix limit after)) as Hs. rewrite E in Hs.
  apply sorted_lt_app in Hs as (Hl & Hr & _ & Hs). rewrite list.Forall_forall in Hl, Hr.
  apply sorted_lt_ext; [apply matching_keys_sorted|done|]. intros x.
  assert (∀ y, y ∈ l ++ k :: rest → HasPrefix y prefix = true ∧ bytes_lt after y ∧ is_Some (recs !! y)) as Hm.
  { intros y Hy. rewrite <-E, backend_matching_keys_elem in Hy. done. }
  rewrite backend_matching_keys_elem. cbn. split.
  - intros (Hp & Hk & Hx). destruct (Hm k) as (_ & Hak & _); [set_solver|].
    assert (x ∈ l ++ k :: rest) as Hin.
    { rewrite <-E, backend_matching_keys_elem. cbn. split; [done|]. split; [by trans k|done]. }
    apply elem_of_app in Hin as [Hin|[->|Hin]%elem_of_cons]; [|by apply bytes_lt_neq in Hk|done].
    exfalso. by apply (bytes_lt_asym x k); [apply Hl|].
  - intros Hx. destruct (Hm x) as (? & _ & ?); [set_solver|]. split; [done|]. split; [by apply Hr|done].
Qed.

(** One request of the client. *)
Lemma List_after prefix limit after b :
  backend_wf b → ValidatePrefix prefix = Ok tt → 1 ≤ limit ≤ 1000 →
  (after = [] ∨ key_ok after ∧ HasPrefix after prefix = true) →
  let keys := matching_keys (records b) (after_request prefix limit after) in
  ∃ page b', List None (after_request prefix limit after) b = (Ok page, b') ∧ records b' = records b ∧
    uploads b' = uploads b ∧
    if bool_decide (len keys ≤ limit)
    then Page_NextCursor page = [] ∧ Page_Objects page = infos (records b) keys
    else Page_NextCursor page ≠ [] ∧ Page_Objects page = infos (records b) (take (Z.to_nat limit) keys).
Proof.
  intros Hb Hp Hl Ha keys. unfold List, ListRequest_Validate. cbn [List_Prefix List_Cursor List_After List_Limit after_request].
  rewrite Hp. assert (Forall (λ k, is_Some (records b !! k)) keys) as Hkeys.
  { apply list.Forall_forall. intros k Hk%backend_matching_keys_elem. apply Hk. }
  pose proof (infos_length _ _ Hkeys) as Hlen.
  unfold mbind, gom_bind, result_bind, lift, throw_if, guard_err, gets, modify, mret, gom_ret, throw. cbn [ContextError].
  rewrite (bool_decide_eq_false_2 ([] ≠ [])) by (intros Hn; by apply Hn). cbn [andb].
  assert ((if bool_decide (after ≠ []) then match ParseKey after with
    | Ok key => if negb (HasPrefix (key_value key) prefix) then Err (NewError ErrorInvalid "invalid object list after key") else Ok tt
    | Err _ => Err (NewError ErrorInvalid "invalid object list after key") end else Ok tt) = Ok tt) as ->.
  { case_bool_decide; [|done]. destruct Ha as [?|[Hk Hpre]]; [done|].
    rewrite (proj2 (ParseKey_Ok after _) (conj eq_refl Hk)). cbn [key_value]. by rewrite Hpre. }
  destruct (Z.eqb_spec limit 0); [lia|]. destruct (Z.ltb_spec limit 1); [lia|]. destruct (Z.ltb_spec 1000 limit); [lia|].
  cbn [orb]. unfold lift. rewrite object_infos_wf by done. fold keys. fold (infos (records b) keys).
  unfold len in *. rewrite Hlen. destruct (Z.leb_spec (Z.of_nat (length keys)) limit).
  - rewrite bool_decide_eq_true_2 by done. by eexists _, _.
  - rewrite bool_decide_eq_false_2 by lia. unfold page. cbn [snapshot_index snapshot_limit snapshot_objects].
    unfold len. rewrite Hlen, Z.min_l by lia. destruct (Z.eqb_spec (0 + limit) (Z.of_nat (length keys))); [lia|].
    eexists _, _. split; [reflexivity|]. split; [done|]. split; [done|]. split; [done|]. cbn [Page_Objects].
    rewrite drop_0. replace (Z.to_nat (0 + limit - 0)) with (Z.to_nat limit) by lia.
    rewrite <-(take_drop (Z.to_nat limit) keys) at 1. rewrite infos_app, take_app_length'; [done|].
    rewrite infos_length by (by apply Forall_take). rewrite length_take. lia.
Qed.

Lemma list_all_spec fuel prefix limit after b :
  backend_wf b → ValidatePrefix prefix = Ok tt → 1 ≤ limit ≤ 1000 →
  (after = [] ∨ key_ok after ∧ HasPrefix after prefix = true) →
  (length (matching_keys (records b) (after_request prefix limit after)) < fuel)%nat →
  list_all fuel prefix limit after b =
  Some (infos (records b) (matching_keys (records b) (after_request prefix limit after))).
Proof.
  revert after b. induction fuel as [|fuel IH]; intros after b Hb Hp Hl Ha Hf; [lia|].
  destruct (List_after prefix limit after b Hb Hp Hl Ha) as (page & b' & E & Er & Eu & Hpage).
  set (keys := matching_keys (records b) (after_request prefix limit after)) in *.
  cbn [list_all]. rewrite E. case_bool_decide as Hc.
  { destruct Hpage as [-> ->]. by rewrite bool_decide_eq_true_2. }
  destruct Hpage as [Hne ->]. rewrite bool_decide_eq_false_2 by done.
  set (n := Z.to_nat limit). assert (n ≤ length keys)%nat as Hn by (unfold len in Hc; lia).
  assert (∃ l k, take n keys = l ++ [k]) as (l & k & El).
  { assert (take n keys ≠ []) as Hnil.
    { intros E0%(f_equal length). rewrite length_take in E0. cbn in E0. lia. }
    destruct (exists_last Hnil) as (l & k & ?). by exists l, k. }
  assert (keys = l ++ k :: drop n keys) as Ek.
  { rewrite <-(take_drop n keys) at 1. by rewrite El, <-(assoc_L (++)). }
  assert (k ∈ keys) as Hin by (rewrite Ek; set_solver).
  apply backend_matching_keys_elem in Hin as (Hkp & _ & [r Hr]). rewrite El, infos_app, last_app.
  assert (infos (records b) [k] = [info_of {| key_value := k |} r]) as Ei by (cbn; by rewrite Hr).
  rewrite Ei. cbn [last mbind option_bind Info_Key info_of key_value].
  pose proof (matching_keys_next _ _ limit _ _ _ _ Ek) as Enext.
  rewrite IH; rewrite ?Er, ?Enext; try done.
  - rewrite Ek at 2. cbn. f_equal. rewrite (infos_app _ l), <-(assoc_L (++)). f_equal.
    change (infos (records b) (k :: drop n keys)) with (infos (records b) ([k] ++ drop n keys)).
    by rewrite infos_app, Ei.
  - by apply (backend_wf_ext b).
  - right. split; [|done]. apply (bw_records _ Hb _ _ Hr).
  - rewrite length_drop. unfold n in *. lia.
Qed.

(** Listing with key continuation is exact: the pages of at most [limit]
    objects, each continued after the last key of the one before, end and
    concatenate to every object under the prefix, once, in increasing key
    order. *)
Theorem list_after_complete os g prefix limit :
  typed os → ValidatePrefix prefix = Ok tt → 1 ≤ limit ≤ 1000 →
  let b := run_all os (New g) in
  ∃ objects, list_all (S (base.size (records b))) prefix limit [] b = Some objects ∧
    StronglySorted bytes_lt (map (λ i, key_value (Info_Key i)) objects) ∧
    ∀ i, i ∈ objects ↔ ∃ k r, records b !! k = Some r ∧ HasPrefix k prefix = true ∧
                              i = info_of {| key_value := k |} r.
Proof.
  intros Hos Hp Hl b. assert (backend_wf b) as Hb by (apply backend_run_all_wf; [done|apply backend_wf_init]). clearbody b.
  set (keys := matching_keys (records b) (after_request prefix limit [])).
  exists (infos (records b) keys). split; [|split].
  - apply list_all_spec; auto. fold keys. unfold keys, matching_keys, sort_Strings.
    rewrite merge_sort_Permutation. eapply Nat.le_lt_trans; [apply length_filter|].
    rewrite length_map, length_map_to_list. lia.
  - apply omap_sorted_keys; [|apply matching_keys_sorted].
    intros k i. destruct (records b !! k); [|done]. by intros [= <-].
  - intros i. unfold infos. rewrite list_elem_of_omap. split.
    + intros (k & (Hk & _ & [r Hr])%backend_matching_keys_elem & E). rewrite Hr in E. injection E as <-. by exists k, r.
    + intros (k & r & Hr & Hk & ->). exists k. rewrite Hr. split; [|done]. apply backend_matching_keys_elem.
      split; [done|]. split; [|by eexists]. destruct (bw_records _ Hb _ _ Hr) as [(_ & _ & Hseg) _ _].
      destruct k; [|done]. by destruct (segments_nonempty [] Hseg).
Qed.

(** ** Downloads *)

Lemma CreateDownload_spec ctx now request b cap b1 :
  CreateDownload ctx now request b = (Ok cap, b1) →
  ∃ token r d, DownloadCap_URL cap = dataPlaneURL b ++ "/cap/download/" ++ token ∧
    records b !! key_value (Download_Key request) = Some r ∧
    downloads b1 !! sha256 token = Some d ∧
    download_key d = Download_Key request ∧ download_version d = version r.
Proof.
  unfold CreateDownload, draw_token. intros E. inv_go.
  destruct (_ !! key_value (Download_Key request)) as [r|] eqn:Er in E; [|done]. inv_go.
  match goal with E : (let '(r, g) := BearerToken _ in _) = _ |- _ => destruct (BearerToken _) as [tok g']; injection E as -> <- end.
  cbn. eexists _, r, _. split; [reflexivity|]. split; [exact Er|]. rewrite lookup_insert_eq.
  split; [reflexivity|]. split; [done|]. cbn. destruct (Download_Immutable request); [done|].
  match goal with E : negb false && _ = false |- _ => cbn in E; by apply bool_decide_eq_false, dec_stable in E end.
Qed.


(** ** Resumable uploads *)

Definition patch_request (token mediaType : gostring) (offset : Z) (chunk : gostring) : Request :=
  {| Request_Method := "PATCH"; Request_Path := "/cap/upload/" ++ token; Request_ContentType := mediaType;
     Request_UploadOffset := Itoa offset; Request_Range := []; Request_Body := chunk; Request_BodyError := false |}.

(** A browser that sends chunks of at most [step] bytes from the offset the
    server last confirmed, until everything is confirmed. *)
Fixpoint upload_client (fuel : nat) (now : Z) (token mediaType : gostring) (step : nat)
    (data : gostring) (offset : Z) (b : Backend) : option Backend :=
  match fuel with
  | O => None
  | S fuel =>
      let chunk := take step (drop (Z.to_nat offset) data) in
      let '(resp, b') := ServeHTTP quote now (patch_request token mediaType offset chunk) b in
      if bool_decide (Status resp = 204) || bool_decide (Status resp = 503) then
        confirmed ← Headers resp !! bs "Upload-Offset" ≫= ParseInt;
        if confirmed =? len data then Some b'
        else upload_client fuel now token mediaType step data confirmed b'
      else None
  end.

(** The session of [data] with its first [session_offset] bytes received. *)
Record uploading (b : Backend) (now : Z) (token mediaType : gostring) (data : gostring)
    (id : gostring) (s : uploadSession) : Prop := {
  up_token : uploadTokens b !! sha256 token = Some id;
  up_session : uploads b !! id = Some s;
  up_protocol : session_protocol s = UploadResumable;
  up_aborted : session_aborted s = false;
  up_expires : now < session_expiresAt s;
  up_media : NormalizeMediaType mediaType = Ok (session_mediaType s);
  up_size : session_size s = len data;
  up_small : len data ≤ materialized_limit;
  up_offset : 0 ≤ session_offset s ≤ len data;
  up_materialized : session_materialized s = true;
  up_body : session_body s = take (Z.to_nat (session_offset s)) data;
  up_digest : session_md5 s = session_body s;
  up_crc : session_crc32c s = session_body s;
  up_fingerprint : session_fingerprint s = no_fingerprint;
}.

Lemma uploading_admit b now token mediaType data id s step :
  uploading b now token mediaType data id s → (1 ≤ step)%nat → Z.of_nat step ≤ chunk_limit →
  let chunk := take step (drop (Z.to_nat (session_offset s)) data) in
  upload_admit now (patch_request token mediaType (session_offset s) chunk) token b =
  (Ok (id, s, chunk), upd_uploadBytes (λ n, i64 (n + len chunk)) b).
Proof.
  intros [] Hs1 Hs2 chunk. unfold materialized_limit, chunk_limit in *.
  change (Z.shiftl 16 20) with 16777216 in *. change (Z.shiftl 8 20) with 8388608 in *.
  unfold upload_admit, gets, mbind, gom_bind, option_bind, throw_if, lift, guard_err, modify.
  rewrite up_token0, up_session0. cbn [fmap option_fmap option_map].
  rewrite up_aborted0, up_protocol0. cbn [Request_Method Request_ContentType Request_UploadOffset patch_request].
  rewrite up_media0, ParseInt_Itoa, Z.eqb_refl by (unfold MaxInt64; lia).
  rewrite (proj2 (Z.ltb_lt _ _)) by done.
  change (bool_decide (UploadResumable = UploadResumable)) with true.
  change (bool_decide (UploadResumable = UploadSingle)) with false.
  rewrite !(bool_decide_eq_false_2 (_ ≠ _)) by (intros Hn; by apply Hn). cbn [negb andb].
  rewrite up_size0, (i64_small (len data - session_offset s)) by (unfold MaxInt64; lia).
  assert (len chunk ≤ len data - session_offset s ∧ len chunk ≤ 8388608) as [Hc1 Hc2].
  { unfold chunk, len in *. rewrite length_take, length_drop. lia. }
  cbv beta iota zeta. change chunk_limit with 8388608.
  set (limit := Z.min (len data - session_offset s) 8388608).
  rewrite (i64_small (limit + 1)) by (unfold MaxInt64; lia).
  unfold read_limited. cbn [Request_Body Request_BodyError patch_request andb].
  rewrite take_ge by (unfold len in *; lia).
  rewrite (proj2 (Z.ltb_ge _ _)) by lia. done.
Qed.

(** What the object of a finished upload of [data] is. *)
Definition stored_object (b : Backend) (key : Key) (data : gostring) : Prop :=
  ∃ r, records b !! key_value key = Some r ∧ body r = data ∧ size r = len data ∧
       materialized r = true ∧ fingerprint r = FingerprintFor data.

Lemma accept_uploading b b' now token mediaType data id s s' piece :
  uploading b now token mediaType data id s → session_offset s + len piece ≤ len data →
  session_body s ++ piece = take (Z.to_nat (session_offset s + len piece)) data →
  (s' = accept_body s piece ∨ ∃ v, s' = with_version (accept_body s piece) v) →
  uploads b' = <[id := s']> (uploads b) → uploadTokens b' = uploadTokens b →
  uploading b' now token mediaType data id s' ∧ session_offset s' = session_offset s + len piece ∧
  session_key s' = session_key s.
Proof.
  intros [] Hle Hbody Hs' Eu Et. pose proof (len_nonneg piece).
  assert (i64 (session_offset s + len piece) = session_offset s + len piece) as Ei.
  { apply i64_small. unfold MaxInt64, materialized_limit in *. change (Z.shiftl 16 20) with 16777216 in *. lia. }
  assert (session_materialized s && (i64 (session_offset s + len piece) <=? materialized_limit) = true) as Ek.
  { rewrite Ei, up_materialized0. apply Z.leb_le. lia. }
  destruct Hs' as [->|[v ->]]; (split; [|by rewrite <-Ei]);
    (split; [by rewrite Et|rewrite Eu; apply lookup_insert_eq|..]; cbn; rewrite ?Ek, ?Ei, ?Hbody, ?up_digest0, ?up_crc0; try done; try lia;
     by rewrite <-?Hbody).
Qed.

Lemma finished_object b b' now token mediaType data id s v :
  uploading b now token mediaType data id (with_version s v) → session_offset s = len data →
  records b' !! key_value (session_key s) = Some
    {| body := session_body s; version := v; size := session_size s;
       materialized := session_materialized s; fingerprint := sessionFingerprint s |} →
  stored_object b' (session_key s) data.
Proof.
  intros [] Eo Hr. cbn in *. eexists. split; [exact Hr|]. cbn.
  assert (session_body s = data) as Eb.
  { rewrite up_body0, Eo. apply take_ge. unfold len. lia. }
  split; [done|]. split; [done|]. split; [done|]. unfold sessionFingerprint.
  rewrite Eo, up_size0, Z.eqb_refl, up_fingerprint0, up_materialized0. cbn [negb].
  change (Fingerprint_Complete no_fingerprint) with false. by rewrite up_digest0, up_crc0, Eb.
Qed.

(** How many of the received bytes are kept, interrupted or not. *)
Lemma uploading_commit b now token mediaType data id s chunk :
  uploading b now token mediaType data id s →
  chunk `prefix_of` drop (Z.to_nat (session_offset s)) data →
  ∃ k b' s', 0 ≤ k ≤ len chunk ∧ (1 ≤ len chunk → 1 ≤ k) ∧
    let '(resp, b'') := upload_commit id s chunk b in
    b'' = b' ∧ session_offset s' = session_offset s + k ∧ session_key s' = session_key s ∧
    uploading b' now token mediaType data id s' ∧
    (session_offset s' = len data → stored_object b' (session_key s) data) ∧
    let r := match resp with Ok r => r | Err r => r end in
    (Status r = 204 ∨ Status r = 503) ∧ Headers r = {[ bs "Upload-Offset" := Itoa (session_offset s') ]}.
Proof.
  intros Hup Hpre. pose proof Hup as []. unfold materialized_limit in *.
  change (Z.shiftl 16 20) with 16777216 in *.
  assert (∃ f b1, consumeTransferFault (E := Response) TransferUploadData TransferFaultInterrupted b = (Ok f, b1) ∧
    uploads b1 = uploads b ∧ uploadTokens b1 = uploadTokens b) as (f & b1 & Ef & Eu & Et).
  { unfold consumeTransferFault. repeat case_match; by eexists _, _. }
  unfold upload_commit. unfold mbind at 1, gom_bind at 1. rewrite Ef. cbv zeta.
  set (k := if f && _ then _ else _).
  assert (0 ≤ k ≤ len chunk ∧ (1 ≤ len chunk → 1 ≤ k)) as [Hk1 Hk2].
  { pose proof (len_nonneg chunk). unfold k. destruct f; cbn; [|lia].
    destruct (Z.ltb_spec 0 (len chunk)); cbn; [|lia].
    pose proof (Z.div_lt (len chunk) 2). pose proof (Z.div_pos (len chunk) 2). lia. }
  clearbody k. pose proof (prefix_length _ _ Hpre) as Hpl. rewrite length_drop in Hpl.
  assert (session_offset s + k ≤ len data) as Hmax by (unfold len in *; lia).
  set (piece := take (Z.to_nat k) chunk).
  assert (len piece = k) as Hpk by (unfold piece, len in *; rewrite length_take; lia).
  assert (session_body s ++ piece = take (Z.to_nat (session_offset s + k)) data) as Hbody.
  { rewrite up_body0. destruct Hpre as [tail Etail].
    assert (piece = take (Z.to_nat k) (drop (Z.to_nat (session_offset s)) data)) as ->.
    { unfold piece. rewrite Etail, take_app_le by (unfold len in *; lia). done. }
    rewrite Z2Nat.inj_add by lia. by rewrite take_take_drop. }
  rewrite <-Hpk in Hbody, Hmax.
  pose proof (λ b' s', accept_uploading b b' now token mediaType data id s s' piece Hup Hmax Hbody) as Hnext.
  set (s1 := accept_body s piece) in *.
  exists k. unfold mbind, gom_bind, modify, throw_if, lift, guard_err, mret, gom_ret.
  destruct (Z.eqb_spec (session_offset s1) (session_size s1)) as [Eq|Eq].
  - rewrite finish_session_eq. set (v := VersionString "m" (u64 (versions b1 + 1))).
    set (b3 := upd_uploads _ _). destruct (Hnext b3 (with_version s1 v)) as (Hup' & Eo & Ekey); [by right; exists v|by cbn; rewrite Eu|done|].
    exists b3, (with_version s1 v). split; [done|]. split; [done|].
    assert (session_offset s1 = len data → stored_object b3 (session_key s) data) as Hst.
    { intros El. apply (finished_object b3 b3 now token mediaType data id s1 v); [done|done|]. apply lookup_insert_eq. }
    destruct (negb _); (split; [done|]; split; [lia|]; split; [done|]; split; [done|]; split; [exact Hst|]); cbn; auto.
  - set (b3 := upd_uploads _ _). destruct (Hnext b3 s1) as (Hup' & Eo & Ekey); [by left|by cbn; rewrite Eu|done|].
    exists b3, s1. split; [done|]. split; [done|].
    assert (session_offset s1 = len data → stored_object b3 (session_key s) data) as Hst.
    { intros El. destruct Eq. by rewrite El, <-up_size0. }
    destruct (negb _); (split; [done|]; split; [lia|]; split; [done|]; split; [done|]; split; [exact Hst|]); cbn; auto.
Qed.

Lemma uploading_tokens_bytes b f now token mediaType data id s :
  uploading b now token mediaType data id s → uploading (upd_uploadBytes f b) now token mediaType data id s.
Proof. intros []. by split. Qed.

(** The data plane routes a capability path to its handler. *)
Lemma ServeHTTP_upload now request token b :
  Request_Path request = "/cap/upload/" ++ token → slash ∉ token → token ≠ [] →
  ServeHTTP quote now request b =
  let '(r, b') := serveUpload now request token b in (respond r, b').
Proof.
  intros Ep Hs Hne. unfold ServeHTTP. rewrite Ep.
  assert (split_on slash (TrimPrefix ("/cap/upload/" ++ token) "/") = [bs "cap"; bs "upload"; token]) as ->.
  { unfold TrimPrefix, HasPrefix. rewrite bool_decide_eq_true_2 by (eexists; reflexivity).
    change (drop (length (bs "/")) ("/cap/upload/" ++ token)) with (bs "cap" ++ slash :: bs "upload" ++ slash :: token).
    rewrite !split_on_app, (split_on_notin _ token) by (done || by apply (bool_decide_unpack _)). done. }
  rewrite (bool_decide_eq_false_2 (token = [])), (bool_decide_eq_false_2 (bs "cap" ≠ bs "cap")) by naive_solver.
  cbn [orb]. by rewrite bool_decide_eq_true_2.
Qed.

Lemma upload_client_spec fuel b now token mediaType data id s step :
  uploading b now token mediaType data id s → (1 ≤ step)%nat → Z.of_nat step ≤ chunk_limit →
  slash ∉ token → token ≠ [] → len data - session_offset s < Z.of_nat fuel →
  ∃ b', upload_client fuel now token mediaType step data (session_offset s) b = Some b' ∧
        stored_object b' (session_key s) data.
Proof.
  intros Hup Hs1 Hs2 Htok Hne. revert b s Hup.
  induction fuel as [|fuel IH]; intros b s Hup Hf; [pose proof (up_offset _ _ _ _ _ _ _ Hup); lia|].
  cbn [upload_client]. set (chunk := take step (drop (Z.to_nat (session_offset s)) data)).
  rewrite (ServeHTTP_upload now _ token) by done. unfold serveUpload, mbind at 1, gom_bind at 1.
  pose proof (uploading_admit b now token mediaType data id s step Hup Hs1 Hs2) as Ha. fold chunk in Ha. rewrite Ha.
  set (b1 := upd_uploadBytes _ b).
  destruct (uploading_commit b1 now token mediaType data id s chunk) as (k & b' & s' & Hk1 & Hk2 & Hc).
  { by apply uploading_tokens_bytes. }
  { exists (drop step (drop (Z.to_nat (session_offset s)) data)). unfold chunk. by rewrite take_drop. }
  destruct (upload_commit id s chunk b1) as [resp b''].
  destruct Hc as (-> & Eo & Ek & Hup' & Hst & Hstatus & Hh).
  assert (bool_decide (Status (respond resp) = 204) || bool_decide (Status (respond resp) = 503) = true) as ->.
  { apply orb_true_iff. rewrite !bool_decide_eq_true. unfold respond. by destruct resp. }
  assert (Headers (respond resp) !! bs "Upload-Offset" = Some (Itoa (session_offset s'))) as ->.
  { unfold respond. cbn [Headers]. apply lookup_union_Some_l. rewrite Hh. apply lookup_singleton_eq. }
  pose proof (up_offset _ _ _ _ _ _ _ Hup') as Hb. pose proof (up_small _ _ _ _ _ _ _ Hup') as Hsm.
  unfold materialized_limit in Hsm. change (Z.shiftl 16 20) with 16777216 in Hsm.
  cbn [mbind option_bind]. rewrite ParseInt_Itoa by (unfold MaxInt64; lia). cbn [mbind option_bind].
  destruct (Z.eqb_spec (session_offset s') (len data)) as [El|El]; [exists b'; split; [done|by apply Hst]|].
  rewrite <-Ek. apply (IH b' s'); [done|].
  assert (1 ≤ len chunk) as Hlen; [|specialize (Hk2 Hlen); lia].
  unfold chunk, len in *. rewrite length_take, length_drop. lia.
Qed.

(** C36: A resumable upload loses and duplicates nothing: a browser that sends
    chunks from the confirmed offset finishes within [len data + 1] requests,
    however many requests are cut short half way, and the object then stored is
    exactly the data, materialized, with the data's size and fingerprint (for
    data within the 16 MiB the backend materializes). *)
Theorem resumable_upload_stores_data now0 now request b handle b1 token g data mediaType step :
  uploads b !! Upload_UploadID request = None →
  BearerToken (ids b) = (Ok token, g) →
  BeginUpload None now0 request b = (Ok handle, b1) →
  Upload_Resumable request = true → Upload_Size request = len data → len data ≤ materialized_limit →
  now < Upload_ExpiresAt request → NormalizeMediaType mediaType = Ok (Upload_MediaType request) →
  (1 ≤ step)%nat → Z.of_nat step ≤ chunk_limit →
  ∃ b2, upload_client (S (length data)) now token mediaType step data 0 b1 = Some b2 ∧
    ∃ r, records b2 !! key_value (Upload_Key request) = Some r ∧ body r = data ∧
         size r = len data ∧ materialized r = true ∧ fingerprint r = FingerprintFor data.
Proof.
  intros Hnew Htok Hbegin Hres Hsz Hsmall Hnow Hmedia Hs1 Hs2.
  assert (slash ∉ token ∧ token ≠ []) as [Hsl Hne].
  { revert Htok. unfold BearerToken, IDGenerator_bytes. case_match eqn:El; intros [= <- _].
    split; [by apply b64_encode_notin|]. rewrite b64_encode_nil. intros E%(f_equal length).
    rewrite length_take in E. apply Nat.ltb_ge in El.
    change (length []) with 0%nat in E. lia. }
  unfold BeginUpload, draw_token in Hbegin. inv_go. rewrite Hnew, Hres in Hbegin. inv_go.
  rewrite Htok in *. inv_go.
  match goal with
  | |- context [upload_client _ _ ?t _ _ _ _ (upd_uploadTokens ?f (upd_uploads (insert ?i ?s) ?b0))] =>
      destruct (upload_client_spec (S (length data)) (upd_uploadTokens f (upd_uploads (insert i s) b0))
        now t mediaType data i s step) as (b2 & E & Hst)
  end; try done.
  - split; cbn; try done; try lia; try (apply lookup_insert_eq).
  - cbn. unfold len. lia.
  - by exists b2.
Qed.
End Props.

(** ** Witnesses: concrete runs with the real digests *)

#[local] Instance sha256_real : SHA256 := sha256_Sum256.
#[local] Instance md5_real : MD5Sum := md5_Sum.
#[local] Instance mime_plain : MIME := Some.
#[local] Instance loopback_any : LoopbackURL := λ _, true.

Definition no_quote : gostring → gostring := λ s, s.
Definition random_source : IDGenerator := {| source := replicate 64 "r"%char |}.
Definition key_a : Key := {| key_value := "data/a" |}.
Definition key_b : Key := {| key_value := "data/b" |}.
Definition create : PutCondition := {| Put_Mode := PutCreateOnly; Put_Version := [] |}.
Definition match_v (v : Z) : PutCondition := {| Put_Mode := PutMatch; Put_Version := VersionString "m" v |}.
Definition setup : list op := [OpPut None key_a "hello" create; OpPut None key_b "world!" create].
Definition store : Backend := run_all no_quote setup (New random_source).

Lemma backend_never_panics_witness :
  (∀ ctx request, fst (List ctx request store) ≠ Err panic) ∧
  (∀ now request, Status (fst (ServeHTTP no_quote now request store)) ≠ 500).
Proof. apply (backend_never_panics no_quote setup random_source). repeat constructor. Defined.

Lemma reported_metadata_matches_body_witness :
  ∃ obj info, fst (Get None key_a store) = Ok obj ∧ fst (Head None key_a store) = Ok info ∧
    Object_Size obj = len (Object_Body obj).
Proof.
  destruct (fst (Get None key_a store)) as [obj|] eqn:E1; [|vm_compute in E1; discriminate E1].
  destruct (fst (Head None key_a store)) as [info|] eqn:E2; [|vm_compute in E2; discriminate E2].
  exists obj, info. split; [reflexivity|]. split; [reflexivity|].
  apply (reported_metadata_matches_body no_quote setup random_source key_a obj info);
    [repeat constructor|exact E1|exact E2].
Defined.

Lemma object_single_winner_witness :
  succeeds (OpDelete None key_a {| Delete_Version := VersionString "m" 1 |})
    (run_all no_quote (setup ++ OpPut None key_a "bye" (match_v 1) :: []) (New random_source)) = false.
Proof.
  apply (object_single_winner no_quote setup (OpPut None key_a "bye" (match_v 1)) []
    (OpDelete None key_a {| Delete_Version := VersionString "m" 1 |}) random_source key_a (VersionString "m" 1));
    [vm_compute; discriminate|split; reflexivity|vm_compute; reflexivity|split; reflexivity].
Defined.

Lemma list_after_complete_witness :
  ∃ objects, list_all (S (base.size (records store))) "data/" 1 [] store = Some objects ∧
    StronglySorted bytes_lt (map (λ i, key_value (Info_Key i)) objects) ∧
    ∀ i, i ∈ objects ↔ ∃ k r, records store !! k = Some r ∧ HasPrefix k "data/" = true ∧
                              i = info_of {| key_value := k |} r.
Proof.
  apply (list_after_complete no_quote setup random_source "data/" 1);
    [repeat constructor|vm_compute; reflexivity|lia].
Defined.

Definition download_a : DownloadRequest := {|
  Download_Key := key_a; Download_Version := VersionString "m" 1; Download_Immutable := false;
  Download_Filename := "a"; Download_MediaType := "text/plain"; Download_Disposition := DispositionInline;
  Download_ExpiresAt := 10 |}.

Definition configured : list op := setup ++ [OpConfigureDataPlane "http://127.0.0.1:1" random_source].
Definition plane : Backend := run_all no_quote configured (New random_source).

(** A capability for the first object is issued, the other object is replaced
    and the first one is read in part. *)
Definition issued : DownloadCapability * Backend :=
  match CreateDownload None 0 download_a plane with
  | (Ok cap, b) => (cap, b)
  | (Err _, b) => ({| DownloadCap_URL := []; DownloadCap_Method := []; DownloadCap_Headers := ∅; DownloadCap_ExpiresAt := 0 |}, b)
  end.

Definition issued_token : gostring := drop (length (dataPlaneURL plane ++ "/cap/download/")) (DownloadCap_URL (fst issued)).
Definition later : list op := [OpPut None key_b "planet" (match_v 2)].

Definition range_request : Request :=
  {| Request_Method := "GET"; Request_Path := "/cap/download/" ++ issued_token; Request_ContentType := []; Request_UploadOffset := [];
     Request_Range := "bytes=1-3"; Request_Body := []; Request_BodyError := false |}.

Definition served : result Response Response := fst (serveDownload no_quote 1 range_request issued_token (run_all no_quote later (snd issued))).


Definition upload_a : UploadRequest := {|
  Upload_UploadID := "u"; Upload_Key := {| key_value := "data/u" |}; Upload_Size := 5;
  Upload_MediaType := "text/plain"; Upload_Resumable := true; Upload_ExpiresAt := 10;
  Upload_InitiationExpiresAt := 10 |}.

Lemma resumable_upload_stores_data_witness :
  ∃ handle b1 token b2, BeginUpload None 0 upload_a plane = (Ok handle, b1) ∧
    upload_client no_quote 6 1 token "text/plain" 2 "hello" 0 b1 = Some b2 ∧
    ∃ r, records b2 !! bs "data/u" = Some r ∧ body r = bs "hello" ∧ size r = 5 ∧
         materialized r = true ∧ fingerprint r = FingerprintFor "hello".
Proof.
  destruct (BearerToken (ids plane)) as [[token|] g] eqn:Et; [|vm_compute in Et; discriminate Et].
  destruct (BeginUpload None 0 upload_a plane) as [[handle|] b1] eqn:E; [|vm_compute in E; discriminate E].
  destruct (resumable_upload_stores_data no_quote 0 1 upload_a plane handle b1 token g "hello" "text/plain" 2)
    as (b2 & Hc & Hr); [vm_compute; reflexivity|exact Et|exact E|reflexivity|reflexivity|vm_compute; discriminate
    |reflexivity|vm_compute; reflexivity|lia|vm_compute; discriminate|].
  exists handle, b1, token, b2. split; [reflexivity|]. split; [exact Hc|exact Hr].
Defined.
End ObjectProps.
