(* ===== verification/DomainPage.v ===== *)
(** * Consistency-domain pages: internal/storageformat

    The immutable tree pages of a consistency domain and their canonical JSON
    (domains.go, format.go), the leaf key filter (domain_leaf_filter.go), the
    page validation, and the reader that accepts exactly the canonical bytes
    (internal/portable/filesystem.go: decodeCanonicalValue).  A [[]byte] is an
    [option gostring], [None] being the nil slice, because the encoding tells
    nil and empty apart. *)

From Stdlib Require Import ZArith Lia.
From S2P Require Import Prelude GoLib GoHash GoJSON Errors.

Open Scope Z_scope.

(** [len] of a possibly nil slice, and [append([]byte(nil), b...)]. *)
Definition bytes_len (b : option gostring) : Z := len (default [] b).
Definition clone_bytes (b : option gostring) : option gostring :=
  match b with Some (c :: s) => Some (c :: s) | _ => None end.

Module StorageFormat.

(** ** format.go *)

Definition MaxCanonicalBytes : Z := Z.shiftl 1 20.

(** [EncodeCanonical] of a value whose compact JSON is [text]. *)
Definition EncodeCanonical (text : gostring) : res gostring :=
  if (len text =? 0) || (MaxCanonicalBytes <? len text)
  then Err (NewError ErrorInvalid "canonical record exceeds size limit")
  else Ok text.

Section Digest.
Context `{SHA256}.
Definition Digest (data : gostring) : gostring := b64_encode (sha256 data).
End Digest.

(** ** domains.go: kinds *)

Abbreviation ConsistencyDomainKind := gostring (only parsing).
Definition DomainNamespace : ConsistencyDomainKind := "namespace".
Definition DomainOwnerControl : ConsistencyDomainKind := "owner-control".
Definition DomainAdmin : ConsistencyDomainKind := "administration".
Definition DomainCapability : ConsistencyDomainKind := "capability".
Definition DomainShare : ConsistencyDomainKind := "share".
Definition DomainIdentity : ConsistencyDomainKind := "owner-identity".
Definition DomainOwnerJobs : ConsistencyDomainKind := "owner-jobs".

Definition validDomainKind (kind : ConsistencyDomainKind) : bool :=
  bool_decide (kind ∈ [DomainNamespace; DomainOwnerControl; DomainAdmin; DomainCapability; DomainShare;
                       DomainIdentity; DomainOwnerJobs]).

Definition validDomainText (value : gostring) : bool :=
  bool_decide (value ≠ []) && ValidString value && negb (ContainsByte value nul).

Definition validDomainDigest (value : gostring) : bool :=
  match b64_decode value with
  | Some decoded => (len decoded =? 32) && bool_decide (b64_encode decoded = value)
  | None => false
  end.

(** ** domains.go: data *)

Record DomainTreeRoot := {
  Root_Digest : gostring;
  Root_PackID : gostring;
  Root_Level : Z;
  Root_EntryCount : Z;
  Root_ByteCount : Z;
}.
#[export] Instance DomainTreeRoot_eq_dec : EqDecision DomainTreeRoot.
Proof. solve_decision. Defined.

Definition empty_root : DomainTreeRoot :=
  {| Root_Digest := []; Root_PackID := []; Root_Level := 0; Root_EntryCount := 0; Root_ByteCount := 0 |}.

Record DomainEntry := {
  Entry_Key : gostring;
  Entry_Value : option gostring;
  Entry_LogicalVersion : gostring;
}.
#[export] Instance DomainEntry_eq_dec : EqDecision DomainEntry.
Proof. solve_decision. Defined.

Record DomainPageChild := {
  Child_FirstKey : gostring;
  Child_LastKey : gostring;
  Child_Digest : gostring;
  Child_PackID : gostring;
  Child_LeafKeyFilter : gostring;
  Child_Level : Z;
  Child_EntryCount : Z;
  Child_ByteCount : Z;
}.
#[export] Instance DomainPageChild_eq_dec : EqDecision DomainPageChild.
Proof. solve_decision. Defined.

Record DomainPage := {
  Page_SchemaVersion : Z;
  Page_DomainID : gostring;
  Page_Kind : ConsistencyDomainKind;
  Page_Level : Z;
  Page_Entries : list DomainEntry;
  Page_Children : list DomainPageChild;
}.
#[export] Instance DomainPage_eq_dec : EqDecision DomainPage.
Proof. solve_decision. Defined.

Record DomainChange := {
  Change_Key : gostring;
  Change_Delete : bool;
  Change_Value : option gostring;
  Change_LogicalVersion : gostring;
}.

(** ** Canonical JSON of a page *)

Definition json_entry (e : DomainEntry) : gostring :=
  json_object [json_field "key" (json_string false (Entry_Key e));
               json_field "value" (json_slice (Entry_Value e));
               json_field "logicalVersion" (json_string false (Entry_LogicalVersion e))].

Definition json_child (c : DomainPageChild) : gostring :=
  json_object ([json_field "firstKey" (json_string false (Child_FirstKey c));
                json_field "lastKey" (json_string false (Child_LastKey c));
                json_field "digest" (json_string false (Child_Digest c))]
    ++ json_omit (bool_decide (Child_PackID c ≠ [])) (json_field "packID" (json_string false (Child_PackID c)))
    ++ json_omit (bool_decide (Child_LeafKeyFilter c ≠ []))
         (json_field "leafKeyFilter" (json_string false (Child_LeafKeyFilter c)))
    ++ [json_field "level" (json_uint (Child_Level c));
        json_field "entryCount" (json_uint (Child_EntryCount c))]
    ++ json_omit (negb (Child_ByteCount c =? 0)) (json_field "byteCount" (json_uint (Child_ByteCount c)))).

Definition page_header (p : DomainPage) : list gostring :=
  [json_field "schemaVersion" (json_uint (Page_SchemaVersion p));
   json_field "domainID" (json_string false (Page_DomainID p));
   json_field "kind" (json_string false (Page_Kind p));
   json_field "level" (json_uint (Page_Level p))].

Definition json_page (p : DomainPage) : gostring :=
  json_object (page_header p
    ++ json_omit (bool_decide (Page_Entries p ≠ []))
         (json_field "entries" (json_array (map json_entry (Page_Entries p))))
    ++ json_omit (bool_decide (Page_Children p ≠ []))
         (json_field "children" (json_array (map json_child (Page_Children p))))).

(** ** domain_leaf_filter.go *)

Definition DomainLeafKeyFilterBytes : Z := 512.
Definition domainLeafKeyFilterHashes : nat := 8.
Definition domainLeafKeyFilterBits : Z := DomainLeafKeyFilterBytes * 8.

Section Filter.
Context `{SHA256}.

Definition filter_domain : gostring := bs "endlessfs-domain-leaf-key-filter-v1" ++ [nul].

(** The bit positions of a key, one per hash. *)
Definition filter_positions (key : gostring) : list Z :=
  let digest := sha256 (filter_domain ++ key) in
  map (λ index, get_be (take 4 (drop (index * 4) digest)) mod domainLeafKeyFilterBits)
    (seq 0 domainLeafKeyFilterHashes).

(** [bits[position/8] |= 1 << (position % 8)] *)
Definition set_bit (bits : gostring) (position : Z) : gostring :=
  alter (λ c, byte_of (Z.lor (byte_val c) (Z.shiftl 1 (position mod 8)))) (Z.to_nat (position / 8)) bits.

Definition DomainLeafKeyFilter (keys : list gostring) : gostring :=
  let bits := fold_left (λ bits key, fold_left set_bit (filter_positions key) bits) keys
                (replicate (Z.to_nat DomainLeafKeyFilterBytes) nul) in
  b64_encode bits.

Definition ValidateDomainLeafKeyFilter (value : gostring) : res unit :=
  let invalid := NewError ErrorInvalid "invalid consistency-domain leaf key filter" in
  match b64_decode value with
  | None => Err invalid
  | Some decoded =>
      guard_err (negb (len decoded =? DomainLeafKeyFilterBytes)
                 || negb (bool_decide (b64_encode decoded = value))) invalid
  end.

(** [bits[position/8] & (1 << (position % 8)) != 0] *)
Definition test_bit (bits : gostring) (position : Z) : bool :=
  match bits !! Z.to_nat (position / 8) with
  | Some c => negb (Z.land (byte_val c) (Z.shiftl 1 (position mod 8)) =? 0)
  | None => false
  end.

Definition DomainLeafKeyFilterMayContain (value key : gostring) : res bool :=
  _ ← ValidateDomainLeafKeyFilter value;
  let bits := default [] (b64_decode value) in
  Ok (forallb (test_bit bits) (filter_positions key)).
End Filter.

(** ** domains.go: validation *)

Section Validate.
Context `{SHA256}.

Fixpoint check_entries (previous : gostring) (entries : list DomainEntry) : res unit :=
  match entries with
  | [] => Ok tt
  | entry :: entries =>
      _ ← guard_err (negb (validDomainText (Entry_Key entry)) || negb (validDomainText (Entry_LogicalVersion entry))
                     || (bool_decide (previous ≠ []) && (Entry_Key entry <=? previous)%bytes))
            (NewError ErrorInvalid "invalid consistency-domain leaf entry");
      check_entries (Entry_Key entry) entries
  end.

Fixpoint check_children (level : Z) (previous : gostring) (children : list DomainPageChild) : res unit :=
  match children with
  | [] => Ok tt
  | child :: children =>
      _ ← guard_err (negb (validDomainText (Child_FirstKey child))
                     || (Child_LastKey child <? Child_FirstKey child)%bytes
                     || negb (validDomainText (Child_LastKey child))
                     || negb (validDomainDigest (Child_Digest child))
                     || (bool_decide (Child_PackID child ≠ []) && negb (validDomainDigest (Child_PackID child)))
                     || negb (Child_Level child =? level - 1)
                     || (Child_EntryCount child =? 0)
                     || (bool_decide (previous ≠ []) && (Child_FirstKey child <=? previous)%bytes)
                     || (negb (Child_Level child =? 0) && bool_decide (Child_LeafKeyFilter child ≠ [])))
            (NewError ErrorInvalid "invalid consistency-domain child descriptor");
      _ ← (if bool_decide (Child_LeafKeyFilter child ≠ [])
           then ValidateDomainLeafKeyFilter (Child_LeafKeyFilter child) else Ok tt);
      check_children level (Child_LastKey child) children
  end.

Definition ValidateDomainPage (page : DomainPage) (expectedDigest : gostring) : res unit :=
  _ ← guard_err (negb (Page_SchemaVersion page =? 1) || negb (validDomainText (Page_DomainID page))
                 || negb (validDomainKind (Page_Kind page)) || (Page_Level page <? 0)
                 || negb (validDomainDigest expectedDigest))
        (NewError ErrorInvalid "invalid consistency-domain page");
  _ ← (if Page_Level page =? 0 then
         _ ← guard_err (bool_decide (Page_Children page ≠ []))
               (NewError ErrorInvalid "leaf consistency-domain page has children");
         check_entries [] (Page_Entries page)
       else
         _ ← guard_err (bool_decide (Page_Entries page ≠ []) || bool_decide (Page_Children page = []))
               (NewError ErrorInvalid "invalid consistency-domain branch page");
         check_children (Page_Level page) [] (Page_Children page));
  body ← EncodeCanonical (json_page page);
  guard_err (bool_decide (Digest body ≠ expectedDigest))
    (NewError ErrorInvalid "consistency-domain page digest mismatch").

Definition validateDomainTreeRoot (root : DomainTreeRoot) : res unit :=
  guard_err ((Root_Level root <? 0)
             || (bool_decide (Root_Digest root = [])
                 && (bool_decide (Root_PackID root ≠ []) || negb (Root_EntryCount root =? 0)
                     || negb (Root_ByteCount root =? 0) || negb (Root_Level root =? 0)))
             || (bool_decide (Root_Digest root ≠ []) && negb (validDomainDigest (Root_Digest root)))
             || (bool_decide (Root_PackID root ≠ []) && negb (validDomainDigest (Root_PackID root))))
    (NewError ErrorInvalid "invalid consistency-domain tree root").
End Validate.

(** ** Reading canonical bytes back *)

Definition read_field {A} (name : gostring) (r : reader A) : reader A :=
  _ ← read_lit (json_quote name ++ ":"); r.

Definition read_entry : reader DomainEntry :=
  _ ← read_lit "{";
  key ← read_field "key" read_string;
  _ ← read_lit ",";
  value ← read_field "value" read_slice;
  _ ← read_lit ",";
  version ← read_field "logicalVersion" read_string;
  _ ← read_lit "}";
  mret {| Entry_Key := key; Entry_Value := value; Entry_LogicalVersion := version |}.

(** [,"name":value] or nothing. *)
Definition read_omit {A} (name : gostring) (absent : A) (r : reader A) : reader A :=
  read_opt ("," ++ json_quote name ++ ":") absent r.

Definition read_child : reader DomainPageChild :=
  _ ← read_lit "{";
  first ← read_field "firstKey" read_string;
  _ ← read_lit ",";
  last_ ← read_field "lastKey" read_string;
  _ ← read_lit ",";
  digest ← read_field "digest" read_string;
  pack ← read_omit "packID" [] read_string;
  filter ← read_omit "leafKeyFilter" [] read_string;
  _ ← read_lit ",";
  level ← read_field "level" read_int;
  _ ← read_lit ",";
  count ← read_field "entryCount" read_uint64;
  size ← read_omit "byteCount" 0 read_uint64;
  _ ← read_lit "}";
  mret {| Child_FirstKey := first; Child_LastKey := last_; Child_Digest := digest; Child_PackID := pack;
          Child_LeafKeyFilter := filter; Child_Level := level; Child_EntryCount := count;
          Child_ByteCount := size |}.

Definition read_page : reader DomainPage :=
  _ ← read_lit "{";
  schema ← read_field "schemaVersion" read_int;
  _ ← read_lit ",";
  id ← read_field "domainID" read_string;
  _ ← read_lit ",";
  kind ← read_field "kind" read_string;
  _ ← read_lit ",";
  level ← read_field "level" read_int;
  entries ← read_omit "entries" [] (read_array read_entry);
  children ← read_omit "children" [] (read_array read_child);
  _ ← read_lit "}";
  mret {| Page_SchemaVersion := schema; Page_DomainID := id; Page_Kind := kind; Page_Level := level;
          Page_Entries := entries; Page_Children := children |}.

(** [decodeCanonicalValue(body, &page)]: whatever the JSON decoder accepts, the
    body must be the canonical encoding of the decoded page. *)
Definition decodeCanonicalPage (body : gostring) : res DomainPage :=
  let invalid := Err (NewError ErrorInvalid "non-canonical cursor") in
  match read_page body with
  | Some (page, []) =>
      match EncodeCanonical (json_page page) with
      | Ok canonical => if bool_decide (canonical = body) then Ok page else invalid
      | Err _ => invalid
      end
  | _ => invalid
  end.
End StorageFormat.
