(* ===== verification/DomainPageTheory.v ===== *)
(** * Facts about consistency-domain pages

    The page codec round trip, the leaf key filter, and what validation
    establishes about the order of entries and children. *)

From Stdlib Require Import ZArith Lia.
From S2P Require Import Prelude GoLib GoHash GoJSON Errors DomainPage.

Open Scope Z_scope.

Module PageTheory.
Import StorageFormat.

(** ** The codec *)

(** The fields of an object after the first. *)
Definition more (l : list gostring) : gostring := concat (map (λ f, "," ++ f) l).

Lemma more_app l k : more (l ++ k) = more l ++ more k.
Proof. unfold more. by rewrite map_app, concat_app. Qed.

Lemma join_more x l : join "," (x :: l) = x ++ more l.
Proof.
  revert x. induction l as [|y l IH]; intros x; [by rewrite app_nil_r|].
  rewrite join_cons, IH by done. unfold more. cbn [map concat]. by rewrite <-!(assoc_L (++)).
Qed.

Lemma json_object_more x l rest : json_object (x :: l) ++ rest = "{" ++ x ++ more l ++ "}" ++ rest.
Proof. unfold json_object. by rewrite join_more, <-!(assoc_L (++)). Qed.

Lemma read_field_app {A} name (r : reader A) v a rest :
  r (v ++ rest) = Some (a, rest) → read_field name r (json_field name v ++ rest) = Some (a, rest).
Proof.
  intros E. unfold read_field, json_field. rewrite (assoc_L (++)), <-(assoc_L (++)).
  by erewrite reader_bind_Some by apply read_lit_app.
Qed.

Lemma read_omit_present {A} name (x : A) r v a rest :
  r (v ++ rest) = Some (a, rest) → read_omit name x r (("," ++ json_field name v) ++ rest) = Some (a, rest).
Proof.
  intros E. unfold read_omit, json_field.
  replace (("," ++ json_quote name ++ ":" ++ v) ++ rest) with (("," ++ json_quote name ++ ":") ++ v ++ rest)
    by (by rewrite <-!(assoc_L (++))).
  by rewrite read_opt_app.
Qed.

Lemma read_comma_field {A B} name (r : reader A) v a rest (k : A → reader B) :
  r (v ++ rest) = Some (a, rest) →
  (_ ← read_lit ","; x ← read_field name r; k x) (("," ++ json_field name v) ++ rest) = k a rest.
Proof.
  intros E. rewrite <-(assoc_L (++)). erewrite reader_bind_Some by apply read_lit_app.
  by erewrite reader_bind_Some by (by apply read_field_app).
Qed.

(** The texts and numbers the encoder writes as they are. *)
Definition entry_text (e : DomainEntry) : Prop :=
  ValidString (Entry_Key e) = true ∧ ValidString (Entry_LogicalVersion e) = true.

Definition child_text (c : DomainPageChild) : Prop :=
  ValidString (Child_FirstKey c) = true ∧ ValidString (Child_LastKey c) = true ∧
  ValidString (Child_Digest c) = true ∧ ValidString (Child_PackID c) = true ∧
  ValidString (Child_LeafKeyFilter c) = true ∧
  0 ≤ Child_Level c ≤ MaxInt64 ∧ 0 ≤ Child_EntryCount c ≤ MaxUint64 ∧ 0 ≤ Child_ByteCount c ≤ MaxUint64.

Definition page_text (p : DomainPage) : Prop :=
  0 ≤ Page_SchemaVersion p ≤ MaxInt64 ∧ ValidString (Page_DomainID p) = true ∧ ValidString (Page_Kind p) = true ∧
  0 ≤ Page_Level p ≤ MaxInt64 ∧ Forall entry_text (Page_Entries p) ∧ Forall child_text (Page_Children p).

Lemma read_entry_app e rest : entry_text e → read_entry (json_entry e ++ rest) = Some (e, rest).
Proof.
  intros [Hk Hv]. unfold read_entry, json_entry. rewrite json_object_more.
  erewrite reader_bind_Some by apply read_lit_app.
  erewrite reader_bind_Some by (apply read_field_app, read_string_app, Hk).
  unfold more. cbn [map concat]. rewrite app_nil_r, <-(assoc_L (++)).
  erewrite read_comma_field by apply read_slice_app.
  erewrite read_comma_field by (apply read_string_app, Hv).
  erewrite reader_bind_Some by apply read_lit_app. by destruct e.
Qed.

(** Text that cannot be mistaken for the field [name]. *)
Lemma read_omit_absent {A} name (x : A) r rest :
  take (length ("," ++ json_quote name ++ ":")) rest ≠ ("," ++ json_quote name ++ ":") →
  read_omit name x r rest = Some (x, rest).
Proof. apply read_opt_absent. Qed.

Lemma more_omit b f rest : more (json_omit b f) ++ rest = if b then ("," ++ f) ++ rest else rest.
Proof. destruct b; [|done]. unfold more. cbn [json_omit map concat]. by rewrite app_nil_r. Qed.

Lemma more_cons f l rest : more (f :: l) ++ rest = ("," ++ f) ++ more l ++ rest.
Proof. unfold more. cbn [map concat]. by rewrite <-!(assoc_L (++)). Qed.

(** An optional string field, followed by text that differs from it. *)
Lemma read_omit_string name v rest :
  ValidString v = true →
  take (length ("," ++ json_quote name ++ ":")) rest ≠ ("," ++ json_quote name ++ ":") →
  read_omit name [] read_string
    (more (json_omit (bool_decide (v ≠ [])) (json_field name (json_string false v))) ++ rest) = Some (v, rest).
Proof.
  intros Hv Hr. rewrite more_omit. case_bool_decide as Hne.
  - by apply read_omit_present, read_string_app.
  - subst v. by apply read_omit_absent.
Qed.

Lemma read_child_app c rest : child_text c → read_child (json_child c ++ rest) = Some (c, rest).
Proof.
  intros (H1 & H2 & H3 & H4 & H5 & H6 & H7 & H8). unfold read_child, json_child.
  cbn [app]. rewrite json_object_more.
  erewrite reader_bind_Some by apply read_lit_app.
  erewrite reader_bind_Some by (apply read_field_app, read_string_app, H1).
  rewrite more_cons. erewrite read_comma_field by (apply read_string_app, H2).
  rewrite more_cons. erewrite read_comma_field by (apply read_string_app, H3).
  rewrite !more_app, <-!(assoc_L (++)).
  erewrite reader_bind_Some.
  2:{ apply read_omit_string; [done|]. rewrite more_omit. case_bool_decide; by intros [=]. }
  erewrite reader_bind_Some.
  2:{ apply read_omit_string; [done|]. by intros [=]. }
  rewrite !more_cons. cbn [more map concat app].
  erewrite read_comma_field by (apply read_upto_app; done).
  erewrite read_comma_field.
  2:{ apply read_upto_app; [done|]. rewrite more_omit. by destruct (negb _). }
  erewrite reader_bind_Some.
  2:{ rewrite more_omit. destruct (Z.eqb_spec (Child_ByteCount c) 0) as [E|E].
      - rewrite <-E at 1. apply read_omit_absent. by intros [=].
      - apply read_omit_present, read_upto_app; done. }
  erewrite reader_bind_Some by apply read_lit_app. by destruct c.
Qed.

Lemma read_omit_array {A} name (item : reader A) (enc : A → gostring) (P : A → Prop) l rest :
  (∀ a rest, P a → item (enc a ++ rest) = Some (a, rest)) → (∀ a, enc a ≠ []) → Forall P l →
  take (length ("," ++ json_quote name ++ ":")) rest ≠ ("," ++ json_quote name ++ ":") →
  read_omit name [] (read_array item)
    (more (json_omit (bool_decide (l ≠ [])) (json_field name (json_array (map enc l)))) ++ rest) = Some (l, rest).
Proof.
  intros Hitem Hne HP Hr. rewrite more_omit. case_bool_decide as Hl.
  - by eapply read_omit_present, read_array_app.
  - subst l. by apply read_omit_absent.
Qed.

Lemma json_object_nonempty l : json_object l ≠ [].
Proof. done. Qed.

Lemma read_page_app p rest : page_text p → read_page (json_page p ++ rest) = Some (p, rest).
Proof.
  intros (H1 & H2 & H3 & H4 & H5 & H6).
  unfold read_page, json_page, page_header. cbn [app]. rewrite json_object_more.
  erewrite reader_bind_Some by apply read_lit_app.
  erewrite reader_bind_Some by (apply read_field_app, read_upto_app; done).
  rewrite more_cons. erewrite read_comma_field by (apply read_string_app, H2).
  rewrite more_cons. erewrite read_comma_field by (apply read_string_app, H3).
  rewrite more_cons. erewrite read_comma_field.
  2:{ apply read_upto_app; [done|]. rewrite more_app, <-(assoc_L (++)), !more_omit.
      case_bool_decide; [done|]. by case_bool_decide. }
  rewrite more_app, <-(assoc_L (++)).
  erewrite reader_bind_Some.
  2:{ eapply read_omit_array; [apply read_entry_app|by intros|done|]. rewrite more_omit.
      case_bool_decide; by intros [=]. }
  erewrite reader_bind_Some.
  2:{ eapply read_omit_array; [apply read_child_app|by intros|done|]. by intros [=]. }
  erewrite reader_bind_Some by apply read_lit_app. by destruct p.
Qed.

Lemma read_whole_page p : page_text p → read_page (json_page p) = Some (p, []).
Proof. intros Hp. rewrite <-(app_nil_r (json_page p)). by apply read_page_app. Qed.

Lemma EncodeCanonical_Ok text body :
  EncodeCanonical text = Ok body ↔ body = text ∧ 1 ≤ len text ≤ MaxCanonicalBytes.
Proof.
  unfold EncodeCanonical. pose proof (len_nonneg text).
  destruct (Z.eqb_spec (len text) 0), (Z.ltb_spec MaxCanonicalBytes (len text)); cbn [orb]; split;
    try (intros [=]; subst; split; [done|lia]); try (intros [-> ?]; lia || done); done.
Qed.

Lemma decode_sound body p : decodeCanonicalPage body = Ok p → EncodeCanonical (json_page p) = Ok body.
Proof.
  unfold decodeCanonicalPage. destruct (read_page body) as [[q [|]]|]; [|done..].
  destruct (EncodeCanonical (json_page q)) as [c|] eqn:E; [|done].
  case_bool_decide; [|done]. intros [= <-]. by subst.
Qed.

Lemma decode_complete body p :
  page_text p → EncodeCanonical (json_page p) = Ok body → decodeCanonicalPage body = Ok p.
Proof.
  intros Ht E. pose proof E as [-> _]%EncodeCanonical_Ok. unfold decodeCanonicalPage.
  rewrite read_whole_page by done. rewrite E. by rewrite bool_decide_eq_true_2.
Qed.

Lemma json_page_inj p q : page_text p → page_text q → json_page p = json_page q → p = q.
Proof.
  intros Hp Hq E. pose proof (read_whole_page p Hp) as Ep. rewrite E, (read_whole_page q Hq) in Ep. by injection Ep.
Qed.

(** ** The leaf key filter *)

Lemma set_bit_length bits p : length (set_bit bits p) = length bits.
Proof. apply length_alter. Qed.

Lemma set_bits_length ps bits : length (fold_left set_bit ps bits) = length bits.
Proof. revert bits. induction ps as [|p ps IH]; intros bits; [done|]. cbn. by rewrite IH, set_bit_length. Qed.

Lemma lor_byte a b : 0 ≤ a < 256 → 0 ≤ b < 256 → 0 ≤ Z.lor a b < 256.
Proof.
  intros Ha Hb. split; [apply Z.lor_nonneg; lia|]. change 256 with (2 ^ 8).
  destruct (decide (Z.lor a b = 0)) as [->|Hne]; [lia|].
  assert (0 ≤ Z.lor a b) by (apply Z.lor_nonneg; lia).
  apply Z.log2_lt_pow2; [lia|]. rewrite Z.log2_lor by lia.
  destruct (decide (a = 0)) as [->|]; destruct (decide (b = 0)) as [->|]; cbn;
    repeat match goal with |- context [Z.log2 ?x] =>
      lazymatch goal with H : Z.log2 x < 8 |- _ => fail | _ =>
        assert (Z.log2 x < 8) by (apply Z.log2_lt_pow2; lia) end end; lia.
Qed.

Lemma shiftl_bit n : 0 ≤ n < 8 → 0 ≤ Z.shiftl 1 n < 256.
Proof. intros Hn. rewrite Z.shiftl_1_l. split; [apply Z.pow_nonneg; lia|]. change 256 with (2 ^ 8). apply Z.pow_lt_mono_r; lia. Qed.

Lemma land_shiftl_test a n : 0 ≤ n → negb (Z.land a (Z.shiftl 1 n) =? 0) = Z.testbit a n.
Proof.
  intros Hn. rewrite Z.shiftl_1_l. destruct (Z.testbit a n) eqn:E.
  - apply negb_true_iff, Z.eqb_neq. intros H0. apply (f_equal (λ z, Z.testbit z n)) in H0.
    rewrite Z.land_spec, Z.bits_0, E, Z.pow2_bits_true in H0 by done. done.
  - apply negb_false_iff, Z.eqb_eq. apply Z.bits_inj'. intros m Hm. rewrite Z.land_spec, Z.bits_0.
    destruct (decide (m = n)) as [->|]; [by rewrite E|]. rewrite Z.pow2_bits_false by done. apply andb_false_r.
Qed.

(** Setting a bit sets it and clears no other. *)
Lemma test_set_bit bits p q :
  0 ≤ p → test_bit bits q = true ∨ (q = p ∧ (Z.to_nat (p / 8) < length bits)%nat) →
  test_bit (set_bit bits p) q = true.
Proof.
  intros Hp Hq. pose proof (Z.mod_pos_bound p 8 ltac:(lia)). pose proof (Z.mod_pos_bound q 8 ltac:(lia)).
  unfold test_bit, set_bit in *. rewrite list_lookup_alter.
  case_decide as E.
  - rewrite E. destruct (bits !! Z.to_nat (q / 8)) as [c|] eqn:Ec; cbn [fmap option_fmap option_map].
    + rewrite byte_val_of by (apply lor_byte; [apply byte_val_range|by apply shiftl_bit]).
      rewrite land_shiftl_test in * by lia. rewrite Z.lor_spec, orb_true_iff.
      destruct Hq as [?|[-> _]]; [by left|right]. rewrite Z.shiftl_1_l. apply Z.pow2_bits_true. lia.
    + destruct Hq as [?|[-> Hl]]; [done|]. apply lookup_ge_None in Ec. lia.
  - destruct Hq as [?|[-> _]]; done.
Qed.

Lemma test_set_bits bits ps q :
  Forall (λ p, 0 ≤ p) ps →
  test_bit bits q = true ∨ (q ∈ ps ∧ (Z.to_nat (q / 8) < length bits)%nat) →
  test_bit (fold_left set_bit ps bits) q = true.
Proof.
  intros Hps. revert bits. induction Hps as [|p ps Hp Hps IH]; intros bits Hq; cbn.
  - destruct Hq as [?|[Hq _]]; [done|]. by apply not_elem_of_nil in Hq.
  - apply IH. rewrite set_bit_length. destruct Hq as [?|[[->|Hq]%elem_of_cons Hl]].
    + left. apply test_set_bit; auto.
    + left. apply test_set_bit; auto.
    + by right.
Qed.

Section Filter.
Context `{SHA256}.

Lemma filter_positions_range key : Forall (λ p, 0 ≤ p < domainLeafKeyFilterBits) (filter_positions key).
Proof. apply Forall_map, list.Forall_forall. intros i _. by apply Z.mod_pos_bound. Qed.

Definition filter_bits (keys : list gostring) (bits : gostring) : gostring :=
  fold_left (λ bits key, fold_left set_bit (filter_positions key) bits) keys bits.

Lemma filter_bits_length keys bits : length (filter_bits keys bits) = length bits.
Proof.
  unfold filter_bits. revert bits. induction keys as [|k keys IH]; intros bits; [done|]. cbn [fold_left].
  by rewrite IH, set_bits_length.
Qed.

Lemma filter_bits_test keys bits q :
  length bits = 512%nat → 0 ≤ q < domainLeafKeyFilterBits →
  test_bit bits q = true ∨ (∃ key, key ∈ keys ∧ q ∈ filter_positions key) →
  test_bit (filter_bits keys bits) q = true.
Proof.
  intros Hl Hq. unfold filter_bits. revert bits Hl.
  induction keys as [|k keys IH]; intros bits Hl Ht; cbn [fold_left].
  { destruct Ht as [?|(? & Hk & _)]; [done|]. by apply not_elem_of_nil in Hk. }
  assert (Forall (λ p, 0 ≤ p) (filter_positions k)) as Hpos.
  { eapply list.Forall_impl; [apply filter_positions_range|]. cbn. lia. }
  apply IH; [by rewrite set_bits_length|].
  destruct Ht as [?|(key & [->|Hk]%elem_of_cons & Hin)].
  - left. apply test_set_bits; auto.
  - left. apply test_set_bits; [done|]. right. split; [done|]. rewrite Hl.
    assert (q / 8 < 512) by (apply Z.div_lt_upper_bound; unfold domainLeafKeyFilterBits, DomainLeafKeyFilterBytes in *; lia).
    pose proof (Z.div_pos q 8). lia.
  - right. by exists key.
Qed.

Lemma filter_valid keys : ValidateDomainLeafKeyFilter (DomainLeafKeyFilter keys) = Ok tt.
Proof.
  unfold ValidateDomainLeafKeyFilter, DomainLeafKeyFilter. rewrite b64_decode_encode.
  fold (filter_bits keys (replicate (Z.to_nat DomainLeafKeyFilterBytes) nul)).
  unfold len. rewrite filter_bits_length, length_replicate. by rewrite bool_decide_eq_true_2.
Qed.

Lemma filter_no_false_negative keys key :
  key ∈ keys → DomainLeafKeyFilterMayContain (DomainLeafKeyFilter keys) key = Ok true.
Proof.
  intros Hk. unfold DomainLeafKeyFilterMayContain. rewrite filter_valid. cbn [mbind result_bind].
  unfold DomainLeafKeyFilter at 1. rewrite b64_decode_encode. cbn [default]. f_equal.
  fold (filter_bits keys (replicate (Z.to_nat DomainLeafKeyFilterBytes) nul)).
  apply forallb_forall. intros q Hq%list_elem_of_In. apply filter_bits_test; [by rewrite length_replicate| |by eauto].
  pose proof (filter_positions_range key) as Hr. rewrite list.Forall_forall in Hr. by apply Hr.
Qed.

Lemma filter_nonempty keys : DomainLeafKeyFilter keys ≠ [].
Proof.
  unfold DomainLeafKeyFilter. rewrite b64_encode_nil. intros E%(f_equal length).
  fold (filter_bits keys (replicate (Z.to_nat DomainLeafKeyFilterBytes) nul)) in E.
  rewrite filter_bits_length, length_replicate in E. discriminate E.
Qed.
End Filter.

(** ** What validation establishes *)

Lemma validDomainText_spec v :
  validDomainText v = true ↔ v ≠ [] ∧ ValidString v = true ∧ nul ∉ v.
Proof.
  unfold validDomainText, ContainsByte.
  rewrite !andb_true_iff, negb_true_iff, bool_decide_eq_true, bool_decide_eq_false. naive_solver.
Qed.

Lemma validDomainDigest_spec v : validDomainDigest v = true ↔ ∃ d, len d = 32 ∧ v = b64_encode d.
Proof.
  unfold validDomainDigest. split.
  - destruct (b64_decode v) as [d|]; [|done]. rewrite andb_true_iff, Z.eqb_eq, bool_decide_eq_true. naive_solver.
  - intros (d & Hd & ->). rewrite b64_decode_encode, Hd. by rewrite bool_decide_eq_true_2.
Qed.

Definition entry_ok (e : DomainEntry) : Prop :=
  validDomainText (Entry_Key e) = true ∧ validDomainText (Entry_LogicalVersion e) = true.

(** Keys strictly increasing. *)
Definition sorted_entries (es : list DomainEntry) : Prop := StronglySorted bytes_lt (map Entry_Key es).

Lemma check_entries_Ok prev es :
  check_entries prev es = Ok tt ↔
  Forall entry_ok es ∧ sorted_entries es ∧ (prev = [] ∨ Forall (λ e, bytes_lt prev (Entry_Key e)) es).
Proof.
  revert prev. induction es as [|e es IH]; intros prev; cbn [check_entries].
  { split; [|done]. intros _. split; [constructor|]. split; [constructor|]. right. constructor. }
  split.
  - intros E. inv_go. apply IH in E as (Hok & Hs & Hp).
    rewrite !orb_false_iff, !negb_false_iff, andb_false_iff, bool_decide_eq_false in *. destruct_and!.
    match goal with Hk : validDomainText (Entry_Key e) = true |- _ => pose proof Hk as (Hne & _)%validDomainText_spec end.
    destruct Hp as [?|Hp]; [done|]. split; [by constructor|]. split.
    + unfold sorted_entries. cbn [map]. constructor; [done|]. by apply Forall_map.
    + match goal with Hor : _ ∨ _ |- _ => destruct Hor as [Hn|Hle] end.
      * left. by apply dec_stable.
      * assert (bytes_lt prev (Entry_Key e)).
        { apply bytes_lt_nge. rewrite <-bytes_leb_le. by rewrite Hle. }
        right. constructor; [done|]. eapply list.Forall_impl; [exact Hp|]. intros e' ?. by trans (Entry_Key e).
  - intros (Hok & Hs & Hp). apply list.Forall_cons in Hok as [[H1 H2] Hok].
    inversion Hs as [|? ? Hs' Hall]; subst. rewrite H1, H2. cbn [negb orb].
    assert (bool_decide (prev ≠ []) && (Entry_Key e <=? prev)%bytes = false) as ->.
    { destruct Hp as [->|Hp%list.Forall_cons]; [done|]. apply andb_false_iff. right.
      apply not_true_iff_false. rewrite bytes_leb_le. apply bytes_lt_nge, Hp. }
    cbn. apply IH. split; [done|]. split; [done|]. right. by rewrite Forall_map in Hall.
Qed.
End PageTheory.
