(* ===== verification/DomainTree.v ===== *)
(** * The content-addressed ordered tree: internal/portable/domain_tree.go

    Every consistency domain keeps its records in an immutable B-tree of pages.
    The class [PageStore] is what a tree session offers the algorithms: reading
    and writing authenticated pages, choosing the pack of a batch of writes,
    and describing a written page to its parent.  The algorithms below are the
    methods of [consistencyDomainTreeSession] that only use that interface.

    Loops that are not structural take fuel and stop with [nontermination] when
    it runs out; the theorems show when that cannot happen.  Pages of one batch
    are written in index order (the code writes them concurrently; their order
    is irrelevant because no page is visible before the head is published). *)

From Stdlib Require Import ZArith Lia.
From S2P Require Import Prelude GoLib GoHash GoJSON Errors DomainPage.

Open Scope Z_scope.

Module DomainTree.
Import StorageFormat.

Definition domainPageMaximumItems : nat := 256.

Record domainPageRef := {
  ref_root : DomainTreeRoot;
  ref_firstKey : gostring;
  ref_lastKey : gostring;
  ref_leafKeyFilter : gostring;
}.

Definition root_ref (root : DomainTreeRoot) : domainPageRef :=
  {| ref_root := root; ref_firstKey := []; ref_lastKey := []; ref_leafKeyFilter := [] |}.

Record consistencyDomainValue := { Value_Data : option gostring; Value_LogicalVersion : gostring; Value_Revision : Z }.

(** A loop that did not finish within its fuel. *)
Definition nontermination : error := OtherError "loop did not terminate".

(** The run-time panic of an index outside its slice. *)
Definition index_out_of_range : error := OtherError "panic: index out of range".

(** ** Page descriptors *)

Section Descriptor.
Context `{SHA256}.

(** The sum of the value lengths, with the overflow check of the loop. *)
Fixpoint sum_values (total : Z) (entries : list DomainEntry) : res Z :=
  match entries with
  | [] => Ok total
  | entry :: entries =>
      _ ← guard_err (MaxUint64 - total <? bytes_len (Entry_Value entry))
            (NewError ErrorInvalid "consistency-domain byte count overflows");
      sum_values (u64 (total + bytes_len (Entry_Value entry))) entries
  end.

Fixpoint sum_children (entryCount byteCount : Z) (children : list DomainPageChild) : res (Z * Z) :=
  match children with
  | [] => Ok (entryCount, byteCount)
  | child :: children =>
      _ ← guard_err ((MaxUint64 - entryCount <? Child_EntryCount child)
                     || (MaxUint64 - byteCount <? Child_ByteCount child))
            (NewError ErrorInvalid "consistency-domain aggregate overflows");
      sum_children (u64 (entryCount + Child_EntryCount child)) (u64 (byteCount + Child_ByteCount child)) children
  end.

Definition first_key (entries : list DomainEntry) : gostring :=
  match entries with e :: _ => Entry_Key e | [] => [] end.
Definition last_key (entries : list DomainEntry) : gostring :=
  match last entries with Some e => Entry_Key e | None => [] end.

Definition consistencyDomainPageDescriptor (page : DomainPage) (digest packID : gostring) : res domainPageRef :=
  if Page_Level page =? 0 then
    byteCount ← sum_values 0 (Page_Entries page);
    Ok {| ref_root := {| Root_Digest := digest; Root_PackID := packID; Root_Level := Page_Level page;
                         Root_EntryCount := len (Page_Entries page); Root_ByteCount := byteCount |};
          ref_firstKey := first_key (Page_Entries page);
          ref_lastKey := last_key (Page_Entries page);
          ref_leafKeyFilter := DomainLeafKeyFilter (map Entry_Key (Page_Entries page)) |}
  else
    match Page_Children page, last (Page_Children page) with
    | first :: _, Some final =>
        '(entryCount, byteCount) ← sum_children 0 0 (Page_Children page);
        Ok {| ref_root := {| Root_Digest := digest; Root_PackID := packID; Root_Level := Page_Level page;
                             Root_EntryCount := entryCount; Root_ByteCount := byteCount |};
              ref_firstKey := Child_FirstKey first;
              ref_lastKey := Child_LastKey final;
              ref_leafKeyFilter := [] |}
    | _, _ => Err (NewError ErrorInvalid "consistency-domain branch has no children")
    end.

Definition verifyConsistencyDomainPageRef (page : DomainPage) (expected : domainPageRef) : res unit :=
  actual ← consistencyDomainPageDescriptor page (Root_Digest (ref_root expected)) (Root_PackID (ref_root expected));
  guard_err (negb (bool_decide (ref_root actual = ref_root expected))
             || (bool_decide (ref_firstKey expected ≠ []) && bool_decide (ref_firstKey actual ≠ ref_firstKey expected))
             || (bool_decide (ref_lastKey expected ≠ []) && bool_decide (ref_lastKey actual ≠ ref_lastKey expected))
             || (bool_decide (ref_leafKeyFilter expected ≠ [])
                 && bool_decide (ref_leafKeyFilter actual ≠ ref_leafKeyFilter expected)))
    (NewError ErrorInvalid "consistency-domain child descriptor mismatch").
End Descriptor.

(** The reference a parent holds to a child, with and without its key filter. *)
Definition child_root (child : DomainPageChild) : DomainTreeRoot :=
  {| Root_Digest := Child_Digest child; Root_PackID := Child_PackID child; Root_Level := Child_Level child;
     Root_EntryCount := Child_EntryCount child; Root_ByteCount := Child_ByteCount child |}.
Definition child_ref (child : DomainPageChild) : domainPageRef :=
  {| ref_root := child_root child; ref_firstKey := Child_FirstKey child; ref_lastKey := Child_LastKey child;
     ref_leafKeyFilter := Child_LeafKeyFilter child |}.
Definition child_ref_unfiltered (child : DomainPageChild) : domainPageRef :=
  {| ref_root := child_root child; ref_firstKey := Child_FirstKey child; ref_lastKey := Child_LastKey child;
     ref_leafKeyFilter := [] |}.

(** ** The session interface *)

Class PageStore (St : Type) := {
  session_kind : ConsistencyDomainKind;
  session_id : gostring;
  readPage : domainPageRef → GoM St error DomainPage;
  writePage : DomainPage → GoM St error domainPageRef;
  ensurePackID : gostring → GoM St error gostring;
  pageChild : domainPageRef → GoM St error DomainPageChild;
  setForcePack : bool → GoM St error unit;
}.

Section Tree.
Context `{SHA256} {St : Type} `{!PageStore St}.

Abbreviation SessionM := (GoM St error).

(** ** Reading *)

Definition entry_index (entries : list DomainEntry) (key : gostring) : nat :=
  Search (length entries) (λ index,
    match entries !! index with Some e => negb (Entry_Key e <? key)%bytes | None => false end).

(** [None] is the result -1. *)
Definition consistencyDomainChildIndex (children : list DomainPageChild) (key : gostring) : option nat :=
  if bool_decide (children = []) then None
  else
    let index := Search (length children) (λ index,
      match children !! index with Some c => negb (Child_LastKey c <? key)%bytes | None => false end) in
    if bool_decide (index = length children) then Some (length children - 1)%nat else Some index.

Fixpoint lookup_loop (fuel : nat) (key : gostring) (reference : domainPageRef) :
    SessionM (option consistencyDomainValue) :=
  match fuel with
  | O => throw nontermination
  | S fuel =>
      page ← readPage reference;
      if Page_Level page =? 0 then
        match Page_Entries page !! entry_index (Page_Entries page) key with
        | Some entry =>
            if bool_decide (Entry_Key entry = key)
            then mret (Some {| Value_Data := clone_bytes (Entry_Value entry);
                               Value_LogicalVersion := Entry_LogicalVersion entry; Value_Revision := 0 |})
            else mret None
        | None => mret None
        end
      else
        match consistencyDomainChildIndex (Page_Children page) key
                ≫= λ index, Page_Children page !! index with
        | None => mret None
        | Some child =>
            if (key <? Child_FirstKey child)%bytes || (Child_LastKey child <? key)%bytes then mret None
            else
              mayContain ← (if (Child_Level child =? 0) && bool_decide (Child_LeafKeyFilter child ≠ [])
                            then lift (DomainLeafKeyFilterMayContain (Child_LeafKeyFilter child) key)
                            else mret true);
              if (mayContain : bool) then lookup_loop fuel key (child_ref child) else mret None
        end
  end.

Definition tree_fuel (root : DomainTreeRoot) : nat := S (Z.to_nat (Root_Level root)).

Definition lookup (root : DomainTreeRoot) (key : gostring) : SessionM (option consistencyDomainValue) :=
  if bool_decide (Root_Digest root = []) then mret None
  else lookup_loop (tree_fuel root) key (root_ref root).

Definition clone_entry (e : DomainEntry) : DomainEntry :=
  {| Entry_Key := Entry_Key e; Entry_Value := clone_bytes (Entry_Value e);
     Entry_LogicalVersion := Entry_LogicalVersion e |}.

(** The leaf loop of [collect]; [result] is what was collected so far. *)
Fixpoint collect_leaf (prefix after : gostring) (limit : Z) (result entries : list DomainEntry) : list DomainEntry :=
  match entries with
  | [] => result
  | entry :: entries =>
      if (Entry_Key entry <=? after)%bytes then collect_leaf prefix after limit result entries
      else if bool_decide (prefix ≠ []) && negb (HasPrefix (Entry_Key entry) prefix) then
        if (prefix <? Entry_Key entry)%bytes then result
        else collect_leaf prefix after limit result entries
      else
        let result := result ++ [clone_entry entry] in
        if len result =? limit then result else collect_leaf prefix after limit result entries
  end.

Section Collect.
Variables (prefix after : gostring) (limit : Z).
Variable visit : domainPageRef → list DomainEntry → SessionM (list DomainEntry).

Fixpoint collect_children (result : list DomainEntry) (children : list DomainPageChild) : SessionM (list DomainEntry) :=
  match children with
  | [] => mret result
  | child :: children =>
      if len result =? limit then mret result
      else if (Child_LastKey child <=? after)%bytes
              || (bool_decide (prefix ≠ []) && (Child_LastKey child <? prefix)%bytes)
      then collect_children result children
      else if bool_decide (prefix ≠ []) && (prefix <? Child_FirstKey child)%bytes
              && negb (HasPrefix (Child_FirstKey child) prefix)
      then mret result
      else
        result ← visit (child_ref_unfiltered child) result;
        collect_children result children
  end.
End Collect.

Fixpoint collect_visit (fuel : nat) (prefix after : gostring) (limit : Z) (reference : domainPageRef)
    (result : list DomainEntry) : SessionM (list DomainEntry) :=
  match fuel with
  | O => throw nontermination
  | S fuel =>
      if (limit <=? len result)
         || (bool_decide (ref_lastKey reference ≠ []) && (ref_lastKey reference <=? after)%bytes)
      then mret result
      else
        page ← readPage reference;
        if Page_Level page =? 0 then mret (collect_leaf prefix after limit result (Page_Entries page))
        else collect_children prefix after limit (collect_visit fuel prefix after limit) result (Page_Children page)
  end.

Definition collect (root : DomainTreeRoot) (prefix after : gostring) (limit : Z) : SessionM (list DomainEntry) :=
  if bool_decide (Root_Digest root = []) || (limit <=? 0) then mret []
  else collect_visit (tree_fuel root) prefix after limit (root_ref root) [].

(** The descending loops run over the reversed lists. *)
Fixpoint ordered_leaf (bound : gostring) (limit : Z) (result entries : list DomainEntry) : list DomainEntry :=
  match entries with
  | [] => result
  | entry :: entries =>
      if bool_decide (bound ≠ []) && negb (Entry_Key entry <? bound)%bytes
      then ordered_leaf bound limit result entries
      else
        let result := result ++ [clone_entry entry] in
        if len result =? limit then result else ordered_leaf bound limit result entries
  end.

Section Ordered.
Variables (bound : gostring) (limit : Z).
Variable visit : domainPageRef → list DomainEntry → SessionM (list DomainEntry).

Fixpoint ordered_children (result : list DomainEntry) (children : list DomainPageChild) : SessionM (list DomainEntry) :=
  match children with
  | [] => mret result
  | child :: children =>
      if bool_decide (bound ≠ []) && negb (Child_FirstKey child <? bound)%bytes
      then ordered_children result children
      else
        result ← visit (child_ref_unfiltered child) result;
        if len result =? limit then mret result else ordered_children result children
  end.
End Ordered.

Fixpoint ordered_visit (fuel : nat) (bound : gostring) (limit : Z) (reference : domainPageRef)
    (result : list DomainEntry) : SessionM (list DomainEntry) :=
  match fuel with
  | O => throw nontermination
  | S fuel =>
      if (limit <=? len result)
         || (bool_decide (bound ≠ []) && bool_decide (ref_firstKey reference ≠ [])
             && negb (ref_firstKey reference <? bound)%bytes)
      then mret result
      else
        page ← readPage reference;
        if Page_Level page =? 0 then mret (ordered_leaf bound limit result (reverse (Page_Entries page)))
        else ordered_children bound limit (ordered_visit fuel bound limit) result (reverse (Page_Children page))
  end.

Definition collectOrdered (root : DomainTreeRoot) (bound : gostring) (limit : Z) (descending : bool) :
    SessionM (list DomainEntry) :=
  if negb descending then collect root [] bound limit
  else if bool_decide (Root_Digest root = []) || (limit <=? 0) then mret []
  else ordered_visit (tree_fuel root) bound limit (root_ref root) [].

(** ** Grouping items into pages *)

(** [items] encode as [enc]; [page count] is the page of the first [count]. *)
Fixpoint prefix_loop (encodedSize : Z) (index : nat) (members : list gostring) : nat :=
  match members with
  | [] => index
  | text :: members =>
      match EncodeCanonical text with
      | Err _ => index
      | Ok member =>
          if MaxCanonicalBytes <? encodedSize + 1 + len member then index
          else prefix_loop (encodedSize + 1 + len member) (S index) members
      end
  end.

Definition canonicalDomainPagePrefix {T} (enc : T → gostring) (items : list T) (page : nat → DomainPage) : nat :=
  match EncodeCanonical (json_page (page 1%nat)) with
  | Err _ => 0%nat
  | Ok body => prefix_loop (len body) 1 (map enc (drop 1 items))
  end.

Definition leaf_page (entries : list DomainEntry) : DomainPage :=
  {| Page_SchemaVersion := 1; Page_DomainID := session_id; Page_Kind := session_kind; Page_Level := 0;
     Page_Entries := entries; Page_Children := [] |}.

Definition branch_page (level : Z) (children : list DomainPageChild) : DomainPage :=
  {| Page_SchemaVersion := 1; Page_DomainID := session_id; Page_Kind := session_kind; Page_Level := level;
     Page_Entries := []; Page_Children := children |}.

(** The loop over [offset]; [entries] is what is left. *)
Fixpoint leaf_groups_loop (fuel : nat) (entries : list DomainEntry) : res (list (list DomainEntry)) :=
  match entries with
  | [] => Ok []
  | _ =>
      match fuel with
      | O => Err nontermination
      | S fuel =>
          let count := canonicalDomainPagePrefix json_entry (take domainPageMaximumItems entries)
                         (λ count, leaf_page (take count entries)) in
          _ ← guard_err (count =? 0)%nat
                (NewError ErrorInvalid "consistency-domain entry cannot fit in a canonical page");
          groups ← leaf_groups_loop fuel (drop count entries);
          Ok (take count entries :: groups)
      end
  end.

Definition leafGroups (entries : list DomainEntry) : res (list (list DomainEntry)) :=
  leaf_groups_loop (length entries) entries.

(** [for index, child := range l { pageChildren[index], err = pageChild(child) }] *)
Fixpoint page_children (children : list domainPageRef) : SessionM (list DomainPageChild) :=
  match children with
  | [] => mret []
  | child :: children =>
      c ← pageChild child;
      cs ← page_children children;
      mret (c :: cs)
  end.

Fixpoint branch_groups_loop (fuel : nat) (level : Z) (children : list domainPageRef) :
    SessionM (list (list domainPageRef)) :=
  match children with
  | [] => mret []
  | _ =>
      match fuel with
      | O => throw nontermination
      | S fuel =>
          pageChildren ← page_children (take domainPageMaximumItems children);
          let count := canonicalDomainPagePrefix json_child pageChildren
                         (λ count, branch_page level (take count pageChildren)) in
          _ ← throw_if (count =? 0)%nat
                (NewError ErrorInvalid "consistency-domain child cannot fit in a canonical page");
          groups ← branch_groups_loop fuel level (drop count children);
          mret (take count children :: groups)
      end
  end.

Definition branchGroups (level : Z) (children : list domainPageRef) : SessionM (list (list domainPageRef)) :=
  branch_groups_loop (length children) level children.

(** ** Writing *)

Fixpoint write_each (pages : list DomainPage) : SessionM (list domainPageRef) :=
  match pages with
  | [] => mret []
  | page :: pages =>
      reference ← writePage page;
      references ← write_each pages;
      mret (reference :: references)
  end.

Fixpoint page_digests (pages : list DomainPage) : res (list gostring) :=
  match pages with
  | [] => Ok []
  | page :: pages =>
      body ← EncodeCanonical (json_page page);
      digests ← page_digests pages;
      Ok (Digest body :: digests)
  end.

Definition writePages (pages : list DomainPage) : SessionM (list domainPageRef) :=
  match pages with
  | [] => mret []
  | [page] => reference ← writePage page; mret [reference]
  | _ =>
      digests ← lift (page_digests pages);
      _ ← ensurePackID (join [nul] (sort_Strings digests));
      write_each pages
  end.

Definition writeLeafGroups (entries : list DomainEntry) : SessionM (list domainPageRef) :=
  if bool_decide (entries = []) then mret []
  else
    groups ← lift (leafGroups entries);
    writePages (map leaf_page groups).

Fixpoint branch_pages (level : Z) (groups : list (list domainPageRef)) : SessionM (list DomainPage) :=
  match groups with
  | [] => mret []
  | group :: groups =>
      pageChildren ← page_children group;
      pages ← branch_pages level groups;
      mret (branch_page level pageChildren :: pages)
  end.

Definition writeBranchGroups (level : Z) (children : list domainPageRef) : SessionM (list domainPageRef) :=
  if (len children =? 0) then mret []
  else
    groups ← branchGroups level children;
    pages ← branch_pages level groups;
    writePages pages.

(** ** Editing *)

(** The entry a change writes. *)
Definition change_entry (change : DomainChange) : DomainEntry :=
  {| Entry_Key := Change_Key change; Entry_Value := clone_bytes (Change_Value change);
     Entry_LogicalVersion := Change_LogicalVersion change |}.

(** One iteration of the leaf edit. *)
Definition edit_leaf (entries : list DomainEntry) (change : DomainChange) : list DomainEntry :=
  let index := entry_index entries (Change_Key change) in
  let found := match entries !! index with
               | Some e => bool_decide (Entry_Key e = Change_Key change)
               | None => false
               end in
  if Change_Delete change then
    if found then take index entries ++ drop (S index) entries else entries
  else if found then <[index := change_entry change]> entries
  else take index entries ++ change_entry change :: drop index entries.

(** The loop that distributes the changes over the children. *)
Fixpoint group_changes (children : list DomainPageChild) (groups : gmap nat (list DomainChange))
    (indices : list nat) (changes : list DomainChange) : res (gmap nat (list DomainChange) * list nat) :=
  match changes with
  | [] => Ok (groups, indices)
  | change :: changes =>
      match consistencyDomainChildIndex children (Change_Key change) with
      | None => Err (NewError ErrorInvalid "consistency-domain branch has no child for edit")
      | Some index =>
          let indices := if bool_decide (is_Some (groups !! index)) then indices else indices ++ [index] in
          let groups := <[index := default [] (groups !! index) ++ [change]]> groups in
          group_changes children groups indices changes
      end
  end.

Section Rewrite.
Variable rewrite : DomainPage → list DomainChange → SessionM (list domainPageRef).

Fixpoint rewrite_children (groups : gmap nat (list DomainChange)) (indices : list nat) (offset : Z)
    (children : list domainPageRef) : SessionM (list domainPageRef) :=
  match indices with
  | [] => mret children
  | originalIndex :: indices =>
      let index := Z.to_nat (Z.of_nat originalIndex + offset) in
      match children !! index with
      | None => throw index_out_of_range
      | Some child =>
          childPage ← readPage child;
          replacements ← rewrite childPage (default [] (groups !! originalIndex));
          rewrite_children groups indices (offset + len replacements - 1)
            (take index children ++ replacements ++ drop (S index) children)
      end
  end.
End Rewrite.

Fixpoint rewrite (fuel : nat) (page : DomainPage) (changes : list DomainChange) : SessionM (list domainPageRef) :=
  match fuel with
  | O => throw nontermination
  | S fuel =>
      if Page_Level page =? 0 then writeLeafGroups (fold_left edit_leaf changes (Page_Entries page))
      else
        '(groups, indices) ← lift (group_changes (Page_Children page) ∅ [] changes);
        children ← rewrite_children (rewrite fuel) groups (merge_sort le indices) 0
                     (map child_ref (Page_Children page));
        writeBranchGroups (Page_Level page) children
  end.

(** [for len(pages) > 1 { pages = writeBranchGroups(pages[0].root.Level+1, pages) }] *)
Fixpoint grow (fuel : nat) (pages : list domainPageRef) : SessionM DomainTreeRoot :=
  match pages with
  | [] => throw index_out_of_range
  | [page] => mret (ref_root page)
  | page :: _ =>
      match fuel with
      | O => throw nontermination
      | S fuel =>
          pages ← writeBranchGroups (i64 (Root_Level (ref_root page) + 1)) pages;
          grow fuel pages
      end
  end.

Definition buildTree (entries : list DomainEntry) : SessionM DomainTreeRoot :=
  if bool_decide (entries = []) then mret empty_root
  else
    pages ← writeLeafGroups entries;
    grow (length pages) pages.

Definition change_le (a b : DomainChange) : Prop := bytes_le (Change_Key a) (Change_Key b).
#[export] Instance change_le_dec a b : Decision (change_le a b).
Proof. unfold change_le. apply _. Defined.

Definition apply_ (root : DomainTreeRoot) (changes : list DomainChange) : SessionM DomainTreeRoot :=
  if bool_decide (length changes = 0%nat) then mret root
  else
    let changes := merge_sort change_le changes in
    if bool_decide (Root_Digest root = []) then
      buildTree (map change_entry (filter (λ c, Change_Delete c = false) changes))
    else
      page ← readPage (root_ref root);
      replacements ← rewrite (tree_fuel root) page changes;
      if (len replacements =? 0) then mret empty_root
      else grow (length replacements) replacements.

Definition MaxInt : Z := MaxInt64.

(** The map the rebuild collects, then overlays with the changes. *)
Definition rebuild_values (entries : list DomainEntry) (changes : list DomainChange) : gmap gostring DomainEntry :=
  fold_left (λ values change,
      if Change_Delete change then delete (Change_Key change) values
      else <[Change_Key change := change_entry change]> values)
    changes
    (fold_left (λ values entry, <[Entry_Key entry := entry]> values) entries ∅).

(** Sets the flag, with the deferred reset. *)
Definition with_force_pack {A} (m : SessionM A) : SessionM A := λ st,
  let '(_, st1) := setForcePack true st in
  let '(result, st2) := m st1 in
  let '(_, st3) := setForcePack false st2 in
  (result, st3).

Definition rebuild (root : DomainTreeRoot) (changes : list DomainChange) : SessionM DomainTreeRoot :=
  _ ← throw_if (MaxInt - 1 <? Root_EntryCount root)
        (NewError ErrorInvalid "consistency-domain rebuild cardinality overflows");
  entries ← collect root [] [] (Root_EntryCount root + 1);
  let values := rebuild_values entries changes in
  let keys := sort_Strings (map fst (map_to_list values)) in
  let materialized := omap (λ key, values !! key) keys in
  with_force_pack (buildTree materialized).
End Tree.
End DomainTree.
