(* ===== verification/TreeTheory.v ===== *)
(** * What a page tree holds

    The laws of [PageStore], the relation [represents] between a page reference
    and the entries below it, and its consequences: entries are valid and
    strictly ordered, and every reference describes them exactly. *)

From Stdlib Require Import ZArith Lia.
From S2P Require Import Prelude GoLib GoHash GoJSON Errors DomainPage DomainPageTheory DomainTree.

Open Scope Z_scope.

Module TreeTheory.
Import StorageFormat PageTheory DomainTree.

(** ** Sorted entries *)

Lemma first_key_cons e es : first_key (e :: es) = Entry_Key e.
Proof. done. Qed.

Lemma last_key_snoc es e : last_key (es ++ [e]) = Entry_Key e.
Proof. unfold last_key. by rewrite last_snoc. Qed.

Lemma last_key_app es es' : es' ≠ [] → last_key (es ++ es') = last_key es'.
Proof.
  intros Hne. destruct es' as [|e es' _] using rev_ind; [done|].
  rewrite (assoc_L (++)), !last_key_snoc. done.
Qed.

Lemma sorted_entries_app es es' :
  sorted_entries (es ++ es') ↔
  sorted_entries es ∧ sorted_entries es' ∧
  ∀ e e', e ∈ es → e' ∈ es' → bytes_lt (Entry_Key e) (Entry_Key e').
Proof.
  unfold sorted_entries. rewrite map_app. induction es as [|e es IH]; cbn.
  - split; [|naive_solver]. intros Hs. split; [constructor|]. split; [done|].
    intros e e' He. by apply not_elem_of_nil in He.
  - split.
    + intros Hs. inversion Hs as [|? ? Hs' Hall]; subst. apply IH in Hs' as (H1 & H2 & H3).
      apply Forall_app in Hall as [Ha Hb]. split; [by constructor|]. split; [done|].
      intros e1 e2 [->|He1]%elem_of_cons He2; [|by apply H3].
      rewrite list.Forall_forall in Hb. apply Hb. by apply list_elem_of_fmap_2.
    + intros (Hs & Hs' & Hlt). inversion Hs as [|? ? H1 H2]; subst. constructor.
      * apply IH. split; [done|]. split; [done|]. intros e1 e2 He1 He2. apply Hlt; [by right|done].
      * apply Forall_app. split; [done|]. apply Forall_map, list.Forall_forall. intros e' He'. apply Hlt; [by left|done].
Qed.

(** The first and last keys bound the others. *)
Lemma sorted_bounds es e :
  sorted_entries es → e ∈ es → bytes_le (first_key es) (Entry_Key e) ∧ bytes_le (Entry_Key e) (last_key es).
Proof.
  intros Hs He. split.
  - destruct es as [|e0 es]; [by apply not_elem_of_nil in He|]. cbn.
    apply elem_of_cons in He as [->|He]; [done|]. inversion Hs as [|? ? _ Hall]; subst.
    rewrite Forall_map, list.Forall_forall in Hall. apply bytes_le_lt_eq. left. by apply Hall.
  - destruct es as [|e0 es _] using rev_ind; [by apply not_elem_of_nil in He|]. rewrite last_key_snoc.
    apply elem_of_app in He as [He|He%list_elem_of_singleton]; [|by subst].
    apply sorted_entries_app in Hs as (_ & _ & Hlt). apply bytes_le_lt_eq. left. apply Hlt; [done|set_solver].
Qed.

(** Each group's keys lie before the next group's. *)
Definition separated (ess : list (list DomainEntry)) : Prop :=
  StronglySorted (λ es es', bytes_lt (last_key es) (first_key es')) ess.

Lemma sorted_concat ess :
  Forall sorted_entries ess → separated ess → sorted_entries (concat ess).
Proof.
  intros Hs Hsep. induction Hsep as [|es ess Hsep IH Hall]; [constructor|]. cbn.
  apply list.Forall_cons in Hs as [Hes Hs]. apply sorted_entries_app.
  split; [done|]. split; [by apply IH|]. intros e e' He He'.
  apply list_elem_of_In, in_concat in He' as (es' & Hin%list_elem_of_In & He'%list_elem_of_In).
  rewrite list.Forall_forall in Hall, Hs.
  destruct (sorted_bounds es e Hes He) as [_ H1]. destruct (sorted_bounds es' e' (Hs _ Hin) He') as [H2 _].
  eapply bytes_le_lt_trans; [exact H1|]. eapply bytes_lt_le_trans; [|exact H2]. by apply Hall.
Qed.

(** The finite map of a list of entries. *)
Definition entries_map (es : list DomainEntry) : gmap gostring DomainEntry :=
  list_to_map (map (λ e, (Entry_Key e, e)) es).

Lemma sorted_NoDup es : sorted_entries es → NoDup (map fst (map (λ e, (Entry_Key e, e)) es)).
Proof. intros Hs. rewrite map_map. cbn. by apply sorted_lt_NoDup. Qed.

Lemma entries_map_lookup es k e :
  sorted_entries es → entries_map es !! k = Some e ↔ e ∈ es ∧ Entry_Key e = k.
Proof.
  intros Hs. unfold entries_map. rewrite <-elem_of_list_to_map by (by apply sorted_NoDup).
  rewrite list_elem_of_fmap. naive_solver.
Qed.

Lemma entries_map_None es k :
  sorted_entries es → (∀ e, e ∈ es → Entry_Key e ≠ k) → entries_map es !! k = None.
Proof.
  intros Hs Hk. apply eq_None_not_Some. intros [e [He He']%entries_map_lookup]; [|done]. by apply (Hk e).
Qed.

(** ** Validated children *)

Section Pages.
Context `{SHA256}.

Record child_ok (level : Z) (c : DomainPageChild) : Prop := {
  co_first : validDomainText (Child_FirstKey c) = true;
  co_last : validDomainText (Child_LastKey c) = true;
  co_order : bytes_le (Child_FirstKey c) (Child_LastKey c);
  co_digest : validDomainDigest (Child_Digest c) = true;
  co_pack : Child_PackID c = [] ∨ validDomainDigest (Child_PackID c) = true;
  co_level : Child_Level c = level - 1;
  co_count : Child_EntryCount c ≠ 0;
  co_filter : Child_LeafKeyFilter c = [] ∨
    Child_Level c = 0 ∧ ValidateDomainLeafKeyFilter (Child_LeafKeyFilter c) = Ok tt;
}.

(** A child's keys lie before the next child's. *)
Definition before (c c' : DomainPageChild) : Prop := bytes_lt (Child_LastKey c) (Child_FirstKey c').

Lemma check_children_Ok level prev cs :
  check_children level prev cs = Ok tt ↔
  Forall (child_ok level) cs ∧ StronglySorted before cs ∧
  (prev = [] ∨ Forall (λ c, bytes_lt prev (Child_FirstKey c)) cs).
Proof.
  revert prev. induction cs as [|c cs IH]; intros prev; cbn [check_children].
  { split; [|done]. intros _. split; [constructor|]. split; [constructor|]. right. constructor. }
  split.
  - intros E. inv_go. apply IH in E as (Hok & Hs & Hp).
    rewrite !orb_false_iff, !andb_false_iff, !negb_false_iff, ?bool_decide_eq_false, ?Z.eqb_neq, ?Z.eqb_eq in *.
    destruct_and!.
    match goal with Hk : validDomainText (Child_LastKey c) = true |- _ => pose proof Hk as (Hne & _)%validDomainText_spec end.
    assert (child_ok level c) as Hc.
    { split; try done.
      - apply bytes_le_nlt. rewrite <-bytes_ltb_lt. by apply not_true_iff_false.
      - match goal with Hor : ¬ (Child_PackID c ≠ []) ∨ _ |- _ => destruct Hor as [Hn|?]; [left|by right] end.
        by apply dec_stable.
      - destruct (decide (Child_LeafKeyFilter c = [])) as [|Hf]; [by left|right].
        match goal with Hor : _ ∨ ¬ (Child_LeafKeyFilter c ≠ []) |- _ => destruct Hor as [Hz|Hn]; [|by destruct Hn] end.
        split; [done|]. rewrite bool_decide_eq_true_2 in * by done.
        match goal with Hv : ValidateDomainLeafKeyFilter _ = Ok ?u |- _ => by destruct u end. }
    destruct Hp as [?|Hp]; [done|]. split; [by constructor|]. split; [by constructor|].
    match goal with Hor : ¬ (prev ≠ []) ∨ _ |- _ => destruct Hor as [Hn|Hle] end.
    + left. by apply dec_stable.
    + assert (bytes_lt prev (Child_FirstKey c)).
      { apply bytes_lt_nge. rewrite <-bytes_leb_le. by rewrite Hle. }
      right. constructor; [done|]. eapply list.Forall_impl; [exact Hp|]. intros c' ?. trans (Child_LastKey c); [|done].
      eapply bytes_lt_le_trans; [done|apply Hc].
  - intros (Hok & Hs & Hp). apply list.Forall_cons in Hok as [Hc Hok]. destruct Hc as [H1 H2 H3 H4 H5 H6 H7 H8].
    inversion Hs as [|? ? Hs' Hall]; subst. rewrite H1, H2, H4, H6, Z.eqb_refl.
    rewrite (proj2 (Z.eqb_neq _ _)) by done. cbn [negb orb].
    assert ((Child_LastKey c <? Child_FirstKey c)%bytes = false) as ->.
    { apply not_true_iff_false. by rewrite bytes_ltb_lt, <-bytes_le_nlt. }
    assert (bool_decide (Child_PackID c ≠ []) && negb (validDomainDigest (Child_PackID c)) = false) as ->.
    { destruct H5 as [->| ->]; [done|]. apply andb_false_r. }
    assert (bool_decide (prev ≠ []) && (Child_FirstKey c <=? prev)%bytes = false) as ->.
    { destruct Hp as [->|Hp%list.Forall_cons]; [done|]. apply andb_false_iff. right.
      apply not_true_iff_false. rewrite bytes_leb_le. apply bytes_lt_nge, Hp. }
    assert (negb (level - 1 =? 0) && bool_decide (Child_LeafKeyFilter c ≠ []) = false) as ->.
    { destruct H8 as [->|[H8 _]]; [apply andb_false_r|]. rewrite H6 in H8. by rewrite H8. }
    assert ((if bool_decide (Child_LeafKeyFilter c ≠ []) then ValidateDomainLeafKeyFilter (Child_LeafKeyFilter c)
             else Ok tt) = Ok tt) as ->.
    { case_bool_decide; [|done]. by destruct H8 as [?|[_ ?]]. }
    cbn. apply IH. split; [done|]. split; [done|]. by right.
Qed.

(** What [ValidateDomainPage] accepts. *)
Record page_ok (p : DomainPage) (digest : gostring) : Prop := {
  po_schema : Page_SchemaVersion p = 1;
  po_id : validDomainText (Page_DomainID p) = true;
  po_kind : validDomainKind (Page_Kind p) = true;
  po_level : 0 ≤ Page_Level p;
  po_leaf : Page_Level p = 0 → Page_Children p = [] ∧ Forall entry_ok (Page_Entries p) ∧
            sorted_entries (Page_Entries p);
  po_branch : Page_Level p ≠ 0 → Page_Entries p = [] ∧ Page_Children p ≠ [] ∧
              Forall (child_ok (Page_Level p)) (Page_Children p) ∧ StronglySorted before (Page_Children p);
  po_body : EncodeCanonical (json_page p) = Ok (json_page p);
  po_digest : digest = Digest (json_page p) ∧ validDomainDigest digest = true;
}.

Lemma ValidateDomainPage_Ok p digest : ValidateDomainPage p digest = Ok tt ↔ page_ok p digest.
Proof.
  unfold ValidateDomainPage. split.
  - intros E. inv_go.
    match goal with Hg : _ || _ = false |- _ =>
      rewrite !orb_false_iff, !negb_false_iff, Z.eqb_eq, Z.ltb_ge in Hg end. destruct_and!.
    match goal with He : EncodeCanonical _ = Ok _ |- _ => pose proof He as [-> _]%EncodeCanonical_Ok; rename He into Hbody end.
    apply bool_decide_eq_false, dec_stable in E.
    match goal with u : unit |- _ => destruct u end.
    match goal with Hx : (if _ then _ else _) = Ok ?u |- _ => destruct u; rename Hx into Hc end.
    split; try done.
    + intros Hl. rewrite Hl in Hc. cbn in Hc. inv_go. rewrite bool_decide_eq_false in *.
      apply check_entries_Ok in Hc as (? & ? & _). split; [by apply dec_stable|done].
    + intros Hl. rewrite (proj2 (Z.eqb_neq _ _) Hl) in Hc. inv_go.
      rewrite orb_false_iff, !bool_decide_eq_false in *. destruct_and!.
      apply check_children_Ok in Hc as (? & ? & _). split; [by apply dec_stable|done].
  - intros [H1 H2 H3 H4 H5 H6 H7 [H8 H9]]. rewrite H1, H2, H3, H9, (proj2 (Z.ltb_ge _ _) H4).
    cbn [Z.eqb Pos.eqb negb orb guard_err mbind result_bind].
    assert ((if Page_Level p =? 0 then
      _ ← guard_err (bool_decide (Page_Children p ≠ [])) (NewError ErrorInvalid "leaf consistency-domain page has children");
      check_entries [] (Page_Entries p)
      else _ ← guard_err (bool_decide (Page_Entries p ≠ []) || bool_decide (Page_Children p = []))
        (NewError ErrorInvalid "invalid consistency-domain branch page");
      check_children (Page_Level p) [] (Page_Children p)) = Ok tt) as ->.
    { destruct (Z.eqb_spec (Page_Level p) 0) as [E|E].
      - destruct (H5 E) as (-> & ? & ?). cbn. apply check_entries_Ok. auto.
      - destruct (H6 E) as (-> & ? & ? & ?). rewrite (bool_decide_eq_false_2 (Page_Children p = [])) by done.
        cbn. apply check_children_Ok. auto. }
    cbn [mbind result_bind]. rewrite H7. cbn [mbind result_bind].
    by rewrite bool_decide_eq_false_2 by (rewrite H8; intros Hn; by apply Hn).
Qed.

(** Validated pages are written as they are, so the codec round-trips. *)
Lemma b64_ascii d : ValidString (b64_encode d) = true.
Proof.
  apply ValidString_ascii. unfold is_ascii.
  eapply list.Forall_impl; [apply b64_encode_alphabet|]. intros c [z Hz].
  destruct c as [[] [] [] [] [] [] [] []]; vm_compute in Hz; try discriminate Hz; vm_compute; done.
Qed.

Lemma validDomainDigest_text v : validDomainDigest v = true → ValidString v = true.
Proof. intros (d & _ & ->)%validDomainDigest_spec. apply b64_ascii. Qed.

(** The integers fit their Go types. *)
Definition count_typed (z : Z) : Prop := 0 ≤ z ≤ MaxUint64.
Definition child_typed (c : DomainPageChild) : Prop :=
  count_typed (Child_EntryCount c) ∧ count_typed (Child_ByteCount c).
Definition page_typed (p : DomainPage) : Prop :=
  Page_Level p ≤ MaxInt64 ∧ Forall child_typed (Page_Children p).

Lemma page_ok_text p digest : page_ok p digest → page_typed p → page_text p.
Proof.
  intros [H1 (_ & H2 & _)%validDomainText_spec H3 H4 H5 H6 _ _] [Htl Ht].
  split; [rewrite H1; unfold MaxInt64; lia|]. split; [done|]. split.
  { apply bool_decide_eq_true in H3. repeat (apply elem_of_cons in H3 as [->|H3]; [reflexivity|]).
    by apply not_elem_of_nil in H3. }
  split; [done|]. destruct (decide (Page_Level p = 0)) as [E|E].
  - destruct (H5 E) as (-> & Hes & _). split; [|constructor]. eapply list.Forall_impl; [exact Hes|].
    intros e [(_ & ? & _)%validDomainText_spec (_ & ? & _)%validDomainText_spec]. done.
  - destruct (H6 E) as (-> & _ & Hcs & _). split; [constructor|].
    rewrite list.Forall_forall in *. intros c Hc. destruct (Ht c Hc) as [T1 T2].
    destruct (Hcs c Hc) as [F1 F2 _ F4 F5 F6 _ F8].
    apply validDomainText_spec in F1 as (_ & F1 & _). apply validDomainText_spec in F2 as (_ & F2 & _).
    apply validDomainDigest_text in F4. do 3 (split; [done|]). split; [|split; [|split; [lia|done]]].
    + by destruct F5 as [->|?%validDomainDigest_text].
    + destruct F8 as [->|[_ F8]]; [done|]. unfold ValidateDomainLeafKeyFilter in F8.
      destruct (b64_decode (Child_LeafKeyFilter c)) as [d|]; [|done]. inv_go.
      rewrite orb_false_iff, !negb_false_iff, bool_decide_eq_true in F8. destruct F8 as [_ <-]. apply b64_ascii.
Qed.

(** ** Descriptors *)

Definition values_total (es : list DomainEntry) : Z := foldr (λ e z, bytes_len (Entry_Value e) + z) 0 es.

Lemma bytes_len_nonneg b : 0 ≤ bytes_len b.
Proof. apply len_nonneg. Qed.

Lemma values_total_nonneg es : 0 ≤ values_total es.
Proof. unfold values_total. induction es as [|e es IH]; cbn; [lia|]. pose proof (bytes_len_nonneg (Entry_Value e)). lia. Qed.

Lemma values_total_app es es' : values_total (es ++ es') = values_total es + values_total es'.
Proof. unfold values_total. induction es as [|e es IH]; cbn in *; lia. Qed.

Lemma sum_values_Ok t es b :
  0 ≤ t ≤ MaxUint64 → sum_values t es = Ok b ↔ b = t + values_total es ∧ t + values_total es ≤ MaxUint64.
Proof.
  revert t. induction es as [|e es IH]; intros t Ht; cbn [sum_values].
  { unfold values_total. cbn. rewrite Z.add_0_r. split; [intros [= <-]; lia|intros [-> _]; done]. }
  change (values_total (e :: es)) with (bytes_len (Entry_Value e) + values_total es).
  pose proof (bytes_len_nonneg (Entry_Value e)). pose proof (values_total_nonneg es).
  destruct (Z.ltb_spec (MaxUint64 - t) (bytes_len (Entry_Value e))); cbn [guard_err mbind result_bind].
  - split; [done|]. intros [_ ?]. lia.
  - rewrite u64_small by lia. rewrite IH by lia. rewrite Z.add_assoc. done.
Qed.

Definition children_entries (cs : list DomainPageChild) : Z := foldr (λ c z, Child_EntryCount c + z) 0 cs.
Definition children_bytes (cs : list DomainPageChild) : Z := foldr (λ c z, Child_ByteCount c + z) 0 cs.

Lemma sum_children_Ok n b cs n' b' :
  0 ≤ n ≤ MaxUint64 → 0 ≤ b ≤ MaxUint64 →
  Forall child_typed cs →
  sum_children n b cs = Ok (n', b') ↔
  n' = n + children_entries cs ∧ b' = b + children_bytes cs ∧
  n + children_entries cs ≤ MaxUint64 ∧ b + children_bytes cs ≤ MaxUint64.
Proof.
  intros Hn Hb Hcs. revert n b Hn Hb. unfold child_typed, count_typed in Hcs.
  induction Hcs as [|c cs [Hc1 Hc2] Hcs IH]; intros n b Hn Hb; cbn [sum_children].
  { unfold children_entries, children_bytes. cbn. rewrite !Z.add_0_r.
    split; [intros [= <- <-]; lia|intros (-> & -> & _); done]. }
  change (children_entries (c :: cs)) with (Child_EntryCount c + children_entries cs).
  change (children_bytes (c :: cs)) with (Child_ByteCount c + children_bytes cs).
  assert (0 ≤ children_entries cs ∧ 0 ≤ children_bytes cs) as [? ?].
  { clear -Hcs. unfold children_entries, children_bytes. induction Hcs as [|c cs [? ?] _ [? ?]]; cbn; lia. }
  destruct (Z.ltb_spec (MaxUint64 - n) (Child_EntryCount c)); cbn [orb guard_err mbind result_bind].
  { split; [done|lia]. }
  destruct (Z.ltb_spec (MaxUint64 - b) (Child_ByteCount c)); cbn [guard_err mbind result_bind].
  { split; [done|lia]. }
  rewrite !u64_small by lia. rewrite IH by lia. rewrite !Z.add_assoc. done.
Qed.

(** A reference that agrees with a page. *)
Lemma verify_Ok p r :
  verifyConsistencyDomainPageRef p r = Ok tt ↔
  ∃ a, consistencyDomainPageDescriptor p (Root_Digest (ref_root r)) (Root_PackID (ref_root r)) = Ok a ∧
    ref_root a = ref_root r ∧ (ref_firstKey r = [] ∨ ref_firstKey a = ref_firstKey r) ∧
    (ref_lastKey r = [] ∨ ref_lastKey a = ref_lastKey r) ∧
    (ref_leafKeyFilter r = [] ∨ ref_leafKeyFilter a = ref_leafKeyFilter r).
Proof.
  unfold verifyConsistencyDomainPageRef.
  assert (∀ x y : gostring, bool_decide (x ≠ []) && bool_decide (y ≠ x) = false ↔ x = [] ∨ y = x) as Hb.
  { intros x y. rewrite andb_false_iff, !bool_decide_eq_false. split.
    - intros [?|?]; [left|right]; by apply dec_stable.
    - intros [->| ->]; [left|right]; naive_solver. }
  split.
  - intros E. inv_go. rewrite !orb_false_iff, negb_false_iff, bool_decide_eq_true, !Hb in E. destruct_and!. by eexists.
  - intros (a & -> & E1 & E2 & E3 & E4). cbn [mbind result_bind].
    rewrite bool_decide_eq_true_2 by done. cbn [negb orb].
    by rewrite (proj2 (Hb _ _) E2), (proj2 (Hb _ _) E3), (proj2 (Hb _ _) E4).
Qed.

Lemma verify_unfiltered p c :
  verifyConsistencyDomainPageRef p (child_ref c) = Ok tt →
  verifyConsistencyDomainPageRef p (child_ref_unfiltered c) = Ok tt.
Proof. rewrite !verify_Ok. intros (a & ? & ? & ? & ? & _). exists a. do 4 (split; [done|]). by left. Qed.
End Pages.

(** ** What a session promises *)

Class PageView (St : Type) := {
  ps_inv : St → Prop;
  (** [resolve st d k p]: the session accepts [p] as the page of digest [d],
      read from the pack [k] or on its own *)
  resolve : St → gostring → gostring → DomainPage → Prop;
  (** the errors of an object provider that does not answer *)
  ps_outage : error → Prop;
  (** what the world may have become, by this session's and others' doing *)
  ps_step : St → St → Prop;
  ps_step_preorder :: PreOrder ps_step;
}.

Section View.
Context `{SHA256} {St : Type} `{!PageView St}.

Definition refers (st : St) (r : domainPageRef) (p : DomainPage) : Prop :=
  resolve st (Root_Digest (ref_root r)) (Root_PackID (ref_root r)) p ∧
  verifyConsistencyDomainPageRef p r = Ok tt.

(** Nothing that could be read is lost. *)
Definition extends (st st' : St) : Prop :=
  ps_step st st' ∧ ∀ d k p, resolve st d k p → resolve st' d k p.

#[export] Instance extends_preorder : PreOrder extends.
Proof.
  split; [intros st; by split|]. intros x y z [Hs Hxy] [Hs' Hyz]. split; [by trans y|]. intros d k p Hp. by apply Hyz, Hxy.
Qed.

(** A step that keeps the invariant and everything readable. *)
Definition grows (st st' : St) : Prop := ps_inv st' ∧ extends st st'.

Lemma grows_trans st st' st'' : grows st st' → grows st' st'' → grows st st''.
Proof. intros [_ H1] [Hi H2]. split; [done|]. by trans st'. Qed.

Lemma grows_refl st : ps_inv st → grows st st.
Proof. by split. Qed.

(** No two pages the session has seen share a digest. *)
Definition no_collision (st : St) : Prop :=
  ∀ d k k' p p', resolve st d k p → resolve st d k' p' → p = p'.

Lemma no_collision_extends st st' : extends st st' → no_collision st' → no_collision st.
Proof. intros [_ He] Hn d k k' p p' Hp Hp'. by eapply Hn; apply He. Qed.

Lemma refers_unique st r p p' : no_collision st → refers st r p → refers st r p' → p = p'.
Proof. intros Hn [Hp _] [Hp' _]. by eapply Hn. Qed.

(** A page that agrees with the reference and is accepted under its digest,
    from whatever pack. *)
Definition readable (st : St) (r : domainPageRef) (p : DomainPage) : Prop :=
  verifyConsistencyDomainPageRef p r = Ok tt ∧ ∃ k, resolve st (Root_Digest (ref_root r)) k p.

Lemma refers_readable st r p : refers st r p → readable st r p.
Proof. intros [Hr Hv]. split; [done|]. by eexists. Qed.

Lemma readable_unique st r p p' : no_collision st → readable st r p → refers st r p' → p = p'.
Proof. intros Hn [_ [k Hp]] [Hp' _]. by eapply Hn. Qed.

Lemma refers_extends st st' r p : extends st st' → refers st r p → refers st' r p.
Proof. intros [_ He] [Hr Hv]. split; [by apply He|done]. Qed.

(** ** Reading computations

    Other writers may add pages while a computation runs, so what it answers is
    stated at the state it ends in. *)

(** The answer is [a], unless the provider failed. *)
Definition answered {A} (x : res A) (a : A) : Prop := x = Ok a ∨ ∃ e, x = Err e ∧ ps_outage e.

Definition growing {A} (m : GoM St error A) : Prop := ∀ st x st', ps_inv st → m st = (x, st') → grows st st'.

(** [m] answers [a] from [st] when it ends without a digest collision. *)
Definition yields {A} (st : St) (m : GoM St error A) (a : A) : Prop :=
  ∀ x st', m st = (x, st') → grows st st' ∧ (no_collision st' → answered x a).

Lemma answered_Ok {A} (a a' : A) : answered (Ok a) a' → a = a'.
Proof. intros [[= ->]|(e & [=] & _)]. done. Qed.

Lemma growing_ret {A} (a : A) : growing (mret a).
Proof. intros st x st' Hi [_ ->]%mret_inv. by apply grows_refl. Qed.

Lemma growing_lift {A} (r : res A) : growing (lift r).
Proof. intros st x st' Hi [_ ->]%lift_inv. by apply grows_refl. Qed.

Lemma growing_throw {A} e : growing (throw e : GoM St error A).
Proof. apply (growing_lift (Err e)). Qed.

Lemma growing_bind {A B} (m : GoM St error A) (f : A → GoM St error B) :
  growing m → (∀ a, growing (f a)) → growing (m ≫= f).
Proof.
  intros Hm Hf st x st' Hi (y & st1 & E1 & E)%gom_bind_inv. pose proof (Hm _ _ _ Hi E1) as Hg1.
  destruct y as [a|e]; [|by destruct E as [-> ->]]. eapply grows_trans; [exact Hg1|]. by eapply Hf; [apply Hg1|].
Qed.

Lemma yields_ret {A} st (a : A) : ps_inv st → yields st (mret a) a.
Proof. intros Hi x st' [-> ->]%mret_inv. split; [by apply grows_refl|by left]. Qed.

Lemma yields_bind {A B} st (m : GoM St error A) (f : A → GoM St error B) a b :
  yields st m a → (∀ a, growing (f a)) → (∀ st', grows st st' → yields st' (f a) b) → yields st (m ≫= f) b.
Proof.
  intros Hm Hf Hb x st' (y & st1 & E1 & E)%gom_bind_inv. destruct (Hm _ _ E1) as [Hg1 Ha].
  destruct y as [a'|e].
  - pose proof (Hf a' _ _ _ (proj1 Hg1) E) as Hg2. split; [by eapply grows_trans|]. intros Hn.
    assert (no_collision st1) as Hn1 by (by eapply no_collision_extends; [apply Hg2|]).
    specialize (Ha Hn1). apply answered_Ok in Ha as ->. exact (proj2 (Hb st1 Hg1 _ _ E) Hn).
  - destruct E as [-> ->]. split; [done|]. intros Hn. destruct (Ha Hn) as [[=]|(e' & [= <-] & ?)]. right. eauto.
Qed.
End View.

Create HintDb growing.
#[export] Hint Resolve growing_ret growing_lift growing_throw : growing.

(** Growth follows the code: binds, branches and the operations in the hint
    database. *)
Ltac grow :=
  intros;
  lazymatch goal with
  | |- growing (_ ≫= _) => apply growing_bind; grow
  | |- growing (match ?x with _ => _ end) => destruct x; grow
  | |- _ => try solve [eauto with growing]
  end.

(** What reading needs. *)
Class PageReadLaws `{SHA256} (St : Type) `{!PageStore St, !PageView St} : Prop := {
  (** what is accepted was validated under its digest *)
  resolve_ok st d k p : ps_inv st → resolve st d k p → page_ok p d ∧ page_typed p;
  (** a referenced page can be read *)
  readPage_exact st r p : ps_inv st → refers st r p → yields st (readPage r) p;
  readPage_sound st r x st' :
    ps_inv st → readPage r st = (x, st') →
    grows st st' ∧ ∀ p, x = Ok p → readable st' r p;
}.

(** What editing needs. *)
Class PageStoreLaws `{SHA256} (St : Type) `{!PageStore St, !PageView St} : Prop := {
  page_read_laws :: PageReadLaws St;
  writePage_sound st p x st' :
    ps_inv st → page_typed p → Page_DomainID p = session_id → Page_Kind p = session_kind →
    writePage p st = (x, st') →
    grows st st' ∧ ∀ r, x = Ok r →
      resolve st' (Root_Digest (ref_root r)) (Root_PackID (ref_root r)) p ∧
      consistencyDomainPageDescriptor p (Root_Digest (ref_root r)) (Root_PackID (ref_root r)) = Ok r;
  ensurePackID_sound st d x st' : ps_inv st → ensurePackID d st = (x, st') → grows st st';
  pageChild_sound st r x st' :
    ps_inv st → pageChild r st = (x, st') →
    grows st st' ∧ ∀ c, x = Ok c →
      child_root c = ref_root r ∧ Child_FirstKey c = ref_firstKey r ∧ Child_LastKey c = ref_lastKey r ∧
      ∀ p, refers st r p → ∃ p', refers st' (child_ref c) p';
  setForcePack_sound st b x st' : ps_inv st → setForcePack b st = (x, st') → x = Ok tt ∧ grows st st';
}.

Section Represents.
Context `{SHA256} {St : Type} `{!PageStore St, !PageView St, !PageReadLaws St}.

(** [represents l st r es]: below the reference [r] to a page of level [l] lie
    exactly the entries [es]. *)
Fixpoint represents (l : nat) (st : St) (r : domainPageRef) (es : list DomainEntry) : Prop :=
  match l with
  | O => ∃ p, refers st r p ∧ Page_Level p = 0 ∧ es = Page_Entries p
  | S l' => ∃ p ess, refers st r p ∧ Page_Level p = Z.of_nat l ∧
      Forall2 (λ c es, represents l' st (child_ref c) es) (Page_Children p) ess ∧ es = concat ess
  end.

Lemma represents_extends l st st' r es : extends st st' → represents l st r es → represents l st' r es.
Proof.
  intros He. revert r es. induction l as [|l IH]; intros r es.
  - intros (p & Hp & ?). exists p. split; [by eapply refers_extends|done].
  - intros (p & ess & Hp & Hl & Hess & ->). exists p, ess. split; [by eapply refers_extends|]. split; [done|].
    split; [|done]. eapply Forall2_impl; [exact Hess|]. intros c es'. apply IH.
Qed.

(** Everything a reference says about the entries below it. *)
Record describes (l : nat) (r : domainPageRef) (es : list DomainEntry) : Prop := {
  ds_entries : Forall entry_ok es;
  ds_sorted : sorted_entries es;
  ds_level : Root_Level (ref_root r) = Z.of_nat l;
  ds_count : Root_EntryCount (ref_root r) = len es;
  ds_bytes : Root_ByteCount (ref_root r) = values_total es;
  ds_first : ref_firstKey r = [] ∨ first_key es = ref_firstKey r;
  ds_last : ref_lastKey r = [] ∨ last_key es = ref_lastKey r;
  ds_filter : ref_leafKeyFilter r = [] ∨ l = 0%nat ∧ ref_leafKeyFilter r = DomainLeafKeyFilter (map Entry_Key es);
}.

(** A described child holds entries between its keys. *)
Lemma describes_child l level c es :
  child_ok level c → describes l (child_ref c) es →
  es ≠ [] ∧ first_key es = Child_FirstKey c ∧ last_key es = Child_LastKey c.
Proof.
  intros Hc []. cbn in *. split.
  { intros ->. by apply (co_count _ _ Hc). }
  split.
  - destruct ds_first0 as [E|?]; [|done]. by destruct (proj1 (validDomainText_spec _) (co_first _ _ Hc)).
  - destruct ds_last0 as [E|?]; [|done]. by destruct (proj1 (validDomainText_spec _) (co_last _ _ Hc)).
Qed.

Lemma describes_children l level cs ess :
  Forall (child_ok level) cs → StronglySorted before cs →
  Forall2 (λ c es, describes l (child_ref c) es) cs ess →
  Forall sorted_entries ess ∧ separated ess ∧ Forall (λ es, es ≠ []) ess ∧ Forall (Forall entry_ok) ess ∧
  children_entries cs = len (concat ess) ∧ children_bytes cs = values_total (concat ess).
Proof.
  intros Hok Hs Hd. revert Hok Hs. induction Hd as [|c es cs ess Hc Hd IH]; intros Hok Hs.
  { repeat split; constructor. }
  apply list.Forall_cons in Hok as [Hck Hok]. inversion Hs as [|? ? Hs' Hall]; subst.
  destruct (IH Hok Hs') as (I1 & I2 & I3 & I4 & I5 & I6).
  destruct (describes_child l level c es Hck Hc) as (Hne & Hf & Hl). destruct Hc. cbn in *.
  split; [by constructor|]. split.
  { constructor; [done|]. clear -Hall Hd Hl Hok. induction Hd as [|c' es' cs ess Hc Hd IH]; constructor.
    - apply list.Forall_cons in Hok as [Hck _]. apply list.Forall_cons in Hall as [Hb _].
      destruct (describes_child _ _ _ _ Hck Hc) as (_ & Hf' & _). rewrite Hl, Hf'. exact Hb.
    - apply list.Forall_cons in Hok as [_ ?]. apply list.Forall_cons in Hall as [_ ?]. by apply IH. }
  split; [by constructor|]. split; [by constructor|].
  rewrite len_app, values_total_app. unfold children_entries, children_bytes in *. cbn. lia.
Qed.

Lemma concat_first_last cs ess c l level :
  Forall (child_ok level) cs → Forall2 (λ c es, describes l (child_ref c) es) cs ess →
  (∀ cs', cs = c :: cs' → first_key (concat ess) = Child_FirstKey c) ∧
  (last cs = Some c → last_key (concat ess) = Child_LastKey c).
Proof.
  intros Hok Hd. split.
  - intros cs' ->. inversion Hd as [|? es ? ess' Hc _]; subst. apply list.Forall_cons in Hok as [Hck _].
    destruct (describes_child _ _ _ _ Hck Hc) as (Hne & Hf & _). destruct es; [done|]. exact Hf.
  - intros Hlast. destruct cs as [|c' cs _] using rev_ind; [done|]. rewrite last_snoc in Hlast. injection Hlast as ->.
    apply Forall2_app_inv_l in Hd as (ess1 & ess2 & _ & Hd2 & ->).
    inversion Hd2 as [|? es ? ess' Hc Hnil]; subst. inversion Hnil; subst.
    apply Forall_app in Hok as [_ Hok]. apply list.Forall_cons in Hok as [Hck _].
    destruct (describes_child _ _ _ _ Hck Hc) as (Hne & _ & Hl).
    rewrite concat_app. cbn. rewrite app_nil_r, last_key_app by done. exact Hl.
Qed.

Lemma represents_describes l st r es : ps_inv st → represents l st r es → describes l r es.
Proof.
  intros Hinv. revert r es. induction l as [|l IH]; intros r es.
  - intros (p & [Hr Hv] & Hl & ->). destruct (resolve_ok _ _ _ _ Hinv Hr) as [Hok Ht].
    destruct (po_leaf _ _ Hok Hl) as (_ & Hes & Hs).
    apply verify_Ok in Hv as (a & Ha & E1 & E2 & E3 & E4). unfold consistencyDomainPageDescriptor in Ha.
    rewrite Hl, Z.eqb_refl in Ha. inv_go. injection Ha as <-. cbn in *.
    match goal with Hsum : sum_values _ _ = _ |- _ => apply sum_values_Ok in Hsum as [-> _]; [|unfold MaxUint64; lia] end.
    constructor; [done|done|rewrite <-E1..|destruct E2; auto|destruct E3; auto|].
    + cbn. lia.
    + done.
    + cbn. lia.
    + destruct E4; [by left|right]. done.
  - intros (p & ess & [Hr Hv] & Hl & Hess & ->). destruct (resolve_ok _ _ _ _ Hinv Hr) as [Hok Ht].
    destruct (po_branch _ _ Hok) as (_ & Hne & Hcs & Hbef); [lia|].
    assert (Forall2 (λ c es, describes l (child_ref c) es) (Page_Children p) ess) as Hd.
    { eapply Forall2_impl; [exact Hess|]. intros c es. apply IH. }
    destruct (describes_children _ _ _ _ Hcs Hbef Hd) as (I1 & I2 & I3 & I4 & I5 & I6).
    apply verify_Ok in Hv as (a & Ha & E1 & E2 & E3 & E4). unfold consistencyDomainPageDescriptor in Ha.
    rewrite (proj2 (Z.eqb_neq (Page_Level p) 0)) in Ha by lia.
    destruct (Page_Children p) as [|c cs] eqn:Ecs; [done|].
    destruct (last (c :: cs)) as [c'|] eqn:Elast; [|done].
    destruct (concat_first_last (c :: cs) ess c l _ Hcs Hd) as [Hf _]. specialize (Hf _ eq_refl).
    destruct (concat_first_last (c :: cs) ess c' l _ Hcs Hd) as [_ Hla]. specialize (Hla Elast).
    inv_go. destruct x as [n b]. injection Ha as <-. cbn in E1, E2, E3, E4.
    match goal with Hsum : sum_children _ _ _ = _ |- _ =>
      apply sum_children_Ok in Hsum as (-> & -> & _); [|unfold MaxUint64; lia..|by destruct Ht as [_ Ht]; rewrite Ecs in Ht] end.
    constructor; [by apply Forall_concat|by apply sorted_concat|rewrite <-E1..| | |].
    + cbn [Root_Level]. lia.
    + cbn [Root_EntryCount]. lia.
    + cbn [Root_ByteCount]. lia.
    + destruct E2 as [?|E2]; [by left|right]. by rewrite Hf.
    + destruct E3 as [?|E3]; [by left|right]. by rewrite Hla.
    + destruct E4 as [?|E4]; [by left|]. left. by rewrite <-E4.
Qed.
End Represents.
End TreeTheory.
