(* ===== verification/TreeRead.v ===== *)
(** * Reading a page tree: lookup and ordered collection

    On a session that meets [PageStoreLaws], [lookup], [collect] and
    [collectOrdered] return, within the fuel of the root's level, exactly what
    the ordered entries below the root say, and change nothing readable. *)

From Stdlib Require Import ZArith Lia.
From S2P Require Import Prelude GoLib GoHash GoJSON Errors DomainPage DomainPageTheory DomainTree TreeTheory.

Open Scope Z_scope.

Module TreeRead.
Import StorageFormat PageTheory DomainTree TreeTheory.

(** ** Searching sorted slices *)

Section Search.
Context {A : Type} (key : A → gostring).

Definition search_key (l : list A) (k : gostring) : nat :=
  Search (length l) (λ i, match l !! i with Some x => negb (key x <? k)%bytes | None => false end).

(** Everything before the index is below the key, everything after is not. *)
Lemma search_key_spec l k :
  StronglySorted bytes_le (map key l) →
  (search_key l k ≤ length l)%nat ∧
  (∀ i x, l !! i = Some x → (i < search_key l k)%nat ↔ bytes_lt (key x) k).
Proof.
  intros Hs. unfold search_key, Search.
  set (f := λ i, match l !! i with Some x => negb (key x <? k)%bytes | None => false end).
  assert (∀ i j x y, (i ≤ j)%nat → l !! i = Some x → l !! j = Some y → bytes_le (key x) (key y)) as Hmono.
  { clear f. intros i j x y Hij Hx Hy. revert i j Hij Hx Hy. induction l as [|z l IH]; intros i j Hij Hx Hy; [done|].
    inversion Hs as [|? ? Hs' Hall]; subst. destruct i as [|i], j as [|j]; cbn in Hx, Hy; simplify_eq; try lia.
    - done.
    - rewrite Forall_map, list.Forall_forall in Hall. by apply Hall, (list_elem_of_lookup_2 _ j).
    - eapply IH; [done| |done|done]. lia. }
  destruct (search_loop_spec (length l) f 0 (length l)) as (H1 & H2 & H3); [lia|lia| |lia|].
  { intros x y Hxy Hy. subst f. cbn. destruct (l !! x) as [a|] eqn:Ea; [|done].
    destruct (lookup_lt_is_Some_2 _ _ Hy) as [b Eb]. rewrite Eb, !negb_true_iff, <-!not_true_iff_false, !bytes_ltb_lt.
    rewrite <-!bytes_le_nlt. intros ?. etrans; [done|]. by eapply (Hmono x y). }
  split; [lia|]. intros i x Hx. split.
  - intros Hi. specialize (H2 i Hi). subst f. cbn in H2. rewrite Hx, negb_false_iff in H2. by apply bytes_ltb_lt.
  - intros Hlt. destruct (decide (i < search_loop (length l) f 0 (length l))%nat) as [|Hge]; [done|].
    assert (i < length l)%nat by (by eapply lookup_lt_Some). set (r := search_loop _ f 0 _) in *.
    specialize (H3 ltac:(lia)). subst f. cbn in H3. destruct (lookup_lt_is_Some_2 l r) as [b Eb]; [lia|].
    rewrite Eb, negb_true_iff, <-not_true_iff_false, bytes_ltb_lt, <-bytes_le_nlt in H3.
    exfalso. apply (proj1 (bytes_lt_nge _ _) Hlt). etrans; [exact H3|]. eapply (Hmono r i); [lia|done|done].
Qed.
End Search.

Lemma sorted_entries_le es : sorted_entries es → StronglySorted bytes_le (map Entry_Key es).
Proof.
  unfold sorted_entries. induction 1 as [|k ks _ IH Hall]; constructor; [done|].
  eapply list.Forall_impl; [exact Hall|]. intros k' ?. apply bytes_le_lt_eq. by left.
Qed.

(** The index the leaf search finds splits the entries. *)
Lemma entry_index_spec es k :
  sorted_entries es →
  let i := entry_index es k in
  (i ≤ length es)%nat ∧ Forall (λ e, bytes_lt (Entry_Key e) k) (take i es) ∧
  Forall (λ e, bytes_le k (Entry_Key e)) (drop i es).
Proof.
  intros Hs i. destruct (search_key_spec Entry_Key es k) as [H1 H2]; [by apply sorted_entries_le|].
  change (search_key Entry_Key es k) with i in H1, H2. split; [done|].
  split; apply list.Forall_lookup; intros j e Hj.
  - apply lookup_take_Some in Hj as [Hj Hlt]. by eapply H2.
  - rewrite lookup_drop in Hj. apply bytes_le_nlt. intros Hlt%(H2 _ _ Hj). lia.
Qed.

(** What the leaf holds under a key is found at that index or nowhere. *)
Lemma leaf_lookup es k :
  sorted_entries es →
  entries_map es !! k =
    match es !! entry_index es k with
    | Some e => if bool_decide (Entry_Key e = k) then Some e else None
    | None => None
    end.
Proof.
  intros Hs. destruct (entry_index_spec es k Hs) as (Hi & Hlo & Hhi). cbn zeta in *.
  set (i := entry_index es k) in *. rewrite list.Forall_forall in Hlo.
  assert (∀ e, e ∈ es → Entry_Key e = k → e ∈ drop i es) as Hin.
  { intros e He Ek. rewrite <-(take_drop i es) in He. apply elem_of_app in He as [He|He]; [|done].
    specialize (Hlo e He). rewrite Ek in Hlo. by apply bytes_lt_neq in Hlo. }
  destruct (es !! i) as [e|] eqn:Ee.
  - case_bool_decide as Ek.
    + apply entries_map_lookup; [done|]. split; [|done]. by eapply list_elem_of_lookup_2.
    + apply entries_map_None; [done|]. intros e' He' Ek'. specialize (Hin e' He' Ek').
      rewrite (drop_S _ _ _ Ee) in Hin, Hhi. apply list.Forall_cons in Hhi as [Hle _].
      apply elem_of_cons in Hin as [->|Hin]; [done|].
      assert (bytes_lt (Entry_Key e) (Entry_Key e')) as Hlt.
      { rewrite <-(take_drop i es), (drop_S _ _ _ Ee) in Hs. apply sorted_entries_app in Hs as (_ & Hs & _).
        change (e :: drop (S i) es) with ([e] ++ drop (S i) es) in Hs.
        apply sorted_entries_app in Hs as (_ & _ & Hs). by apply Hs; [left|]. }
      rewrite Ek' in Hlt. by apply bytes_le_nlt in Hle.
  - apply entries_map_None; [done|]. intros e' He' Ek'. specialize (Hin e' He' Ek').
    rewrite drop_ge in Hin by (by apply lookup_ge_None). by apply not_elem_of_nil in Hin.
Qed.

(** ** Keys under a prefix *)

Lemma prefix_le p k : p `prefix_of` k → bytes_le p k.
Proof. intros [s ->]. rewrite <-(app_nil_r p) at 1. unfold bytes_le. rewrite bytes_app_cmp. apply bytes_nil_le. Qed.

(** Past the keys with a prefix, no key has it. *)
Lemma prefix_passed p k k' : bytes_lt p k → ¬ p `prefix_of` k → bytes_le k k' → ¬ p `prefix_of` k'.
Proof.
  intros Hlt Hnp Hle [s ->]. apply bytes_le_nlt in Hle. apply Hle. clear Hle.
  revert k Hlt Hnp. unfold bytes_lt. induction p as [|c p IH]; intros k Hlt Hnp.
  { destruct Hnp. by exists k. }
  destruct k as [|c' k]; [done|]. cbn in Hlt |- *.
  destruct (byte_val c ?= byte_val c') eqn:Ec; [|done|done].
  apply IH; [done|]. intros [s' ->]. apply Hnp.
  assert (c = c') as -> by (rewrite <-(byte_of_val c), <-(byte_of_val c'); f_equal; by apply Z.compare_eq).
  by exists s'.
Qed.

(** ** Lookup *)

Definition value_of (e : DomainEntry) : consistencyDomainValue :=
  {| Value_Data := clone_bytes (Entry_Value e); Value_LogicalVersion := Entry_LogicalVersion e; Value_Revision := 0 |}.

Section Reading.
Context `{SHA256} {St : Type} `{!PageStore St, !PageView St, !PageReadLaws St}.

(** [holds st root es]: the tree at [root] holds exactly [es]. *)
Definition holds (st : St) (root : DomainTreeRoot) (es : list DomainEntry) : Prop :=
  Root_Digest root = [] ∧ es = [] ∨
  Root_Digest root ≠ [] ∧ ∃ l, represents l st (root_ref root) es.

Lemma holds_extends st st' root es : extends st st' → holds st root es → holds st' root es.
Proof.
  intros He [[? ?]|[Hne [l Hr]]]; [by left|right]. split; [done|]. exists l. by eapply represents_extends.
Qed.

Lemma holds_sorted st root es : ps_inv st → holds st root es → sorted_entries es ∧ Forall entry_ok es.
Proof.
  intros Hi [[_ ->]|[_ [l Hr]]]; [split; constructor|]. destruct (represents_describes _ _ _ _ Hi Hr). done.
Qed.

Lemma represents_unfiltered l st c es :
  represents l st (child_ref c) es → represents l st (child_ref_unfiltered c) es.
Proof.
  destruct l as [|l]; cbn.
  - intros (p & [Hp Hv] & ?). exists p. split; [|done]. split; [done|by apply verify_unfiltered].
  - intros (p & ess & [Hp Hv] & ?). exists p, ess. split; [|done]. split; [done|by apply verify_unfiltered].
Qed.

(** Children of a branch, with the entries below each. *)
Definition below (l : nat) (level : Z) (cs : list DomainPageChild) (ess : list (list DomainEntry)) : Prop :=
  Forall (child_ok level) cs ∧ StronglySorted before cs ∧ Forall2 (λ c es, describes l (child_ref c) es) cs ess.

Lemma branch_below l st r p ess :
  ps_inv st → readable st r p → Page_Level p = Z.of_nat (S l) →
  Forall2 (λ c es, represents l st (child_ref c) es) (Page_Children p) ess →
  below l (Page_Level p) (Page_Children p) ess ∧ Page_Children p ≠ [].
Proof.
  intros Hi [_ [k Hr]] Hl Hess. destruct (resolve_ok _ _ _ _ Hi Hr) as [Hok _].
  destruct (po_branch _ _ Hok) as (_ & Hne & Hcs & Hbef); [lia|]. split; [|done]. split; [done|]. split; [done|].
  eapply Forall2_impl; [exact Hess|]. intros c es Hc. by eapply represents_describes.
Qed.

Lemma below_sorted l level cs ess : below l level cs ess → sorted_entries (concat ess).
Proof.
  intros (Hok & Hs & Hd). destruct (describes_children _ _ _ _ Hok Hs Hd) as (I1 & I2 & _). by apply sorted_concat.
Qed.

(** An entry lies between the keys of the child it is below. *)
Lemma below_bounds l level cs ess i c es e :
  below l level cs ess → cs !! i = Some c → ess !! i = Some es → e ∈ es →
  bytes_le (Child_FirstKey c) (Entry_Key e) ∧ bytes_le (Entry_Key e) (Child_LastKey c).
Proof.
  intros (Hok & Hs & Hd) Hc Hes He. rewrite list.Forall_lookup in Hok. specialize (Hok _ _ Hc).
  destruct (Forall2_lookup_l _ _ _ _ _ Hd Hc) as (es' & Hes' & Hdes). rewrite Hes in Hes'. injection Hes' as <-.
  destruct (describes_child _ _ _ _ Hok Hdes) as (_ & <- & <-). apply sorted_bounds; [apply Hdes|done].
Qed.

Lemma before_lookup cs i j c c' :
  StronglySorted before cs → (i < j)%nat → cs !! i = Some c → cs !! j = Some c' → before c c'.
Proof.
  intros Hs Hij Hi Hj. revert i j Hij Hi Hj. induction Hs as [|x cs Hs IH Hall]; intros i j Hij Hi Hj; [done|].
  destruct j as [|j]; [lia|]. destruct i as [|i]; cbn in Hi, Hj.
  - injection Hi as ->. rewrite list.Forall_lookup in Hall. by eapply Hall.
  - eapply (IH i j); [lia|done|done].
Qed.

Lemma last_keys_le level cs :
  Forall (child_ok level) cs → StronglySorted before cs → StronglySorted bytes_le (map Child_LastKey cs).
Proof.
  intros Hok. induction 1 as [|c cs Hs IH Hall]; cbn; [constructor|]. apply list.Forall_cons in Hok as [Hc Hok].
  constructor; [by apply IH|]. apply Forall_map. rewrite list.Forall_forall in Hall, Hok |- *.
  intros c' Hc'. apply bytes_le_lt_eq. left. eapply bytes_lt_le_trans; [by apply Hall|apply (Hok _ Hc')].
Qed.

(** The child index is the only child that can hold the key. *)
Lemma child_index_spec l level cs ess k :
  below l level cs ess → cs ≠ [] →
  ∃ i c, consistencyDomainChildIndex cs k = Some i ∧ cs !! i = Some c ∧
    ∀ j es e, ess !! j = Some es → e ∈ es → Entry_Key e = k → j = i.
Proof.
  intros Hb Hne. pose proof Hb as (Hok & Hs & Hd).
  destruct (search_key_spec Child_LastKey cs k) as [H1 H2]; [by eapply last_keys_le|].
  unfold consistencyDomainChildIndex. rewrite bool_decide_eq_false_2 by done.
  fold (search_key Child_LastKey cs k). set (i := search_key Child_LastKey cs k) in *.
  assert (0 < length cs)%nat by (destruct cs; [done|cbn; lia]).
  assert (∀ j es e, ess !! j = Some es → e ∈ es → Entry_Key e = k → i = j) as Huniq.
  { intros j es e Hes He Ek. destruct (Forall2_lookup_r _ _ _ _ _ Hd Hes) as (c & Hc & _).
    destruct (below_bounds _ _ _ _ _ _ _ _ Hb Hc Hes He) as [Hlo Hhi]. rewrite Ek in Hlo, Hhi.
    assert (¬ (j < i)%nat) by (intros Hlt%(H2 _ _ Hc); by apply bytes_lt_nge in Hlt).
    destruct (decide (i < j)%nat) as [Hij|]; [|lia]. exfalso.
    pose proof (lookup_lt_Some _ _ _ Hc). destruct (lookup_lt_is_Some_2 cs i) as [c' Hc']; [lia|].
    assert (bytes_lt (Child_LastKey c') k) as Hlt.
    { eapply bytes_lt_le_trans; [|exact Hlo]. exact (before_lookup _ _ _ _ _ Hs Hij Hc' Hc). }
    apply (H2 _ _ Hc') in Hlt. lia. }
  case_bool_decide as Ei.
  - destruct (lookup_lt_is_Some_2 cs (length cs - 1)) as [c Hc]; [lia|].
    exists (length cs - 1)%nat, c. split; [done|]. split; [done|]. intros j es e Hes He Ek.
    specialize (Huniq _ _ _ Hes He Ek). apply lookup_lt_Some in Hes. rewrite <-(Forall2_length _ _ _ Hd) in Hes. lia.
  - destruct (lookup_lt_is_Some_2 cs i) as [c Hc]; [lia|]. exists i, c. split; [done|]. split; [done|].
    intros j es e Hes He Ek. symmetry. by eapply Huniq.
Qed.

Lemma concat_elem (ess : list (list DomainEntry)) e : e ∈ concat ess ↔ ∃ i es, ess !! i = Some es ∧ e ∈ es.
Proof.
  rewrite list_elem_of_In, in_concat. split.
  - intros (es & [i Hi]%list_elem_of_In%list_elem_of_lookup & He%list_elem_of_In). eauto.
  - intros (i & es & Hi%list_elem_of_lookup_2%list_elem_of_In & He%list_elem_of_In). eauto.
Qed.

Lemma branch_lookup l level cs ess k i es :
  below l level cs ess → ess !! i = Some es →
  (∀ j es e, ess !! j = Some es → e ∈ es → Entry_Key e = k → j = i) →
  entries_map (concat ess) !! k = entries_map es !! k.
Proof.
  intros Hb Hes Huniq. pose proof (below_sorted _ _ _ _ Hb) as Hs.
  assert (sorted_entries es) as Hses.
  { destruct Hb as (_ & _ & Hd). destruct (Forall2_lookup_r _ _ _ _ _ Hd Hes) as (c & _ & []). done. }
  destruct (entries_map es !! k) as [e|] eqn:Ee.
  - apply entries_map_lookup in Ee as [He Ek]; [|done]. apply entries_map_lookup; [done|]. split; [|done].
    apply concat_elem. eauto.
  - apply entries_map_None; [done|]. intros e (j & es' & Hj & He)%concat_elem Ek.
    assert (j = i) as -> by (by eapply Huniq). rewrite Hes in Hj. injection Hj as <-.
    assert (entries_map es !! k = Some e) as E by (by apply entries_map_lookup). by rewrite E in Ee.
Qed.

Lemma growing_read r : growing (readPage r).
Proof. intros st x st' Hi E. by eapply readPage_sound. Qed.

#[local] Hint Resolve growing_read : growing.

Lemma growing_lookup_loop fuel k r : growing (lookup_loop fuel k r).
Proof. revert r. induction fuel as [|fuel IH]; intros r; cbn [lookup_loop]; grow. Qed.
#[local] Hint Resolve growing_lookup_loop : growing.

Lemma lookup_loop_correct l st r es fuel k :
  ps_inv st → represents l st r es → (l < fuel)%nat → yields st (lookup_loop fuel k r) (value_of <$> entries_map es !! k).
Proof.
  revert st r es fuel. induction l as [|l IH]; intros st r es fuel Hi Hrep Hf; (destruct fuel as [|fuel]; [lia|]);
    cbn [lookup_loop].
  - pose proof (represents_describes _ _ _ _ Hi Hrep) as Hd. destruct Hrep as (p & Hp & Hl & ->).
    eapply yields_bind; [by apply readPage_exact|grow|]. intros st1 Hg. rewrite Hl. cbn [Z.eqb]. rewrite leaf_lookup by apply Hd.
    destruct (Page_Entries p !! _) as [e|]; [|by apply yields_ret, Hg]. case_bool_decide; by apply yields_ret, Hg.
  - destruct Hrep as (p & ess & Hp & Hl & Hess & ->).
    destruct (branch_below _ _ _ _ _ Hi (refers_readable _ _ _ Hp) Hl Hess) as [Hb Hne].
    destruct (child_index_spec _ _ _ _ k Hb Hne) as (i & c & Hidx & Hc & Huniq).
    destruct (Forall2_lookup_l _ _ _ _ _ Hess Hc) as (es & Hes & Hrep).
    pose proof (represents_describes _ _ _ _ Hi Hrep) as Hd.
    eapply yields_bind; [by apply readPage_exact|grow|]. intros st1 Hg. rewrite (proj2 (Z.eqb_neq _ _)) by lia.
    rewrite Hidx. cbn [mbind option_bind]. rewrite Hc, (branch_lookup _ _ _ _ _ _ _ Hb Hes Huniq).
    assert (∀ e, e ∈ es → Entry_Key e = k → bytes_le (Child_FirstKey c) k ∧ bytes_le k (Child_LastKey c)) as Hbd.
    { intros e He <-. by eapply below_bounds. }
    destruct ((k <? Child_FirstKey c)%bytes || (Child_LastKey c <? k)%bytes) eqn:Eout.
    { rewrite entries_map_None; [by apply yields_ret, Hg|apply Hd|]. intros e He Ek.
      destruct (Hbd e He Ek) as [H1%bytes_le_nlt H2%bytes_le_nlt]. rewrite orb_true_iff, !bytes_ltb_lt in Eout. naive_solver. }
    assert (yields st1 (lookup_loop fuel k (child_ref c)) (value_of <$> entries_map es !! k)) as Hrec.
    { apply IH; [apply Hg|eapply represents_extends; [apply Hg|done]|lia]. }
    destruct ((Child_Level c =? 0) && bool_decide (Child_LeafKeyFilter c ≠ [])) eqn:Efil; [|exact Hrec].
    apply andb_true_iff in Efil as [_ Hfil%bool_decide_eq_true]. destruct (ds_filter _ _ _ Hd) as [?|[-> Efil]]; [done|].
    cbn in Efil. unfold mbind, gom_bind, lift.
    destruct (decide (k ∈ map Entry_Key es)) as [Hin|Hout].
    { rewrite Efil, filter_no_false_negative by done. exact Hrec. }
    assert (entries_map es !! k = None) as Hnone.
    { apply entries_map_None; [apply Hd|]. intros e He <-. by apply Hout, list_elem_of_fmap_2. }
    rewrite Efil. unfold DomainLeafKeyFilterMayContain. rewrite filter_valid. cbn [mbind result_bind].
    destruct (forallb _ _); [exact Hrec|]. rewrite Hnone. by apply yields_ret, Hg.
Qed.

(** ** Collection in key order *)

(** The entries [collect] is asked for. *)
Definition selected (prefix after : gostring) (e : DomainEntry) : Prop :=
  bytes_lt after (Entry_Key e) ∧ prefix `prefix_of` Entry_Key e.
#[export] Instance selected_dec prefix after e : Decision (selected prefix after e).
Proof. unfold selected, bytes_lt. apply _. Defined.

Definition select (prefix after : gostring) (es : list DomainEntry) : list DomainEntry :=
  clone_entry <$> filter (selected prefix after) es.

Lemma select_app prefix after es es' :
  select prefix after (es ++ es') = select prefix after es ++ select prefix after es'.
Proof. unfold select. by rewrite list.filter_app, fmap_app. Qed.

Lemma select_none prefix after es :
  (∀ e, e ∈ es → ¬ selected prefix after e) → select prefix after es = [].
Proof.
  intros Hn. unfold select. induction es as [|e es IH]; [done|].
  rewrite filter_cons_False by (apply Hn; by left). apply IH. intros e' He'. apply Hn. by right.
Qed.

Lemma take_take_app {A} n (x y z : list A) : take n (take n (x ++ y) ++ z) = take n (x ++ y ++ z).
Proof.
  destruct (decide (n ≤ length (x ++ y))%nat) as [Hle|Hgt].
  - rewrite take_app_le by (rewrite length_take; lia). rewrite take_take, Nat.min_id, (assoc_L (++)).
    by rewrite (take_app_le (x ++ y) z).
  - rewrite (take_ge (x ++ y)) by lia. by rewrite (assoc_L (++)).
Qed.

Lemma take_full {A} n (x y : list A) : (n ≤ length x)%nat → (length x ≤ n)%nat → take n (x ++ y) = x.
Proof. intros ??. rewrite take_app_le by lia. by rewrite take_ge. Qed.

Lemma collect_leaf_correct prefix after n result es :
  sorted_entries es → (length result < n)%nat →
  collect_leaf prefix after (Z.of_nat n) result es = take n (result ++ select prefix after es).
Proof.
  intros Hs. revert result. induction es as [|e es IH]; intros result Hlen; cbn [collect_leaf].
  { cbn. by rewrite app_nil_r, take_ge by lia. }
  pose proof Hs as Hse. change (e :: es) with ([e] ++ es) in Hse. apply sorted_entries_app in Hse as (_ & Hs' & Hgt).
  assert (∀ P, ¬ selected prefix after e → P → take n (result ++ select prefix after (e :: es)) =
          take n (result ++ select prefix after es)) as Hskip.
  { intros P Hn _. unfold select. by rewrite filter_cons_False. }
  destruct (Entry_Key e <=? after)%bytes eqn:Eafter.
  { apply bytes_leb_le, bytes_le_nlt in Eafter. rewrite (Hskip True) by (try done; by intros [? _]). by apply IH. }
  apply not_true_iff_false in Eafter. rewrite bytes_leb_le, <-bytes_lt_nge in Eafter.
  destruct (bool_decide (prefix ≠ []) && negb (HasPrefix (Entry_Key e) prefix)) eqn:Epre.
  - apply andb_true_iff in Epre as [_ Hnp%negb_true_iff]. rewrite <-not_true_iff_false, HasPrefix_spec in Hnp.
    assert (¬ selected prefix after e) as Hn by (by intros [_ ?]).
    rewrite (Hskip True) by done. destruct (prefix <? Entry_Key e)%bytes eqn:Elt; [|by apply IH].
    apply bytes_ltb_lt in Elt. rewrite select_none; [by rewrite app_nil_r, take_ge by lia|].
    intros e' He' [_ Hp]. revert Hp. eapply prefix_passed; [exact Elt|done|].
    apply bytes_le_lt_eq. left. apply Hgt; [by left|done].
  - assert (selected prefix after e) as Hsel.
    { split; [done|]. apply andb_false_iff in Epre as [Hp|Hp].
      - apply bool_decide_eq_false, dec_stable in Hp. subst. apply prefix_nil.
      - apply negb_false_iff in Hp. by apply HasPrefix_spec. }
    unfold select. rewrite filter_cons_True by done. cbn [fmap list_fmap]. fold (select prefix after es).
    change (clone_entry e :: select prefix after es) with ([clone_entry e] ++ select prefix after es).
    rewrite (assoc_L (++)). destruct (Z.eqb_spec (len (result ++ [clone_entry e])) (Z.of_nat n)) as [En|En]; unfold len in En.
    + by rewrite take_full by lia.
    + apply IH; [done|]. rewrite length_app in *. cbn in *. lia.
Qed.

(** What every visit of a collection does. *)
Definition visit_spec (l : nat) (n : nat) (sel : list DomainEntry → list DomainEntry)
    (visit : domainPageRef → list DomainEntry → GoM St error (list DomainEntry)) : Prop :=
  (∀ r result, growing (visit r result)) ∧
  ∀ st c es result,
    ps_inv st → represents l st (child_ref_unfiltered c) es → (length result ≤ n)%nat →
    yields st (visit (child_ref_unfiltered c) result) (take n (result ++ sel es)).

Lemma represents_step l st st' cs ess :
  grows st st' → Forall2 (λ c es, represents l st (child_ref c) es) cs ess →
  Forall2 (λ c es, represents l st' (child_ref c) es) cs ess.
Proof. intros Hg Hess. eapply Forall2_impl; [exact Hess|]. intros ???. eapply represents_extends; [apply Hg|done]. Qed.

Lemma growing_collect_children prefix after limit visit result cs :
  (∀ r result, growing (visit r result)) → growing (collect_children prefix after limit visit result cs).
Proof. intros Hv. revert result. induction cs as [|c cs IH]; intros result; cbn [collect_children]; grow. Qed.

Lemma growing_ordered_children bound limit visit result cs :
  (∀ r result, growing (visit r result)) → growing (ordered_children bound limit visit result cs).
Proof. intros Hv. revert result. induction cs as [|c cs IH]; intros result; cbn [ordered_children]; grow. Qed.
#[local] Hint Resolve growing_collect_children growing_ordered_children : growing.

Lemma growing_collect_visit fuel prefix after limit r result : growing (collect_visit fuel prefix after limit r result).
Proof. revert r result. induction fuel as [|fuel IH]; intros r result; cbn [collect_visit]; grow. Qed.

Lemma growing_ordered_visit fuel bound limit r result : growing (ordered_visit fuel bound limit r result).
Proof. revert r result. induction fuel as [|fuel IH]; intros r result; cbn [ordered_visit]; grow. Qed.
#[local] Hint Resolve growing_collect_visit growing_ordered_visit : growing.

Lemma below_cons l level c cs es ess :
  below l level (c :: cs) (es :: ess) → below l level cs ess ∧ describes l (child_ref c) es ∧
  (∀ e, e ∈ es → bytes_le (Child_FirstKey c) (Entry_Key e) ∧ bytes_le (Entry_Key e) (Child_LastKey c)) ∧
  (∀ e, e ∈ concat ess → bytes_le (Child_FirstKey c) (Entry_Key e)).
Proof.
  intros Hb. pose proof (λ e, below_bounds _ _ _ _ 0 c es e Hb eq_refl eq_refl) as Hbd.
  pose proof Hb as (Hok & Hs & Hd). inversion Hd; subst. inversion Hs as [|? ? Hs' Hall]; subst.
  apply list.Forall_cons in Hok as [Hc Hok]. split; [done|]. split; [done|].
  split; [done|]. intros e (j & es' & Hj & He)%concat_elem.
  assert (Hj' : (es :: ess) !! S j = Some es') by done.
  destruct (Forall2_lookup_r _ _ _ _ _ Hd Hj') as (c' & Hc' & _).
  destruct (below_bounds _ _ _ _ _ _ _ _ Hb Hc' Hj' He) as [Hlo _].
  etrans; [apply (co_order _ _ Hc)|]. etrans; [|exact Hlo]. apply bytes_le_lt_eq. left.
  rewrite list.Forall_lookup in Hall. by apply (Hall j).
Qed.

Lemma collect_children_correct prefix after n l level visit st cs ess result :
  visit_spec l n (select prefix after) visit →
  ps_inv st → below l level cs ess →
  Forall2 (λ c es, represents l st (child_ref c) es) cs ess → (length result ≤ n)%nat →
  yields st (collect_children prefix after (Z.of_nat n) visit result cs) (take n (result ++ select prefix after (concat ess))).
Proof.
  intros [Hgv Hvisit]. revert st ess result. induction cs as [|c cs IH]; intros st ess result Hi Hb Hess Hlen;
    inversion Hess as [|? es ? ess' Hes Hess']; subst; cbn [collect_children].
  { cbn. rewrite app_nil_r, take_ge by lia. by apply yields_ret. }
  destruct (Z.eqb_spec (len result) (Z.of_nat n)) as [En|En]; unfold len in En.
  { rewrite take_full by lia. by apply yields_ret. }
  destruct (below_cons _ _ _ _ _ _ Hb) as (Hb' & Hd & Hbd & Hrest). cbn [concat]. rewrite select_app.
  assert (∀ b, b = true → (b = true → ∀ e, e ∈ es → ¬ selected prefix after e) → select prefix after es = []) as Hnone.
  { intros b Eb Hx. by apply select_none, Hx. }
  destruct ((Child_LastKey c <=? after)%bytes || (bool_decide (prefix ≠ []) && (Child_LastKey c <? prefix)%bytes)) eqn:Eskip.
  { rewrite (Hnone _ Eskip); [by apply IH|]. intros _ e He [Ha Hp]. destruct (Hbd e He) as [_ Hhi].
    apply orb_true_iff in Eskip as [E%bytes_leb_le|[_ E%bytes_ltb_lt]%andb_true_iff].
    - apply (proj1 (bytes_lt_nge _ _) Ha). by etrans.
    - apply (proj1 (bytes_lt_nge _ _) E). etrans; [by apply prefix_le|done]. }
  destruct (bool_decide (prefix ≠ []) && (prefix <? Child_FirstKey c)%bytes && negb (HasPrefix (Child_FirstKey c) prefix)) eqn:Estop.
  { rewrite <-select_app, (select_none _ _ (es ++ concat ess')).
    - rewrite app_nil_r, take_ge by lia. by apply yields_ret.
    - rewrite !andb_true_iff, negb_true_iff, <-not_true_iff_false, HasPrefix_spec, bytes_ltb_lt in Estop.
      destruct Estop as [[_ Hlt] Hnp]. intros e He [_ Hp]. revert Hp. eapply prefix_passed; [exact Hlt|done|].
      apply elem_of_app in He as [He|He]; [by apply Hbd|by apply Hrest]. }
  eapply yields_bind; [apply Hvisit; [done|by apply represents_unfiltered|done]|grow|]. intros st1 Hg.
  rewrite <-take_take_app. apply IH; [apply Hg|done|by eapply represents_step|rewrite length_take; lia].
Qed.

Lemma collect_guard prefix after n l r es result :
  describes l r es → (length result ≤ n)%nat →
  (Z.of_nat n <=? len result) || (bool_decide (ref_lastKey r ≠ []) && (ref_lastKey r <=? after)%bytes) = true →
  take n (result ++ select prefix after es) = result.
Proof.
  intros Hd Hlen [Hge|[Hne%bool_decide_eq_true Hle%bytes_leb_le]%andb_true_iff]%orb_true_iff.
  - apply Z.leb_le in Hge. unfold len in Hge. by rewrite take_full by lia.
  - rewrite select_none; [by rewrite app_nil_r, take_ge by lia|]. intros e He [Ha _].
    apply (proj1 (bytes_lt_nge _ _) Ha). destruct (ds_last _ _ _ Hd) as [?|E]; [done|]. rewrite <-E in Hle.
    destruct (sorted_bounds es e) as [_ Hb]; [apply Hd|done|]. by etrans.
Qed.

Lemma collect_visit_correct prefix after n l : ∀ fuel, (l < fuel)%nat → ∀ st r es result,
  ps_inv st → represents l st r es → (length result ≤ n)%nat →
  yields st (collect_visit fuel prefix after (Z.of_nat n) r result) (take n (result ++ select prefix after es)).
Proof.
  induction l as [|l IH]; intros fuel Hf st r es result Hi Hrep Hlen; (destruct fuel as [|fuel]; [lia|]);
    cbn [collect_visit]; pose proof (represents_describes _ _ _ _ Hi Hrep) as Hd;
    (destruct ((Z.of_nat n <=? len result) || _) eqn:Eguard;
     [rewrite (collect_guard _ _ _ _ _ _ _ Hd Hlen Eguard); by apply yields_ret|]);
    apply orb_false_iff in Eguard as [Eguard%Z.leb_gt _]; unfold len in Eguard.
  - destruct Hrep as (p & Hp & Hl & ->). eapply yields_bind; [by apply readPage_exact|grow|]. intros st1 Hg.
    rewrite Hl. cbn [Z.eqb]. rewrite collect_leaf_correct; [by apply yields_ret, Hg|apply Hd|lia].
  - destruct Hrep as (p & ess & Hp & Hl & Hess & ->).
    destruct (branch_below _ _ _ _ _ Hi (refers_readable _ _ _ Hp) Hl Hess) as [Hb Hne].
    eapply yields_bind; [by apply readPage_exact|grow|]. intros st1 Hg.
    rewrite (proj2 (Z.eqb_neq _ _)) by lia.
    apply (collect_children_correct _ _ _ l (Page_Level p)); [|apply Hg|done|by eapply represents_step|done].
    split; [grow|]. intros. by apply IH; [lia|..].
Qed.

(** ** Collection in descending order *)

Definition bounded (bound : gostring) (e : DomainEntry) : Prop := bound = [] ∨ bytes_lt (Entry_Key e) bound.
#[export] Instance bounded_dec bound e : Decision (bounded bound e).
Proof. unfold bounded, bytes_lt. apply _. Defined.

Definition select_desc (bound : gostring) (es : list DomainEntry) : list DomainEntry :=
  clone_entry <$> filter (bounded bound) (reverse es).

Lemma bound_guard bound k :
  bool_decide (bound ≠ []) && negb (k <? bound)%bytes = true ↔ bound ≠ [] ∧ bytes_le bound k.
Proof.
  rewrite andb_true_iff, bool_decide_eq_true, negb_true_iff, <-not_true_iff_false, bytes_ltb_lt, <-bytes_le_nlt. done.
Qed.

Lemma select_desc_none bound es :
  bound ≠ [] → (∀ e, e ∈ es → bytes_le bound (Entry_Key e)) → select_desc bound es = [].
Proof.
  intros Hne Hge. unfold select_desc.
  assert (∀ e, e ∈ reverse es → ¬ bounded bound e) as Hn.
  { intros e He [?|Hlt]; [done|]. rewrite elem_of_reverse in He. apply (proj1 (bytes_lt_nge _ _) Hlt). by apply Hge. }
  revert Hn. generalize (reverse es). intros l Hn. induction l as [|e l IH]; [done|].
  rewrite filter_cons_False by (apply Hn; by left).
  apply IH. intros e' He'. apply Hn. by right.
Qed.

Lemma select_desc_concat bound ess : select_desc bound (concat ess) = concat (select_desc bound <$> reverse ess).
Proof.
  unfold select_desc. induction ess as [|es ess IH]; [done|]. cbn [concat].
  rewrite reverse_app, list.filter_app, fmap_app, IH, reverse_cons, fmap_app, concat_app. cbn. by rewrite app_nil_r.
Qed.

Lemma ordered_leaf_correct bound n result l :
  (length result < n)%nat →
  ordered_leaf bound (Z.of_nat n) result l = take n (result ++ (clone_entry <$> filter (bounded bound) l)).
Proof.
  revert result. induction l as [|e l IH]; intros result Hlen; cbn [ordered_leaf].
  { cbn. by rewrite app_nil_r, take_ge by lia. }
  destruct (bool_decide (bound ≠ []) && negb (Entry_Key e <? bound)%bytes) eqn:Eg.
  - apply bound_guard in Eg as [Hne Hle]. rewrite filter_cons_False; [by apply IH|].
    intros [?|Hlt]; [done|]. by apply (proj1 (bytes_lt_nge _ _) Hlt).
  - assert (bounded bound e) as Hb.
    { destruct (decide (bound = [])) as [|Hne]; [by left|right]. apply bytes_lt_nge. intros Hle.
      by rewrite (proj2 (bound_guard _ _)) in Eg. }
    rewrite filter_cons_True by done. cbn [fmap list_fmap].
    change (clone_entry e :: (clone_entry <$> filter (bounded bound) l)) with
      ([clone_entry e] ++ (clone_entry <$> filter (bounded bound) l)). rewrite (assoc_L (++)).
    destruct (Z.eqb_spec (len (result ++ [clone_entry e])) (Z.of_nat n)) as [En|En]; unfold len in En.
    + by rewrite take_full by lia.
    + apply IH. rewrite length_app in *. cbn in *. lia.
Qed.

Lemma ordered_children_correct bound n l level visit st cs ess result :
  visit_spec l n (select_desc bound) visit →
  ps_inv st → Forall (child_ok level) cs →
  Forall2 (λ c es, represents l st (child_ref c) es) cs ess → (length result ≤ n)%nat →
  yields st (ordered_children bound (Z.of_nat n) visit result cs) (take n (result ++ concat (select_desc bound <$> ess))).
Proof.
  intros [Hgv Hvisit]. revert st ess result. induction cs as [|c cs IH]; intros st ess result Hi Hok Hess Hlen;
    inversion Hess as [|? es ? ess' Hes Hess']; subst; cbn [ordered_children].
  { cbn. rewrite app_nil_r, take_ge by lia. by apply yields_ret. }
  apply list.Forall_cons in Hok as [Hc Hok]. cbn [fmap list_fmap concat].
  destruct (bool_decide (bound ≠ []) && negb (Child_FirstKey c <? bound)%bytes) eqn:Eg.
  { apply bound_guard in Eg as [Hne Hle]. rewrite select_desc_none; [by apply IH|done|]. intros e He.
    pose proof (represents_describes _ _ _ _ Hi Hes) as Hd. etrans; [exact Hle|].
    destruct (describes_child _ _ _ _ Hc Hd) as (_ & <- & _). apply sorted_bounds; [apply Hd|done]. }
  eapply yields_bind; [apply Hvisit; [done|by apply represents_unfiltered|done]|grow|]. intros st1 Hg.
  rewrite <-take_take_app.
  set (result' := take n (result ++ select_desc bound es)).
  assert (length result' ≤ n)%nat by (subst result'; rewrite length_take; lia).
  destruct (Z.eqb_spec (len result') (Z.of_nat n)) as [En|En]; unfold len in En.
  { rewrite take_full by lia. by apply yields_ret, Hg. }
  apply IH; [apply Hg|done|by eapply represents_step|done].
Qed.

Lemma ordered_guard bound n l r es result :
  describes l r es → (length result ≤ n)%nat →
  (Z.of_nat n <=? len result) || (bool_decide (bound ≠ []) && bool_decide (ref_firstKey r ≠ [])
     && negb (ref_firstKey r <? bound)%bytes) = true →
  take n (result ++ select_desc bound es) = result.
Proof.
  intros Hd Hlen [Hge|[[Hne Hfirst]%andb_true_iff Hle]%andb_true_iff]%orb_true_iff.
  - apply Z.leb_le in Hge. unfold len in Hge. by rewrite take_full by lia.
  - apply bool_decide_eq_true in Hfirst.
    destruct (proj1 (bound_guard bound (ref_firstKey r))) as [Hb Hle']; [by rewrite Hne, Hle|].
    rewrite select_desc_none; [by rewrite app_nil_r, take_ge by lia|done|]. intros e He. etrans; [exact Hle'|].
    destruct (ds_first _ _ _ Hd) as [?|<-]; [done|]. apply sorted_bounds; [apply Hd|done].
Qed.

Lemma ordered_visit_correct bound n l : ∀ fuel, (l < fuel)%nat → ∀ st r es result,
  ps_inv st → represents l st r es → (length result ≤ n)%nat →
  yields st (ordered_visit fuel bound (Z.of_nat n) r result) (take n (result ++ select_desc bound es)).
Proof.
  induction l as [|l IH]; intros fuel Hf st r es result Hi Hrep Hlen; (destruct fuel as [|fuel]; [lia|]);
    cbn [ordered_visit]; pose proof (represents_describes _ _ _ _ Hi Hrep) as Hd;
    (destruct ((Z.of_nat n <=? len result) || _) eqn:Eguard;
     [rewrite (ordered_guard _ _ _ _ _ _ Hd Hlen Eguard); by apply yields_ret|]);
    apply orb_false_iff in Eguard as [Eguard%Z.leb_gt _]; unfold len in Eguard.
  - destruct Hrep as (p & Hp & Hl & ->). eapply yields_bind; [by apply readPage_exact|grow|]. intros st1 Hg.
    rewrite Hl. cbn [Z.eqb]. rewrite ordered_leaf_correct by lia. by apply yields_ret, Hg.
  - destruct Hrep as (p & ess & Hp & Hl & Hess & ->).
    destruct (branch_below _ _ _ _ _ Hi (refers_readable _ _ _ Hp) Hl Hess) as [[Hok _] Hne].
    eapply yields_bind; [by apply readPage_exact|grow|]. intros st1 Hg.
    rewrite (proj2 (Z.eqb_neq _ _)) by lia. rewrite select_desc_concat.
    apply (ordered_children_correct _ _ l (Page_Level p));
      [|apply Hg|by apply Forall_reverse|by apply Forall2_reverse; eapply represents_step|done].
    split; [grow|]. intros. by apply IH; [lia|..].
Qed.

(** ** The operations on a root *)

Lemma holds_level st root es l :
  ps_inv st → represents l st (root_ref root) es → (l < tree_fuel root)%nat ∧ Root_EntryCount root = len es.
Proof.
  intros Hi Hr. destruct (represents_describes _ _ _ _ Hi Hr) as [_ _ El Ec _ _ _ _]. cbn in El, Ec.
  unfold tree_fuel. rewrite El. split; [lia|done].
Qed.

Lemma growing_collect root prefix after limit : growing (collect root prefix after limit).
Proof. unfold collect. grow. Qed.

Lemma growing_lookup root key : growing (lookup root key).
Proof. unfold lookup. grow. Qed.

Lemma collect_ok st root es prefix after n :
  ps_inv st → holds st root es → (0 < n)%nat →
  yields st (collect root prefix after (Z.of_nat n)) (take n (select prefix after es)).
Proof.
  intros Hi [[Hd ->]|[Hd [l Hr]]] Hpos; unfold collect; rewrite (proj2 (Z.leb_gt (Z.of_nat n) 0)) by lia.
  - rewrite bool_decide_eq_true_2 by done. unfold select. rewrite filter_nil. cbn [fmap list_fmap]. rewrite take_nil.
    by apply yields_ret.
  - rewrite bool_decide_eq_false_2 by done. cbn [orb]. destruct (holds_level _ _ _ _ Hi Hr) as [Hf _].
    apply (collect_visit_correct prefix after n l _ Hf st _ _ [] Hi Hr). cbn. lia.
Qed.

Lemma lookup_ok st root es key :
  ps_inv st → holds st root es → yields st (lookup root key) (value_of <$> entries_map es !! key).
Proof.
  intros Hi [[Hd ->]|[Hd [l Hr]]]; unfold lookup.
  - rewrite bool_decide_eq_true_2 by done. by apply yields_ret.
  - rewrite bool_decide_eq_false_2 by done. destruct (holds_level _ _ _ _ Hi Hr) as [Hf _].
    by apply (lookup_loop_correct l).
Qed.

(** On a well-formed session, looking a key up in a tree terminates within
    the fuel of the root's level and answers exactly what the tree's entries
    hold under the key (a missing key is [None]), unless the provider fails;
    nothing readable changes, and pages others add meanwhile do not matter. *)
Theorem lookup_correct (st st' : St) (root : DomainTreeRoot) (es : list DomainEntry) (key : gostring)
    (x : res (option consistencyDomainValue)) :
  ps_inv st → holds st root es → lookup root key st = (x, st') → no_collision st' →
  grows st st' ∧ answered x (value_of <$> entries_map es !! key).
Proof. intros Hi Hh E Hn. destruct (lookup_ok _ _ _ key Hi Hh _ _ E). auto. Qed.

(** [collect] returns, in key order, the first [limit] entries whose key
    has the prefix and lies strictly after [after], unless the provider fails. *)
Theorem collect_correct (st st' : St) (root : DomainTreeRoot) (es : list DomainEntry) (prefix after : gostring) (n : nat)
    (x : res (list DomainEntry)) :
  ps_inv st → holds st root es → (0 < n)%nat → collect root prefix after (Z.of_nat n) st = (x, st') → no_collision st' →
  grows st st' ∧ answered x (take n (select prefix after es)).
Proof. intros Hi Hh Hpos E Hn. destruct (collect_ok _ _ _ prefix after n Hi Hh Hpos _ _ E). auto. Qed.

(** Descending collection returns the last [limit] entries below the bound
    (all entries when the bound is empty), in descending key order, unless the
    provider fails. *)
Theorem collectOrdered_descending (st st' : St) (root : DomainTreeRoot) (es : list DomainEntry) (bound : gostring) (n : nat)
    (x : res (list DomainEntry)) :
  ps_inv st → holds st root es → (0 < n)%nat → collectOrdered root bound (Z.of_nat n) true st = (x, st') → no_collision st' →
  grows st st' ∧ answered x (take n (select_desc bound es)).
Proof.
  intros Hi Hh Hpos E Hn. assert (yields st (collectOrdered root bound (Z.of_nat n) true) (take n (select_desc bound es))) as Hy.
  { clear E Hn. destruct Hh as [[Hd ->]|[Hd [l Hr]]]; unfold collectOrdered; cbn [negb];
      rewrite (proj2 (Z.leb_gt (Z.of_nat n) 0)) by lia.
    - rewrite bool_decide_eq_true_2 by done. change (select_desc bound []) with (@nil DomainEntry). rewrite take_nil.
      by apply yields_ret.
    - rewrite bool_decide_eq_false_2 by done. cbn [orb]. destruct (holds_level _ _ _ _ Hi Hr) as [Hf _].
      apply (ordered_visit_correct bound n l _ Hf st _ _ [] Hi Hr). cbn. lia. }
  destruct (Hy _ _ E). auto.
Qed.
End Reading.
End TreeRead.
