(* ===== verification/TreeGroups.v ===== *)
(** * Cutting items into pages

    [canonicalDomainPagePrefix] grows an encoded size instead of re-encoding
    growing pages.  It finds exactly the longest prefix whose page encodes, and
    [leafGroups] therefore cuts the entries into pages that all encode, fails
    only when a single entry cannot fit, and always terminates. *)

From Stdlib Require Import ZArith Lia.
From S2P Require Import Prelude GoLib GoHash GoJSON Errors DomainPage DomainPageTheory DomainTree.

Open Scope Z_scope.

Module TreeGroups.
Import StorageFormat PageTheory DomainTree.

(** ** The running size *)

(** Commas and members after the first. *)
Definition members_size (members : list gostring) : Z := foldr (λ m z, 1 + len m + z) 0 members.

Lemma members_size_nonneg ms : 0 ≤ members_size ms.
Proof. unfold members_size. induction ms as [|m ms IH]; cbn; [lia|]. pose proof (len_nonneg m). lia. Qed.

Lemma prefix_loop_spec size index members :
  size ≤ MaxCanonicalBytes → 0 ≤ size → Forall (λ m, 1 ≤ len m) members →
  (index ≤ prefix_loop size index members ≤ index + length members)%nat ∧
  ∀ k, (k ≤ length members)%nat →
    (index + k ≤ prefix_loop size index members)%nat ↔ size + members_size (take k members) ≤ MaxCanonicalBytes.
Proof.
  intros Hle Hpos Hm. revert size index Hle Hpos. induction Hm as [|m ms Hlen Hm IH]; intros size index Hle Hpos; cbn [prefix_loop].
  { cbn. split; [lia|]. intros [|k] ?; [cbn|lia]. lia. }
  assert (∀ k, k ≠ 0%nat → size + members_size (take k (m :: ms)) = size + 1 + len m + members_size (take (k - 1) ms)) as Hk.
  { intros [|k] ?; [done|]. cbn. rewrite Nat.sub_0_r. unfold members_size. lia. }
  assert (∀ k, k ≠ 0%nat → MaxCanonicalBytes < size + 1 + len m → ¬ size + members_size (take k (m :: ms)) ≤ MaxCanonicalBytes) as Hbig.
  { intros k Hk0 ?. rewrite Hk by done. pose proof (members_size_nonneg (take (k - 1) ms)). lia. }
  destruct (EncodeCanonical m) as [b|e] eqn:Em.
  - apply EncodeCanonical_Ok in Em as [-> _].
    destruct (Z.ltb_spec MaxCanonicalBytes (size + 1 + len m)) as [Hgt|Hfit].
    + split; [cbn; lia|]. intros k Hkl. destruct (decide (k = 0%nat)) as [->|Hk0]; [cbn; lia|].
      split; [lia|]. intros ?. by destruct (Hbig k).
    + destruct (IH (size + 1 + len m) (S index)) as [H1 H2]; [done|lia|]. split; [cbn; lia|].
      intros k Hkl. destruct (decide (k = 0%nat)) as [->|Hk0]; [cbn; lia|]. cbn in Hkl.
      rewrite Hk by done. rewrite <-H2 by lia. lia.
  - assert (MaxCanonicalBytes < len m).
    { destruct (Z_le_gt_dec (len m) MaxCanonicalBytes); [|lia].
      by rewrite (proj2 (EncodeCanonical_Ok m m)) in Em. }
    split; [cbn; lia|]. intros k Hkl. destruct (decide (k = 0%nat)) as [->|Hk0]; [cbn; lia|].
    split; [lia|]. intros ?. destruct (Hbig k); [done|lia|done].
Qed.

(** ** Pages as one array in a fixed frame *)

Lemma join_size x xs : len (join "," (x :: xs)) = len x + members_size xs.
Proof.
  revert x. induction xs as [|y xs IH]; intros x; [unfold members_size; cbn; lia|].
  rewrite join_cons by done. rewrite !len_app, IH. change (members_size (y :: xs)) with (1 + len y + members_size xs).
  change (len ",") with 1. lia.
Qed.

Section Prefix.
Context {T : Type} (enc : T → gostring) (mk : list T → DomainPage) (pre post : gostring).
Hypothesis enc_nonempty : ∀ x, 1 ≤ len (enc x).
Hypothesis mk_frame : ∀ xs, xs ≠ [] → json_page (mk xs) = pre ++ join "," (map enc xs) ++ post.

Lemma frame_size x xs :
  len (json_page (mk (x :: xs))) = len (json_page (mk [x])) + members_size (map enc xs).
Proof.
  rewrite !mk_frame by done. rewrite !len_app. cbn [map]. rewrite !join_size. change (members_size []) with 0. lia.
Qed.

Definition fits (xs : list T) : Prop := is_Ok (EncodeCanonical (json_page (mk xs))) = true.

Lemma fits_size xs : xs ≠ [] → fits xs ↔ len (json_page (mk xs)) ≤ MaxCanonicalBytes.
Proof.
  intros Hne. unfold fits. assert (1 ≤ len (json_page (mk xs))) as Hpos.
  { rewrite mk_frame by done. rewrite !len_app. destruct xs as [|x xs]; [done|]. cbn [map]. rewrite join_size.
    pose proof (enc_nonempty x). pose proof (len_nonneg pre). pose proof (len_nonneg post).
    pose proof (members_size_nonneg (map enc xs)). lia. }
  destruct (EncodeCanonical (json_page (mk xs))) eqn:E.
  - apply EncodeCanonical_Ok in E as [_ [_ Hle]]. by split.
  - split; [done|]. intros Hle. by rewrite (proj2 (EncodeCanonical_Ok _ _) (conj eq_refl (conj Hpos Hle))) in E.
Qed.

Lemma prefix_maximal items :
  items ≠ [] →
  let count := canonicalDomainPagePrefix enc items (λ c, mk (take c items)) in
  (count ≤ length items)%nat ∧
  ∀ c, (1 ≤ c ≤ length items)%nat → fits (take c items) ↔ (c ≤ count)%nat.
Proof.
  intros Hne. destruct items as [|x xs]; [done|]. cbn zeta. unfold canonicalDomainPagePrefix.
  assert (∀ c, (1 ≤ c)%nat → take c (x :: xs) = x :: take (c - 1) xs) as Htake.
  { intros [|c] ?; [lia|]. cbn. by rewrite Nat.sub_0_r. }
  rewrite (Htake 1%nat) by lia. change (1 - 1)%nat with 0%nat. rewrite take_0.
  change (drop 1 (x :: xs)) with xs.
  assert (Forall (λ m, 1 ≤ len m) (map enc xs)) as Hms.
  { apply Forall_map, list.Forall_forall. intros y _. apply enc_nonempty. }
  destruct (EncodeCanonical (json_page (mk [x]))) as [body|] eqn:E1.
  - apply EncodeCanonical_Ok in E1 as [-> E1].
    destruct (prefix_loop_spec (len (json_page (mk [x]))) 1 (map enc xs)) as [H1 H2]; [lia|lia|done|].
    rewrite length_map in *. split; [cbn [length]; lia|]. intros c Hc. rewrite Htake by lia. rewrite fits_size by done.
    rewrite frame_size, <-firstn_map. cbn [length] in Hc. rewrite <-H2 by lia. lia.
  - split; [lia|]. intros c Hc. rewrite Htake by lia. rewrite fits_size by done. rewrite frame_size.
    pose proof (members_size_nonneg (map enc (take (c - 1) xs))).
    split; [|lia]. intros ?. assert (fits [x]) as Hf by (apply fits_size; [done|lia]).
    unfold fits in Hf. by rewrite E1 in Hf.
Qed.
End Prefix.

(** ** Leaf and branch pages *)

Lemma json_object_len_pos fields : 1 ≤ len (json_object fields).
Proof.
  unfold json_object. rewrite !len_app. change (len "{") with 1. change (len "}") with 1.
  pose proof (len_nonneg (join "," fields)). lia.
Qed.

Section Frames.
Context {St : Type} `{!PageStore St}.

Lemma leaf_frame :
  ∃ pre post, ∀ es, es ≠ [] → json_page (leaf_page es) = pre ++ join "," (map json_entry es) ++ post.
Proof.
  exists ("{" ++ join "," (page_header (leaf_page [])) ++ "," ++ json_quote "entries" ++ ":" ++ "["), ("]" ++ "}").
  intros es Hne. unfold json_page. cbn [Page_Entries Page_Children leaf_page]. rewrite bool_decide_eq_true_2 by done.
  rewrite bool_decide_eq_false_2 by (intros Hn; by apply Hn). unfold json_omit. rewrite app_nil_r.
  unfold json_object. rewrite join_snoc by done. unfold json_field at 1, json_array. by rewrite <-!(assoc_L (++)).
Qed.

Lemma branch_frame level :
  ∃ pre post, ∀ cs, cs ≠ [] → json_page (branch_page level cs) = pre ++ join "," (map json_child cs) ++ post.
Proof.
  exists ("{" ++ join "," (page_header (branch_page level [])) ++ "," ++ json_quote "children" ++ ":" ++ "["), ("]" ++ "}").
  intros cs Hne. unfold json_page. cbn [Page_Entries Page_Children branch_page]. rewrite (bool_decide_eq_true_2 (cs ≠ [])) by done.
  rewrite bool_decide_eq_false_2 by (intros Hn; by apply Hn). unfold json_omit at 1. cbn [app]. unfold json_omit.
  unfold json_object. rewrite join_snoc by done. unfold json_field at 1, json_array. by rewrite <-!(assoc_L (++)).
Qed.

Definition leaf_fits : list DomainEntry → Prop := fits leaf_page.
Definition branch_fits (level : Z) : list DomainPageChild → Prop := fits (branch_page level).

Lemma leaf_prefix entries items :
  items ≠ [] → take 1 entries = take 1 items →
  let count := canonicalDomainPagePrefix json_entry items (λ c, leaf_page (take c entries)) in
  (count ≤ length items)%nat ∧
  ∀ c, (1 ≤ c ≤ length items)%nat → leaf_fits (take c items) ↔ (c ≤ count)%nat.
Proof.
  intros Hne H1. destruct leaf_frame as (pre & post & Hf).
  pose proof (prefix_maximal json_entry leaf_page pre post (λ e, json_object_len_pos _) Hf items Hne) as Hp.
  unfold canonicalDomainPagePrefix in *. by rewrite H1.
Qed.

Lemma branch_prefix level items :
  items ≠ [] →
  let count := canonicalDomainPagePrefix json_child items (λ c, branch_page level (take c items)) in
  (count ≤ length items)%nat ∧
  ∀ c, (1 ≤ c ≤ length items)%nat → branch_fits level (take c items) ↔ (c ≤ count)%nat.
Proof.
  intros Hne. destruct (branch_frame level) as (pre & post & Hf).
  exact (prefix_maximal json_child (branch_page level) pre post (λ e, json_object_len_pos _) Hf items Hne).
Qed.

(** ** Leaf groups *)

(** A group that could not have taken the next entry. *)
Fixpoint greedy (groups : list (list DomainEntry)) : Prop :=
  match groups with
  | g :: ((e :: _) :: _) as rest => (length g = domainPageMaximumItems ∨ ¬ leaf_fits (g ++ [e])) ∧ greedy rest
  | _ => True
  end.

(** A page that can hold one entry, of at most the item limit, and encodes. *)
Definition leaf_group (g : list DomainEntry) : Prop :=
  g ≠ [] ∧ (length g ≤ domainPageMaximumItems)%nat ∧ leaf_fits g.

Definition cannot_fit : error := NewError ErrorInvalid "consistency-domain entry cannot fit in a canonical page".

(** What the loop makes of the entries that are left. *)
Definition groups_spec (entries : list DomainEntry) (result : res (list (list DomainEntry))) : Prop :=
  match result with
  | Ok groups => concat groups = entries ∧ Forall leaf_group groups ∧ greedy groups
  | Err e => e = cannot_fit ∧ ∃ entry, entry ∈ entries ∧ ¬ leaf_fits [entry]
  end.

Lemma greedy_cons g groups rest :
  concat groups = rest → Forall leaf_group groups → greedy groups →
  (∀ e, head rest = Some e → length g = domainPageMaximumItems ∨ ¬ leaf_fits (g ++ [e])) → greedy (g :: groups).
Proof.
  intros Hc Hg Hgr Hhead. destruct groups as [|[|e g'] groups]; [done| |].
  - apply list.Forall_cons in Hg as [[? _] _]. done.
  - split; [|done]. apply Hhead. by rewrite <-Hc.
Qed.

Lemma leaf_groups_loop_spec fuel entries :
  (length entries ≤ fuel)%nat → groups_spec entries (leaf_groups_loop fuel entries).
Proof.
  revert entries. induction fuel as [|fuel IH]; intros entries Hf.
  { destruct entries; [|cbn in Hf; lia]. cbn. split; [done|]. split; constructor. }
  destruct entries as [|e entries]; [cbn; split; [done|]; split; constructor|].
  set (all := e :: entries) in *. cbn [leaf_groups_loop]. fold all.
  set (items := take domainPageMaximumItems all).
  assert (items ≠ []) as Hne by (by subst items all).
  destruct (leaf_prefix all items Hne) as [Hle Hmax]; [by subst items all|]. cbn zeta in *.
  set (count := canonicalDomainPagePrefix _ _ _) in *.
  assert (length items = min domainPageMaximumItems (length all)) as Hlen by (subst items; by rewrite length_take).
  assert (1 ≤ length items)%nat as H1 by (subst items all; cbn; lia).
  assert (∀ c, (c ≤ length items)%nat → take c items = take c all) as Htake.
  { intros c Hc. subst items. rewrite take_take. f_equal. lia. }
  destruct (Nat.eqb_spec count 0) as [E0|E0]; cbn [guard_err mbind result_bind].
  { split; [done|]. exists e. split; [by left|]. intros Hfit. apply (Hmax 1%nat) in Hfit; lia. }
  specialize (IH (drop count all)). rewrite length_drop in IH. specialize (IH ltac:(lia)).
  assert (leaf_group (take count all)) as Hg.
  { rewrite <-Htake by done. split.
    - intros Hn%(f_equal length). rewrite length_take in Hn. cbn in Hn. lia.
    - rewrite length_take. split; [lia|]. apply Hmax; lia. }
  destruct (leaf_groups_loop fuel (drop count all)) as [groups|err]; cbn [result_bind groups_spec] in *.
  - destruct IH as (Hc & Hgs & Hgr). split; [cbn [concat]; by rewrite Hc, take_drop|]. split; [by constructor|].
    eapply greedy_cons; [exact Hc|done|done|]. intros e' He'.
    destruct (decide (count = domainPageMaximumItems)) as [->|Hn]; [left; rewrite length_take; lia|right].
    intros Hfit. assert (all !! count = Some e') as Hlook.
    { rewrite head_lookup, lookup_drop, Nat.add_0_r in He'. done. }
    pose proof (lookup_lt_Some _ _ _ Hlook). rewrite <-(take_S_r _ _ _ Hlook) in Hfit.
    rewrite <-Htake in Hfit by lia. apply (Hmax (S count)) in Hfit; lia.
  - destruct IH as (-> & x & Hx & Hnf). split; [done|]. exists x. split; [|done].
    rewrite <-(take_drop count all). apply elem_of_app. by right.
Qed.

(** C39: [leafGroups] always terminates; it cuts the entries, in order, into
    nonempty pages of at most 256 entries that all encode within the canonical
    limit, each page taking as many entries as it can, and fails only because
    some single entry exceeds a canonical page. *)
Theorem leafGroups_correct (entries : list DomainEntry) : groups_spec entries (leafGroups entries).
Proof. by apply leaf_groups_loop_spec. Qed.

(** The incremental size of [canonicalDomainPagePrefix] is exact: for leaf
    and branch pages alike, a prefix of the items encodes as a canonical page
    if and only if it is no longer than the computed count. *)
Theorem page_prefix_exact (level : Z) (entries : list DomainEntry) (children : list DomainPageChild) (c : nat) :
  (1 ≤ c →
   (c ≤ length entries →
     is_Ok (EncodeCanonical (json_page (leaf_page (take c entries)))) = true ↔
     c ≤ canonicalDomainPagePrefix json_entry entries (λ c, leaf_page (take c entries))) ∧
   (c ≤ length children →
     is_Ok (EncodeCanonical (json_page (branch_page level (take c children)))) = true ↔
     c ≤ canonicalDomainPagePrefix json_child children (λ c, branch_page level (take c children))))%nat.
Proof.
  intros H1. split; intros Hc.
  - destruct (leaf_prefix entries entries) as [_ Hm]; [by destruct entries; cbn in Hc; [lia|]|done|]. by apply Hm.
  - destruct (branch_prefix level children) as [_ Hm]; [by destruct children; cbn in Hc; [lia|]|]. by apply Hm.
Qed.
End Frames.
End TreeGroups.
