(* ===== verification/TreeWrite.v ===== *)
(** * Editing a page tree

    Applying changes writes new pages and leaves every old page readable.  The
    new root holds the old entries with the changes applied: entries under a
    changed key are gone, written changes are present, all else is kept. *)

From Stdlib Require Import ZArith Lia Sorting.
From S2P Require Import Prelude GoLib GoHash GoJSON Errors DomainPage DomainPageTheory DomainTree TreeTheory TreeRead TreeGroups.

Open Scope Z_scope.

Module TreeWrite.
Import StorageFormat PageTheory DomainTree TreeTheory TreeRead TreeGroups.

Lemma Forall2_concat_inv {A B} (R : A → B → Prop) xss ys :
  Forall2 R (concat xss) ys → ∃ yss, ys = concat yss ∧ Forall2 (Forall2 R) xss yss.
Proof.
  revert ys. induction xss as [|xs xss IH]; intros ys HR; cbn in HR.
  - inversion HR; subst. exists []. by split; [|constructor].
  - apply Forall2_app_inv_l in HR as (ys1 & ys2 & H1 & H2 & ->). destruct (IH _ H2) as (yss & -> & Hyss).
    exists (ys1 :: yss). by split; [|constructor].
Qed.

Section Writing.
Context `{SHA256} {St : Type} `{!PageStore St, !PageView St, !PageStoreLaws St}.

(** ** Writing a batch of pages *)

(** The counts and the level fit their Go types. *)
Definition typed_ref (r : domainPageRef) : Prop :=
  count_typed (Root_EntryCount (ref_root r)) ∧ count_typed (Root_ByteCount (ref_root r)).

Definition session_page (p : DomainPage) : Prop :=
  page_typed p ∧ Page_DomainID p = session_id ∧ Page_Kind p = session_kind.

Lemma children_totals_nonneg cs : Forall child_typed cs → 0 ≤ children_entries cs ∧ 0 ≤ children_bytes cs.
Proof.
  unfold children_entries, children_bytes, child_typed, count_typed. induction 1 as [|c cs [??] _ [??]]; cbn; lia.
Qed.

(** A page that encodes has few entries. *)
Lemma page_entries_bound p d : page_ok p d → len (Page_Entries p) ≤ MaxUint64.
Proof.
  intros Hok. pose proof (po_body _ _ Hok) as [_ [_ Hle]]%EncodeCanonical_Ok.
  pose proof (join_length_ge json_entry (Page_Entries p) (λ e, ltac:(done))) as Hj.
  assert (len (join "," (map json_entry (Page_Entries p))) ≤ len (json_page p) ∨ Page_Entries p = []) as [Hlen| ->]; [|unfold len, MaxUint64 in *; change MaxCanonicalBytes with 1048576 in Hle; lia|done].
  destruct (decide (Page_Entries p = [])) as [|Hne]; [by right|left]. unfold json_page.
  rewrite (bool_decide_eq_true_2 (Page_Entries p ≠ [])) by done. unfold json_object. cbn [json_omit].
  rewrite (join_app _ (page_header p)) by done. cbn [app]. rewrite !len_app.
  set (rest := json_omit _ (json_field "children" _)).
  assert (len (json_array (map json_entry (Page_Entries p))) ≤ len (join "," (json_field "entries" (json_array (map json_entry (Page_Entries p))) :: rest))) as Hf.
  { rewrite join_size. unfold json_field. rewrite !len_app.
    pose proof (members_size_nonneg rest). pose proof (len_nonneg (json_quote "entries")).
    pose proof (len_nonneg (bs ":")). lia. }
  unfold json_array in Hf at 1. rewrite !len_app in Hf.
  pose proof (len_nonneg (bs "[")). pose proof (len_nonneg (bs "]")). pose proof (len_nonneg (bs "{")).
  pose proof (len_nonneg (bs "}")). pose proof (len_nonneg (bs ",")). pose proof (len_nonneg (join "," (page_header p))). lia.
Qed.

Lemma descriptor_typed p d k r :
  page_ok p d → page_typed p → consistencyDomainPageDescriptor p d k = Ok r → typed_ref r.
Proof.
  intros Hok [_ Ht]. unfold consistencyDomainPageDescriptor. destruct (Page_Level p =? 0).
  - intros E. inv_go. injection E as <-.
    match goal with Hs : sum_values _ _ = _ |- _ => apply sum_values_Ok in Hs as [-> ?]; [|unfold MaxUint64; lia] end.
    split; cbn [ref_root Root_EntryCount Root_ByteCount].
    + split; [apply len_nonneg|by eapply page_entries_bound].
    + pose proof (values_total_nonneg (Page_Entries p)). split; lia.
  - destruct (Page_Children p) as [|c cs] eqn:Ec; [done|]. destruct (last (c :: cs)); [|done].
    intros E. inv_go. destruct x as [n b]. injection E as <-. pose proof (children_totals_nonneg _ Ht).
    match goal with Hs : sum_children _ _ _ = _ |- _ =>
      apply sum_children_Ok in Hs as (-> & -> & ? & ?); [|unfold MaxUint64; lia..|done] end.
    split; split; cbn [ref_root Root_EntryCount Root_ByteCount]; lia.
Qed.

Lemma writePage_spec st p x st' :
  ps_inv st → session_page p → writePage p st = (x, st') →
  grows st st' ∧ ∀ r, x = Ok r → refers st' r p ∧ typed_ref r.
Proof.
  intros Hi (Ht & Hid & Hk) E. destruct (writePage_sound _ _ _ _ Hi Ht Hid Hk E) as [Hg Hr].
  split; [done|]. intros r ->. destruct (Hr r eq_refl) as [Hres Hd].
  destruct (resolve_ok _ _ _ _ (proj1 Hg) Hres) as [Hok _]. split; [|by eapply descriptor_typed].
  split; [done|]. apply verify_Ok. exists r. split; [done|]. auto.
Qed.

Lemma write_each_spec st pages x st' :
  ps_inv st → Forall session_page pages → write_each pages st = (x, st') →
  grows st st' ∧ ∀ refs, x = Ok refs → Forall2 (refers st') refs pages ∧ Forall typed_ref refs.
Proof.
  intros Hi Hp. revert st x st' Hi. induction Hp as [|p pages Hp _ IH]; intros st x st' Hi E; cbn [write_each] in E.
  { injection E as <- <-. split; [by apply grows_refl|]. intros refs [= <-]. split; constructor. }
  apply gom_bind_inv in E as (y & st1 & E1 & E). destruct (writePage_spec _ _ _ _ Hi Hp E1) as [Hg1 Hr1].
  destruct y as [r|e]; [|destruct E as [-> ->]; done].
  apply gom_bind_inv in E as (z & st2 & E2 & E). destruct (IH _ _ _ (proj1 Hg1) E2) as [Hg2 Hr2].
  destruct (Hr1 r eq_refl) as [Href Hty].
  destruct z as [refs|e]; [|destruct E as [-> ->]; split; [by eapply grows_trans|done]].
  injection E as <- <-. split; [by eapply grows_trans|]. intros ? [= <-]. destruct (Hr2 refs eq_refl) as [H1 H2].
  split; constructor; [|done..]. eapply refers_extends; [apply Hg2|done].
Qed.

Lemma writePages_spec st pages x st' :
  ps_inv st → Forall session_page pages → writePages pages st = (x, st') →
  grows st st' ∧ ∀ refs, x = Ok refs → Forall2 (refers st') refs pages ∧ Forall typed_ref refs.
Proof.
  intros Hi Hp E. destruct pages as [|p [|p' pages]].
  - injection E as <- <-. split; [by apply grows_refl|]. intros ? [= <-]. split; constructor.
  - apply (write_each_spec st [p]); [done|done|]. cbn [writePages write_each] in *. unfold mbind, gom_bind in *.
    destruct (writePage p st) as [[r|e] st1]; done.
  - unfold writePages in E. apply gom_bind_inv in E as (ds & st1 & E1 & E). apply lift_inv in E1 as [-> ->].
    destruct (page_digests _) as [ds|e]; [|destruct E as [-> ->]; by split; [apply grows_refl|]].
    apply gom_bind_inv in E as (k & st1 & E1 & E). pose proof (ensurePackID_sound _ _ _ _ Hi E1) as Hg1.
    destruct k as [k|e]; [|by destruct E as [-> ->]].
    destruct (write_each_spec _ _ _ _ (proj1 Hg1) Hp E) as [Hg2 Hr]. split; [by eapply grows_trans|done].
Qed.

(** ** Leaves *)

Lemma leaf_session_page es : session_page (leaf_page es).
Proof. split; [|done]. split; [done|constructor]. Qed.

Lemma writeLeafGroups_spec st es x st' :
  ps_inv st → writeLeafGroups es st = (x, st') →
  grows st st' ∧ ∀ refs, x = Ok refs → Forall typed_ref refs ∧ (es ≠ [] → refs ≠ []) ∧
    ∃ ess, concat ess = es ∧ Forall2 (represents 0 st') refs ess.
Proof.
  intros Hi E. unfold writeLeafGroups in E. case_bool_decide as Hes.
  { injection E as <- <-. split; [by apply grows_refl|]. intros ? [= <-]. split; [constructor|]. split; [done|].
    exists []. subst. by split; [|constructor]. }
  apply gom_bind_inv in E as (gs & st1 & E1 & E). apply lift_inv in E1 as [-> ->].
  pose proof (leaf_groups_loop_spec (length es) es (Nat.le_refl _)) as Hgs. fold (leafGroups es) in Hgs.
  destruct (leafGroups es) as [gs|e]; [|destruct E as [-> ->]; by split; [apply grows_refl|]].
  destruct Hgs as (Hc & Hg & _).
  destruct (writePages_spec _ _ _ _ Hi ltac:(apply Forall_map, list.Forall_forall; intros; apply leaf_session_page) E) as [Hgr Hr].
  split; [done|]. intros refs ->. destruct (Hr refs eq_refl) as [Hrefs Hty]. split; [done|]. split.
  { intros _ ->. inversion Hrefs as [Hnil|]; subst. destruct gs; [by cbn in Hes|done]. }
  exists gs. split; [done|]. clear -Hrefs. revert refs Hrefs.
  induction gs as [|g gs IH]; intros refs Hrefs; inversion Hrefs as [|r ? refs' ? Hr Hrefs']; subst; constructor; [|by apply IH].
  by exists (leaf_page g).
Qed.

(** ** Branches *)

(** What is below a page itself. *)
Definition page_holds (l : nat) (st : St) (p : DomainPage) (es : list DomainEntry) : Prop :=
  match l with
  | O => Page_Level p = 0 ∧ es = Page_Entries p
  | S l' => ∃ ess, Page_Level p = Z.of_nat l ∧
      Forall2 (λ c es, represents l' st (child_ref c) es) (Page_Children p) ess ∧ es = concat ess
  end.

Lemma represents_page l st r es : represents l st r es ↔ ∃ p, refers st r p ∧ page_holds l st p es.
Proof. destruct l; cbn; naive_solver. Qed.

Lemma represents_level l st r es : represents l st r es → Root_Level (ref_root r) = Z.of_nat l.
Proof.
  rewrite represents_page. intros (p & [_ Hv] & Hp).
  assert (Page_Level p = Z.of_nat l) as Hl by (destruct l; cbn in Hp; naive_solver).
  apply verify_Ok in Hv as (a & Ha & <- & _). rewrite <-Hl. unfold consistencyDomainPageDescriptor in Ha.
  destruct (Page_Level p =? 0); [inv_go; by injection Ha as <-|].
  destruct (Page_Children p) as [|c cs]; [done|]. destruct (last (c :: cs)); [|done].
  inv_go. destruct x. by injection Ha as <-.
Qed.

Lemma represents_level_typed l st r es : ps_inv st → represents l st r es → Z.of_nat l ≤ MaxInt64.
Proof.
  rewrite represents_page. intros Hi (p & [Hp _] & Hh). destruct (resolve_ok _ _ _ _ Hi Hp) as [_ [Hl _]].
  assert (Page_Level p = Z.of_nat l) as Hlv by (destruct l; cbn in Hh; naive_solver). lia.
Qed.

(** A child descriptor for a reference. *)
Definition links (st st' : St) (r : domainPageRef) (c : DomainPageChild) : Prop :=
  child_root c = ref_root r ∧ ∀ p, refers st r p → ∃ p', refers st' (child_ref c) p'.

Lemma links_represents l st st' r c es :
  extends st st' → no_collision st' → links st st' r c → represents l st r es → represents l st' (child_ref c) es.
Proof.
  intros He Hn [Hroot Hl] Hrep. apply (represents_extends l st st') in Hrep as Hrep'; [|done].
  apply represents_page in Hrep as (p0 & Hp0 & _). destruct (Hl _ Hp0) as (p' & Hp').
  apply represents_page in Hrep' as (p & [Hp _] & Hh). apply represents_page. exists p. split; [|done].
  destruct Hp' as [Hr' Hv']. change (ref_root (child_ref c)) with (child_root c) in Hr'. rewrite Hroot in Hr'.
  assert (p' = p) as -> by (by eapply Hn). split; [|done].
  change (ref_root (child_ref c)) with (child_root c). by rewrite Hroot.
Qed.

Lemma links_extends st0 st st' st'' r c :
  extends st0 st → extends st' st'' → links st st' r c → links st0 st'' r c.
Proof.
  intros He He' [? Hl]. split; [done|]. intros p Hp. destruct (Hl p) as [p' Hp']; [by eapply refers_extends|].
  exists p'. by eapply refers_extends.
Qed.

Lemma page_children_spec st refs x st' :
  ps_inv st → page_children refs st = (x, st') →
  grows st st' ∧ ∀ cs, x = Ok cs → Forall2 (links st st') refs cs.
Proof.
  revert st x st'. induction refs as [|r refs IH]; intros st x st' Hi E; cbn [page_children] in E.
  { injection E as <- <-. split; [by apply grows_refl|]. intros ? [= <-]. constructor. }
  apply gom_bind_inv in E as (y & st1 & E1 & E). destruct (pageChild_sound _ _ _ _ Hi E1) as [Hg1 Hc].
  destruct y as [c|e]; [|by destruct E as [-> ->]].
  apply gom_bind_inv in E as (z & st2 & E2 & E). destruct (IH _ _ _ (proj1 Hg1) E2) as [Hg2 Hcs].
  destruct z as [cs|e]; [|destruct E as [-> ->]; by split; [by eapply grows_trans|]].
  injection E as <- <-. split; [by eapply grows_trans|]. intros ? [= <-].
  destruct (Hc c eq_refl) as (Hroot & _ & _ & Href). constructor.
  - eapply links_extends; [reflexivity|apply Hg2|]. by split.
  - eapply Forall2_impl; [by apply Hcs|]. intros ???. eapply links_extends; [apply Hg1|reflexivity|done].
Qed.

Lemma branch_groups_loop_spec fuel level st refs x st' :
  ps_inv st → branch_groups_loop fuel level refs st = (x, st') →
  grows st st' ∧ ∀ gs, x = Ok gs → concat gs = refs ∧ Forall (λ g, g ≠ []) gs.
Proof.
  revert st refs x st'. induction fuel as [|fuel IH]; intros st refs x st' Hi E; destruct refs as [|r refs]; cbn [branch_groups_loop] in E.
  1,3: injection E as <- <-; split; [by apply grows_refl|]; intros ? [= <-]; split; [done|constructor].
  { injection E as <- <-. by split; [apply grows_refl|]. }
  set (all := r :: refs) in *.
  apply gom_bind_inv in E as (y & st1 & E1 & E). destruct (page_children_spec _ _ _ _ Hi E1) as [Hg1 _].
  destruct y as [cs|e]; [|by destruct E as [-> ->]].
  apply gom_bind_inv in E as (u & st2 & E2 & E). apply lift_inv in E2 as [-> ->].
  set (count := canonicalDomainPagePrefix _ _ _) in *. clearbody count.
  destruct (Nat.eqb_spec count 0) as [E0|E0]; cbn [guard_err] in E; [by destruct E as [-> ->]|].
  apply gom_bind_inv in E as (z & st2 & E2 & E). destruct (IH _ _ _ _ (proj1 Hg1) E2) as [Hg2 Hgs].
  destruct z as [gs|e]; [|destruct E as [-> ->]; by split; [by eapply grows_trans|]].
  apply mret_inv in E as [-> ->]. split; [by eapply grows_trans|]. intros ? [= <-]. destruct (Hgs gs eq_refl) as [Hc Hne].
  split; [cbn [concat]; by rewrite Hc, take_drop|]. constructor; [|done]. subst all. by destruct count.
Qed.

(** The page of a group of references. *)
Definition group_page (level : Z) (st st' : St) (g : list domainPageRef) (p : DomainPage) : Prop :=
  ∃ cs, p = branch_page level cs ∧ Forall2 (links st st') g cs.

Lemma group_page_extends level st0 st st' st'' g p :
  extends st0 st → extends st' st'' → group_page level st st' g p → group_page level st0 st'' g p.
Proof.
  intros He He' (cs & -> & Hcs). exists cs. split; [done|].
  eapply Forall2_impl; [exact Hcs|]. intros ???. by eapply links_extends.
Qed.

Lemma branch_pages_spec level st gs x st' :
  ps_inv st → branch_pages level gs st = (x, st') →
  grows st st' ∧ ∀ pages, x = Ok pages → Forall2 (group_page level st st') gs pages.
Proof.
  revert st x st'. induction gs as [|g gs IH]; intros st x st' Hi E; cbn [branch_pages] in E.
  { injection E as <- <-. split; [by apply grows_refl|]. intros ? [= <-]. constructor. }
  apply gom_bind_inv in E as (y & st1 & E1 & E). destruct (page_children_spec _ _ _ _ Hi E1) as [Hg1 Hc].
  destruct y as [cs|e]; [|by destruct E as [-> ->]].
  apply gom_bind_inv in E as (z & st2 & E2 & E). destruct (IH _ _ _ (proj1 Hg1) E2) as [Hg2 Hp].
  destruct z as [pages|e]; [|destruct E as [-> ->]; by split; [by eapply grows_trans|]].
  injection E as <- <-. split; [by eapply grows_trans|]. intros ? [= <-]. constructor.
  - exists cs. split; [done|]. eapply Forall2_impl; [by apply Hc|]. intros ???.
    eapply links_extends; [reflexivity|apply Hg2|done].
  - eapply Forall2_impl; [by apply Hp|]. intros ???. eapply group_page_extends; [apply Hg1|reflexivity|done].
Qed.

Lemma group_session_page level st st' g p :
  level ≤ MaxInt64 → Forall typed_ref g → group_page level st st' g p → session_page p.
Proof.
  intros Hlv Hg (cs & -> & Hcs). split; [|done]. split; [done|]. cbn. revert Hg.
  induction Hcs as [|r c g cs [Hroot _] _ IH]; intros Hg; constructor; apply list.Forall_cons in Hg as [[Hn Hb] Hg]; [|by apply IH].
  rewrite <-Hroot in Hn, Hb. done.
Qed.

Lemma group_pages_session level st st' gs pages :
  level ≤ MaxInt64 → Forall typed_ref (concat gs) → Forall2 (group_page level st st') gs pages → Forall session_page pages.
Proof.
  intros Hlv Hty. induction 1 as [|g p gs pages Hgp _ IH]; [constructor|]. cbn in Hty. apply Forall_app in Hty as [H1 H2].
  constructor; [exact (group_session_page _ _ _ _ _ Hlv H1 Hgp)|by apply IH].
Qed.

Lemma group_represents l st st' st'' r p g ess :
  extends st st' → extends st' st'' → no_collision st'' → group_page (Z.of_nat (S l)) st st' g p → refers st'' r p →
  Forall2 (represents l st) g ess → represents (S l) st'' r (concat ess).
Proof.
  intros He He' Hn (cs & -> & Hcs) Hr Hess. exists (branch_page (Z.of_nat (S l)) cs), ess.
  split; [done|]. split; [done|]. split; [|done]. cbn. clear Hr. revert ess Hess.
  induction Hcs as [|r' c g cs Hl _ IH]; intros ess Hess; inversion Hess; subst; constructor; [|by apply IH].
  eapply links_represents; [|done| |done]; [by trans st'|]. eapply links_extends; [reflexivity|exact He'|done].
Qed.

Lemma writeBranchGroups_spec level st refs x st' :
  ps_inv st → level ≤ MaxInt64 → Forall typed_ref refs → writeBranchGroups level refs st = (x, st') →
  grows st st' ∧ ∀ refs', x = Ok refs' →
    Forall typed_ref refs' ∧ (refs ≠ [] → refs' ≠ [] ∧ 0 ≤ level) ∧
    ∀ l ess, level = Z.of_nat (S l) → no_collision st' → Forall2 (represents l st) refs ess →
      ∃ ess', concat ess' = concat ess ∧ Forall2 (represents (S l) st') refs' ess'.
Proof.
  intros Hi Hlv Hty E. unfold writeBranchGroups in E. destruct refs as [|r0 refs0]; cbn [length] in E.
  { injection E as <- <-. split; [by apply grows_refl|]. intros ? [= <-]. split; [constructor|]. split; [done|].
    intros l ess _ _ Hess. inversion Hess; subst. exists []. by split; [|constructor]. }
  set (refs := r0 :: refs0) in *.
  destruct (Z.eqb_spec (len refs) 0) as [?|_]; [done|].
  apply gom_bind_inv in E as (y & st1 & E1 & E). destruct (branch_groups_loop_spec _ _ _ _ _ _ Hi E1) as [Hg1 Hgs].
  destruct y as [gs|e]; [|by destruct E as [-> ->]]. destruct (Hgs gs eq_refl) as [Hc Hne].
  apply gom_bind_inv in E as (z & st2 & E2 & E). destruct (branch_pages_spec _ _ _ _ _ (proj1 Hg1) E2) as [Hg2 Hps].
  destruct z as [pages|e]; [|destruct E as [-> ->]; by split; [by eapply grows_trans|]]. specialize (Hps pages eq_refl).
  destruct (writePages_spec _ _ _ _ (proj1 Hg2) ltac:(eapply group_pages_session; [exact Hlv|by rewrite Hc|exact Hps]) E) as [Hg3 Hr].
  assert (grows st st') as Hg by (eapply grows_trans; [|exact Hg3]; by eapply grows_trans). split; [done|].
  intros refs' ->. destruct (Hr refs' eq_refl) as [Href Hty']. split; [done|]. split.
  { intros _. destruct Hps as [|g p gs' pages' (cs & -> & _) _]; [done|].
    inversion Href as [|r ? refs'' ? [Hres _] _]; subst. split; [done|].
    destruct (resolve_ok _ _ _ _ (proj1 Hg3) Hres) as [Hok _]. exact (po_level _ _ Hok). }
  intros l ess -> Hn Hess. rewrite <-Hc in Hess. apply Forall2_concat_inv in Hess as (esss & -> & Hess).
  exists (map (@concat DomainEntry) esss). split.
  { clear. induction esss as [|es esss IH]; [done|]. cbn. by rewrite concat_app, IH. }
  clear -PageStoreLaws0 Hps Href Hess Hn Hg1 Hg2 Hg3. revert refs' esss Href Hess.
  induction Hps as [|g p gs pages Hgp _ IH]; intros refs' esss Href Hess.
  - inversion Href; subst. inversion Hess; subst. constructor.
  - inversion Href as [|r ? refs'' ? Hr Href']; subst. inversion Hess as [|? ess ? esss' Hg Hess']; subst. cbn.
    constructor; [|by apply IH]. eapply group_represents; [apply Hg2|apply Hg3|done|exact Hgp|done|].
    eapply Forall2_impl; [exact Hg|]. intros ???. eapply represents_extends; [apply Hg1|done].
Qed.
End Writing.
End TreeWrite.
