(* ===== verification/TreeEdit.v ===== *)
(** * Applying changes to a page tree

    The edits of one leaf, the distribution of changes over the children of a
    branch, and the theorem that [apply_] yields the changed entries. *)

From Stdlib Require Import ZArith Lia Sorting.
From S2P Require Import Prelude GoLib GoHash GoJSON Errors DomainPage DomainPageTheory DomainTree TreeTheory TreeRead TreeGroups TreeWrite.

Open Scope Z_scope.

Module TreeEdit.
Import StorageFormat PageTheory DomainTree TreeTheory TreeRead TreeGroups TreeWrite.

(** ** What changes do to a set of entries *)

Definition changed (changes : list DomainChange) (k : gostring) : Prop := k ∈ map Change_Key changes.

(** The entries a list of changes writes. *)
Definition writes (changes : list DomainChange) (e : DomainEntry) : Prop :=
  ∃ c, c ∈ changes ∧ Change_Delete c = false ∧ e = change_entry c.

Definition edited (changes : list DomainChange) (es es' : list DomainEntry) : Prop :=
  ∀ e, e ∈ es' ↔ e ∈ es ∧ ¬ changed changes (Entry_Key e) ∨ writes changes e.

Lemma changed_cons c cs k : changed (c :: cs) k ↔ k = Change_Key c ∨ changed cs k.
Proof. unfold changed. cbn. by rewrite elem_of_cons. Qed.

Lemma writes_cons c cs e : writes (c :: cs) e ↔ (Change_Delete c = false ∧ e = change_entry c) ∨ writes cs e.
Proof.
  unfold writes. setoid_rewrite elem_of_cons. split; [intros (c' & [->|?] & ? & ?); eauto|].
  intros [[? ?]|(c' & ? & ? & ?)]; eauto.
Qed.

Lemma not_changed_nil k : ¬ changed [] k.
Proof. unfold changed. cbn. apply not_elem_of_nil. Qed.

Lemma not_writes_nil e : ¬ writes [] e.
Proof. by intros (c & Hc%not_elem_of_nil & _). Qed.

Lemma edited_nil es : edited [] es es.
Proof. intros e. pose proof (not_changed_nil (Entry_Key e)). pose proof (not_writes_nil e). tauto. Qed.

Lemma edited_cons c cs es es1 es2 :
  edited [c] es es1 → edited cs es1 es2 → ¬ changed cs (Change_Key c) → edited (c :: cs) es es2.
Proof.
  intros H1 H2 Hc e. rewrite (H2 e), (H1 e), changed_cons, !writes_cons, changed_cons.
  pose proof (not_changed_nil (Entry_Key e)). pose proof (not_writes_nil e).
  assert (e = change_entry c → Entry_Key e = Change_Key c) by (by intros ->).
  split; [tauto|]. intros [?|[[? E]|?]]; [tauto| |tauto]. left. split; [tauto|]. rewrite E. cbn. done.
Qed.

(** ** Editing one leaf *)

(** An edit replaces at most the one entry under its key. *)
Lemma edit_leaf_split es c :
  sorted_entries es →
  ∃ A B C, es = A ++ B ++ C ∧
    edit_leaf es c = A ++ (if Change_Delete c then [] else [change_entry c]) ++ C ∧
    Forall (λ e, bytes_lt (Entry_Key e) (Change_Key c)) A ∧ Forall (λ e, Entry_Key e = Change_Key c) B ∧
    Forall (λ e, bytes_lt (Change_Key c) (Entry_Key e)) C.
Proof.
  intros Hs. destruct (entry_index_spec es (Change_Key c) Hs) as (Hi & Hlo & Hhi). cbn zeta in *.
  unfold edit_leaf. set (i := entry_index es (Change_Key c)) in *.
  assert (sorted_entries (drop i es)) as Hsd.
  { rewrite <-(take_drop i es) in Hs. by apply sorted_entries_app in Hs as (_ & ? & _). }
  destruct (es !! i) as [e|] eqn:Ee.
  - rewrite (drop_S _ _ _ Ee) in Hhi, Hsd. apply list.Forall_cons in Hhi as [He _].
    inversion Hsd as [|? ? Hsd' Hgt]; subst. rewrite Forall_map in Hgt.
    case_bool_decide as Ek.
    + exists (take i es), [e], (drop (S i) es). split; [cbn; by rewrite take_drop_middle|].
      split; [|split; [done|]; split; [by constructor|by rewrite <-Ek]].
      destruct (Change_Delete c); [done|]. by rewrite insert_take_drop by (by eapply lookup_lt_Some).
    + exists (take i es), [], (drop i es). split; [cbn; by rewrite take_drop|].
      split; [destruct (Change_Delete c); [by rewrite app_nil_l, take_drop|done]|].
      split; [done|]. split; [constructor|]. rewrite (drop_S _ _ _ Ee).
      assert (bytes_lt (Change_Key c) (Entry_Key e)) by (apply bytes_le_lt_eq in He as [?|?]; done).
      constructor; [done|]. eapply list.Forall_impl; [exact Hgt|]. intros e' ?. by trans (Entry_Key e).
  - exists (take i es), [], (drop i es). split; [cbn; by rewrite take_drop|].
    split; [destruct (Change_Delete c); [by rewrite app_nil_l, take_drop|done]|].
    split; [done|]. split; [constructor|]. rewrite drop_ge by (by apply lookup_ge_None). constructor.
Qed.

Lemma edit_leaf_correct es c :
  sorted_entries es → sorted_entries (edit_leaf es c) ∧ edited [c] es (edit_leaf es c).
Proof.
  intros Hs. destruct (edit_leaf_split es c Hs) as (A & B & C & -> & -> & HA & HB & HC).
  rewrite list.Forall_forall in HA, HB, HC.
  apply sorted_entries_app in Hs as (HsA & HsBC & HAB). apply sorted_entries_app in HsBC as (_ & HsC & _).
  split.
  - apply sorted_entries_app. split; [done|]. split.
    + apply sorted_entries_app. split; [destruct (Change_Delete c); repeat constructor|]. split; [done|].
      intros e e' He He'. destruct (Change_Delete c); [by apply not_elem_of_nil in He|].
      apply list_elem_of_singleton in He as ->. by apply HC.
    + intros e e' He [He'|He']%elem_of_app; [|apply HAB; [done|apply elem_of_app; by right]].
      destruct (Change_Delete c); [by apply not_elem_of_nil in He'|].
      apply list_elem_of_singleton in He' as ->. by apply HA.
  - intros e. rewrite !elem_of_app, changed_cons, writes_cons.
    pose proof (not_changed_nil (Entry_Key e)) as Hn. pose proof (not_writes_nil e) as Hw.
    assert (e ∈ A → Entry_Key e ≠ Change_Key c) by (intros; by apply bytes_lt_neq, HA).
    assert (e ∈ C → Entry_Key e ≠ Change_Key c) by (intros; symmetry; by apply bytes_lt_neq, HC).
    specialize (HB e). destruct (Change_Delete c).
    + pose proof (not_elem_of_nil e). intuition congruence.
    + rewrite list_elem_of_singleton. intuition congruence.
Qed.

Lemma edit_leaf_fold changes es :
  sorted_entries es → NoDup (map Change_Key changes) →
  sorted_entries (fold_left edit_leaf changes es) ∧ edited changes es (fold_left edit_leaf changes es).
Proof.
  revert es. induction changes as [|c cs IH]; intros es Hs Hnd; cbn [fold_left]; [split; [done|apply edited_nil]|].
  cbn in Hnd. apply NoDup_cons in Hnd as [Hc Hnd]. destruct (edit_leaf_correct es c Hs) as [Hs1 He1].
  destruct (IH _ Hs1 Hnd) as [Hs2 He2]. split; [done|]. by eapply edited_cons.
Qed.

(** ** Distributing the changes *)

Section Groups.
Variable children : list DomainPageChild.

(** The changes for one child. *)
Definition routed (i : nat) (c : DomainChange) : Prop := consistencyDomainChildIndex children (Change_Key c) = Some i.
#[export] Instance routed_dec i c : Decision (routed i c).
Proof. unfold routed. apply _. Defined.

Record groups_inv (seen : list DomainChange) (groups : gmap nat (list DomainChange)) (indices : list nat) : Prop := {
  gi_groups i : default [] (groups !! i) = filter (routed i) seen;
  gi_indices i : i ∈ indices ↔ is_Some (groups !! i);
  gi_nodup : NoDup indices;
  gi_seen c : c ∈ seen → ∃ i, routed i c;
  gi_used i : i ∈ indices → ∃ c, c ∈ seen ∧ routed i c;
}.

Lemma groups_inv_empty : groups_inv [] ∅ [].
Proof.
  split.
  - intros i. by rewrite lookup_empty.
  - intros i. rewrite lookup_empty. split; [by intros ?%not_elem_of_nil|by intros [? ?]].
  - constructor.
  - by intros c ?%not_elem_of_nil.
  - by intros c ?%not_elem_of_nil.
Qed.

Lemma groups_inv_step seen groups indices c i :
  groups_inv seen groups indices → routed i c →
  groups_inv (seen ++ [c]) (<[i := default [] (groups !! i) ++ [c]]> groups)
    (if bool_decide (is_Some (groups !! i)) then indices else indices ++ [i]).
Proof.
  intros [H1 H2 H3 H4 H5] Hr. split.
  - intros j. rewrite list.filter_app. destruct (decide (j = i)) as [->|Hne].
    + rewrite lookup_insert_eq. cbn [default]. by rewrite filter_cons_True, H1.
    + rewrite lookup_insert_ne by done. rewrite H1, filter_cons_False; [by rewrite app_nil_r|].
      intros Hr'. unfold routed in *. rewrite Hr in Hr'. naive_solver.
  - intros j. destruct (decide (j = i)) as [->|Hne].
    + rewrite lookup_insert_eq. split; [done|]. intros _. case_bool_decide as Hi; [by apply H2|set_solver].
    + rewrite lookup_insert_ne by done. etrans; [|apply (H2 j)]. case_bool_decide; [done|set_solver].
  - case_bool_decide as Hi; [done|]. apply NoDup_app. split; [done|]. split; [|apply NoDup_singleton].
    intros j Hj Hj'%list_elem_of_singleton. subst. by apply Hi, H2.
  - intros c' [?|Hc'%list_elem_of_singleton]%elem_of_app; [by apply H4|]. subst. by exists i.
  - intros j Hj. assert (j ∈ indices ∨ j = i) as [Hj'| ->] by (revert Hj; case_bool_decide; set_solver).
    + destruct (H5 _ Hj') as (c' & ? & ?). exists c'. set_solver.
    + exists c. set_solver.
Qed.

Lemma group_changes_spec seen groups indices changes groups' indices' :
  groups_inv seen groups indices → group_changes children groups indices changes = Ok (groups', indices') →
  groups_inv (seen ++ changes) groups' indices'.
Proof.
  revert seen groups indices. induction changes as [|c cs IH]; intros seen groups indices Hinv E; cbn [group_changes] in E.
  { injection E as <- <-. by rewrite app_nil_r. }
  destruct (consistencyDomainChildIndex children (Change_Key c)) as [i|] eqn:Ei; [|done].
  rewrite (cons_middle c seen cs), (assoc_L (++)). eapply IH; [|exact E]. by apply groups_inv_step.
Qed.
End Groups.

(** ** Edits of consecutive children *)

Section Pieces.
Variable G : nat → list DomainChange.

(** [ps] are the edited [ess], the first being the child at index [d]. *)
Fixpoint pieces_ok (d : nat) (ess ps : list (list DomainEntry)) : Prop :=
  match ess, ps with
  | [], [] => True
  | es :: ess, p :: ps => edited (G d) es p ∧ pieces_ok (S d) ess ps
  | _, _ => False
  end.

Lemma pieces_ok_app d ess ps ess' ps' :
  pieces_ok d ess ps → pieces_ok (d + length ess) ess' ps' → pieces_ok d (ess ++ ess') (ps ++ ps').
Proof.
  revert d ps. induction ess as [|es ess IH]; intros d [|p ps] H1 H2; cbn in *; try done.
  - by rewrite Nat.add_0_r in H2.
  - destruct H1 as [? H1]. split; [done|]. apply IH; [done|]. by rewrite Nat.add_succ_comm.
Qed.

Lemma pieces_ok_same d ess : (∀ i, (d ≤ i < d + length ess)%nat → G i = []) → pieces_ok d ess ess.
Proof.
  revert d. induction ess as [|es ess IH]; intros d HG; cbn in *; [done|]. split.
  - rewrite (HG d) by lia. apply edited_nil.
  - apply IH. intros i Hi. apply HG. lia.
Qed.

Lemma pieces_ok_elem d ess ps e :
  pieces_ok d ess ps →
  e ∈ concat ps ↔ ∃ i es, ess !! i = Some es ∧
    (e ∈ es ∧ ¬ changed (G (d + i)%nat) (Entry_Key e) ∨ writes (G (d + i)%nat) e).
Proof.
  revert d ps. induction ess as [|es ess IH]; intros d [|p ps] Hp; cbn in Hp; try done.
  - split; [by intros ?%not_elem_of_nil|]. by intros (i & es & ? & _).
  - destruct Hp as [He Hp]. cbn. rewrite elem_of_app, (He e), (IH _ _ Hp). split.
    + intros [?|(i & es' & ? & ?)]; [exists 0%nat, es; by rewrite Nat.add_0_r|].
      exists (S i), es'. rewrite <-Nat.add_succ_comm. done.
    + intros ([|i] & es' & Hi & Hx); cbn in Hi.
      * injection Hi as ->. rewrite Nat.add_0_r in Hx. by left.
      * right. exists i, es'. rewrite Nat.add_succ_comm. done.
Qed.
End Pieces.

(** Editing each child with its own changes edits the branch. *)
Lemma edited_branch `{SHA256} children changes G l level ess ps :
  below l level children ess →
  (∀ i, G i = filter (routed children i) changes) → (∀ c, c ∈ changes → ∃ i, routed children i c) →
  pieces_ok G 0 ess ps → edited changes (concat ess) (concat ps).
Proof.
  intros Hb HG Hall Hp e. rewrite (pieces_ok_elem G 0 ess ps e Hp). cbn [Nat.add].
  assert (∀ i c, c ∈ G i ↔ routed children i c ∧ c ∈ changes) as HG' by (intros i c; by rewrite HG, list_elem_of_filter).
  assert (∀ c i, routed children i c → (i < length children)%nat ∧
    ∀ j es e, ess !! j = Some es → e ∈ es → Entry_Key e = Change_Key c → j = i) as Hroute.
  { intros c i Hr. unfold routed in Hr. destruct (decide (children = [])) as [->|Hne]; [done|].
    destruct (child_index_spec _ _ _ _ (Change_Key c) Hb Hne) as (i' & c' & Hi & Hc & Hu).
    rewrite Hr in Hi. injection Hi as <-. split; [by eapply lookup_lt_Some|done]. }
  assert (length children = length ess) as Hlen by (destruct Hb as (_ & _ & Hd); by eapply Forall2_length).
  split.
  - intros (i & es & Hi & [[He Hn]|(c & [_ Hc]%HG' & Hw)]); [left|right; by exists c].
    split; [apply concat_elem; eauto|]. unfold changed. intros (c & Ek & Hc)%list_elem_of_fmap.
    destruct (Hall _ Hc) as [j Hj]. destruct (Hroute _ _ Hj) as [_ Hu].
    assert (i = j) as -> by (by eapply Hu). apply Hn. unfold changed. rewrite Ek. apply list_elem_of_fmap_2. by apply HG'.
  - intros [[(i & es & Hi & He)%concat_elem Hn]|(c & Hc & Hw)].
    + exists i, es. split; [done|]. left. split; [done|]. intros Hch. apply Hn. revert Hch. unfold changed.
      rewrite !list_elem_of_fmap. intros (c & ? & [_ Hc]%HG'). eauto.
    + destruct (Hall _ Hc) as [j Hj]. destruct (Hroute _ _ Hj) as [Hlt _].
      destruct (lookup_lt_is_Some_2 ess j) as [es Hes]; [lia|]. exists j, es. split; [done|]. right.
      exists c. split; [by apply HG'|done].
Qed.

Section Apply.
Context `{SHA256} {St : Type} `{!PageStore St, !PageView St, !PageStoreLaws St}.

(** ** Rewriting a subtree *)

(** What rewriting a page of level [l] does. *)
Definition rewrites (l : nat) (rw : DomainPage → list DomainChange → GoM St error (list domainPageRef)) : Prop :=
  ∀ st r p changes x st',
    ps_inv st → readable st r p → rw p changes st = (x, st') →
    grows st st' ∧ ∀ refs, x = Ok refs → Forall typed_ref refs ∧
      ∀ es, no_collision st' → page_holds l st p es → NoDup (map Change_Key changes) →
        ∃ ess', Forall2 (represents l st') refs ess' ∧ edited changes es (concat ess').

Lemma Forall2_represents_extends l st st' refs ess :
  extends st st' → Forall2 (represents l st) refs ess → Forall2 (represents l st') refs ess.
Proof. intros He Hr. eapply Forall2_impl; [exact Hr|]. intros ???. by eapply represents_extends. Qed.

Lemma represents_readable l st r p es :
  no_collision st → represents l st r es → readable st r p → page_holds l st p es.
Proof.
  intros Hn (p' & Hp' & Hh)%represents_page Hp. by rewrite (readable_unique _ _ _ _ Hn Hp Hp').
Qed.

Lemma splice {A} (F R ys : list A) x :
  take (length F) (F ++ x :: R) ++ ys ++ drop (S (length F)) (F ++ x :: R) = F ++ ys ++ R.
Proof. rewrite take_app_length. f_equal. f_equal. induction F; done. Qed.

(** The part of the loop's state that is still to be visited. *)
Record pending (l : nat) (st : St) (G : nat → list DomainChange) (indices : list nat) (offset : Z)
    (children finished : list domainPageRef) (d : nat) (cs : list DomainPageChild)
    (ess fess : list (list DomainEntry)) : Prop := {
  pn_children : children = finished ++ map child_ref cs;
  pn_offset : Z.of_nat (length finished) = Z.of_nat d + offset;
  pn_sorted : StronglySorted lt indices;
  pn_range : Forall (λ i, d ≤ i < d + length cs)%nat indices;
  pn_below : Forall2 (λ c es, represents l st (child_ref c) es) cs ess;
  pn_finished : Forall2 (represents l st) finished fess;
  pn_nodup i : NoDup (map Change_Key (G i));
  pn_idle i : (d ≤ i)%nat → i ∉ indices → G i = [];
}.

Lemma pending_position l st G i indices offset children finished d cs ess fess :
  pending l st G (i :: indices) offset children finished d cs ess fess →
  ∃ a c b ea e eb, cs = a ++ c :: b ∧ ess = ea ++ e :: eb ∧ length a = (i - d)%nat ∧ length ea = length a ∧
    Z.to_nat (Z.of_nat i + offset) = (length finished + length a)%nat ∧ (d ≤ i)%nat ∧
    represents l st (child_ref c) e ∧
    Forall2 (λ c es, represents l st (child_ref c) es) a ea ∧ Forall2 (λ c es, represents l st (child_ref c) es) b eb.
Proof.
  intros [_ Hoff _ Hr Hb _ _ _]. apply list.Forall_cons in Hr as [Hi _].
  destruct (lookup_lt_is_Some_2 cs (i - d)) as [c Hc]; [lia|]. apply list_elem_of_split_length in Hc as (a & b & -> & Ha).
  apply Forall2_app_inv_l in Hb as (ea & eb' & Hea & Heb & ->). inversion Heb as [|? e ? eb He Heb']; subst.
  exists a, c, b, ea, e, eb. split; [done|]. split; [done|]. split; [lia|].
  split; [symmetry; by eapply Forall2_length|]. split; [lia|]. split; [lia|]. done.
Qed.

Lemma pending_step l st st' G i indices offset children finished d cs ess fess a c b ea eb refs ress :
  pending l st G (i :: indices) offset children finished d cs ess fess →
  cs = a ++ c :: b → length a = (i - d)%nat → (d ≤ i)%nat → extends st st' →
  Forall2 (λ c es, represents l st (child_ref c) es) a ea → Forall2 (λ c es, represents l st (child_ref c) es) b eb →
  Forall2 (represents l st') refs ress →
  pending l st' G indices (offset + len refs - 1)
    (take (length finished + length a) children ++ refs ++ drop (S (length finished + length a)) children)
    (finished ++ map child_ref a ++ refs) (S i) b eb (fess ++ ea ++ ress).
Proof.
  intros [-> Hoff Hs Hr Hb Hf Hnd Hidle] -> Ha Hdi He Hea Heb Hrefs.
  inversion Hs as [|? ? Hs' Hgt]; subst. apply list.Forall_cons in Hr as [Hi Hr].
  rewrite length_app in Hi, Hr. cbn [length] in Hi, Hr. split.
  - rewrite map_app. cbn [map]. rewrite (assoc_L (++) finished).
    replace (length finished + length a)%nat with (length (finished ++ map child_ref a)) by (by rewrite length_app, length_map).
    by rewrite splice, <-!(assoc_L (++)).
  - rewrite !length_app, length_map. unfold len. lia.
  - done.
  - rewrite list.Forall_forall in Hgt, Hr |- *. intros j Hj. specialize (Hgt j Hj). specialize (Hr j Hj). lia.
  - eapply Forall2_impl; [exact Heb|]. intros ???. by eapply represents_extends.
  - apply Forall2_app; [by eapply Forall2_represents_extends|]. apply Forall2_app; [|done].
    apply Forall2_fmap_l. eapply Forall2_impl; [exact Hea|]. intros ???. by eapply represents_extends.
  - done.
  - intros j Hj Hn. apply Hidle; [lia|]. intros [->|?]%elem_of_cons; [lia|done].
Qed.

Lemma rewrite_children_spec l rw groups indices offset children st x st' :
  rewrites l rw → ps_inv st → Forall typed_ref children →
  rewrite_children rw groups indices offset children st = (x, st') →
  grows st st' ∧ ∀ refs, x = Ok refs → Forall typed_ref refs ∧
    (no_collision st' → ∀ finished d cs ess fess,
      pending l st (λ i, default [] (groups !! i)) indices offset children finished d cs ess fess →
      ∃ ess' ps, Forall2 (represents l st') refs ess' ∧ concat ess' = concat fess ++ concat ps ∧
        pieces_ok (λ i, default [] (groups !! i)) d ess ps).
Proof.
  intros Hrw. revert offset children st x st'.
  induction indices as [|i indices IH]; intros offset children st x st' Hi Hty E; cbn [rewrite_children] in E.
  { apply mret_inv in E as [-> ->]. split; [by apply grows_refl|]. intros ? [= <-]. split; [done|].
    intros _ finished d cs ess fess [-> _ _ _ Hb Hf _ Hidle]. exists (fess ++ ess), ess. split.
    - apply Forall2_app; [done|]. by apply Forall2_fmap_l.
    - split; [by rewrite concat_app|]. apply pieces_ok_same. intros i Hd. apply Hidle; [lia|apply not_elem_of_nil]. }
  set (index := Z.to_nat (Z.of_nat i + offset)) in *.
  destruct (children !! index) as [child|] eqn:Ec; [|by injection E as <- <-; split; [apply grows_refl|]].
  apply gom_bind_inv in E as (y & st1 & E1 & E). destruct (readPage_sound _ _ _ _ Hi E1) as [Hg1 Hread].
  destruct y as [p|e]; [|by destruct E as [-> ->]]. specialize (Hread p eq_refl).
  apply gom_bind_inv in E as (z & st2 & E2 & E). destruct (Hrw _ _ _ _ _ _ (proj1 Hg1) Hread E2) as [Hg2 Hsub].
  destruct z as [repl|e]; [|destruct E as [-> ->]; by split; [by eapply grows_trans|]].
  destruct (Hsub repl eq_refl) as [Htyr Hed].
  assert (grows st st2) as Hg12 by (by eapply grows_trans).
  assert (Forall typed_ref (take index children ++ repl ++ drop (S index) children)) as Hty'.
  { apply Forall_app. split; [by apply Forall_take|]. apply Forall_app. split; [done|by apply Forall_drop]. }
  destruct (IH _ _ _ _ _ (proj1 Hg2) Hty' E) as [Hg3 Hrest].
  split; [by eapply grows_trans|]. intros refs ->. destruct (Hrest refs eq_refl) as [Htyrefs Hfin]. split; [done|].
  intros Hn finished d cs ess fess Hp.
  destruct (pending_position _ _ _ _ _ _ _ _ _ _ _ _ Hp) as (a & c & b & ea & e & eb & Ecs & -> & Ha & Hea & Hidx & Hdi & Hce & Hra & Hrb).
  fold index in Hidx.
  assert (child = child_ref c) as ->.
  { rewrite (pn_children _ _ _ _ _ _ _ _ _ _ _ Hp), Ecs, map_app, Hidx, lookup_app_r in Ec by lia.
    replace (length finished + length a - length finished)%nat with (length (map child_ref a)) in Ec by (rewrite length_map; lia).
    cbn [map] in Ec.
    rewrite list_lookup_middle in Ec by done. by injection Ec. }
  assert (no_collision st2) as Hn2 by (by eapply no_collision_extends; [apply Hg3|]).
  assert (no_collision st1) as Hn1 by (by eapply no_collision_extends; [apply Hg2|]).
  destruct (Hed e) as (ress & Hress & Hedit); [done| |apply (pn_nodup _ _ _ _ _ _ _ _ _ _ _ Hp)|].
  { eapply represents_readable; [done| |done]. eapply represents_extends; [apply Hg1|done]. }
  pose proof (pending_step _ _ _ _ _ _ _ _ _ _ _ _ _ a c b ea eb repl ress Hp Ecs Ha Hdi (proj2 Hg12) Hra Hrb Hress) as Hp'.
  rewrite <-Hidx in Hp'. destruct (Hfin Hn _ _ _ _ _ Hp') as (ess' & ps & Hrep & Hcat & Hps).
  exists ess', (ea ++ concat ress :: ps). split; [done|]. split.
  { rewrite Hcat, !concat_app. cbn. by rewrite <-!(assoc_L (++)). }
  apply pieces_ok_app.
  - apply pieces_ok_same. intros j Hj. apply (pn_idle _ _ _ _ _ _ _ _ _ _ _ Hp); [lia|].
    pose proof (pn_sorted _ _ _ _ _ _ _ _ _ _ _ Hp) as Hs. inversion Hs as [|? ? _ Hgt]; subst.
    rewrite list.Forall_forall in Hgt. intros [->|Hin%Hgt]%elem_of_cons; lia.
  - cbn. rewrite Hea, Ha. replace (d + (i - d))%nat with i by lia. by split.
Qed.

Lemma sort_indices indices : NoDup indices → StronglySorted lt (merge_sort le indices).
Proof.
  intros Hnd. assert (NoDup (merge_sort le indices)) as Hnd' by (by rewrite merge_sort_Permutation).
  pose proof (StronglySorted_merge_sort le indices) as Hs. revert Hnd'.
  induction Hs as [|i l Hs IH Hall]; intros Hnd'; constructor; apply NoDup_cons in Hnd' as [Hi Hnd']; [by apply IH|].
  rewrite list.Forall_forall in Hall |- *. intros j Hj. specialize (Hall j Hj).
  destruct (decide (i = j)) as [->|]; [done|lia].
Qed.

(** The loop starts with every child pending. *)
Lemma pending_start l level st children ess changes groups indices :
  below l level children ess → NoDup (map Change_Key changes) →
  Forall2 (λ c es, represents l st (child_ref c) es) children ess →
  groups_inv children changes groups indices →
  pending l st (λ i, default [] (groups !! i)) (merge_sort le indices) 0 (map child_ref children) [] 0 children ess [].
Proof.
  intros Hb Hnd Hess [G1 G2 G3 G4 G5]. split; [done|done|by apply sort_indices| |done|constructor| |].
  - apply list.Forall_forall. intros i Hi. rewrite merge_sort_Permutation in Hi.
    destruct (G5 i Hi) as (c & _ & Hr). unfold routed in Hr. cbn [Nat.add].
    destruct (decide (children = [])) as [->|Hne]; [done|].
    destruct (child_index_spec _ _ _ _ (Change_Key c) Hb Hne) as (i' & c' & Hi' & Hc & _).
    rewrite Hr in Hi'. injection Hi' as <-. apply lookup_lt_Some in Hc. lia.
  - intros i. rewrite G1. eapply sublist_NoDup; [exact Hnd|]. apply (fmap_sublist Change_Key), sublist_filter.
  - intros i _ Hi. rewrite merge_sort_Permutation, G2 in Hi. destruct (groups !! i); [by destruct Hi|done].
Qed.

Lemma rewrite_spec fuel l : rewrites l (rewrite fuel).
Proof.
  revert l. induction fuel as [|fuel IH]; intros l st r p changes x st' Hi Hr E; cbn [rewrite] in E.
  { injection E as <- <-. by split; [apply grows_refl|]. }
  destruct Hr as [Hv [k Hr]]. destruct (resolve_ok _ _ _ _ Hi Hr) as [Hok Hty].
  destruct (Z.eqb_spec (Page_Level p) 0) as [El|El].
  - destruct (writeLeafGroups_spec _ _ _ _ Hi E) as [Hg Hw]. split; [done|]. intros refs ->.
    destruct (Hw refs eq_refl) as (Htr & _ & ess & Hc & Hrep). split; [done|]. intros es _ Hh Hnd.
    destruct l as [|l]; cbn in Hh; [|destruct Hh as (? & Hl & _); lia]. destruct Hh as [_ ->].
    exists ess. split; [done|]. rewrite Hc. apply edit_leaf_fold; [|done]. by apply (po_leaf _ _ Hok).
  - apply gom_bind_inv in E as (y & st1 & E1 & E). apply lift_inv in E1 as [-> ->].
    destruct (group_changes _ _ _ _) as [[groups indices]|e] eqn:Eg; [|destruct E as [-> ->]; by split; [apply grows_refl|]].
    apply (group_changes_spec _ [] _ _ _ _ _ (groups_inv_empty _)) in Eg. cbn [app] in Eg.
    apply gom_bind_inv in E as (z & st1 & E1 & E).
    assert (Forall typed_ref (map child_ref (Page_Children p))) as Htc by (by apply Forall_map, Hty).
    destruct (rewrite_children_spec (pred l) _ _ _ _ _ _ _ _ (IH (pred l)) Hi Htc E1) as [Hg1 Hch].
    destruct z as [children|e]; [|by destruct E as [-> ->]]. destruct (Hch children eq_refl) as [Htch Hsem].
    destruct (writeBranchGroups_spec _ _ _ _ _ (proj1 Hg1) (proj1 Hty) Htch E) as [Hg2 Hw]. split; [by eapply grows_trans|].
    intros refs ->. destruct (Hw refs eq_refl) as (Htr & _ & Hbr). split; [done|]. intros es Hn Hh Hnd.
    destruct l as [|l]; cbn in Hh; [by destruct Hh|]. destruct Hh as (ess & Hl & Hess & ->).
    destruct (branch_below _ _ _ _ _ Hi (conj Hv (ex_intro _ k Hr)) Hl Hess) as [Hb _].
    destruct (Hsem ltac:(by eapply no_collision_extends; [apply Hg2|]) [] 0%nat (Page_Children p) ess []) as (ess1 & ps & Hrep & Hc & Hps).
    { by eapply pending_start. }
    destruct (Hbr l ess1) as (ess2 & Hc2 & Hrep2); [lia|done|done|]. exists ess2. split; [done|].
    rewrite Hc2, Hc. cbn. eapply edited_branch; [exact Hb|apply Eg|apply Eg|done].
Qed.

(** ** Growing a root *)

Lemma represents_root l st r es : represents l st r es → represents l st (root_ref (ref_root r)) es.
Proof.
  rewrite !represents_page. intros (p & [Hp Hv] & Hh). exists p. split; [|done]. split; [done|].
  apply verify_Ok in Hv as (a & Ha & Hroot & _). apply verify_Ok. exists a. split; [done|]. split; [done|]. auto.
Qed.

Lemma represents_digest l st r es : ps_inv st → represents l st r es → Root_Digest (ref_root r) ≠ [].
Proof.
  intros Hi (p & [Hp _] & _)%represents_page E. destruct (resolve_ok _ _ _ _ Hi Hp) as [Hok _].
  destruct (po_digest _ _ Hok) as [_ Hd]. by rewrite E in Hd.
Qed.

Lemma grow_spec fuel pages st x st' :
  ps_inv st → Forall typed_ref pages → grow fuel pages st = (x, st') →
  grows st st' ∧ ∀ root, x = Ok root → no_collision st' →
    ∀ l ess, Forall2 (represents l st) pages ess → holds st' root (concat ess).
Proof.
  revert pages st x st'. induction fuel as [|fuel IH]; intros pages st x st' Hi Hty E;
    (destruct pages as [|p [|p' pages]]; cbn [grow] in E;
     [by injection E as <- <-; split; [apply grows_refl|]|
      injection E as <- <-; split; [by apply grows_refl|]; intros ? [= <-] _ l ess Hess;
      inversion Hess as [|? es ? ? Hp Hnil]; subst; inversion Hnil; subst; cbn; rewrite app_nil_r;
      right; split; [by eapply represents_digest|]; exists l; by apply represents_root|]).
  { injection E as <- <-. by split; [apply grows_refl|]. }
  apply gom_bind_inv in E as (y & st1 & E1 & E). destruct (writeBranchGroups_spec _ _ _ _ _ Hi (proj2 (i64_range _)) Hty E1) as [Hg1 Hw].
  destruct y as [pages1|e]; [|by destruct E as [-> ->]]. destruct (Hw pages1 eq_refl) as (Hty1 & Hlv & Hbr).
  destruct (IH _ _ _ _ (proj1 Hg1) Hty1 E) as [Hg2 Hroot]. split; [by eapply grows_trans|].
  intros root -> Hn l ess Hess. destruct (Hbr l ess) as (ess1 & <- & Hess1); [| |done|].
  { inversion Hess as [|? es ? ? Hp _]; subst. destruct (Hlv ltac:(done)) as [_ Hpos]. revert Hpos.
    pose proof (represents_level_typed _ _ _ _ Hi Hp). rewrite (represents_level _ _ _ _ Hp).
    destruct (decide (Z.of_nat l = MaxInt64)) as [->|]; [done|]. rewrite i64_small by (unfold MaxInt64 in *; lia). lia. }
  { by eapply no_collision_extends; [apply Hg2|]. }
  by apply (Hroot root eq_refl Hn (S l)).
Qed.

Lemma holds_empty st : holds st empty_root [].
Proof. by left. Qed.

Lemma buildTree_spec entries st x st' :
  ps_inv st → buildTree entries st = (x, st') →
  grows st st' ∧ ∀ root, x = Ok root → no_collision st' → holds st' root entries.
Proof.
  intros Hi E. unfold buildTree in E. case_bool_decide as Hne.
  { injection E as <- <-. split; [by apply grows_refl|]. intros ? [= <-] _. subst. apply holds_empty. }
  apply gom_bind_inv in E as (y & st1 & E1 & E). destruct (writeLeafGroups_spec _ _ _ _ Hi E1) as [Hg1 Hw].
  destruct y as [pages|e]; [|by destruct E as [-> ->]]. destruct (Hw pages eq_refl) as (Hty & _ & ess & <- & Hess).
  destruct (grow_spec _ _ _ _ _ (proj1 Hg1) Hty E) as [Hg2 Hroot]. split; [by eapply grows_trans|].
  intros root -> Hn. by eapply Hroot.
Qed.

(** ** Applying changes at a root *)

Lemma Permutation_elem {A} (l k : list A) : l ≡ₚ k → ∀ x, x ∈ l ↔ x ∈ k.
Proof. intros Hp x. by rewrite Hp. Qed.

Lemma map_Permutation_elem {A B} (f : A → B) (l k : list A) : l ≡ₚ k → ∀ x, x ∈ map f l ↔ x ∈ map f k.
Proof. intros Hp x. by rewrite Hp. Qed.

Lemma edited_perm changes changes' es es' : changes ≡ₚ changes' → edited changes es es' → edited changes' es es'.
Proof.
  intros Hp He e. rewrite (He e). unfold changed, writes.
  setoid_rewrite (map_Permutation_elem Change_Key changes changes' Hp). by setoid_rewrite (Permutation_elem changes changes' Hp).
Qed.

Lemma edited_writes changes :
  edited changes [] (map change_entry (filter (λ c, Change_Delete c = false) changes)).
Proof.
  intros e. rewrite list_elem_of_fmap. unfold writes. setoid_rewrite list_elem_of_filter.
  split; [intros (c & ? & ? & ?); right; eauto|]. intros [[He _]|(c & ? & ? & ?)]; [by apply not_elem_of_nil in He|eauto].
Qed.

Lemma apply_spec st root changes x st' :
  ps_inv st → apply_ root changes st = (x, st') →
  grows st st' ∧ ∀ root' es, x = Ok root' → no_collision st' → holds st root es → NoDup (map Change_Key changes) →
    ∃ es', holds st' root' es' ∧ edited changes es es'.
Proof.
  intros Hi E. unfold apply_ in E. case_bool_decide as Hlen.
  { apply mret_inv in E as [-> ->]. split; [by apply grows_refl|]. intros root' es [= <-] _ Hh _.
    exists es. split; [done|]. destruct changes; [apply edited_nil|done]. }
  set (sorted := merge_sort change_le changes) in *.
  assert (sorted ≡ₚ changes) as Hperm by apply merge_sort_Permutation. clearbody sorted.
  case_bool_decide as Hd.
  { destruct (buildTree_spec _ _ _ _ Hi E) as [Hg Hb]. split; [done|]. intros root' es -> Hn [[_ ->]|[? _]] _; [|done].
    eexists. split; [by apply Hb|]. eapply edited_perm; [exact Hperm|]. apply edited_writes. }
  apply gom_bind_inv in E as (y & st1 & E1 & E). destruct (readPage_sound _ _ _ _ Hi E1) as [Hg1 Hread].
  destruct y as [p|e]; [|by destruct E as [-> ->]]. specialize (Hread p eq_refl).
  apply gom_bind_inv in E as (z & st2 & E2 & E).
  assert (∀ l, grows st1 st2 ∧ ∀ refs, z = Ok refs → Forall typed_ref refs ∧
      ∀ es, no_collision st2 → page_holds l st1 p es → NoDup (map Change_Key sorted) →
        ∃ ess', Forall2 (represents l st2) refs ess' ∧ edited sorted es (concat ess')) as Hrw.
  { intros l. by eapply (rewrite_spec _ l); [apply Hg1| |]. }
  destruct (Hrw 0%nat) as [Hg2 Hty]. assert (grows st st2) as Hg12 by (by eapply grows_trans).
  destruct z as [refs|e]; [|by destruct E as [-> ->]]. destruct (Hty refs eq_refl) as [Htr _].
  assert (∀ es, no_collision st2 → holds st root es → NoDup (map Change_Key changes) →
      ∃ l ess', Forall2 (represents l st2) refs ess' ∧ edited changes es (concat ess')) as Hsem.
  { intros es Hn [[? _]|[_ [l Hl]]] Hnd; [done|]. destruct (Hrw l) as [_ Hs]. destruct (Hs refs eq_refl) as [_ Hs'].
    destruct (Hs' es) as (ess' & ? & ?); [done| |by rewrite Hperm|].
    - eapply represents_readable; [by eapply no_collision_extends; [apply Hg2|]| |exact Hread].
      eapply represents_extends; [apply Hg1|exact Hl].
    - exists l, ess'. split; [done|]. by eapply edited_perm. }
  destruct (Z.eqb_spec (len refs) 0) as [E0|E0].
  - apply mret_inv in E as [-> ->]. split; [done|]. intros root' es [= <-] Hn Hh Hnd.
    destruct (Hsem es Hn Hh Hnd) as (l & ess' & Hr & He). destruct refs; [|done]. inversion Hr; subst.
    exists []. split; [apply holds_empty|done].
  - destruct (grow_spec _ _ _ _ _ (proj1 Hg2) Htr E) as [Hg3 Hroot]. split; [by eapply grows_trans|].
    intros root' es -> Hn Hh Hnd.
    destruct (Hsem es ltac:(by eapply no_collision_extends; [apply Hg3|]) Hh Hnd) as (l & ess' & Hr & He).
    exists (concat ess'). split; [by eapply Hroot|done].
Qed.

(** ** The map of the changed entries *)

(** The changes, as the rebuild applies them to its map. *)
Definition change_map (changes : list DomainChange) (m : gmap gostring DomainEntry) : gmap gostring DomainEntry :=
  fold_left (λ values change,
      if Change_Delete change then delete (Change_Key change) values
      else <[Change_Key change := change_entry change]> values) changes m.

Lemma change_map_lookup changes m k e :
  NoDup (map Change_Key changes) →
  change_map changes m !! k = Some e ↔
  m !! k = Some e ∧ ¬ changed changes k ∨ ∃ c, c ∈ changes ∧ Change_Delete c = false ∧ Change_Key c = k ∧ e = change_entry c.
Proof.
  unfold change_map. revert m. induction changes as [|c cs IH]; intros m Hnd; cbn [fold_left].
  { pose proof (not_changed_nil k). split; [auto|]. intros [[? _]|(c & Hc%not_elem_of_nil & _)]; done. }
  cbn in Hnd. apply NoDup_cons in Hnd as [Hc Hnd]. rewrite IH by done. rewrite changed_cons. setoid_rewrite elem_of_cons.
  assert (changed cs k → k ≠ Change_Key c) by (intros Hk ->; by apply Hc).
  destruct (Change_Delete c) eqn:Ed.
  - rewrite lookup_delete_Some. split; [intros [[[? ?] ?]|(c' & ? & ? & ? & ?)]|intros [[? ?]|(c' & [->|?] & ? & ? & ?)]].
    + left. split; [done|]. intros [?|?]; congruence.
    + right. exists c'. eauto.
    + left. naive_solver.
    + congruence.
    + right. exists c'. eauto.
  - rewrite lookup_insert_Some. split; [intros [[[[? <-]|[? ?]] ?]|(c' & ? & ? & ? & ?)]|intros [[? ?]|(c' & [->|?] & ? & <- & ->)]].
    + right. exists c. eauto.
    + left. split; [done|]. intros [?|?]; congruence.
    + right. exists c'. eauto.
    + left. naive_solver.
    + left. split; [by left|]. intros ?. by apply Hc.
    + right. exists c'. eauto.
Qed.

Lemma edited_map changes es es' :
  sorted_entries es → sorted_entries es' → NoDup (map Change_Key changes) → edited changes es es' →
  entries_map es' = change_map changes (entries_map es).
Proof.
  intros Hs Hs' Hnd He. apply map_eq. intros k. apply option_eq. intros e.
  rewrite entries_map_lookup, change_map_lookup, entries_map_lookup by done. rewrite (He e). unfold writes. split.
  - intros [[[? ?]|(c & ? & ? & ->)] <-]; [by left|right]. exists c. done.
  - intros [[[? <-] ?]|(c & ? & ? & <- & ->)]; [split; [by left|done]|]. split; [|done]. right. eauto.
Qed.

(** C29: when [apply_] succeeds on changes with distinct keys, and the session
    has met no digest collision, the new root holds sorted, valid entries that
    are the old ones with every change inserted, replaced or deleted; the old
    root still holds what it held (pages are immutable). *)
Theorem apply_correct (st st' : St) (root root' : DomainTreeRoot) (changes : list DomainChange) (es : list DomainEntry) :
  ps_inv st → holds st root es → NoDup (map Change_Key changes) →
  apply_ root changes st = (Ok root', st') → no_collision st' →
  ps_inv st' ∧ holds st' root es ∧
  ∃ es', holds st' root' es' ∧ sorted_entries es' ∧ Forall entry_ok es' ∧
    entries_map es' = change_map changes (entries_map es).
Proof.
  intros Hi Hh Hnd E Hn. destruct (apply_spec _ _ _ _ _ Hi E) as [[Hi' He] Hs].
  split; [done|]. split; [by eapply holds_extends|]. destruct (Hs root' es eq_refl Hn Hh Hnd) as (es' & Hh' & Hed).
  destruct (holds_sorted _ _ _ Hi' Hh') as [Hs' Hok]. exists es'. split; [done|]. split; [done|]. split; [done|].
  apply edited_map; [apply (holds_sorted _ _ _ Hi Hh)|done..].
Qed.

(** ** Rebuilding a whole tree *)

Lemma fold_insert_lookup (es : list DomainEntry) (m : gmap gostring DomainEntry) (k : gostring) :
  fold_left (λ (values : gmap gostring DomainEntry) entry, <[Entry_Key entry := entry]> values) es m !! k =
    match entries_map (reverse es) !! k with Some e => Some e | None => m !! k end.
Proof.
  unfold entries_map. revert m. induction es as [|e es IH] using rev_ind; intros m; [done|].
  rewrite fold_left_app, reverse_app. cbn. destruct (decide (Entry_Key e = k)) as [->|Hne].
  - by rewrite !lookup_insert_eq.
  - rewrite !lookup_insert_ne by done. apply IH.
Qed.

Lemma fold_insert_map es :
  sorted_entries es → fold_left (λ (values : gmap gostring DomainEntry) entry, <[Entry_Key entry := entry]> values) es (∅ : gmap gostring DomainEntry) = entries_map es.
Proof.
  intros Hs. apply map_eq. intros k. rewrite fold_insert_lookup, lookup_empty.
  assert (entries_map (reverse es) = entries_map es) as ->; [|by destruct (entries_map es !! k)].
  unfold entries_map. apply list_to_map_proper; [|by rewrite reverse_Permutation].
  rewrite map_map. cbn. rewrite reverse_Permutation. by apply sorted_lt_NoDup.
Qed.

Definition keyed (m : gmap gostring DomainEntry) : Prop := ∀ k e, m !! k = Some e → Entry_Key e = k.

Lemma change_map_keyed changes m : keyed m → keyed (change_map changes m).
Proof.
  unfold change_map. revert m. induction changes as [|c cs IH]; intros m Hm; [done|]. cbn [fold_left]. apply IH.
  intros k e. destruct (Change_Delete c).
  - intros [_ ?]%lookup_delete_Some. by apply Hm.
  - intros [[? <-]|[_ ?]]%lookup_insert_Some; [done|by apply Hm].
Qed.

(** The entries of a map, in key order. *)
Lemma materialized_map values :
  keyed values →
  let es := omap (λ key, values !! key) (sort_Strings (map fst (map_to_list values))) in
  sorted_entries es ∧ entries_map es = values.
Proof.
  intros Hk es.
  assert (sorted_entries es) as Hs.
  { unfold sorted_entries, es. apply omap_sorted_keys; [done|]. apply sort_Strings_sorted. apply NoDup_fst_map_to_list. }
  split; [done|]. apply map_eq. intros k. apply option_eq. intros e. rewrite entries_map_lookup by done.
  unfold es. rewrite list_elem_of_omap. unfold sort_Strings. setoid_rewrite (Permutation_elem _ _ (merge_sort_Permutation _ _)).
  split.
  - intros [(k' & _ & Hv) Ek]. rewrite <-Ek. by rewrite (Hk _ _ Hv).
  - intros Hv. split; [|by apply Hk]. exists k. split; [|done].
    apply list_elem_of_fmap. exists (k, e). split; [done|]. by apply elem_of_map_to_list.
Qed.

Lemma select_all es : Forall entry_ok es → select [] [] es = clone_entry <$> es.
Proof.
  intros Hok. unfold select. rewrite list_filter_all; [done|]. eapply list.Forall_impl; [exact Hok|]. intros e He.
  destruct He as [(Hne & _)%validDomainText_spec _]. split; [|apply prefix_nil].
  destruct (Entry_Key e); [done|]. done.
Qed.

Lemma clone_sorted es : sorted_entries es → sorted_entries (clone_entry <$> es).
Proof. unfold sorted_entries. intros Hs. unfold fmap, list_fmap. fold (map clone_entry es). by rewrite map_map. Qed.

Lemma clone_map es : entries_map (clone_entry <$> es) = clone_entry <$> entries_map es.
Proof.
  unfold entries_map. induction es as [|e es IH]; [symmetry; apply fmap_empty|]. cbn. by rewrite fmap_insert, <-IH.
Qed.

Lemma with_force_pack_grows {A} (m : GoM St error A) st x st' :
  ps_inv st → with_force_pack m st = (x, st') →
  ∃ st1 st2, grows st st1 ∧ m st1 = (x, st2) ∧ (grows st1 st2 → grows st2 st' ∧ grows st st').
Proof.
  intros Hi. unfold with_force_pack. destruct (setForcePack true st) as [y st1] eqn:E1.
  destruct (setForcePack_sound _ _ _ _ Hi E1) as [_ Hg1].
  destruct (m st1) as [z st2] eqn:E2. destruct (setForcePack false st2) as [w st3] eqn:E3. intros [= <- <-].
  exists st1, st2. split; [done|]. split; [done|]. intros Hg2.
  destruct (setForcePack_sound _ _ _ _ (proj1 Hg2) E3) as [_ Hg3]. split; [done|].
  eapply grows_trans; [exact Hg1|]. by eapply grows_trans.
Qed.

(** A rebuild reads the whole tree, overlays the changes and writes a new
    tree; its root holds exactly the entries [apply_] would give, values cloned,
    and the old root still holds what it held. *)
Theorem rebuild_correct (st st' : St) (root root' : DomainTreeRoot) (changes : list DomainChange) (es : list DomainEntry) :
  ps_inv st → holds st root es →
  rebuild root changes st = (Ok root', st') → no_collision st' →
  ps_inv st' ∧ holds st' root es ∧
  ∃ es', holds st' root' es' ∧ sorted_entries es' ∧
    entries_map es' = change_map changes (clone_entry <$> entries_map es).
Proof.
  intros Hi Hh E Hn'. unfold rebuild in E. inv_go.
  match goal with Hc : collect _ _ _ _ _ = (Ok ?c, ?s) |- _ => rename c into collected; rename s into st1; rename Hc into Ec end.
  destruct (holds_sorted _ _ _ Hi Hh) as [Hs Hok]. pose proof (growing_collect _ _ _ _ _ _ _ Hi Ec) as Hg1.
  destruct (with_force_pack_grows _ _ _ _ (proj1 Hg1) E) as (st2 & st3 & Hg2 & Eb & Hg3).
  destruct (buildTree_spec _ _ _ _ (proj1 Hg2) Eb) as [Hgb Hb]. destruct (Hg3 Hgb) as [Hg4 Hg5].
  assert (grows st st') as [Hi' He] by (by eapply grows_trans).
  assert (no_collision st1) as Hn1 by (by eapply no_collision_extends; [apply Hg5|]).
  assert (collected = clone_entry <$> es) as ->.
  { destruct Hh as [[Hd ->]|[Hd [l Hl]]].
    - unfold collect in Ec. rewrite bool_decide_eq_true_2 in Ec by done. by injection Ec as <- <-.
    - pose proof (holds_level _ _ _ _ Hi Hl) as [_ Hcount]. rewrite Hcount in Ec.
      replace (len es + 1) with (Z.of_nat (S (length es))) in Ec by (unfold len; lia).
      eapply collect_ok in Ec as [_ Ha]; [|done|right; eauto|lia]. specialize (Ha Hn1). apply answered_Ok in Ha as ->. rewrite select_all by done.
      rewrite take_ge; [done|]. rewrite length_fmap. lia. }
  split; [done|]. split; [by eapply holds_extends|].
  unfold rebuild_values in Hb. rewrite fold_insert_map, clone_map in Hb by (by apply clone_sorted).
  fold (change_map changes (clone_entry <$> entries_map es)) in Hb.
  destruct (materialized_map (change_map changes (clone_entry <$> entries_map es))) as [Hsm Hm].
  { apply change_map_keyed. intros k e (e0 & <- & [_ ?]%entries_map_lookup)%lookup_fmap_Some; [done|done]. }
  eexists. split; [eapply holds_extends; [apply Hg4|]; apply Hb; [done|]|by split].
  eapply no_collision_extends; [apply Hg4|done].
Qed.

(** C38: Reads see writes: after [apply_] succeeds, looking up any key at the new
    root answers with the change under that key (nothing when it deletes) and
    otherwise with what the old root held, and the old root still answers as
    before; both read again, unless the provider fails. *)
Theorem apply_then_lookup (st st' : St) (root root' : DomainTreeRoot) (changes : list DomainChange)
    (es : list DomainEntry) (key : gostring) :
  ps_inv st → holds st root es → NoDup (map Change_Key changes) →
  apply_ root changes st = (Ok root', st') → no_collision st' →
  yields st' (lookup root' key) (value_of <$> change_map changes (entries_map es) !! key) ∧
  yields st' (lookup root key) (value_of <$> entries_map es !! key).
Proof.
  intros Hi Hh Hnd E Hn. destruct (apply_spec _ _ _ _ _ Hi E) as [[Hi' He] Hs].
  destruct (Hs root' es eq_refl Hn Hh Hnd) as (es' & Hh' & Hed). destruct (holds_sorted _ _ _ Hi' Hh') as [Hs' _].
  rewrite <-(edited_map changes es es'); [|apply (holds_sorted _ _ _ Hi Hh)|done..]. split.
  - by apply lookup_ok.
  - apply lookup_ok; [done|by eapply holds_extends].
Qed.
End Apply.
End TreeEdit.
