(* ===== verification/DomainPack.v ===== *)
(** * Page packs and object keys: internal/storageformat/{domain_pack,compression,keys}.go

    A pack coalesces the immutable pages of one mutation in one object: a magic
    line followed by a gzip member of the pack's canonical JSON. *)

From Stdlib Require Import ZArith Lia.
From S2P Require Import Prelude GoLib GoHash GoJSON Errors ObjectStore DomainPage.

Open Scope Z_scope.

(** What remains of reading a gzip member through a limited reader: opening it,
    reading it and closing it can fail. *)
Inductive gzip_failure := OpenFailed (cause : error) | ReadFailed (cause : error) | CloseFailed (cause : error).

(** [compress/gzip] at the fixed level and header of [encodeDeterministicGZIP];
    [gzip_expand data limit] is [io.ReadAll(io.LimitReader(reader, limit))]. *)
Class GZIP := {
  gzip_compress : gostring → gostring;
  gzip_expand : gostring → Z → result gzip_failure gostring;
}.

Class GZIPLaws `{GZIP} : Prop := {
  gzip_roundtrip data limit : len data ≤ limit → gzip_expand (gzip_compress data) limit = Ok data;
}.

Module DomainPack.
Import StorageFormat ObjectStore.

(** ** keys.go *)

Definition root : gostring := "endlessfs/v1/".

Definition base32_alphabet : gostring := "abcdefghijklmnopqrstuvwxyz234567".

(** The bits of a byte, most significant first. *)
Definition byte_bits (c : ascii) : list bool := map (λ i, Z.testbit (byte_val c) (Z.of_nat i)) (reverse (seq 0 8)).
Definition bits_value (bits : list bool) : Z := fold_left (λ v (b : bool), 2 * v + if b then 1 else 0) bits 0.

(** [base32] without padding: five bits per character, the last filled with zeros. *)
Fixpoint base32_chars (fuel : nat) (bits : list bool) : gostring :=
  match fuel, bits with
  | S fuel, _ :: _ =>
      default nul (base32_alphabet !! Z.to_nat (bits_value (take 5 (bits ++ replicate 4 false))))
        :: base32_chars fuel (drop 5 bits)
  | _, _ => []
  end.
Definition base32Lower (data : gostring) : gostring :=
  let bits := concat (map byte_bits data) in base32_chars (length bits) bits.

Definition panic : error := OtherError "panic: invalid consistency-domain key".

Definition validateDomainKeyPart (value : gostring) : res unit := guard_err (negb (validDomainText value)) panic.
Definition domainKeyKind (kind : ConsistencyDomainKind) : res gostring :=
  _ ← guard_err (negb (validDomainKind kind)) panic; Ok kind.

Section Keys.
Context `{SHA256}.

Definition digestPart (value : gostring) : gostring := base32Lower (sha256 value).

Definition fixedKey (value : gostring) : res Key := MustKey (root ++ value).

Definition DomainCatalogPageKey (pageID : gostring) : res Key :=
  _ ← validateDomainKeyPart pageID;
  fixedKey ("domains/catalog/pages/" ++ digestPart pageID ++ ".json").

Definition DomainPageKey (kind : ConsistencyDomainKind) (domainID pageID : gostring) : res Key :=
  _ ← validateDomainKeyPart domainID;
  _ ← validateDomainKeyPart pageID;
  kind ← domainKeyKind kind;
  fixedKey ("domains/" ++ kind ++ "/" ++ digestPart domainID ++ "/pages/" ++ digestPart pageID ++ ".json").

Definition DomainPagePackKey (kind : ConsistencyDomainKind) (domainID packID : gostring) : res Key :=
  _ ← validateDomainKeyPart domainID;
  _ ← validateDomainKeyPart packID;
  kind ← domainKeyKind kind;
  fixedKey ("domains/" ++ kind ++ "/" ++ digestPart domainID ++ "/packs/" ++ digestPart packID ++ ".bin").
End Keys.

(** ** Packs *)

Record DomainPackedPage := { Packed_Digest : gostring; Packed_Page : DomainPage }.

Record DomainPagePack := {
  Pack_SchemaVersion : Z;
  Pack_DomainID : gostring;
  Pack_Kind : ConsistencyDomainKind;
  Pack_PackID : gostring;
  Pack_Pages : list DomainPackedPage;
}.

Definition MaxDomainPagePackBytes : Z := Z.shiftl 4 20.
Definition MaxExpandedDomainPagePackBytes : Z := Z.shiftl 32 20.
Definition domainPagePackMagic : gostring := bs "EFS-PACK-1" ++ [byte_of 10].

Definition json_packed (p : DomainPackedPage) : gostring :=
  json_object [json_field "digest" (json_string false (Packed_Digest p));
               json_field "page" (json_page (Packed_Page p))].

Definition json_pack (p : DomainPagePack) : gostring :=
  json_object [json_field "schemaVersion" (json_uint (Pack_SchemaVersion p));
               json_field "domainID" (json_string false (Pack_DomainID p));
               json_field "kind" (json_string false (Pack_Kind p));
               json_field "packID" (json_string false (Pack_PackID p));
               json_field "pages" (if bool_decide (Pack_Pages p = []) then bs "null"
                                   else json_array (map json_packed (Pack_Pages p)))].

Section Packs.
Context `{SHA256} `{GZIP}.

(** The loop over the members; [previous] is the last digest. *)
Fixpoint check_packed (pack : DomainPagePack) (previous : gostring) (pages : list DomainPackedPage) : res unit :=
  match pages with
  | [] => Ok tt
  | packed :: pages =>
      _ ← guard_err (negb (validDomainDigest (Packed_Digest packed))
                     || (bool_decide (previous ≠ []) && (Packed_Digest packed <=? previous)%bytes)
                     || bool_decide (Page_DomainID (Packed_Page packed) ≠ Pack_DomainID pack)
                     || bool_decide (Page_Kind (Packed_Page packed) ≠ Pack_Kind pack))
            (NewError ErrorInvalid "invalid consistency-domain packed page binding");
      _ ← ValidateDomainPage (Packed_Page packed) (Packed_Digest packed);
      check_packed pack (Packed_Digest packed) pages
  end.

Definition ValidateDomainPagePack (pack : DomainPagePack) : res unit :=
  _ ← guard_err (negb (Pack_SchemaVersion pack =? 1) || negb (validDomainText (Pack_DomainID pack))
                 || negb (validDomainKind (Pack_Kind pack)) || negb (validDomainDigest (Pack_PackID pack))
                 || bool_decide (Pack_Pages pack = []))
        (NewError ErrorInvalid "invalid consistency-domain page pack");
  check_packed pack [] (Pack_Pages pack).

Definition ErrDomainPagePackTooLarge : error := OtherError "consistency-domain page pack exceeds encoding bounds".

Definition encodeDeterministicGZIP (magic canonical : gostring) : gostring := magic ++ gzip_compress canonical.

(** The encoder hands [Write] the whole value and its newline at once. *)
Definition encodeValidatedDomainPagePack (pack : DomainPagePack) : res gostring :=
  let canonical := json_pack pack in
  _ ← guard_err ((len canonical =? 0) || (MaxExpandedDomainPagePackBytes <? len canonical))
        (WrapError ErrorInvalid "expanded consistency-domain page pack exceeds size limit" ErrDomainPagePackTooLarge);
  let compressed := encodeDeterministicGZIP domainPagePackMagic canonical in
  _ ← guard_err (MaxDomainPagePackBytes <? len compressed)
        (WrapError ErrorInvalid "consistency-domain page pack exceeds size limit" ErrDomainPagePackTooLarge);
  Ok compressed.

Definition packed_le (a b : DomainPackedPage) : Prop := bytes_le (Packed_Digest a) (Packed_Digest b).
#[export] Instance packed_le_dec a b : Decision (packed_le a b).
Proof. unfold packed_le. apply _. Defined.

Definition EncodeDomainPagePack (pack : DomainPagePack) : res gostring :=
  let pack := {| Pack_SchemaVersion := Pack_SchemaVersion pack; Pack_DomainID := Pack_DomainID pack;
                 Pack_Kind := Pack_Kind pack; Pack_PackID := Pack_PackID pack;
                 Pack_Pages := merge_sort packed_le (Pack_Pages pack) |} in
  _ ← ValidateDomainPagePack pack;
  encodeValidatedDomainPagePack pack.

(** ** Reading a pack back *)

Definition read_packed : reader DomainPackedPage :=
  _ ← read_lit "{";
  digest ← read_field "digest" read_string;
  _ ← read_lit ",";
  page ← read_field "page" read_page;
  _ ← read_lit "}";
  mret {| Packed_Digest := digest; Packed_Page := page |}.

Definition read_pack : reader DomainPagePack :=
  _ ← read_lit "{";
  schema ← read_field "schemaVersion" read_int;
  _ ← read_lit ",";
  id ← read_field "domainID" read_string;
  _ ← read_lit ",";
  kind ← read_field "kind" read_string;
  _ ← read_lit ",";
  packID ← read_field "packID" read_string;
  _ ← read_lit ",";
  pages ← read_field "pages" (read_array read_packed);
  _ ← read_lit "}";
  mret {| Pack_SchemaVersion := schema; Pack_DomainID := id; Pack_Kind := kind; Pack_PackID := packID;
          Pack_Pages := pages |}.

Definition canceled (ctx : context) : res unit :=
  match ctx with
  | None => Ok tt
  | Some cause => Err (WrapError ErrorUnavailable "consistency-domain pack decode canceled" cause)
  end.

(** Without a prior validation proof; the decode slot is free, and what the
    JSON decoder accepts must encode to the same bytes again. *)
Definition DecodeDomainPagePack (ctx : context) (data expectedDomainID : gostring)
    (expectedKind : ConsistencyDomainKind) (expectedPackID : gostring) : res DomainPagePack :=
  _ ← canceled ctx;
  _ ← guard_err ((len data <=? len domainPagePackMagic) || (MaxDomainPagePackBytes <? len data)
                 || negb (HasPrefix data domainPagePackMagic))
        (NewError ErrorInvalid "invalid consistency-domain page pack envelope");
  expanded ← match gzip_expand (drop (length domainPagePackMagic) data) (MaxExpandedDomainPagePackBytes + 1) with
             | Ok expanded => Ok expanded
             | Err (OpenFailed cause) => Err (WrapError ErrorInvalid "open consistency-domain page pack" cause)
             | Err (ReadFailed cause) => Err (WrapError ErrorInvalid "expand consistency-domain page pack" cause)
             | Err (CloseFailed cause) => Err (WrapError ErrorInvalid "close consistency-domain page pack" cause)
             end;
  _ ← guard_err ((len expanded =? 0) || (MaxExpandedDomainPagePackBytes <? len expanded))
        (NewError ErrorInvalid "expanded consistency-domain page pack exceeds size limit");
  match read_pack expanded with
  | Some (pack, []) =>
      _ ← guard_err (bool_decide (Pack_DomainID pack ≠ expectedDomainID) || bool_decide (Pack_Kind pack ≠ expectedKind)
                     || bool_decide (Pack_PackID pack ≠ expectedPackID))
            (NewError ErrorInvalid "consistency-domain page pack key binding mismatch");
      _ ← ValidateDomainPagePack pack;
      match encodeValidatedDomainPagePack pack with
      | Ok canonical =>
          _ ← guard_err (bool_decide (canonical ≠ data))
                (NewError ErrorInvalid "non-canonical consistency-domain page pack encoding");
          Ok pack
      | Err _ => Err (NewError ErrorInvalid "non-canonical consistency-domain page pack encoding")
      end
  | _ => Err (WrapError ErrorInvalid "invalid consistency-domain page pack JSON" (OtherError "json: cannot unmarshal"))
  end.

(** [for _, packed := range decoded.Pages { pages[packed.Digest] = packed.Page }] *)
Definition index_pack (pack : DomainPagePack) : gmap gostring DomainPage :=
  fold_left (λ (m : gmap gostring DomainPage) packed, <[Packed_Digest packed := Packed_Page packed]> m) (Pack_Pages pack) ∅.
End Packs.
End DomainPack.
