(* ===== verification/DomainHead.v ===== *)
(** * Heads, outcomes and envelopes: internal/storageformat/{domains,format,keys,transitions009}.go

    The mutable documents of a consistency domain: the head that makes one
    state of the domain visible, the outcome records that make mutations
    idempotent, the catalog of domains, and the canonical envelope that binds
    a document to its key and revision. *)

From Stdlib Require Import ZArith Lia.
From S2P Require Import Prelude GoLib GoHash GoJSON GoTime Errors ObjectStore DomainPage DomainPack.

Open Scope Z_scope.

Module DomainHead.
Import StorageFormat ObjectStore DomainPack.

(** ** domains.go: data *)

Record DomainDelta := {
  Delta_MutationID : gostring;
  Delta_Fingerprint : gostring;
  Delta_Revision : Z;
  Delta_RetainUntil : Z;
  Delta_Changes : list DomainChange;
  Delta_Result : option gostring;
}.

Record DomainOutcome := {
  Outcome_MutationID : gostring;
  Outcome_Fingerprint : gostring;
  Outcome_Revision : Z;
  Outcome_RetainUntil : Z;
  Outcome_Result : option gostring;
}.

Record DomainHead := {
  Head_SchemaVersion : Z;
  Head_DomainID : gostring;
  Head_Kind : ConsistencyDomainKind;
  Head_Registered : bool;
  Head_Revision : Z;
  Head_Frozen : bool;
  Head_FreezeEpoch : Z;
  Head_BaseRevision : Z;
  Head_Base : DomainTreeRoot;
  Head_Outcomes : DomainTreeRoot;
  Head_OutcomeExpiry : DomainTreeRoot;
  Head_Deltas : list DomainDelta;
}.

Record DomainSnapshot := {
  Snapshot_SchemaVersion : Z;
  Snapshot_DomainID : gostring;
  Snapshot_Kind : ConsistencyDomainKind;
  Snapshot_Head : DomainHead;
  Snapshot_ExpiresAt : Z;
}.

Record DomainCatalogEntry := {
  Catalog_DomainID : gostring;
  Catalog_Kind : ConsistencyDomainKind;
  Catalog_HeadKey : gostring;
}.
#[export] Instance DomainCatalogEntry_eq_dec : EqDecision DomainCatalogEntry.
Proof. solve_decision. Defined.

Record DomainCatalogHead := {
  CatalogHead_SchemaVersion : Z;
  CatalogHead_Revision : Z;
  CatalogHead_FreezeEpoch : Z;
  CatalogHead_Root : DomainTreeRoot;
}.

Record TransitionLock009 := {
  Lock_SchemaVersion : Z;
  Lock_TransitionID : gostring;
  Lock_Fingerprint : gostring;
  Lock_Kind : ConsistencyDomainKind;
  Lock_DomainID : gostring;
}.

(** ** Canonical JSON *)

Definition text_field (name value : gostring) : gostring := json_field name (json_string false value).
Definition uint_field (name : gostring) (value : Z) : gostring := json_field name (json_uint value).
(** A string, number or byte slice with [omitempty]. *)
Definition omit_text (name value : gostring) : list gostring := json_omit (bool_decide (value ≠ [])) (text_field name value).
Definition omit_uint (name : gostring) (value : Z) : list gostring := json_omit (negb (value =? 0)) (uint_field name value).
Definition omit_bytes (name : gostring) (value : option gostring) : list gostring :=
  json_omit (negb (bytes_len value =? 0)) (json_field name (json_slice value)).

Definition json_change (c : DomainChange) : gostring :=
  json_object ([text_field "key" (Change_Key c)]
    ++ json_omit (Change_Delete c) (json_field "delete" (json_bool true))
    ++ omit_bytes "value" (Change_Value c) ++ omit_text "logicalVersion" (Change_LogicalVersion c)).

(** A nil slice is [null]; the deltas that are stored have changes. *)
Definition json_delta (d : DomainDelta) : gostring :=
  json_object ([text_field "mutationID" (Delta_MutationID d); text_field "fingerprint" (Delta_Fingerprint d);
                uint_field "revision" (Delta_Revision d); json_field "retainUntil" (json_time (Delta_RetainUntil d));
                json_field "changes" (if bool_decide (Delta_Changes d = []) then bs "null"
                                      else json_array (map json_change (Delta_Changes d)))]
    ++ omit_bytes "result" (Delta_Result d)).

Definition json_outcome (o : DomainOutcome) : gostring :=
  json_object ([text_field "mutationID" (Outcome_MutationID o); text_field "fingerprint" (Outcome_Fingerprint o);
                uint_field "revision" (Outcome_Revision o); json_field "retainUntil" (json_time (Outcome_RetainUntil o))]
    ++ omit_bytes "result" (Outcome_Result o)).

Definition json_root (r : DomainTreeRoot) : gostring :=
  json_object (omit_text "digest" (Root_Digest r) ++ omit_text "packID" (Root_PackID r)
    ++ [uint_field "level" (Root_Level r); uint_field "entryCount" (Root_EntryCount r)]
    ++ omit_uint "byteCount" (Root_ByteCount r)).

Definition json_head (h : DomainHead) : gostring :=
  json_object ([uint_field "schemaVersion" (Head_SchemaVersion h); text_field "domainID" (Head_DomainID h);
                text_field "kind" (Head_Kind h); json_field "registered" (json_bool (Head_Registered h));
                uint_field "revision" (Head_Revision h)]
    ++ json_omit (Head_Frozen h) (json_field "frozen" (json_bool true))
    ++ omit_uint "freezeEpoch" (Head_FreezeEpoch h) ++ omit_uint "baseRevision" (Head_BaseRevision h)
    ++ [json_field "base" (json_root (Head_Base h)); json_field "outcomes" (json_root (Head_Outcomes h));
        json_field "outcomeExpiry" (json_root (Head_OutcomeExpiry h))]
    ++ json_omit (bool_decide (Head_Deltas h ≠ [])) (json_field "deltas" (json_array (map json_delta (Head_Deltas h))))).

Definition json_snapshot (s : DomainSnapshot) : gostring :=
  json_object [uint_field "schemaVersion" (Snapshot_SchemaVersion s); text_field "domainID" (Snapshot_DomainID s);
               text_field "kind" (Snapshot_Kind s); json_field "head" (json_head (Snapshot_Head s));
               json_field "expiresAt" (json_time (Snapshot_ExpiresAt s))].

Definition json_catalog_entry (e : DomainCatalogEntry) : gostring :=
  json_object [text_field "domainID" (Catalog_DomainID e); text_field "kind" (Catalog_Kind e);
               text_field "headKey" (Catalog_HeadKey e)].

Definition json_catalog_head (h : DomainCatalogHead) : gostring :=
  json_object ([uint_field "schemaVersion" (CatalogHead_SchemaVersion h); uint_field "revision" (CatalogHead_Revision h)]
    ++ omit_uint "freezeEpoch" (CatalogHead_FreezeEpoch h) ++ [json_field "root" (json_root (CatalogHead_Root h))]).

Definition json_lock (l : TransitionLock009) : gostring :=
  json_object [uint_field "schemaVersion" (Lock_SchemaVersion l); text_field "transitionID" (Lock_TransitionID l);
               text_field "fingerprint" (Lock_Fingerprint l); text_field "kind" (Lock_Kind l);
               text_field "domainID" (Lock_DomainID l)].

(** ** Reading it back *)

(** An optional field before the last mandatory one: its comma comes after it. *)
Definition read_lead {A} (name : gostring) (absent : A) (r : reader A) : reader A :=
  read_opt (json_quote name ++ ":") absent (a ← r; _ ← read_lit ","; mret a).

Definition read_bool : reader bool := λ s,
  match read_lit "true" s with
  | Some (_, rest) => Some (true, rest)
  | None => (_ ← read_lit "false"; mret false : reader bool) s
  end.

Definition next_field {A} (name : gostring) (r : reader A) : reader A := _ ← read_lit ","; read_field name r.

Definition read_change : reader DomainChange :=
  _ ← read_lit "{"; key ← read_field "key" read_string;
  delete ← read_omit "delete" false read_bool; value ← read_omit "value" None read_slice;
  version ← read_omit "logicalVersion" [] read_string; _ ← read_lit "}";
  mret {| Change_Key := key; Change_Delete := delete; Change_Value := value; Change_LogicalVersion := version |}.

Definition read_delta : reader DomainDelta :=
  _ ← read_lit "{"; id ← read_field "mutationID" read_string; fingerprint ← next_field "fingerprint" read_string;
  revision ← next_field "revision" read_uint64; retain ← next_field "retainUntil" read_time;
  changes ← next_field "changes" (read_array read_change); result ← read_omit "result" None read_slice; _ ← read_lit "}";
  mret {| Delta_MutationID := id; Delta_Fingerprint := fingerprint; Delta_Revision := revision;
          Delta_RetainUntil := retain; Delta_Changes := changes; Delta_Result := result |}.

Definition read_outcome : reader DomainOutcome :=
  _ ← read_lit "{"; id ← read_field "mutationID" read_string; fingerprint ← next_field "fingerprint" read_string;
  revision ← next_field "revision" read_uint64; retain ← next_field "retainUntil" read_time;
  result ← read_omit "result" None read_slice; _ ← read_lit "}";
  mret {| Outcome_MutationID := id; Outcome_Fingerprint := fingerprint; Outcome_Revision := revision;
          Outcome_RetainUntil := retain; Outcome_Result := result |}.

Definition read_root : reader DomainTreeRoot :=
  _ ← read_lit "{"; digest ← read_lead "digest" [] read_string; packID ← read_lead "packID" [] read_string;
  level ← read_field "level" read_int; entries ← next_field "entryCount" read_uint64;
  bytes ← read_omit "byteCount" 0 read_uint64; _ ← read_lit "}";
  mret {| Root_Digest := digest; Root_PackID := packID; Root_Level := level; Root_EntryCount := entries; Root_ByteCount := bytes |}.

Definition read_head : reader DomainHead :=
  _ ← read_lit "{"; schema ← read_field "schemaVersion" read_int; id ← next_field "domainID" read_string;
  kind ← next_field "kind" read_string; registered ← next_field "registered" read_bool;
  revision ← next_field "revision" read_uint64; frozen ← read_omit "frozen" false read_bool;
  epoch ← read_omit "freezeEpoch" 0 read_uint64; baseRevision ← read_omit "baseRevision" 0 read_uint64;
  base ← next_field "base" read_root; outcomes ← next_field "outcomes" read_root;
  expiry ← next_field "outcomeExpiry" read_root; deltas ← read_omit "deltas" [] (read_array read_delta); _ ← read_lit "}";
  mret {| Head_SchemaVersion := schema; Head_DomainID := id; Head_Kind := kind; Head_Registered := registered;
          Head_Revision := revision; Head_Frozen := frozen; Head_FreezeEpoch := epoch; Head_BaseRevision := baseRevision;
          Head_Base := base; Head_Outcomes := outcomes; Head_OutcomeExpiry := expiry; Head_Deltas := deltas |}.

Definition read_snapshot : reader DomainSnapshot :=
  _ ← read_lit "{"; schema ← read_field "schemaVersion" read_int; id ← next_field "domainID" read_string;
  kind ← next_field "kind" read_string; head ← next_field "head" read_head; expires ← next_field "expiresAt" read_time;
  _ ← read_lit "}";
  mret {| Snapshot_SchemaVersion := schema; Snapshot_DomainID := id; Snapshot_Kind := kind; Snapshot_Head := head;
          Snapshot_ExpiresAt := expires |}.

Definition read_catalog_entry : reader DomainCatalogEntry :=
  _ ← read_lit "{"; id ← read_field "domainID" read_string; kind ← next_field "kind" read_string;
  key ← next_field "headKey" read_string; _ ← read_lit "}";
  mret {| Catalog_DomainID := id; Catalog_Kind := kind; Catalog_HeadKey := key |}.

Definition read_catalog_head : reader DomainCatalogHead :=
  _ ← read_lit "{"; schema ← read_field "schemaVersion" read_int; revision ← next_field "revision" read_uint64;
  epoch ← read_omit "freezeEpoch" 0 read_uint64; root ← next_field "root" read_root; _ ← read_lit "}";
  mret {| CatalogHead_SchemaVersion := schema; CatalogHead_Revision := revision; CatalogHead_FreezeEpoch := epoch;
          CatalogHead_Root := root |}.

Definition read_lock : reader TransitionLock009 :=
  _ ← read_lit "{"; schema ← read_field "schemaVersion" read_int; id ← next_field "transitionID" read_string;
  fingerprint ← next_field "fingerprint" read_string; kind ← next_field "kind" read_string;
  domainID ← next_field "domainID" read_string; _ ← read_lit "}";
  mret {| Lock_SchemaVersion := schema; Lock_TransitionID := id; Lock_Fingerprint := fingerprint; Lock_Kind := kind;
          Lock_DomainID := domainID |}.

(** ** Encoding and decoding documents *)

(** A document type: its text, the instants it shows, and its reader. *)
Class Document (A : Type) := {
  document_text : A → gostring;
  document_times : A → list Z;
  document_reader : reader A;
}.

#[export] Instance head_document : Document DomainHead :=
  {| document_text := json_head; document_times h := map Delta_RetainUntil (Head_Deltas h); document_reader := read_head |}.
#[export] Instance delta_document : Document DomainDelta :=
  {| document_text := json_delta; document_times d := [Delta_RetainUntil d]; document_reader := read_delta |}.
#[export] Instance outcome_document : Document DomainOutcome :=
  {| document_text := json_outcome; document_times o := [Outcome_RetainUntil o]; document_reader := read_outcome |}.
#[export] Instance snapshot_document : Document DomainSnapshot :=
  {| document_text := json_snapshot;
     document_times s := map Delta_RetainUntil (Head_Deltas (Snapshot_Head s)) ++ [Snapshot_ExpiresAt s];
     document_reader := read_snapshot |}.
#[export] Instance catalog_entry_document : Document DomainCatalogEntry :=
  {| document_text := json_catalog_entry; document_times _ := []; document_reader := read_catalog_entry |}.
#[export] Instance catalog_head_document : Document DomainCatalogHead :=
  {| document_text := json_catalog_head; document_times _ := []; document_reader := read_catalog_head |}.
#[export] Instance lock_document : Document TransitionLock009 :=
  {| document_text := json_lock; document_times _ := []; document_reader := read_lock |}.

Section Documents.
Context {A : Type} `{!Document A}.

(** [EncodeCanonical]; [MarshalJSON] refuses a time beyond year 9999. *)
Definition encode_document (value : A) : res gostring :=
  _ ← guard_err (negb (forallb year_ok (document_times value)))
        (WrapError ErrorInvalid "encode canonical record" (OtherError "Time.MarshalJSON: year outside of range [0,9999]"));
  EncodeCanonical (document_text value).

(** Whatever the strict JSON decoder accepts, it must read the whole text. *)
Definition decode_json (body : gostring) : res A :=
  _ ← guard_err ((len body =? 0) || (MaxCanonicalBytes <? len body)) (NewError ErrorInvalid "invalid state record size");
  match document_reader body with
  | Some (value, []) => Ok value
  | _ => Err (WrapError ErrorInvalid "invalid state record" (OtherError "json: cannot unmarshal"))
  end.

(** [decodeCanonicalValue] *)
Definition decodeCanonicalValue (body : gostring) : res A :=
  value ← decode_json body;
  match encode_document value with
  | Ok canonical => if bool_decide (canonical = body) then Ok value else Err (NewError ErrorInvalid "non-canonical cursor")
  | Err _ => Err (NewError ErrorInvalid "non-canonical cursor")
  end.
End Documents.

(** ** format.go: envelopes *)

Record Envelope := {
  Envelope_Schema : gostring;
  Envelope_Revision : Z;
  Envelope_LogicalVersion : gostring;
  Envelope_Payload : gostring;
}.

Definition json_envelope (e : Envelope) : gostring :=
  json_object [text_field "schema" (Envelope_Schema e); uint_field "revision" (Envelope_Revision e);
               text_field "logicalVersion" (Envelope_LogicalVersion e); json_field "payload" (Envelope_Payload e)].

(** The raw payload reaches to the closing brace. *)
Definition read_payload : reader gostring := λ rest,
  match last rest with
  | Some c => if bool_decide (c = "}"%char) then Some (take (length rest - 1) rest, []) else None
  | None => None
  end.

Definition read_envelope : reader Envelope :=
  _ ← read_lit "{"; schema ← read_field "schema" read_string; revision ← next_field "revision" read_uint64;
  version ← next_field "logicalVersion" read_string; payload ← next_field "payload" read_payload;
  mret {| Envelope_Schema := schema; Envelope_Revision := revision; Envelope_LogicalVersion := version;
          Envelope_Payload := payload |}.

#[export] Instance envelope_document : Document Envelope :=
  {| document_text := json_envelope; document_times _ := []; document_reader := read_envelope |}.

Section Envelopes.
Context `{SHA256}.

Definition logicalVersion (key : Key) (revision : Z) (payload : gostring) : gostring :=
  b64_encode (sha256 (bs "endlessfs-logical-version-v1" ++ [nul] ++ key_value key ++ [nul] ++ put_be 8 revision []
                      ++ sha256 payload)).

Definition EncodeEnvelope {A} `{!Document A} (schema : gostring) (key : Key) (revision : Z) (payload : A) : res gostring :=
  _ ← guard_err (bool_decide (schema = []) || negb (Key_Valid key) || (revision =? 0))
        (NewError ErrorInvalid "invalid canonical envelope");
  payloadBytes ← encode_document payload;
  encode_document {| Envelope_Schema := schema; Envelope_Revision := revision;
                     Envelope_LogicalVersion := logicalVersion key revision payloadBytes; Envelope_Payload := payloadBytes |}.

Definition DecodeEnvelope {A} `{!Document A} (data : gostring) (key : Key) (schema : gostring) : res (Envelope * A) :=
  _ ← guard_err (negb (Key_Valid key) || bool_decide (schema = [])) (NewError ErrorInvalid "invalid canonical envelope destination");
  envelope ← (decode_json data : res Envelope);
  _ ← guard_err (bool_decide (Envelope_Schema envelope ≠ schema) || (Envelope_Revision envelope =? 0)
                 || bool_decide (Envelope_LogicalVersion envelope = []) || (len (Envelope_Payload envelope) =? 0))
        (NewError ErrorInvalid "invalid canonical envelope fields");
  payload ← (decode_json (Envelope_Payload envelope) : res A);
  payloadBytes ← encode_document payload;
  _ ← guard_err (bool_decide (payloadBytes ≠ Envelope_Payload envelope))
        (NewError ErrorInvalid "non-canonical payload encoding");
  _ ← guard_err (bool_decide (Envelope_LogicalVersion envelope ≠ logicalVersion key (Envelope_Revision envelope) payloadBytes))
        (NewError ErrorInvalid "canonical logical version mismatch");
  canonical ← EncodeEnvelope schema key (Envelope_Revision envelope) payload;
  _ ← guard_err (bool_decide (canonical ≠ data)) (NewError ErrorInvalid "non-canonical envelope encoding");
  Ok (envelope, payload).

(** ** keys.go *)

Definition DomainHeadKey (kind : ConsistencyDomainKind) (domainID : gostring) : res Key :=
  _ ← validateDomainKeyPart domainID;
  kind ← domainKeyKind kind;
  fixedKey ("domains/" ++ kind ++ "/" ++ digestPart domainID ++ "/head.json").

Definition DomainSnapshotKey (kind : ConsistencyDomainKind) (domainID digest : gostring) : res Key :=
  _ ← validateDomainKeyPart domainID;
  _ ← validateDomainKeyPart digest;
  kind ← domainKeyKind kind;
  fixedKey ("domains/" ++ kind ++ "/" ++ digestPart domainID ++ "/snapshots/" ++ digestPart digest ++ ".json").

Definition DomainCatalogHeadKey : res Key := fixedKey "domains/catalog/head.json".
End Envelopes.

(** ** domains.go: validation *)

Fixpoint check_changes (previous : gostring) (changes : list DomainChange) : res unit :=
  match changes with
  | [] => Ok tt
  | change :: changes =>
      _ ← guard_err (negb (validDomainText (Change_Key change))
                     || (bool_decide (previous ≠ []) && (Change_Key change <=? previous)%bytes)
                     || (Change_Delete change
                         && (negb (bytes_len (Change_Value change) =? 0) || bool_decide (Change_LogicalVersion change ≠ [])))
                     || (negb (Change_Delete change) && negb (validDomainText (Change_LogicalVersion change))))
            (NewError ErrorInvalid "invalid consistency-domain change");
      check_changes (Change_Key change) changes
  end.

Fixpoint check_deltas (previousRevision : Z) (deltas : list DomainDelta) : res unit :=
  match deltas with
  | [] => Ok tt
  | delta :: deltas =>
      _ ← guard_err (negb (validDomainText (Delta_MutationID delta)) || negb (validDomainDigest (Delta_Fingerprint delta))
                     || negb (Delta_Revision delta =? u64 (previousRevision + 1)) || IsZero (Delta_RetainUntil delta)
                     || bool_decide (Delta_Changes delta = []))
            (NewError ErrorInvalid "invalid consistency-domain delta");
      _ ← check_changes [] (Delta_Changes delta);
      check_deltas (Delta_Revision delta) deltas
  end.

Definition ValidateDomainHead (head : DomainHead) : res unit :=
  _ ← guard_err (negb (Head_SchemaVersion head =? 1) || bool_decide (Head_DomainID head = [])
                 || negb (validDomainKind (Head_Kind head)) || negb (Head_Registered head))
        (NewError ErrorInvalid "invalid consistency-domain head");
  _ ← validateDomainTreeRoot (Head_Base head);
  _ ← validateDomainTreeRoot (Head_Outcomes head);
  _ ← validateDomainTreeRoot (Head_OutcomeExpiry head);
  _ ← guard_err (negb (Bool.eqb (Head_Frozen head) (negb (Head_FreezeEpoch head =? 0))))
        (NewError ErrorInvalid "invalid consistency-domain freeze binding");
  _ ← guard_err (Head_Revision head <? Head_BaseRevision head)
        (NewError ErrorInvalid "invalid consistency-domain base revision");
  _ ← guard_err ((Head_Revision head =? 0)
                 && (negb (Head_BaseRevision head =? 0) || bool_decide (Root_Digest (Head_Base head) ≠ [])
                     || bool_decide (Root_Digest (Head_Outcomes head) ≠ [])
                     || bool_decide (Root_Digest (Head_OutcomeExpiry head) ≠ []) || bool_decide (Head_Deltas head ≠ [])))
        (NewError ErrorInvalid "zero-revision consistency-domain head is not empty");
  _ ← check_deltas (Head_BaseRevision head) (Head_Deltas head);
  _ ← guard_err (match last (Head_Deltas head) with
                 | Some delta => negb (Delta_Revision delta =? Head_Revision head)
                 | None => false
                 end)
        (NewError ErrorInvalid "consistency-domain revision does not bind its delta window");
  _ ← guard_err (bool_decide (Head_Deltas head = []) && negb (Head_BaseRevision head =? Head_Revision head))
        (NewError ErrorInvalid "consistency-domain base does not bind its revision");
  _ ← encode_document head;
  Ok tt.

Definition ValidateInitialDomainHead (head : DomainHead) : res unit :=
  _ ← guard_err (Head_Registered head || negb (Head_SchemaVersion head =? 1) || bool_decide (Head_DomainID head = [])
                 || negb (validDomainKind (Head_Kind head)) || negb (Head_Revision head =? 0)
                 || negb (Head_BaseRevision head =? 0) || Head_Frozen head || negb (Head_FreezeEpoch head =? 0)
                 || bool_decide (Root_Digest (Head_Base head) ≠ []) || bool_decide (Root_Digest (Head_Outcomes head) ≠ [])
                 || bool_decide (Root_Digest (Head_OutcomeExpiry head) ≠ []) || bool_decide (Head_Deltas head ≠ []))
        (NewError ErrorInvalid "invalid initial consistency-domain head");
  _ ← encode_document head;
  Ok tt.

Definition ValidateDomainSnapshot (snapshot : DomainSnapshot) : res unit :=
  _ ← guard_err (negb (Snapshot_SchemaVersion snapshot =? 1) || IsZero (Snapshot_ExpiresAt snapshot)
                 || bool_decide (Snapshot_DomainID snapshot ≠ Head_DomainID (Snapshot_Head snapshot))
                 || bool_decide (Snapshot_Kind snapshot ≠ Head_Kind (Snapshot_Head snapshot)))
        (NewError ErrorInvalid "invalid consistency-domain snapshot");
  _ ← ValidateDomainHead (Snapshot_Head snapshot);
  _ ← encode_document snapshot;
  Ok tt.

Definition ValidateDomainOutcome (outcome : DomainOutcome) : res unit :=
  _ ← guard_err (negb (validDomainText (Outcome_MutationID outcome)) || negb (validDomainDigest (Outcome_Fingerprint outcome))
                 || (Outcome_Revision outcome =? 0) || IsZero (Outcome_RetainUntil outcome))
        (NewError ErrorInvalid "invalid consistency-domain outcome");
  _ ← encode_document outcome;
  Ok tt.

Definition ValidateDomainCatalogHead (head : DomainCatalogHead) : res unit :=
  _ ← guard_err (negb (CatalogHead_SchemaVersion head =? 1) || (CatalogHead_Revision head =? 0))
        (NewError ErrorInvalid "invalid consistency-domain catalog head");
  _ ← validateDomainTreeRoot (CatalogHead_Root head);
  _ ← encode_document head;
  Ok tt.

(** ** transitions009.go *)

Definition ValidateTransitionLock009 (lock : TransitionLock009) : res unit :=
  _ ← guard_err (negb (Lock_SchemaVersion lock =? 1) || negb (validDomainText (Lock_TransitionID lock))
                 || negb (validDomainDigest (Lock_Fingerprint lock)) || negb (validDomainKind (Lock_Kind lock))
                 || negb (validDomainText (Lock_DomainID lock)))
        (NewError ErrorInvalid "invalid transition lock");
  _ ← encode_document lock;
  Ok tt.
End DomainHead.
