(* ===== verification/TransitionFormat.v ===== *)
(** * Transition documents and typed state records

    internal/storageformat/transitions009.go, state009.go and the transition
    keys of keys.go: the immutable plan and decision of a transition that spans
    several consistency domains, and the envelope of an application record
    inside a domain value. *)

From Stdlib Require Import ZArith Lia.
From S2P Require Import Prelude GoLib GoHash GoJSON GoTime Errors ObjectStore StateStore DomainPage DomainPack DomainHead.

Open Scope Z_scope.

Module TransitionFormat.
Import StorageFormat ObjectStore DomainPack DomainHead.

(** ** Data *)

Record TransitionChange009 := {
  TChange_Key : gostring;
  TChange_Requirement : Z;
  TChange_ExpectedVersion : gostring;
  TChange_Delete : bool;
  TChange_Value : option gostring;
}.

Record TransitionParticipant009 := {
  Participant_Kind : ConsistencyDomainKind;
  Participant_DomainID : gostring;
  Participant_Changes : list TransitionChange009;
}.

Record TransitionPlan009 := {
  Plan_SchemaVersion : Z;
  Plan_TransitionID : gostring;
  Plan_Fingerprint : gostring;
  Plan_RetainUntil : Z;
  Plan_Participants : list TransitionParticipant009;
  Plan_Result : option gostring;
}.

Record TransitionDecision009 := {
  Decision_SchemaVersion : Z;
  Decision_TransitionID : gostring;
  Decision_Fingerprint : gostring;
  Decision_Committed : bool;
  Decision_ErrorKind : gostring;
  Decision_DecidedAt : Z;
}.

Record StateRecord009 := {
  Record_SchemaVersion : Z;
  Record_RecordType : gostring;
  Record_Payload : option gostring;
}.

(** ** Canonical JSON *)

(** A nil slice is [null]. *)
Definition json_list {A} (f : A → gostring) (l : list A) : gostring :=
  if bool_decide (l = []) then bs "null" else json_array (map f l).

Definition json_transition_change (c : TransitionChange009) : gostring :=
  json_object ([text_field "key" (TChange_Key c); uint_field "requirement" (TChange_Requirement c)]
    ++ omit_text "expectedVersion" (TChange_ExpectedVersion c)
    ++ json_omit (TChange_Delete c) (json_field "delete" (json_bool true)) ++ omit_bytes "value" (TChange_Value c)).

Definition json_participant (p : TransitionParticipant009) : gostring :=
  json_object [text_field "kind" (Participant_Kind p); text_field "domainID" (Participant_DomainID p);
               json_field "changes" (json_list json_transition_change (Participant_Changes p))].

Definition json_plan (p : TransitionPlan009) : gostring :=
  json_object ([uint_field "schemaVersion" (Plan_SchemaVersion p); text_field "transitionID" (Plan_TransitionID p);
                text_field "fingerprint" (Plan_Fingerprint p); json_field "retainUntil" (json_time (Plan_RetainUntil p));
                json_field "participants" (json_list json_participant (Plan_Participants p))]
    ++ omit_bytes "result" (Plan_Result p)).

Definition json_decision (d : TransitionDecision009) : gostring :=
  json_object ([uint_field "schemaVersion" (Decision_SchemaVersion d); text_field "transitionID" (Decision_TransitionID d);
                text_field "fingerprint" (Decision_Fingerprint d); json_field "committed" (json_bool (Decision_Committed d))]
    ++ omit_text "errorKind" (Decision_ErrorKind d) ++ [json_field "decidedAt" (json_time (Decision_DecidedAt d))]).

Definition json_state_record (r : StateRecord009) : gostring :=
  json_object [uint_field "schemaVersion" (Record_SchemaVersion r); text_field "recordType" (Record_RecordType r);
               json_field "payload" (json_slice (Record_Payload r))].

Definition read_transition_change : reader TransitionChange009 :=
  _ ← read_lit "{"; key ← read_field "key" read_string; requirement ← next_field "requirement" (read_upto 255);
  version ← read_omit "expectedVersion" [] read_string; delete ← read_omit "delete" false read_bool;
  value ← read_omit "value" None read_slice; _ ← read_lit "}";
  mret {| TChange_Key := key; TChange_Requirement := requirement; TChange_ExpectedVersion := version;
          TChange_Delete := delete; TChange_Value := value |}.

Definition read_participant : reader TransitionParticipant009 :=
  _ ← read_lit "{"; kind ← read_field "kind" read_string; id ← next_field "domainID" read_string;
  changes ← next_field "changes" (read_array read_transition_change); _ ← read_lit "}";
  mret {| Participant_Kind := kind; Participant_DomainID := id; Participant_Changes := changes |}.

Definition read_plan : reader TransitionPlan009 :=
  _ ← read_lit "{"; schema ← read_field "schemaVersion" read_int; id ← next_field "transitionID" read_string;
  fingerprint ← next_field "fingerprint" read_string; retain ← next_field "retainUntil" read_time;
  participants ← next_field "participants" (read_array read_participant);
  result ← read_omit "result" None read_slice; _ ← read_lit "}";
  mret {| Plan_SchemaVersion := schema; Plan_TransitionID := id; Plan_Fingerprint := fingerprint;
          Plan_RetainUntil := retain; Plan_Participants := participants; Plan_Result := result |}.

Definition read_decision : reader TransitionDecision009 :=
  _ ← read_lit "{"; schema ← read_field "schemaVersion" read_int; id ← next_field "transitionID" read_string;
  fingerprint ← next_field "fingerprint" read_string; committed ← next_field "committed" read_bool;
  kind ← read_omit "errorKind" [] read_string; decided ← next_field "decidedAt" read_time; _ ← read_lit "}";
  mret {| Decision_SchemaVersion := schema; Decision_TransitionID := id; Decision_Fingerprint := fingerprint;
          Decision_Committed := committed; Decision_ErrorKind := kind; Decision_DecidedAt := decided |}.

Definition read_state_record : reader StateRecord009 :=
  _ ← read_lit "{"; schema ← read_field "schemaVersion" read_int; type ← next_field "recordType" read_string;
  payload ← next_field "payload" read_slice; _ ← read_lit "}";
  mret {| Record_SchemaVersion := schema; Record_RecordType := type; Record_Payload := payload |}.

#[export] Instance plan_document : Document TransitionPlan009 :=
  {| document_text := json_plan; document_times p := [Plan_RetainUntil p]; document_reader := read_plan |}.
#[export] Instance decision_document : Document TransitionDecision009 :=
  {| document_text := json_decision; document_times d := [Decision_DecidedAt d]; document_reader := read_decision |}.
#[export] Instance state_record_document : Document StateRecord009 :=
  {| document_text := json_state_record; document_times _ := []; document_reader := read_state_record |}.

(** ** transitions009.go: validation *)

Fixpoint check_transition_changes (previous : gostring) (changes : list TransitionChange009) : res unit :=
  match changes with
  | [] => Ok tt
  | change :: changes =>
      _ ← guard_err (negb (validDomainText (TChange_Key change)) || (TChange_Key change <=? previous)%bytes
                     || (TChange_Requirement change <? 1) || (3 <? TChange_Requirement change)
                     || (negb (TChange_Requirement change =? 3) && bool_decide (TChange_ExpectedVersion change ≠ []))
                     || (TChange_Delete change
                         && (negb (TChange_Requirement change =? 3) || negb (bytes_len (TChange_Value change) =? 0))))
            (NewError ErrorInvalid "invalid transition change");
      check_transition_changes (TChange_Key change) changes
  end.

Definition participant_order (p : TransitionParticipant009) : gostring :=
  Participant_Kind p ++ [nul] ++ Participant_DomainID p.

Fixpoint check_participants (previous : gostring) (participants : list TransitionParticipant009) : res unit :=
  match participants with
  | [] => Ok tt
  | participant :: participants =>
      let ordering := participant_order participant in
      _ ← guard_err (negb (validDomainKind (Participant_Kind participant))
                     || negb (validDomainText (Participant_DomainID participant)) || (ordering <=? previous)%bytes
                     || bool_decide (Participant_Changes participant = []))
            (NewError ErrorInvalid "invalid transition participant");
      _ ← check_transition_changes [] (Participant_Changes participant);
      check_participants ordering participants
  end.

Definition ValidateTransitionPlan009 (plan : TransitionPlan009) : res unit :=
  _ ← guard_err (negb (Plan_SchemaVersion plan =? 1) || negb (validDomainText (Plan_TransitionID plan))
                 || negb (validDomainDigest (Plan_Fingerprint plan)) || IsZero (Plan_RetainUntil plan)
                 || (len (Plan_Participants plan) <? 2) || (16 <? len (Plan_Participants plan)))
        (NewError ErrorInvalid "invalid transition plan");
  _ ← check_participants [] (Plan_Participants plan);
  _ ← encode_document plan;
  Ok tt.

Definition ValidateTransitionDecision009 (decision : TransitionDecision009) : res unit :=
  _ ← guard_err (negb (Decision_SchemaVersion decision =? 1) || negb (validDomainText (Decision_TransitionID decision))
                 || negb (validDomainDigest (Decision_Fingerprint decision)) || IsZero (Decision_DecidedAt decision)
                 || (Decision_Committed decision && bool_decide (Decision_ErrorKind decision ≠ []))
                 || (negb (Decision_Committed decision)
                     && bool_decide (Decision_ErrorKind decision ≠ ErrorConflict)
                     && bool_decide (Decision_ErrorKind decision ≠ ErrorNotFound)
                     && bool_decide (Decision_ErrorKind decision ≠ ErrorPreconditionFailed)
                     && bool_decide (Decision_ErrorKind decision ≠ ErrorInvalid)))
        (NewError ErrorInvalid "invalid transition decision");
  _ ← encode_document decision;
  Ok tt.

Definition participant_le (a b : TransitionParticipant009) : Prop := bytes_le (participant_order a) (participant_order b).
#[export] Instance participant_le_dec : RelDecision participant_le.
Proof. intros a b. unfold participant_le. apply _. Defined.

Definition SortTransitionParticipants009 (participants : list TransitionParticipant009) : list TransitionParticipant009 :=
  merge_sort participant_le participants.

(** ** state009.go *)

Definition validateStateRecord009 (record : StateRecord009) (expectedType : gostring) : res unit :=
  _ ← guard_err (negb (Record_SchemaVersion record =? 1) || negb (validDomainText (Record_RecordType record))
                 || (bool_decide (expectedType ≠ []) && bool_decide (Record_RecordType record ≠ expectedType)))
        (NewError ErrorInvalid "invalid schema-009 state record binding");
  guard_err ((bytes_len (Record_Payload record) =? 0) || (State.MaxRecordBytes <? bytes_len (Record_Payload record)))
    (NewError ErrorInvalid "invalid schema-009 state record payload").

Definition EncodeStateRecord009 (recordType payload : gostring) : res gostring :=
  let record := {| Record_SchemaVersion := 1; Record_RecordType := recordType; Record_Payload := clone_bytes (Some payload) |} in
  _ ← validateStateRecord009 record recordType;
  encode_document record.

Definition DecodeStateRecord009 (data expectedType : gostring) : res gostring :=
  record ← (decode_json data : res StateRecord009);
  _ ← validateStateRecord009 record expectedType;
  canonical ← encode_document record;
  _ ← guard_err (bool_decide (canonical ≠ data)) (NewError ErrorInvalid "non-canonical schema-009 state record");
  Ok (default [] (Record_Payload record)).

(** ** keys.go *)

Section Keys.
Context `{SHA256}.

Definition TransitionPlanKey (transitionID : gostring) : res Key :=
  _ ← validateDomainKeyPart transitionID;
  fixedKey ("transitions/plans/" ++ digestPart transitionID ++ ".json").

Definition TransitionDecisionKey (transitionID : gostring) : res Key :=
  _ ← validateDomainKeyPart transitionID;
  fixedKey ("transitions/decisions/" ++ digestPart transitionID ++ ".json").

Definition TransitionPrefix : gostring := root ++ "transitions/".
End Keys.
End TransitionFormat.
