(* ===== verification/DomainSession.v ===== *)
(** * Tree sessions: the caches and packs of internal/portable/domain_tree.go

    A session reads and writes the pages of one consistency domain through an
    object backend.  It caches authenticated pages and decoded packs, collects
    new pages in a pending pack, and publishes the pack before the head that
    makes it reachable.

    [BlobStore] is what a session uses of [objectstore.Backend].  The session
    runs alone: a pack load never waits for another one, and the store's pack
    cache is the disabled one of [newConsistencyDomainStore]. *)

From Stdlib Require Import ZArith Lia.
From S2P Require Import Prelude GoLib GoHash GoJSON GoTime Errors ObjectStore DomainPage DomainTree DomainPack.

Open Scope Z_scope.

(** [backend.Get(ctx, key)] and [backend.Put(ctx, key, body, PutCreateOnly)]. *)
Class BlobStore (B : Type) := {
  blob_get : ObjectStore.Key → GoM B error gostring;
  blob_create : ObjectStore.Key → gostring → GoM B error unit;
}.

Module DomainSession.
Import StorageFormat DomainTree DomainPack.

(** [terminalOperationRetention]: thirty days. *)
Definition terminalOperationRetention : Z := 30 * 24 * 3600 * 1000000000.

Record consistencyDomainRef := { Ref_Kind : ConsistencyDomainKind; Ref_ID : gostring }.

Record Session (B : Type) := MkSession {
  backend : B;
  pages : gmap gostring DomainPage;
  pagePacks : gmap gostring gostring;
  packs : gmap gostring (gmap gostring DomainPage);
  known : gmap gostring DomainTreeRoot;
  packID : gostring;
  packSeed : gostring;
  mutationSeed : gostring;
  preparationSeed : gostring;
  preparedAt : option Z;
  retainUntil : option Z;
  packedWrites : bool;
  pendingPack : gmap gostring DomainPage;
  packFlushed : bool;
  forcePack : bool;
}.
Arguments MkSession {B}.
Arguments backend {B}.
Arguments pages {B}.
Arguments pagePacks {B}.
Arguments packs {B}.
Arguments known {B}.
Arguments packID {B}.
Arguments packSeed {B}.
Arguments mutationSeed {B}.
Arguments preparationSeed {B}.
Arguments preparedAt {B}.
Arguments retainUntil {B}.
Arguments packedWrites {B}.
Arguments pendingPack {B}.
Arguments packFlushed {B}.
Arguments forcePack {B}.

(** [newConsistencyDomainTreeSession] *)
Definition newSession {B} (b : B) : Session B :=
  {| backend := b; pages := ∅; pagePacks := ∅; packs := ∅; known := ∅; packID := []; packSeed := [];
     mutationSeed := []; preparationSeed := []; preparedAt := None; retainUntil := None; packedWrites := false;
     pendingPack := ∅; packFlushed := false; forcePack := false |}.

Section Session.
Context {B : Type}.

Definition set_backend (b : B) (s : Session B) : Session B :=
  MkSession b (pages s) (pagePacks s) (packs s) (known s) (packID s) (packSeed s) (mutationSeed s)
    (preparationSeed s) (preparedAt s) (retainUntil s) (packedWrites s) (pendingPack s) (packFlushed s) (forcePack s).
(** [session.pages[digest] = page; session.pagePacks[digest] = packID] *)
Definition cache_page (digest pack : gostring) (page : DomainPage) (s : Session B) : Session B :=
  MkSession (backend s) (<[digest := page]> (pages s)) (<[digest := pack]> (pagePacks s)) (packs s) (known s) (packID s)
    (packSeed s) (mutationSeed s) (preparationSeed s) (preparedAt s) (retainUntil s) (packedWrites s) (pendingPack s)
    (packFlushed s) (forcePack s).
Definition set_pages (m : gmap gostring DomainPage) (s : Session B) : Session B :=
  MkSession (backend s) m (pagePacks s) (packs s) (known s) (packID s) (packSeed s) (mutationSeed s)
    (preparationSeed s) (preparedAt s) (retainUntil s) (packedWrites s) (pendingPack s) (packFlushed s) (forcePack s).
Definition set_packs (m : gmap gostring (gmap gostring DomainPage)) (s : Session B) : Session B :=
  MkSession (backend s) (pages s) (pagePacks s) m (known s) (packID s) (packSeed s) (mutationSeed s)
    (preparationSeed s) (preparedAt s) (retainUntil s) (packedWrites s) (pendingPack s) (packFlushed s) (forcePack s).
Definition set_known (m : gmap gostring DomainTreeRoot) (s : Session B) : Session B :=
  MkSession (backend s) (pages s) (pagePacks s) (packs s) m (packID s) (packSeed s) (mutationSeed s)
    (preparationSeed s) (preparedAt s) (retainUntil s) (packedWrites s) (pendingPack s) (packFlushed s) (forcePack s).
Definition set_packID (id : gostring) (pending : gmap gostring DomainPage) (s : Session B) : Session B :=
  MkSession (backend s) (pages s) (pagePacks s) (packs s) (known s) id (packSeed s) (mutationSeed s)
    (preparationSeed s) (preparedAt s) (retainUntil s) (packedWrites s) pending (packFlushed s) (forcePack s).
Definition set_seeds (pack mutation : gostring) (s : Session B) : Session B :=
  MkSession (backend s) (pages s) (pagePacks s) (packs s) (known s) (packID s) pack mutation
    (preparationSeed s) (preparedAt s) (retainUntil s) (packedWrites s) (pendingPack s) (packFlushed s) (forcePack s).
Definition set_preparation (seed : gostring) (at_ until : Z) (s : Session B) : Session B :=
  MkSession (backend s) (pages s) (pagePacks s) (packs s) (known s) (packID s) (packSeed s) (mutationSeed s)
    seed (Some at_) (Some until) (packedWrites s) (pendingPack s) (packFlushed s) (forcePack s).
Definition set_packedWrites (seed : gostring) (s : Session B) : Session B :=
  MkSession (backend s) (pages s) (pagePacks s) (packs s) (known s) (packID s) seed (mutationSeed s)
    (preparationSeed s) (preparedAt s) (retainUntil s) true (pendingPack s) (packFlushed s) (forcePack s).
Definition set_flushed (id : gostring) (m : gmap gostring DomainPage) (s : Session B) : Session B :=
  MkSession (backend s) (pages s) (pagePacks s) (<[id := m]> (packs s)) (known s) (packID s) (packSeed s) (mutationSeed s)
    (preparationSeed s) (preparedAt s) (retainUntil s) (packedWrites s) (pendingPack s) true (forcePack s).
Definition set_forcePack (b : bool) (s : Session B) : Session B :=
  MkSession (backend s) (pages s) (pagePacks s) (packs s) (known s) (packID s) (packSeed s) (mutationSeed s)
    (preparationSeed s) (preparedAt s) (retainUntil s) (packedWrites s) (pendingPack s) (packFlushed s) b.

Abbreviation SM := (GoM (Session B) error).

Definition on_backend {A} (m : GoM B error A) : SM A := λ s,
  let '(x, b) := m (backend s) in (x, set_backend b s).
End Session.

Section Operations.
Context `{SHA256} `{GZIP} {B : Type} `{!BlobStore B}.
(** The request, the domain, and the key functions of the session. *)
Variables (ctx : context) (reference : consistencyDomainRef).
Variables (pageKey packKey : gostring → res ObjectStore.Key).

Abbreviation SM := (GoM (Session B) error).

(** ** Packs *)

Definition loadPack (id : gostring) : SM (gmap gostring DomainPage) := λ s,
  match packs s !! id with
  | Some pack => (Ok pack, s)
  | None =>
      (_ ← lift (match ctx with
                 | None => Ok tt
                 | Some cause => Err (WrapError ErrorUnavailable "consistency-domain pack read canceled" cause)
                 end);
       key ← lift (packKey id);
       body ← on_backend (blob_get key);
       decoded ← lift (DecodeDomainPagePack ctx body (Ref_ID reference) (Ref_Kind reference) id);
       let pack := index_pack decoded in
       _ ← modify (λ s, set_packs (<[id := pack]> (packs s)) s);
       mret pack) s
  end.

Definition enablePackedWrites (seed : gostring) : SM unit := modify (set_packedWrites seed).

Definition mutation_binding (seed : gostring) (s : Session B) : gostring :=
  Digest (bs "endlessfs-domain-page-pack-mutation-v1" ++ [nul] ++ packSeed s ++ [nul] ++ seed).

(** [packID != "" || len(pendingPack) != 0 || packFlushed] *)
Definition started (s : Session B) : bool :=
  bool_decide (packID s ≠ []) || negb (Nat.eqb (size (pendingPack s)) 0) || packFlushed s.

Definition bindPackedMutation (seed : gostring) : SM unit :=
  _ ← throw_if (bool_decide (seed = [])) (NewError ErrorInvalid "empty consistency-domain packed mutation binding");
  s ← get;
  if bool_decide (mutationSeed s ≠ []) then
    throw_if (bool_decide (mutationSeed s ≠ seed))
      (NewError ErrorInvalid "consistency-domain session is bound to another mutation")
  else
    _ ← throw_if (started s) (NewError ErrorInvalid "consistency-domain packed mutation was bound after writing");
    modify (set_seeds (mutation_binding seed s) seed).

(** A zero deadline is [None]. *)
Definition bindPreparedMutation (clockNow : Z) (seed : gostring) (until : option Z) : SM unit :=
  _ ← throw_if (bool_decide (seed = [])) (NewError ErrorInvalid "empty consistency-domain preparation binding");
  s ← get;
  if bool_decide (preparationSeed s ≠ []) then
    throw_if (negb (bool_decide (preparationSeed s = seed) && (bool_decide (until = None) || bool_decide (retainUntil s = until))))
      (NewError ErrorInvalid "consistency-domain preparation binding changed")
  else
    _ ← throw_if (bool_decide (mutationSeed s ≠ []) || started s)
          (NewError ErrorInvalid "consistency-domain preparation was bound after writing");
    let deadline := default (clockNow + terminalOperationRetention) until in
    _ ← throw_if (negb (clockNow <? deadline))
          (NewError ErrorUnavailable "consistency-domain preparation deadline expired");
    _ ← modify (set_preparation seed clockNow deadline);
    let mutation := Digest (bs "endlessfs-domain-preparation-v1" ++ [nul] ++ seed ++ [nul]
                            ++ format_rfc3339nano clockNow ++ [nul] ++ format_rfc3339nano deadline) in
    modify (set_seeds (mutation_binding mutation s) mutation).

Definition preparation (clockNow : Z) (until : option Z) : SM (Z * Z) :=
  s ← get;
  match preparedAt s, retainUntil s with
  | Some at_, Some deadline =>
      _ ← throw_if (bool_decide (until ≠ None) && bool_decide (until ≠ Some deadline))
            (NewError ErrorInvalid "consistency-domain preparation deadline changed");
      _ ← throw_if (negb (clockNow <? deadline))
            (NewError ErrorUnavailable "consistency-domain preparation deadline expired");
      mret (at_, deadline)
  | _, _ => throw (NewError ErrorInvalid "consistency-domain mutation has no preparation binding")
  end.

Definition session_ensurePackID (firstWriteDigest : gostring) : SM gostring :=
  s ← get;
  if bool_decide (packID s ≠ []) then mret (packID s)
  else if negb (packedWrites s) then mret []
  else
    _ ← throw_if (bool_decide (firstWriteDigest = [])) (NewError ErrorInvalid "empty consistency-domain page pack seed");
    let id := Digest (bs "endlessfs-domain-page-pack-v1" ++ [nul] ++ Ref_Kind reference ++ [nul] ++ Ref_ID reference
                      ++ [nul] ++ packSeed s ++ [nul] ++ firstWriteDigest) in
    _ ← modify (set_packID id ∅);
    mret id.

(** [Put], where a conflict is accepted when the same bytes already exist. *)
Definition create_or_match (key : ObjectStore.Key) (body : gostring) (collision : error) : SM unit := λ s,
  match on_backend (blob_create key body) s with
  | (Ok _, s) => (Ok tt, s)
  | (Err err, s) =>
      (_ ← throw_if (negb (errors_Is err ErrConflict)) err;
       existing ← on_backend (blob_get key);
       throw_if (bool_decide (existing ≠ body)) collision) s
  end.

Definition errDomainPagePackIdentityCollision : error := OtherError "consistency-domain page pack identity collision".

Definition flushPack : SM unit :=
  s ← get;
  if bool_decide (packID s = []) || Nat.eqb (size (pendingPack s)) 0 || packFlushed s then mret tt
  else
    let pack := {| Pack_SchemaVersion := 1; Pack_DomainID := Ref_ID reference; Pack_Kind := Ref_Kind reference;
                   Pack_PackID := packID s;
                   Pack_Pages := map (λ '(d, p), {| Packed_Digest := d; Packed_Page := p |}) (map_to_list (pendingPack s)) |} in
    body ← lift (EncodeDomainPagePack pack);
    key ← lift (packKey (packID s));
    _ ← create_or_match key body
          (WrapError ErrorInvalid "consistency-domain page pack identity collision" errDomainPagePackIdentityCollision);
    decoded ← lift (DecodeDomainPagePack ctx body (Ref_ID reference) (Ref_Kind reference) (packID s));
    modify (set_flushed (packID s) (index_pack decoded)).

Definition markKnown (root : DomainTreeRoot) : SM unit :=
  modify (λ s, if bool_decide (Root_Digest root ≠ []) then set_known (<[Root_Digest root := root]> (known s)) s else s).

Definition forgetPage (digest : gostring) : SM unit := modify (λ s, set_pages (delete digest (pages s)) s).

(** ** Reading a page *)

Definition cached_page (expected : DomainTreeRoot) (s : Session B) : option DomainPage :=
  match pages s !! Root_Digest expected with
  | Some page => Some page
  | None =>
      if bool_decide (Root_PackID expected ≠ []) && bool_decide (Root_PackID expected = packID s)
      then pendingPack s !! Root_Digest expected
      else None
  end.

Definition fetch_page (expected : DomainTreeRoot) : SM DomainPage :=
  if bool_decide (Root_PackID expected ≠ []) then
    pack ← loadPack (Root_PackID expected);
    match pack !! Root_Digest expected with
    | Some page => mret page
    | None => throw (NewError ErrorInvalid "consistency-domain page is missing from its pack")
    end
  else
    key ← lift (pageKey (Root_Digest expected));
    body ← on_backend (blob_get key);
    lift (decodeCanonicalPage body).

Definition session_readPage (expected : domainPageRef) : SM DomainPage :=
  let root := ref_root expected in
  _ ← throw_if (bool_decide (Root_Digest root = [])) (NewError ErrorInvalid "empty consistency-domain page reference");
  s ← get;
  match cached_page root s with
  | Some page =>
      _ ← lift (verifyConsistencyDomainPageRef page expected);
      mret page
  | None =>
      page ← fetch_page root;
      _ ← throw_if (bool_decide (Page_DomainID page ≠ Ref_ID reference) || bool_decide (Page_Kind page ≠ Ref_Kind reference))
            (NewError ErrorInvalid "consistency-domain page key binding mismatch");
      _ ← lift (ValidateDomainPage page (Root_Digest root));
      _ ← lift (verifyConsistencyDomainPageRef page expected);
      _ ← modify (cache_page (Root_Digest root) (Root_PackID root) page);
      mret page
  end.

(** ** Writing a page *)

Definition with_pack (r : domainPageRef) (id : gostring) : domainPageRef :=
  {| ref_root := {| Root_Digest := Root_Digest (ref_root r); Root_PackID := id; Root_Level := Root_Level (ref_root r);
                    Root_EntryCount := Root_EntryCount (ref_root r); Root_ByteCount := Root_ByteCount (ref_root r) |};
     ref_firstKey := ref_firstKey r; ref_lastKey := ref_lastKey r; ref_leafKeyFilter := ref_leafKeyFilter r |}.

(** The page goes to the pending pack, or to an object of its own. *)
Definition publish_page (page : DomainPage) (digest body : gostring) (reference : domainPageRef) : SM domainPageRef :=
  id ← session_ensurePackID digest;
  if bool_decide (id ≠ []) then
    s ← get;
    _ ← throw_if (packFlushed s) (NewError ErrorInvalid "consistency-domain page pack was already flushed");
    _ ← modify (λ s, cache_page digest id page (set_packID (packID s) (<[digest := page]> (pendingPack s)) s));
    mret (with_pack reference id)
  else
    key ← lift (pageKey digest);
    _ ← create_or_match key body (NewError ErrorInvalid "consistency-domain page digest collision");
    _ ← modify (cache_page digest [] page);
    mret reference.

Definition session_writePage (page : DomainPage) : SM domainPageRef :=
  body ← lift (EncodeCanonical (json_page page));
  let digest := Digest body in
  _ ← lift (ValidateDomainPage page digest);
  s ← get;
  let cachedPack := default [] (pagePacks s !! digest) in
  match pages s !! digest with
  | Some cached =>
      if negb (forcePack s) || (bool_decide (cachedPack = packID s) && bool_decide (packID s ≠ [])) then
        _ ← throw_if (match EncodeCanonical (json_page cached) with
                      | Ok cachedBody => bool_decide (cachedBody ≠ body)
                      | Err _ => true
                      end) (NewError ErrorInvalid "consistency-domain page digest collision");
        lift (consistencyDomainPageDescriptor page digest cachedPack)
      else
        reference ← lift (consistencyDomainPageDescriptor page digest []);
        publish_page page digest body reference
  | None =>
      reference ← lift (consistencyDomainPageDescriptor page digest []);
      match known s !! digest with
      | Some root =>
          if negb (forcePack s) then
            let reference := with_pack reference (Root_PackID root) in
            _ ← throw_if (bool_decide (root ≠ ref_root reference))
                  (NewError ErrorInvalid "consistency-domain known page descriptor mismatch");
            mret reference
          else publish_page page digest body reference
      | None => publish_page page digest body reference
      end
  end.

(** ** Describing a page to its parent *)

Definition session_pageChild (child : domainPageRef) : SM DomainPageChild :=
  s ← get;
  let root := ref_root child in
  let prepared := bool_decide (preparationSeed s ≠ []) in
  let cached := match packs s !! Root_PackID root with Some pack => pack !! Root_Digest root | None => None end in
  filter ←
    (if prepared && bool_decide (packID s ≠ []) && bool_decide (Root_PackID root = packID s) then mret []
     else if prepared && (Root_Level root =? 0) && bool_decide (Root_PackID root ≠ [])
             && bool_decide (ref_leafKeyFilter child = []) then
       match cached with
       | Some page =>
           _ ← lift (verifyConsistencyDomainPageRef page child);
           mret (DomainLeafKeyFilter (map Entry_Key (Page_Entries page)))
       | None => mret (ref_leafKeyFilter child)
       end
     else mret (ref_leafKeyFilter child));
  mret {| Child_FirstKey := ref_firstKey child; Child_LastKey := ref_lastKey child; Child_Digest := Root_Digest root;
          Child_PackID := Root_PackID root; Child_LeafKeyFilter := filter; Child_Level := Root_Level root;
          Child_EntryCount := Root_EntryCount root; Child_ByteCount := Root_ByteCount root |}.

(** [session.forcePack = b] under the lock. *)
Definition session_setForcePack (b : bool) : SM unit := modify (set_forcePack b).

(** The tree operations run on a session through this interface. *)
Definition session_store : PageStore (Session B) := {|
  session_kind := Ref_Kind reference;
  session_id := Ref_ID reference;
  readPage := session_readPage;
  writePage := session_writePage;
  ensurePackID := session_ensurePackID;
  pageChild := session_pageChild;
  setForcePack := session_setForcePack;
|}.
End Operations.

(** ** The sessions the program opens *)

Section Open.
Context `{SHA256}.
Definition session_pageKey (reference : consistencyDomainRef) (digest : gostring) : res ObjectStore.Key :=
  DomainPageKey (Ref_Kind reference) (Ref_ID reference) digest.
Definition session_packKey (reference : consistencyDomainRef) (id : gostring) : res ObjectStore.Key :=
  DomainPagePackKey (Ref_Kind reference) (Ref_ID reference) id.
Definition catalog_reference : consistencyDomainRef := {| Ref_Kind := DomainAdmin; Ref_ID := "__catalog__" |}.
End Open.
End DomainSession.
