(* ===== verification/TreeStream.v ===== *)
(** * Streaming trees: internal/portable/domain_tree_stream.go and the merge of namespace_projection.go

    Three modules: the iterator over one tree, the builder of a tree from a
    stream, and the merge of several trees through a heap. *)

From Stdlib Require Import ZArith Lia.
From S2P Require Import Prelude GoLib GoHash GoJSON GoHeap Errors DomainPage DomainTree.

Open Scope Z_scope.

(** * Streaming a tree: the iterator of internal/portable/domain_tree_stream.go

    The iterator walks one immutable tree in key order and keeps one page per
    level; a page it has left is dropped from the session's cache. *)

(** [session.forgetPage] *)
Class PageCache (St : Type) := forget_page : gostring → GoM St error unit.

Module TreeIterator.
Import StorageFormat DomainTree.

Record frame := { frame_reference : domainPageRef; frame_page : DomainPage; frame_index : nat }.

(** The stack of an iterator, the current page first. *)
Definition stack : Type := list frame.

Section Iterator.
Context `{SHA256} {St : Type} `{!PageStore St, !PageCache St}.

Abbreviation SessionM := (GoM St error).

Fixpoint descend (fuel : nat) (reference : domainPageRef) (frames : stack) : SessionM stack :=
  match fuel with
  | O => throw nontermination
  | S fuel =>
      page ← readPage reference;
      let frames := {| frame_reference := reference; frame_page := page; frame_index := 0 |} :: frames in
      if Page_Level page =? 0 then mret frames
      else match Page_Children page with
           | child :: _ => descend fuel (child_ref_unfiltered child) frames
           | [] => throw index_out_of_range
           end
  end.

Definition newIterator (root : DomainTreeRoot) : SessionM stack :=
  if bool_decide (Root_Digest root ≠ []) then descend (tree_fuel root) (root_ref root) [] else mret [].

(** [newConsistencyDomainTreeIteratorAfter] *)
Fixpoint descend_after (fuel : nat) (after : gostring) (reference : domainPageRef) (frames : stack) : SessionM stack :=
  match fuel with
  | O => throw nontermination
  | S fuel =>
      page ← readPage reference;
      if Page_Level page =? 0 then
        let index := Search (length (Page_Entries page)) (λ index,
          match Page_Entries page !! index with Some e => (after <? Entry_Key e)%bytes | None => false end) in
        mret ({| frame_reference := reference; frame_page := page; frame_index := index |} :: frames)
      else
        let index := Search (length (Page_Children page)) (λ index,
          match Page_Children page !! index with Some c => (after <? Child_LastKey c)%bytes | None => false end) in
        match Page_Children page !! index with
        | None => mret frames
        | Some child =>
            descend_after fuel after (child_ref_unfiltered child)
              ({| frame_reference := reference; frame_page := page; frame_index := index |} :: frames)
        end
  end.

Definition newIteratorAfter (root : DomainTreeRoot) (after : gostring) : SessionM stack :=
  if bool_decide (Root_Digest root = []) then mret [] else descend_after (tree_fuel root) after (root_ref root) [].

(** The inner loop of [Next]: leave finished branches, enter the next child. *)
Fixpoint advance (frames : stack) : SessionM stack :=
  match frames with
  | [] => mret []
  | branch :: rest =>
      let index := S (frame_index branch) in
      match Page_Children (frame_page branch) !! index with
      | Some child =>
          descend (S (Z.to_nat (Child_Level child))) (child_ref_unfiltered child)
            ({| frame_reference := frame_reference branch; frame_page := frame_page branch; frame_index := index |} :: rest)
      | None =>
          _ ← forget_page (Root_Digest (ref_root (frame_reference branch)));
          advance rest
      end
  end.

(** Pages left without entries are possible, so the outer loop takes fuel. *)
Fixpoint Next (fuel : nat) (frames : stack) : SessionM (option DomainEntry * stack) :=
  match frames with
  | [] => mret (None, [])
  | leaf :: rest =>
      match fuel with
      | O => throw nontermination
      | S fuel =>
          match (if Page_Level (frame_page leaf) =? 0 then Page_Entries (frame_page leaf) !! frame_index leaf else None) with
          | Some entry =>
              mret (Some (clone_entry entry),
                    {| frame_reference := frame_reference leaf; frame_page := frame_page leaf;
                       frame_index := S (frame_index leaf) |} :: rest)
          | None =>
              _ ← forget_page (Root_Digest (ref_root (frame_reference leaf)));
              frames ← advance rest;
              Next fuel frames
          end
      end
  end.
End Iterator.
End TreeIterator.

(** * Building a tree from a stream: the builder of internal/portable/domain_tree_stream.go

    The builder takes entries in key order and keeps one open leaf and, per
    level, at most one page of references to finished pages.  A page it has
    written is dropped from the session's cache.  A failed call abandons the
    builder, so errors carry no builder. *)

Module TreeBuilder.
Import StorageFormat DomainTree TreeIterator.

(** The levels above the leaves, the lowest first. *)
Abbreviation levels := (list (list domainPageRef)).

Record consistencyDomainTreeBuilder := {
  builder_leaf : list DomainEntry;
  leafCanonicalBytes : Z;
  builder_levels : levels;
}.

Definition newConsistencyDomainTreeBuilder : consistencyDomainTreeBuilder :=
  {| builder_leaf := []; leafCanonicalBytes := 0; builder_levels := [] |}.

Section Builder.
Context `{SHA256} {St : Type} `{!PageStore St, !PageCache St}.

Abbreviation SessionM := (GoM St error).

(** Writing a page and dropping it from the cache again. *)
Definition publish (page : DomainPage) : SessionM domainPageRef :=
  reference ← writePage page;
  _ ← forget_page (Root_Digest (ref_root reference));
  mret reference.

(** [flushLevel] for the nonempty level [level]: its page goes into the levels
    above by [add], and the level is empty again. *)
Definition flush_references (level : nat) (references : list domainPageRef) (add : domainPageRef → SessionM levels) : SessionM levels :=
  children ← page_children references;
  reference ← publish (branch_page (i64 (Z.of_nat level + 1)) children);
  above ← add reference;
  mret ([] :: above).

(** [ls] are the levels from [level] upwards. *)
Fixpoint addReference (level : nat) (ls : levels) (reference : domainPageRef) : SessionM levels :=
  match ls with
  | [] => mret [[reference]]
  | references :: above =>
      let references := references ++ [reference] in
      if (length references <? domainPageMaximumItems)%nat then mret (references :: above)
      else flush_references level references (addReference (S level) above)
  end.

Definition flushLevel (level : nat) (ls : levels) : SessionM levels :=
  match drop level ls with
  | [] => throw index_out_of_range
  | references :: above =>
      if bool_decide (references = []) then mret ls
      else
        rest ← flush_references level references (addReference (S level) above);
        mret (take level ls ++ rest)
  end.

Definition flushLeaf (b : consistencyDomainTreeBuilder) : SessionM consistencyDomainTreeBuilder :=
  if bool_decide (builder_leaf b = []) then mret b
  else
    reference ← publish (leaf_page (builder_leaf b));
    ls ← addReference 0 (builder_levels b) reference;
    mret {| builder_leaf := []; leafCanonicalBytes := 0; builder_levels := ls |}.

(** The first entry of a leaf and the size of its page. *)
Definition open_leaf (b : consistencyDomainTreeBuilder) (entry : DomainEntry) : res consistencyDomainTreeBuilder :=
  match EncodeCanonical (json_page (leaf_page [entry])) with
  | Err _ => Err (NewError ErrorInvalid "consistency-domain entry cannot fit in a canonical page")
  | Ok body => Ok {| builder_leaf := [entry]; leafCanonicalBytes := len body; builder_levels := builder_levels b |}
  end.

(** A further entry, if the leaf has room for it. *)
Definition extend_leaf (b : consistencyDomainTreeBuilder) (entry : DomainEntry) : option consistencyDomainTreeBuilder :=
  if (length (builder_leaf b) <? domainPageMaximumItems)%nat then
    match EncodeCanonical (json_entry entry) with
    | Ok member =>
        if len member <=? MaxCanonicalBytes - leafCanonicalBytes b - 1
        then Some {| builder_leaf := builder_leaf b ++ [entry]; leafCanonicalBytes := leafCanonicalBytes b + (1 + len member);
                     builder_levels := builder_levels b |}
        else None
    | Err _ => None
    end
  else None.

(** The loop of [Add]: a leaf without room is flushed, and the entry opens the next. *)
Fixpoint add_loop (fuel : nat) (b : consistencyDomainTreeBuilder) (entry : DomainEntry) : SessionM consistencyDomainTreeBuilder :=
  match fuel with
  | O => throw nontermination
  | S fuel =>
      if bool_decide (builder_leaf b = []) then lift (open_leaf b entry)
      else match extend_leaf b entry with
           | Some b => mret b
           | None => b ← flushLeaf b; add_loop fuel b entry
           end
  end.

Definition Add : consistencyDomainTreeBuilder → DomainEntry → SessionM consistencyDomainTreeBuilder := add_loop 2.

(** The scan of [Finish]: the lowest level in use, the references left, and the
    last one that is alone on its level. *)
Definition lowest_level (ls : levels) : option nat := fst <$> list_find (λ references, references ≠ []) ls.

Definition total_references (ls : levels) : nat := length (concat ls).

Definition only_reference (ls : levels) : option domainPageRef :=
  fold_left (λ only references, match references with [reference] => Some reference | _ => only end) ls None.

Fixpoint finish_loop (fuel : nat) (ls : levels) : SessionM DomainTreeRoot :=
  match fuel with
  | O => throw nontermination
  | S fuel =>
      match lowest_level ls with
      | None => mret empty_root
      | Some lowest =>
          if (total_references ls =? 1)%nat then
            mret (match only_reference ls with Some only => ref_root only | None => empty_root end)
          else ls ← flushLevel lowest ls; finish_loop fuel ls
      end
  end.

Definition finish_fuel (ls : levels) : nat := S (S (length ls)).

Definition Finish (b : consistencyDomainTreeBuilder) : SessionM DomainTreeRoot :=
  b ← flushLeaf b;
  finish_loop (finish_fuel (builder_levels b)) (builder_levels b).

(** A builder's life, as its callers have it: every entry, then the end. *)
Fixpoint add_all (b : consistencyDomainTreeBuilder) (entries : list DomainEntry) : SessionM consistencyDomainTreeBuilder :=
  match entries with
  | [] => mret b
  | entry :: entries => b ← Add b entry; add_all b entries
  end.
End Builder.
End TreeBuilder.

(** * Merging sorted trees: mergeNamespaceProjectionRuns of internal/portable/namespace_projection.go

    Several trees are read side by side, one iterator each; a binary heap holds
    the next entry of every tree, and a builder takes the least of them. *)

Module TreeMerge.
Import StorageFormat DomainTree TreeIterator TreeBuilder GoHeap.

(** [namespaceProjectionMergeFanIn] *)
Definition namespaceProjectionMergeFanIn : nat := 32.

Record namespaceProjectionHeapItem := { heap_entry : DomainEntry; heap_run : nat }.

Definition heap_less (a b : namespaceProjectionHeapItem) : bool := (Entry_Key (heap_entry a) <? Entry_Key (heap_entry b))%bytes.

Abbreviation namespaceProjectionHeap := (list namespaceProjectionHeapItem).

Section Merge.
Context `{SHA256} {St : Type} `{!PageStore St, !PageCache St}.

Abbreviation SessionM := (GoM St error).

(** [if found { heap.Push(values, ...) }] *)
Definition push_found (values : namespaceProjectionHeap) (found : option DomainEntry) (run : nat) : namespaceProjectionHeap :=
  match found with
  | Some entry => heap_push heap_less values {| heap_entry := entry; heap_run := run |}
  | None => values
  end.

(** One iterator per run, with its first entry on the heap. *)
Fixpoint open_runs (index : nat) (runs : list DomainTreeRoot) (values : namespaceProjectionHeap) :
    SessionM (list stack * namespaceProjectionHeap) :=
  match runs with
  | [] => mret ([], values)
  | root :: runs =>
      iterator ← newIterator root;
      '(entry, iterator) ← Next 2 iterator;
      '(iterators, values) ← open_runs (S index) runs (push_found values entry index);
      mret (iterator :: iterators, values)
  end.

Definition duplicate_key : error := NewError ErrorInvalid "duplicate namespace projection ordering key".

(** The iterators, the heap, the last key and the builder. *)
Record merge_state := {
  merge_iterators : list stack;
  merge_values : namespaceProjectionHeap;
  merge_previous : gostring;
  merge_builder : consistencyDomainTreeBuilder;
}.

(** One round: the popped item goes to the builder, the next entry of its run
    onto the heap [values]. *)
Definition merge_step (s : merge_state) (item : namespaceProjectionHeapItem) (values : namespaceProjectionHeap) : SessionM merge_state :=
  let key := Entry_Key (heap_entry item) in
  _ ← throw_if (bool_decide (merge_previous s ≠ []) && (key <=? merge_previous s)%bytes) duplicate_key;
  builder ← Add (merge_builder s) (heap_entry item);
  match merge_iterators s !! heap_run item with
  | None => throw index_out_of_range
  | Some iterator =>
      '(next, iterator) ← Next 2 iterator;
      mret {| merge_iterators := <[heap_run item := iterator]> (merge_iterators s); merge_values := push_found values next (heap_run item);
              merge_previous := key; merge_builder := builder |}
  end.

Fixpoint merge_loop (fuel : nat) (s : merge_state) : SessionM consistencyDomainTreeBuilder :=
  match heap_pop heap_less (merge_values s) with
  | None => mret (merge_builder s)
  | Some (item, values) =>
      match fuel with
      | O => throw nontermination
      | S fuel => s ← merge_step s item values; merge_loop fuel s
      end
  end.

(** The entries of all runs bound the rounds of the loop. *)
Definition merge_fuel (runs : list DomainTreeRoot) : nat := sum_list_with (λ root, Z.to_nat (Root_EntryCount root)) runs.

Definition merge_start (iterators : list stack) (values : namespaceProjectionHeap) : merge_state :=
  {| merge_iterators := iterators; merge_values := values; merge_previous := []; merge_builder := newConsistencyDomainTreeBuilder |}.

Definition mergeNamespaceProjectionRuns (runs : list DomainTreeRoot) : SessionM DomainTreeRoot :=
  '(iterators, values) ← open_runs 0 runs [];
  builder ← merge_loop (merge_fuel runs) (merge_start iterators values);
  Finish builder.

(** ** Merging in rounds

    [for len(runs) > 1]: groups of [namespaceProjectionMergeFanIn] runs become
    one run each. *)

Fixpoint merge_groups (fuel : nat) (runs : list DomainTreeRoot) : SessionM (list DomainTreeRoot) :=
  match runs with
  | [] => mret []
  | _ =>
      match fuel with
      | O => throw nontermination
      | S fuel =>
          root ← mergeNamespaceProjectionRuns (take namespaceProjectionMergeFanIn runs);
          next ← merge_groups fuel (drop namespaceProjectionMergeFanIn runs);
          mret (root :: next)
      end
  end.

Fixpoint merge_rounds (fuel : nat) (runs : list DomainTreeRoot) : SessionM (list DomainTreeRoot) :=
  if (length runs <=? 1)%nat then mret runs
  else match fuel with
       | O => throw nontermination
       | S fuel => next ← merge_groups (length runs) runs; merge_rounds fuel next
       end.

(** [root := DomainTreeRoot{}; if len(runs) == 1 { root = runs[0] }] *)
Definition merge_runs (runs : list DomainTreeRoot) : SessionM DomainTreeRoot :=
  runs ← merge_rounds (length runs) runs;
  mret (match runs with root :: _ => root | [] => empty_root end).
End Merge.
End TreeMerge.
