(* ===== verification/DomainProvider.v ===== *)
(** * What the portable store runs on

    [Provider] is what the store uses of its object backend, its clock and its
    scheduler.  A call may find the backend changed by other processes.  The
    session of an operation is opened on the current backend and handed back
    with it. *)

From Stdlib Require Import ZArith Lia.
From S2P Require Import Prelude GoLib GoHash GoJSON GoTime Errors ObjectStore DomainPage DomainTree DomainPack DomainSession TreeStream.

Open Scope Z_scope.

(** [backend.Get], [backend.Put], [clock.Now] and [scheduler.Step]. *)
Class Provider (B : Type) := {
  obj_get : ObjectStore.Key → GoM B error ObjectStore.Object;
  obj_put : ObjectStore.Key → gostring → ObjectStore.PutCondition → GoM B error gostring;
  clock_now : B → Z * B;
  sched_step : gostring → GoM B error unit;
}.

Module DomainProvider.
Import ObjectStore DomainTree DomainPack DomainSession.

(** [x, err := m()], where [err] is inspected. *)
Definition attempt {S A} (m : GoM S error A) : GoM S error (res A) := λ s, let '(x, s) := m s in (Ok x, s).

(** [errors.Is(err, ErrConflict) || errors.Is(err, ErrPreconditionFailed)] *)
Definition lost_race (err : error) : bool := errors_Is err ErrConflict || errors_Is err ErrPreconditionFailed.

Definition create_only : PutCondition := {| Put_Mode := PutCreateOnly; Put_Version := [] |}.
Definition put_match (version : NativeVersion) : PutCondition := {| Put_Mode := PutMatch; Put_Version := version |}.

Definition no_object : Object := {| Object_Key := {| key_value := [] |}; Object_Body := []; Object_Version := []; Object_Size := 0 |}.

(** A zero [time.Time] is no deadline. *)
Definition deadline_of (t : Z) : option Z := if IsZero t then None else Some t.

Section Provider.
Context `{SHA256} `{GZIP} {B : Type} `{!Provider B}.

Definition Now : GoM B error Z := λ b, let '(t, b) := clock_now b in (Ok t, b).

#[export] Instance provider_blobs : BlobStore B := {
  blob_get k := object ← obj_get k; mret (Object_Body object);
  blob_create k body := _ ← obj_put k body create_only; mret tt;
}.

(** The work of a session that is opened for it. *)
Definition fresh {A} (m : GoM (Session B) error A) : GoM B error A := λ b,
  let '(x, s) := m (newSession b) in (x, backend s).

(** [if session == nil { session = newConsistencyDomainTreeSession(store, reference) }];
    without a session of the caller's, the one at hand only carries the backend. *)
Definition with_session {A} (own : bool) (m : GoM (Session B) error A) : GoM (Session B) error A :=
  if own then m else on_backend (fresh m).

Definition domain_pages (reference : consistencyDomainRef) : PageStore (Session B) :=
  session_store None reference (session_pageKey reference) (session_packKey reference).

(** [newDomainCatalogTreeSession] *)
Definition catalog_pages : PageStore (Session B) :=
  session_store None catalog_reference DomainCatalogPageKey (session_packKey catalog_reference).

#[export] Instance session_cache : PageCache (Session B) := forgetPage.

(** [bindPreparedMutation] and [preparation] read the store's clock. *)
Definition bind_preparation (seed : gostring) (until : option Z) : GoM (Session B) error unit :=
  now ← on_backend Now; bindPreparedMutation now seed until.
Definition check_preparation (until : option Z) : GoM (Session B) error (Z * Z) :=
  now ← on_backend Now; preparation now until.
End Provider.
End DomainProvider.
