(* ===== verification/DomainCatalog.v ===== *)
(** * The catalog of consistency domains: internal/portable/domain_catalog.go

    One mutable head names a tree with an entry per registered domain.  A
    frozen catalog accepts no registration. *)

From Stdlib Require Import ZArith Lia.
From S2P Require Import Prelude GoLib GoHash GoJSON GoTime Errors ObjectStore DomainPage DomainTree DomainPack DomainHead DomainSession TreeStream DomainProvider.

Open Scope Z_scope.

Module DomainCatalog.
Import ObjectStore StorageFormat DomainTree DomainPack DomainSession TreeIterator DomainProvider DomainHead.

Definition domainCatalogHeadSchema : gostring := "consistency-domain-catalog-head-v1".

Record domainCatalogSnapshot := {
  catalog_head : DomainCatalogHead;
  catalog_envelope : Envelope;
  catalog_object : Object;
  catalog_exists : bool;
}.

Definition no_root : DomainTreeRoot :=
  {| Root_Digest := []; Root_PackID := []; Root_Level := 0; Root_EntryCount := 0; Root_ByteCount := 0 |}.
Definition no_envelope : Envelope :=
  {| Envelope_Schema := []; Envelope_Revision := 0; Envelope_LogicalVersion := []; Envelope_Payload := [] |}.
Definition no_catalog : domainCatalogSnapshot :=
  {| catalog_head := {| CatalogHead_SchemaVersion := 1; CatalogHead_Revision := 0; CatalogHead_FreezeEpoch := 0;
                        CatalogHead_Root := no_root |};
     catalog_envelope := no_envelope; catalog_object := no_object; catalog_exists := false |}.

Definition catalogEntryKey (reference : consistencyDomainRef) : gostring :=
  Ref_Kind reference ++ "/" ++ b64_encode (Ref_ID reference).

(** [validateConsistencyDomainRef] of domain_store.go *)
Definition validateConsistencyDomainRef (reference : consistencyDomainRef) : res unit :=
  guard_err (bool_decide (Ref_ID reference = [])
             || negb (bool_decide (Ref_Kind reference ∈
                  [DomainNamespace; DomainOwnerControl; DomainAdmin; DomainCapability; DomainShare; DomainIdentity; DomainOwnerJobs])))
    (NewError ErrorInvalid "invalid consistency-domain reference").

Section Catalog.
Context `{SHA256} `{GZIP} {B : Type} `{!Provider B}.
#[local] Existing Instance catalog_pages.
(** How often a lost race is retried. *)
Variable fuel : nat.

Definition load : GoM B error domainCatalogSnapshot :=
  key ← lift DomainCatalogHeadKey;
  object ← attempt (obj_get key);
  match object with
  | Err err => if errors_Is err ErrNotFound then mret no_catalog else throw err
  | Ok object =>
      '(envelope, head) ← lift (DecodeEnvelope (Object_Body object) key domainCatalogHeadSchema);
      _ ← lift (ValidateDomainCatalogHead head);
      mret {| catalog_head := head; catalog_envelope := envelope; catalog_object := object; catalog_exists := true |}
  end.

Definition publish (snapshot : domainCatalogSnapshot) (next : DomainCatalogHead) : GoM B error unit :=
  key ← lift DomainCatalogHeadKey;
  body ← lift (EncodeEnvelope domainCatalogHeadSchema key (u64 (Envelope_Revision (catalog_envelope snapshot) + 1)) next);
  _ ← obj_put key body (if catalog_exists snapshot then put_match (Object_Version (catalog_object snapshot)) else create_only);
  mret tt.

Definition catalog_entry (reference : consistencyDomainRef) : res DomainCatalogEntry :=
  key ← DomainHeadKey (Ref_Kind reference) (Ref_ID reference);
  Ok {| Catalog_DomainID := Ref_ID reference; Catalog_Kind := Ref_Kind reference; Catalog_HeadKey := key_value key |}.

Definition entryAt (head : DomainCatalogHead) (reference : consistencyDomainRef) : GoM B error (option DomainCatalogEntry) :=
  value ← fresh (lookup (CatalogHead_Root head) (catalogEntryKey reference));
  match value with
  | None => mret None
  | Some value =>
      entry ← lift (decodeCanonicalValue (default [] (Value_Data value)));
      expected ← lift (catalog_entry reference);
      _ ← throw_if (bool_decide (entry ≠ expected)) (NewError ErrorInvalid "misbound consistency-domain catalog entry");
      mret (Some entry)
  end.

Definition with_catalog_root (head : DomainCatalogHead) (root : DomainTreeRoot) : DomainCatalogHead :=
  {| CatalogHead_SchemaVersion := CatalogHead_SchemaVersion head; CatalogHead_Revision := u64 (CatalogHead_Revision head + 1);
     CatalogHead_FreezeEpoch := CatalogHead_FreezeEpoch head; CatalogHead_Root := root |}.
Definition with_catalog_epoch (head : DomainCatalogHead) (epoch : Z) : DomainCatalogHead :=
  {| CatalogHead_SchemaVersion := CatalogHead_SchemaVersion head; CatalogHead_Revision := u64 (CatalogHead_Revision head + 1);
     CatalogHead_FreezeEpoch := epoch; CatalogHead_Root := CatalogHead_Root head |}.

Fixpoint register_loop (fuel : nat) (reference : consistencyDomainRef) (entry : DomainCatalogEntry) (change : DomainChange) :
    GoM B error unit :=
  match fuel with
  | O => throw nontermination
  | S fuel =>
      snapshot ← load;
      existing ← entryAt (catalog_head snapshot) reference;
      match existing with
      | Some existing =>
          throw_if (bool_decide (existing ≠ entry)) (NewError ErrorConflict "consistency-domain catalog identity conflict")
      | None =>
          _ ← throw_if (negb (CatalogHead_FreezeEpoch (catalog_head snapshot) =? 0))
                (NewError ErrorUnavailable "consistency-domain catalog is frozen");
          root ← fresh (apply_ (CatalogHead_Root (catalog_head snapshot)) [change]);
          published ← attempt (publish snapshot (with_catalog_root (catalog_head snapshot) root));
          match published with
          | Ok _ => mret tt
          | Err err => if lost_race err then register_loop fuel reference entry change else throw err
          end
      end
  end.

Definition register (reference : consistencyDomainRef) : GoM B error unit :=
  _ ← lift (validateConsistencyDomainRef reference);
  entry ← lift (catalog_entry reference);
  body ← lift (encode_document entry);
  register_loop fuel reference entry
    {| Change_Key := catalogEntryKey reference; Change_Delete := false; Change_Value := Some body;
       Change_LogicalVersion := Digest (bs "endlessfs-domain-catalog-entry-v1" ++ [nul] ++ body) |}.

(** ** Enumerating the domains *)

(** The checks of [visitEntries] on one tree entry. *)
Definition visit_entry (previous : gostring) (value : DomainEntry) : res DomainCatalogEntry :=
  let invalid := NewError ErrorInvalid "invalid consistency-domain catalog entry" in
  match decodeCanonicalValue (default [] (Entry_Value value)) with
  | Err _ => Err invalid
  | Ok entry =>
      let reference := {| Ref_Kind := Catalog_Kind entry; Ref_ID := Catalog_DomainID entry |} in
      _ ← guard_err (bool_decide (catalogEntryKey reference ≠ Entry_Key value)) invalid;
      key ← DomainHeadKey (Catalog_Kind entry) (Catalog_DomainID entry);
      _ ← guard_err (bool_decide (Catalog_HeadKey entry ≠ key_value key)) invalid;
      _ ← guard_err (bool_decide (previous ≠ []) && (Entry_Key value <=? previous)%bytes)
            (NewError ErrorInvalid "invalid consistency-domain catalog order");
      Ok entry
  end.

(** [n] bounds the number of entries; the visitor collects them. *)
Fixpoint visit_loop (n : nat) (previous : gostring) (frames : stack) (entries : list DomainCatalogEntry) :
    GoM (Session B) error (list DomainCatalogEntry) :=
  match n with
  | O => throw nontermination
  | S n =>
      '(value, frames) ← Next 2 frames;
      match value with
      | None => mret entries
      | Some value =>
          entry ← lift (visit_entry previous value);
          visit_loop n (Entry_Key value) frames (entries ++ [entry])
      end
  end.

Definition visitEntries (head : DomainCatalogHead) : GoM B error (list DomainCatalogEntry) :=
  fresh (frames ← newIterator (CatalogHead_Root head);
         visit_loop (S (Z.to_nat (Root_EntryCount (CatalogHead_Root head)))) [] frames []).

Definition entry_le (a b : DomainCatalogEntry) : Prop :=
  if bool_decide (Catalog_Kind a = Catalog_Kind b) then bytes_le (Catalog_DomainID a) (Catalog_DomainID b)
  else bytes_le (Catalog_Kind a) (Catalog_Kind b).
#[export] Instance entry_le_dec : RelDecision entry_le.
Proof. intros a b. unfold entry_le. destruct (bool_decide _); apply _. Defined.

Definition entries (head : DomainCatalogHead) : GoM B error (list DomainCatalogEntry) :=
  collected ← visitEntries head; mret (merge_sort entry_le collected).

(** ** Freezing *)

Fixpoint freeze_loop (fuel : nat) (epoch : Z) : GoM B error (list DomainCatalogEntry) :=
  match fuel with
  | O => throw nontermination
  | S fuel =>
      snapshot ← load;
      if negb (CatalogHead_FreezeEpoch (catalog_head snapshot) =? 0) then
        _ ← throw_if (negb (CatalogHead_FreezeEpoch (catalog_head snapshot) =? epoch))
              (NewError ErrorConflict "consistency-domain catalog is frozen at another epoch");
        entries (catalog_head snapshot)
      else
        let next := with_catalog_epoch (catalog_head snapshot) epoch in
        published ← attempt (publish snapshot next);
        match published with
        | Ok _ => entries next
        | Err err => if lost_race err then freeze_loop fuel epoch else throw err
        end
  end.

Definition freeze (epoch : Z) : GoM B error (list DomainCatalogEntry) :=
  _ ← throw_if (epoch =? 0) (NewError ErrorInvalid "invalid consistency-domain catalog freeze epoch");
  freeze_loop fuel epoch.
End Catalog.
End DomainCatalog.
