(* ===== verification/StateRoute.v ===== *)
(** * Which domain holds a state record: internal/portable/state.go, migration009.go

    The route of a record key to its consistency domain, the type of the record
    it names, and the stored form of its value. *)

From Stdlib Require Import ZArith Lia.
From S2P Require Import Prelude GoLib GoHash GoJSON GoTime Errors StateStore ObjectStore DomainPage DomainTree DomainPack DomainHead TransitionFormat DomainSession TreeStream DomainProvider DomainCatalog.

Open Scope Z_scope.

Module StateRoute.
Import StorageFormat DomainTree DomainSession TransitionFormat State.

Record stateRoute := { route_reference : consistencyDomainRef; route_exact : bool }.

Definition no_route : stateRoute := {| route_reference := {| Ref_Kind := []; Ref_ID := [] |}; route_exact := false |}.

(** ** Paths *)

Fixpoint decode_path_parts (parts : list gostring) : res (list gostring) :=
  match parts with
  | [] => Ok []
  | encoded :: parts =>
      match b64_decode encoded with
      | None => Err (NewError ErrorInvalid "invalid state path")
      | Some part =>
          _ ← guard_err ((len part =? 0) || bool_decide (b64_encode part ≠ encoded)) (NewError ErrorInvalid "invalid state path");
          rest ← decode_path_parts parts;
          Ok (part :: rest)
      end
  end.

Definition decodedStatePath (value : gostring) (prefix : bool) : res (Namespace * list gostring) :=
  let value := if prefix then TrimSuffix value "/" else value in
  match split_on "/" value with
  | [] => Err (NewError ErrorInvalid "invalid state path")
  | namespace :: parts =>
      _ ← guard_err (bool_decide (namespace = [])) (NewError ErrorInvalid "invalid state path");
      decoded ← decode_path_parts parts;
      Ok (namespace, decoded)
  end.

(** ** Routes *)

Section Routes.
Context `{SHA256}.

Definition route (kind : ConsistencyDomainKind) (id : gostring) : stateRoute :=
  {| route_reference := {| Ref_Kind := kind; Ref_ID := id |}; route_exact := true |}.

(** [digest[:2]]; a digest has 43 characters. *)
Definition stateCapabilityReference (namespace : Namespace) (discriminator : gostring) (kind : ConsistencyDomainKind) : consistencyDomainRef :=
  let digest := Digest (bs "endlessfs-state-capability-shard-v1" ++ [nul] ++ namespace ++ [nul] ++ discriminator) in
  {| Ref_Kind := kind; Ref_ID := "state:" ++ namespace ++ ":" ++ take 2 digest |}.

Definition capability_route (namespace : Namespace) (discriminator : gostring) (kind : ConsistencyDomainKind) : stateRoute :=
  {| route_reference := stateCapabilityReference namespace discriminator kind; route_exact := true |}.

Definition owner_control (owner : gostring) : stateRoute := route DomainOwnerControl ("owner:" ++ owner).

Definition one_of (namespace : Namespace) (l : list Namespace) : bool := bool_decide (namespace ∈ l).

Definition stateRouteForPath008 (namespace : Namespace) (parts : list gostring) : stateRoute :=
  if one_of namespace [NamespaceBootstrap; NamespaceRoles] then route DomainAdmin "administration"
  else if one_of namespace [NamespaceUsers; NamespaceAccounts; NamespacePreferences; NamespaceTrash; NamespaceUploads] then
    match parts with owner :: _ => owner_control owner | [] => no_route end
  else if one_of namespace [NamespaceCredentials] then
    match parts with
    | first :: rest =>
        match rest with
        | owner :: _ => if bool_decide (first = bs "user-index") then owner_control owner
                        else capability_route namespace first DomainCapability
        | [] => capability_route namespace first DomainCapability
        end
    | [] => no_route
    end
  else if one_of namespace [NamespaceSessions; NamespaceCeremonies; NamespaceInvites; NamespaceRecoveries] then
    match parts with first :: _ => capability_route namespace first DomainCapability | [] => no_route end
  else if one_of namespace [NamespaceShares] then
    match parts with first :: _ => capability_route namespace first DomainShare | [] => no_route end
  else if one_of namespace [NamespaceIdempotency] then
    match parts with
    | first :: rest =>
        owner_control (match rest with
                       | second :: _ => if bool_decide (first ∈ [bs "preview"; bs "drive"]) then second else first
                       | [] => first
                       end)
    | [] => no_route
    end
  else if one_of namespace [NamespaceOperations] then
    match parts with
    | [] => no_route
    | first :: rest =>
        match rest with
        | owner :: _ => if bool_decide (first ∈ [bs "preview"; bs "preview-index"; bs "batch"]) then owner_control owner
                        else capability_route namespace (join [nul] parts) DomainCapability
        | [] => capability_route namespace (join [nul] parts) DomainCapability
        end
    end
  else no_route.

Definition administration : stateRoute := route DomainAdmin "administration".
Definition owner_of (kind : ConsistencyDomainKind) (owner : gostring) : stateRoute := route kind ("owner:" ++ owner).
Definition namespace_of (owner : gostring) : stateRoute := route DomainNamespace owner.

Definition stateRouteForPath009 (namespace : Namespace) (parts : list gostring) : stateRoute :=
  if one_of namespace [NamespaceBootstrap; NamespaceRoles; NamespaceInvites] then
    match parts with _ :: _ => administration | [] => no_route end
  else if one_of namespace [NamespaceUsers; NamespaceAccounts; NamespacePreferences] then
    match parts with owner :: _ => owner_of DomainIdentity owner | [] => no_route end
  else if one_of namespace [NamespaceCredentials; NamespaceSessions; NamespaceRecoveries] then
    match parts with owner :: _ :: _ => owner_of DomainIdentity owner | _ => no_route end
  else if one_of namespace [NamespaceCeremonies] then
    match parts with
    | first :: second :: rest =>
        if bool_decide (rest ≠ []) && bool_decide (first = bs "owner") then owner_of DomainIdentity second
        else if bool_decide (first = bs "capability") then capability_route namespace second DomainCapability
        else no_route
    | _ => no_route
    end
  else if one_of namespace [NamespaceTrash; NamespaceUploads; NamespaceShares] then
    match parts with owner :: _ :: _ => namespace_of owner | _ => no_route end
  else if one_of namespace [NamespaceIdempotency] then
    match parts with
    | first :: owner :: _ :: _ =>
        if bool_decide (first = bs "preview") then owner_of DomainOwnerJobs owner
        else if bool_decide (first = bs "drive") then namespace_of owner
        else if bool_decide (first = bs "identity") then owner_of DomainIdentity owner
        else no_route
    | _ => no_route
    end
  else if one_of namespace [NamespaceOperations] then
    match parts with
    | first :: second :: rest =>
        if bool_decide (rest ≠ []) && bool_decide (first ∈ [bs "preview"; bs "preview-index"]) then owner_of DomainOwnerJobs second
        else if bool_decide (rest ≠ []) && bool_decide (first = bs "batch") then namespace_of second
        else if bool_decide (rest ≠ []) && bool_decide (first = bs "identity") then owner_of DomainIdentity second
        else if bool_decide (first = bs "admin") then administration
        else no_route
    | _ => no_route
    end
  else no_route.

Definition stateRouteForPath : Namespace → list gostring → stateRoute := stateRouteForPath009.

Definition stateDomainReferenceForKeyWithRouter (key : Key) (router : Namespace → list gostring → stateRoute) : res consistencyDomainRef :=
  _ ← guard_err (negb (Key_Valid key)) (NewError ErrorInvalid "invalid state key");
  '(namespace, parts) ← decodedStatePath (key_value key) false;
  let route := router namespace parts in
  _ ← guard_err (negb (route_exact route)) (NewError ErrorInvalid "state key has no consistency-domain route");
  Ok (route_reference route).

Definition stateDomainReferenceForKey008 (key : Key) : res consistencyDomainRef :=
  stateDomainReferenceForKeyWithRouter key stateRouteForPath008.
Definition stateDomainReferenceForKey009 (key : Key) : res consistencyDomainRef :=
  stateDomainReferenceForKeyWithRouter key stateRouteForPath009.
Definition stateDomainReferenceForKey (key : Key) : res consistencyDomainRef :=
  stateDomainReferenceForKeyWithRouter key stateRouteForPath.

Definition stateDomainReferenceForPrefix (prefix : Prefix) : res (consistencyDomainRef * bool) :=
  _ ← guard_err (negb (Prefix_Valid prefix)) (NewError ErrorInvalid "invalid state prefix");
  '(namespace, parts) ← decodedStatePath (prefix_value prefix) true;
  let route := stateRouteForPath namespace parts in
  Ok (route_reference route, route_exact route).
End Routes.

(** ** Record types: migration009.go *)

Definition stateRecordType009 (namespace : Namespace) (parts : list gostring) : res gostring :=
  if bool_decide (namespace = NamespaceUsers) then Ok (bs "profile")
  else if bool_decide (namespace = NamespaceAccounts) then Ok (bs "account")
  else if bool_decide (namespace = NamespaceCredentials) then
    Ok (match parts with
        | [_; second] => if bool_decide (second = bs "index") then bs "credential-index" else bs "credential"
        | _ => bs "credential"
        end)
  else if bool_decide (namespace = NamespaceCeremonies) then Ok (bs "ceremony")
  else if bool_decide (namespace = NamespaceSessions) then Ok (bs "session")
  else if bool_decide (namespace = NamespaceInvites) then Ok (bs "invite")
  else if bool_decide (namespace = NamespaceRecoveries) then Ok (bs "recovery")
  else if bool_decide (namespace = NamespaceShares) then Ok (bs "share")
  else if bool_decide (namespace = NamespaceTrash) then Ok (bs "trash")
  else if bool_decide (namespace = NamespaceUploads) then Ok (bs "upload")
  else if bool_decide (namespace = NamespaceBootstrap) then
    Ok (if bool_decide (parts = [bs "first-account"]) then bs "first-account" else bs "bootstrap")
  else if bool_decide (namespace = NamespaceRoles) then Ok (bs "admin-roles")
  else if bool_decide (namespace = NamespacePreferences) then Ok (bs "theme-preference")
  else if bool_decide (namespace = NamespaceIdempotency) then
    Ok (if bool_decide (head parts = Some (bs "preview")) then bs "preview-idempotency" else bs "idempotency")
  else
    let unknown := NewError ErrorInvalid "state key has no schema-009 record type" in
    if bool_decide (namespace = NamespaceOperations) then
      match parts with
      | [] => Err unknown
      | first :: rest =>
          if bool_decide (first = bs "preview") then Ok (bs "preview-operation")
          else if bool_decide (first = bs "preview-index") then Ok (bs "preview-index")
          else if bool_decide (first = bs "batch") then Ok (bs "batch-operation")
          else if bool_decide (first = bs "identity") then
            Ok (match rest with
                | _ :: third :: _ :: _ => if bool_decide (third = bs "authentication") then bs "authentication-operation" else bs "registration-operation"
                | _ => bs "registration-operation"
                end)
          else if bool_decide (first = bs "admin") then Ok (bs "mutation-outcome")
          else Err unknown
      end
    else Err unknown.

Definition encodeStateValue009 (key : Key) (data : gostring) : res gostring :=
  '(namespace, parts) ← decodedStatePath (key_value key) false;
  recordType ← stateRecordType009 namespace parts;
  EncodeStateRecord009 recordType data.

Definition decodeStateValue009 (key : Key) (data : gostring) : res gostring :=
  '(namespace, parts) ← decodedStatePath (key_value key) false;
  recordType ← stateRecordType009 namespace parts;
  DecodeStateRecord009 data recordType.

(** ** Keys read back from a domain *)

Definition validateStateKey (key : Key) : res unit :=
  guard_err (negb (Key_Valid key)) (NewError ErrorInvalid "invalid state key").

Definition validateStateMutation (key : Key) (data : gostring) : res unit :=
  _ ← validateStateKey key;
  guard_err (MaxRecordBytes <? len data) (NewError ErrorInvalid "invalid state record size").

Fixpoint decode_stored_parts (parts : list gostring) : res (list gostring) :=
  match parts with
  | [] => Ok []
  | part :: parts =>
      match b64_decode part with
      | None => Err (NewError ErrorInvalid "invalid stored state key")
      | Some value =>
          _ ← guard_err (bool_decide (b64_encode value ≠ part)) (NewError ErrorInvalid "invalid stored state key");
          rest ← decode_stored_parts parts;
          Ok (value :: rest)
      end
  end.

Definition parseExistingStateKey (value : gostring) : res Key :=
  match split_on "/" value with
  | [] => Err (NewError ErrorInvalid "invalid stored state key")
  | namespace :: parts =>
      decoded ← decode_stored_parts parts;
      match NewKey namespace decoded with
      | Ok key => if bool_decide (key_value key = value) then Ok key else Err (NewError ErrorInvalid "invalid stored state key")
      | Err _ => Err (NewError ErrorInvalid "invalid stored state key")
      end
  end.
End StateRoute.
