(* ===== verification/DomainStore.v ===== *)
(** * The consistency-domain store: internal/portable/domain_store.go

    A domain's state is one mutable head: a base tree, a bounded window of
    deltas over it, and the outcomes that make mutations idempotent.  A mutation
    becomes visible by one conditional replacement of the head.

    [mutatePrepared] may run on the caller's session ([own]); otherwise every
    step opens its own.  Loops that retry lost races take [fuel]. *)

From Stdlib Require Import ZArith Lia.
From S2P Require Import Prelude GoLib GoHash GoJSON GoTime Errors ObjectStore DomainPage DomainTree DomainPack DomainHead DomainSession TreeStream DomainProvider DomainCatalog.

Open Scope Z_scope.

Module DomainStore.
Import ObjectStore StorageFormat DomainTree DomainPack DomainSession DomainProvider DomainHead DomainCatalog.

Definition domainHeadSchema : gostring := "consistency-domain-head-v1".
Definition consistencyDomainDeltaWindow : nat := 32.
Definition StepDomainBeforeHeadCommit : gostring := "consistency-domain:before-head-commit".
Definition StepDomainAfterHeadCommit : gostring := "consistency-domain:after-head-commit".
Definition errTransitionPending009 : error := OtherError "consistency-domain transition pending".
Definition transitionLockKey009 : gostring := "__transition_lock__".

(** ** Data *)

Abbreviation domainValueAny := 1.
Abbreviation domainValueAbsent := 2.
Abbreviation domainValuePresent := 3.

Record consistencyDomainChange := {
  Key : gostring;
  Require : Z;
  ExpectedVersion : gostring;
  Delete : bool;
  Value : option gostring;
}.

Record consistencyDomainMutation := {
  ID : gostring;
  TransitionID : gostring;
  RetainUntil : Z;
  Changes : list consistencyDomainChange;
  Result : option gostring;
  ExpectedRevision : option Z;
}.

Record consistencyDomainOutcome := {
  MutationID : gostring;
  Fingerprint : gostring;
  Revision : Z;
  Retained : Z;
  Answer : option gostring;
  Replayed : bool;
}.

Record consistencyDomainHeadSnapshot := {
  head : DomainHead;
  envelope : Envelope;
  object : Object;
  exists_ : bool;
}.

Definition no_head : DomainHead :=
  {| Head_SchemaVersion := 0; Head_DomainID := []; Head_Kind := []; Head_Registered := false; Head_Revision := 0;
     Head_Frozen := false; Head_FreezeEpoch := 0; Head_BaseRevision := 0; Head_Base := no_root; Head_Outcomes := no_root;
     Head_OutcomeExpiry := no_root; Head_Deltas := [] |}.
Definition no_snapshot : consistencyDomainHeadSnapshot :=
  {| head := no_head; envelope := no_envelope; object := no_object; exists_ := false |}.

(** A new domain's head: [DomainHead{SchemaVersion: 1, DomainID, Kind, Registered}]. *)
Definition initial_head (reference : consistencyDomainRef) (registered : bool) : DomainHead :=
  {| Head_SchemaVersion := 1; Head_DomainID := Ref_ID reference; Head_Kind := Ref_Kind reference;
     Head_Registered := registered; Head_Revision := 0; Head_Frozen := false; Head_FreezeEpoch := 0; Head_BaseRevision := 0;
     Head_Base := no_root; Head_Outcomes := no_root; Head_OutcomeExpiry := no_root; Head_Deltas := [] |}.

(** [next := head] with some fields assigned. *)
Definition with_registered (h : DomainHead) : DomainHead :=
  {| Head_SchemaVersion := Head_SchemaVersion h; Head_DomainID := Head_DomainID h; Head_Kind := Head_Kind h;
     Head_Registered := true; Head_Revision := Head_Revision h; Head_Frozen := Head_Frozen h;
     Head_FreezeEpoch := Head_FreezeEpoch h; Head_BaseRevision := Head_BaseRevision h; Head_Base := Head_Base h;
     Head_Outcomes := Head_Outcomes h; Head_OutcomeExpiry := Head_OutcomeExpiry h; Head_Deltas := Head_Deltas h |}.
Definition with_delta (h : DomainHead) (delta : DomainDelta) : DomainHead :=
  {| Head_SchemaVersion := Head_SchemaVersion h; Head_DomainID := Head_DomainID h; Head_Kind := Head_Kind h;
     Head_Registered := true; Head_Revision := Delta_Revision delta; Head_Frozen := Head_Frozen h;
     Head_FreezeEpoch := Head_FreezeEpoch h; Head_BaseRevision := Head_BaseRevision h; Head_Base := Head_Base h;
     Head_Outcomes := Head_Outcomes h; Head_OutcomeExpiry := Head_OutcomeExpiry h; Head_Deltas := Head_Deltas h ++ [delta] |}.
Definition with_trees (h : DomainHead) (revision : Z) (base outcomes expiry : DomainTreeRoot) : DomainHead :=
  {| Head_SchemaVersion := Head_SchemaVersion h; Head_DomainID := Head_DomainID h; Head_Kind := Head_Kind h;
     Head_Registered := Head_Registered h; Head_Revision := revision; Head_Frozen := Head_Frozen h;
     Head_FreezeEpoch := Head_FreezeEpoch h; Head_BaseRevision := revision; Head_Base := base;
     Head_Outcomes := outcomes; Head_OutcomeExpiry := expiry; Head_Deltas := [] |}.
Definition with_freeze (h : DomainHead) (frozen : bool) (epoch : Z) : DomainHead :=
  {| Head_SchemaVersion := Head_SchemaVersion h; Head_DomainID := Head_DomainID h; Head_Kind := Head_Kind h;
     Head_Registered := Head_Registered h; Head_Revision := Head_Revision h; Head_Frozen := frozen;
     Head_FreezeEpoch := epoch; Head_BaseRevision := Head_BaseRevision h; Head_Base := Head_Base h;
     Head_Outcomes := Head_Outcomes h; Head_OutcomeExpiry := Head_OutcomeExpiry h; Head_Deltas := Head_Deltas h |}.

(** ** Normalizing a mutation *)

Definition json_domain_change (c : consistencyDomainChange) : gostring :=
  json_object ([text_field "key" (Key c); uint_field "require" (Require c)]
    ++ omit_text "expectedVersion" (ExpectedVersion c)
    ++ json_omit (Delete c) (json_field "delete" (json_bool true)) ++ omit_bytes "value" (Value c)).

Definition json_intent (changes : list consistencyDomainChange) (result : option gostring) : gostring :=
  json_object ([json_field "changes" (json_array (map json_domain_change changes))] ++ omit_bytes "result" result).

Definition domain_change_le (a b : consistencyDomainChange) : Prop := bytes_le (Key a) (Key b).
#[export] Instance domain_change_le_dec : RelDecision domain_change_le.
Proof. intros a b. unfold domain_change_le. apply _. Defined.

(** The loop over the sorted changes. *)
Fixpoint check_intent (previous : gostring) (changes : list consistencyDomainChange) (invalid : error) : res unit :=
  match changes with
  | [] => Ok tt
  | change :: changes =>
      _ ← guard_err (bool_decide (Key change = []) || bool_decide (Key change = previous)
                     || (Require change <? domainValueAny) || (domainValuePresent <? Require change)
                     || (negb (Require change =? domainValuePresent) && bool_decide (ExpectedVersion change ≠ []))
                     || (Delete change && negb (bytes_len (Value change) =? 0))) invalid;
      check_intent (Key change) changes invalid
  end.

Definition with_changes (m : consistencyDomainMutation) (changes : list consistencyDomainChange) : consistencyDomainMutation :=
  {| ID := ID m; TransitionID := TransitionID m; RetainUntil := RetainUntil m; Changes := changes;
     Result := clone_bytes (Result m); ExpectedRevision := ExpectedRevision m |}.
Definition with_retention (m : consistencyDomainMutation) (until : Z) : consistencyDomainMutation :=
  {| ID := ID m; TransitionID := TransitionID m; RetainUntil := until; Changes := Changes m;
     Result := Result m; ExpectedRevision := ExpectedRevision m |}.

(** A Go map from keys to changes. *)
Abbreviation change_index := (gmap gostring DomainChange).

Section Normalize.
Context `{SHA256}.

(** The error of the encoder is ignored; it returns no bytes then. *)
Definition consistencyDomainLogicalVersion (mutationID fingerprint : gostring) (change : consistencyDomainChange) : gostring :=
  if Delete change then []
  else
    let text := json_object [text_field "mutationID" mutationID; text_field "fingerprint" fingerprint;
                             text_field "key" (Key change); json_field "value" (json_slice (Value change))] in
    let body := match EncodeCanonical text with Ok body => body | Err _ => [] end in
    Digest (bs "endlessfs-consistency-domain-value-v1" ++ [nul] ++ body).

(** The change as the delta records it. *)
Definition recorded_change (mutationID fingerprint : gostring) (change : consistencyDomainChange) : DomainChange :=
  {| Change_Key := Key change; Change_Delete := Delete change; Change_Value := clone_bytes (Value change);
     Change_LogicalVersion := consistencyDomainLogicalVersion mutationID fingerprint change |}.

Definition mutation_delta (mutation : consistencyDomainMutation) (fingerprint : gostring) (revision : Z) : DomainDelta :=
  {| Delta_MutationID := ID mutation; Delta_Fingerprint := fingerprint; Delta_Revision := revision;
     Delta_RetainUntil := RetainUntil mutation; Delta_Changes := map (recorded_change (ID mutation) fingerprint) (Changes mutation);
     Delta_Result := clone_bytes (Result mutation) |}.

Definition normalizeConsistencyDomainMutation (mutation : consistencyDomainMutation) :
    res (consistencyDomainMutation * gostring) :=
  _ ← guard_err (bool_decide (ID mutation = []) || bool_decide (Changes mutation = []))
        (NewError ErrorInvalid "invalid consistency-domain mutation");
  let changes := merge_sort domain_change_le (Changes mutation) in
  _ ← check_intent [] changes (NewError ErrorInvalid "invalid consistency-domain change");
  body ← EncodeCanonical (json_intent changes (clone_bytes (Result mutation)));
  let fingerprint := Digest (bs "endlessfs-consistency-domain-mutation-v2" ++ [nul] ++ body) in
  let mutation := with_changes mutation changes in
  _ ← encode_document (mutation_delta mutation fingerprint 1);
  Ok (mutation, fingerprint).

(** The hash of [normalizeMaterializedConsistencyDomainMutation]. *)
Fixpoint materialized_body (previous : gostring) (changes : list consistencyDomainChange) : res gostring :=
  match changes with
  | [] => Ok []
  | change :: changes =>
      _ ← check_intent previous [change] (NewError ErrorInvalid "invalid materialized consistency-domain change");
      body ← EncodeCanonical (json_domain_change change);
      rest ← materialized_body (Key change) changes;
      Ok (put_be 8 (len body) [] ++ body ++ rest)
  end.

Definition normalizeMaterializedConsistencyDomainMutation (mutation : consistencyDomainMutation) :
    res (consistencyDomainMutation * gostring) :=
  _ ← guard_err (bool_decide (ID mutation = []) || bool_decide (Changes mutation = []))
        (NewError ErrorInvalid "invalid materialized consistency-domain mutation");
  let changes := merge_sort domain_change_le (Changes mutation) in
  body ← materialized_body [] changes;
  let result := default [] (Result mutation) in
  Ok (with_changes mutation changes,
      b64_encode (sha256 (bs "endlessfs-consistency-domain-materialized-mutation-v1" ++ [nul] ++ body
                          ++ put_be 8 (len result) [] ++ result))).

(** ** Outcomes and their expiry index *)

Definition consistencyDomainOutcomeExpiryKey (retainUntil : Z) (mutationID : gostring) : gostring :=
  format_compact retainUntil ++ "." ++ b64_encode mutationID.

(** [len("20060102T150405.000000000Z")] *)
Definition expiry_layout_length : nat := 26.

(** A key that does not parse gives the zero time. *)
Definition parseConsistencyDomainExpiryTime (key : gostring) : Z :=
  match drop expiry_layout_length key with
  | c :: _ =>
      if bool_decide (c = "."%char) then default zero_time (parse_compact (take expiry_layout_length key)) else zero_time
  | [] => zero_time
  end.

Definition normalizeDomainChangeMap (values : change_index) : list DomainChange :=
  merge_sort change_le (map snd (map_to_list values)).

Definition record_outcome (recorded : DomainOutcome) (outcomes expiries : change_index) : res (change_index * change_index) :=
  body ← encode_document recorded;
  let id := Outcome_MutationID recorded in
  let expiryKey := consistencyDomainOutcomeExpiryKey (Outcome_RetainUntil recorded) id in
  Ok (<[id := {| Change_Key := id; Change_Delete := false; Change_Value := Some body;
                 Change_LogicalVersion := Digest (bs "endlessfs-consistency-domain-outcome-v1" ++ [nul] ++ body) |}]> outcomes,
      <[expiryKey := {| Change_Key := expiryKey; Change_Delete := false; Change_Value := Some id;
                        Change_LogicalVersion := Digest (bs "endlessfs-consistency-domain-outcome-expiry-v1" ++ [nul]
                                                         ++ expiryKey ++ [nul] ++ id) |}]> expiries).

Definition delta_outcome (delta : DomainDelta) : DomainOutcome :=
  {| Outcome_MutationID := Delta_MutationID delta; Outcome_Fingerprint := Delta_Fingerprint delta;
     Outcome_Revision := Delta_Revision delta; Outcome_RetainUntil := Delta_RetainUntil delta;
     Outcome_Result := clone_bytes (Delta_Result delta) |}.

(** [latest[change.Key] = change] *)
Definition index_changes (changes : list DomainChange) (latest : change_index) : change_index :=
  fold_left (λ (m : change_index) change, <[Change_Key change := change]> m) changes latest.

(** The loop over the delta window: the latest change of every key, and the
    outcomes that are still retained. *)
Fixpoint fold_window (now : Z) (deltas : list DomainDelta) (latest outcomes expiries : change_index) :
    res (change_index * change_index * change_index) :=
  match deltas with
  | [] => Ok (latest, outcomes, expiries)
  | delta :: deltas =>
      let latest := index_changes (Delta_Changes delta) latest in
      if negb (now <? Delta_RetainUntil delta) then fold_window now deltas latest outcomes expiries
      else
        '(outcomes, expiries) ← record_outcome (delta_outcome delta) outcomes expiries;
        fold_window now deltas latest outcomes expiries
  end.

(** The loop over the earliest page of the expiry index. *)
Fixpoint prune_loop (now : Z) (entries : list DomainEntry) (outcomes expiries : change_index) :
    res (change_index * change_index) :=
  match entries with
  | [] => Ok (outcomes, expiries)
  | entry :: entries =>
      let invalid := NewError ErrorInvalid "invalid consistency-domain outcome expiry" in
      let retainUntil := parseConsistencyDomainExpiryTime (Entry_Key entry) in
      _ ← guard_err (IsZero retainUntil) invalid;
      if now <? retainUntil then Ok (outcomes, expiries)
      else
        let mutationID := default [] (Entry_Value entry) in
        _ ← guard_err (bool_decide (mutationID = [])
                       || bool_decide (consistencyDomainOutcomeExpiryKey retainUntil mutationID ≠ Entry_Key entry)) invalid;
        let removal key := {| Change_Key := key; Change_Delete := true; Change_Value := None; Change_LogicalVersion := [] |} in
        prune_loop now entries
          (match outcomes !! mutationID with
           | Some _ => outcomes
           | None => <[mutationID := removal mutationID]> outcomes
           end) (<[Entry_Key entry := removal (Entry_Key entry)]> expiries)
  end.
End Normalize.

(** ** Reading a head *)

Section Store.
Context `{SHA256} `{GZIP} {B : Type} `{!Provider B}.
Variable reference : consistencyDomainRef.
#[local] Instance pages_of_reference : PageStore (Session B) := domain_pages reference.

Abbreviation StoreM := (GoM B error).
Abbreviation SM := (GoM (Session B) error).

Definition head_key : res ObjectStore.Key := DomainHeadKey (Ref_Kind reference) (Ref_ID reference).

Definition misbound (h : DomainHead) : bool :=
  bool_decide (Head_DomainID h ≠ Ref_ID reference) || bool_decide (Head_Kind h ≠ Ref_Kind reference).

Definition loadHead : StoreM consistencyDomainHeadSnapshot :=
  _ ← lift (validateConsistencyDomainRef reference);
  key ← lift head_key;
  object ← attempt (obj_get key);
  match object with
  | Err err => if errors_Is err ErrNotFound then mret no_snapshot else throw err
  | Ok object =>
      '(envelope, head) ← lift (DecodeEnvelope (Object_Body object) key domainHeadSchema);
      _ ← throw_if (misbound head) (NewError ErrorInvalid "consistency-domain head key binding mismatch");
      _ ← lift (if Head_Registered head then ValidateDomainHead head else ValidateInitialDomainHead head);
      mret {| head := head; envelope := envelope; object := object; exists_ := true |}
  end.

Definition encodeHead (key : ObjectStore.Key) (snapshot : consistencyDomainHeadSnapshot) (head : DomainHead) : res gostring :=
  _ ← ValidateDomainHead head;
  EncodeEnvelope domainHeadSchema key
    (if exists_ snapshot then u64 (Envelope_Revision (envelope snapshot) + 1) else 1) head.

(** The index of the change under a key, by binary search. *)
Definition find_change (changes : list DomainChange) (key : gostring) : option DomainChange :=
  let index := Search (length changes) (λ index,
    match changes !! index with Some c => negb (Change_Key c <? key)%bytes | None => false end) in
  match changes !! index with
  | Some change => if bool_decide (Change_Key change = key) then Some change else None
  | None => None
  end.

(** The newest delta first. *)
Fixpoint find_delta (deltas : list DomainDelta) (key : gostring) : option (DomainChange * Z) :=
  match deltas with
  | [] => None
  | delta :: deltas =>
      match find_change (Delta_Changes delta) key with
      | Some change => Some (change, Delta_Revision delta)
      | None => find_delta deltas key
      end
  end.

Definition lookupAtHeadWithSession (head : DomainHead) (key : gostring) (own : bool) : SM (option consistencyDomainValue) :=
  match find_delta (reverse (Head_Deltas head)) key with
  | Some (change, revision) =>
      if Change_Delete change then mret None
      else mret (Some {| Value_Data := clone_bytes (Change_Value change);
                         Value_LogicalVersion := Change_LogicalVersion change; Value_Revision := revision |})
  | None =>
      if bool_decide (Root_Digest (Head_Base head) = []) then mret None
      else with_session own (lookup (Head_Base head) key)
  end.

Definition lookupAtHead (head : DomainHead) (key : gostring) : StoreM (option consistencyDomainValue) :=
  fresh (lookupAtHeadWithSession head key false).

(** [transitionLockAtHeadWithSession009] of state_transition009.go *)
Definition transitionLockAtHeadWithSession009 (head : DomainHead) (own : bool) :
    SM (option (TransitionLock009 * consistencyDomainValue)) :=
  value ← lookupAtHeadWithSession head transitionLockKey009 own;
  match value with
  | None => mret None
  | Some value =>
      let invalid := NewError ErrorInvalid "invalid consistency-domain transition lock" in
      match decodeCanonicalValue (default [] (Value_Data value)) with
      | Err _ => throw invalid
      | Ok lock =>
          _ ← throw_if (negb (is_Ok (ValidateTransitionLock009 lock)) || bool_decide (Lock_Kind lock ≠ Ref_Kind reference)
                        || bool_decide (Lock_DomainID lock ≠ Ref_ID reference)) invalid;
          mret (Some (lock, value))
      end
  end.

Definition transitionLockAtHead009 (head : DomainHead) : StoreM (option (TransitionLock009 * consistencyDomainValue)) :=
  fresh (transitionLockAtHeadWithSession009 head false).

(** [if found { return ... errTransitionPending009 }] *)
Definition pending_transition : error :=
  WrapError ErrorUnavailable "consistency domain has a pending transition" errTransitionPending009.

(** ** Outcomes at a head *)

Definition retained_outcome (id : gostring) (o : DomainOutcome) : consistencyDomainOutcome :=
  {| MutationID := id; Fingerprint := Outcome_Fingerprint o; Revision := Outcome_Revision o;
     Retained := Outcome_RetainUntil o; Answer := clone_bytes (Outcome_Result o); Replayed := false |}.

(** The newest delta first; an expired one is passed over. *)
Fixpoint outcome_in_window (deltas : list DomainDelta) (mutationID : gostring) : StoreM (option consistencyDomainOutcome) :=
  match deltas with
  | [] => mret None
  | delta :: deltas =>
      if bool_decide (Delta_MutationID delta = mutationID) then
        now ← Now;
        if negb (now <? Delta_RetainUntil delta) then outcome_in_window deltas mutationID
        else mret (Some (retained_outcome mutationID (delta_outcome delta)))
      else outcome_in_window deltas mutationID
  end.

Definition lookupOutcomeAtHeadWithSession (head : DomainHead) (mutationID : gostring) (own : bool) :
    SM (option consistencyDomainOutcome) :=
  recent ← on_backend (outcome_in_window (reverse (Head_Deltas head)) mutationID);
  match recent with
  | Some outcome => mret (Some outcome)
  | None =>
      if bool_decide (Root_Digest (Head_Outcomes head) = []) then mret None
      else
        value ← with_session own (lookup (Head_Outcomes head) mutationID);
        match value with
        | None => mret None
        | Some value =>
            recorded ← lift (decodeCanonicalValue (default [] (Value_Data value)));
            _ ← throw_if (negb (is_Ok (ValidateDomainOutcome recorded)) || bool_decide (Outcome_MutationID recorded ≠ mutationID))
                  (NewError ErrorInvalid "misbound consistency-domain outcome");
            now ← on_backend Now;
            if negb (now <? Outcome_RetainUntil recorded) then mret None
            else mret (Some (retained_outcome (Outcome_MutationID recorded) recorded))
        end
  end.

Definition lookupOutcomeAtHead (head : DomainHead) (mutationID : gostring) : StoreM (option consistencyDomainOutcome) :=
  fresh (lookupOutcomeAtHeadWithSession head mutationID false).

(** ** Preconditions *)

Definition check_requirement (change : consistencyDomainChange) (current : option consistencyDomainValue) : res unit :=
  let missing := NewError ErrorNotFound "consistency-domain value does not exist" in
  _ ← (if Require change =? domainValueAbsent then
         guard_err (bool_decide (is_Some current)) (NewError ErrorConflict "consistency-domain value already exists")
       else if Require change =? domainValuePresent then
         match current with
         | None => Err missing
         | Some current =>
             guard_err (bool_decide (ExpectedVersion change ≠ []) && bool_decide (Value_LogicalVersion current ≠ ExpectedVersion change))
               (NewError ErrorPreconditionFailed "stale consistency-domain value version")
         end
       else Ok tt);
  guard_err (Delete change && bool_decide (current = None)) missing.

Fixpoint validate_loop (head : DomainHead) (changes : list consistencyDomainChange) : SM unit :=
  match changes with
  | [] => mret tt
  | change :: changes =>
      current ← lookupAtHeadWithSession head (Key change) true;
      _ ← lift (check_requirement change current);
      validate_loop head changes
  end.

Definition validateMutationAtHeadWithSession (head : DomainHead) (changes : list consistencyDomainChange) (own : bool) : SM unit :=
  with_session own (validate_loop head changes).

Definition validateMutationAtHead (head : DomainHead) (changes : list consistencyDomainChange) : StoreM unit :=
  fresh (validateMutationAtHeadWithSession head changes false).

(** ** Reading values *)

Definition get_ (key : gostring) : StoreM consistencyDomainValue :=
  let missing := NewError ErrorNotFound "consistency-domain value does not exist" in
  _ ← throw_if (bool_decide (key = [])) (NewError ErrorInvalid "invalid consistency-domain key");
  snapshot ← loadHead;
  _ ← throw_if (negb (exists_ snapshot) || negb (Head_Registered (head snapshot))) missing;
  lock ← transitionLockAtHead009 (head snapshot);
  _ ← throw_if (bool_decide (is_Some lock)) pending_transition;
  value ← lookupAtHead (head snapshot) key;
  match value with
  | None => throw missing
  | Some value => mret value
  end.

(** [change.Key > after && strings.HasPrefix(change.Key, prefix)] *)
Definition in_range (prefix after : gostring) (change : DomainChange) : bool :=
  (after <? Change_Key change)%bytes && HasPrefix (Change_Key change) prefix.

Definition window_changes (head : DomainHead) : list DomainChange := concat (map Delta_Changes (Head_Deltas head)).

(** [values] after the loop over the window. *)
Definition overlay (prefix after : gostring) (changes : list DomainChange) (values : gmap gostring DomainEntry) :
    gmap gostring DomainEntry :=
  fold_left (λ values change,
      if negb (in_range prefix after change) then values
      else if Change_Delete change then delete (Change_Key change) values
      else <[Change_Key change := change_entry change]> values) changes values.

Definition listAtHeadWithSession (head : DomainHead) (prefix after : gostring) (limit : Z) : SM (list DomainEntry) :=
  let relevant := len (filter (λ c, in_range prefix after c = true) (window_changes head)) in
  base ← collect (Head_Base head) prefix after (i64 (limit + relevant));
  let values := overlay prefix after (window_changes head)
                  (fold_left (λ (m : gmap gostring DomainEntry) e, <[Entry_Key e := e]> m) base ∅) in
  let keys := sort_Strings (map fst (map_to_list values)) in
  _ ← throw_if (limit <? 0) index_out_of_range;
  mret (omap (λ key, values !! key) (take (Z.to_nat limit) keys)).

Definition listAtHead (head : DomainHead) (prefix after : gostring) (limit : Z) : StoreM (list DomainEntry) :=
  fresh (listAtHeadWithSession head prefix after limit).

(** ** Snapshots for continued lists *)

Definition writeHeadSnapshot (head : DomainHead) (expiresAt : Z) : StoreM gostring :=
  let snapshot := {| Snapshot_SchemaVersion := 1; Snapshot_DomainID := Ref_ID reference; Snapshot_Kind := Ref_Kind reference;
                     Snapshot_Head := head; Snapshot_ExpiresAt := expiresAt |} in
  _ ← lift (ValidateDomainSnapshot snapshot);
  body ← lift (encode_document snapshot);
  let digest := Digest body in
  key ← lift (DomainSnapshotKey (Ref_Kind reference) (Ref_ID reference) digest);
  written ← attempt (obj_put key body create_only);
  match written with
  | Err err => if errors_Is err ErrConflict then mret digest else throw err
  | Ok _ => mret digest
  end.

Definition loadHeadSnapshot (digest : gostring) : StoreM DomainHead :=
  _ ← throw_if (bool_decide (digest = [])) (NewError ErrorInvalid "invalid consistency-domain snapshot");
  key ← lift (DomainSnapshotKey (Ref_Kind reference) (Ref_ID reference) digest);
  object ← obj_get key;
  _ ← throw_if (bool_decide (Digest (Object_Body object) ≠ digest))
        (NewError ErrorInvalid "consistency-domain snapshot digest mismatch");
  snapshot ← lift (decodeCanonicalValue (Object_Body object));
  _ ← throw_if (bool_decide (Snapshot_DomainID snapshot ≠ Ref_ID reference) || bool_decide (Snapshot_Kind snapshot ≠ Ref_Kind reference))
        (NewError ErrorInvalid "consistency-domain snapshot key binding mismatch");
  _ ← lift (ValidateDomainSnapshot snapshot);
  mret (Snapshot_Head snapshot).

Definition list_ (prefix after : gostring) (limit snapshotExpiresAt : Z) : StoreM (list DomainEntry * Z * gostring) :=
  _ ← throw_if (bool_decide (prefix = []) || (limit <? 1)) (NewError ErrorInvalid "invalid consistency-domain range");
  snapshot ← loadHead;
  if negb (exists_ snapshot) || negb (Head_Registered (head snapshot)) then mret ([], 0, [])
  else
    lock ← transitionLockAtHead009 (head snapshot);
    _ ← throw_if (bool_decide (is_Some lock)) pending_transition;
    entries ← listAtHead (head snapshot) prefix after limit;
    if len entries <? limit then mret (entries, Head_Revision (head snapshot), [])
    else
      digest ← writeHeadSnapshot (head snapshot) snapshotExpiresAt;
      mret (entries, Head_Revision (head snapshot), digest).

Definition listSnapshot (digest prefix after : gostring) (limit : Z) : StoreM (list DomainEntry * Z) :=
  head ← loadHeadSnapshot digest;
  entries ← listAtHead head prefix after limit;
  mret (entries, Head_Revision head).

(** ** Compaction *)

Definition pruneExpiredOutcomes (outcomeRoot expiryRoot : DomainTreeRoot) (now : Z) (outcomes expiries : change_index) :
    SM (DomainTreeRoot * DomainTreeRoot) :=
  '(outcomes, expiries) ←
    (if bool_decide (Root_Digest expiryRoot ≠ []) then
       entries ← collectOrdered expiryRoot [] (Z.of_nat domainPageMaximumItems) false;
       lift (prune_loop now entries outcomes expiries)
     else mret (outcomes, expiries));
  outcomeRoot ← apply_ outcomeRoot (normalizeDomainChangeMap outcomes);
  expiryRoot ← apply_ expiryRoot (normalizeDomainChangeMap expiries);
  mret (outcomeRoot, expiryRoot).

(** The new trees of a compaction, prepared in its session. *)
Definition fold_trees (snapshot : consistencyDomainHeadSnapshot) : SM (DomainTreeRoot * DomainTreeRoot * DomainTreeRoot) :=
  let h := head snapshot in
  let version := Envelope_LogicalVersion (envelope snapshot) in
  _ ← enablePackedWrites version;
  _ ← bind_preparation ("compact:" ++ version) None;
  '(now, _) ← check_preparation None;
  '(latest, outcomes, expiries) ← lift (fold_window now (Head_Deltas h) ∅ ∅ ∅);
  root ← apply_ (Head_Base h) (normalizeDomainChangeMap latest);
  '(outcomeRoot, expiryRoot) ← pruneExpiredOutcomes (Head_Outcomes h) (Head_OutcomeExpiry h) now outcomes expiries;
  mret (root, outcomeRoot, expiryRoot).

Definition compactSnapshot (snapshot : consistencyDomainHeadSnapshot) : StoreM unit :=
  let h := head snapshot in
  _ ← throw_if (Head_Frozen h) (NewError ErrorUnavailable "consistency domain is frozen");
  if negb (exists_ snapshot) || (bool_decide (Head_Deltas h = []) && bool_decide (Root_Digest (Head_OutcomeExpiry h) = []))
  then mret tt
  else fresh (
    '(root, outcomeRoot, expiryRoot) ← fold_trees snapshot;
    key ← lift head_key;
    body ← lift (encodeHead key snapshot (with_trees h (Head_Revision h) root outcomeRoot expiryRoot));
    _ ← on_backend (sched_step "consistency-domain:before-compaction-commit");
    _ ← flushPack None reference (session_packKey reference);
    _ ← check_preparation None;
    _ ← on_backend (obj_put key body (put_match (Object_Version (object snapshot))));
    mret tt).

Definition compact : StoreM unit := snapshot ← loadHead; compactSnapshot snapshot.

(** ** Registration *)

(** How often a lost race is retried. *)
Variable fuel : nat.

Fixpoint prepare_loop (n : nat) (supplied : option consistencyDomainHeadSnapshot) : StoreM consistencyDomainHeadSnapshot :=
  match n with
  | O => throw nontermination
  | S n =>
      snapshot ← match supplied with Some snapshot => mret snapshot | None => loadHead end;
      if exists_ snapshot && Head_Registered (head snapshot) then mret snapshot
      else if exists_ snapshot then _ ← register fuel reference; mret snapshot
      else
        let initial := initial_head reference false in
        _ ← lift (ValidateInitialDomainHead initial);
        key ← lift head_key;
        body ← lift (EncodeEnvelope domainHeadSchema key 1 initial);
        written ← attempt (obj_put key body create_only);
        match written with
        | Err err => if errors_Is err ErrConflict then prepare_loop n None else throw err
        | Ok version =>
            '(envelope, decoded) ← lift (DecodeEnvelope body key domainHeadSchema);
            _ ← register fuel reference;
            mret {| head := decoded; envelope := envelope;
                    object := {| Object_Key := key; Object_Body := body; Object_Version := version; Object_Size := 0 |};
                    exists_ := true |}
        end
  end.

Definition prepareRegistration (initial : option consistencyDomainHeadSnapshot) : StoreM consistencyDomainHeadSnapshot :=
  prepare_loop fuel initial.

Fixpoint ensure_loop (attempts : nat) (initial : option consistencyDomainHeadSnapshot) : StoreM unit :=
  match attempts with
  | O => throw (NewError ErrorUnavailable "consistency-domain registration remained contended")
  | S attempts =>
      snapshot ← prepareRegistration initial;
      if Head_Registered (head snapshot) then mret tt
      else
        key ← lift head_key;
        body ← lift (encodeHead key snapshot (with_registered (head snapshot)));
        written ← attempt (obj_put key body (put_match (Object_Version (object snapshot))));
        match written with
        | Ok _ => mret tt
        | Err err => if lost_race err then ensure_loop attempts None else throw err
        end
  end.

Definition ensureRegistered (initial : option consistencyDomainHeadSnapshot) : StoreM unit := ensure_loop 8 initial.

(** ** Mutation *)

Definition reused : error := NewError ErrorConflict "consistency-domain idempotency key was reused".

(** A recorded outcome answers a repeated mutation. *)
Definition replay (fingerprint : gostring) (outcome : consistencyDomainOutcome) : res consistencyDomainOutcome :=
  _ ← guard_err (bool_decide (Fingerprint outcome ≠ fingerprint)) reused;
  Ok {| MutationID := MutationID outcome; Fingerprint := Fingerprint outcome; Revision := Revision outcome;
        Retained := Retained outcome; Answer := Answer outcome; Replayed := true |}.

Definition committed (mutation : consistencyDomainMutation) (fingerprint : gostring) (revision : Z) : consistencyDomainOutcome :=
  {| MutationID := ID mutation; Fingerprint := fingerprint; Revision := revision; Retained := RetainUntil mutation;
     Answer := clone_bytes (Result mutation); Replayed := false |}.

(** After a failed commit the canonical head decides: the recorded outcome, a
    broken precondition, the error itself, or ([None]) a retry. *)
Definition recover (mutation : consistencyDomainMutation) (fingerprint : gostring) (snapshot : consistencyDomainHeadSnapshot)
    (putErr : error) : StoreM (consistencyDomainOutcome + consistencyDomainHeadSnapshot) :=
  loaded ← attempt loadHead;
  match loaded with
  | Err _ => throw putErr
  | Ok recovered =>
      found ← lookupOutcomeAtHead (head recovered) (ID mutation);
      match found with
      | Some outcome => outcome ← lift (replay fingerprint outcome); mret (inl outcome)
      | None =>
          _ ← validateMutationAtHead (head recovered) (Changes mutation);
          let advanced := negb (Bool.eqb (exists_ recovered) (exists_ snapshot))
                          || bool_decide (Object_Version (object recovered) ≠ Object_Version (object snapshot)) in
          if advanced && negb (Head_Frozen (head recovered)) && lost_race putErr then mret (inr recovered) else throw putErr
      end
  end.

(** The conditional write of the new head, with the scheduler's steps around it. *)
Definition commit_head (key : ObjectStore.Key) (body : gostring) (snapshot : consistencyDomainHeadSnapshot) : StoreM unit :=
  _ ← obj_put key body (if exists_ snapshot then put_match (Object_Version (object snapshot)) else create_only);
  sched_step StepDomainAfterHeadCommit.

(** What a mutation requires of the head it extends, or the outcome it finds there. *)
Definition admit_mutation (mutation : consistencyDomainMutation) (fingerprint : gostring) (h : DomainHead) (own : bool) :
    SM (option consistencyDomainOutcome) :=
  found ← lookupOutcomeAtHeadWithSession h (ID mutation) own;
  match found with
  | Some outcome => outcome ← lift (replay fingerprint outcome); mret (Some outcome)
  | None =>
      _ ← throw_if (match ExpectedRevision mutation with Some r => negb (Head_Revision h =? r) | None => false end)
            (NewError ErrorConflict "consistency-domain snapshot changed");
      _ ← throw_if (Head_Frozen h) (NewError ErrorUnavailable "consistency domain is frozen");
      lock ← transitionLockAtHeadWithSession009 h own;
      _ ← throw_if (match lock with Some (lock, _) => bool_decide (TransitionID mutation ≠ Lock_TransitionID lock) | None => false end)
            pending_transition;
      _ ← validateMutationAtHeadWithSession h (Changes mutation) own;
      mret None
  end.

Fixpoint mutate_loop (fuel : nat) (mutation : consistencyDomainMutation) (fingerprint : gostring) (own prepared : bool)
    (first : option consistencyDomainHeadSnapshot) : SM consistencyDomainOutcome :=
  match fuel with
  | O => throw nontermination
  | S fuel =>
      snapshot ← match first with Some snapshot => mret snapshot | None => on_backend loadHead end;
      let h := head snapshot in
      found ← admit_mutation mutation fingerprint h own;
      match found with
      | Some outcome => mret outcome
      | None =>
          let revision := u64 (Head_Revision h + 1) in
          key ← lift head_key;
          match encodeHead key snapshot (with_delta h (mutation_delta mutation fingerprint revision)) with
          | Err encodeErr =>
              _ ← throw_if (bool_decide (Head_Deltas h = [])) encodeErr;
              compacted ← attempt (on_backend compact);
              _ ← match compacted with
                  | Ok _ => mret tt
                  | Err err => throw_if (negb (lost_race err)) err
                  end;
              mutate_loop fuel mutation fingerprint own prepared None
          | Ok body =>
              _ ← (if own then flushPack None reference (session_packKey reference) else mret tt);
              _ ← on_backend (sched_step StepDomainBeforeHeadCommit);
              _ ← (if prepared then _ ← check_preparation (deadline_of (RetainUntil mutation)); mret tt else mret tt);
              written ← attempt (on_backend (commit_head key body snapshot));
              match written with
              | Ok _ => mret (committed mutation fingerprint revision)
              | Err putErr =>
                  recovered ← on_backend (recover mutation fingerprint snapshot putErr);
                  match recovered with
                  | inl outcome => mret outcome
                  | inr recovered => mutate_loop fuel mutation fingerprint own prepared (Some recovered)
                  end
              end
          end
      end
  end.

(** Folding a full window before the mutation. *)
Fixpoint preflight_loop (fuel : nat) (preflight : consistencyDomainHeadSnapshot) : StoreM consistencyDomainHeadSnapshot :=
  if exists_ preflight && Head_Registered (head preflight)
     && (consistencyDomainDeltaWindow <=? length (Head_Deltas (head preflight)))%nat
  then match fuel with
       | O => throw nontermination
       | S fuel =>
           compacted ← attempt (compactSnapshot preflight);
           _ ← match compacted with
               | Ok _ => mret tt
               | Err err => throw_if (negb (lost_race err)) err
               end;
           preflight ← loadHead;
           preflight_loop fuel preflight
       end
  else mret preflight.

Definition mutatePrepared (mutation : consistencyDomainMutation) (initial : option consistencyDomainHeadSnapshot) (own : bool) :
    SM consistencyDomainOutcome :=
  _ ← lift (validateConsistencyDomainRef reference);
  prepared ← gets (λ s, own && bool_decide (preparedAt s ≠ None));
  mutation ←
    (if (prepared : bool) then
       '(_, deadline) ← check_preparation (deadline_of (RetainUntil mutation));
       mret (with_retention mutation deadline)
     else if IsZero (RetainUntil mutation) then
       now ← on_backend Now;
       mret (with_retention mutation (now + terminalOperationRetention))
     else mret mutation);
  '(mutation, fingerprint) ← lift (normalizeConsistencyDomainMutation mutation);
  preflight ←
    match initial with
    | None => on_backend loadHead
    | Some preflight =>
        _ ← throw_if (exists_ preflight && misbound (head preflight))
              (NewError ErrorInvalid "misbound prepared consistency-domain head");
        mret preflight
    end;
  preflight ← on_backend (preflight_loop fuel preflight);
  first ←
    (if negb (exists_ preflight) || negb (Head_Registered (head preflight)) then
       _ ← validateMutationAtHeadWithSession (initial_head reference true) (Changes mutation) own;
       on_backend (prepareRegistration (Some preflight))
     else mret preflight);
  mutate_loop fuel mutation fingerprint own prepared (Some first).

Definition mutateAtHead (mutation : consistencyDomainMutation) (initial : option consistencyDomainHeadSnapshot) :
    StoreM consistencyDomainOutcome := fresh (mutatePrepared mutation initial false).

Definition mutate (mutation : consistencyDomainMutation) : StoreM consistencyDomainOutcome := mutateAtHead mutation None.

(** ** Freezing *)

Fixpoint freeze_loop (fuel : nat) (epoch : Z) : StoreM unit :=
  match fuel with
  | O => throw nontermination
  | S fuel =>
      snapshot ← loadHead;
      let h := head snapshot in
      _ ← throw_if (negb (exists_ snapshot) || negb (Head_Registered h)) (NewError ErrorNotFound "consistency domain does not exist");
      lock ← transitionLockAtHead009 h;
      if bool_decide (is_Some lock) then
        _ ← throw_if (Head_Frozen h) (NewError ErrorInvalid "frozen consistency domain contains a transition lock");
        throw errTransitionPending009
      else if Head_Frozen h then
        throw_if (negb (Head_FreezeEpoch h =? epoch)) (NewError ErrorConflict "consistency domain is frozen at another epoch")
      else
        key ← lift head_key;
        body ← lift (encodeHead key snapshot (with_freeze h true epoch));
        written ← attempt (obj_put key body (put_match (Object_Version (object snapshot))));
        match written with
        | Ok _ => mret tt
        | Err err => if lost_race err then freeze_loop fuel epoch else throw err
        end
  end.

Definition freeze (epoch : Z) : StoreM unit :=
  _ ← throw_if (epoch =? 0) (NewError ErrorInvalid "invalid consistency-domain freeze epoch");
  _ ← ensureRegistered None;
  freeze_loop fuel epoch.

Fixpoint unfreeze_loop (fuel : nat) (epoch : Z) : StoreM unit :=
  match fuel with
  | O => throw nontermination
  | S fuel =>
      snapshot ← loadHead;
      let h := head snapshot in
      _ ← throw_if (negb (exists_ snapshot) || negb (Head_Registered h)) (NewError ErrorNotFound "consistency domain does not exist");
      if negb (Head_Frozen h) then mret tt
      else
        _ ← throw_if (negb (Head_FreezeEpoch h =? epoch)) (NewError ErrorConflict "consistency domain is frozen at another epoch");
        key ← lift head_key;
        body ← lift (encodeHead key snapshot (with_freeze h false 0));
        written ← attempt (obj_put key body (put_match (Object_Version (object snapshot))));
        match written with
        | Ok _ => mret tt
        | Err err => if lost_race err then unfreeze_loop fuel epoch else throw err
        end
  end.

Definition unfreeze (epoch : Z) : StoreM unit :=
  _ ← throw_if (epoch =? 0) (NewError ErrorInvalid "invalid consistency-domain freeze epoch");
  unfreeze_loop fuel epoch.
End Store.

(** ** domain_catalog.go: freezing every registered domain *)

Section Freeze.
Context `{SHA256} `{GZIP} {B : Type} `{!Provider B}.
Variable fuel : nat.

Definition entry_reference (entry : DomainCatalogEntry) : consistencyDomainRef :=
  {| Ref_Kind := Catalog_Kind entry; Ref_ID := Catalog_DomainID entry |}.

Definition freezeDomains (epoch : Z) : GoM B error (list DomainCatalogEntry) :=
  entries ← DomainCatalog.freeze fuel epoch;
  _ ← forM_ entries (λ entry,
        frozen ← attempt (freeze (entry_reference entry) fuel epoch);
        match frozen with
        | Ok _ => mret tt
        | Err err => throw (WrapError (KindOf err) ("freeze registered consistency domain " ++ Catalog_DomainID entry) err)
        end);
  mret entries.

Fixpoint unfreezeDomains_loop (n : nat) (epoch : Z) : GoM B error unit :=
  match n with
  | O => throw nontermination
  | S n =>
      snapshot ← load;
      if CatalogHead_FreezeEpoch (catalog_head snapshot) =? 0 then mret tt
      else
        _ ← throw_if (negb (CatalogHead_FreezeEpoch (catalog_head snapshot) =? epoch))
              (NewError ErrorConflict "consistency-domain catalog is frozen at another epoch");
        entries ← entries (catalog_head snapshot);
        _ ← forM_ entries (λ entry, unfreeze (entry_reference entry) fuel epoch);
        published ← attempt (publish snapshot (with_catalog_epoch (catalog_head snapshot) 0));
        match published with
        | Ok _ => mret tt
        | Err err => if lost_race err then unfreezeDomains_loop n epoch else throw err
        end
  end.

Definition unfreezeDomains (epoch : Z) : GoM B error unit :=
  _ ← throw_if (epoch =? 0) (NewError ErrorInvalid "invalid consistency-domain catalog freeze epoch");
  unfreezeDomains_loop fuel epoch.
End Freeze.
End DomainStore.
