(* ===== verification/EngineTransition.v ===== *)
(** * Transitions that span domains: internal/portable/state_transition009.go

    A transition writes an immutable plan, locks every participant domain,
    publishes one create-only decision and then finalizes the participants.  Any
    process that meets a lock helps the transition to its end. *)

From Stdlib Require Import ZArith Lia.
From S2P Require Import Prelude GoLib GoHash GoJSON GoTime Errors StateStore ObjectStore DomainPage DomainTree DomainPack DomainHead TransitionFormat DomainSession TreeStream DomainProvider DomainCatalog StateRoute DomainStore.

Open Scope Z_scope.

(** What the engine uses beside the domain store: [backend.Delete],
    [backend.List] and the bytes of its ID generator. *)
Class Engine (B : Type) := {
  engine_provider :: Provider B;
  obj_delete : ObjectStore.Key → ObjectStore.DeleteCondition → GoM B error unit;
  obj_list : ObjectStore.ListRequest → GoM B error ObjectStore.ListPage;
  draw : nat → GoM B error gostring;
}.

Module EngineTransition.
Import ObjectStore StorageFormat DomainTree DomainPack DomainHead TransitionFormat DomainSession DomainProvider DomainStore StateRoute.

Definition transitionPlanSchema009 : gostring := "transition-plan-v1".
Definition transitionDecisionSchema009 : gostring := "transition-decision-v1".
Definition StepTransitionAfterPlan : gostring := "transition:after-plan".
Definition StepTransitionAfterParticipantPrepared : gostring := "transition:after-participant-prepared".
Definition StepTransitionBeforeDecision : gostring := "transition:before-decision".
Definition StepTransitionAfterDecision : gostring := "transition:after-decision".
Definition StepTransitionAfterParticipantFinalized : gostring := "transition:after-participant-finalized".

Record transitionPlanSnapshot009 := { snapshot_plan : TransitionPlan009; snapshot_object : Object }.

#[export] Instance consistencyDomainRef_eq_dec : EqDecision consistencyDomainRef.
Proof. solve_decision. Defined.

(** [errors.Is(err, errTransitionPending009)] *)
Fixpoint transition_pending (err : error) : bool :=
  match err with
  | DomainError _ _ (Some cause) => transition_pending cause
  | Errorf _ wrapped => transition_pending wrapped
  | OtherError text => bool_decide (text = bs "consistency-domain transition pending")
  | _ => false
  end.

Definition transitionReference009 (participant : TransitionParticipant009) : consistencyDomainRef :=
  {| Ref_Kind := Participant_Kind participant; Ref_ID := Participant_DomainID participant |}.

Definition transitionParticipantChanges009 (participant : TransitionParticipant009) : list consistencyDomainChange :=
  map (λ c, {| Key := TChange_Key c; Require := TChange_Requirement c; ExpectedVersion := TChange_ExpectedVersion c;
               Delete := TChange_Delete c; Value := clone_bytes (TChange_Value c) |}) (Participant_Changes participant).

Definition deterministicTransitionFailure009 (err : error) : bool :=
  bool_decide (KindOf err ∈ [ErrorConflict; ErrorNotFound; ErrorPreconditionFailed]).

Section Mutations.
Context `{SHA256}.

Definition transition_lock (plan : TransitionPlan009) (reference : consistencyDomainRef) : TransitionLock009 :=
  {| Lock_SchemaVersion := 1; Lock_TransitionID := Plan_TransitionID plan; Lock_Fingerprint := Plan_Fingerprint plan;
     Lock_Kind := Ref_Kind reference; Lock_DomainID := Ref_ID reference |}.

(** The mutations of a participant: placing the lock, and releasing it with or
    without the participant's changes. *)
Definition prepare_mutation (plan : TransitionPlan009) (lockBody : gostring) : consistencyDomainMutation :=
  {| ID := "transition-prepare:" ++ Digest (Plan_TransitionID plan); TransitionID := Plan_TransitionID plan;
     RetainUntil := Plan_RetainUntil plan;
     Changes := [{| Key := transitionLockKey009; Require := domainValueAbsent; ExpectedVersion := []; Delete := false;
                    Value := Some lockBody |}];
     Result := None; ExpectedRevision := None |}.

Definition release_change (version : gostring) : consistencyDomainChange :=
  {| Key := transitionLockKey009; Require := domainValuePresent; ExpectedVersion := version; Delete := true; Value := None |}.

Definition finalize_mutation (plan : TransitionPlan009) (participant : TransitionParticipant009) (committed : bool)
    (version : gostring) : consistencyDomainMutation :=
  {| ID := if committed then Plan_TransitionID plan else "transition-abort:" ++ Digest (Plan_TransitionID plan);
     TransitionID := Plan_TransitionID plan; RetainUntil := Plan_RetainUntil plan;
     Changes := release_change version :: (if committed then transitionParticipantChanges009 participant else []);
     Result := if committed then clone_bytes (Plan_Result plan) else None; ExpectedRevision := None |}.

(** ** Planning *)

Definition transition_change (change : State.Change) : TransitionChange009 :=
  {| TChange_Key := State.key_value (State.Change_Key change); TChange_Requirement := State.Change_Requirement change;
     TChange_ExpectedVersion := State.Change_ExpectedVersion change; TChange_Delete := State.Change_Delete change;
     TChange_Value := clone_bytes (Some (State.Change_Data change)) |}.

(** [byReference]: the order of the map does not matter, the participants are
    sorted. *)
Fixpoint add_change (reference : consistencyDomainRef) (change : TransitionChange009)
    (groups : list (consistencyDomainRef * list TransitionChange009)) : list (consistencyDomainRef * list TransitionChange009) :=
  match groups with
  | [] => [(reference, [change])]
  | (other, changes) :: groups =>
      if bool_decide (other = reference) then (other, changes ++ [change]) :: groups
      else (other, changes) :: add_change reference change groups
  end.

Fixpoint group_by_reference (changes : list State.Change) (groups : list (consistencyDomainRef * list TransitionChange009)) :
    res (list (consistencyDomainRef * list TransitionChange009)) :=
  match changes with
  | [] => Ok groups
  | change :: changes =>
      reference ← stateDomainReferenceForKey (State.Change_Key change);
      group_by_reference changes (add_change reference (transition_change change) groups)
  end.

Definition transition_change_le (a b : TransitionChange009) : Prop := bytes_le (TChange_Key a) (TChange_Key b).
#[export] Instance transition_change_le_dec : RelDecision transition_change_le.
Proof. intros a b. unfold transition_change_le. apply _. Defined.

Definition group_participant (group : consistencyDomainRef * list TransitionChange009) : TransitionParticipant009 :=
  {| Participant_Kind := Ref_Kind (fst group); Participant_DomainID := Ref_ID (fst group);
     Participant_Changes := merge_sort transition_change_le (snd group) |}.

(** ** Outcomes *)

Definition participant_versions (plan : TransitionPlan009) (participant : TransitionParticipant009)
    (versions : gmap gostring gostring) : res (gmap gostring gostring) :=
  let changes := transitionParticipantChanges009 participant ++
                 [{| Key := transitionLockKey009; Require := domainValuePresent; ExpectedVersion := []; Delete := true; Value := None |}] in
  '(canonical, fingerprint) ← normalizeConsistencyDomainMutation
      {| ID := Plan_TransitionID plan; TransitionID := []; RetainUntil := Plan_RetainUntil plan; Changes := changes;
         Result := Plan_Result plan; ExpectedRevision := None |};
  Ok (fold_left (λ versions change,
        if bool_decide (Key change ≠ transitionLockKey009) && negb (Delete change)
        then <[Key change := consistencyDomainLogicalVersion (Plan_TransitionID plan) fingerprint change]> versions
        else versions) (Changes canonical) versions).

Fixpoint all_versions (plan : TransitionPlan009) (participants : list TransitionParticipant009) (versions : gmap gostring gostring) :
    res (gmap gostring gostring) :=
  match participants with
  | [] => Ok versions
  | participant :: participants =>
      versions ← participant_versions plan participant versions;
      all_versions plan participants versions
  end.

Definition transitionOutcome009 (normalized : State.Mutation) (plan : TransitionPlan009) (replayed : bool) : res State.MutationOutcome :=
  versions ← all_versions plan (Plan_Participants plan) ∅;
  Ok {| State.Outcome_ID := State.Mutation_ID normalized;
        State.Outcome_Changes := map (λ change,
          {| State.ChangeResult_Key := State.Change_Key change;
             State.ChangeResult_Version := default [] (versions !! State.key_value (State.Change_Key change)) |})
          (State.Mutation_Changes normalized);
        State.Outcome_Result := default [] (Plan_Result plan); State.Outcome_Replayed := replayed |}.
End Mutations.

Section Engine.
Context `{SHA256} `{GZIP} {B : Type} `{!Engine B}.
(** How often lost races are retried inside the domain store. *)
Variable fuel : nat.

Abbreviation StoreM := (GoM B error).

(** ** Plans and decisions *)

Definition invalid_plan : error := NewError ErrorInvalid "invalid transition plan authority".
Definition invalid_decision : error := NewError ErrorInvalid "invalid transition decision authority".

(** A plan key can be computed for a valid plan. *)
Definition decodeTransitionPlanObject009 (object : Object) : res TransitionPlan009 :=
  match DecodeEnvelope (Object_Body object) (Object_Key object) transitionPlanSchema009 with
  | Err _ => Err invalid_plan
  | Ok (_, plan) =>
      match ValidateTransitionPlan009 plan with
      | Err _ => Err invalid_plan
      | Ok _ =>
          key ← TransitionPlanKey (Plan_TransitionID plan);
          _ ← guard_err (bool_decide (key ≠ Object_Key object)) invalid_plan;
          Ok plan
      end
  end.

Definition transitionPlan009 (normalized : State.Mutation) (fingerprint : gostring) : StoreM TransitionPlan009 :=
  groups ← lift (group_by_reference (State.Mutation_Changes normalized) []);
  _ ← throw_if (length groups <? 2)%nat (NewError ErrorInvalid "transition does not span consistency domains");
  retain ← (if IsZero (State.Mutation_RetainUntil normalized)
            then now ← Now; mret (now + terminalOperationRetention)
            else mret (State.Mutation_RetainUntil normalized));
  let plan := {| Plan_SchemaVersion := 1; Plan_TransitionID := State.Mutation_ID normalized; Plan_Fingerprint := Digest fingerprint;
                 Plan_RetainUntil := retain;
                 Plan_Participants := SortTransitionParticipants009 (map group_participant groups);
                 Plan_Result := clone_bytes (Some (State.Mutation_Result normalized)) |} in
  _ ← lift (ValidateTransitionPlan009 plan);
  mret plan.

Definition createOrReadTransitionPlan009 (plan : TransitionPlan009) : StoreM (transitionPlanSnapshot009 * bool) :=
  key ← lift (TransitionPlanKey (Plan_TransitionID plan));
  body ← lift (EncodeEnvelope transitionPlanSchema009 key 1 plan);
  written ← attempt (obj_put key body create_only);
  match written with
  | Ok version =>
      mret ({| snapshot_plan := plan; snapshot_object := {| Object_Key := key; Object_Body := body; Object_Version := version; Object_Size := len body |} |}, true)
  | Err err =>
      _ ← throw_if (negb (lost_race err)) err;
      object ← obj_get key;
      match DecodeEnvelope (Object_Body object) key transitionPlanSchema009 with
      | Err _ => throw invalid_plan
      | Ok (_, existing) =>
          _ ← throw_if (negb (is_Ok (ValidateTransitionPlan009 existing))
                        || bool_decide (Plan_TransitionID existing ≠ Plan_TransitionID plan)) invalid_plan;
          _ ← throw_if (bool_decide (Plan_Fingerprint existing ≠ Plan_Fingerprint plan))
                (NewError ErrorConflict "transition ID was reused with another intent");
          mret ({| snapshot_plan := existing; snapshot_object := object |}, false)
      end
  end.

Definition readTransitionPlan009 (transitionID : gostring) : StoreM transitionPlanSnapshot009 :=
  key ← lift (TransitionPlanKey transitionID);
  object ← obj_get key;
  match decodeTransitionPlanObject009 object with
  | Err _ => throw invalid_plan
  | Ok plan =>
      _ ← throw_if (bool_decide (Plan_TransitionID plan ≠ transitionID)) invalid_plan;
      mret {| snapshot_plan := plan; snapshot_object := object |}
  end.

Definition readTransitionDecision009 (plan : TransitionPlan009) : StoreM (option TransitionDecision009) :=
  key ← lift (TransitionDecisionKey (Plan_TransitionID plan));
  read ← attempt (obj_get key);
  match read with
  | Err err => if errors_Is err ErrNotFound then mret None else throw err
  | Ok object =>
      match DecodeEnvelope (Object_Body object) key transitionDecisionSchema009 with
      | Err _ => throw invalid_decision
      | Ok (_, decision) =>
          _ ← throw_if (negb (is_Ok (ValidateTransitionDecision009 decision))
                        || bool_decide (Decision_TransitionID decision ≠ Plan_TransitionID plan)
                        || bool_decide (Decision_Fingerprint decision ≠ Plan_Fingerprint plan)) invalid_decision;
          mret (Some decision)
      end
  end.

(** The stored decision, which must be the one this process would publish. *)
Definition settled (plan : TransitionPlan009) (decision : TransitionDecision009) : StoreM TransitionDecision009 :=
  existing ← readTransitionDecision009 plan;
  match existing with
  | None => throw (NewError ErrorInvalid "transition decision disappeared")
  | Some existing =>
      _ ← throw_if (negb (Bool.eqb (Decision_Committed existing) (Decision_Committed decision))
                    || bool_decide (Decision_ErrorKind existing ≠ Decision_ErrorKind decision))
            (NewError ErrorInvalid "conflicting transition decisions");
      mret existing
  end.

(** No [failure] commits.  A response can be lost after the create, so the stored
    decision decides, and not the transport. *)
Definition decideTransition009 (plan : TransitionPlan009) (failure : option error) : StoreM TransitionDecision009 :=
  now ← Now;
  let decision := {| Decision_SchemaVersion := 1; Decision_TransitionID := Plan_TransitionID plan;
                     Decision_Fingerprint := Plan_Fingerprint plan; Decision_Committed := negb (bool_decide (is_Some failure));
                     Decision_ErrorKind := match failure with Some err => KindOf err | None => [] end; Decision_DecidedAt := now |} in
  _ ← lift (ValidateTransitionDecision009 decision);
  key ← lift (TransitionDecisionKey (Plan_TransitionID plan));
  body ← lift (EncodeEnvelope transitionDecisionSchema009 key 1 decision);
  _ ← sched_step StepTransitionBeforeDecision;
  written ← attempt (_ ← obj_put key body create_only; sched_step StepTransitionAfterDecision);
  match written with
  | Err putErr =>
      if lost_race putErr then settled plan decision
      else
        recovered ← attempt (readTransitionDecision009 plan);
        match recovered with Ok (Some recovered) => mret recovered | _ => throw putErr end
  | Ok _ => settled plan decision
  end.

(** ** Participants *)

Section Prepare.
(** [helpTransition009] *)
Variable help : gostring → StoreM unit.

Fixpoint prepare_attempts (attempts : nat) (plan : TransitionPlan009) (participant : TransitionParticipant009) : StoreM unit :=
  match attempts with
  | O => throw (NewError ErrorUnavailable "transition preparation remained contended")
  | S attempts =>
      let reference := transitionReference009 participant in
      snapshot ← loadHead reference;
      let live := exists_ snapshot && Head_Registered (head snapshot) in
      _ ← throw_if (live && Head_Frozen (head snapshot)) (NewError ErrorPreconditionFailed "consistency domain is frozen");
      lock ← (if live then transitionLockAtHead009 reference (head snapshot) else mret None);
      match lock with
      | Some (lock, _) =>
          if bool_decide (Lock_TransitionID lock = Plan_TransitionID plan) && bool_decide (Lock_Fingerprint lock = Plan_Fingerprint plan)
          then mret tt
          else _ ← help (Lock_TransitionID lock); prepare_attempts attempts plan participant
      | None =>
          let h := if live then head snapshot else initial_head reference true in
          _ ← validateMutationAtHead reference h (transitionParticipantChanges009 participant);
          lockBody ← lift (encode_document (transition_lock plan reference));
          prepared ← attempt (mutateAtHead reference fuel (prepare_mutation plan lockBody) (Some snapshot));
          match prepared with
          | Ok _ => sched_step StepTransitionAfterParticipantPrepared
          | Err err => if lost_race err then prepare_attempts attempts plan participant else throw err
          end
      end
  end.

Definition prepareTransitionParticipant009 (plan : TransitionPlan009) (participant : TransitionParticipant009) : StoreM unit :=
  prepare_attempts 32 plan participant.

(** The loop over the participants: the failure that aborts the transition. *)
Fixpoint prepare_all (plan : TransitionPlan009) (participants : list TransitionParticipant009) : StoreM (option error) :=
  match participants with
  | [] => mret None
  | participant :: participants =>
      prepared ← attempt (prepareTransitionParticipant009 plan participant);
      match prepared with
      | Ok _ => prepare_all plan participants
      | Err err => if deterministicTransitionFailure009 err then mret (Some err) else throw err
      end
  end.
End Prepare.

Fixpoint finalize_attempts (attempts : nat) (plan : TransitionPlan009) (participant : TransitionParticipant009)
    (decision : TransitionDecision009) : StoreM unit :=
  match attempts with
  | O => throw (NewError ErrorUnavailable "transition finalization remained contended")
  | S attempts =>
      let reference := transitionReference009 participant in
      let committed := Decision_Committed decision in
      snapshot ← loadHead reference;
      if negb (exists_ snapshot) || negb (Head_Registered (head snapshot)) then
        throw_if committed (NewError ErrorInvalid "committed transition participant is missing")
      else
        found ← (if committed then lookupOutcomeAtHead reference (head snapshot) (Plan_TransitionID plan) else mret None);
        match found with
        | Some outcome =>
            throw_if (bool_decide (default [] (Answer outcome) ≠ default [] (Plan_Result plan)))
              (NewError ErrorInvalid "transition outcome result is misbound")
        | None =>
            lock ← transitionLockAtHead009 reference (head snapshot);
            match lock with
            | None =>
                if (committed : bool) then
                  now ← Now;
                  throw_if (now <? Plan_RetainUntil plan) (NewError ErrorInvalid "committed transition lock is missing")
                else mret tt
            | Some (lock, lockValue) =>
                _ ← throw_if (bool_decide (Lock_TransitionID lock ≠ Plan_TransitionID plan)
                              || bool_decide (Lock_Fingerprint lock ≠ Plan_Fingerprint plan))
                      (NewError ErrorInvalid "transition lock does not bind its decision");
                finalized ← attempt (mutateAtHead reference fuel
                              (finalize_mutation plan participant committed (Value_LogicalVersion lockValue)) (Some snapshot));
                match finalized with
                | Ok _ => sched_step StepTransitionAfterParticipantFinalized
                | Err err =>
                    if lost_race err || errors_Is err ErrNotFound then finalize_attempts attempts plan participant decision
                    else throw err
                end
            end
        end
  end.

Definition finalizeTransitionParticipant009 (plan : TransitionPlan009) (participant : TransitionParticipant009)
    (decision : TransitionDecision009) : StoreM unit := finalize_attempts 32 plan participant decision.

Definition finalize_all (plan : TransitionPlan009) (decision : TransitionDecision009) : StoreM unit :=
  forM_ (Plan_Participants plan) (λ participant, finalizeTransitionParticipant009 plan participant decision).

(** ** Running a transition

    [helpTransition009] and [executeTransition009] call each other through
    [prepareTransitionParticipant009]; [depth] bounds the chain of transitions that
    are helped. *)

Fixpoint executeTransition009 (depth : nat) (plan : TransitionPlan009) : StoreM TransitionDecision009 :=
  match depth with
  | O => throw nontermination
  | S depth =>
      let help transitionID :=
        snapshot ← readTransitionPlan009 transitionID;
        _ ← executeTransition009 depth (snapshot_plan snapshot); mret tt in
      found ← readTransitionDecision009 plan;
      match found with
      | Some decision => _ ← finalize_all plan decision; mret decision
      | None =>
          failure ← prepare_all help plan (Plan_Participants plan);
          decision ← decideTransition009 plan failure;
          _ ← finalize_all plan decision;
          mret decision
      end
  end.

Definition helpTransition009 (depth : nat) (transitionID : gostring) : StoreM unit :=
  snapshot ← readTransitionPlan009 transitionID;
  _ ← executeTransition009 depth (snapshot_plan snapshot);
  mret tt.

Fixpoint resolve_attempts (attempts depth : nat) (reference : consistencyDomainRef) : StoreM unit :=
  match attempts with
  | O => throw (NewError ErrorUnavailable "consistency-domain transition remained unresolved")
  | S attempts =>
      snapshot ← loadHead reference;
      if negb (exists_ snapshot) || negb (Head_Registered (head snapshot)) then mret tt
      else
        lock ← transitionLockAtHead009 reference (head snapshot);
        match lock with
        | None => mret tt
        | Some (lock, _) => _ ← helpTransition009 depth (Lock_TransitionID lock); resolve_attempts attempts depth reference
        end
  end.

Definition resolveStateTransition009 (depth : nat) (reference : consistencyDomainRef) : StoreM unit :=
  resolve_attempts 32 depth reference.

(** ** Expired transitions *)

(** A head that cannot be loaded counts as a participant without a lock. *)
Fixpoint transitionHasLocks009 (plan : TransitionPlan009) (participants : list TransitionParticipant009) : StoreM bool :=
  match participants with
  | [] => mret false
  | participant :: participants =>
      let reference := transitionReference009 participant in
      loaded ← attempt (loadHead reference);
      match loaded with
      | Err _ => transitionHasLocks009 plan participants
      | Ok snapshot =>
          if negb (exists_ snapshot) || negb (Head_Registered (head snapshot)) then transitionHasLocks009 plan participants
          else
            lock ← transitionLockAtHead009 reference (head snapshot);
            match lock with
            | None => transitionHasLocks009 plan participants
            | Some (lock, _) =>
                _ ← throw_if (bool_decide (Lock_TransitionID lock ≠ Plan_TransitionID plan)
                              || bool_decide (Lock_Fingerprint lock ≠ Plan_Fingerprint plan))
                      (NewError ErrorInvalid "transition participant is locked by another plan");
                mret true
            end
      end
  end.

(** [backend.Delete] of an object that is gone or replaced is no error. *)
Definition delete_object (object : Object) : StoreM unit :=
  deleted ← attempt (obj_delete (Object_Key object) {| Delete_Version := Object_Version object |});
  match deleted with
  | Ok _ => mret tt
  | Err err => throw_if (negb (errors_Is err ErrNotFound) && negb (errors_Is err ErrPreconditionFailed)) err
  end.

Definition collectExpiredTransition009 (plan : TransitionPlan009) (planObject : Object) : StoreM unit :=
  decision ← readTransitionDecision009 plan;
  locked ← transitionHasLocks009 plan (Plan_Participants plan);
  decision ←
    (if (locked : bool) && negb (bool_decide (is_Some decision)) then
       decided ← attempt (decideTransition009 plan (Some (NewError ErrorPreconditionFailed "expired transition was aborted")));
       match decided with
       | Ok decision => mret (Some decision)
       | Err err =>
           winner ← attempt (readTransitionDecision009 plan);
           match winner with Ok (Some winner) => mret (Some winner) | _ => throw err end
       end
     else mret decision);
  _ ← match decision with
      | Some decision => if (locked : bool) then finalize_all plan decision else mret tt
      | None => mret tt
      end;
  _ ← (if bool_decide (is_Some decision) then
         key ← lift (TransitionDecisionKey (Plan_TransitionID plan));
         object ← attempt (obj_get key);
         match object with
         | Err err => throw_if (negb (errors_Is err ErrNotFound)) err
         | Ok object => delete_object {| Object_Key := key; Object_Body := Object_Body object;
                                         Object_Version := Object_Version object; Object_Size := Object_Size object |}
         end
       else mret tt);
  delete_object planObject.

(** ** gate.go: [visitObjectPages] *)

Fixpoint visitObjectPages (n : nat) (request : ListRequest) (visit : ObjectInfo → StoreM unit) : StoreM unit :=
  match n with
  | O => throw nontermination
  | S n =>
      page ← obj_list request;
      _ ← forM_ (Page_Objects page) visit;
      if bool_decide (Page_Objects page = []) || bool_decide (Page_NextCursor page = []) then mret tt
      else
        let after := match last (Page_Objects page) with Some info => key_value (Info_Key info) | None => List_After request end in
        visitObjectPages n {| List_Prefix := List_Prefix request; List_Limit := List_Limit request;
                              List_Cursor := List_Cursor request; List_After := after |} visit
  end.

Definition visitTransitionPlans009 (pages : nat) (visit : TransitionPlan009 → Object → StoreM unit) : StoreM unit :=
  visitObjectPages pages {| List_Prefix := TransitionPrefix ++ "plans/"; List_Limit := 256; List_Cursor := []; List_After := [] |}
    (λ info, object ← obj_get (Info_Key info);
             plan ← lift (decodeTransitionPlanObject009 object);
             visit plan object).

Definition resolveAllTransitions009 (pages depth : nat) : StoreM unit :=
  visitTransitionPlans009 pages (λ plan object,
    now ← Now;
    if now <? Plan_RetainUntil plan then _ ← executeTransition009 depth plan; mret tt
    else collectExpiredTransition009 plan object).
End Engine.
End EngineTransition.
