(* ===== verification/EngineState.v ===== *)
(** * The state store on consistency domains: internal/portable/state.go

    The engine's [state.TransactionalStore]: every record lives in the domain its
    key routes to, a call that meets a transition lock helps the transition
    first, and a mutation across domains runs as a transition. *)

From Stdlib Require Import ZArith Lia.
From S2P Require Import Prelude GoLib GoHash GoJSON GoTime Errors StateStore ObjectStore DomainPage DomainTree DomainPack DomainHead TransitionFormat DomainSession TreeStream DomainProvider DomainCatalog StateRoute DomainStore EngineTransition.

Open Scope Z_scope.

Module EngineState.
Import StorageFormat DomainTree DomainPack DomainHead TransitionFormat DomainSession DomainProvider DomainStore StateRoute EngineTransition.

Definition missing_value : error := NewError ErrorNotFound "consistency-domain value does not exist".

Section Pure.
Context `{SHA256}.

(** The change of a mutation as its domain stores it. *)
Definition domain_change (change : State.Change) : res consistencyDomainChange :=
  let key := State.Change_Key change in
  value ← (if State.Change_Delete change then Ok (clone_bytes (Some (State.Change_Data change)))
           else encoded ← encodeStateValue009 key (State.Change_Data change); Ok (Some encoded));
  Ok {| Key := State.key_value key; Require := State.Change_Requirement change;
        ExpectedVersion := State.Change_ExpectedVersion change; Delete := State.Change_Delete change; Value := value |}.

Definition validate_change (change : State.Change) : res unit :=
  if State.Change_Delete change then validateStateKey (State.Change_Key change)
  else validateStateMutation (State.Change_Key change) (State.Change_Data change).

(** The loop of [Mutate]: every change in one domain. *)
Fixpoint domain_changes (reference : option consistencyDomainRef) (changes : list State.Change) :
    res (option consistencyDomainRef * list consistencyDomainChange) :=
  match changes with
  | [] => Ok (reference, [])
  | change :: changes =>
      _ ← validate_change change;
      resolved ← stateDomainReferenceForKey (State.Change_Key change);
      _ ← guard_err (match reference with Some reference => bool_decide (resolved ≠ reference) | None => false end)
            (NewError ErrorInvalid "atomic state mutation spans consistency domains");
      stored ← domain_change change;
      '(reference, rest) ← domain_changes (Some resolved) changes;
      Ok (reference, stored :: rest)
  end.

(** The loop of [Transact]: the domain of every change. *)
Fixpoint change_references (changes : list State.Change) : res (list consistencyDomainRef) :=
  match changes with
  | [] => Ok []
  | change :: changes =>
      _ ← validate_change change;
      reference ← stateDomainReferenceForKey (State.Change_Key change);
      rest ← change_references changes;
      Ok (reference :: rest)
  end.

Fixpoint wrap_changes (changes : list State.Change) : res (list State.Change) :=
  match changes with
  | [] => Ok []
  | change :: changes =>
      data ← (if State.Change_Delete change then Ok (State.Change_Data change)
              else encodeStateValue009 (State.Change_Key change) (State.Change_Data change));
      rest ← wrap_changes changes;
      Ok ({| State.Change_Key := State.Change_Key change; State.Change_Requirement := State.Change_Requirement change;
             State.Change_ExpectedVersion := State.Change_ExpectedVersion change; State.Change_Delete := State.Change_Delete change;
             State.Change_Data := data |} :: rest)
  end.

Definition change_version (id fingerprint : gostring) (change : State.Change) (stored : consistencyDomainChange) : State.ChangeResult :=
  {| State.ChangeResult_Key := State.Change_Key change;
     State.ChangeResult_Version := if State.Change_Delete change then [] else consistencyDomainLogicalVersion id fingerprint stored |}.

Definition single_mutation (mutationID : gostring) (key : State.Key) (expected : State.Version) (remove : bool)
    (value : option gostring) : consistencyDomainMutation :=
  {| ID := mutationID; TransitionID := []; RetainUntil := zero_time;
     Changes := [{| Key := State.key_value key;
                    Require := if bool_decide (expected ≠ []) || remove then domainValuePresent else domainValueAbsent;
                    ExpectedVersion := expected; Delete := remove; Value := value |}];
     Result := None; ExpectedRevision := None |}.
End Pure.

Section Engine.
Context `{SHA256} `{GZIP} {B : Type} `{!Engine B}.
(** Retries inside the domain store, and how long a chain of transitions is helped. *)
Variables fuel depth : nat.

Abbreviation StoreM := (GoM B error).

(** [for attempts := 0; attempts < 8; attempts++]: a pending transition is helped
    and the call is made again. *)
Fixpoint with_help {A} (attempts : nat) (reference : consistencyDomainRef) (call : StoreM A) (contended : error) : StoreM A :=
  match attempts with
  | O => throw contended
  | S attempts =>
      done ← attempt call;
      match done with
      | Ok a => mret a
      | Err err =>
          _ ← throw_if (negb (transition_pending err)) err;
          _ ← resolveStateTransition009 fuel depth reference;
          with_help attempts reference call contended
      end
  end.

(** ** Reading *)

Definition Get (key : State.Key) : StoreM State.Value :=
  _ ← lift (validateStateKey key);
  reference ← lift (stateDomainReferenceForKey key);
  value ← with_help 8 reference (get_ reference (State.key_value key))
            (NewError ErrorUnavailable "state read remained transition-contended");
  data ← lift (decodeStateValue009 key (default [] (Value_Data value)));
  mret {| State.Value_Data := data; State.Value_Version := Value_LogicalVersion value |}.

(** The keys of a multi-read share one domain. *)
Fixpoint shared_reference (reference : option consistencyDomainRef) (keys : list State.Key) : res (option consistencyDomainRef) :=
  match keys with
  | [] => Ok reference
  | key :: keys =>
      _ ← validateStateKey key;
      resolved ← stateDomainReferenceForKey key;
      _ ← guard_err (match reference with Some reference => bool_decide (resolved ≠ reference) | None => false end)
            (NewError ErrorInvalid "state multi-read crosses consistency domains");
      shared_reference (Some (default resolved reference)) keys
  end.

Fixpoint read_keys (reference : consistencyDomainRef) (h : DomainHead) (keys : list State.Key) : GoM (Session B) error (list State.Value) :=
  match keys with
  | [] => mret []
  | key :: keys =>
      value ← lookupAtHeadWithSession reference h (State.key_value key) true;
      match value with
      | None => throw missing_value
      | Some value =>
          data ← lift (decodeStateValue009 key (default [] (Value_Data value)));
          rest ← read_keys reference h keys;
          mret ({| State.Value_Data := data; State.Value_Version := Value_LogicalVersion value |} :: rest)
      end
  end.

Fixpoint read_many (attempts : nat) (reference : consistencyDomainRef) (keys : list State.Key) : StoreM (list State.Value) :=
  match attempts with
  | O => throw (NewError ErrorUnavailable "state multi-read remained transition-contended")
  | S attempts =>
      snapshot ← loadHead reference;
      _ ← throw_if (negb (exists_ snapshot) || negb (Head_Registered (head snapshot))) missing_value;
      lock ← transitionLockAtHead009 reference (head snapshot);
      match lock with
      | Some _ => _ ← resolveStateTransition009 fuel depth reference; read_many attempts reference keys
      | None => fresh (read_keys reference (head snapshot) keys)
      end
  end.

Definition GetMany (keys : list State.Key) : StoreM (list State.Value) :=
  _ ← throw_if ((len keys =? 0) || (1000 <? len keys)) (NewError ErrorInvalid "state multi-read must contain 1 to 1000 keys");
  shared ← lift (shared_reference None keys);
  match shared with
  | Some reference => read_many 8 reference keys
  | None => throw index_out_of_range
  end.

(** ** Writing one record *)

Definition newStateDomainMutation (key : State.Key) (expected : State.Version) (data : gostring) (remove : bool) :
    StoreM (consistencyDomainMutation * State.Version) :=
  mutationID ← draw 16;
  value ← lift (if remove then Ok (clone_bytes (Some data)) else encoded ← encodeStateValue009 key data; Ok (Some encoded));
  '(normalized, fingerprint) ← lift (normalizeConsistencyDomainMutation (single_mutation mutationID key expected remove value));
  mret (normalized, match Changes normalized with
                    | change :: _ => consistencyDomainLogicalVersion mutationID fingerprint change
                    | [] => []
                    end).

Definition Create (key : State.Key) (data : gostring) : StoreM State.Version :=
  _ ← lift (validateStateMutation key data);
  '(mutation, version) ← newStateDomainMutation key [] data false;
  reference ← lift (stateDomainReferenceForKey key);
  _ ← with_help 8 reference (mutate reference fuel mutation) (NewError ErrorUnavailable "state create remained transition-contended");
  mret version.

Definition CompareAndSwap (key : State.Key) (current : State.Version) (data : gostring) : StoreM State.Version :=
  _ ← lift (validateStateMutation key data);
  _ ← throw_if (bool_decide (current = [])) (NewError ErrorInvalid "current state version is required");
  '(mutation, version) ← newStateDomainMutation key current data false;
  reference ← lift (stateDomainReferenceForKey key);
  _ ← with_help 8 reference (mutate reference fuel mutation) (NewError ErrorUnavailable "state update remained transition-contended");
  mret version.

Definition Delete_ (key : State.Key) (current : State.Version) : StoreM unit :=
  _ ← lift (validateStateKey key);
  _ ← throw_if (bool_decide (current = [])) (NewError ErrorInvalid "current state version is required");
  '(mutation, _) ← newStateDomainMutation key current [] true;
  reference ← lift (stateDomainReferenceForKey key);
  _ ← with_help 8 reference (mutate reference fuel mutation) (NewError ErrorUnavailable "state delete remained transition-contended");
  mret tt.

(** ** Writing several records *)

Definition Mutate (mutation : State.Mutation) : StoreM State.MutationOutcome :=
  '(normalized, _) ← lift (State.NormalizeMutation mutation);
  '(reference, changes) ← lift (domain_changes None (State.Mutation_Changes normalized));
  let reference := default {| Ref_Kind := []; Ref_ID := [] |} reference in
  '(canonical, fingerprint) ← lift (normalizeConsistencyDomainMutation
      {| ID := State.Mutation_ID normalized; TransitionID := []; RetainUntil := State.Mutation_RetainUntil normalized;
         Changes := changes; Result := clone_bytes (Some (State.Mutation_Result normalized)); ExpectedRevision := None |});
  outcome ← with_help 8 reference (mutate reference fuel canonical)
              (NewError ErrorUnavailable "atomic state mutation remained transition-contended");
  mret {| State.Outcome_ID := State.Mutation_ID normalized; State.Outcome_Result := default [] (Answer outcome);
          State.Outcome_Replayed := Replayed outcome;
          State.Outcome_Changes := zip_with (change_version (State.Mutation_ID normalized) fingerprint)
                                     (State.Mutation_Changes normalized) (Changes canonical) |}.

Definition Transact (mutation : State.Mutation) : StoreM State.MutationOutcome :=
  '(normalized, _) ← lift (State.NormalizeMutation mutation);
  references ← lift (change_references (State.Mutation_Changes normalized));
  if (length (remove_dups references) =? 1)%nat then Mutate normalized
  else
    wrapped ← lift (wrap_changes (State.Mutation_Changes normalized));
    '(wrapped, fingerprint) ← lift (State.NormalizeMutation
        {| State.Mutation_ID := State.Mutation_ID normalized; State.Mutation_RetainUntil := State.Mutation_RetainUntil normalized;
           State.Mutation_Changes := wrapped; State.Mutation_Result := State.Mutation_Result normalized |});
    plan ← transitionPlan009 wrapped fingerprint;
    '(_, created) ← createOrReadTransitionPlan009 plan;
    _ ← (if (created : bool) then sched_step StepTransitionAfterPlan else mret tt);
    decision ← executeTransition009 fuel depth plan;
    _ ← throw_if (negb (Decision_Committed decision))
          (NewError (Decision_ErrorKind decision) "cross-domain transition precondition failed");
    lift (transitionOutcome009 normalized plan (negb created)).
End Engine.
End EngineState.
