(* ===== verification/EngineList.v ===== *)
(** * Listing records: List of internal/portable/state.go and internal/portable/state_query.go

    A prefix that routes to one domain is listed from that domain: the first page
    from its head, and further pages from the snapshot of the head that the cursor
    names.  Any other prefix is listed from a merge of all registered domains,
    which is built when the first page is asked for and stored when it has an
    entry.  Cursors are sealed documents. *)

From Stdlib Require Import ZArith Lia.
From S2P Require Import Prelude GoLib GoHash GoJSON GoTime Errors ObjectStore StateStore DomainPage DomainTree DomainPack DomainHead TransitionFormat DomainSession TreeStream DomainProvider DomainCatalog StateRoute DomainStore EngineTransition EngineState.

Open Scope Z_scope.

(** The cipher that seals cursors ([crypto/cipher.AEAD], keyed by the engine):
    [NonceSize], [Seal(nil, nonce, plaintext, data)] and [Open]. *)
Class AEAD := {
  NonceSize : nat;
  Seal : gostring → gostring → gostring → gostring;
  Open_ : gostring → gostring → gostring → option gostring;
}.

Module EngineList.
Import ObjectStore StorageFormat DomainTree TreeIterator TreeBuilder TreeMerge DomainPack DomainHead TransitionFormat DomainSession DomainProvider DomainCatalog DomainStore StateRoute EngineTransition EngineState.

(** ** Documents *)

Record StateQuerySnapshot := {
  Query_SchemaVersion : Z;
  Query_Prefix : gostring;
  Query_DomainID : gostring;
  Query_Root : DomainTreeRoot;
  Query_ExpiresAt : Z;
}.

Definition json_query (q : StateQuerySnapshot) : gostring :=
  json_object [uint_field "schemaVersion" (Query_SchemaVersion q); text_field "prefix" (Query_Prefix q);
               text_field "domainID" (Query_DomainID q); json_field "root" (json_root (Query_Root q));
               json_field "expiresAt" (json_time (Query_ExpiresAt q))].

Definition read_query : reader StateQuerySnapshot :=
  _ ← read_lit "{"; schema ← read_field "schemaVersion" read_int; prefix ← next_field "prefix" read_string;
  id ← next_field "domainID" read_string; root ← next_field "root" read_root; expires ← next_field "expiresAt" read_time;
  _ ← read_lit "}";
  mret {| Query_SchemaVersion := schema; Query_Prefix := prefix; Query_DomainID := id; Query_Root := root; Query_ExpiresAt := expires |}.

#[export] Instance query_document : Document StateQuerySnapshot :=
  {| document_text := json_query; document_times q := [Query_ExpiresAt q]; document_reader := read_query |}.

Definition ValidateStateQuerySnapshot (snapshot : StateQuerySnapshot) : res unit :=
  _ ← guard_err (negb (Query_SchemaVersion snapshot =? 1) || negb (validDomainText (Query_Prefix snapshot))
                 || negb (validDomainText (Query_DomainID snapshot)) || IsZero (Query_ExpiresAt snapshot))
        (NewError ErrorInvalid "invalid state-query snapshot");
  _ ← validateDomainTreeRoot (Query_Root snapshot);
  _ ← encode_document snapshot;
  Ok tt.

Record stateListCursor := {
  Cursor_SchemaVersion : Z;
  Cursor_Prefix : gostring;
  Cursor_Limit : Z;
  Cursor_Namespace : gostring;
  Cursor_Revision : Z;
  Cursor_Snapshot : gostring;
  Cursor_Composite : bool;
  Cursor_After : gostring;
  Cursor_ExpiresAt : Z;
}.

Definition json_cursor (c : stateListCursor) : gostring :=
  json_object ([uint_field "schemaVersion" (Cursor_SchemaVersion c); text_field "prefix" (Cursor_Prefix c);
                uint_field "limit" (Cursor_Limit c); text_field "namespace" (Cursor_Namespace c);
                uint_field "revision" (Cursor_Revision c); text_field "snapshot" (Cursor_Snapshot c)]
    ++ json_omit (Cursor_Composite c) (json_field "composite" "true")
    ++ [text_field "after" (Cursor_After c); json_field "expiresAt" (json_time (Cursor_ExpiresAt c))]).

Definition read_cursor : reader stateListCursor :=
  _ ← read_lit "{"; schema ← read_field "schemaVersion" read_int; prefix ← next_field "prefix" read_string;
  limit ← next_field "limit" read_int; namespace ← next_field "namespace" read_string;
  revision ← next_field "revision" read_uint64; snapshot ← next_field "snapshot" read_string;
  composite ← read_omit "composite" false read_bool; after ← next_field "after" read_string;
  expires ← next_field "expiresAt" read_time; _ ← read_lit "}";
  mret {| Cursor_SchemaVersion := schema; Cursor_Prefix := prefix; Cursor_Limit := limit; Cursor_Namespace := namespace;
          Cursor_Revision := revision; Cursor_Snapshot := snapshot; Cursor_Composite := composite; Cursor_After := after;
          Cursor_ExpiresAt := expires |}.

#[export] Instance cursor_document : Document stateListCursor :=
  {| document_text := json_cursor; document_times c := [Cursor_ExpiresAt c]; document_reader := read_cursor |}.

(** [strings.SplitN(value, "/", 2)[0]] *)
Definition first_part (value : gostring) : gostring := match split_on "/" value with part :: _ => part | [] => [] end.

Definition stateQueryReference (id : gostring) : consistencyDomainRef := {| Ref_Kind := DomainCapability; Ref_ID := id |}.

Definition invalid_cursor : error := NewError ErrorInvalid "invalid state cursor".
Definition out_of_scope : error := NewError ErrorInvalid "invalid or out-of-scope state cursor".
Definition cursor_data : gostring := "endlessfs-state-cursor-v4".

Section Pure.
Context `{SHA256} `{AEAD}.

Definition StateQuerySnapshotKey (digest : gostring) : res ObjectStore.Key :=
  _ ← validateDomainKeyPart digest;
  fixedKey ("domains/state-query-snapshots/" ++ digestPart digest ++ ".json").

Definition decodeStateListCursor (value : gostring) : res stateListCursor :=
  match b64_decode value with
  | None => Err invalid_cursor
  | Some sealed =>
      _ ← guard_err (length sealed <=? NonceSize)%nat invalid_cursor;
      match Open_ (take NonceSize sealed) (drop NonceSize sealed) cursor_data with
      | None => Err invalid_cursor
      | Some body =>
          match decodeCanonicalValue body with
          | Err _ => Err invalid_cursor
          | Ok cursor =>
              _ ← guard_err (negb (Cursor_SchemaVersion cursor =? 4) || bool_decide (Cursor_Namespace cursor = [])
                             || bool_decide (Cursor_Prefix cursor = []) || (Cursor_Limit cursor <? 1) || (Cursor_Revision cursor =? 0)
                             || bool_decide (Cursor_Snapshot cursor = []) || bool_decide (Cursor_After cursor = [])
                             || IsZero (Cursor_ExpiresAt cursor)) invalid_cursor;
              Ok cursor
          end
      end
  end.

(** [statePageFromEntries], and the same loop in [List]. *)
Fixpoint statePageFromEntries (entries : list DomainEntry) : res (list State.Item) :=
  match entries with
  | [] => Ok []
  | entry :: entries =>
      logical ← parseExistingStateKey (Entry_Key entry);
      data ← decodeStateValue009 logical (default [] (Entry_Value entry));
      rest ← statePageFromEntries entries;
      Ok ({| State.Item_Key := logical;
             State.Item_Value := {| State.Value_Data := data; State.Value_Version := Entry_LogicalVersion entry |} |} :: rest)
  end.
End Pure.

Section Engine.
Context `{SHA256} `{GZIP} `{AEAD} {B : Type} `{!Engine B}.
(** Retries inside the domain store, and how long a chain of transitions is helped. *)
Variables fuel depth : nat.
(** [e.cursorTTL] *)
Variable cursorTTL : Z.

Abbreviation StoreM := (GoM B error).

Definition encodeStateListCursor (cursor : stateListCursor) : StoreM gostring :=
  body ← lift (encode_document cursor);
  random ← draw 32;
  match b64_decode random with
  | None => throw (NewError ErrorInternal "secure cursor randomness unavailable")
  | Some nonceMaterial =>
      _ ← throw_if (length nonceMaterial <? NonceSize)%nat (NewError ErrorInternal "secure cursor randomness unavailable");
      let nonce := take NonceSize nonceMaterial in
      mret (b64_encode (nonce ++ Seal nonce body cursor_data))
  end.

(** ** Merging the domains *)

Definition readDomainCatalogIfPresent : StoreM (option DomainCatalogHead) :=
  key ← lift DomainCatalogHeadKey;
  object ← attempt (obj_get key);
  match object with
  | Err err => if errors_Is err ErrNotFound then mret None else throw err
  | Ok object =>
      '(_, head) ← lift (DecodeEnvelope (Object_Body object) key domainCatalogHeadSchema);
      _ ← lift (ValidateDomainCatalogHead head);
      mret (Some head)
  end.

(** [catalog.visitEntries(ctx, head, visit)], where [visit] works on the backend
    and on a value [acc] of its own. *)
Section Visit.
#[local] Existing Instance catalog_pages.
Context {Acc : Type} (visit : DomainCatalogEntry → Acc → StoreM Acc).

Fixpoint visit_each (n : nat) (previous : gostring) (frames : stack) (acc : Acc) : GoM (Session B) error Acc :=
  match n with
  | O => throw nontermination
  | S n =>
      '(value, frames) ← Next 2 frames;
      match value with
      | None => mret acc
      | Some value =>
          entry ← lift (visit_entry previous value);
          acc ← on_backend (visit entry acc);
          visit_each n (Entry_Key value) frames acc
      end
  end.

Definition visitEntriesWith (head : DomainCatalogHead) (acc : Acc) : StoreM Acc :=
  fresh (frames ← newIterator (CatalogHead_Root head);
         visit_each (S (Z.to_nat (Root_EntryCount (CatalogHead_Root head)))) [] frames acc).
End Visit.

(** The query session between two visits, and the runs so far.  A session carries
    the backend, so it resumes on the current one. *)
Record query_state := { query_session : Session B; query_runs : list DomainTreeRoot }.

Definition in_query {A} (query : query_state) (work : GoM (Session B) error A) : StoreM (A * Session B) := λ b,
  let '(x, s) := work (set_backend b (query_session query)) in
  (match x with Ok a => Ok (a, s) | Err e => Err e end, backend s).

Definition query_fuel (h : DomainHead) : nat := S (Z.to_nat (Root_EntryCount (Head_Base h)) + length (window_changes h)).

Section Query.
(** The query's own domain. *)
Variable query : consistencyDomainRef.
#[local] Instance query_pages : PageStore (Session B) := domain_pages query.

(** The loop over the pages of one domain; every entry goes to the builder. *)
Fixpoint copy_domain (n : nat) (reference : consistencyDomainRef) (h : DomainHead) (prefix after : gostring) (count : Z)
    (builder : consistencyDomainTreeBuilder) : GoM (Session B) error (consistencyDomainTreeBuilder * Z) :=
  match n with
  | O => throw nontermination
  | S n =>
      values ← on_backend (listAtHead reference h prefix after (Z.of_nat domainPageMaximumItems));
      builder ← add_all builder values;
      let count := count + len values in
      match last values with
      | Some final =>
          if (length values <? domainPageMaximumItems)%nat then mret (builder, count)
          else copy_domain n reference h prefix (Entry_Key final) count builder
      | None => mret (builder, count)
      end
  end.

(** One domain becomes one run, unless it has nothing under the prefix. *)
Definition run_of_domain (reference : consistencyDomainRef) (h : DomainHead) (prefix : gostring) : GoM (Session B) error (option DomainTreeRoot) :=
  '(builder, count) ← copy_domain (query_fuel h) reference h prefix [] 0 newConsistencyDomainTreeBuilder;
  if count =? 0 then mret None
  else
    root ← Finish builder;
    _ ← modify (set_pages ∅);
    mret (Some root).

Definition visit_domain (prefix : gostring) (entry : DomainCatalogEntry) (state : query_state) : StoreM query_state :=
  let reference := {| Ref_Kind := Catalog_Kind entry; Ref_ID := Catalog_DomainID entry |} in
  snapshot ← loadHead reference;
  if negb (exists_ snapshot) || negb (Head_Registered (DomainStore.head snapshot)) then mret state
  else
    lock ← transitionLockAtHead009 reference (DomainStore.head snapshot);
    match lock with
    | Some (lock, _) => _ ← helpTransition009 fuel depth (Lock_TransitionID lock); throw errTransitionPending009
    | None =>
        '(root, session) ← in_query state (run_of_domain reference (DomainStore.head snapshot) prefix);
        mret {| query_session := session; query_runs := query_runs state ++ option_list root |}
    end.

(** The runs of all domains of the catalog, merged into one tree. *)
Definition merge_domains (catalog : option DomainCatalogHead) (prefix : gostring) : StoreM DomainTreeRoot := λ b,
  let start := {| query_session := newSession b; query_runs := [] |} in
  (state ← (match catalog with
            | Some head => visitEntriesWith (visit_domain prefix) head start
            | None => mret start
            end);
   '(root, _) ← in_query state (merge_runs (query_runs state));
   mret root) b.
End Query.

Definition buildStateQuerySnapshot (prefix : State.Prefix) (expiresAt : Z) : StoreM (StateQuerySnapshot * gostring) :=
  catalog ← readDomainCatalogIfPresent;
  id ← draw 16;
  let domainID := bs "state-query:" ++ id in
  root ← merge_domains (stateQueryReference domainID) catalog (State.prefix_value prefix);
  let snapshot := {| Query_SchemaVersion := 1; Query_Prefix := State.prefix_value prefix; Query_DomainID := domainID; Query_Root := root;
                     Query_ExpiresAt := expiresAt |} in
  _ ← lift (ValidateStateQuerySnapshot snapshot);
  if bool_decide (Root_Digest root = []) then mret (snapshot, [])
  else
    body ← lift (encode_document snapshot);
    let digest := Digest body in
    key ← lift (StateQuerySnapshotKey digest);
    written ← attempt (obj_put key body create_only);
    match written with
    | Err err => if errors_Is err ErrConflict then mret (snapshot, digest) else throw err
    | Ok _ => mret (snapshot, digest)
    end.

Definition expired_query : error := NewError ErrorInvalid "invalid or expired state-query snapshot".

Definition loadStateQuerySnapshot (prefix : State.Prefix) (digest : gostring) : StoreM StateQuerySnapshot :=
  _ ← throw_if (bool_decide (digest = [])) (NewError ErrorInvalid "invalid state-query snapshot");
  key ← lift (StateQuerySnapshotKey digest);
  object ← obj_get key;
  _ ← throw_if (bool_decide (Digest (Object_Body object) ≠ digest)) (NewError ErrorInvalid "state-query snapshot digest mismatch");
  snapshot ← lift (decodeCanonicalValue (Object_Body object));
  _ ← throw_if (negb (is_Ok (ValidateStateQuerySnapshot snapshot)) || bool_decide (Query_Prefix snapshot ≠ State.prefix_value prefix)) expired_query;
  now ← Now;
  _ ← throw_if (Query_ExpiresAt snapshot <=? now) expired_query;
  mret snapshot.

(** ** Pages *)

(** [for attempts := 0; attempts < 8; attempts++]; the last error stands. *)
Fixpoint build_attempts (attempts : nat) (prefix : State.Prefix) (expiresAt : Z) : StoreM (StateQuerySnapshot * gostring) :=
  built ← attempt (buildStateQuerySnapshot prefix expiresAt);
  match built, attempts with
  | Ok snapshot, _ => mret snapshot
  | Err err, S attempts => if transition_pending err then build_attempts attempts prefix expiresAt else throw err
  | Err err, O => throw err
  end.

(** What the pages of both kinds of listings have in common. *)
Definition finish_page (limit : Z) (entries : list DomainEntry) (cursor : gostring → stateListCursor) : StoreM State.Page :=
  let hasMore := limit <? len entries in
  let entries := take (Z.to_nat limit) entries in
  items ← lift (statePageFromEntries entries);
  match last entries with
  | Some final =>
      if hasMore then
        next ← encodeStateListCursor (cursor (Entry_Key final));
        mret {| State.Page_Items := items; State.Page_NextCursor := next |}
      else mret {| State.Page_Items := items; State.Page_NextCursor := [] |}
  | None => mret {| State.Page_Items := items; State.Page_NextCursor := [] |}
  end.

Definition next_cursor (prefix : State.Prefix) (limit revision : Z) (digest : gostring) (composite : bool) (expiresAt : Z) (after : gostring) : stateListCursor :=
  {| Cursor_SchemaVersion := 4; Cursor_Prefix := State.prefix_value prefix; Cursor_Limit := limit; Cursor_Namespace := first_part (State.prefix_value prefix);
     Cursor_Revision := revision; Cursor_Snapshot := digest; Cursor_Composite := composite; Cursor_After := after; Cursor_ExpiresAt := expiresAt |}.

Definition listStateAcrossDomains (prefix : State.Prefix) (limit : Z) (after digest : gostring) (expiresAt : Z) : StoreM State.Page :=
  '(snapshot, digest) ← (if bool_decide (digest = []) then build_attempts 7 prefix expiresAt
                         else snapshot ← loadStateQuerySnapshot prefix digest; mret (snapshot, digest));
  entries ← fresh (collect (PageStore0 := domain_pages (stateQueryReference (Query_DomainID snapshot)))
                     (Query_Root snapshot) (State.prefix_value prefix) after (limit + 1));
  finish_page limit entries (next_cursor prefix limit 1 digest true (Query_ExpiresAt snapshot)).

(** Where a listing goes on. *)
Record position := { at_after : gostring; at_revision : Z; at_snapshot : gostring; at_composite : bool; at_expires : Z }.

(** A cursor must have been made for the same request. *)
Definition resume (prefix : State.Prefix) (limit : Z) (value : gostring) : StoreM position :=
  match decodeStateListCursor value with
  | Err _ => throw out_of_scope
  | Ok cursor =>
      _ ← throw_if (bool_decide (Cursor_Prefix cursor ≠ State.prefix_value prefix)
                    || bool_decide (Cursor_Namespace cursor ≠ first_part (State.prefix_value prefix))
                    || negb (Cursor_Limit cursor =? limit) || bool_decide (Cursor_After cursor = [])) out_of_scope;
      now ← Now;
      _ ← throw_if (Cursor_ExpiresAt cursor <=? now) out_of_scope;
      mret {| at_after := Cursor_After cursor; at_revision := Cursor_Revision cursor; at_snapshot := Cursor_Snapshot cursor;
              at_composite := Cursor_Composite cursor; at_expires := Cursor_ExpiresAt cursor |}
  end.

Definition kind_changed : error := NewError ErrorInvalid "state cursor snapshot kind changed".

Definition list_domain (reference : consistencyDomainRef) (prefix : State.Prefix) (limit : Z) (from : position) : StoreM State.Page :=
  let value := State.prefix_value prefix in
  '(entries, revision, digest) ←
    (if bool_decide (at_snapshot from = []) then
       with_help fuel depth 8 reference (list_ reference value (at_after from) (limit + 1) (at_expires from)) pending_transition
     else
       '(entries, revision) ← listSnapshot reference (at_snapshot from) value (at_after from) (limit + 1);
       mret (entries, revision, at_snapshot from));
  _ ← throw_if (negb (at_revision from =? 0) && negb (at_revision from =? revision)) (NewError ErrorInvalid "state cursor snapshot changed");
  finish_page limit entries (next_cursor prefix limit revision digest false (at_expires from)).

Definition List (prefix : State.Prefix) (request : State.PageRequest) : StoreM State.Page :=
  _ ← throw_if (negb (State.Prefix_Valid prefix)) (NewError ErrorInvalid "invalid state prefix");
  let limit := if State.PageRequest_Limit request =? 0 then 200 else State.PageRequest_Limit request in
  _ ← throw_if ((limit <? 1) || (1000 <? limit)) (NewError ErrorInvalid "page limit must be between 1 and 1000");
  let continued := bool_decide (State.PageRequest_Cursor request ≠ []) in
  now ← Now;
  from ← (if continued then resume prefix limit (State.PageRequest_Cursor request)
          else mret {| at_after := []; at_revision := 0; at_snapshot := []; at_composite := false; at_expires := now + cursorTTL |});
  '(reference, exact) ← lift (stateDomainReferenceForPrefix prefix);
  if negb exact then
    _ ← throw_if (continued && negb (at_composite from)) kind_changed;
    listStateAcrossDomains prefix limit (at_after from) (at_snapshot from) (at_expires from)
  else
    _ ← throw_if (at_composite from) kind_changed;
    list_domain reference prefix limit from.

(** A client that asks for [calls] pages, each from where the last one ended;
    returns the records and the cursor that is left. *)
Fixpoint list_pages (calls : nat) (prefix : State.Prefix) (limit : Z) (cursor : gostring) : StoreM (list State.Item * gostring) :=
  match calls with
  | O => mret ([], cursor)
  | S calls =>
      page ← List prefix {| State.PageRequest_Limit := limit; State.PageRequest_Cursor := cursor |};
      if bool_decide (State.Page_NextCursor page = []) then mret (State.Page_Items page, [])
      else
        '(rest, remaining) ← list_pages calls prefix limit (State.Page_NextCursor page);
        mret (State.Page_Items page ++ rest, remaining)
  end.
End Engine.
End EngineList.
