(* ===== verification/HeadTheory.v ===== *)
(** * The codec of heads, outcomes and envelopes round-trips *)

From Stdlib Require Import ZArith Lia.
From S2P Require Import Prelude GoLib GoHash GoJSON GoTime Errors ObjectStore DomainPage DomainPageTheory DomainTree TreeTheory DomainPack DomainHead.

Open Scope Z_scope.

Module HeadTheory.
Import StorageFormat ObjectStore PageTheory TreeTheory DomainPack DomainHead.

(** ** Readers of one value *)

(** [r] reads [a] from [v], whatever follows that is not a digit. *)
Definition reads {A} (r : reader A) (v : gostring) (a : A) : Prop :=
  ∀ rest, nodigit rest → r (v ++ rest) = Some (a, rest).

Lemma reads_string s : ValidString s = true → reads read_string (json_string false s) s.
Proof. intros Hs rest _. by apply read_string_app. Qed.

Lemma reads_upto m z : 0 ≤ z ≤ m → reads (read_upto m) (json_uint z) z.
Proof. intros Hz rest. by apply read_upto_app. Qed.

Lemma reads_slice l : reads read_slice (json_slice l) l.
Proof. intros rest _. apply read_slice_app. Qed.

Lemma reads_time t : year_ok t = true → reads read_time (json_time t) t.
Proof. intros Ht rest _. by apply read_time_app. Qed.

Lemma reads_bool b : reads read_bool (json_bool b) b.
Proof.
  intros rest _. unfold read_bool, json_bool. destruct b; [by rewrite read_lit_app|].
  assert (read_lit "true" ("false" ++ rest) = None) as ->.
  { unfold read_lit. rewrite decide_False; [done|]. by intros [=]. }
  by erewrite reader_bind_Some by apply read_lit_app.
Qed.

Lemma reads_array {A} (item : reader A) (enc : A → gostring) l :
  (∀ a, enc a ≠ []) → l ≠ [] → Forall (λ a, ∀ rest, item (enc a ++ rest) = Some (a, rest)) l →
  reads (read_array item) (json_array (map enc l)) l.
Proof. intros Hne Hl Hall rest _. by eapply (read_array_app item enc (λ a, ∀ rest, item (enc a ++ rest) = Some (a, rest))); [auto|..]. Qed.

(** ** Readers of the fields of an object *)

Lemma step_open {A} (k : unit → reader A) rest : (read_lit "{" ≫= k) ("{" ++ rest) = k tt rest.
Proof. by erewrite reader_bind_Some by apply read_lit_app. Qed.

Lemma step_close {A} (k : unit → reader A) rest : (read_lit "}" ≫= k) ("}" ++ rest) = k tt rest.
Proof. by erewrite reader_bind_Some by apply read_lit_app. Qed.

Lemma step_first {A C} name (r : reader A) v a (k : A → reader C) rest :
  reads r v a → nodigit rest → (read_field name r ≫= k) (json_field name v ++ rest) = k a rest.
Proof. intros Hr Hd. by erewrite reader_bind_Some by (by apply read_field_app, Hr). Qed.

Lemma step_next {A C} name (r : reader A) v a (k : A → reader C) l rest :
  reads r v a → nodigit (more l ++ rest) →
  (next_field name r ≫= k) (more (json_field name v :: l) ++ rest) = k a (more l ++ rest).
Proof.
  intros Hr Hd. rewrite more_cons, <-(assoc_L (++)). unfold next_field. erewrite reader_bind_Some; [done|].
  erewrite reader_bind_Some by apply read_lit_app. by apply read_field_app, Hr.
Qed.

(** The text does not begin with the field [name]. *)
Definition differs (name rest : gostring) : Prop :=
  take (length ("," ++ json_quote name ++ ":")) rest ≠ ("," ++ json_quote name ++ ":").

Lemma step_omit {A C} name (x : A) (r : reader A) (b : bool) v a (k : A → reader C) l rest :
  (b = true → reads r v a) → (b = false → a = x) → nodigit (more l ++ rest) → differs name (more l ++ rest) →
  (read_omit name x r ≫= k) (more (json_omit b (json_field name v) ++ l) ++ rest) = k a (more l ++ rest).
Proof.
  intros Hr Ha Hd Hne. rewrite more_app, <-(assoc_L (++)), more_omit. destruct b.
  - erewrite reader_bind_Some; [done|]. apply read_omit_present. by apply Hr.
  - erewrite reader_bind_Some; [done|]. rewrite (Ha eq_refl). by apply read_omit_absent.
Qed.

Lemma step_omit_last {A C} name (x : A) (r : reader A) (b : bool) v a (k : A → reader C) rest :
  (b = true → reads r v a) → (b = false → a = x) → nodigit rest → differs name rest →
  (read_omit name x r ≫= k) (more (json_omit b (json_field name v)) ++ rest) = k a rest.
Proof. intros Hr Ha Hd Hne. rewrite <-(app_nil_r (json_omit _ _)). by apply (step_omit name x r b v a k [] rest). Qed.

Lemma more_nil rest : more [] ++ rest = rest.
Proof. done. Qed.

(** ** Canonical values *)

(** Slices the encoder writes and the decoder gives back: nil, never empty. *)
Definition slice_ok (v : option gostring) : Prop := v ≠ Some [].

Lemma clone_slice_ok v : slice_ok (clone_bytes v).
Proof. by destruct v as [[|]|]. Qed.

Lemma omitted_slice v : slice_ok v → negb (bytes_len v =? 0) = false → v = None.
Proof.
  unfold slice_ok, bytes_len. destruct v as [[|c v]|]; [done| |done]. intros _.
  rewrite negb_false_iff, Z.eqb_eq. unfold len. cbn. lia.
Qed.

Definition u64_ok (z : Z) : Prop := 0 ≤ z ≤ MaxUint64.

Definition change_text (c : DomainChange) : Prop :=
  ValidString (Change_Key c) = true ∧ slice_ok (Change_Value c) ∧ ValidString (Change_LogicalVersion c) = true.

Definition delta_text (d : DomainDelta) : Prop :=
  ValidString (Delta_MutationID d) = true ∧ ValidString (Delta_Fingerprint d) = true ∧ u64_ok (Delta_Revision d) ∧
  year_ok (Delta_RetainUntil d) = true ∧ Delta_Changes d ≠ [] ∧ Forall change_text (Delta_Changes d) ∧ slice_ok (Delta_Result d).

Definition outcome_text (o : DomainOutcome) : Prop :=
  ValidString (Outcome_MutationID o) = true ∧ ValidString (Outcome_Fingerprint o) = true ∧ u64_ok (Outcome_Revision o) ∧
  year_ok (Outcome_RetainUntil o) = true ∧ slice_ok (Outcome_Result o).

Definition root_text (r : DomainTreeRoot) : Prop :=
  ValidString (Root_Digest r) = true ∧ ValidString (Root_PackID r) = true ∧ 0 ≤ Root_Level r ≤ MaxInt64 ∧
  u64_ok (Root_EntryCount r) ∧ u64_ok (Root_ByteCount r).

Definition head_text (h : DomainHead) : Prop :=
  0 ≤ Head_SchemaVersion h ≤ MaxInt64 ∧ ValidString (Head_DomainID h) = true ∧ ValidString (Head_Kind h) = true ∧
  u64_ok (Head_Revision h) ∧ u64_ok (Head_FreezeEpoch h) ∧ u64_ok (Head_BaseRevision h) ∧ root_text (Head_Base h) ∧
  root_text (Head_Outcomes h) ∧ root_text (Head_OutcomeExpiry h) ∧ Forall delta_text (Head_Deltas h).

(** Side conditions on what follows a field. *)
Ltac follows :=
  unfold differs; repeat (rewrite more_app, <-(assoc_L (++)) || rewrite more_omit || rewrite more_cons || rewrite more_nil);
  repeat match goal with |- context [if ?b then _ else _] => destruct b end; (done || by intros [=]).

(** An optional boolean, string, number and byte slice. *)
Ltac omit_side :=
  first
    [ intros ->; apply (reads_bool true)
    | intros _; first [by apply reads_string|by apply reads_upto|apply reads_slice]
    | by intros ->
    | by apply omitted_slice
    | intros E%bool_decide_eq_false; by apply dec_stable in E
    | intros E%negb_false_iff%Z.eqb_eq; exact E ].

Ltac open_object :=
  unfold omit_bytes, omit_text, omit_uint, text_field, uint_field; cbn [app]; rewrite json_object_more, step_open.

Lemma read_change_app c rest : change_text c → read_change (json_change c ++ rest) = Some (c, rest).
Proof.
  intros (Hk & Hv & Hl). unfold read_change, json_change. open_object.
  erewrite step_first; [|by apply reads_string|follows].
  rewrite (step_omit _ _ _ _ _ (Change_Delete c)); [|omit_side|omit_side|follows|follows].
  rewrite (step_omit _ _ _ _ _ (Change_Value c)); [|omit_side|omit_side|follows|follows].
  rewrite (step_omit_last _ _ _ _ _ (Change_LogicalVersion c)); [|omit_side|omit_side|follows|follows].
  rewrite step_close. by destruct c.
Qed.

(** The value of a mandatory field. *)
Ltac value_side := first [by apply reads_string|by apply reads_upto|apply reads_bool|by apply reads_time|by apply reads_slice|done].

Lemma read_delta_app d rest : delta_text d → read_delta (json_delta d ++ rest) = Some (d, rest).
Proof.
  intros (H1 & H2 & H3 & H4 & H5 & H6 & H7). unfold read_delta, json_delta. rewrite bool_decide_eq_false_2 by done. open_object.
  erewrite step_first; [|value_side|follows].
  do 3 (erewrite step_next; [|value_side|follows]).
  erewrite step_next; [| |follows].
  2:{ apply reads_array; [by intros []|done|]. eapply list.Forall_impl; [exact H6|]. intros c Hc rest'. by apply read_change_app. }
  rewrite (step_omit_last _ _ _ _ _ (Delta_Result d)); [|omit_side|omit_side|follows|follows].
  rewrite step_close. by destruct d.
Qed.

Lemma read_outcome_app o rest : outcome_text o → read_outcome (json_outcome o ++ rest) = Some (o, rest).
Proof.
  intros (H1 & H2 & H3 & H4 & H5). unfold read_outcome, json_outcome. open_object.
  erewrite step_first; [|value_side|follows].
  do 3 (erewrite step_next; [|value_side|follows]).
  rewrite (step_omit_last _ _ _ _ _ (Outcome_Result o)); [|omit_side|omit_side|follows|follows].
  rewrite step_close. by destruct o.
Qed.

(** A leading optional field. *)
Lemma step_lead {A C} name (x : A) (r : reader A) (b : bool) v a (k : A → reader C) t rest :
  (b = true → reads r v a) → (b = false → a = x) → t ≠ [] →
  take (length (json_quote name ++ ":")) (join "," t ++ rest) ≠ (json_quote name ++ ":") →
  (read_lead name x r ≫= k) (join "," (json_omit b (json_field name v) ++ t) ++ rest) = k a (join "," t ++ rest).
Proof.
  intros Hr Ha Ht Hne. unfold read_lead. destruct b; cbn [json_omit app].
  - rewrite join_cons by done. unfold json_field. rewrite <-!(assoc_L (++)), (assoc_L (++) (json_quote name) ":").
    erewrite reader_bind_Some; [done|]. rewrite read_opt_app. erewrite reader_bind_Some by (by apply Hr).
    by erewrite reader_bind_Some by apply read_lit_app.
  - rewrite (Ha eq_refl). erewrite reader_bind_Some; [done|]. by apply read_opt_absent.
Qed.

Lemma read_root_app r rest : root_text r → read_root (json_root r ++ rest) = Some (r, rest).
Proof.
  intros (H1 & H2 & H3 & H4 & H5). unfold read_root, json_root, omit_text, omit_uint, text_field, uint_field, json_object.
  rewrite <-!(assoc_L (++)), step_open. cbn [app].
  rewrite (step_lead _ _ _ _ _ (Root_Digest r)); [|omit_side|omit_side|by destruct (json_omit _ _)|].
  2:{ case_bool_decide; cbn [json_omit app]; rewrite join_more, <-!(assoc_L (++)); by intros [=]. }
  rewrite (step_lead _ _ _ _ _ (Root_PackID r)); [|omit_side|omit_side|done|].
  2:{ rewrite join_more, <-!(assoc_L (++)). by intros [=]. }
  rewrite join_more, <-(assoc_L (++)). erewrite step_first; [|value_side|follows].
  erewrite step_next; [|value_side|follows].
  rewrite (step_omit_last _ _ _ _ _ (Root_ByteCount r)); [|omit_side|omit_side|follows|follows].
  rewrite step_close. by destruct r.
Qed.

Lemma read_head_app h rest : head_text h → read_head (json_head h ++ rest) = Some (h, rest).
Proof.
  intros (H1 & H2 & H3 & H4 & H5 & H6 & H7 & H8 & H9 & H10). unfold read_head, json_head. open_object.
  erewrite step_first; [|value_side|follows].
  do 4 (erewrite step_next; [|value_side|follows]).
  rewrite (step_omit _ _ _ _ _ (Head_Frozen h)); [|omit_side|omit_side|follows|follows].
  rewrite (step_omit _ _ _ _ _ (Head_FreezeEpoch h)); [|omit_side|omit_side|follows|follows].
  rewrite (step_omit _ _ _ _ _ (Head_BaseRevision h)); [|omit_side|omit_side|follows|follows].
  do 3 (erewrite step_next; [|intros rest' _; by apply read_root_app|follows]).
  rewrite (step_omit_last _ _ _ _ _ (Head_Deltas h)); [| | |follows|follows].
  - rewrite step_close. by destruct h.
  - intros Hne%bool_decide_eq_true. apply reads_array; [by intros []|done|].
    eapply list.Forall_impl; [exact H10|]. intros d Hd rest'. by apply read_delta_app.
  - intros E%bool_decide_eq_false. by apply dec_stable in E.
Qed.
Definition snapshot_text (s : DomainSnapshot) : Prop :=
  0 ≤ Snapshot_SchemaVersion s ≤ MaxInt64 ∧ ValidString (Snapshot_DomainID s) = true ∧ ValidString (Snapshot_Kind s) = true ∧
  head_text (Snapshot_Head s) ∧ year_ok (Snapshot_ExpiresAt s) = true.

Lemma read_snapshot_app s rest : snapshot_text s → read_snapshot (json_snapshot s ++ rest) = Some (s, rest).
Proof.
  intros (H1 & H2 & H3 & H4 & H5). unfold read_snapshot, json_snapshot. open_object.
  erewrite step_first; [|value_side|follows].
  do 2 (erewrite step_next; [|value_side|follows]).
  erewrite step_next; [|intros rest' _; by apply read_head_app|follows].
  erewrite step_next; [|value_side|follows].
  rewrite more_nil, step_close. by destruct s.
Qed.

Definition catalog_entry_text (e : DomainCatalogEntry) : Prop :=
  ValidString (Catalog_DomainID e) = true ∧ ValidString (Catalog_Kind e) = true ∧ ValidString (Catalog_HeadKey e) = true.

Lemma read_catalog_entry_app e rest : catalog_entry_text e → read_catalog_entry (json_catalog_entry e ++ rest) = Some (e, rest).
Proof.
  intros (H1 & H2 & H3). unfold read_catalog_entry, json_catalog_entry. open_object.
  erewrite step_first; [|value_side|follows].
  do 2 (erewrite step_next; [|value_side|follows]). rewrite more_nil, step_close. by destruct e.
Qed.

Definition catalog_head_text (h : DomainCatalogHead) : Prop :=
  0 ≤ CatalogHead_SchemaVersion h ≤ MaxInt64 ∧ u64_ok (CatalogHead_Revision h) ∧ u64_ok (CatalogHead_FreezeEpoch h) ∧
  root_text (CatalogHead_Root h).

Lemma read_catalog_head_app h rest : catalog_head_text h → read_catalog_head (json_catalog_head h ++ rest) = Some (h, rest).
Proof.
  intros (H1 & H2 & H3 & H4). unfold read_catalog_head, json_catalog_head. open_object.
  erewrite step_first; [|value_side|follows]. erewrite step_next; [|value_side|follows].
  rewrite (step_omit _ _ _ _ _ (CatalogHead_FreezeEpoch h)); [|omit_side|omit_side|follows|follows].
  erewrite step_next; [|intros rest' _; by apply read_root_app|follows]. rewrite more_nil, step_close. by destruct h.
Qed.

Definition lock_text (l : TransitionLock009) : Prop :=
  0 ≤ Lock_SchemaVersion l ≤ MaxInt64 ∧ ValidString (Lock_TransitionID l) = true ∧ ValidString (Lock_Fingerprint l) = true ∧
  ValidString (Lock_Kind l) = true ∧ ValidString (Lock_DomainID l) = true.

Lemma read_lock_app l rest : lock_text l → read_lock (json_lock l ++ rest) = Some (l, rest).
Proof.
  intros (H1 & H2 & H3 & H4 & H5). unfold read_lock, json_lock. open_object.
  erewrite step_first; [|value_side|follows].
  do 4 (erewrite step_next; [|value_side|follows]). rewrite more_nil, step_close. by destruct l.
Qed.

Definition envelope_text (e : Envelope) : Prop :=
  ValidString (Envelope_Schema e) = true ∧ u64_ok (Envelope_Revision e) ∧ ValidString (Envelope_LogicalVersion e) = true.

Lemma read_envelope_whole e : envelope_text e → read_envelope (json_envelope e) = Some (e, []).
Proof.
  intros (H1 & H2 & H3). rewrite <-(app_nil_r (json_envelope e)). unfold read_envelope, json_envelope. open_object.
  erewrite step_first; [|value_side|follows].
  do 2 (erewrite step_next; [|value_side|follows]).
  rewrite more_cons, more_nil, <-(assoc_L (++)). unfold next_field at 1.
  erewrite reader_bind_Some; [|erewrite reader_bind_Some by apply read_lit_app; unfold read_field, json_field;
    rewrite (assoc_L (++) (json_quote _)), <-(assoc_L (++)); erewrite reader_bind_Some by apply read_lit_app].
  2:{ change (bs "}" ++ []) with ["}"%char]. unfold read_payload. rewrite last_snoc, bool_decide_eq_true_2 by done.
      rewrite length_app, Nat.add_sub. by rewrite take_app_length. }
  by destruct e.
Qed.

(** ** Documents *)

Class DocumentLaws (A : Type) `{!Document A} := {
  document_ok : A → Prop;
  document_times_ok a : document_ok a → forallb year_ok (document_times a) = true;
  document_read a : document_ok a → document_reader (document_text a) = Some (a, []);
}.

Lemma whole_text {A} (r : reader A) v a : (∀ rest, r (v ++ rest) = Some (a, rest)) → r v = Some (a, []).
Proof. intros Hr. rewrite <-(app_nil_r v). apply Hr. Qed.

Lemma delta_times ds : Forall delta_text ds → forallb year_ok (map Delta_RetainUntil ds) = true.
Proof. induction 1 as [|d ds (_ & _ & _ & Hd & _) _ IH]; [done|]. cbn. by rewrite Hd. Qed.

#[export] Program Instance head_laws : DocumentLaws DomainHead := {| document_ok := head_text |}.
Next Obligation. intros h (_ & _ & _ & _ & _ & _ & _ & _ & _ & Hd). by apply delta_times. Qed.
Next Obligation. intros h Hh. apply whole_text. intros rest. by apply read_head_app. Qed.

#[export] Program Instance outcome_laws : DocumentLaws DomainOutcome := {| document_ok := outcome_text |}.
Next Obligation. intros o (_ & _ & _ & Ho & _). cbn. by rewrite Ho. Qed.
Next Obligation. intros o Ho. apply whole_text. intros rest. by apply read_outcome_app. Qed.

#[export] Program Instance snapshot_laws : DocumentLaws DomainSnapshot := {| document_ok := snapshot_text |}.
Next Obligation.
  intros s (_ & _ & _ & (_ & _ & _ & _ & _ & _ & _ & _ & _ & Hd) & Ht). cbn. rewrite forallb_app, delta_times by done. cbn. by rewrite Ht.
Qed.
Next Obligation. intros s Hs. apply whole_text. intros rest. by apply read_snapshot_app. Qed.

#[export] Program Instance catalog_entry_laws : DocumentLaws DomainCatalogEntry := {| document_ok := catalog_entry_text |}.
Next Obligation. done. Qed.
Next Obligation. intros e He. apply whole_text. intros rest. by apply read_catalog_entry_app. Qed.

#[export] Program Instance catalog_head_laws : DocumentLaws DomainCatalogHead := {| document_ok := catalog_head_text |}.
Next Obligation. done. Qed.
Next Obligation. intros h Hh. apply whole_text. intros rest. by apply read_catalog_head_app. Qed.

#[export] Program Instance lock_laws : DocumentLaws TransitionLock009 := {| document_ok := lock_text |}.
Next Obligation. done. Qed.
Next Obligation. intros l Hl. apply whole_text. intros rest. by apply read_lock_app. Qed.

#[export] Program Instance envelope_laws : DocumentLaws Envelope := {| document_ok := envelope_text |}.
Next Obligation. done. Qed.
Next Obligation. apply read_envelope_whole. Qed.

Section Documents.
Context {A : Type} `{!Document A, !DocumentLaws A}.

Lemma encode_document_Ok (a : A) body :
  encode_document a = Ok body → body = document_text a ∧ 1 ≤ len body ≤ MaxCanonicalBytes.
Proof. unfold encode_document. intros E. inv_go. by apply EncodeCanonical_Ok in E as [-> ?]. Qed.

Lemma decode_encoded (a : A) body : document_ok a → encode_document a = Ok body → decode_json body = Ok a.
Proof.
  intros Ha [-> Hlen]%encode_document_Ok. unfold decode_json.
  rewrite (proj2 (Z.eqb_neq _ _)), (proj2 (Z.ltb_ge _ _)) by lia. cbn [orb guard_err mbind result_bind].
  by rewrite document_read.
Qed.

Lemma decodeCanonicalValue_encoded (a : A) body : document_ok a → encode_document a = Ok body → decodeCanonicalValue body = Ok a.
Proof.
  intros Ha E. unfold decodeCanonicalValue. rewrite (decode_encoded _ _ Ha E). cbn [mbind result_bind].
  by rewrite E, bool_decide_eq_true_2.
Qed.

Lemma decodeCanonicalValue_sound (a : A) body : decodeCanonicalValue body = Ok a → encode_document a = Ok body.
Proof.
  unfold decodeCanonicalValue. intros E. inv_go. destruct (encode_document _) as [c|] eqn:Ec; [|done].
  case_bool_decide; [|done]. injection E as <-. by subst.
Qed.
End Documents.

(** ** Envelopes *)

Section Envelopes.
Context `{SHA256} {A : Type} `{!Document A, !DocumentLaws A}.

Lemma logicalVersion_text key revision payload : ValidString (logicalVersion key revision payload) = true.
Proof. apply b64_ascii. Qed.

Lemma EncodeEnvelope_Ok schema key revision (a : A) body :
  EncodeEnvelope schema key revision a = Ok body ↔
  schema ≠ [] ∧ Key_Valid key = true ∧ revision ≠ 0 ∧
  ∃ payload, encode_document a = Ok payload ∧
    encode_document {| Envelope_Schema := schema; Envelope_Revision := revision;
                       Envelope_LogicalVersion := logicalVersion key revision payload; Envelope_Payload := payload |} = Ok body.
Proof.
  unfold EncodeEnvelope. split.
  - intros E. inv_go. rewrite !orb_false_iff, bool_decide_eq_false, negb_false_iff, Z.eqb_neq in *. destruct_and!. split_and!; [done..|]. eauto.
  - intros (Hs & Hk & Hr & payload & Ep & Eb). rewrite bool_decide_eq_false_2, Hk, (proj2 (Z.eqb_neq _ _)) by done.
    cbn [orb negb guard_err mbind result_bind]. by rewrite Ep.
Qed.

Definition envelope_of (schema : gostring) (key : Key) (revision : Z) (a : A) : Envelope :=
  {| Envelope_Schema := schema; Envelope_Revision := revision;
     Envelope_LogicalVersion := logicalVersion key revision (document_text a); Envelope_Payload := document_text a |}.

Lemma DecodeEnvelope_encoded `{!SHA256Laws} schema key revision (a : A) body :
  document_ok a → ValidString schema = true → u64_ok revision → EncodeEnvelope schema key revision a = Ok body →
  DecodeEnvelope body key schema = Ok (envelope_of schema key revision a, a).
Proof.
  intros Ha Hs Hr E. pose proof E as (Hne & Hk & Hr0 & payload & Ep & Eb)%EncodeEnvelope_Ok.
  pose proof Ep as [-> Hlen]%encode_document_Ok. unfold DecodeEnvelope. rewrite Hk, bool_decide_eq_false_2 by done.
  cbn [negb orb guard_err mbind result_bind].
  change (encode_document (envelope_of schema key revision a) = Ok body) in Eb.
  rewrite (decode_encoded (envelope_of schema key revision a) body); [|split; [done|]; split; [done|]; apply logicalVersion_text|done].
  cbn [mbind result_bind Envelope_Schema Envelope_Revision Envelope_LogicalVersion Envelope_Payload envelope_of].
  assert (logicalVersion key revision (document_text a) ≠ []) as Hlv.
  { unfold logicalVersion. intros E0. apply (f_equal b64_decode) in E0. rewrite b64_decode_encode in E0.
    injection E0 as E0. apply (f_equal length) in E0. by rewrite sha256_length in E0. }
  rewrite bool_decide_eq_false_2 by (intros Hx; by apply Hx).
  rewrite (proj2 (Z.eqb_neq revision 0)), (bool_decide_eq_false_2 _ Hlv), (proj2 (Z.eqb_neq (len _) 0)) by (done || lia).
  cbn [orb guard_err mbind result_bind]. rewrite (decode_encoded _ _ Ha Ep). cbn [mbind result_bind]. rewrite Ep.
  cbn [mbind result_bind]. rewrite !bool_decide_eq_false_2 by (intros Hx; by apply Hx). cbn [guard_err mbind result_bind].
  rewrite E. cbn [mbind result_bind]. by rewrite bool_decide_eq_false_2 by (intros Hx; by apply Hx).
Qed.

Lemma DecodeEnvelope_sound data key schema env (a : A) :
  DecodeEnvelope data key schema = Ok (env, a) →
  EncodeEnvelope schema key (Envelope_Revision env) a = Ok data ∧ env = envelope_of schema key (Envelope_Revision env) a.
Proof.
  unfold DecodeEnvelope. intros E. inv_go.
  match goal with Hc : EncodeEnvelope _ _ _ _ = Ok ?c, Hn : bool_decide (?c ≠ data) = false |- _ =>
    rename Hc into Ec; apply bool_decide_eq_false, dec_stable in Hn as -> end.
  injection E as -> ->. split; [done|]. pose proof Ec as (_ & _ & _ & payload & Ep & _)%EncodeEnvelope_Ok.
  rewrite !orb_false_iff, !bool_decide_eq_false in *. destruct_and!.
  repeat match goal with Hn : ¬ (_ ≠ _) |- _ => apply dec_stable in Hn end. simplify_eq.
  pose proof Ep as [-> _]%encode_document_Ok. destruct env. unfold envelope_of. cbn in *. congruence.
Qed.

End Envelopes.

(** ** What validation establishes *)

Definition change_ok (c : DomainChange) : Prop :=
  validDomainText (Change_Key c) = true ∧
  if Change_Delete c then bytes_len (Change_Value c) = 0 ∧ Change_LogicalVersion c = []
  else validDomainText (Change_LogicalVersion c) = true.

Definition sorted_changes (cs : list DomainChange) : Prop := StronglySorted bytes_lt (map Change_Key cs).

Lemma check_changes_Ok prev cs :
  check_changes prev cs = Ok tt →
  Forall change_ok cs ∧ sorted_changes cs ∧ (prev = [] ∨ Forall (λ c, bytes_lt prev (Change_Key c)) cs).
Proof.
  revert prev. induction cs as [|c cs IH]; intros prev; cbn [check_changes].
  { intros _. split; [constructor|]. split; [constructor|]. right. constructor. }
  intros E. inv_go. apply IH in E as (Hok & Hs & Hp).
  match goal with Hg : _ || _ = false |- _ => rewrite !orb_false_iff in Hg; destruct Hg as [[[Hk Hle] Hdel] Hver] end.
  apply negb_false_iff in Hk. pose proof Hk as (Hne & _)%validDomainText_spec.
  destruct Hp as [?|Hp]; [done|]. split; [|split].
  - constructor; [|done]. split; [done|]. destruct (Change_Delete c); cbn [negb andb] in *.
    + rewrite orb_false_iff, negb_false_iff, Z.eqb_eq, bool_decide_eq_false in Hdel. destruct Hdel as [? Hl].
      split; [done|]. by apply dec_stable in Hl.
    + by apply negb_false_iff.
  - unfold sorted_changes. cbn [map]. constructor; [done|]. by apply Forall_map.
  - apply andb_false_iff in Hle as [Hn%bool_decide_eq_false|Hle].
    + left. by apply dec_stable.
    + assert (bytes_lt prev (Change_Key c)).
      { apply bytes_lt_nge. rewrite <-bytes_leb_le. by rewrite Hle. }
      right. constructor; [done|]. eapply list.Forall_impl; [exact Hp|]. intros c' ?. by trans (Change_Key c).
Qed.

Record delta_ok (d : DomainDelta) : Prop := {
  dl_id : validDomainText (Delta_MutationID d) = true;
  dl_fingerprint : validDomainDigest (Delta_Fingerprint d) = true;
  dl_retain : IsZero (Delta_RetainUntil d) = false;
  dl_nonempty : Delta_Changes d ≠ [];
  dl_changes : Forall change_ok (Delta_Changes d);
  dl_sorted : sorted_changes (Delta_Changes d);
}.

Lemma check_deltas_Ok rev ds : check_deltas rev ds = Ok tt → Forall delta_ok ds.
Proof.
  revert rev. induction ds as [|d ds IH]; intros rev E; [constructor|]. cbn [check_deltas] in E. inv_go.
  rewrite !orb_false_iff, !negb_false_iff, bool_decide_eq_false in *. destruct_and!.
  match goal with Hc : check_changes _ _ = Ok ?u |- _ => destruct u; apply check_changes_Ok in Hc as (? & ? & _) end.
  constructor; [done|by eapply IH].
Qed.

Definition root_ok (r : DomainTreeRoot) : Prop :=
  0 ≤ Root_Level r ∧ (Root_Digest r = [] → Root_PackID r = [] ∧ Root_EntryCount r = 0 ∧ Root_ByteCount r = 0 ∧ Root_Level r = 0) ∧
  (Root_Digest r = [] ∨ validDomainDigest (Root_Digest r) = true) ∧ (Root_PackID r = [] ∨ validDomainDigest (Root_PackID r) = true).

Lemma validateDomainTreeRoot_Ok r u : validateDomainTreeRoot r = Ok u → root_ok r.
Proof.
  unfold validateDomainTreeRoot. intros E. inv_go.
  rewrite !orb_false_iff, !andb_false_iff, !negb_false_iff, !bool_decide_eq_false, Z.ltb_ge in E.
  destruct E as [[[H1 H2] H3] H4]. split; [done|]. split; [|split].
  - intros Ed. destruct H2 as [?|H2]; [done|]. rewrite !orb_false_iff, bool_decide_eq_false, !negb_false_iff, !Z.eqb_eq in H2.
    destruct H2 as [[[Hp ?] ?] ?]. by apply dec_stable in Hp.
  - destruct H3 as [H3|?]; [left; by apply dec_stable in H3|by right].
  - destruct H4 as [H4|?]; [left; by apply dec_stable in H4|by right].
Qed.

Record head_ok (h : DomainHead) : Prop := {
  hd_schema : Head_SchemaVersion h = 1;
  hd_kind : validDomainKind (Head_Kind h) = true;
  hd_registered : Head_Registered h = true;
  hd_base : root_ok (Head_Base h);
  hd_outcomes : root_ok (Head_Outcomes h);
  hd_expiry : root_ok (Head_OutcomeExpiry h);
  hd_frozen : Head_Frozen h = negb (Head_FreezeEpoch h =? 0);
  hd_deltas : Forall delta_ok (Head_Deltas h);
  hd_revision : Head_Deltas h ≠ [] → Head_Revision h ≠ 0;
  hd_encodes : encode_document h = Ok (json_head h);
}.

Lemma ValidateDomainHead_Ok h u : ValidateDomainHead h = Ok u → head_ok h.
Proof.
  unfold ValidateDomainHead. intros E. inv_go.
  rewrite !orb_false_iff, !negb_false_iff, Z.eqb_eq in *. destruct_and!.
  repeat match goal with Hr : validateDomainTreeRoot _ = Ok _ |- _ => apply validateDomainTreeRoot_Ok in Hr end.
  match goal with Hd : check_deltas _ _ = Ok ?u |- _ => destruct u; apply check_deltas_Ok in Hd end.
  match goal with He : encode_document h = Ok _ |- _ => pose proof He as [-> _]%encode_document_Ok end.
  split; try done; [by apply Bool.eqb_prop|].
  intros Hd Hz. rewrite Hz, (bool_decide_eq_true_2 _ Hd), !orb_true_r in *. done.
Qed.

(** The Go types of a head: its counters are unsigned, its slices normalized. *)
Definition root_typed (r : DomainTreeRoot) : Prop :=
  Root_Level r ≤ MaxInt64 ∧ u64_ok (Root_EntryCount r) ∧ u64_ok (Root_ByteCount r).
Definition delta_typed (d : DomainDelta) : Prop :=
  u64_ok (Delta_Revision d) ∧ Forall (λ c, slice_ok (Change_Value c)) (Delta_Changes d) ∧ slice_ok (Delta_Result d).
Definition head_typed (h : DomainHead) : Prop :=
  u64_ok (Head_Revision h) ∧ u64_ok (Head_FreezeEpoch h) ∧ u64_ok (Head_BaseRevision h) ∧ root_typed (Head_Base h) ∧
  root_typed (Head_Outcomes h) ∧ root_typed (Head_OutcomeExpiry h) ∧ Forall delta_typed (Head_Deltas h).

Lemma valid_text v : validDomainText v = true → ValidString v = true.
Proof. by intros (_ & ? & _)%validDomainText_spec. Qed.

Lemma kind_text k : validDomainKind k = true → ValidString k = true.
Proof.
  intros Hk%bool_decide_eq_true. repeat (apply elem_of_cons in Hk as [->|Hk]; [reflexivity|]). by apply not_elem_of_nil in Hk.
Qed.

Lemma root_ok_text r : root_ok r → root_typed r → root_text r.
Proof.
  intros (H1 & _ & H2 & H3) (H4 & H5 & H6). split; [|split; [|split; [done|done]]].
  - by destruct H2 as [->|?%validDomainDigest_text].
  - by destruct H3 as [->|?%validDomainDigest_text].
Qed.

Lemma change_ok_text c : change_ok c → slice_ok (Change_Value c) → change_text c.
Proof.
  intros [H1%valid_text H2] H3. split; [done|]. split; [done|]. destruct (Change_Delete c); [by destruct H2 as [_ ->]|by apply valid_text].
Qed.

Lemma head_ok_text h : head_ok h → head_typed h → ValidString (Head_DomainID h) = true → head_text h.
Proof.
  intros [H1 H2 H3 H4 H5 H6 H7 H8 _ H9] (T1 & T2 & T3 & T4 & T5 & T6 & T7) Hid.
  split; [rewrite H1; unfold MaxInt64; lia|]. split; [done|]. split; [by apply kind_text|]. do 3 (split; [done|]).
  do 3 (split; [by apply root_ok_text|]).
  assert (forallb year_ok (map Delta_RetainUntil (Head_Deltas h)) = true) as Hy.
  { unfold encode_document in H9. inv_go. by apply negb_false_iff. }
  rewrite list.Forall_forall in *. intros d Hd. destruct (H8 d Hd) as [D1 D2 D3 D4 D5 D6]. destruct (T7 d Hd) as (E1 & E2 & E3).
  split; [by apply valid_text|]. split; [by apply validDomainDigest_text|]. split; [done|]. split.
  { rewrite forallb_forall in Hy. apply Hy, in_map. by apply list_elem_of_In. }
  split; [done|]. split; [|done]. rewrite list.Forall_forall in *. intros c Hc. apply change_ok_text; auto.
Qed.

Lemma snapshot_valid_text sn u :
  ValidateDomainSnapshot sn = Ok u → head_typed (Snapshot_Head sn) → ValidString (Head_DomainID (Snapshot_Head sn)) = true → snapshot_text sn.
Proof.
  unfold ValidateDomainSnapshot. intros E Ht Hid. inv_go.
  match goal with Hv : ValidateDomainHead _ = Ok _ |- _ => apply ValidateDomainHead_Ok in Hv; rename Hv into Hok end.
  rewrite !orb_false_iff, negb_false_iff, Z.eqb_eq, !bool_decide_eq_false in *. destruct_and!.
  repeat match goal with Hn : ¬ (_ ≠ _) |- _ => apply dec_stable in Hn end.
  match goal with He : encode_document sn = Ok _ |- _ => unfold encode_document in He; apply result_bind_Ok in He as ([] & Hy & _) end.
  split; [unfold MaxInt64; lia|]. split; [congruence|]. split; [apply kind_text; assert (Snapshot_Kind sn = Head_Kind (Snapshot_Head sn)) as -> by done; apply Hok|]. split; [by apply head_ok_text|].
  destruct (forallb _ _) eqn:Ey; [|done]. cbn in Ey. rewrite forallb_app in Ey. apply andb_true_iff in Ey as [_ Ey]. cbn in Ey. by rewrite andb_true_r in Ey.
Qed.
End HeadTheory.
