(* ===== verification/RecordTheory.v ===== *)
(** * Keys, routes and records of the state store

    A record key determines its path, the domain that holds the record, and the
    type of its stored form; the documents of a transition and the stored form of
    a record are read back as they were written. *)

From Stdlib Require Import ZArith Lia.
From S2P Require Import Prelude GoLib GoHash GoJSON GoTime Errors StateStore StateTheory ObjectStore DomainPage DomainPageTheory DomainTree DomainPack DomainHead TransitionFormat DomainSession TreeStream DomainProvider DomainCatalog StateRoute HeadTheory.

Open Scope Z_scope.

Module RecordTheory.
Import StorageFormat PageTheory DomainTree DomainPack DomainHead TransitionFormat DomainSession StateRoute StateTheory HeadTheory.

(** ** Stored records *)

Definition state_record_text (r : StateRecord009) : Prop :=
  0 ≤ Record_SchemaVersion r ≤ MaxInt64 ∧ ValidString (Record_RecordType r) = true.

Lemma read_state_record_app r rest : state_record_text r → read_state_record (json_state_record r ++ rest) = Some (r, rest).
Proof.
  intros (H1 & H2). unfold read_state_record, json_state_record. open_object.
  erewrite step_first; [|value_side|follows].
  do 2 (erewrite step_next; [|value_side|follows]). rewrite more_nil, step_close. by destruct r.
Qed.

#[export] Program Instance state_record_laws : DocumentLaws StateRecord009 := {| document_ok := state_record_text |}.
Next Obligation. done. Qed.
Next Obligation. intros r Hr. apply whole_text. intros rest. by apply read_state_record_app. Qed.

Lemma DecodeStateRecord009_encoded t payload body :
  EncodeStateRecord009 t payload = Ok body → DecodeStateRecord009 body t = Ok payload.
Proof.
  unfold EncodeStateRecord009, DecodeStateRecord009. intros E. apply result_bind_Ok in E as ([] & Hv & E).
  set (record := {| Record_SchemaVersion := 1; Record_RecordType := t; Record_Payload := clone_bytes (Some payload) |}) in *.
  assert (state_record_text record) as Hok.
  { unfold validateStateRecord009 in Hv. apply result_bind_Ok in Hv as (u & Hg%guard_err_Ok & _). rewrite !orb_false_iff, !negb_false_iff in Hg.
    destruct Hg as [[_ Ht] _]. split; [cbn; unfold MaxInt64; lia|by apply valid_text]. }
  rewrite (decode_encoded record body); [|exact Hok|exact E]. cbn [mbind result_bind]. rewrite Hv. cbn [mbind result_bind]. rewrite E. cbn [mbind result_bind].
  rewrite bool_decide_eq_false_2 by (intros Hn; by apply Hn). cbn. by destruct payload.
Qed.

Lemma decodeStateValue009_encoded key data body : encodeStateValue009 key data = Ok body → decodeStateValue009 key body = Ok data.
Proof.
  unfold encodeStateValue009, decodeStateValue009. intros E. apply result_bind_Ok in E as ([ns parts] & -> & E). cbn [mbind result_bind].
  apply result_bind_Ok in E as (t & -> & E). cbn [mbind result_bind]. by apply DecodeStateRecord009_encoded.
Qed.

(** A stored form is read for its own record type only. *)
Lemma DecodeStateRecord009_sound body t payload : DecodeStateRecord009 body t = Ok payload → t ≠ [] → EncodeStateRecord009 t payload = Ok body.
Proof.
  unfold DecodeStateRecord009, EncodeStateRecord009. intros E Ht. apply result_bind_Ok in E as (r & _ & E). apply result_bind_Ok in E as ([] & Hv & E).
  apply result_bind_Ok in E as (c & Hc & E). apply result_bind_Ok in E as (u & Hg%guard_err_Ok & [= <-]). apply bool_decide_eq_false, dec_stable in Hg as ->.
  pose proof Hv as Hv'. unfold validateStateRecord009 in Hv'. apply result_bind_Ok in Hv' as (u' & Hg%guard_err_Ok & Hp%guard_err_Ok).
  rewrite !orb_false_iff, !negb_false_iff, andb_false_iff, !bool_decide_eq_false, Z.eqb_eq in Hg. destruct Hg as [[Hs _] [?|Hty%dec_stable]]; [done|].
  rewrite orb_false_iff, Z.eqb_neq in Hp. destruct Hp as [Hp _].
  assert ({| Record_SchemaVersion := 1; Record_RecordType := t; Record_Payload := clone_bytes (Some (default [] (Record_Payload r))) |} = r) as ->.
  { destruct r as [s ty p]. cbn in *. subst. f_equal. by destruct p as [[|]|]. }
  rewrite Hv. exact Hc.
Qed.

(** ** Transition documents *)

Definition transition_change_text (c : TransitionChange009) : Prop :=
  ValidString (TChange_Key c) = true ∧ 0 ≤ TChange_Requirement c ≤ 255 ∧ ValidString (TChange_ExpectedVersion c) = true ∧ slice_ok (TChange_Value c).

Lemma read_transition_change_app c rest :
  transition_change_text c → read_transition_change (json_transition_change c ++ rest) = Some (c, rest).
Proof.
  intros (H1 & H2 & H3 & H4). unfold read_transition_change, json_transition_change. open_object.
  erewrite step_first; [|value_side|follows]. erewrite step_next; [|value_side|follows].
  rewrite (step_omit _ _ _ _ _ (TChange_ExpectedVersion c)); [|omit_side|omit_side|follows|follows].
  rewrite (step_omit _ _ _ _ _ (TChange_Delete c)); [|omit_side|omit_side|follows|follows].
  rewrite (step_omit_last _ _ _ _ _ (TChange_Value c)); [|omit_side|omit_side|follows|follows].
  rewrite step_close. by destruct c.
Qed.

Definition participant_text (p : TransitionParticipant009) : Prop :=
  ValidString (Participant_Kind p) = true ∧ ValidString (Participant_DomainID p) = true ∧ Participant_Changes p ≠ [] ∧
  Forall transition_change_text (Participant_Changes p).

Lemma json_list_array {A} (f : A → gostring) l : l ≠ [] → json_list f l = json_array (map f l).
Proof. intros Hl. unfold json_list. by rewrite bool_decide_eq_false_2. Qed.

Lemma read_participant_app p rest : participant_text p → read_participant (json_participant p ++ rest) = Some (p, rest).
Proof.
  intros (H1 & H2 & H3 & H4). unfold read_participant, json_participant. rewrite json_list_array by done. open_object.
  erewrite step_first; [|value_side|follows]. erewrite step_next; [|value_side|follows].
  erewrite step_next; [| |follows].
  2:{ apply reads_array; [by intros []|done|]. eapply list.Forall_impl; [exact H4|]. intros c Hc rest'. by apply read_transition_change_app. }
  rewrite more_nil, step_close. by destruct p.
Qed.

Definition plan_text (p : TransitionPlan009) : Prop :=
  0 ≤ Plan_SchemaVersion p ≤ MaxInt64 ∧ ValidString (Plan_TransitionID p) = true ∧ ValidString (Plan_Fingerprint p) = true ∧
  year_ok (Plan_RetainUntil p) = true ∧ Plan_Participants p ≠ [] ∧ Forall participant_text (Plan_Participants p) ∧ slice_ok (Plan_Result p).

Lemma read_plan_app p rest : plan_text p → read_plan (json_plan p ++ rest) = Some (p, rest).
Proof.
  intros (H1 & H2 & H3 & H4 & H5 & H6 & H7). unfold read_plan, json_plan. rewrite json_list_array by done. open_object.
  erewrite step_first; [|value_side|follows]. do 3 (erewrite step_next; [|value_side|follows]).
  erewrite step_next; [| |follows].
  2:{ apply reads_array; [by intros []|done|]. eapply list.Forall_impl; [exact H6|]. intros c Hc rest'. by apply read_participant_app. }
  rewrite (step_omit_last _ _ _ _ _ (Plan_Result p)); [|omit_side|omit_side|follows|follows].
  rewrite step_close. by destruct p.
Qed.

#[export] Program Instance plan_laws : DocumentLaws TransitionPlan009 := {| document_ok := plan_text |}.
Next Obligation. intros p (_ & _ & _ & Hp & _). cbn. by rewrite Hp. Qed.
Next Obligation. intros p Hp. apply whole_text. intros rest. by apply read_plan_app. Qed.

Definition decision_text (d : TransitionDecision009) : Prop :=
  0 ≤ Decision_SchemaVersion d ≤ MaxInt64 ∧ ValidString (Decision_TransitionID d) = true ∧ ValidString (Decision_Fingerprint d) = true ∧
  ValidString (Decision_ErrorKind d) = true ∧ year_ok (Decision_DecidedAt d) = true.

Lemma read_decision_app d rest : decision_text d → read_decision (json_decision d ++ rest) = Some (d, rest).
Proof.
  intros (H1 & H2 & H3 & H4 & H5). unfold read_decision, json_decision. open_object.
  erewrite step_first; [|value_side|follows]. do 3 (erewrite step_next; [|value_side|follows]).
  rewrite (step_omit _ _ _ _ _ (Decision_ErrorKind d)); [|omit_side|omit_side|follows|follows].
  erewrite step_next; [|value_side|follows]. rewrite more_nil, step_close. by destruct d.
Qed.

#[export] Program Instance decision_laws : DocumentLaws TransitionDecision009 := {| document_ok := decision_text |}.
Next Obligation. intros d (_ & _ & _ & _ & Hd). cbn. by rewrite Hd. Qed.
Next Obligation. intros d Hd. apply whole_text. intros rest. by apply read_decision_app. Qed.

(** ** Paths *)

Lemma decode_path_encoded ps : Forall State.part_ok ps → decode_path_parts (map b64_encode ps) = Ok ps.
Proof.
  induction 1 as [|p ps [Hne _] _ IH]; [done|]. cbn [map decode_path_parts]. rewrite b64_decode_encode.
  rewrite (proj2 (Z.eqb_neq (len p) 0)) by (destruct p; [done|unfold len; cbn; lia]). rewrite bool_decide_eq_false_2 by (intros Hn; by apply Hn).
  cbn [orb guard_err mbind result_bind]. by rewrite IH.
Qed.

Lemma split_key ns ps : ns ∈ State.validNamespaces → split_on "/" (join [slash] (ns :: map b64_encode ps)) = ns :: map b64_encode ps.
Proof. intros Hns. apply split_on_join; [done|]. by apply State.encoded_no_slash. Qed.

Lemma namespace_nonempty ns : ns ∈ State.validNamespaces → ns ≠ [].
Proof. intros Hns ->. by repeat (apply elem_of_cons in Hns as [?|Hns]; [done|]); apply not_elem_of_nil in Hns. Qed.

Lemma decodedStatePath_NewKey ns ps k : State.NewKey ns ps = Ok k → decodedStatePath (State.key_value k) false = Ok (ns, ps).
Proof.
  unfold State.NewKey. intros E. apply result_bind_Ok in E as (v & Hv & [= <-]). apply State.encodedPath_Ok in Hv as (Hns & Hps & ->).
  unfold decodedStatePath. cbn [State.key_value]. cbn zeta. rewrite (split_key ns ps Hns). rewrite bool_decide_eq_false_2 by by apply namespace_nonempty.
  cbn [guard_err mbind result_bind]. by rewrite decode_path_encoded.
Qed.

Lemma decodedStatePath_NewPrefix ns ps p : State.NewPrefix ns ps = Ok p → decodedStatePath (State.prefix_value p) true = Ok (ns, ps).
Proof.
  unfold State.NewPrefix. intros E. apply result_bind_Ok in E as (v & Hv & [= <-]). apply State.encodedPath_Ok in Hv as (Hns & Hps & ->).
  unfold decodedStatePath. cbn [State.prefix_value]. assert (∀ s : gostring, TrimSuffix (s ++ "/") "/" = s) as ->.
  { intros s. unfold TrimSuffix, HasSuffix. rewrite bool_decide_eq_true_2 by by eexists. rewrite length_app, Nat.add_sub. apply take_app_length. }
  rewrite split_key by done.
  rewrite bool_decide_eq_false_2 by by apply namespace_nonempty. cbn [guard_err mbind result_bind]. by rewrite decode_path_encoded.
Qed.

Lemma decode_stored_encoded ps : decode_stored_parts (map b64_encode ps) = Ok ps.
Proof.
  induction ps as [|p ps IH]; [done|]. cbn [map decode_stored_parts]. rewrite b64_decode_encode, bool_decide_eq_false_2 by (intros Hn; by apply Hn).
  cbn [guard_err mbind result_bind]. by rewrite IH.
Qed.

Lemma parseExistingStateKey_NewKey ns ps k : State.NewKey ns ps = Ok k → parseExistingStateKey (State.key_value k) = Ok k.
Proof.
  intros E. pose proof E as E'. unfold State.NewKey in E'. apply result_bind_Ok in E' as (v & Hv & [= Hk]). apply State.encodedPath_Ok in Hv as (Hns & Hps & ->).
  unfold parseExistingStateKey. rewrite <-Hk at 1. cbn [State.key_value]. rewrite split_key by done. rewrite decode_stored_encoded.
  cbn [mbind result_bind]. by rewrite E, bool_decide_eq_true_2.
Qed.

Lemma parseExistingStateKey_sound v k :
  parseExistingStateKey v = Ok k → State.key_value k = v ∧ ∃ ns ps, State.NewKey ns ps = Ok k.
Proof.
  unfold parseExistingStateKey. destruct (split_on _ v) as [|ns parts]; [done|]. intros E. apply result_bind_Ok in E as (ps & _ & E).
  destruct (State.NewKey ns ps) as [k'|] eqn:Ek; [|done]. case_bool_decide; [|done]. injection E as <-. split; [done|by exists ns, ps].
Qed.

(** ** Routes *)

(** The route of a path that has one is the route of every path below it. *)
Lemma route_extends `{SHA256} ns ps qs :
  route_exact (stateRouteForPath009 ns ps) = true → stateRouteForPath009 ns (ps ++ qs) = stateRouteForPath009 ns ps.
Proof.
  unfold stateRouteForPath009, one_of, no_route, administration, owner_of, namespace_of, capability_route, route.
  destruct ps as [|a [|b [|c ps]]]; cbn [app];
  repeat (case_bool_decide; cbn [andb route_exact]; try done); subst; try done.
  by match goal with Hin : bs "admin" ∈ _ |- _ => repeat (apply elem_of_cons in Hin as [?|Hin]; [done|]); apply not_elem_of_nil in Hin end.
Qed.

(** Every record under a prefix that has a domain is in that domain. *)
Lemma prefix_route `{SHA256} ns qs p ns' ps k r :
  State.NewPrefix ns qs = Ok p → State.NewKey ns' ps = Ok k → HasPrefix (State.key_value k) (State.prefix_value p) = true →
  stateDomainReferenceForPrefix p = Ok (r, true) → stateDomainReferenceForKey k = Ok r.
Proof.
  intros Hp Hk Hpre Hr. destruct (proj1 (StateTheory.NewPrefix_selects_descendants _ _ _ _ _ _ Hk Hp) Hpre) as (-> & q & rest & ->).
  unfold stateDomainReferenceForPrefix in Hr. apply result_bind_Ok in Hr as (u & _ & Hr). rewrite (decodedStatePath_NewPrefix _ _ _ Hp) in Hr.
  cbn [mbind result_bind] in Hr. injection Hr as <- Hex. unfold stateDomainReferenceForKey, stateDomainReferenceForKeyWithRouter.
  assert (State.Key_Valid k = true) as ->.
  { unfold State.Key_Valid. apply bool_decide_eq_true. intros E. apply parseExistingStateKey_NewKey in Hk. by rewrite E in Hk. }
  cbn [negb guard_err mbind result_bind]. rewrite (decodedStatePath_NewKey _ _ _ Hk). cbn [mbind result_bind].
  unfold stateRouteForPath in *. by rewrite route_extends, Hex by done.
Qed.
End RecordTheory.
