(* ===== verification/SessionLaws.v ===== *)
(** * A session is a page store

    [BlobLaws] is what a session needs of the object backend: reads return what
    is stored and create-only writes never replace anything.  Under these laws
    every session meets [PageStoreLaws], so the theorems on trees hold for it.

    The laws cover sessions that resolve pages from the backend and from their
    own pending pack; a session with pages marked as known without being read
    ([markKnown]) is outside them. *)

From Stdlib Require Import ZArith Lia.
From S2P Require Import Prelude GoLib GoHash GoJSON GoTime Errors ObjectStore DomainPage DomainPageTheory DomainTree TreeTheory DomainPack DomainSession.

Open Scope Z_scope.

(** The objects that are written once: which keys name them, their bodies, and
    the errors of a provider that does not answer. *)
Class BlobView (B : Type) := {
  blob_key : ObjectStore.Key → Prop;
  blob_contents : B → gmap gostring gostring;
  blob_outage : error → Prop;
  (** what a backend may have become, by this process's and others' doing *)
  blob_le : B → B → Prop;
  blob_le_preorder :: PreOrder blob_le;
}.

(** Other writers may add objects during any call. *)
Class BlobLaws (B : Type) `{!BlobStore B, !BlobView B} : Prop := {
  blob_le_contents b b' : blob_le b b' → blob_contents b ⊆ blob_contents b';
  blob_get_exact b k body x b' :
    blob_key k → blob_contents b !! ObjectStore.key_value k = Some body → blob_get k b = (x, b') →
    x = Ok body ∨ ∃ e, x = Err e ∧ blob_outage e;
  blob_get_sound b k x b' :
    blob_key k → blob_get k b = (x, b') →
    blob_le b b' ∧ ∀ body, x = Ok body → blob_contents b' !! ObjectStore.key_value k = Some body;
  blob_create_sound b k body x b' :
    blob_key k → blob_create k body b = (x, b') →
    blob_le b b' ∧ ∀ u, x = Ok u → blob_contents b' !! ObjectStore.key_value k = Some body;
}.

Module SessionLaws.
Import StorageFormat PageTheory DomainTree TreeTheory DomainPack DomainSession.

(** ** Decoded pages fit their types *)

Lemma reader_bind_inv {A C} (r : reader A) (k : A → reader C) s c s' :
  (r ≫= k) s = Some (c, s') → ∃ a s1, r s = Some (a, s1) ∧ k a s1 = Some (c, s').
Proof. unfold mbind, reader_bind. destruct (r s) as [[a s1]|]; [|done]. eauto. Qed.

Lemma read_field_inv {A} name (r : reader A) s a s' : read_field name r s = Some (a, s') → ∃ s1, r s1 = Some (a, s').
Proof. unfold read_field. intros (u & s1 & _ & E)%reader_bind_inv. eauto. Qed.

Lemma read_omit_inv {A} name (x : A) r s a s' : read_omit name x r s = Some (a, s') → a = x ∨ ∃ s1, r s1 = Some (a, s').
Proof.
  unfold read_omit, read_opt. destruct (decide _); [eauto|]. generalize x. intros x' [= <- <-]. by left.
Qed.

Lemma read_span_digits s : forallb is_digit (fst (read_span s)) = true.
Proof.
  induction s as [|c s IH]; [done|]. cbn [read_span]. destruct (is_digit c) eqn:Ec; [|done].
  destruct (read_span s) as [d r]. cbn in *. by rewrite Ec.
Qed.

Lemma read_upto_range m s z s' : read_upto m s = Some (z, s') → 0 ≤ z ≤ m.
Proof.
  unfold read_upto, read_uint. pose proof (read_span_digits s) as Hd. destruct (read_span s) as [d r].
  destruct (decide (d = [])); [done|]. apply dec_value_nonneg in Hd.
  destruct (Z.leb_spec (dec_value d) m); [|done]. intros [= <- _]. cbn [fst] in Hd. lia.
Qed.

Lemma read_items_forall {A} (P : A → Prop) item n s l s' :
  (∀ s a s', item s = Some (a, s') → P a) → read_items_fuel n item s = Some (l, s') → Forall P l.
Proof.
  intros Hitem. revert s l s'. induction n as [|n IH]; intros s l s'; [done|]. cbn [read_items_fuel].
  intros (a & s1 & Ha & E)%reader_bind_inv. unfold read_opt in E. destruct (decide _).
  - apply reader_bind_inv in E as (l' & s2 & El & E). injection E as <- <-. constructor; [by eapply Hitem|by eapply IH].
  - injection E as <- <-. constructor; [by eapply Hitem|constructor].
Qed.

Lemma read_array_forall {A} (P : A → Prop) item s l s' :
  (∀ s a s', item s = Some (a, s') → P a) → read_array item s = Some (l, s') → Forall P l.
Proof.
  intros Hitem. unfold read_array. intros (u & s1 & _ & E)%reader_bind_inv.
  apply reader_bind_inv in E as (l' & s2 & El & E). apply reader_bind_inv in E as (u' & s3 & _ & E).
  injection E as <- <-. by eapply read_items_forall.
Qed.

Ltac read_inv E :=
  repeat match type of E with
  | (_ ≫= _) _ = Some _ => let a := fresh "a" in let s := fresh "s" in let Ha := fresh "R" in
      apply reader_bind_inv in E as (a & s & Ha & E)
  end.

Lemma read_child_typed s c s' : read_child s = Some (c, s') → child_typed c.
Proof.
  unfold read_child. intros E. read_inv E. injection E as <- _.
  match goal with R : read_field _ read_uint64 _ = _ |- _ => apply read_field_inv in R as [? R]; apply read_upto_range in R end.
  match goal with R : read_omit _ _ read_uint64 _ = _ |- _ =>
    apply read_omit_inv in R as [->|[? R%read_upto_range]]; by split; cbn end.
Qed.

Lemma read_page_typed s p s' : read_page s = Some (p, s') → page_typed p.
Proof.
  unfold read_page. intros E. read_inv E. injection E as <- _.
  repeat match goal with R : read_field _ read_int _ = _ |- _ => apply read_field_inv in R as [? R]; apply read_upto_range in R end.
  match goal with R : read_omit _ _ (read_array read_child) _ = _ |- _ => apply read_omit_inv in R as [->|[? R]] end.
  - split; cbn; [lia|constructor].
  - split; cbn; [lia|]. eapply read_array_forall; [|done]. apply read_child_typed.
Qed.

Lemma decode_typed body p : decodeCanonicalPage body = Ok p → page_typed p.
Proof.
  unfold decodeCanonicalPage. destruct (read_page body) as [[q [|]]|] eqn:E; [|done..].
  destruct (EncodeCanonical (json_page q)); [|done]. destruct (bool_decide _); [|done]. intros [= <-].
  by eapply read_page_typed.
Qed.

Lemma read_packed_typed s q s' : read_packed s = Some (q, s') → page_typed (Packed_Page q).
Proof.
  unfold read_packed. intros E. read_inv E. injection E as <- _. cbn.
  match goal with R : read_field _ read_page _ = _ |- _ => apply read_field_inv in R as [? R]; by eapply read_page_typed end.
Qed.

Lemma read_pack_typed s pack s' : read_pack s = Some (pack, s') → Forall (λ q, page_typed (Packed_Page q)) (Pack_Pages pack).
Proof.
  unfold read_pack. intros E. read_inv E. injection E as <- _. cbn.
  match goal with R : read_field _ (read_array _) _ = _ |- _ =>
    apply read_field_inv in R as [? R]; eapply read_array_forall; [|exact R] end. apply read_packed_typed.
Qed.

(** ** What a backend holds of a domain *)

Lemma index_pack_elem pack d p : index_pack pack !! d = Some p → ∃ q, q ∈ Pack_Pages pack ∧ Packed_Digest q = d ∧ Packed_Page q = p.
Proof.
  unfold index_pack. induction (Pack_Pages pack) as [|q l IH] using rev_ind; [done|].
  rewrite fold_left_app. cbn. intros [[<- <-]|[_ Hl]]%lookup_insert_Some.
  - exists q. set_solver.
  - destruct (IH Hl) as (q' & ? & ?). exists q'. set_solver.
Qed.

Section Laws.
Context `{SHA256} `{GZIP} {B : Type} `{!BlobStore B, !BlobView B, !BlobLaws B}.
Variables (reference : consistencyDomainRef) (pageKey packKey : gostring → res ObjectStore.Key).
Hypothesis pageKey_blob : ∀ d k, pageKey d = Ok k → blob_key k.
Hypothesis packKey_blob : ∀ d k, packKey d = Ok k → blob_key k.

(** The pack stored under an identity. *)
Definition pack_at (b : B) (id : gostring) (m : gmap gostring DomainPage) : Prop :=
  ∃ key body pack, packKey id = Ok key ∧ blob_contents b !! ObjectStore.key_value key = Some body ∧
    DecodeDomainPagePack None body (Ref_ID reference) (Ref_Kind reference) id = Ok pack ∧ m = index_pack pack.

(** The page stored on its own under a digest. *)
Definition page_at (b : B) (d : gostring) (p : DomainPage) : Prop :=
  ∃ key body, pageKey d = Ok key ∧ blob_contents b !! ObjectStore.key_value key = Some body ∧
    decodeCanonicalPage body = Ok p.

Definition bound_page (p : DomainPage) (d : gostring) : Prop :=
  Page_DomainID p = Ref_ID reference ∧ Page_Kind p = Ref_Kind reference ∧ page_ok p d ∧ page_typed p.

Definition stored (b : B) (d id : gostring) (p : DomainPage) : Prop :=
  bound_page p d ∧ if bool_decide (id ≠ []) then ∃ m, pack_at b id m ∧ m !! d = Some p else page_at b d p.

Lemma pack_at_le b b' id m : blob_le b b' → pack_at b id m → pack_at b' id m.
Proof.
  intros Hle%blob_le_contents (key & body & pack & ? & Hb & ?). exists key, body, pack. split; [done|]. split; [|done].
  by eapply lookup_weaken.
Qed.

Lemma stored_le b b' d id p : blob_le b b' → stored b d id p → stored b' d id p.
Proof.
  intros Hle [Hb Hs]. split; [done|]. revert Hs. case_bool_decide.
  - intros (m & Hm & ?). exists m. split; [|done]. by eapply pack_at_le.
  - intros (key & body & ? & Hk & ?). exists key, body. split; [done|]. split; [|done]. apply blob_le_contents in Hle. by eapply lookup_weaken.
Qed.

Lemma pack_at_unique b id m m' : pack_at b id m → pack_at b id m' → m = m'.
Proof.
  intros (k & body & p & Hk & Hb & Hp & ->) (k' & body' & p' & Hk' & Hb' & Hp' & ->). congruence.
Qed.

Lemma check_packed_Ok pack prev l :
  check_packed pack prev l = Ok tt →
  Forall (λ q, Page_DomainID (Packed_Page q) = Pack_DomainID pack ∧ Page_Kind (Packed_Page q) = Pack_Kind pack ∧
               page_ok (Packed_Page q) (Packed_Digest q)) l.
Proof.
  revert prev. induction l as [|q l IH]; intros prev E; [constructor|]. cbn [check_packed] in E. inv_go.
  rewrite !orb_false_iff, !bool_decide_eq_false in *. destruct_and!.
  match goal with u : unit |- _ => destruct u end.
  match goal with Hv : ValidateDomainPage _ _ = Ok ?u |- _ => destruct u; apply ValidateDomainPage_Ok in Hv end.
  constructor; [|by eapply IH]. split; [by apply dec_stable|]. split; [by apply dec_stable|done].
Qed.

(** Every page of a stored pack was validated. *)
Lemma pack_at_bound b id m d p : pack_at b id m → m !! d = Some p → bound_page p d.
Proof.
  intros (key & body & pack & _ & _ & E & ->) Hd. unfold DecodeDomainPagePack in E. inv_go.
  destruct (read_pack _) as [[pack' [|]]|] eqn:Er; [|done..]. inv_go.
  destruct (encodeValidatedDomainPagePack pack') as [canonical|]; [|done]. inv_go. injection E as ->.
  rewrite !orb_false_iff, !bool_decide_eq_false in *. destruct_and!.
  match goal with Hv : ValidateDomainPagePack pack = Ok ?u |- _ => destruct u; unfold ValidateDomainPagePack in Hv; rename Hv into Hval end.
  inv_go. apply check_packed_Ok in Hval. apply read_pack_typed in Er. apply index_pack_elem in Hd as (q & Hq & <- & <-).
  rewrite list.Forall_forall in Hval, Er. destruct (Hval q Hq) as (E1 & E2 & E3). specialize (Er q Hq).
  split; [rewrite E1; by apply dec_stable|]. split; [rewrite E2; by apply dec_stable|done].
Qed.

(** ** Reading from the backend *)

Definition packs_ok (s : Session B) : Prop := ∀ id m, packs s !! id = Some m → pack_at (backend s) id m.

(** The session after a read: only the pack cache and the backend may differ. *)
Definition after_read (s s' : Session B) : Prop :=
  blob_le (backend s) (backend s') ∧ packs_ok s' ∧ pages s' = pages s ∧
  pagePacks s' = pagePacks s ∧ known s' = known s ∧ pendingPack s' = pendingPack s ∧ packID s' = packID s ∧
  packFlushed s' = packFlushed s.

Lemma after_read_refl s : packs_ok s → after_read s s.
Proof. intros Hp. by repeat split. Qed.

Lemma after_read_backend s b : blob_le (backend s) b → packs_ok s → after_read s (set_backend b s).
Proof. intros Hle Hp. split; [done|]. split; [|done]. intros id m Hm. eapply pack_at_le; [exact Hle|by apply Hp]. Qed.

Lemma get_spec s key x s' :
  blob_key key → packs_ok s → on_backend (blob_get key) s = (x, s') →
  after_read s s' ∧ packs s' = packs s ∧ ∀ body, x = Ok body → blob_contents (backend s') !! ObjectStore.key_value key = Some body.
Proof.
  intros Hk Hp. unfold on_backend. destruct (blob_get key (backend s)) as [y b] eqn:E. intros [= <- <-].
  destruct (blob_get_sound _ _ _ _ Hk E) as [Hc Hb]. split; [by apply after_read_backend|]. done.
Qed.

Lemma get_found s key body x s' :
  blob_key key → blob_contents (backend s) !! ObjectStore.key_value key = Some body →
  on_backend (blob_get key) s = (x, s') → x = Ok body ∨ ∃ e, x = Err e ∧ blob_outage e.
Proof.
  intros Hk Hb. unfold on_backend. destruct (blob_get key (backend s)) as [y b] eqn:E. intros [= <- _].
  by eapply blob_get_exact.
Qed.

Lemma loadPack_spec s id x s' :
  packs_ok s → loadPack None reference packKey id s = (x, s') →
  after_read s s' ∧ ∀ m, x = Ok m → pack_at (backend s') id m.
Proof.
  intros Hp E. unfold loadPack in E. destruct (packs s !! id) as [m|] eqn:Em.
  { injection E as <- <-. split; [by apply after_read_refl|]. intros ? [= <-]. by apply Hp. }
  apply gom_bind_inv in E as (u & s1 & E1 & E). apply lift_inv in E1 as [-> ->].
  apply gom_bind_inv in E as (k & s1 & E1 & E). apply lift_inv in E1 as [-> ->].
  destruct (packKey id) as [key|e] eqn:Ek; [|destruct E as [-> ->]; by split; [apply after_read_refl|]].
  apply gom_bind_inv in E as (y & s1 & E1 & E). destruct (get_spec _ _ _ _ (packKey_blob _ _ Ek) Hp E1) as (Ha & Hpk & Hb).
  destruct y as [body|e]; [|by destruct E as [-> ->]]. specialize (Hb body eq_refl).
  apply gom_bind_inv in E as (z & s2 & E2 & E). apply lift_inv in E2 as [-> ->].
  destruct (DecodeDomainPagePack _ _ _ _ _) as [decoded|e] eqn:Ed; [|by destruct E as [-> ->]].
  assert (pack_at (backend s1) id (index_pack decoded)) as Hat by (by exists key, body, decoded).
  apply gom_bind_inv in E as (u & s2 & E2 & E). apply mret_inv in E2 as [-> ->]. apply mret_inv in E as [-> ->].
  destruct Ha as (Hc & Hp1 & H2 & H3 & H4 & H5 & H6 & H7). split.
  - split; [done|]. split; [|done]. intros id' m. cbn. rewrite lookup_insert. case_decide as Hid.
    + intros [= <-]. by subst.
    + apply Hp1.
  - intros ? [= <-]. done.
Qed.

Lemma loadPack_found s id m x s' :
  packs_ok s → pack_at (backend s) id m → loadPack None reference packKey id s = (x, s') →
  x = Ok m ∨ ∃ e, x = Err e ∧ blob_outage e.
Proof.
  intros Hp Hat E. unfold loadPack in E. destruct (packs s !! id) as [m'|] eqn:Em.
  { injection E as <- _. left. by rewrite (pack_at_unique _ _ _ _ Hat (Hp _ _ Em)). }
  destruct Hat as (key & body & pack & Hk & Hb & Hd & ->).
  apply gom_bind_inv in E as (u & s1 & E1 & E). apply lift_inv in E1 as [-> ->].
  apply gom_bind_inv in E as (k & s1 & E1 & E). apply lift_inv in E1 as [-> ->]. rewrite Hk in E.
  apply gom_bind_inv in E as (y & s1 & E1 & E).
  destruct (get_found _ _ _ _ _ (packKey_blob _ _ Hk) Hb E1) as [->|(e & -> & ?)]; [|destruct E as [-> _]; eauto].
  apply gom_bind_inv in E as (z & s2 & E2 & E). apply lift_inv in E2 as [-> ->]. rewrite Hd in E.
  apply gom_bind_inv in E as (u & s2 & E2 & E). apply mret_inv in E2 as [-> ->]. apply mret_inv in E as [-> _]. by left.
Qed.

Lemma fetch_page_spec s root x s' :
  packs_ok s → fetch_page None reference pageKey packKey root s = (x, s') →
  after_read s s' ∧ ∀ p, x = Ok p → Page_DomainID p = Ref_ID reference → Page_Kind p = Ref_Kind reference →
    page_ok p (Root_Digest root) → stored (backend s') (Root_Digest root) (Root_PackID root) p.
Proof.
  intros Hp E. unfold fetch_page, stored in *. case_bool_decide as Hid.
  - apply gom_bind_inv in E as (y & s1 & E1 & E). destruct (loadPack_spec _ _ _ _ Hp E1) as [Ha Hm].
    destruct y as [m|e]; [|by destruct E as [-> ->]]. specialize (Hm m eq_refl).
    destruct (m !! Root_Digest root) as [p|] eqn:Em; [|by injection E as <- <-].
    apply mret_inv in E as [-> ->]. split; [done|]. intros ? [= <-] _ _ _. split; [by eapply pack_at_bound|eauto].
  - apply gom_bind_inv in E as (k & s1 & E1 & E). apply lift_inv in E1 as [-> ->].
    destruct (pageKey (Root_Digest root)) as [key|e] eqn:Ek; [|destruct E as [-> ->]; by split; [apply after_read_refl|]].
    apply gom_bind_inv in E as (y & s1 & E1 & E). destruct (get_spec _ _ _ _ (pageKey_blob _ _ Ek) Hp E1) as (Ha & _ & Hb).
    destruct y as [body|e]; [|by destruct E as [-> ->]]. apply lift_inv in E as [-> ->]. split; [done|].
    intros p Ed ? ? ?. split; [|by exists key, body; auto]. split; [done|]. split; [done|]. split; [done|]. by eapply decode_typed.
Qed.

Lemma fetch_page_found s root p x s' :
  packs_ok s → stored (backend s) (Root_Digest root) (Root_PackID root) p →
  fetch_page None reference pageKey packKey root s = (x, s') → x = Ok p ∨ ∃ e, x = Err e ∧ blob_outage e.
Proof.
  intros Hp [_ Hs] E. unfold fetch_page in E. case_bool_decide as Hid.
  - destruct Hs as (m & Hm & Hd). apply gom_bind_inv in E as (y & s1 & E1 & E).
    destruct (loadPack_found _ _ _ _ _ Hp Hm E1) as [->|(e & -> & ?)]; [|destruct E as [-> _]; eauto].
    rewrite Hd in E. apply mret_inv in E as [-> _]. by left.
  - destruct Hs as (key & body & Hk & Hb & Hd). apply gom_bind_inv in E as (k & s1 & E1 & E). apply lift_inv in E1 as [-> ->].
    rewrite Hk in E. apply gom_bind_inv in E as (y & s1 & E1 & E).
    destruct (get_found _ _ _ _ _ (pageKey_blob _ _ Hk) Hb E1) as [->|(e & -> & ?)]; [|destruct E as [-> _]; eauto].
    apply lift_inv in E as [-> _]. left. exact Hd.
Qed.

(** ** What a session resolves *)

(** A reference names a stored page, or one that waits in the pending pack. *)
Definition backed (s : Session B) (d id : gostring) (p : DomainPage) : Prop :=
  stored (backend s) d id p ∨ (id = packID s ∧ id ≠ [] ∧ pendingPack s !! d = Some p ∧ bound_page p d).

#[export] Instance session_pages : PageStore (Session B) := session_store None reference pageKey packKey.

Record session_inv (s : Session B) : Prop := {
  si_pages d p : pages s !! d = Some p → backed s d (default [] (pagePacks s !! d)) p;
  si_pending d p : pendingPack s !! d = Some p →
    bound_page p d ∧ pages s !! d = Some p ∧ pagePacks s !! d = Some (packID s);
  si_unnamed : packID s = [] → pendingPack s = ∅;
  si_flushed d p : packFlushed s = true → pendingPack s !! d = Some p → stored (backend s) d (packID s) p;
  si_packs : packs_ok s;
  si_known : known s = ∅;
}.

Definition session_le (s s' : Session B) : Prop := blob_le (backend s) (backend s').
#[export] Instance session_le_preorder : PreOrder session_le.
Proof. unfold session_le. split; [intros s; reflexivity|]. intros x y z ??. by etrans. Qed.

#[export] Instance session_view : PageView (Session B) :=
  {| ps_inv := session_inv; resolve := backed; ps_outage := blob_outage; ps_step := session_le |}.

Lemma backed_bound s d id p : backed s d id p → bound_page p d.
Proof. intros [[? _]|(_ & _ & _ & ?)]; done. Qed.

Lemma backed_ok s d id p : backed s d id p → page_ok p d ∧ page_typed p.
Proof. intros (_ & _ & ? & ?)%backed_bound. done. Qed.

(** A fresh session over any backend. *)
Lemma session_inv_new b : session_inv (newSession b).
Proof. split; cbn; intros *; by rewrite ?lookup_empty. Qed.

Lemma session_inv_packed b seed : session_inv (set_packedWrites seed (newSession b)).
Proof. split; cbn; intros *; by rewrite ?lookup_empty. Qed.

(** What every operation does to the references. *)
Record session_step (s s' : Session B) : Prop := {
  ss_inv : session_inv s';
  ss_blobs : blob_le (backend s) (backend s');
  ss_pack : packID s = [] ∨ packID s' = packID s;
  ss_pending : pendingPack s ⊆ pendingPack s';
}.

Lemma step_backed s s' d id p :
  blob_le (backend s) (backend s') → packID s = [] ∨ packID s' = packID s → pendingPack s ⊆ pendingPack s' →
  backed s d id p → backed s' d id p.
Proof.
  intros Hb Hp Hpd [?|(-> & Hne & Hd & Hbd)]; [left; by eapply stored_le|]. destruct Hp as [?|Hp]; [done|].
  right. rewrite Hp. split; [done|]. split; [done|]. split; [by eapply lookup_weaken|done].
Qed.

Lemma session_step_grows s s' : session_step s s' → grows s s'.
Proof. intros [Hi Hb Hp Hpd]. split; [done|]. split; [done|]. intros d id p. by apply step_backed. Qed.

Lemma session_step_refl s : session_inv s → session_step s s.
Proof. intros Hi. split; [done|reflexivity|by right|done]. Qed.

Lemma session_step_trans s s' s'' : session_step s s' → session_step s' s'' → session_step s s''.
Proof.
  intros [I B1 P Pd] [I' B1' P' Pd']. split; [done|by etrans| |by etrans].
  destruct P as [?|E]; [by left|]. destruct P' as [?|E']; [left; congruence|right; congruence].
Qed.

(** Steps that touch neither the cached pages nor the pending pack. *)
Lemma same_step s s' :
  session_inv s → blob_le (backend s) (backend s') → packs_ok s' → pages s' = pages s → pagePacks s' = pagePacks s →
  known s' = known s → pendingPack s' = pendingPack s → packID s = [] ∨ packID s' = packID s →
  (packFlushed s' = true → packFlushed s = true) → session_step s s'.
Proof.
  intros [I1 I2 I3 I4 I5 I6] Hb Hp E1 E2 E3 E4 E5 E6. split; [|done|done|by rewrite E4].
  assert (∀ d id p, backed s d id p → backed s' d id p) as Hk by (intros *; apply step_backed; [done|done|by rewrite E4]).
  split; [..|done|congruence].
  - intros d p. rewrite E1, E2. intros Hd. by apply Hk, I1.
  - intros d p. rewrite E4. intros Hd. destruct E5 as [En| E5].
    + rewrite (I3 En) in Hd. by rewrite lookup_empty in Hd.
    + rewrite E1, E2, E5. by apply I2.
  - intros E. rewrite E4. apply I3. destruct E5; congruence.
  - intros d p Hf. rewrite E4. intros Hd. destruct E5 as [En| ->]; [|by eapply stored_le; [|apply I4; auto]].
    rewrite (I3 En) in Hd. by rewrite lookup_empty in Hd.
Qed.

Lemma after_read_step s s' : session_inv s → after_read s s' → session_step s s'.
Proof.
  intros Hi (Hc & Hp & E1 & E2 & E3 & E4 & E5 & E6). apply same_step; try done.
  - by right.
  - by rewrite E6.
Qed.

Lemma cache_step s d id p :
  session_inv s → pendingPack s !! d = None → backed s d id p → session_step s (cache_page d id p s).
Proof.
  intros Hi Hn Hbk. destruct Hi as [I1 I2 I3 I4 I5 I6]. split; [|reflexivity|by right|done].
  split; [..|done|done|done|done].
  - intros d' p'. cbn. rewrite !lookup_insert. case_decide as Hd.
    + intros [= <-]. subst. cbn. exact Hbk.
    + intros Hp. apply (I1 _ _ Hp).
  - intros d' p'. cbn. rewrite !lookup_insert. case_decide as Hd; [subst; by rewrite Hn|]. apply I2.
Qed.

(** ** Reading a page *)

Lemma cached_page_inv s root p : session_inv s → cached_page root s = Some p → ∃ id, backed s (Root_Digest root) id p.
Proof.
  intros Hi. unfold cached_page. destruct (pages s !! Root_Digest root) as [q|] eqn:E.
  { intros [= <-]. eexists. by apply (si_pages _ Hi). }
  destruct (bool_decide (Root_PackID root ≠ []) && _) eqn:Eb; [|done].
  rewrite andb_true_iff, !bool_decide_eq_true in Eb. destruct Eb as [Hne Heq]. intros Hp.
  exists (packID s). right. split; [done|]. split; [congruence|]. split; [done|]. by apply (si_pending _ Hi).
Qed.

Lemma uncached_pending s d : session_inv s → pages s !! d = None → pendingPack s !! d = None.
Proof. intros Hi Hn. destruct (pendingPack s !! d) as [q|] eqn:E; [|done]. apply (si_pending _ Hi) in E. destruct_and!. congruence. Qed.

Lemma session_read_spec s r x s' :
  session_inv s → session_readPage None reference pageKey packKey r s = (x, s') →
  session_step s s' ∧ pendingPack s' = pendingPack s ∧
  ∀ p, x = Ok p → verifyConsistencyDomainPageRef p r = Ok tt ∧ ∃ id, backed s' (Root_Digest (ref_root r)) id p.
Proof.
  intros Hi E. unfold session_readPage in E. pose proof (session_step_refl s Hi) as Hs0.
  apply gom_bind_inv in E as (u & s1 & E1 & E). apply lift_inv in E1 as [-> ->].
  case_bool_decide as Hd; cbn [guard_err] in E; [by destruct E as [-> ->]|].
  apply gom_bind_inv in E as (y & s1 & E1 & E). apply mret_inv in E1 as [-> ->].
  destruct (cached_page (ref_root r) s) as [p|] eqn:Ec.
  { apply gom_bind_inv in E as (v & s1 & E1 & E). apply lift_inv in E1 as [-> ->].
    destruct (verifyConsistencyDomainPageRef p r) as [[]|e] eqn:Ev; [|by destruct E as [-> ->]].
    apply mret_inv in E as [-> ->]. split; [done|]. split; [done|]. intros ? [= <-]. split; [done|]. by apply cached_page_inv. }
  apply gom_bind_inv in E as (y & s1 & E1 & E). destruct (fetch_page_spec _ _ _ _ (si_packs _ Hi) E1) as [Ha Hf].
  pose proof (after_read_step _ _ Hi Ha) as Hs1. pose proof Ha as (Hc & _ & _ & _ & _ & Hpd & Hpk & _).
  destruct y as [p|e]; [|by destruct E as [-> ->]].
  apply gom_bind_inv in E as (v & s2 & E2 & E). apply lift_inv in E2 as [-> ->].
  destruct (bool_decide (Page_DomainID p ≠ Ref_ID reference) || _) eqn:Eb; cbn [guard_err] in E; [by destruct E as [-> ->]|].
  rewrite orb_false_iff, !bool_decide_eq_false in Eb. destruct Eb as [Eid%dec_stable Ekd%dec_stable].
  apply gom_bind_inv in E as (v & s2 & E2 & E). apply lift_inv in E2 as [-> ->].
  destruct (ValidateDomainPage p _) as [[]|e] eqn:Ev; [|by destruct E as [-> ->]]. apply ValidateDomainPage_Ok in Ev.
  apply gom_bind_inv in E as (v & s2 & E2 & E). apply lift_inv in E2 as [-> ->].
  destruct (verifyConsistencyDomainPageRef p r) as [[]|e] eqn:Er; [|by destruct E as [-> ->]].
  apply gom_bind_inv in E as (v & s2 & E2 & E). apply mret_inv in E2 as [-> ->]. apply mret_inv in E as [-> ->].
  pose proof (Hf p eq_refl Eid Ekd Ev) as Hst. split; [|split; [done|]].
  - eapply session_step_trans; [exact Hs1|]. apply cache_step; [apply Hs1| |].
    + rewrite Hpd. apply (uncached_pending _ _ Hi). unfold cached_page in Ec. by destruct (pages s !! _).
    + by left.
  - intros ? [= <-]. split; [done|]. eexists. left. exact Hst.
Qed.

Lemma session_read_exact s r p x s' :
  session_inv s → refers s r p → session_readPage None reference pageKey packKey r s = (x, s') →
  no_collision s' → x = Ok p ∨ ∃ e, x = Err e ∧ blob_outage e.
Proof.
  intros Hi [Hres Hv] E Hn. destruct (session_read_spec _ _ _ _ Hi E) as (Hstep & _ & Hread).
  destruct x as [q|e].
  { left. f_equal. destruct (Hread q eq_refl) as [_ (id & Hq)]. eapply Hn; [exact Hq|]. by apply (session_step_grows _ _ Hstep). }
  right. exists e. split; [done|]. destruct (backed_ok _ _ _ _ Hres) as [Hok Hty].
  assert (Root_Digest (ref_root r) ≠ []) as Hd.
  { intros Ed. destruct (po_digest _ _ Hok) as [_ Hd]. by rewrite Ed in Hd. }
  unfold session_readPage in E. apply gom_bind_inv in E as (u & s1 & E1 & E). apply lift_inv in E1 as [-> ->].
  rewrite bool_decide_eq_false_2 in E by done. cbn [guard_err] in E.
  apply gom_bind_inv in E as (y & s1 & E1 & E). apply mret_inv in E1 as [-> ->].
  destruct (cached_page (ref_root r) s) as [q|] eqn:Ec.
  { exfalso. destruct (cached_page_inv _ _ _ Hi Ec) as (id & Hq). apply gom_bind_inv in E as (v & s1 & E1 & E).
    apply lift_inv in E1 as [-> ->].
    assert (no_collision s) as Hns by (eapply no_collision_extends; [apply (session_step_grows _ _ Hstep)|done]).
    assert (q = p) as -> by (eapply Hns; [exact Hq|exact Hres]). rewrite Hv in E. by apply mret_inv in E as [? _]. }
  assert (stored (backend s) (Root_Digest (ref_root r)) (Root_PackID (ref_root r)) p) as Hst.
  { destruct Hres as [?|(Hid & Hne & Hpd & _)]; [done|]. unfold cached_page in Ec.
    destruct (pages s !! Root_Digest (ref_root r)); [done|]. rewrite !bool_decide_eq_true_2 in Ec by done. cbn in Ec. congruence. }
  apply gom_bind_inv in E as (y & s1 & E1 & E).
  destruct (fetch_page_found _ _ _ _ _ (si_packs _ Hi) Hst E1) as [->|(e' & -> & ?)]; [|by destruct E as [[= ->] _]].
  exfalso. destruct Hst as [(Eid & Ekd & _ & _) _].
  apply gom_bind_inv in E as (v & s2 & E2 & E). apply lift_inv in E2 as [-> ->].
  rewrite !bool_decide_eq_false_2 in E by (intros Hne; by apply Hne). cbn [orb guard_err] in E.
  apply gom_bind_inv in E as (v & s2 & E2 & E). apply lift_inv in E2 as [-> ->].
  rewrite (proj2 (ValidateDomainPage_Ok _ _) Hok) in E.
  apply gom_bind_inv in E as (v & s2 & E2 & E). apply lift_inv in E2 as [-> ->]. rewrite Hv in E.
  apply gom_bind_inv in E as (v & s2 & E2 & E). apply mret_inv in E2 as [-> ->]. by apply mret_inv in E as [? _].
Qed.

(** ** Writing a page *)

Lemma descriptor_with_pack p d id r :
  consistencyDomainPageDescriptor p d [] = Ok r → consistencyDomainPageDescriptor p d id = Ok (with_pack r id).
Proof.
  unfold consistencyDomainPageDescriptor. destruct (Page_Level p =? 0).
  - destruct (sum_values 0 (Page_Entries p)); [|done]. cbn [mbind result_bind]. by intros [= <-].
  - destruct (Page_Children p) as [|c cs]; [done|]. destruct (last (c :: cs)); [|done].
    destruct (sum_children 0 0 (c :: cs)) as [[n b]|]; [|done]. cbn [mbind result_bind]. by intros [= <-].
Qed.

Lemma descriptor_root p d id r :
  consistencyDomainPageDescriptor p d id = Ok r → Root_Digest (ref_root r) = d ∧ Root_PackID (ref_root r) = id.
Proof.
  unfold consistencyDomainPageDescriptor. destruct (Page_Level p =? 0).
  - destruct (sum_values 0 (Page_Entries p)); [|done]. cbn [mbind result_bind]. by intros [= <-].
  - destruct (Page_Children p) as [|c cs]; [done|]. destruct (last (c :: cs)); [|done].
    destruct (sum_children 0 0 (c :: cs)) as [[n b]|]; [|done]. cbn [mbind result_bind]. by intros [= <-].
Qed.

Lemma ensure_spec s d x s' :
  session_inv s → session_ensurePackID reference d s = (x, s') →
  session_step s s' ∧ ∀ id, x = Ok id → id ≠ [] → id = packID s'.
Proof.
  intros Hi E. unfold session_ensurePackID in E. apply gom_bind_inv in E as (y & s1 & E1 & E). apply mret_inv in E1 as [-> ->].
  pose proof (session_step_refl s Hi) as Hs0.
  case_bool_decide as Hid; [apply mret_inv in E as [-> ->]; split; [done|]; by intros ? [= <-]|].
  destruct (packedWrites s); cbn [negb] in E; [|apply mret_inv in E as [-> ->]; split; [done|]; by intros ? [= <-]].
  apply gom_bind_inv in E as (u & s1 & E1 & E). apply lift_inv in E1 as [-> ->].
  case_bool_decide; cbn [guard_err] in E; [by destruct E as [-> ->]|].
  apply gom_bind_inv in E as (v & s2 & E2 & E). apply mret_inv in E2 as [-> ->]. apply mret_inv in E as [-> ->].
  rename Hid into Hn.
  split; [|by intros ? [= <-] _]. apply same_step; try done.
  - apply (si_packs _ Hi).
  - cbn. by rewrite (si_unnamed _ Hi Hn).
  - by left.
Qed.

Lemma ensure_pending s d d' x s' :
  session_inv s → session_ensurePackID reference d s = (x, s') → pendingPack s !! d' = None → pendingPack s' !! d' = None.
Proof.
  intros Hi E Hn. unfold session_ensurePackID in E. apply gom_bind_inv in E as (y & s1 & E1 & E). apply mret_inv in E1 as [-> ->].
  case_bool_decide; [by apply mret_inv in E as [_ ->]|]. destruct (packedWrites s); cbn [negb] in E; [|by apply mret_inv in E as [_ ->]].
  apply gom_bind_inv in E as (u & s1 & E1 & E). apply lift_inv in E1 as [-> ->].
  case_bool_decide; cbn [guard_err] in E; [by destruct E as [-> ->]|].
  apply gom_bind_inv in E as (v & s2 & E2 & E). apply mret_inv in E2 as [-> ->]. apply mret_inv in E as [-> ->]. apply lookup_empty.
Qed.

Lemma create_spec s key body collision x s' :
  session_inv s → blob_key key → create_or_match key body collision s = (x, s') →
  session_step s s' ∧ pages s' = pages s ∧ pagePacks s' = pagePacks s ∧ pendingPack s' = pendingPack s ∧ packID s' = packID s ∧
  ∀ u, x = Ok u → blob_contents (backend s') !! ObjectStore.key_value key = Some body.
Proof.
  intros Hi Hk. unfold create_or_match, on_backend at 1. destruct (blob_create key body (backend s)) as [y b] eqn:Ec.
  destruct (blob_create_sound _ _ _ _ _ Hk Ec) as [Hle Hc].
  assert (session_step s (set_backend b s)) as Hs1.
  { apply same_step; try done; [|by right]. intros id m Hm. eapply pack_at_le; [exact Hle|]. by apply (si_packs _ Hi). }
  destruct y as [u|e].
  { intros E. injection E as <- <-. do 5 (split; [done|]). intros _ _. by apply (Hc u). }
  intros E. apply gom_bind_inv in E as (u & s1 & E1 & E). apply lift_inv in E1 as [-> ->].
  destruct (negb (errors_Is e ErrConflict)); cbn [guard_err] in E; [by destruct E as [-> ->]|].
  apply gom_bind_inv in E as (y & s1 & E1 & E).
  destruct (get_spec _ _ _ _ Hk (si_packs _ (ss_inv _ _ Hs1)) E1) as (Ha & _ & Hb).
  pose proof (session_step_trans _ _ _ Hs1 (after_read_step _ _ (ss_inv _ _ Hs1) Ha)) as Hs2.
  destruct Ha as (_ & _ & E3 & E4 & _ & E5 & E6 & _).
  destruct y as [existing|e']; [|by destruct E as [-> ->]]. apply lift_inv in E as [-> ->].
  case_bool_decide as Hne; cbn [guard_err]; [done|]. do 5 (split; [done|]). intros _ _.
  subst existing. by apply Hb.
Qed.

Lemma page_at_written s key p d :
  page_ok p d → page_typed p → pageKey d = Ok key → blob_contents (backend s) !! ObjectStore.key_value key = Some (json_page p) →
  page_at (backend s) d p.
Proof.
  intros Hok Hty Hk Hb. exists key, (json_page p). split; [done|]. split; [done|].
  apply decode_complete; [by eapply page_ok_text|apply (po_body _ _ Hok)].
Qed.

Lemma pending_page_step s d p :
  session_inv s → packID s ≠ [] → packFlushed s = false → bound_page p d → pendingPack s !! d = None →
  session_step s (cache_page d (packID s) p (set_packID (packID s) (<[d := p]> (pendingPack s)) s)).
Proof.
  intros Hi Hne Hfl Hbd Hn. destruct Hi as [I1 I2 I3 I4 I5 I6].
  assert (pendingPack s ⊆ <[d := p]> (pendingPack s)) as Hsub by (by apply insert_subseteq).
  split; [|reflexivity|by right|done]. split; cbn; [..|done|done].
  - intros d' p'. rewrite !lookup_insert. case_decide as Hd.
    + intros [= <-]. subst. right. split; [done|]. split; [done|]. split; [|done]. cbn. by rewrite lookup_insert_eq.
    + intros Hp. apply (step_backed s); [reflexivity|by right|exact Hsub|]. by apply I1.
  - intros d' p'. rewrite lookup_insert. case_decide as Hd.
    + intros [= <-]. subst. by rewrite !lookup_insert_eq.
    + rewrite !lookup_insert_ne by done. apply I2.
  - intros ?. done.
  - intros ? ?. by rewrite Hfl.
Qed.

Lemma publish_spec s p d body r x s' :
  session_inv s → page_ok p d → page_typed p → body = json_page p → pendingPack s !! d = None →
  Page_DomainID p = Ref_ID reference → Page_Kind p = Ref_Kind reference →
  consistencyDomainPageDescriptor p d [] = Ok r →
  publish_page reference pageKey p d body r s = (x, s') →
  session_step s s' ∧ ∀ r', x = Ok r' → Root_Digest (ref_root r') = d ∧
    consistencyDomainPageDescriptor p d (Root_PackID (ref_root r')) = Ok r' ∧ backed s' d (Root_PackID (ref_root r')) p.
Proof.
  intros Hi Hok Hty -> Hn Hid Hk Hd E. unfold publish_page in E.
  apply gom_bind_inv in E as (y & s1 & E1 & E). destruct (ensure_spec _ _ _ _ Hi E1) as [Hs1 Heq].
  destruct (descriptor_root _ _ _ _ Hd) as [Hroot Hpack]. pose proof (ss_inv _ _ Hs1) as Hi1.
  assert (pendingPack s1 !! d = None) as Hn1 by exact (ensure_pending _ _ _ _ _ Hi E1 Hn).
  destruct y as [id|e]; [|by destruct E as [-> ->]]. case_bool_decide as Hne.
  - apply gom_bind_inv in E as (y & s2 & E2 & E). apply mret_inv in E2 as [-> ->].
    apply gom_bind_inv in E as (u & s2 & E2 & E). apply lift_inv in E2 as [-> ->].
    destruct (packFlushed s1) eqn:Ef; cbn [guard_err] in E; [by destruct E as [-> ->]|].
    apply gom_bind_inv in E as (v & s2 & E2 & E). apply mret_inv in E2 as [-> ->]. apply mret_inv in E as [-> ->].
    specialize (Heq id eq_refl Hne) as ->. assert (bound_page p d) as Hbd by done.
    pose proof (pending_page_step s1 d p Hi1 Hne Ef Hbd Hn1) as Hs2. split; [by eapply session_step_trans|].
    intros ? [= <-]. cbn. split; [done|]. split; [by apply descriptor_with_pack|]. right. cbn. by rewrite lookup_insert_eq.
  - apply gom_bind_inv in E as (y & s2 & E2 & E). apply lift_inv in E2 as [-> ->].
    destruct (pageKey d) as [key|e] eqn:Ek; [|by destruct E as [-> ->]].
    apply gom_bind_inv in E as (y & s2 & E2 & E). destruct (create_spec _ _ _ _ _ _ Hi1 (pageKey_blob _ _ Ek) E2) as (Hs2 & _ & _ & Epd & _ & Hb).
    assert (session_step s s2) as Hs12 by (by eapply session_step_trans).
    destruct y as [u|e]; [|by destruct E as [-> ->]].
    apply gom_bind_inv in E as (v & s3 & E3 & E). apply mret_inv in E3 as [-> ->]. apply mret_inv in E as [-> ->].
    assert (stored (backend s2) d [] p) as Hst by (split; [done|]; cbn; eapply page_at_written; eauto).
    split; [eapply session_step_trans; [exact Hs12|]; apply cache_step; [apply Hs2|congruence|by left]|].
    intros ? [= <-]. split; [done|]. rewrite Hpack. split; [done|]. by left.
Qed.

Lemma session_write_spec s p x s' :
  session_inv s → page_typed p → Page_DomainID p = Ref_ID reference → Page_Kind p = Ref_Kind reference →
  session_writePage reference pageKey p s = (x, s') →
  session_step s s' ∧ ∀ r, x = Ok r → 
    backed s' (Root_Digest (ref_root r)) (Root_PackID (ref_root r)) p ∧
    consistencyDomainPageDescriptor p (Root_Digest (ref_root r)) (Root_PackID (ref_root r)) = Ok r.
Proof.
  intros Hi Hty Hid Hk E. unfold session_writePage in E. pose proof (session_step_refl s Hi) as Hs0.
  apply gom_bind_inv in E as (y & s1 & E1 & E). apply lift_inv in E1 as [-> ->].
  destruct (EncodeCanonical (json_page p)) as [body|e] eqn:Eb; [|by destruct E as [-> ->]].
  pose proof Eb as [-> _]%EncodeCanonical_Ok. set (d := Digest (json_page p)) in *.
  apply gom_bind_inv in E as (y & s1 & E1 & E). apply lift_inv in E1 as [-> ->].
  destruct (ValidateDomainPage p d) as [[]|e] eqn:Ev; [|by destruct E as [-> ->]]. apply ValidateDomainPage_Ok in Ev.
  apply gom_bind_inv in E as (y & s1 & E1 & E). apply mret_inv in E1 as [-> ->].
  assert (∀ r, consistencyDomainPageDescriptor p d [] = Ok r → pendingPack s !! d = None →
    publish_page reference pageKey p d (json_page p) r s = (x, s') →
    session_step s s' ∧ ∀ r, x = Ok r →
      backed s' (Root_Digest (ref_root r)) (Root_PackID (ref_root r)) p ∧
      consistencyDomainPageDescriptor p (Root_Digest (ref_root r)) (Root_PackID (ref_root r)) = Ok r) as Hpub.
  { intros r Hd Hn Ep. destruct (publish_spec _ _ _ _ _ _ _ Hi Ev Hty eq_refl Hn Hid Hk Hd Ep) as [Hs Hr]. split; [done|].
    intros r' Ex. destruct (Hr r' Ex) as (-> & ? & ?). auto. }
  destruct (pages s !! d) as [cached|] eqn:Ec.
  - pose proof (si_pages _ Hi _ _ Ec) as Hbk. destruct (negb (forcePack s) || _) eqn:Ef.
    + apply gom_bind_inv in E as (y & s1 & E1 & E). apply lift_inv in E1 as [-> ->].
      destruct (EncodeCanonical (json_page cached)) as [cachedBody|] eqn:Ecb; cbn [guard_err] in E; [|by destruct E as [-> ->]].
      apply EncodeCanonical_Ok in Ecb as [-> _].
      case_bool_decide as Hne; cbn [guard_err] in E; [by destruct E as [-> ->]|].
      apply lift_inv in E as [-> ->]. split; [done|]. intros r Hr.
      destruct (descriptor_root _ _ _ _ Hr) as [-> ->]. split; [|done].
      assert (cached = p) as <-; [|done]. destruct (backed_ok _ _ _ _ Hbk) as [Hok' Hty'].
      eapply json_page_inj; [by eapply page_ok_text|by eapply page_ok_text|done].
    + apply gom_bind_inv in E as (y & s1 & E1 & E). apply lift_inv in E1 as [-> ->].
      destruct (consistencyDomainPageDescriptor p d []) as [r|e]; [|by destruct E as [-> ->]]. apply (Hpub r); [done| |done].
      destruct (pendingPack s !! d) as [q|] eqn:Eq; [|done]. apply (si_pending _ Hi) in Eq as Hq. destruct Hq as (_ & _ & Hq).
      rewrite Hq in Ef. cbn in Ef. rewrite orb_false_iff, andb_false_iff, !bool_decide_eq_false in Ef.
      destruct Ef as [_ [Ef|Ef]]; [done|]. apply dec_stable in Ef. by rewrite (si_unnamed _ Hi Ef), lookup_empty in Eq.
  - pose proof (uncached_pending _ _ Hi Ec) as Hn.
    apply gom_bind_inv in E as (y & s1 & E1 & E). apply lift_inv in E1 as [-> ->].
    destruct (consistencyDomainPageDescriptor p d []) as [r|e] eqn:Ed; [|by destruct E as [-> ->]].
    rewrite (si_known _ Hi), lookup_empty in E. by apply (Hpub r).
Qed.

(** ** Describing a page to its parent *)

Definition with_filter (r : domainPageRef) (f : gostring) : domainPageRef :=
  {| ref_root := ref_root r; ref_firstKey := ref_firstKey r; ref_lastKey := ref_lastKey r; ref_leafKeyFilter := f |}.

Lemma verify_no_filter p r : verifyConsistencyDomainPageRef p r = Ok tt → verifyConsistencyDomainPageRef p (with_filter r []) = Ok tt.
Proof. rewrite !verify_Ok. intros (a & ? & ? & ? & ? & _). exists a. do 4 (split; [done|]). by left. Qed.

Lemma verify_leaf_filter p r :
  Root_Level (ref_root r) = 0 → verifyConsistencyDomainPageRef p r = Ok tt →
  verifyConsistencyDomainPageRef p (with_filter r (DomainLeafKeyFilter (map Entry_Key (Page_Entries p)))) = Ok tt.
Proof.
  intros Hl. rewrite !verify_Ok. intros (a & Ha & Hr & ? & ? & _). exists a. do 4 (split; [done|]). right. cbn [ref_leafKeyFilter with_filter].
  assert (∀ x, consistencyDomainPageDescriptor p (Root_Digest (ref_root r)) (Root_PackID (ref_root r)) = Ok x →
            Root_Level (ref_root x) = Page_Level p) as Hlv.
  { intros x. unfold consistencyDomainPageDescriptor. destruct (Page_Level p =? 0).
    - destruct (sum_values 0 (Page_Entries p)); [|done]. cbn [mbind result_bind]. by intros [= <-].
    - destruct (Page_Children p) as [|c cs]; [done|]. destruct (last (c :: cs)); [|done].
      destruct (sum_children 0 0 (c :: cs)) as [[n b]|]; [|done]. cbn [mbind result_bind]. by intros [= <-]. }
  specialize (Hlv a Ha). rewrite Hr, Hl in Hlv. unfold consistencyDomainPageDescriptor in Ha.
  rewrite <-Hlv in Ha. cbn [Z.eqb] in Ha. destruct (sum_values 0 (Page_Entries p)); [|done].
  apply (f_equal (λ y, match y with Ok z => ref_leafKeyFilter z | Err _ => [] end)) in Ha.
  cbn [mbind result_bind ref_leafKeyFilter] in Ha. done.
Qed.

Lemma page_child_spec s r x s' :
  session_inv s → session_pageChild r s = (x, s') →
  s' = s ∧ ∀ c, x = Ok c → child_root c = ref_root r ∧ Child_FirstKey c = ref_firstKey r ∧ Child_LastKey c = ref_lastKey r ∧
    ∀ p, refers s r p → ∃ p', refers s (child_ref c) p'.
Proof.
  intros Hi E. unfold session_pageChild in E. apply gom_bind_inv in E as (y & s1 & E1 & E). apply mret_inv in E1 as [-> ->].
  apply gom_bind_inv in E as (f & s1 & E1 & E).
  assert (s1 = s ∧ ∀ g, f = Ok g → (∀ p, refers s r p → ∃ p', refers s (with_filter r g) p')) as [-> Hf].
  { destruct (bool_decide (preparationSeed s ≠ []) && _ && _).
    { apply mret_inv in E1 as [-> ->]. split; [done|]. intros ? [= <-] p [Hp Hv]. exists p. split; [done|]. by apply verify_no_filter. }
    destruct (bool_decide (preparationSeed s ≠ []) && (Root_Level (ref_root r) =? 0) && _ && _) eqn:Eg.
    - rewrite !andb_true_iff, Z.eqb_eq, !bool_decide_eq_true in Eg. destruct Eg as [[[_ Hl] Hne] Hempty].
      destruct (packs s !! Root_PackID (ref_root r)) as [m|] eqn:Em; [|].
      2:{ apply mret_inv in E1 as [-> ->]. split; [done|]. intros ? [= <-] p Hp. exists p. by destruct r. }
      destruct (m !! Root_Digest (ref_root r)) as [page|] eqn:Epg.
      2:{ apply mret_inv in E1 as [-> ->]. split; [done|]. intros ? [= <-] p Hp. exists p. by destruct r. }
      apply gom_bind_inv in E1 as (v & s2 & E2 & E1). apply lift_inv in E2 as [-> ->].
      destruct (verifyConsistencyDomainPageRef page r) as [[]|e] eqn:Ev; [|by destruct E1 as [-> ->]].
      apply mret_inv in E1 as [-> ->]. split; [done|]. intros ? [= <-] p _. exists page. split; [|by apply verify_leaf_filter].
      left. split; [eapply pack_at_bound; [by apply (si_packs _ Hi)|done]|]. cbn. rewrite bool_decide_eq_true_2 by done.
      exists m. split; [by apply (si_packs _ Hi)|done].
    - apply mret_inv in E1 as [-> ->]. split; [done|]. intros ? [= <-] p Hp. exists p. by destruct r. }
  destruct f as [g|e]; [|by destruct E as [-> ->]]. apply mret_inv in E as [-> ->]. split; [done|].
  intros ? [= <-]. split; [by destruct r as [[]]|]. split; [done|]. split; [done|]. intros p Hp.
  destruct (Hf g eq_refl p Hp) as (p' & Hp'). exists p'. destruct r as [[]]. exact Hp'.
Qed.

(** ** The laws *)

#[export] Instance session_read_laws : PageReadLaws (Session B).
Proof.
  split.
  - intros s d id p _. apply backed_ok.
  - intros s r p Hi Href x s' E. split; [|by apply (session_read_exact _ _ _ _ _ Hi Href E)].
    apply session_step_grows. destruct (session_read_spec _ _ _ _ Hi E) as [Hstep _]. exact Hstep.
  - intros s r x s' Hi E. destruct (session_read_spec _ _ _ _ Hi E) as (Hstep & _ & Hr). split; [by apply session_step_grows|].
    intros p ->. by apply Hr.
Qed.

#[export] Instance session_laws : PageStoreLaws (Session B).
Proof.
  split; [apply _|..].
  - intros s p x s' Hi Hty Hid Hk E. destruct (session_write_spec _ _ _ _ Hi Hty Hid Hk E) as [Hstep Hr].
    split; [by apply session_step_grows|done].
  - intros s d x s' Hi E. destruct (ensure_spec _ _ _ _ Hi E) as [Hstep _]. by apply session_step_grows.
  - intros s r x s' Hi E. destruct (page_child_spec _ _ _ _ Hi E) as [-> Hc]. split; [by apply grows_refl|done].
  - intros s b x s' Hi E. apply mret_inv in E as [-> ->]. split; [done|].
    apply session_step_grows, same_step; try done; [apply (si_packs _ Hi)|by right].
Qed.
End Laws.
End SessionLaws.
