(* ===== verification/PackTheory.v ===== *)
(** * Packs round-trip, and a flushed pack is durable

    What a session has flushed can be read by every other session. *)

From Stdlib Require Import ZArith Lia.
From S2P Require Import Prelude GoLib GoHash GoJSON GoTime Errors ObjectStore DomainPage DomainPageTheory DomainTree TreeTheory DomainPack DomainHead HeadTheory DomainSession SessionLaws.

Open Scope Z_scope.

Module PackTheory.
Import StorageFormat PageTheory DomainTree TreeTheory DomainPack DomainHead HeadTheory DomainSession SessionLaws.

(** ** The pack codec *)

Definition packed_text (q : DomainPackedPage) : Prop := ValidString (Packed_Digest q) = true ∧ page_text (Packed_Page q).

Definition pack_text (p : DomainPagePack) : Prop :=
  0 ≤ Pack_SchemaVersion p ≤ MaxInt64 ∧ ValidString (Pack_DomainID p) = true ∧ ValidString (Pack_Kind p) = true ∧
  ValidString (Pack_PackID p) = true ∧ Pack_Pages p ≠ [] ∧ Forall packed_text (Pack_Pages p).

Lemma read_packed_app q rest : packed_text q → read_packed (json_packed q ++ rest) = Some (q, rest).
Proof.
  intros [Hd Hp]. unfold read_packed, json_packed. rewrite json_object_more, step_open.
  erewrite step_first; [|by apply reads_string|done].
  rewrite more_cons, more_nil. erewrite read_comma_field by (by apply read_page_app).
  rewrite step_close. by destruct q.
Qed.

Lemma read_pack_whole p : pack_text p → read_pack (json_pack p) = Some (p, []).
Proof.
  intros (H1 & H2 & H3 & H4 & H5 & H6). rewrite <-(app_nil_r (json_pack p)). unfold read_pack, json_pack.
  rewrite bool_decide_eq_false_2 by done. rewrite json_object_more, step_open.
  erewrite step_first; [|by apply reads_upto|done].
  do 3 (rewrite more_cons; erewrite read_comma_field by (by apply read_string_app)).
  rewrite more_cons, more_nil. erewrite read_comma_field.
  2:{ eapply (read_array_app _ json_packed packed_text); [apply read_packed_app|by intros|done..]. }
  rewrite step_close. by destruct p.
Qed.

Section Packs.
Context `{SHA256} `{GZIP} `{!GZIPLaws}.

Lemma ValidateDomainPagePack_text pack u :
  ValidateDomainPagePack pack = Ok u → Forall (λ q, page_typed (Packed_Page q)) (Pack_Pages pack) → pack_text pack.
Proof.
  unfold ValidateDomainPagePack. intros E Hty. inv_go. destruct u.
  rewrite !orb_false_iff, !negb_false_iff, Z.eqb_eq, bool_decide_eq_false in *. destruct_and!.
  apply check_packed_Ok in E. split; [match goal with E1 : _ = 1 |- _ => rewrite E1 end; unfold MaxInt64; lia|].
  split; [by apply valid_text|]. split; [by apply kind_text|]. split; [by apply validDomainDigest_text|]. split; [done|].
  rewrite list.Forall_forall in *. intros q Hq. destruct (E q Hq) as (_ & _ & Hok). split.
  - destruct (po_digest _ _ Hok) as [_ Hd]. by apply validDomainDigest_text.
  - by eapply page_ok_text; [|apply Hty].
Qed.

(** Decoding what the encoder wrote gives the pages in digest order. *)
Lemma decode_encoded_pack ctx pack body decoded id kind packID :
  Forall (λ q, page_typed (Packed_Page q)) (Pack_Pages pack) →
  EncodeDomainPagePack pack = Ok body → DecodeDomainPagePack ctx body id kind packID = Ok decoded →
  Pack_Pages decoded = merge_sort packed_le (Pack_Pages pack).
Proof.
  intros Hty E D. unfold EncodeDomainPagePack, encodeValidatedDomainPagePack in E.
  set (sorted := {| Pack_SchemaVersion := _ |}) in E. inv_go. injection E as <-.
  match goal with Hv : ValidateDomainPagePack sorted = Ok _ |- _ =>
    apply ValidateDomainPagePack_text in Hv as Htext; [|by cbn; rewrite merge_sort_Permutation] end.
  rewrite !orb_false_iff, Z.eqb_neq, Z.ltb_ge in *. destruct_and!.
  unfold DecodeDomainPagePack, encodeDeterministicGZIP in D. inv_go.
  rewrite drop_app_length in *. rewrite gzip_roundtrip in * by lia. simplify_eq.
  rewrite read_pack_whole in D by done. inv_go.
  destruct (encodeValidatedDomainPagePack sorted); [|done]. inv_go. by injection D as <-.
Qed.

Lemma index_pack_lookup pack q :
  NoDup (map Packed_Digest (Pack_Pages pack)) → q ∈ Pack_Pages pack → index_pack pack !! Packed_Digest q = Some (Packed_Page q).
Proof.
  unfold index_pack. induction (Pack_Pages pack) as [|p l IH] using rev_ind; [by intros _ ?%not_elem_of_nil|].
  rewrite map_app, fold_left_app. cbn. intros (Hnd & Hdisj & _)%NoDup_app [Hq|Hq%list_elem_of_singleton]%elem_of_app.
  - rewrite lookup_insert_ne; [by apply IH|]. intros Eq. apply (Hdisj (Packed_Digest q)); [by apply list_elem_of_fmap_2|].
    rewrite <-Eq. by left.
  - subst q. by rewrite lookup_insert_eq.
Qed.
End Packs.

(** ** Flushing *)

Section Flush.
Context `{SHA256} `{GZIP} `{!GZIPLaws} {B : Type} `{!BlobStore B, !BlobView B, !BlobLaws B}.
Variables (reference : consistencyDomainRef) (pageKey packKey : gostring → res ObjectStore.Key).
Hypothesis pageKey_blob : ∀ d k, pageKey d = Ok k → blob_key k.
Hypothesis packKey_blob : ∀ d k, packKey d = Ok k → blob_key k.

Abbreviation inv := (session_inv reference pageKey packKey).
Abbreviation step := (session_step reference pageKey packKey).
Abbreviation in_store := (stored reference pageKey packKey).

(** The pages of the pending pack are stored. *)
Definition flushed (s : Session B) : Prop := ∀ d p, pendingPack s !! d = Some p → in_store (backend s) d (packID s) p.

Lemma flushed_step s m :
  inv s → pack_at reference packKey (backend s) (packID s) m →
  (∀ d p, pendingPack s !! d = Some p → in_store (backend s) d (packID s) p) →
  step s (set_flushed (packID s) m s).
Proof.
  intros [I1 I2 I3 I4 I5 I6] Hat Hst. split; [|cbn; reflexivity|by right|done]. split; try done.
  - cbn. auto.
  - intros id m'. cbn. rewrite lookup_insert. case_decide as Hid; [intros [= <-]; by subst|]. apply I5.
Qed.

Lemma flush_spec s x s' :
  inv s → flushPack None reference packKey s = (x, s') →
  step s s' ∧ pendingPack s' = pendingPack s ∧ packID s' = packID s ∧ ∀ u, x = Ok u → flushed s'.
Proof.
  intros Hi E. unfold flushPack in E. apply gom_bind_inv in E as (y & s1 & E1 & E). apply mret_inv in E1 as [-> ->].
  pose proof (session_step_refl _ _ _ s Hi) as Hs0.
  destruct (bool_decide (packID s = []) || Nat.eqb (size (pendingPack s)) 0 || packFlushed s) eqn:Eg.
  { apply mret_inv in E as [-> ->]. do 3 (split; [done|]). intros _ _ d p Hp. rewrite !orb_true_iff, bool_decide_eq_true in Eg.
    destruct Eg as [[Hn|Hz%Nat.eqb_eq]|Hf].
    - by rewrite (si_unnamed _ _ _ _ Hi Hn), lookup_empty in Hp.
    - apply map_size_empty_inv in Hz. by rewrite Hz, lookup_empty in Hp.
    - by apply (si_flushed _ _ _ _ Hi). }
  rewrite !orb_false_iff, bool_decide_eq_false in Eg. destruct Eg as [[Hne _] _].
  set (pack := {| Pack_SchemaVersion := 1 |}) in E. apply gom_bind_inv in E as (y & s1 & E1 & E). apply lift_inv in E1 as [-> ->].
  destruct (EncodeDomainPagePack pack) as [body|e] eqn:Eb; [|by destruct E as [-> ->]].
  apply gom_bind_inv in E as (y & s1 & E1 & E). apply lift_inv in E1 as [-> ->].
  destruct (packKey (packID s)) as [key|e] eqn:Ek; [|by destruct E as [-> ->]].
  apply gom_bind_inv in E as (y & s1 & E1 & E).
  destruct (create_spec _ _ _ _ _ _ _ _ _ Hi (packKey_blob _ _ Ek) E1) as (Hs1 & _ & _ & Epd & Epk & Hb).
  destruct y as [u|e]; [|by destruct E as [-> ->]]. specialize (Hb u eq_refl).
  apply gom_bind_inv in E as (y & s2 & E2 & E). apply lift_inv in E2 as [-> ->].
  destruct (DecodeDomainPagePack _ _ _ _ _) as [decoded|e] eqn:Ed; [|by destruct E as [-> ->]].
  apply mret_inv in E as [-> ->].
  assert (pack_at reference packKey (backend s1) (packID s1) (index_pack decoded)) as Hat.
  { rewrite Epk. by exists key, body, decoded. }
  assert (Forall (λ q, page_typed (Packed_Page q)) (Pack_Pages pack)) as Hty.
  { apply list.Forall_forall. intros q ((d, p) & -> & Hq%elem_of_map_to_list)%list_elem_of_fmap.
    by apply (si_pending _ _ _ _ Hi) in Hq as [(_ & _ & _ & ?) _]. }
  pose proof (decode_encoded_pack _ _ _ _ _ _ _ Hty Eb Ed) as Hpages.
  assert (∀ d p, pendingPack s1 !! d = Some p → in_store (backend s1) d (packID s1) p) as Hst.
  { intros d p Hp. rewrite Epd in Hp. split; [by apply (si_pending _ _ _ _ Hi) in Hp as [? _]|].
    rewrite Epk, bool_decide_eq_true_2 by done. exists (index_pack decoded). split; [by rewrite <-Epk|].
    assert (∀ q, q ∈ Pack_Pages decoded ↔ q ∈ Pack_Pages pack) as Hel by (intros q; by rewrite Hpages, merge_sort_Permutation).
    apply (index_pack_lookup decoded {| Packed_Digest := d; Packed_Page := p |}).
    - rewrite Hpages. change (NoDup (Packed_Digest <$> merge_sort packed_le (Pack_Pages pack))). rewrite merge_sort_Permutation. cbn.
      rewrite map_map, (map_ext _ fst) by (by intros []). apply NoDup_fst_map_to_list.
    - apply Hel. cbn. apply list_elem_of_fmap. exists (d, p). split; [done|]. by apply elem_of_map_to_list. }
  assert (step s1 (set_flushed (packID s1) (index_pack decoded) s1)) as Hs2 by (by apply flushed_step; [apply Hs1|..]).
  rewrite <-Epk. split; [by eapply session_step_trans|]. split; [done|]. split; [done|]. done.
Qed.
End Flush.
End PackTheory.
