(* ===== verification/SessionReader.v ===== *)
(** * Sessions that only read

    A session without pending pages sees exactly what is stored, so what it
    reads does not depend on the session. *)

From Stdlib Require Import ZArith Lia.
From S2P Require Import Prelude GoLib GoHash GoJSON GoTime Errors ObjectStore DomainPage DomainPageTheory DomainTree TreeTheory TreeRead DomainPack DomainHead DomainSession TreeStream DomainProvider SessionLaws PackTheory.

Open Scope Z_scope.

Module SessionReader.
Import StorageFormat PageTheory DomainTree TreeTheory TreeRead DomainPack DomainSession DomainProvider SessionLaws PackTheory.

(** ** The pages of a backend *)

Section Pages.
Context `{SHA256} `{GZIP} {B : Type} `{!BlobStore B, !BlobView B, !BlobLaws B}.

(** A page that [b] stores, for whichever domain: as an object of its own or in a pack. *)
Definition kept (b : B) (p : DomainPage) : Prop :=
  ∃ k body, blob_contents b !! k = Some body ∧
    (decodeCanonicalPage body = Ok p ∨
     ∃ domain kind id pack q, DecodeDomainPagePack None body domain kind id = Ok pack ∧ q ∈ Pack_Pages pack ∧ Packed_Page q = p).

(** No two pages that [b] stores share a digest. *)
Definition collision_free (b : B) : Prop :=
  ∀ p p', kept b p → kept b p' → Digest (json_page p) = Digest (json_page p') → p = p'.

Lemma collision_free_sub (b b' : B) : blob_contents b ⊆ blob_contents b' → collision_free b' → collision_free b.
Proof.
  intros Hle Hc p p' (k & body & Hb & Hp) (k' & body' & Hb' & Hp'). apply Hc; [exists k, body|exists k', body']; (split; [by eapply lookup_weaken|done]).
Qed.

Lemma collision_free_le (b b' : B) : blob_le b b' → collision_free b' → collision_free b.
Proof. intros Hle. by apply collision_free_sub, blob_le_contents. Qed.
End Pages.

Section Reader.
Context `{SHA256} `{GZIP} {B : Type} `{!BlobStore B, !BlobView B, !BlobLaws B}.
Variables (reference : consistencyDomainRef) (pageKey packKey : gostring → res ObjectStore.Key).
Hypothesis pageKey_blob : ∀ d k, pageKey d = Ok k → blob_key k.
Hypothesis packKey_blob : ∀ d k, packKey d = Ok k → blob_key k.

Abbreviation inv := (session_inv reference pageKey packKey).
Abbreviation in_store := (stored reference pageKey packKey).
#[local] Remove Hints session_pages session_view session_read_laws session_laws : typeclass_instances.
#[local] Instance pages_here : PageStore (Session B) := session_pages reference pageKey packKey.

Definition reader_inv (s : Session B) : Prop := inv s ∧ pendingPack s = ∅.

#[export] Instance reader_view : PageView (Session B) :=
  {| ps_inv := reader_inv; resolve s := in_store (backend s); ps_outage := blob_outage; ps_step := session_le |}.

Lemma reader_backed s d id p : pendingPack s = ∅ → backed reference pageKey packKey s d id p → in_store (backend s) d id p.
Proof. intros Hp [?|(_ & _ & Hd & _)]; [done|]. by rewrite Hp, lookup_empty in Hd. Qed.

Lemma reader_grows s s' :
  session_step reference pageKey packKey s s' → pendingPack s' = pendingPack s → reader_inv s → grows s s'.
Proof.
  intros [Hi Hb _ _] Hp [_ Hs]. split; [split; [done|congruence]|]. split; [done|]. intros d k p. by apply stored_le.
Qed.

#[export] Instance reader_laws : PageReadLaws (Session B).
Proof.
  assert (∀ s r x s', reader_inv s → readPage r s = (x, s') →
    grows s s' ∧ ∀ p, x = Ok p → readable s' r p) as Hsound.
  { intros s r x s' Hr E. destruct (session_read_spec _ _ _ pageKey_blob packKey_blob _ _ _ _ (proj1 Hr) E) as (Hstep & Hp & Hread).
    split; [by apply reader_grows|]. intros p ->. destruct (Hread p eq_refl) as [Hv (id & Hid)]. split; [done|]. exists id.
    apply reader_backed; [|done]. rewrite Hp. apply Hr. }
  split.
  - intros s d k p _ [(_ & _ & Hok & Hty) _]. done.
  - intros s r p Hr [Hres Hv] x s' E. destruct (Hsound _ _ _ _ Hr E) as [Hg _]. split; [done|]. intros Hn.
    eapply (session_read_exact reference pageKey packKey); [done|done|apply Hr| |exact E|].
    + split; [by left|done].
    + assert (pendingPack s' = ∅) as Hp by (by destruct Hg as [[_ ?] _]).
      intros d k k' q q' Hq%(reader_backed _ _ _ _ Hp) Hq'%(reader_backed _ _ _ _ Hp). exact (Hn _ _ _ _ _ Hq Hq').
  - exact Hsound.
Qed.

Lemma reader_new b : reader_inv (newSession b).
Proof. split; [apply session_inv_new|done]. Qed.

(** ** Trees in a backend *)

Lemma stored_kept b d k p : in_store b d k p → kept b p.
Proof.
  intros [_ Hs]. revert Hs. case_bool_decide.
  - intros (m & (key & body & pack & _ & Hb & Hd & ->) & Hm). apply index_pack_elem in Hm as (q & Hq & _ & Eq). exists (ObjectStore.key_value key), body. split; [done|]. right. by eexists _, _, _, pack, q.
  - intros (key & body & _ & Hb & Hd). exists (ObjectStore.key_value key), body. split; [done|]. by left.
Qed.

Lemma stored_digest b d k p : in_store b d k p → d = Digest (json_page p).
Proof. intros [(_ & _ & Hok & _) _]. apply Hok. Qed.

Lemma collision_free_stored b d k k' p p' : collision_free b → in_store b d k p → in_store b d k' p' → p = p'.
Proof. intros Hc Hp Hp'. apply Hc; [by eapply stored_kept..|]. by rewrite <-(stored_digest _ _ _ _ Hp), <-(stored_digest _ _ _ _ Hp'). Qed.

Lemma reader_free (s : Session B) : collision_free (backend s) → no_collision s.
Proof. intros Hc d k k' p p'. by apply collision_free_stored. Qed.

(** The tree at [root] holds [es], as every session that opens it will see. *)
Definition tree_holds (b : B) (root : DomainTreeRoot) (es : list DomainEntry) : Prop := holds (newSession b) root es.

Lemma tree_holds_le b b' root es : blob_le b b' → tree_holds b root es → tree_holds b' root es.
Proof. intros Hle. apply holds_extends. split; [done|]. intros d k p. by apply stored_le. Qed.

Lemma tree_holds_sorted b root es : tree_holds b root es → sorted_entries es ∧ Forall entry_ok es.
Proof. intros Hh. exact (holds_sorted (newSession b) root es (reader_new b) Hh). Qed.

Lemma tree_holds_empty b root es : Root_Digest root = [] → tree_holds b root es → es = [].
Proof. intros Hd [[_ ->]|[? _]]; done. Qed.

(** Without collisions a root names one list of entries. *)
Lemma represents_unique l l' s r es es' :
  no_collision s → represents l s r es → represents l' s r es' → es = es'.
Proof.
  intros Hn. revert l' r es es'. induction l as [|l IH]; intros [|l'] r es es'.
  - intros (p & Hp & _ & ->) (p' & Hp' & _ & ->). by rewrite (refers_unique _ _ _ _ Hn Hp Hp').
  - intros (p & Hp & E & _) (p' & ess & Hp' & E' & _). rewrite (refers_unique _ _ _ _ Hn Hp Hp') in E. lia.
  - intros (p & ess & Hp & E & _) (p' & Hp' & E' & _). rewrite (refers_unique _ _ _ _ Hn Hp Hp') in E. lia.
  - intros (p & ess & Hp & _ & Hess & ->) (p' & ess' & Hp' & _ & Hess' & ->). rewrite (refers_unique _ _ _ _ Hn Hp Hp') in Hess. f_equal.
    clear Hp Hp'. revert ess' Hess'. induction Hess as [|c es cs ess Hc _ IHl]; intros ess' Hess'; inversion Hess'; subst; [done|].
    f_equal; [by eapply IH|by apply IHl].
Qed.

Lemma tree_holds_unique b root es es' : collision_free b → tree_holds b root es → tree_holds b root es' → es = es'.
Proof.
  intros Hc [[Hd ->]|[Hd [l Hl]]] [[Hd' ->]|[Hd' [l' Hl']]]; [done|done|done|]. eapply (represents_unique l l' (newSession b)); [|done|done]. by apply reader_free.
Qed.

(** What a session opened for one computation answers. *)
Lemma fresh_yields {A} (m : GoM (Session B) error A) a b x b' :
  yields (newSession b) m a → fresh m b = (x, b') →
  blob_le b b' ∧ (collision_free b' → x = Ok a ∨ ∃ e, x = Err e ∧ blob_outage e).
Proof.
  intros Hy. unfold fresh. destruct (m (newSession b)) as [y s] eqn:E. intros [= <- <-].
  destruct (Hy _ _ E) as [[_ [Hle _]] Ha]. split; [exact Hle|]. intros Hc. apply Ha. by apply reader_free.
Qed.

Lemma fresh_grows {A} (m : GoM (Session B) error A) b x b' : growing m → fresh m b = (x, b') → blob_le b b'.
Proof.
  intros Hm. unfold fresh. destruct (m (newSession b)) as [y s] eqn:E. intros [= <- <-].
  by destruct (Hm _ _ _ (reader_new b) E) as [_ [Hle _]].
Qed.

(** ** From a writer's session to the backend *)

(** Once its pending pages are stored, what a session resolves is stored. *)
Lemma flushed_backed s d id p : flushed reference pageKey packKey s → backed reference pageKey packKey s d id p → in_store (backend s) d id p.
Proof. intros Hf [?|(-> & _ & Hp & _)]; [done|]. by apply Hf. Qed.

Lemma represents_stored l s r es :
  flushed reference pageKey packKey s →
  represents (PageView0 := session_view reference pageKey packKey) l s r es → represents l (newSession (backend s)) r es.
Proof.
  intros Hf. revert r es. induction l as [|l IH]; intros r es.
  - intros (p & [Hp Hv] & Hl). exists p. split; [|done]. split; [exact (flushed_backed _ _ _ _ Hf Hp)|done].
  - intros (p & ess & [Hp Hv] & Hl & Hess & ->). exists p, ess. split; [split; [exact (flushed_backed _ _ _ _ Hf Hp)|done]|]. split; [done|].
    split; [|done]. eapply Forall2_impl; [exact Hess|]. intros c es'. apply IH.
Qed.

Lemma holds_stored s root es :
  flushed reference pageKey packKey s →
  holds (PageView0 := session_view reference pageKey packKey) s root es → tree_holds (backend s) root es.
Proof. intros Hf [[? ?]|[Hd [l Hl]]]; [by left|right]. split; [done|]. exists l. by apply represents_stored. Qed.

Lemma stored_holds s root es :
  tree_holds (backend s) root es → holds (PageView0 := session_view reference pageKey packKey) s root es.
Proof.
  assert (∀ l r es, represents l (newSession (backend s)) r es →
    represents (PageView0 := session_view reference pageKey packKey) l s r es) as Hrep.
  { intros l. induction l as [|l IH]; intros r es'.
    - intros (p & [Hp Hv] & Hl). exists p. split; [|done]. split; [by left|done].
    - intros (p & ess & [Hp Hv] & Hl & Hess & ->). exists p, ess. split; [split; [by left|done]|]. split; [done|].
      split; [|done]. eapply Forall2_impl; [exact Hess|]. intros c es''. apply IH. }
  intros [[? ?]|[Hd [l Hl]]]; [by left|right]. split; [done|]. exists l. by apply Hrep.
Qed.

Lemma flushed_no_collision s :
  flushed reference pageKey packKey s → collision_free (backend s) →
  no_collision (PageView0 := session_view reference pageKey packKey) s.
Proof.
  intros Hf Hc d k k' p p' Hp Hp'. exact (collision_free_stored _ _ _ _ _ _ Hc (flushed_backed _ _ _ _ Hf Hp) (flushed_backed _ _ _ _ Hf Hp')).
Qed.
End Reader.
End SessionReader.
