(* ===== verification/IteratorTheory.v ===== *)
(** * An iterator visits every entry of its tree once, in key order *)

From Stdlib Require Import ZArith Lia.
From S2P Require Import Prelude GoLib GoHash GoJSON Errors ObjectStore DomainPage DomainPageTheory DomainTree TreeTheory TreeRead DomainPack DomainSession TreeStream DomainProvider SessionLaws PackTheory SessionReader.

Open Scope Z_scope.

Module IteratorTheory.
Import StorageFormat PageTheory DomainTree TreeTheory TreeRead TreeIterator.

(** Dropping a page from the cache loses nothing. *)
Class PageCacheLaws `{SHA256} (St : Type) `{!PageView St, !PageCache St} : Prop :=
  forget_yields d st : ps_inv st → yields st (forget_page d) tt.

Section Iterator.
Context `{SHA256} {St : Type} `{!PageStore St, !PageCache St, !PageView St, !PageReadLaws St, !PageCacheLaws St}.

Lemma forget_grows d : growing (forget_page d).
Proof. intros st x st' Hi E. by destruct (forget_yields d st Hi x st' E). Qed.
#[local] Hint Resolve growing_read forget_grows : growing.

Lemma growing_descend fuel r frames : growing (descend fuel r frames).
Proof.
  revert r frames. induction fuel as [|fuel IH]; intros r frames; cbn [descend]; [grow|]. apply growing_bind; [grow|]. intros p.
  destruct (Page_Level p =? 0); [grow|]. destruct (Page_Children p); [grow|apply IH].
Qed.
#[local] Hint Resolve growing_descend : growing.

Lemma growing_advance frames : growing (advance frames).
Proof.
  induction frames as [|f rest IH]; cbn [advance]; [grow|]. destruct (Page_Children (frame_page f) !! _); [grow|].
  apply growing_bind; [grow|]. by intros _.
Qed.
#[local] Hint Resolve growing_advance : growing.

Lemma growing_Next fuel frames : growing (Next fuel frames).
Proof.
  revert frames. induction fuel as [|fuel IH]; intros [|leaf rest]; cbn [Next]; [grow..|].
  destruct (if Page_Level (frame_page leaf) =? 0 then _ else _); [grow|].
  apply growing_bind; [grow|]. intros _. apply growing_bind; [grow|]. intros frames. apply IH.
Qed.

(** ** What lies ahead of an iterator *)

(** Branches above a subtree of level [l]: the siblings to its right, upwards. *)
Inductive above (st : St) : nat → stack → list DomainEntry → Prop :=
  | above_root l : above st l [] []
  | above_branch l f rest ess es :
      Page_Level (frame_page f) = Z.of_nat (S l) →
      Forall2 (λ c es, represents l st (child_ref c) es ∧ es ≠ []) (drop (S (frame_index f)) (Page_Children (frame_page f))) ess →
      above st (S l) rest es → above st l (f :: rest) (concat ess ++ es).

(** The iterator stands before [es]. *)
Definition stands (st : St) (frames : stack) (es : list DomainEntry) : Prop :=
  match frames with
  | [] => es = []
  | leaf :: rest => Page_Level (frame_page leaf) = 0 ∧
      ∃ es', above st 0 rest es' ∧ es = drop (frame_index leaf) (Page_Entries (frame_page leaf)) ++ es'
  end.

(** It has an entry at hand, or is done. *)
Definition at_hand (frames : stack) : Prop :=
  match frames with
  | [] => True
  | leaf :: _ => is_Some (Page_Entries (frame_page leaf) !! frame_index leaf)
  end.

Lemma above_extends st st' l frames es : extends st st' → above st l frames es → above st' l frames es.
Proof.
  intros He. induction 1 as [|l f rest ess es Hl Hess _ IH]; constructor; [done| |done].
  eapply Forall2_impl; [exact Hess|]. intros c es' [Hr ?]. split; [by eapply represents_extends|done].
Qed.

Lemma stands_extends st st' frames es : extends st st' → stands st frames es → stands st' frames es.
Proof.
  intros He. destruct frames as [|leaf rest]; [done|]. intros (Hl & es' & Ha & ->). split; [done|]. exists es'.
  split; [by eapply above_extends|done].
Qed.

(** The children of a branch hold entries. *)
Lemma branch_children l st r p ess :
  ps_inv st → refers st r p → Page_Level p = Z.of_nat (S l) → Forall2 (λ c es, represents l st (child_ref c) es) (Page_Children p) ess →
  Forall2 (λ c es, represents l st (child_ref c) es ∧ es ≠ []) (Page_Children p) ess ∧ Page_Children p ≠ [].
Proof.
  intros Hi Hp Hl Hess. destruct (branch_below _ _ _ _ _ Hi (refers_readable _ _ _ Hp) Hl Hess) as [(Hok & _) Hne]. split; [|done].
  clear Hp Hl Hne. induction Hess as [|c es cs ess Hc _ IH]; constructor.
  - split; [done|]. intros ->. apply list.Forall_cons in Hok as [Hc' _]. destruct (represents_describes _ _ _ _ Hi Hc) as [_ _ _ Hn _ _ _ _].
    by apply (co_count _ _ Hc').
  - apply IH. by apply list.Forall_cons in Hok as [_ ?].
Qed.

Lemma represents_level_child l st c es : represents l st (child_ref c) es → ps_inv st → Child_Level c = Z.of_nat l.
Proof. intros Hr Hi. exact (ds_level _ _ _ (represents_describes _ _ _ _ Hi Hr)). Qed.

(** [m] answers [a] from every state the iterator may be continued in. *)
Definition answers {A} (st : St) (m : GoM St error A) (a : A) : Prop := ∀ st1, grows st st1 → yields st1 m a.

Lemma answers_bind {A C} st (m : GoM St error A) (f : A → GoM St error C) a c :
  answers st m a → (∀ a, growing (f a)) → answers st (f a) c → answers st (m ≫= f) c.
Proof.
  intros Hm Hf Hc st1 Hg. eapply yields_bind; [by apply Hm|done|]. intros st2 Hg2. apply Hc. by eapply grows_trans.
Qed.

Lemma answers_ret {A} st (a : A) : answers st (mret a) a.
Proof. intros st1 Hg. apply yields_ret, Hg. Qed.

Lemma answers_read st r p : refers st r p → answers st (readPage r) p.
Proof. intros Hp st1 Hg. apply readPage_exact; [apply Hg|]. eapply refers_extends; [apply Hg|done]. Qed.

Lemma descend_ok l : ∀ fuel, (l < fuel)%nat → ∀ st r es frames rest,
  ps_inv st → represents l st r es → above st l frames rest →
  ∃ frames', answers st (descend fuel r frames) frames' ∧ stands st frames' (es ++ rest) ∧ (es ≠ [] → at_hand frames').
Proof.
  induction l as [|l IH]; intros [|fuel] Hf st r es frames rest Hi Hr Ha; try lia; cbn [descend].
  - destruct Hr as (p & Hp & Hl & ->). eexists. split; [|split].
    + eapply answers_bind; [by apply answers_read|intros; grow|]. rewrite Hl. cbn [Z.eqb]. apply answers_ret.
    + split; [done|]. exists rest. split; [done|]. by cbn.
    + cbn. intros Hne. destruct (Page_Entries p); [done|by eexists].
  - destruct Hr as (p & ess & Hp & Hl & Hess & ->). destruct (branch_children _ _ _ _ _ Hi Hp Hl Hess) as [Hch Hne].
    destruct (Page_Children p) as [|c cs] eqn:Ec; [done|]. inversion Hch as [|? es0 ? ess0 [Hc Hne0] Hcs]; subst.
    set (f := {| frame_reference := r; frame_page := p; frame_index := 0 |}).
    assert (above st l (f :: frames) (concat ess0 ++ rest)) as Ha'.
    { constructor; [done| |done]. cbn [f frame_page frame_index]. by rewrite Ec. }
    destruct (IH fuel ltac:(lia) st (child_ref_unfiltered c) es0 (f :: frames) (concat ess0 ++ rest)) as (frames' & Hy & Hst & Hhand);
      [done|by apply represents_unfiltered|done|]. exists frames'. split; [|split].
    + eapply answers_bind; [by apply answers_read|intros; grow|]. rewrite (proj2 (Z.eqb_neq _ _)) by lia. by rewrite Ec.
    + cbn. by rewrite <-(assoc_L (++)).
    + intros _. by apply Hhand.
Qed.

Lemma advance_ok frames : ∀ l st es, ps_inv st → above st l frames es →
  ∃ frames', answers st (advance frames) frames' ∧ stands st frames' es ∧ at_hand frames'.
Proof.
  induction frames as [|f rest IH]; intros l st es Hi Ha; inversion Ha as [|? ? ? ess es' Hl Hess Ha']; subst; cbn [advance].
  { exists []. split; [apply answers_ret|done]. }
  destruct (Page_Children (frame_page f) !! S (frame_index f)) as [c|] eqn:Ec.
  - rewrite (drop_S _ _ _ Ec) in Hess. inversion Hess as [|? es0 ? ess0 [Hc Hne0] Hcs]; subst.
    set (f' := {| frame_reference := frame_reference f; frame_page := frame_page f; frame_index := S (frame_index f) |}).
    destruct (descend_ok l (S (Z.to_nat (Child_Level c))) ltac:(rewrite (represents_level_child _ _ _ _ Hc Hi); lia) st (child_ref_unfiltered c) es0 (f' :: rest) (concat ess0 ++ es'))
      as (frames' & Hy & Hst & Hhand); [done|by apply represents_unfiltered|by constructor|].
    exists frames'. split; [done|]. split; [|by apply Hhand]. cbn. by rewrite <-(assoc_L (++)).
  - rewrite drop_ge in Hess by (by apply lookup_ge_None). inversion Hess; subst. destruct (IH _ _ _ Hi Ha') as (frames' & Hy & Hst & Hhand).
    exists frames'. split; [|done]. eapply answers_bind; [|intros _; grow|done]. intros st1 Hg. apply forget_yields, Hg.
Qed.

Lemma Next_ok frames st es :
  ps_inv st → stands st frames es →
  match es with
  | [] => answers st (Next 2 frames) (None, [])
  | e :: es' => ∃ frames', answers st (Next 2 frames) (Some (clone_entry e), frames') ∧ stands st frames' es'
  end.
Proof.
  intros Hi Hst.
  assert (∀ fuel frames es, stands st frames es → at_hand frames →
    match es with
    | [] => answers st (Next (S fuel) frames) (None, [])
    | e :: es' => ∃ frames', answers st (Next (S fuel) frames) (Some (clone_entry e), frames') ∧ stands st frames' es'
    end) as Hready.
  { clear. intros fuel [|leaf rest] es Hst Hhand; [rewrite Hst; apply answers_ret|]. destruct Hst as (Hl & es' & Ha & ->).
    cbn [at_hand] in Hhand. destruct Hhand as [e He]. rewrite (drop_S _ _ _ He). cbn [app Next]. rewrite Hl. cbn [Z.eqb]. rewrite He.
    eexists. split; [apply answers_ret|]. split; [done|]. by exists es'. }
  destruct frames as [|leaf rest]; [by apply (Hready 1%nat)|]. destruct (Page_Entries (frame_page leaf) !! frame_index leaf) as [e|] eqn:Ee.
  { apply (Hready 1%nat); [done|]. by exists e. }
  destruct Hst as (Hl & es' & Ha & ->). rewrite (drop_ge (Page_Entries _)) by (by apply lookup_ge_None). cbn [app].
  destruct (advance_ok _ _ _ _ Hi Ha) as (frames' & Hy & Hst & Hhand). specialize (Hready 0%nat frames' es' Hst Hhand).
  assert (∀ a, answers st (Next 1 frames') a → answers st (Next 2 (leaf :: rest)) a) as Hgo.
  { intros a Hn. change (Next 2 (leaf :: rest)) with
      (match (if Page_Level (frame_page leaf) =? 0 then Page_Entries (frame_page leaf) !! frame_index leaf else None) with
       | Some entry => mret (Some (clone_entry entry), {| frame_reference := frame_reference leaf; frame_page := frame_page leaf; frame_index := S (frame_index leaf) |} :: rest)
       | None => _ ← forget_page (Root_Digest (ref_root (frame_reference leaf))); frames ← advance rest; Next 1 frames
       end). rewrite Hl, Ee. cbn [Z.eqb].
    eapply answers_bind; [intros st1 Hg; apply forget_yields, Hg|intros _; apply growing_bind; [grow|intros; apply growing_Next]|].
    eapply answers_bind; [done|intros; apply growing_Next|done]. }
  destruct es' as [|e es']; [by apply Hgo|]. destruct Hready as (frames2 & Hn & Hst2). exists frames2. split; [by apply Hgo|done].
Qed.

(** Draining an iterator, as its callers do. *)
Fixpoint drain (n : nat) (frames : stack) : GoM St error (list DomainEntry) :=
  match n with
  | O => throw nontermination
  | S n =>
      '(value, frames) ← Next 2 frames;
      match value with
      | None => mret []
      | Some e => rest ← drain n frames; mret (e :: rest)
      end
  end.

Lemma growing_drain n frames : growing (drain n frames).
Proof.
  revert frames. induction n as [|n IH]; intros frames; cbn [drain]; [grow|]. apply growing_bind; [apply growing_Next|].
  intros [[e|] frames']; [|grow]. apply growing_bind; [apply IH|grow].
Qed.

Lemma drain_ok es : ∀ n frames st, (length es < n)%nat → ps_inv st → stands st frames es → answers st (drain n frames) (clone_entry <$> es).
Proof.
  induction es as [|e es IH]; intros [|n] frames st Hn Hi Hst; cbn in Hn; try lia; cbn [drain]; pose proof (Next_ok _ _ _ Hi Hst) as Hnext.
  - eapply answers_bind; [exact Hnext| |apply answers_ret]. intros [[e|] frames']; [|grow]. apply growing_bind; [apply growing_drain|grow].
  - destruct Hnext as (frames' & Hy & Hst'). eapply answers_bind; [exact Hy| |].
    { intros [[e'|] f']; [|grow]. apply growing_bind; [apply growing_drain|grow]. }
    eapply answers_bind; [by apply IH; [lia|..]|grow|]. apply answers_ret.
Qed.

Lemma newIterator_ok root es st :
  ps_inv st → holds st root es → ∃ frames, answers st (newIterator root) frames ∧ stands st frames es.
Proof.
  intros Hi [[Hd ->]|[Hd [l Hr]]]; unfold newIterator.
  - rewrite bool_decide_eq_false_2 by (intros Hn; by apply Hn). exists []. split; [apply answers_ret|done].
  - rewrite bool_decide_eq_true_2 by done. destruct (holds_level _ _ _ _ Hi Hr) as [Hf _].
    destruct (descend_ok l _ Hf st (root_ref root) es [] []) as (frames & Hy & Hst & _); [done|done|constructor|].
    exists frames. split; [done|]. by rewrite app_nil_r in Hst.
Qed.

(** C33: opening an iterator on a tree and calling [Next] until it is done
    terminates after one call per entry and yields every entry of the tree once,
    in key order, unless the provider fails. *)
Theorem iterator_enumerates (root : DomainTreeRoot) (es : list DomainEntry) (st st' : St) (x : res (list DomainEntry)) :
  ps_inv st → holds st root es →
  (frames ← newIterator root; drain (S (length es)) frames) st = (x, st') →
  grows st st' ∧ (no_collision st' → answered x (clone_entry <$> es)).
Proof.
  intros Hi Hh. destruct (newIterator_ok _ _ _ Hi Hh) as (frames & Hy & Hst).
  assert (answers st (frames ← newIterator root; drain (S (length es)) frames) (clone_entry <$> es)) as Hall.
  { eapply answers_bind; [exact Hy|apply growing_drain|]. apply drain_ok; [lia|done|done]. }
  apply (Hall st). by apply grows_refl.
Qed.
End Iterator.

(** ** Reading sessions *)

Section Session.
Import DomainPack DomainSession DomainProvider SessionLaws PackTheory SessionReader.
Context `{SHA256} `{GZIP} {B : Type} `{!Provider B, !BlobView B, !BlobLaws B}.
Variables (reference : consistencyDomainRef) (pageKey packKey : gostring → res ObjectStore.Key).
#[local] Remove Hints session_pages session_view session_read_laws session_laws : typeclass_instances.
#[local] Instance the_view : PageView (Session B) := reader_view reference pageKey packKey.

#[export] Instance reader_cache : PageCacheLaws (Session B).
Proof.
  intros d s [Hi Hp] x s' E. injection E as <- <-. split; [|by intros _; left]. split; [split|].
  - destruct Hi as [I1 I2 I3 I4 I5 I6]. split; try done.
    + intros d' p. cbn. rewrite lookup_delete_Some. intros [_ ?]. by apply I1.
    + intros d' p. cbn. by rewrite Hp, lookup_empty.
  - done.
  - split; [|by intros]. change (blob_le (backend s) (backend s)). reflexivity.
Qed.
End Session.
End IteratorTheory.
