(* ===== verification/StreamTheory.v ===== *)
(** * What building from a stream and merging do

    Two modules: the builder, then the merge on top of it. *)

From Stdlib Require Import ZArith Lia.
From S2P Require Import Prelude GoLib GoHash GoJSON GoHeap Errors ObjectStore DomainPage DomainPageTheory DomainTree TreeTheory TreeRead TreeGroups TreeWrite TreeEdit DomainPack DomainSession TreeStream DomainProvider SessionLaws PackTheory SessionReader IteratorTheory.

Open Scope Z_scope.

(** * A tree built from a stream holds the stream

    What the builder keeps open always represents the entries it was given, so
    the root of a finished builder holds exactly them. *)

Module BuilderTheory.
Import StorageFormat PageTheory DomainTree TreeTheory TreeRead TreeGroups TreeWrite TreeEdit TreeIterator TreeBuilder IteratorTheory.

Section Builder.
Context `{SHA256} {St : Type} `{!PageStore St, !PageCache St, !PageView St, !PageStoreLaws St, !PageCacheLaws St}.

(** ** What the open levels represent *)

(** The levels from [l] upwards hold [es]; the higher a level, the earlier its keys. *)
Fixpoint built (l : nat) (st : St) (ls : levels) (es : list DomainEntry) : Prop :=
  match ls with
  | [] => es = []
  | references :: above => ∃ before ess, built (S l) st above before ∧ Forall2 (represents l st) references ess ∧ es = before ++ concat ess
  end.

Definition typed_levels (ls : levels) : Prop := Forall (Forall typed_ref) ls.

Lemma built_extends l st st' ls es : extends st st' → built l st ls es → built l st' ls es.
Proof.
  intros He. revert l es. induction ls as [|references above IH]; intros l es; [done|].
  intros (before & ess & Hb & Hr & ->). exists before, ess. split; [by apply IH|]. split; [|done].
  eapply Forall2_impl; [exact Hr|]. intros ???. by eapply represents_extends.
Qed.

(** ** Writing one page *)

Lemma publish_ok p st x st' :
  ps_inv st → session_page p → publish p st = (x, st') →
  grows st st' ∧ ∀ r, x = Ok r → refers st' r p ∧ typed_ref r.
Proof.
  intros Hi Hp E. unfold publish in E. apply gom_bind_inv in E as (y & st1 & E1 & E). destruct (writePage_spec _ _ _ _ Hi Hp E1) as [Hg1 Hr].
  destruct y as [r|e]; [|by destruct E as [-> ->]]. destruct (Hr r eq_refl) as [Href Hty].
  apply gom_bind_inv in E as (y & st2 & E2 & E). pose proof (forget_grows _ _ _ _ (proj1 Hg1) E2) as Hg2.
  assert (grows st st2) as Hg by by eapply grows_trans.
  destruct y as [u|e]; [|by destruct E as [-> ->]]. apply mret_inv in E as [-> ->]. split; [done|]. intros ? [= <-].
  split; [|done]. eapply refers_extends; [apply Hg2|done].
Qed.

(** A level number that a written page carries did not wrap around. *)
Lemma level_bounds l : i64 (Z.of_nat l + 1) ≤ MaxInt64.
Proof. pose proof (i64_range (Z.of_nat l + 1)). lia. Qed.

Lemma written_level l : Z.of_nat l ≤ MaxInt64 → 0 ≤ i64 (Z.of_nat l + 1) → i64 (Z.of_nat l + 1) = Z.of_nat (S l).
Proof.
  intros Hl Hw. destruct (decide (Z.of_nat l = MaxInt64)) as [E|?]; [|rewrite i64_small; lia].
  rewrite E in Hw. unfold i64, MaxInt64 in Hw. vm_compute in Hw. by destruct Hw.
Qed.

(** What adding a reference to the levels from [l] upwards does. *)
Definition adds (l : nat) (above : levels) (add : domainPageRef → GoM St error levels) : Prop :=
  ∀ r st x st', ps_inv st → typed_ref r → add r st = (x, st') →
  grows st st' ∧ ∀ ls, x = Ok ls → typed_levels ls ∧
    ∀ es er, no_collision st' → built l st above es → represents l st r er → built l st' ls (es ++ er).

Lemma flush_references_ok l references above add st x st' :
  ps_inv st → Forall typed_ref references → adds (S l) above add → references ≠ [] → flush_references l references add st = (x, st') →
  grows st st' ∧ ∀ ls, x = Ok ls → typed_levels ls ∧
    ∀ es ess, no_collision st' → built (S l) st above es → Forall2 (represents l st) references ess → built l st' ls (es ++ concat ess).
Proof.
  intros Hi Hty Hadd Hne E. unfold flush_references in E. apply gom_bind_inv in E as (y & st1 & E1 & E).
  destruct (page_children_spec _ _ _ _ Hi E1) as [Hg1 Hc]. destruct y as [cs|e]; [|by destruct E as [-> ->]]. specialize (Hc cs eq_refl).
  apply gom_bind_inv in E as (y & st2 & E2 & E). set (page := branch_page (i64 (Z.of_nat l + 1)) cs) in *.
  assert (session_page page) as Hp by (eapply (group_session_page _ st st1 references); [apply level_bounds|done|by exists cs]).
  destruct (publish_ok _ _ _ _ (proj1 Hg1) Hp E2) as [Hg2 Hr].
  assert (grows st st2) as Hg12 by by eapply grows_trans. destruct y as [r|e]; [|by destruct E as [-> ->]].
  destruct (Hr r eq_refl) as [Href Htr]. apply gom_bind_inv in E as (y & st3 & E3 & E).
  destruct (Hadd _ _ _ _ (proj1 Hg2) Htr E3) as [Hg3 Hls]. assert (grows st st3) as Hg13 by by eapply grows_trans.
  destruct y as [ls|e]; [|by destruct E as [-> ->]]. apply mret_inv in E as [-> ->]. split; [done|]. intros ? [= <-].
  destruct (Hls ls eq_refl) as [Htl Hb]. split; [by constructor|]. intros es ess Hn Hes Hess. exists (es ++ concat ess), []. split; [|split; [constructor|by rewrite app_nil_r]].
  assert (i64 (Z.of_nat l + 1) = Z.of_nat (S l)) as El.
  { apply written_level.
    - destruct Hess as [|r0 es0 ? ? Hr0 _]; [done|]. by eapply represents_level_typed.
    - destruct (resolve_ok _ _ _ _ (proj1 Hg2) (proj1 Href)) as [Hok _]. exact (po_level _ _ Hok). }
  apply Hb; [done|eapply built_extends; [apply Hg12|done]|]. assert (no_collision st2) as Hn2 by (eapply no_collision_extends; [apply Hg3|done]).
  eapply (group_represents l st st1 st2 r page references ess); [apply Hg1|apply Hg2|done| |done|done]. exists cs. split; [|done]. subst page. by rewrite El.
Qed.

Lemma addReference_ok ls : ∀ l, typed_levels ls → adds l ls (addReference l ls).
Proof.
  induction ls as [|references above IH]; intros l Hty r st x st' Hi Hr E; cbn [addReference] in E.
  { apply mret_inv in E as [-> ->]. split; [by apply grows_refl|]. intros ? [= <-]. split; [by apply list.Forall_singleton, list.Forall_singleton|].
    intros es er _ -> Her. exists [], [er]. split; [done|]. split; [by constructor; [|constructor]|]. cbn. by rewrite app_nil_r. }
  apply list.Forall_cons in Hty as [Hrefs Habove].
  assert (Forall typed_ref (references ++ [r])) as Hall by (apply Forall_app; by rewrite list.Forall_singleton).
  assert (∀ st er, represents l st r er → ∀ ess, Forall2 (represents l st) references ess → Forall2 (represents l st) (references ++ [r]) (ess ++ [er])) as Hsnoc.
  { intros. apply Forall2_app; [done|]. by constructor; [|constructor]. }
  destruct (_ <? _)%nat.
  - apply mret_inv in E as [-> ->]. split; [by apply grows_refl|]. intros ? [= <-]. split; [by constructor|].
    intros es er _ (before & ess & Hb & Hess & ->) Her. exists before, (ess ++ [er]). split; [done|]. split; [by apply Hsnoc|].
    rewrite concat_app. cbn. by rewrite app_nil_r, (assoc_L (++)).
  - apply (flush_references_ok l _ above) in E as [Hg Hls]; [|done|done|by apply IH|by destruct references]. split; [done|]. intros ls ->.
    destruct (Hls ls eq_refl) as [Htl Hb]. split; [done|]. intros es er Hn (before & ess & Hbefore & Hess & ->) Her.
    specialize (Hb before (ess ++ [er]) Hn Hbefore (Hsnoc _ _ Her _ Hess)). rewrite concat_app in Hb. cbn in Hb. by rewrite app_nil_r, (assoc_L (++)) in Hb.
Qed.

Lemma flushLeaf_ok b st x st' :
  ps_inv st → typed_levels (builder_levels b) → flushLeaf b st = (x, st') →
  grows st st' ∧ ∀ b', x = Ok b' → typed_levels (builder_levels b') ∧ builder_leaf b' = [] ∧
    ∀ es, no_collision st' → built 0 st (builder_levels b) es → built 0 st' (builder_levels b') (es ++ builder_leaf b).
Proof.
  intros Hi Hty E. unfold flushLeaf in E. case_bool_decide as Hleaf.
  { apply mret_inv in E as [-> ->]. split; [by apply grows_refl|]. intros ? [= <-]. split; [done|]. split; [done|]. intros es _. by rewrite Hleaf, app_nil_r. }
  apply gom_bind_inv in E as (y & st1 & E1 & E). destruct (publish_ok _ _ _ _ Hi (leaf_session_page _) E1) as [Hg1 Hr].
  destruct y as [r|e]; [|by destruct E as [-> ->]]. destruct (Hr r eq_refl) as [Href Htr].
  apply gom_bind_inv in E as (y & st2 & E2 & E). destruct (addReference_ok _ 0 Hty _ _ _ _ (proj1 Hg1) Htr E2) as [Hg2 Hls].
  assert (grows st st2) as Hg by by eapply grows_trans. destruct y as [ls|e]; [|by destruct E as [-> ->]].
  apply mret_inv in E as [-> ->]. split; [done|]. intros ? [= <-]. destruct (Hls ls eq_refl) as [Htl Hb]. split; [done|]. split; [done|].
  intros es Hn Hes. apply Hb; [done|eapply built_extends; [apply Hg1|done]|]. by exists (leaf_page (builder_leaf b)).
Qed.

(** ** Adding entries *)

(** The builder has been given [es]. *)
Definition given (st : St) (b : consistencyDomainTreeBuilder) (es : list DomainEntry) : Prop :=
  ∃ before, built 0 st (builder_levels b) before ∧ es = before ++ builder_leaf b.

Lemma given_extends st st' b es : extends st st' → given st b es → given st' b es.
Proof. intros He (before & Hb & ->). exists before. split; [by eapply built_extends|done]. Qed.

Lemma open_leaf_ok b entry b' : open_leaf b entry = Ok b' → builder_leaf b' = [entry] ∧ builder_levels b' = builder_levels b.
Proof. unfold open_leaf. destruct (EncodeCanonical _); [|done]. by intros [= <-]. Qed.

Lemma extend_leaf_ok b entry b' : extend_leaf b entry = Some b' → builder_leaf b' = builder_leaf b ++ [entry] ∧ builder_levels b' = builder_levels b.
Proof.
  unfold extend_leaf. destruct (_ <? _)%nat; [|done]. destruct (EncodeCanonical _); [|done]. destruct (_ <=? _); [|done]. by intros [= <-].
Qed.

(** One call adds one entry. *)
Definition adds_entry (add : consistencyDomainTreeBuilder → DomainEntry → GoM St error consistencyDomainTreeBuilder) : Prop :=
  ∀ b entry st x st', ps_inv st → typed_levels (builder_levels b) → add b entry st = (x, st') →
  grows st st' ∧ ∀ b', x = Ok b' → typed_levels (builder_levels b') ∧
    ∀ es, no_collision st' → given st b es → given st' b' (es ++ [entry]).

Lemma add_loop_ok fuel : adds_entry (add_loop fuel).
Proof.
  induction fuel as [|fuel IH]; intros b entry st x st' Hi Hty E; cbn [add_loop] in E.
  { apply (lift_inv (Err nontermination)) in E as [-> ->]. by split; [apply grows_refl|]. }
  case_bool_decide as Hleaf.
  { apply lift_inv in E as [-> ->]. split; [by apply grows_refl|]. intros b' Eo. destruct (open_leaf_ok _ _ _ Eo) as [El Els]. rewrite Els. split; [done|].
    intros es _ (before & Hb & ->). exists before. by rewrite Els, El, Hleaf, app_nil_r. }
  destruct (extend_leaf b entry) as [b1|] eqn:Ee.
  { apply mret_inv in E as [-> ->]. split; [by apply grows_refl|]. intros ? [= <-]. destruct (extend_leaf_ok _ _ _ Ee) as [El Els]. rewrite Els. split; [done|].
    intros es _ (before & Hb & ->). exists before. by rewrite Els, El, (assoc_L (++)). }
  apply gom_bind_inv in E as (y & st1 & E1 & E). destruct (flushLeaf_ok _ _ _ _ Hi Hty E1) as [Hg1 Hf].
  destruct y as [b1|e]; [|by destruct E as [-> ->]]. destruct (Hf b1 eq_refl) as (Hty1 & El1 & Hb1).
  destruct (IH _ _ _ _ _ (proj1 Hg1) Hty1 E) as [Hg2 Ha]. split; [by eapply grows_trans|]. intros b' ->.
  destruct (Ha b' eq_refl) as [Hty' Hgiven]. split; [done|]. intros es Hn (before & Hb & ->). apply Hgiven; [done|].
  exists (before ++ builder_leaf b). rewrite El1, app_nil_r. split; [|done]. apply Hb1; [|done]. eapply no_collision_extends; [apply Hg2|done].
Qed.

Lemma add_all_ok es : ∀ b st x st', ps_inv st → typed_levels (builder_levels b) → add_all b es st = (x, st') →
  grows st st' ∧ ∀ b', x = Ok b' → typed_levels (builder_levels b') ∧ ∀ es0, no_collision st' → given st b es0 → given st' b' (es0 ++ es).
Proof.
  induction es as [|e es IH]; intros b st x st' Hi Hty E; cbn [add_all] in E.
  { apply mret_inv in E as [-> ->]. split; [by apply grows_refl|]. intros ? [= <-]. split; [done|]. intros es0 _. by rewrite app_nil_r. }
  apply gom_bind_inv in E as (y & st1 & E1 & E). destruct (add_loop_ok _ _ _ _ _ _ Hi Hty E1) as [Hg1 Ha].
  destruct y as [b1|err]; [|by destruct E as [-> ->]]. destruct (Ha b1 eq_refl) as [Hty1 Hgiven].
  destruct (IH _ _ _ _ (proj1 Hg1) Hty1 E) as [Hg2 Hall]. split; [by eapply grows_trans|]. intros b' ->. destruct (Hall b' eq_refl) as [Hty' Hgiven'].
  split; [done|]. intros es0 Hn H0. rewrite (cons_middle e es0 es), (assoc_L (++)). apply Hgiven'; [done|]. apply Hgiven; [|done].
  eapply no_collision_extends; [apply Hg2|done].
Qed.

(** ** Finishing *)

Abbreviation blank k := (replicate k ([] : list domainPageRef)).

Lemma built_blank k : ∀ l st ls es, built l st (blank k ++ ls) es ↔ built (l + k) st ls es.
Proof.
  induction k as [|k IH]; intros l st ls es; cbn [replicate app built]; [by rewrite Nat.add_0_r|]. setoid_rewrite IH.
  rewrite Nat.add_succ_r. cbn. split.
  - intros (before & ess & Hb & Hr & ->). inversion Hr; subst. cbn. by rewrite app_nil_r.
  - intros Hb. exists es, []. split; [done|]. split; [constructor|]. by rewrite app_nil_r.
Qed.

Lemma typed_blank k ls : typed_levels (blank k ++ ls) ↔ typed_levels ls.
Proof. unfold typed_levels. rewrite Forall_app. split; [by intros [_ ?]|]. intros ?. split; [|done]. apply Forall_replicate. constructor. Qed.

Lemma lowest_Some ls k : lowest_level ls = Some k → ∃ references above, ls = blank k ++ references :: above ∧ references ≠ [].
Proof.
  unfold lowest_level. intros ([k' references] & (Hl & Hne & Hlow)%list_find_Some & ->)%fmap_Some. cbn. exists references, (drop (S k') ls). split; [|done].
  rewrite <-(take_drop_middle _ _ _ Hl) at 1. f_equal. pose proof (lookup_lt_Some _ _ _ Hl). apply list_eq_same_length with k'; [by rewrite length_replicate|rewrite length_take; lia|].
  intros i x y Hi Hx Hy. apply lookup_take_Some in Hx as [Hx _]. apply lookup_replicate in Hy as [-> _].
  pose proof (Hlow i x Hx Hi). by apply dec_stable.
Qed.

Lemma lowest_None ls : lowest_level ls = None → ls = blank (length ls).
Proof.
  unfold lowest_level. intros E%fmap_None. induction ls as [|references ls IH]; [done|]. cbn in E.
  destruct (decide (references ≠ [])) as [|Hn]; [done|]. apply dec_stable in Hn as ->. cbn. f_equal. apply IH. by apply fmap_None in E.
Qed.

Lemma flushLevel_blank k references above :
  references ≠ [] →
  flushLevel k (blank k ++ references :: above) = (rest ← flush_references k references (addReference (S k) above); mret (blank k ++ rest)).
Proof.
  intros Hne. unfold flushLevel. rewrite drop_app_length' by (by rewrite length_replicate). rewrite bool_decide_eq_false_2 by done.
  by rewrite take_app_length' by (by rewrite length_replicate).
Qed.

Lemma flushLevel_ok k ls st x st' :
  ps_inv st → typed_levels ls → lowest_level ls = Some k → flushLevel k ls st = (x, st') →
  grows st st' ∧ ∀ ls', x = Ok ls' → typed_levels ls' ∧ ∀ es, no_collision st' → built 0 st ls es → built 0 st' ls' es.
Proof.
  intros Hi Hty (references & above & -> & Hne)%lowest_Some. rewrite flushLevel_blank by done. intros E.
  apply typed_blank, list.Forall_cons in Hty as [Hrefs Habove]. apply gom_bind_inv in E as (y & st1 & E1 & E).
  apply (flush_references_ok k _ above) in E1 as [Hg Hls]; [|done|done|by apply addReference_ok|done].
  destruct y as [rest|e]; [|by destruct E as [-> ->]]. apply mret_inv in E as [-> ->]. split; [done|]. intros ? [= <-].
  destruct (Hls rest eq_refl) as [Htl Hb]. split; [by apply typed_blank|]. intros es Hn. rewrite !built_blank. cbn.
  intros (before & ess & Hbefore & Hess & ->). by apply Hb.
Qed.

(** When one reference is left, it is the one the scan has found. *)
Lemma one_left ls r : concat ls = [r] → ∃ k k', ls = blank k ++ [r] :: blank k' ∧ only_reference ls = Some r.
Proof.
  intros E. enough (∃ k k', ls = blank k ++ [r] :: blank k') as (k & k' & ->).
  { exists k, k'. split; [done|]. unfold only_reference. rewrite fold_left_app. cbn [fold_left].
    assert (∀ o n, fold_left (λ only references, match references with [reference] => Some reference | _ => only end) (blank n) o = o) as Hb.
    { intros o n. by induction n. }
    by rewrite !Hb. }
  induction ls as [|references ls IH]; [done|]. cbn in E. destruct references as [|r' references].
  - destruct (IH E) as (k & k' & ->). by exists (S k), k'.
  - injection E as -> E. apply app_nil in E as [-> E]. exists 0%nat, (length ls). cbn. f_equal.
    clear IH. induction ls as [|x ls IH]; [done|]. cbn in E. apply app_nil in E as [-> E]. cbn. f_equal. by apply IH.
Qed.

Lemma finish_loop_ok fuel : ∀ ls st x st', ps_inv st → typed_levels ls → finish_loop fuel ls st = (x, st') →
  grows st st' ∧ ∀ root, x = Ok root → ∀ es, no_collision st' → built 0 st ls es → holds st' root es.
Proof.
  induction fuel as [|fuel IH]; intros ls st x st' Hi Hty E; cbn [finish_loop] in E.
  { apply (lift_inv (Err nontermination)) in E as [-> ->]. by split; [apply grows_refl|]. }
  destruct (lowest_level ls) as [k|] eqn:Ek.
  - destruct (Nat.eqb_spec (total_references ls) 1) as [E1|_].
    + apply mret_inv in E as [-> ->]. split; [by apply grows_refl|]. intros ? [= <-] es Hn Hb.
      unfold total_references in E1. destruct (concat ls) as [|r [|? ?]] eqn:Ec; [done| |done].
      destruct (one_left _ _ Ec) as (k1 & k2 & Els & Eo). rewrite Eo. rewrite Els in Hb. apply built_blank in Hb as (before & ess & Hbefore & Hess & ->).
      rewrite <-(app_nil_r (blank k2)) in Hbefore. apply built_blank in Hbefore as ->. inversion Hess as [|? er ? ? Hr Hnil]; subst. inversion Hnil; subst. cbn.
      rewrite app_nil_r. right. split; [by eapply represents_digest|]. eexists. by apply represents_root.
    + apply gom_bind_inv in E as (y & st1 & E1 & E). destruct (flushLevel_ok _ _ _ _ _ Hi Hty Ek E1) as [Hg1 Hf].
      destruct y as [ls1|e]; [|by destruct E as [-> ->]]. destruct (Hf ls1 eq_refl) as [Hty1 Hb1].
      destruct (IH _ _ _ _ (proj1 Hg1) Hty1 E) as [Hg2 Hroot]. split; [by eapply grows_trans|]. intros root -> es Hn Hb.
      apply (Hroot root eq_refl); [done|]. apply Hb1; [|done]. eapply no_collision_extends; [apply Hg2|done].
  - apply mret_inv in E as [-> ->]. split; [by apply grows_refl|]. intros ? [= <-] es _ Hb. rewrite (lowest_None _ Ek) in Hb.
    rewrite <-(app_nil_r (blank _)) in Hb. apply built_blank in Hb as ->. apply holds_empty.
Qed.

(** The root of a finished builder holds what the builder was given. *)
Lemma Finish_ok b st x st' :
  ps_inv st → typed_levels (builder_levels b) → Finish b st = (x, st') →
  grows st st' ∧ ∀ root, x = Ok root → ∀ es, no_collision st' → given st b es → holds st' root es.
Proof.
  intros Hi Hty E. unfold Finish in E. apply gom_bind_inv in E as (y & st1 & E1 & E). destruct (flushLeaf_ok _ _ _ _ Hi Hty E1) as [Hg1 Hf].
  destruct y as [b1|e]; [|by destruct E as [-> ->]]. destruct (Hf b1 eq_refl) as (Hty1 & _ & Hb).
  destruct (finish_loop_ok _ _ _ _ _ (proj1 Hg1) Hty1 E) as [Hg2 Hroot]. split; [by eapply grows_trans|]. intros root -> es Hn (before & Hbefore & ->).
  apply (Hroot root eq_refl); [done|]. apply Hb; [|done]. eapply no_collision_extends; [apply Hg2|done].
Qed.

Lemma given_new st : given st newConsistencyDomainTreeBuilder [].
Proof. by exists []. Qed.

(** ** The loop of [Finish] ends *)

(** Flushing either keeps the number of levels or leaves a single reference. *)
Lemma addReference_shape ls : ∀ l r st ls' st', addReference l ls r st = (Ok ls', st') →
  concat ls' ≠ [] ∧ (length ls' = length ls ∨ ∃ r', concat ls' = [r']).
Proof.
  induction ls as [|references above IH]; intros l r st ls' st' E; cbn [addReference] in E.
  { apply mret_inv in E as [E ->]. injection E as ->. split; [done|]. right. by exists r. }
  destruct (_ <? _)%nat.
  { apply mret_inv in E as [E ->]. injection E as ->. cbn. split; [|by left]. intros [E _]%app_nil. by apply app_nil in E as [_ ?]. }
  unfold flush_references in E. inv_go. cbn. match goal with Ha : addReference _ _ _ _ = (Ok _, _) |- _ => apply IH in Ha as [Hne Hs] end.
  split; [done|]. destruct Hs as [->|?]; [by left|by right].
Qed.

(** Enough for the levels that are left. *)
Definition enough (n : nat) (ls : levels) : Prop :=
  (1 ≤ n)%nat ∧ (total_references ls = 1%nat ∨ ∀ k, lowest_level ls = Some k → (length ls < n + k)%nat).

Lemma finish_enough n : ∀ n' ls st, enough n ls → (n ≤ n')%nat → finish_loop n' ls st = finish_loop n ls st.
Proof.
  induction n as [|n IH]; intros [|n'] ls st [H1 Hn] Hle; [lia..|]. cbn [finish_loop]. destruct (lowest_level ls) as [k|] eqn:Ek; [|done].
  destruct (Nat.eqb_spec (total_references ls) 1) as [|Ht]; [done|]. destruct Hn as [?|Hn]; [done|]. specialize (Hn k eq_refl).
  unfold mbind, gom_bind. destruct (flushLevel k ls st) as [[ls1|e] st1] eqn:Ef; [|done]. apply IH; [|lia].
  apply lowest_Some in Ek as (references & above & -> & Hne). rewrite length_app, length_replicate in Hn. cbn [length] in Hn.
  rewrite flushLevel_blank in Ef by done. unfold flush_references in Ef. inv_go.
  match goal with Ha : addReference _ _ _ _ = (Ok ?l, _) |- _ => apply addReference_shape in Ha as [Hnil Hs]; rename l into rest end.
  assert (concat (blank k ++ [] :: rest) = concat rest) as Ec.
  { rewrite concat_app. replace (concat (blank k)) with ([] : list domainPageRef) by (clear; by induction k). done. }
  split; [lia|]. destruct Hs as [Hlen|[r' Hr']]; [right|left; unfold total_references; by rewrite Ec, Hr'].
  intros k' (references' & above' & E' & Hne')%lowest_Some. rewrite length_app, length_replicate. cbn [length].
  assert (k < k')%nat as Hk; [|lia]. destruct (decide (k < k')%nat) as [|Hge]; [done|exfalso].
  apply (f_equal (λ l, l !! k')) in E'. rewrite (list_lookup_middle (blank k')) in E' by (by rewrite length_replicate).
  destruct (decide (k' = k)) as [->|?].
  - rewrite (list_lookup_middle (blank k)) in E' by (by rewrite length_replicate). by injection E' as <-.
  - rewrite lookup_app_l in E' by (rewrite length_replicate; lia). apply lookup_replicate in E' as [E' _]. by subst.
Qed.

(** More fuel than [Finish] has makes no difference. *)
Lemma finish_fuel_enough ls fuel st : (finish_fuel ls ≤ fuel)%nat → finish_loop fuel ls st = finish_loop (finish_fuel ls) ls st.
Proof. intros Hf. apply finish_enough; [|done]. unfold finish_fuel. split; [lia|]. right. intros k _. lia. Qed.
End Builder.
End BuilderTheory.

(** * Merging trees keeps every entry

    The tree that [mergeNamespaceProjectionRuns] builds holds the entries of all
    its runs, each once and in key order; runs that share a key are refused. *)

Module MergeTheory.
Import StorageFormat PageTheory DomainTree TreeTheory TreeRead TreeWrite TreeEdit TreeIterator TreeBuilder TreeMerge IteratorTheory BuilderTheory GoHeap.

#[export] Instance heap_less_order : PreOrder (R heap_less).
Proof.
  split; unfold R, heap_less.
  - intros x. apply not_true_iff_false. rewrite bytes_ltb_lt, <-bytes_le_nlt. done.
  - intros x y z. rewrite <-!not_true_iff_false, !bytes_ltb_lt, <-!bytes_le_nlt. by etrans.
Qed.

Lemma heap_less_weak x y : heap_less x y = true → R heap_less x y.
Proof. unfold R, heap_less. rewrite <-not_true_iff_false, !bytes_ltb_lt. by intros ?%bytes_lt_asym. Qed.

Section Merge.
Context `{SHA256} {St : Type} `{!PageStore St, !PageCache St, !PageView St, !PageStoreLaws St, !PageCacheLaws St}.

Lemma Next_growing fuel frames : growing (Next fuel frames).
Proof. apply growing_Next. Qed.

(** What a call of [Next] takes from an iterator that stands before [es]. *)
Lemma Next_takes frames st es x st' :
  ps_inv st → stands st frames es → Next 2 frames st = (x, st') →
  grows st st' ∧ (no_collision st' → ∀ found frames', x = Ok (found, frames') →
    found = clone_entry <$> head es ∧ stands st' frames' (tail es)).
Proof.
  intros Hi Hst E. pose proof (Next_ok _ _ _ Hi Hst) as Hn. split; [by eapply Next_growing|]. intros Hnc found frames' ->.
  destruct es as [|e es].
  - destruct (Hn st (grows_refl _ Hi) _ _ E) as [_ Ha]. specialize (Ha Hnc). apply answered_Ok in Ha. by injection Ha as -> ->.
  - destruct Hn as (frames1 & Hy & Hst1). destruct (Hy st (grows_refl _ Hi) _ _ E) as [Hg Ha]. specialize (Ha Hnc). apply answered_Ok in Ha.
    injection Ha as -> ->. split; [done|]. eapply stands_extends; [apply Hg|done].
Qed.

(** ** The state of a merge *)

(** The runs still hold [rests] behind the entries on the heap. *)
Record merging (st : St) (iterators : list stack) (values : namespaceProjectionHeap) (rests : list (list DomainEntry)) : Prop := {
  mg_stands : Forall2 (stands st) iterators rests;
  mg_heap : heap_ok heap_less values;
  mg_left i e r : rests !! i = Some (e :: r) → i ∈ map heap_run values;
}.

Definition left_over (values : namespaceProjectionHeap) (rests : list (list DomainEntry)) : list DomainEntry :=
  map heap_entry values ++ map clone_entry (concat rests).

Lemma push_found_ok values found run :
  heap_ok heap_less values →
  heap_ok heap_less (push_found values found run) ∧
  push_found values found run ≡ₚ (match found with Some e => [{| heap_entry := e; heap_run := run |}] | None => [] end) ++ values.
Proof.
  intros Hh. destruct found as [e|]; [|done]. destruct (heap_push_ok heap_less heap_less_order heap_less_weak values {| heap_entry := e; heap_run := run |} Hh). done.
Qed.

(** Taking the next entry of a run moves it onto the heap. *)
Lemma left_over_take values rests i r :
  rests !! i = Some r → heap_ok heap_less values →
  left_over (push_found values (clone_entry <$> head r) i) (<[i := tail r]> rests) ≡ₚ left_over values rests.
Proof.
  intros Hr Hh. destruct (push_found_ok values (clone_entry <$> head r) i Hh) as [_ Hp]. unfold left_over. rewrite Hp.
  destruct r as [|e r]; cbn [head fmap option_fmap option_map tail app map].
  { by rewrite list_insert_id. }
  rewrite (Permutation_middle _ _ (clone_entry e)). apply Permutation_app_head.
  change (clone_entry e :: map clone_entry (concat (<[i := r]> rests))) with (map clone_entry (e :: concat (<[i := r]> rests))). apply Permutation_map.
  pose proof (lookup_lt_Some _ _ _ Hr) as Hlt. rewrite <-(take_drop_middle _ _ _ Hr) at 2. rewrite insert_take_drop by done. rewrite !concat_app. cbn. solve_Permutation.
Qed.

Lemma merging_take st st' iterators values rests i r frames' :
  extends st st' → merging st iterators values rests → rests !! i = Some r → stands st' frames' (tail r) →
  ∀ values', heap_ok heap_less values' → (∀ j, j ≠ i → j ∈ map heap_run values → j ∈ map heap_run values') →
  merging st' (<[i := frames']> iterators) (push_found values' (clone_entry <$> head r) i) (<[i := tail r]> rests).
Proof.
  intros He [Hs Hh Hl] Hr Hst values' Hh' Hsub. destruct (push_found_ok values' (clone_entry <$> head r) i Hh') as [Hok Hp]. split; [|done|].
  - apply Forall2_insert; [|done]. eapply Forall2_impl; [exact Hs|]. intros ???. by eapply stands_extends.
  - intros j e r'. rewrite Hp, map_app, elem_of_app. destruct (decide (j = i)) as [->|Hne].
    + rewrite list_lookup_insert_eq by (by eapply lookup_lt_Some). intros [= Et]. left. destruct r as [|e0 r]; [done|]. by left.
    + rewrite list_lookup_insert_ne by done. intros Hj. right. apply Hsub; [done|by eapply Hl].
Qed.

(** ** The loop *)

Lemma merge_step_ok s item values' st x st' :
  ps_inv st → typed_levels (builder_levels (merge_builder s)) → merge_step s item values' st = (x, st') →
  grows st st' ∧ ∀ s', x = Ok s' → typed_levels (builder_levels (merge_builder s')) ∧
    ∀ rests, no_collision st' → merging st (merge_iterators s) (merge_values s) rests →
      merge_values s ≡ₚ item :: values' → heap_ok heap_less values' →
      (∀ es, given st (merge_builder s) es → given st' (merge_builder s') (es ++ [heap_entry item])) ∧
      ∃ rests', merging st' (merge_iterators s') (merge_values s') rests' ∧
        left_over (merge_values s) rests ≡ₚ heap_entry item :: left_over (merge_values s') rests'.
Proof.
  intros Hi Hty E. unfold merge_step in E. apply gom_bind_inv in E as (u & st0 & E0 & E). apply lift_inv in E0 as [-> ->].
  destruct (guard_err _ duplicate_key) as [[]|e]; [|destruct E as [-> ->]; by split; [apply grows_refl|]].
  apply gom_bind_inv in E as (y & st1 & E1 & E). destruct (add_loop_ok 2 _ _ _ _ _ Hi Hty E1) as [Hg1 Ha].
  destruct y as [b1|e]; [|by destruct E as [-> ->]]. destruct (Ha b1 eq_refl) as [Hty1 Hgiven1].
  destruct (merge_iterators s !! heap_run item) as [iterator|] eqn:Ei; [|apply (lift_inv (Err index_out_of_range)) in E as [-> ->]; by split].
  apply gom_bind_inv in E as (y & st2 & E2 & E). pose proof (Next_growing _ _ _ _ _ (proj1 Hg1) E2) as Hg2.
  assert (grows st st2) as Hg by by eapply grows_trans. destruct y as [[found iterator']|e]; [|by destruct E as [-> ->]].
  apply mret_inv in E as [-> ->]. split; [done|]. intros ? [= <-]. split; [done|]. cbn [merge_iterators merge_values merge_builder].
  intros rests Hn Hm Hperm Hok. destruct (Forall2_lookup_l _ _ _ _ _ (mg_stands _ _ _ _ Hm) Ei) as (r & Hr & Hst).
  apply (stands_extends _ st1) in Hst; [|apply Hg1]. destruct (Next_takes _ _ _ _ _ (proj1 Hg1) Hst E2) as [_ Hnext].
  destruct (Hnext Hn _ _ eq_refl) as [-> Hst']. split.
  { intros es Hes. eapply given_extends; [apply Hg2|]. apply Hgiven1; [|done]. eapply no_collision_extends; [apply Hg2|done]. }
  exists (<[heap_run item := tail r]> rests). split.
  - eapply merging_take; [apply Hg|done|done|done|done|]. intros j Hj. rewrite Hperm. by intros [?|?]%elem_of_cons.
  - rewrite left_over_take by done. unfold left_over. by rewrite Hperm.
Qed.

Lemma merge_loop_grows fuel : ∀ s st x st',
  ps_inv st → typed_levels (builder_levels (merge_builder s)) → merge_loop fuel s st = (x, st') →
  grows st st' ∧ ∀ b', x = Ok b' → typed_levels (builder_levels b').
Proof.
  induction fuel as [|fuel IH]; intros s st x st' Hi Hty E; cbn [merge_loop] in E; destruct (heap_pop _ _) as [[item values']|].
  2,4: apply mret_inv in E as [-> ->]; split; [by apply grows_refl|]; by intros ? [= <-].
  { apply (lift_inv (Err nontermination)) in E as [-> ->]. by split; [apply grows_refl|]. }
  apply gom_bind_inv in E as (y & st1 & E1 & E). destruct (merge_step_ok _ _ _ _ _ _ Hi Hty E1) as [Hg1 Hs].
  destruct y as [s1|e]; [|by destruct E as [-> ->]]. destruct (Hs s1 eq_refl) as [Hty1 _].
  destruct (IH _ _ _ _ (proj1 Hg1) Hty1 E) as [Hg2 Hb]. split; [by eapply grows_trans|done].
Qed.

(** The heap is empty only at the end. *)
Lemma merging_done st iterators rests : merging st iterators [] rests → left_over [] rests = [].
Proof.
  intros [_ _ Hl]. unfold left_over. cbn [map app]. enough (concat rests = []) as -> by done.
  assert (Forall (λ r, r = []) rests) as Hnil.
  { apply list.Forall_forall. intros [|e r] [i Hi]%list_elem_of_lookup; [done|]. apply Hl in Hi. by apply not_elem_of_nil in Hi. }
  clear Hl. induction Hnil as [|r rests -> _ IH]; done.
Qed.

Lemma heap_pop_nil : heap_pop heap_less [] = None.
Proof. done. Qed.

Lemma merge_loop_ok fuel : ∀ s st b' st' rests es,
  ps_inv st → typed_levels (builder_levels (merge_builder s)) → merge_loop fuel s st = (Ok b', st') → no_collision st' →
  merging st (merge_iterators s) (merge_values s) rests → given st (merge_builder s) es →
  ∃ es', es' ≡ₚ left_over (merge_values s) rests ∧ given st' b' (es ++ es').
Proof.
  induction fuel as [|fuel IH]; intros s st b' st' rests es Hi Hty E Hn Hm Hg; cbn [merge_loop] in E.
  all: destruct (decide (merge_values s = [])) as [Ev|Hne];
    [rewrite Ev in *; apply mret_inv in E as [E ->]; injection E as ->; exists []; rewrite app_nil_r, (merging_done _ _ _ Hm); by split|].
  all: destruct (heap_pop_ok heap_less heap_less_order heap_less_weak _ (mg_heap _ _ _ _ Hm) Hne) as (item & values' & Epop & Hperm & Hok & _); rewrite Epop in E.
  { done. }
  apply gom_bind_inv in E as (y & st1 & E1 & E). destruct (merge_step_ok _ _ _ _ _ _ Hi Hty E1) as [Hg1 Hs].
  destruct y as [s1|e]; [|by destruct E]. destruct (Hs s1 eq_refl) as [Hty1 Hstep].
  pose proof (merge_loop_grows _ _ _ _ _ (proj1 Hg1) Hty1 E) as [Hg2 _].
  destruct (Hstep rests) as (Hgiven & rests' & Hm' & Hleft); [eapply no_collision_extends; [apply Hg2|done]|done..|].
  destruct (IH _ _ _ _ _ _ (proj1 Hg1) Hty1 E Hn Hm' (Hgiven _ Hg)) as (es' & Hp & Hg'). exists (heap_entry item :: es').
  split; [by rewrite Hp|]. by rewrite <-(assoc_L (++)) in Hg'.
Qed.

(** As many rounds as there are entries left are enough. *)
Lemma merge_loop_enough fuel : ∀ more s st rests,
  ps_inv st → typed_levels (builder_levels (merge_builder s)) → no_collision (snd (merge_loop fuel s st)) →
  merging st (merge_iterators s) (merge_values s) rests → (length (left_over (merge_values s) rests) ≤ fuel ≤ more)%nat →
  merge_loop more s st = merge_loop fuel s st.
Proof.
  induction fuel as [|fuel IH]; intros more s st rests Hi Hty Hn Hm Hf.
  - assert (merge_values s = []) as Ev.
    { destruct (merge_values s) as [|v vs]; [done|]. unfold left_over in Hf. cbn in Hf. lia. }
    by destruct more; cbn [merge_loop]; rewrite Ev, heap_pop_nil.
  - destruct more as [|more]; [lia|]. cbn [merge_loop] in *.
    destruct (decide (merge_values s = [])) as [Ev|Hne]; [by rewrite Ev, heap_pop_nil|].
    destruct (heap_pop_ok heap_less heap_less_order heap_less_weak _ (mg_heap _ _ _ _ Hm) Hne) as (item & values' & Epop & Hperm & Hok & _). rewrite Epop in *.
    unfold mbind, gom_bind in *. destruct (merge_step s item values' st) as [[s1|e] st1] eqn:E1; [|done].
    destruct (merge_step_ok _ _ _ _ _ _ Hi Hty E1) as [Hg1 Hs]. destruct (Hs s1 eq_refl) as [Hty1 Hstep].
    destruct (merge_loop fuel s1 st1) as [x st'] eqn:E. pose proof (merge_loop_grows _ _ _ _ _ (proj1 Hg1) Hty1 E) as [Hg2 _]. cbn [snd] in Hn.
    destruct (Hstep rests) as (_ & rests' & Hm' & Hleft); [eapply no_collision_extends; [apply Hg2|done]|done..|].
    rewrite <-E. apply (IH _ _ _ rests'); [apply Hg1|done|by rewrite E|done|]. rewrite Hleft in Hf. cbn in Hf. lia.
Qed.

(** ** Opening the runs *)

(** The first entries of the runs, as they go onto the heap. *)
Fixpoint firsts (index : nat) (ess : list (list DomainEntry)) : namespaceProjectionHeap :=
  match ess with
  | [] => []
  | es :: ess => (match head es with Some e => [{| heap_entry := clone_entry e; heap_run := index |}] | None => [] end) ++ firsts (S index) ess
  end.

Lemma growing_newIterator root : growing (newIterator root).
Proof. unfold newIterator. case_bool_decide; [apply growing_descend|apply growing_ret]. Qed.

Lemma growing_open_runs runs : ∀ index values, growing (open_runs index runs values).
Proof.
  induction runs as [|root runs IH]; intros index values; cbn [open_runs]; [apply growing_ret|]. apply growing_bind; [apply growing_newIterator|].
  intros iterator. apply growing_bind; [apply Next_growing|]. intros [entry iterator']. apply growing_bind; [apply IH|]. intros [iterators values']. apply growing_ret.
Qed.

Lemma newIterator_stands root es st x st' :
  ps_inv st → holds st root es → newIterator root st = (x, st') → no_collision st' → ∀ frames, x = Ok frames → stands st' frames es.
Proof.
  intros Hi Hh E Hn frames ->. destruct (newIterator_ok _ _ _ Hi Hh) as (frames' & Hy & Hst).
  destruct (Hy st (grows_refl _ Hi) _ _ E) as [Hg Ha]. specialize (Ha Hn). apply answered_Ok in Ha as ->. eapply stands_extends; [apply Hg|done].
Qed.

Lemma open_runs_ok runs : ∀ ess index values st iterators values' st',
  ps_inv st → Forall2 (holds st) runs ess → heap_ok heap_less values → open_runs index runs values st = (Ok (iterators, values'), st') → no_collision st' →
  Forall2 (stands st') iterators (tail <$> ess) ∧ heap_ok heap_less values' ∧ values' ≡ₚ firsts index ess ++ values.
Proof.
  induction runs as [|root runs IH]; intros ess index values st iterators values' st' Hi Hr Hh E Hn; inversion Hr as [|? es ? ess' Hes Hess]; subst; cbn [open_runs] in E.
  { apply mret_inv in E as [E ->]. injection E as -> ->. split; [constructor|]. by split. }
  apply gom_bind_inv in E as (y & st1 & E1 & E). pose proof (growing_newIterator _ _ _ _ Hi E1) as Hg1. destruct y as [iterator|e]; [|by destruct E].
  apply gom_bind_inv in E as (y & st2 & E2 & E). pose proof (Next_growing _ _ _ _ _ (proj1 Hg1) E2) as Hg2. destruct y as [[entry iterator']|e]; [|by destruct E].
  apply gom_bind_inv in E as (y & st3 & E3 & E). pose proof (growing_open_runs _ _ _ _ _ _ (proj1 Hg2) E3) as Hg3. destruct y as [[iterators' values'']|e]; [|by destruct E].
  apply mret_inv in E as [E ->]. injection E as -> ->.
  assert (no_collision st2) as Hn2 by (eapply no_collision_extends; [apply Hg3|done]). assert (no_collision st1) as Hn1 by (eapply no_collision_extends; [apply Hg2|done]).
  pose proof (newIterator_stands _ _ _ _ _ Hi Hes E1 Hn1 _ eq_refl) as Hst. destruct (Next_takes _ _ _ _ _ (proj1 Hg1) Hst E2) as [_ Ht].
  destruct (Ht Hn2 _ _ eq_refl) as [-> Hst']. destruct (push_found_ok values (clone_entry <$> head es) index Hh) as [Hok Hp].
  destruct (IH ess' (S index) _ _ _ _ _ (proj1 Hg2) ltac:(eapply Forall2_impl; [exact Hess|]; intros ???; eapply holds_extends; [|done]; trans st1; [apply Hg1|apply Hg2]) Hok E3 Hn) as (H1 & H2 & H3).
  split; [constructor; [eapply stands_extends; [apply Hg3|done]|done]|]. split; [done|]. rewrite H3, Hp. cbn [firsts]. destruct (head es); cbn [fmap option_fmap option_map]; solve_Permutation.
Qed.

Lemma firsts_run ess : ∀ index i e r, ess !! i = Some (e :: r) → (index + i)%nat ∈ map heap_run (firsts index ess).
Proof.
  induction ess as [|es ess IH]; intros index [|i] e r Hl; [done..| |]; cbn in Hl; cbn [firsts]; rewrite map_app, elem_of_app.
  - injection Hl as ->. left. rewrite Nat.add_0_r. by left.
  - right. rewrite <-Nat.add_succ_comm. by eapply IH.
Qed.

Lemma firsts_entries ess index : map heap_entry (firsts index ess) ++ map clone_entry (concat (tail <$> ess)) ≡ₚ map clone_entry (concat ess).
Proof.
  revert index. induction ess as [|es ess IH]; intros index; [done|]. cbn [firsts fmap list_fmap concat]. rewrite !map_app, <-(IH (S index)).
  destruct es as [|e es]; cbn; [done|]. solve_Permutation.
Qed.

(** ** Merging *)

Lemma typed_start iterators values : typed_levels (builder_levels (merge_builder (merge_start iterators values))).
Proof. constructor. Qed.

Lemma merge_grows runs st x st' : ps_inv st → mergeNamespaceProjectionRuns runs st = (x, st') → grows st st'.
Proof.
  intros Hi E. unfold mergeNamespaceProjectionRuns in E. apply gom_bind_inv in E as (y & st1 & E1 & E). pose proof (growing_open_runs _ _ _ _ _ _ Hi E1) as Hg1.
  destruct y as [[iterators values]|e]; [|by destruct E as [-> ->]]. apply gom_bind_inv in E as (y & st2 & E2 & E).
  destruct (merge_loop_grows _ _ _ _ _ (proj1 Hg1) (typed_start _ _) E2) as [Hg2 Hb]. assert (grows st st2) as Hg by by eapply grows_trans.
  destruct y as [b|e]; [|by destruct E as [-> ->]]. destruct (Finish_ok _ _ _ _ (proj1 Hg2) (Hb b eq_refl) E) as [Hg3 _]. by eapply grows_trans.
Qed.

Lemma heap_nil : heap_ok heap_less [].
Proof. intros i x y _ _ Hx. by rewrite lookup_nil in Hx. Qed.

(** The state in which the loop starts. *)
Lemma opened runs ess st iterators values st' :
  ps_inv st → Forall2 (holds st) runs ess → open_runs 0 runs [] st = (Ok (iterators, values), st') → no_collision st' →
  merging st' iterators values (tail <$> ess) ∧ left_over values (tail <$> ess) ≡ₚ map clone_entry (concat ess).
Proof.
  intros Hi Hr E Hn. destruct (open_runs_ok _ _ _ _ _ _ _ _ Hi Hr heap_nil E Hn) as (H1 & H2 & H3). rewrite app_nil_r in H3. split.
  - split; [done|done|]. intros i e r (es & Het & Hl)%list_lookup_fmap_Some. rewrite H3. destruct es as [|e0 es]; [done|]. by apply (firsts_run ess 0 i e0 es).
  - unfold left_over. rewrite H3. apply firsts_entries.
Qed.

(** The merged tree holds the entries of all runs. *)
Lemma merge_holds runs ess st root st' :
  ps_inv st → Forall2 (holds st) runs ess → mergeNamespaceProjectionRuns runs st = (Ok root, st') → no_collision st' →
  ∃ es, holds st' root es ∧ es ≡ₚ map clone_entry (concat ess).
Proof.
  intros Hi Hr E Hn. unfold mergeNamespaceProjectionRuns in E. apply gom_bind_inv in E as (y & st1 & E1 & E). pose proof (growing_open_runs _ _ _ _ _ _ Hi E1) as Hg1.
  destruct y as [[iterators values]|e]; [|by destruct E]. apply gom_bind_inv in E as (y & st2 & E2 & E).
  destruct (merge_loop_grows _ _ _ _ _ (proj1 Hg1) (typed_start _ _) E2) as [Hg2 Hb]. destruct y as [b|e]; [|by destruct E].
  destruct (Finish_ok _ _ _ _ (proj1 Hg2) (Hb b eq_refl) E) as [Hg3 Hroot]. assert (no_collision st2) as Hn2 by (eapply no_collision_extends; [apply Hg3|done]).
  destruct (opened _ _ _ _ _ _ Hi Hr E1 ltac:(eapply no_collision_extends; [apply Hg2|done])) as [Hm Hl].
  destruct (merge_loop_ok _ _ _ _ _ _ [] (proj1 Hg1) (typed_start _ _) E2 Hn2 Hm (given_new st1)) as (es & Hp & Hg). exists es.
  split; [by apply (Hroot root eq_refl)|]. by rewrite Hp.
Qed.

(** The loop has rounds enough for the entries of its runs. *)
Lemma merge_fuel_enough runs ess st iterators values st' more :
  ps_inv st → Forall2 (holds st) runs ess → open_runs 0 runs [] st = (Ok (iterators, values), st') → (merge_fuel runs ≤ more)%nat →
  let s := merge_start iterators values in
  no_collision (snd (merge_loop (merge_fuel runs) s st')) → merge_loop more s st' = merge_loop (merge_fuel runs) s st'.
Proof.
  intros Hi Hr E Hmore s Hn. pose proof (growing_open_runs _ _ _ _ _ _ Hi E) as Hg1.
  destruct (merge_loop (merge_fuel runs) s st') as [x st2] eqn:E2. cbn [snd] in Hn. rewrite <-E2.
  destruct (merge_loop_grows _ _ _ _ _ (proj1 Hg1) (typed_start _ _) E2) as [Hg2 _].
  destruct (opened _ _ _ _ _ _ Hi Hr E ltac:(eapply no_collision_extends; [apply Hg2|done])) as [Hm Hl].
  apply (merge_loop_enough _ _ _ _ (tail <$> ess)); [apply Hg1|apply typed_start|by rewrite E2|done|]. split; [|done]. change (merge_values s) with values. rewrite Hl, length_map.
  clear -Hr Hi PageStoreLaws0. unfold merge_fuel. induction Hr as [|root es runs ess Hh _ IH]; cbn; [lia|]. rewrite length_app.
  destruct Hh as [[_ ->]|[_ [l Hl]]]; [cbn; lia|]. destruct (holds_level _ _ _ _ Hi Hl) as [_ Hc]. rewrite Hc. unfold len. lia.
Qed.

(** ** Rounds *)

Lemma merge_groups_ok fuel : ∀ runs st x st', ps_inv st → merge_groups fuel runs st = (x, st') →
  grows st st' ∧ ∀ next, x = Ok next → (32 * length next < 32 + length runs)%nat ∧
    ∀ ess, no_collision st' → Forall2 (holds st) runs ess →
      ∃ ess', Forall2 (holds st') next ess' ∧ map clone_entry (concat ess') ≡ₚ map clone_entry (concat ess).
Proof.
  induction fuel as [|fuel IH]; intros runs st x st' Hi E.
  { destruct runs as [|root runs]; cbn in E; [|by injection E as <- <-; split; [apply grows_refl|]].
    apply mret_inv in E as [-> ->]. split; [by apply grows_refl|]. intros ? [= <-]. split; [cbn; lia|]. intros ess _ Hr. inversion Hr; subst. by exists []. }
  destruct runs as [|root0 runs0].
  { apply mret_inv in E as [-> ->]. split; [by apply grows_refl|]. intros ? [= <-]. split; [cbn; lia|]. intros ess _ Hr. inversion Hr; subst. by exists []. }
  set (runs := root0 :: runs0) in *. cbn [merge_groups] in E. fold runs in E.
  apply gom_bind_inv in E as (y & st1 & E1 & E). pose proof (merge_grows _ _ _ _ Hi E1) as Hg1. destruct y as [root|e]; [|by destruct E as [-> ->]].
  apply gom_bind_inv in E as (y & st2 & E2 & E). destruct (IH _ _ _ _ (proj1 Hg1) E2) as [Hg2 Hnext]. assert (grows st st2) as Hg by by eapply grows_trans.
  destruct y as [next|e]; [|by destruct E as [-> ->]]. apply mret_inv in E as [-> ->]. split; [done|]. intros ? [= <-].
  destruct (Hnext next eq_refl) as [Hlen Hess']. split.
  { rewrite length_drop in Hlen. unfold namespaceProjectionMergeFanIn in Hlen. cbn [length]. assert (1 ≤ length runs)%nat by (subst runs; cbn; lia). lia. }
  intros ess Hn Hr. rewrite <-(take_drop namespaceProjectionMergeFanIn runs) in Hr. apply Forall2_app_inv_l in Hr as (ess1 & ess2 & H1 & H2 & ->).
  destruct (merge_holds _ _ _ _ _ Hi H1 E1 ltac:(eapply no_collision_extends; [apply Hg2|done])) as (es & Hes & Hp).
  destruct (Hess' ess2 Hn) as (ess' & Hh' & Hp'); [eapply Forall2_impl; [exact H2|]; intros ???; eapply holds_extends; [apply Hg1|done]|].
  exists (es :: ess'). split; [constructor; [eapply holds_extends; [apply Hg2|done]|done]|]. cbn. rewrite concat_app, !map_app, Hp', Hp.
  apply Permutation_app_tail. rewrite map_map. erewrite map_ext; [done|]. intros e. unfold clone_entry. cbn. by destruct (Entry_Value e) as [[]|].
Qed.

Lemma merge_rounds_ok fuel : ∀ runs st x st', ps_inv st → merge_rounds fuel runs st = (x, st') →
  grows st st' ∧ ∀ last, x = Ok last → (length last ≤ 1)%nat ∧
    ∀ ess, no_collision st' → Forall2 (holds st) runs ess →
      ∃ ess', Forall2 (holds st') last ess' ∧ map clone_entry (concat ess') ≡ₚ map clone_entry (concat ess).
Proof.
  induction fuel as [|fuel IH]; intros runs st x st' Hi E; cbn [merge_rounds] in E; destruct (Nat.leb_spec (length runs) 1).
  1,3: apply mret_inv in E as [-> ->]; split; [by apply grows_refl|]; intros ? [= <-]; split; [done|]; intros ess _ Hr; by exists ess.
  { apply (lift_inv (Err nontermination)) in E as [-> ->]. by split; [apply grows_refl|]. }
  apply gom_bind_inv in E as (y & st1 & E1 & E). destruct (merge_groups_ok _ _ _ _ _ Hi E1) as [Hg1 Hnext]. destruct y as [next|e]; [|by destruct E as [-> ->]].
  destruct (IH _ _ _ _ (proj1 Hg1) E) as [Hg2 Hlast]. split; [by eapply grows_trans|]. intros last ->. destruct (Hlast last eq_refl) as [Hl Hls]. split; [done|].
  intros ess Hn Hr. destruct (Hnext next eq_refl) as [_ Hgr]. destruct (Hgr ess) as (ess1 & H1 & Hp1); [eapply no_collision_extends; [apply Hg2|done]|done|].
  destruct (Hls ess1 Hn H1) as (ess2 & H2 & Hp2). exists ess2. split; [done|]. by rewrite Hp2.
Qed.

(** As many rounds as runs are enough. *)
Lemma merge_rounds_enough fuel : ∀ more runs st, ps_inv st → (length runs ≤ S fuel)%nat → (fuel ≤ more)%nat → merge_rounds more runs st = merge_rounds fuel runs st.
Proof.
  induction fuel as [|fuel IH]; intros [|more] runs st Hi Hl Hm; [done| |lia|]; cbn [merge_rounds]; destruct (Nat.leb_spec (length runs) 1); [done|lia|done|].
  unfold mbind, gom_bind. destruct (merge_groups (length runs) runs st) as [[next|e] st1] eqn:E; [|done].
  destruct (merge_groups_ok _ _ _ _ _ Hi E) as [Hg Hnext]. destruct (Hnext next eq_refl) as [Hlen _]. apply IH; [apply Hg|lia|lia].
Qed.

Lemma merge_runs_ok runs st x st' : ps_inv st → merge_runs runs st = (x, st') →
  grows st st' ∧ ∀ root ess, x = Ok root → no_collision st' → Forall2 (holds st) runs ess →
    ∃ es, holds st' root es ∧ map clone_entry es ≡ₚ map clone_entry (concat ess).
Proof.
  intros Hi E. unfold merge_runs in E. apply gom_bind_inv in E as (y & st1 & E1 & E). destruct (merge_rounds_ok _ _ _ _ _ Hi E1) as [Hg Hl].
  destruct y as [last|e]; [|by destruct E as [-> ->]]. apply mret_inv in E as [-> ->]. split; [done|]. intros ? ess [= <-] Hn Hr.
  destruct (Hl last eq_refl) as [Hlen Hls]. destruct (Hls ess Hn Hr) as (ess' & Hh & Hp). destruct Hh as [|root es last' ess' Hh Hnil].
  - exists []. split; [apply holds_empty|]. exact Hp.
  - destruct Hnil; [|cbn in Hlen; lia]. exists es. split; [done|]. cbn in Hp. by rewrite app_nil_r in Hp.
Qed.
End Merge.
End MergeTheory.
