(* ===== verification/StreamProps.v ===== *)
(** * Streaming sessions and what streaming guarantees *)

From Stdlib Require Import ZArith Lia.
From S2P Require Import Prelude GoLib GoHash GoJSON GoTime Errors ObjectStore DomainPage DomainPageTheory DomainTree TreeTheory TreeRead TreeGroups TreeEdit DomainPack DomainSession TreeStream DomainProvider SessionLaws PackTheory SessionReader IteratorTheory StreamTheory.

Open Scope Z_scope.

(** * Sessions that stream

    A session that neither packs its writes nor has a pack writes every page as
    an object of its own.  What it resolves is what is stored, whatever it drops
    from its cache, so the builder and the iterators can run on it. *)

Module SessionStream.
Import StorageFormat PageTheory DomainTree TreeTheory TreeRead TreeIterator TreeBuilder TreeMerge DomainPack DomainSession DomainProvider SessionLaws PackTheory SessionReader IteratorTheory BuilderTheory MergeTheory.

(** ** Plain sessions *)

Section Plain.
Context `{SHA256} `{GZIP} {B : Type} `{!BlobStore B}.
Variables (reference : consistencyDomainRef) (pageKey packKey : gostring → res ObjectStore.Key).

Definition plain (s : Session B) : Prop := packID s = [] ∧ packedWrites s = false.

Definition keeps_plain {A} (m : GoM (Session B) error A) : Prop := ∀ s x s', plain s → m s = (x, s') → plain s'.

Lemma plain_ret {A} (a : A) : keeps_plain (mret a).
Proof. by intros s x s' Hs [_ ->]%mret_inv. Qed.

Lemma plain_lift {A} (r : res A) : keeps_plain (lift r).
Proof. by intros s x s' Hs [_ ->]%lift_inv. Qed.

Lemma plain_throw {A} (e : error) : keeps_plain (throw e : GoM (Session B) error A).
Proof. apply (plain_lift (Err e)). Qed.

Lemma plain_throw_if b (e : error) : keeps_plain (throw_if b e).
Proof. apply plain_lift. Qed.

Lemma plain_get : keeps_plain (get : GoM (Session B) error (Session B)).
Proof. by intros s x s' Hs [= _ <-]. Qed.

Lemma plain_backend {A} (m : GoM B error A) : keeps_plain (on_backend m).
Proof. intros s x s' Hs. unfold on_backend. destruct (m (backend s)) as [y b]. by intros [= _ <-]. Qed.

Lemma plain_modify f : (∀ s, plain s → plain (f s)) → keeps_plain (modify f : GoM (Session B) error unit).
Proof. intros Hf s x s' Hs [= _ <-]. by apply Hf. Qed.

Lemma plain_bind {A C} (m : GoM (Session B) error A) (f : A → GoM (Session B) error C) :
  keeps_plain m → (∀ a, keeps_plain (f a)) → keeps_plain (m ≫= f).
Proof.
  intros Hm Hf s x s' Hs (y & s1 & E1 & E)%gom_bind_inv. pose proof (Hm _ _ _ Hs E1) as Hs1. destruct y as [a|e]; [by eapply Hf|by destruct E as [_ ->]].
Qed.

Create HintDb plain.
#[local] Hint Resolve plain_ret plain_lift plain_throw plain_throw_if plain_get plain_backend : plain.

(** Follows the code. *)
Ltac plainly :=
  intros;
  lazymatch goal with
  | |- keeps_plain (_ ≫= _) => apply plain_bind; plainly
  | |- keeps_plain (modify _) => apply plain_modify; by intros ? []
  | |- keeps_plain (match ?x with _ => _ end) => destruct x; plainly
  | |- _ => try solve [eauto with plain]
  end.

Lemma plain_loadPack id : keeps_plain (loadPack None reference packKey id).
Proof.
  intros s x s' Hs E. unfold loadPack in E. destruct (packs s !! id); [by injection E as _ <-|]. revert s x s' Hs E.
  match goal with |- ∀ s x s', plain s → ?m s = (x, s') → plain s' => change (keeps_plain m) end. plainly.
Qed.
#[local] Hint Resolve plain_loadPack : plain.

Lemma plain_readPage r : keeps_plain (session_readPage None reference pageKey packKey r).
Proof. unfold session_readPage, fetch_page. plainly. Qed.

Lemma plain_pageChild r : keeps_plain (session_pageChild r : GoM (Session B) error DomainPageChild).
Proof. unfold session_pageChild. plainly. Qed.

Lemma plain_ensurePackID d s : plain s → session_ensurePackID reference d s = (Ok [], s).
Proof.
  intros [Hi Hp]. unfold session_ensurePackID, mbind, gom_bind, get. rewrite (bool_decide_eq_false_2 (packID s ≠ [])) by (intros Hn; by apply Hn). by rewrite Hp.
Qed.

Lemma plain_create key body collision : keeps_plain (create_or_match key body collision).
Proof.
  intros s x s' Hs E. unfold create_or_match in E. destruct (on_backend (blob_create key body) s) as [y s1] eqn:E1.
  pose proof (plain_backend _ _ _ _ Hs E1) as Hs1. destruct y as [u|e]; [by injection E as _ <-|]. clear Hs E1. revert s1 x s' Hs1 E.
  match goal with |- ∀ s x s', plain s → ?m s = (x, s') → plain s' => change (keeps_plain m) end. plainly.
Qed.
#[local] Hint Resolve plain_create : plain.

Lemma plain_publish p d body r : keeps_plain (publish_page reference pageKey p d body r).
Proof.
  intros s x s' Hs E. unfold publish_page in E. apply gom_bind_inv in E as (y & s1 & E1 & E). rewrite plain_ensurePackID in E1 by done. injection E1 as <- <-.
  rewrite bool_decide_eq_false_2 in E by (intros Hn; by apply Hn). revert s x s' Hs E.
  match goal with |- ∀ s x s', plain s → ?m s = (x, s') → plain s' => change (keeps_plain m) end. plainly.
Qed.
#[local] Hint Resolve plain_publish : plain.

Lemma plain_writePage p : keeps_plain (session_writePage reference pageKey p).
Proof. unfold session_writePage. plainly. Qed.
End Plain.

(** ** The laws *)

Section Stream.
Context `{SHA256} `{GZIP} {B : Type} `{!Provider B, !BlobView B, !BlobLaws B}.
Variables (reference : consistencyDomainRef) (pageKey packKey : gostring → res ObjectStore.Key).
Hypothesis pageKey_blob : ∀ d k, pageKey d = Ok k → blob_key k.
Hypothesis packKey_blob : ∀ d k, packKey d = Ok k → blob_key k.
#[local] Remove Hints session_pages session_view session_read_laws session_laws reader_view reader_laws : typeclass_instances.
#[local] Instance stream_pages : PageStore (Session B) := session_pages reference pageKey packKey.

Definition stream_inv (s : Session B) : Prop := session_inv reference pageKey packKey s ∧ plain s.

#[export] Instance stream_view : PageView (Session B) :=
  {| ps_inv := stream_inv; resolve s := stored reference pageKey packKey (backend s); ps_outage := blob_outage; ps_step := session_le |}.

Lemma stream_pending s : stream_inv s → pendingPack s = ∅.
Proof. intros [Hi [Hp _]]. exact (si_unnamed _ _ _ _ Hi Hp). Qed.

Lemma stream_reader s : stream_inv s → reader_inv reference pageKey packKey s.
Proof. intros Hs. split; [apply Hs|by apply stream_pending]. Qed.

Lemma stream_backed s d id p : stream_inv s → backed reference pageKey packKey s d id p → stored reference pageKey packKey (backend s) d id p.
Proof. intros Hs. apply reader_backed, stream_pending, Hs. Qed.

Lemma stream_grows s s' : session_step reference pageKey packKey s s' → plain s' → grows s s'.
Proof. intros [Hi Hb _ _] Hp. split; [by split|]. split; [done|]. intros d k p. by apply stored_le. Qed.

#[export] Instance stream_read_laws : PageReadLaws (Session B).
Proof.
  assert (∀ s r x s', stream_inv s → readPage r s = (x, s') → grows s s' ∧ ∀ p, x = Ok p → readable s' r p) as Hsound.
  { intros s r x s' Hs E. destruct (session_read_spec _ _ _ pageKey_blob packKey_blob _ _ _ _ (proj1 Hs) E) as (Hstep & _ & Hread).
    pose proof (plain_readPage _ _ _ _ _ _ _ (proj2 Hs) E) as Hp. split; [by apply stream_grows|]. intros p ->. destruct (Hread p eq_refl) as [Hv (id & Hid)].
    split; [done|]. exists id. apply stream_backed; [|done]. split; [apply Hstep|done]. }
  split; [|..|exact Hsound].
  - intros s d k p _ [(_ & _ & Hok & Hty) _]. done.
  - intros s r p Hs [Hres Hv] x s' E. destruct (Hsound _ _ _ _ Hs E) as [Hg _]. split; [done|]. intros Hn.
    eapply (session_read_exact reference pageKey packKey); [done|done|apply Hs| |exact E|].
    + split; [by left|done].
    + intros d k k' q q' Hq%(stream_backed _ _ _ _ (proj1 Hg)) Hq'%(stream_backed _ _ _ _ (proj1 Hg)). exact (Hn _ _ _ _ _ Hq Hq').
Qed.

#[export] Instance stream_laws : PageStoreLaws (Session B).
Proof.
  split; [apply _|..].
  - intros s p x s' Hs Hty Hid Hk E. destruct (session_write_spec _ _ _ pageKey_blob _ _ _ _ (proj1 Hs) Hty Hid Hk E) as [Hstep Hr].
    pose proof (plain_writePage _ _ _ _ _ _ (proj2 Hs) E) as Hp. split; [by apply stream_grows|]. intros r ->. destruct (Hr r eq_refl) as [Hb Hd].
    split; [|done]. apply stream_backed; [|done]. split; [apply Hstep|done].
  - intros s d x s' Hs E. change (session_ensurePackID reference d s = (x, s')) in E. rewrite plain_ensurePackID in E by apply Hs. injection E as _ <-. by apply grows_refl.
  - intros s r x s' Hs E. destruct (page_child_spec _ _ _ _ _ _ _ (proj1 Hs) E) as [-> Hc]. split; [by apply grows_refl|]. intros c ->.
    destruct (Hc c eq_refl) as (H1 & H2 & H3 & H4). split; [done|]. split; [done|]. split; [done|]. intros p [Hp Hv].
    destruct (H4 p) as (p' & Hp' & Hv'); [split; [by left|done]|]. exists p'. split; [by apply stream_backed|done].
  - intros s b x s' Hs E. apply mret_inv in E as [-> ->]. split; [done|]. apply stream_grows; [|exact (proj2 Hs)]. apply same_step; try done; [apply Hs|apply (si_packs _ _ _ _ (proj1 Hs))|by right].
Qed.

#[export] Instance stream_cache : PageCacheLaws (Session B).
Proof.
  intros d s Hs x s' E. injection E as <- <-. split; [|by intros _; left]. pose proof (stream_pending _ Hs) as Hpd. destruct Hs as [[I1 I2 I3 I4 I5 I6] Hp]. split; [split|].
  - split; try done; cbn.
    + intros d' p. rewrite lookup_delete_Some. intros [_ ?]. by apply I1.
    + intros d' p. by rewrite Hpd, lookup_empty.
  - done.
  - split; [|by intros]. change (blob_le (backend s) (backend s)). reflexivity.
Qed.

Lemma stream_new b : stream_inv (newSession b).
Proof. split; [apply session_inv_new|done]. Qed.

(** What a streaming session holds is what is stored. *)
Lemma stream_holds s root es : holds s root es ↔ tree_holds reference pageKey packKey (backend s) root es.
Proof.
  assert (∀ l r es, represents l s r es ↔ represents (PageView0 := reader_view reference pageKey packKey) l (newSession (backend s)) r es) as Hrep.
  { intros l. induction l as [|l IH]; intros r es'; [done|]. cbn [represents]. split; intros (p & ess & Hp & Hl & Hess & ->); exists p, ess;
      (split; [exact Hp|]; split; [done|]; split; [|done]; eapply Forall2_impl; [exact Hess|]; intros c es''; apply IH). }
  unfold tree_holds, holds. by setoid_rewrite Hrep.
Qed.

Lemma stream_no_collision s : collision_free (backend s) → no_collision s.
Proof. intros Hc d k k' p p'. by apply (collision_free_stored reference pageKey packKey). Qed.
End Stream.
End SessionStream.

(** * What streaming guarantees

    The builder and the merge on a session that streams to an object store. *)

Module StreamProps.
Import StorageFormat PageTheory DomainTree TreeTheory TreeRead TreeGroups TreeIterator TreeBuilder TreeMerge DomainPack DomainSession DomainProvider SessionLaws SessionReader IteratorTheory BuilderTheory MergeTheory SessionStream.

(** ** The size of the open leaf *)

Section Leaf.
Context `{SHA256} {St : Type} `{!PageStore St, !PageCache St}.

(** The open leaf encodes, and the builder knows how long its page is. *)
Definition exact_leaf (b : consistencyDomainTreeBuilder) : Prop :=
  builder_leaf b = [] ∨
  leaf_fits (builder_leaf b) ∧ leafCanonicalBytes b = len (json_page (leaf_page (builder_leaf b))) ∧ (length (builder_leaf b) ≤ domainPageMaximumItems)%nat.

(** Another entry makes the page longer by itself and a comma. *)
Lemma leaf_grows leaf e : leaf ≠ [] →
  len (json_page (leaf_page (leaf ++ [e]))) = len (json_page (leaf_page leaf)) + (1 + len (json_entry e)).
Proof.
  intros Hne. destruct leaf as [|x xs]; [done|]. destruct leaf_frame as (pre & post & Hf). cbn [app].
  rewrite (frame_size json_entry leaf_page pre post Hf x (xs ++ [e])), (frame_size json_entry leaf_page pre post Hf x xs), map_app.
  unfold members_size. rewrite foldr_app. cbn [map foldr]. generalize (len (json_entry e)). intros z. clear. induction (map json_entry xs) as [|m ms IH]; cbn; lia.
Qed.

Lemma fits_exactly es : es ≠ [] → leaf_fits es ↔ len (json_page (leaf_page es)) ≤ MaxCanonicalBytes.
Proof.
  destruct leaf_frame as (pre & post & Hf). apply (fits_size json_entry leaf_page pre post (λ e, json_object_len_pos _) Hf).
Qed.

Lemma open_exact b e b' : open_leaf b e = Ok b' → exact_leaf b'.
Proof.
  unfold open_leaf. destruct (EncodeCanonical _) as [body|] eqn:E; [|done]. intros [= <-]. right. unfold leaf_fits, fits. cbn [builder_leaf leafCanonicalBytes]. rewrite E.
  apply EncodeCanonical_Ok in E as [-> _]. split; [done|]. split; [done|]. cbn. unfold domainPageMaximumItems. lia.
Qed.

(** The arithmetic on sizes is right: there is room if the page would encode. *)
Lemma extend_exact b e : exact_leaf b → builder_leaf b ≠ [] →
  match extend_leaf b e with
  | Some b' => exact_leaf b' ∧ builder_leaf b' = builder_leaf b ++ [e] ∧ builder_levels b' = builder_levels b
  | None => length (builder_leaf b) = domainPageMaximumItems ∨ ¬ leaf_fits (builder_leaf b ++ [e])
  end.
Proof.
  intros [|(Hfit & Hsize & Hle)] Hne; [done|]. unfold extend_leaf. destruct (Nat.ltb_spec (length (builder_leaf b)) domainPageMaximumItems) as [Hlt|]; [|left; lia].
  assert (builder_leaf b ++ [e] ≠ []) as Hne' by by destruct (builder_leaf b). pose proof (leaf_grows _ e Hne) as Hgrow.
  assert (1 ≤ len (json_entry e)) as Hpos by apply json_object_len_pos. pose proof (len_nonneg (json_page (leaf_page (builder_leaf b)))) as H0.
  destruct (EncodeCanonical (json_entry e)) as [member|] eqn:E.
  - apply EncodeCanonical_Ok in E as [-> _]. destruct (Z.leb_spec (len (json_entry e)) (MaxCanonicalBytes - leafCanonicalBytes b - 1)) as [Hroom|Hfull].
    + split; [|done]. right. cbn [builder_leaf leafCanonicalBytes]. split; [apply fits_exactly; [done|lia]|]. split; [lia|]. rewrite length_app. cbn. lia.
    + right. rewrite fits_exactly by done. lia.
  - right. rewrite fits_exactly by done. intros Hsmall. by rewrite (proj2 (EncodeCanonical_Ok (json_entry e) (json_entry e))) in E by (split; [done|lia]).
Qed.

Lemma flushed_leaf b s b' s' : flushLeaf b s = (Ok b', s') → builder_leaf b' = [].
Proof.
  unfold flushLeaf. case_bool_decide as Hb; intros E; [by apply mret_inv in E as [[= ->] _]|]. apply gom_bind_inv in E as ([r|] & s1 & _ & E); [|by destruct E].
  apply gom_bind_inv in E as ([ls|] & s2 & _ & E); [|by destruct E]. by apply mret_inv in E as [[= ->] _].
Qed.

Lemma add_exact fuel : ∀ b e s b' s', exact_leaf b → add_loop fuel b e s = (Ok b', s') → exact_leaf b'.
Proof.
  induction fuel as [|fuel IH]; intros b e s b' s' Hb E; cbn [add_loop] in E; [done|]. case_bool_decide as Hne.
  { apply lift_inv in E as [E _]. by eapply open_exact. }
  pose proof (extend_exact b e Hb Hne) as He. destruct (extend_leaf b e) as [b1|]; [apply mret_inv in E as [[= ->] _]; by apply He|].
  apply gom_bind_inv in E as ([b1|] & s1 & E1 & E); [|by destruct E]. eapply IH; [|exact E]. left. by eapply flushed_leaf.
Qed.

(** Two rounds are enough for [Add]. *)
Lemma add_enough fuel b e s : add_loop (2 + fuel) b e s = Add b e s.
Proof.
  unfold Add. change (2 + fuel)%nat with (S (S fuel)). cbn [add_loop]. case_bool_decide; [done|]. destruct (extend_leaf b e); [done|]. unfold mbind, gom_bind.
  destruct (flushLeaf b s) as [[b1|] s1] eqn:E; [|done]. by rewrite bool_decide_eq_true_2 by by eapply flushed_leaf.
Qed.

Lemma add_all_exact es : ∀ b s b' s', exact_leaf b → add_all b es s = (Ok b', s') → exact_leaf b'.
Proof.
  induction es as [|e es IH]; intros b s b' s' Hb E; cbn [add_all] in E; [by apply mret_inv in E as [[= ->] _]|].
  apply gom_bind_inv in E as ([b1|] & s1 & E1 & E); [|by destruct E]. eapply IH; [|exact E]. by eapply add_exact.
Qed.

(** C32: the builder never re-encodes its open leaf, yet whatever it was given the
    leaf fits a page, the size it keeps is the length of that page's canonical
    encoding, and the next entry is turned away exactly when the leaf has 256
    entries or the longer page would exceed the limit of canonical documents. *)
Theorem builder_leaf_exact (es : list DomainEntry) (e : DomainEntry) (s s' : St) (b : consistencyDomainTreeBuilder) :
  add_all newConsistencyDomainTreeBuilder es s = (Ok b, s') → builder_leaf b ≠ [] →
  leaf_fits (builder_leaf b) ∧ leafCanonicalBytes b = len (json_page (leaf_page (builder_leaf b))) ∧ leafCanonicalBytes b ≤ MaxCanonicalBytes ∧
  (extend_leaf b e = None ↔ length (builder_leaf b) = domainPageMaximumItems ∨ ¬ leaf_fits (builder_leaf b ++ [e])).
Proof.
  intros E Hne. pose proof (add_all_exact _ _ _ _ _ (or_introl eq_refl : exact_leaf newConsistencyDomainTreeBuilder) E) as Hb.
  pose proof (extend_exact b e Hb Hne) as He. destruct Hb as [|(Hfit & Hsize & _)]; [done|]. split; [done|]. split; [done|].
  split; [rewrite Hsize; by apply fits_exactly|]. destruct (extend_leaf b e) as [b'|]; [|done]. destruct He as ([Hnil|(Hfit' & _ & Hlen)] & Hl & _).
  { rewrite Hl in Hnil. by destruct (builder_leaf b). }
  rewrite Hl in Hfit', Hlen. rewrite length_app in Hlen. cbn in Hlen. split; [done|]. intros [?|?]; [lia|done].
Qed.
End Leaf.

(** ** Streaming to an object store *)

Section Stream.
Context `{SHA256} `{GZIP} {B : Type} `{!Provider B, !BlobView B, !BlobLaws B}.
Variables (reference : consistencyDomainRef) (pageKey packKey : gostring → res ObjectStore.Key).
Hypothesis pageKey_blob : ∀ d k, pageKey d = Ok k → blob_key k.
Hypothesis packKey_blob : ∀ d k, packKey d = Ok k → blob_key k.
#[local] Remove Hints session_pages session_view session_read_laws session_laws reader_view reader_laws : typeclass_instances.
#[local] Instance object_pages : PageStore (Session B) := session_pages reference pageKey packKey.
#[local] Instance object_view : PageView (Session B) := stream_view reference pageKey packKey.
#[local] Instance object_laws : PageStoreLaws (Session B) := stream_laws reference pageKey packKey pageKey_blob packKey_blob.
#[local] Instance object_cache : PageCacheLaws (Session B) := stream_cache reference pageKey packKey.

(** C31: a tree built from a stream. If every entry was added and the builder
    finished, then what is stored at the root it returns is exactly the stream,
    which therefore was in strict key order and of valid entries; nothing stored
    was changed. The loops of the builder end by themselves: more rounds than the
    model allows them make no difference.  All this is for backends in which no
    two different pages share a digest ([collision_free]). *)
Theorem streamed_tree (es : list DomainEntry) (s s' : Session B) (root : DomainTreeRoot) :
  stream_inv reference pageKey packKey s → (b ← add_all newConsistencyDomainTreeBuilder es; Finish b) s = (Ok root, s') →
  blob_le (backend s) (backend s') ∧
  (collision_free (backend s') → tree_holds reference pageKey packKey (backend s') root es ∧ sorted_entries es ∧ Forall entry_ok es) ∧
  (∀ fuel b e t, add_loop (2 + fuel) b e t = Add b e t) ∧
  (∀ ls fuel t, (finish_fuel ls ≤ fuel)%nat → finish_loop fuel ls t = finish_loop (finish_fuel ls) ls t).
Proof.
  intros Hi E. change (ps_inv s) in Hi. apply gom_bind_inv in E as ([b|] & s1 & E1 & E); [|by destruct E].
  destruct (add_all_ok es newConsistencyDomainTreeBuilder s (Ok b) s1 Hi ltac:(constructor) E1) as [Hg1 Hb]. destruct (Hb b eq_refl) as [Hty Hgiven].
  destruct (Finish_ok b s1 (Ok root) s' (proj1 Hg1) Hty E) as [Hg2 Hroot]. split; [etransitivity; [apply Hg1|apply Hg2]|]. split; [|split; [intros; apply add_enough|intros; by apply finish_fuel_enough]].
  intros Hc. pose proof (stream_no_collision reference pageKey packKey s' Hc) as Hn. assert (holds s' root es) as Hh.
  { apply (Hroot root eq_refl); [done|]. apply (Hgiven []); [|apply given_new]. eapply no_collision_extends; [apply Hg2|done]. }
  split; [exact (proj1 (stream_holds _ _ _ _ _ _) Hh)|]. eapply holds_sorted; [apply Hg2|exact Hh].
Qed.

(** C30: merging sorted runs. Whatever their number, merging trees in rounds of up
    to 32 at a time and returning a root means that the stored tree at the root
    holds, in key order, all entries of the runs and nothing else; so no key was
    in two runs. The rounds, and the loop of every single merge, end by
    themselves.  All this is for backends in which no two different pages share a
    digest ([collision_free]). *)
Theorem merged_runs (runs : list DomainTreeRoot) (ess : list (list DomainEntry)) (s s' : Session B) (root : DomainTreeRoot) :
  stream_inv reference pageKey packKey s → Forall2 (tree_holds reference pageKey packKey (backend s)) runs ess →
  merge_runs runs s = (Ok root, s') →
  blob_le (backend s) (backend s') ∧
  (collision_free (backend s') →
    ∃ es, tree_holds reference pageKey packKey (backend s') root es ∧ sorted_entries es ∧ map clone_entry es ≡ₚ map clone_entry (concat ess)) ∧
  (∀ fuel, (length runs ≤ fuel)%nat → merge_rounds fuel runs s = merge_rounds (length runs) runs s) ∧
  (∀ iterators values t fuel, open_runs 0 runs [] s = (Ok (iterators, values), t) → (merge_fuel runs ≤ fuel)%nat →
    let start := merge_start iterators values in
    collision_free (backend (snd (merge_loop (merge_fuel runs) start t))) →
    merge_loop fuel start t = merge_loop (merge_fuel runs) start t).
Proof.
  intros Hi Hr E. change (ps_inv s) in Hi. assert (Forall2 (holds s) runs ess) as Hh by (eapply Forall2_impl; [exact Hr|]; intros ??; apply (proj2 (stream_holds _ _ _ _ _ _))).
  destruct (merge_runs_ok runs s (Ok root) s' Hi E) as [Hg Hroot]. split; [apply Hg|]. split; [|split].
  - intros Hc. destruct (Hroot root ess eq_refl (stream_no_collision reference pageKey packKey s' Hc) Hh) as (es & Hes & Hp). exists es.
    split; [exact (proj1 (stream_holds _ _ _ _ _ _) Hes)|]. split; [|done]. eapply holds_sorted; [apply Hg|exact Hes].
  - intros fuel Hf. apply merge_rounds_enough; [done|lia|done].
  - intros iterators values t fuel Ho Hf start Hc. eapply merge_fuel_enough; [exact Hi|exact Hh|exact Ho|exact Hf|]. by apply (stream_no_collision reference pageKey packKey).
Qed.
End Stream.
End StreamProps.
