(* ===== verification/StoreLaws.v ===== *)
(** * What the domain store needs of its provider

    Heads are objects that are replaced conditionally; pages, packs and
    snapshots are written once.  Other processes may act before every call;
    they follow the same protocol. *)

From Stdlib Require Import ZArith Lia.
From S2P Require Import Prelude GoLib GoHash GoJSON GoTime Errors ObjectStore DomainPage DomainPageTheory DomainTree TreeTheory TreeRead DomainPack DomainHead DomainSession TreeStream DomainProvider DomainCatalog DomainStore HeadTheory SessionLaws PackTheory SessionReader.

Open Scope Z_scope.

Module StoreLaws.
Import ObjectStore StorageFormat PageTheory DomainTree TreeTheory TreeRead DomainPack DomainHead HeadTheory DomainSession DomainProvider DomainCatalog DomainStore SessionLaws PackTheory SessionReader.

(** The objects that are replaced: which keys name them, the body and native
    version of each, and the body every version ever had.  [latest] is the latest
    reading of the clock so far; the clock itself may run backwards.  [offered]
    are the documents that were handed to create-only writes, refused or not. *)
Class ProviderView (B : Type) := {
  provider_blob_view :: BlobView B;
  mutable_key : ObjectStore.Key → Prop;
  heads : B → gmap gostring (gostring * gostring);
  history : B → gmap (gostring * gostring) gostring;
  latest : B → Z;
  offered : B → gset gostring;
}.

(** The precondition of a conditional write. *)
Definition allows (c : PutCondition) (current : option (gostring * gostring)) : Prop :=
  c = create_only ∧ current = None ∨ ∃ v body, c = put_match v ∧ current = Some (body, v).

(** [blob_le] is what happens without this process replacing a head: rivals may
    replace heads and anyone may create objects.  A conditional write takes
    effect at one instant, and its response may be lost. *)
Class ProviderLaws `{SHA256} (B : Type) `{!Provider B, !ProviderView B} : Prop := {
  provider_blob_laws :: BlobLaws B;
  page_key_blob reference d k : session_pageKey reference d = Ok k → blob_key k;
  pack_key_blob reference d k : session_packKey reference d = Ok k → blob_key k;
  catalog_key_blob d k : DomainCatalogPageKey d = Ok k → blob_key k;
  head_key_mutable reference k : head_key reference = Ok k → mutable_key k;
  catalog_key_mutable k : DomainCatalogHeadKey = Ok k → mutable_key k;
  history_le b b' : blob_le b b' → history b ⊆ history b';
  latest_le b b' : blob_le b b' → latest b ≤ latest b';
  offered_le b b' : blob_le b b' → offered b ⊆ offered b';
  heads_history b k body v : heads b !! k = Some (body, v) → history b !! (k, v) = Some body;
  get_sound b k x b' :
    mutable_key k → obj_get k b = (x, b') →
    blob_le b b' ∧
    match x with
    | Ok o => heads b' !! key_value k = Some (Object_Body o, Object_Version o)
    | Err e => errors_Is e ErrNotFound = true → heads b' !! key_value k = None
    end;
  put_sound b k body c x b' :
    mutable_key k → obj_put k body c b = (x, b') →
    ∃ b1, blob_le b b1 ∧
      ((∀ v, x ≠ Ok v) ∧ b' = b1 ∨
       ∃ v, allows c (heads b1 !! key_value k) ∧ (∀ v', x = Ok v' → v' = v) ∧
         heads b' = <[key_value k := (body, v)]> (heads b1) ∧ blob_contents b' = blob_contents b1 ∧
         history b1 ⊆ history b' ∧ latest b1 ≤ latest b' ∧ offered b1 ⊆ offered b');
  put_offers b k body x b' : blob_key k → obj_put k body create_only b = (x, b') → body ∈ offered b';
  clock_sound b t b' : clock_now b = (t, b') → blob_le b b' ∧ t ≤ latest b';
  step_sound step b x b' : sched_step step b = (x, b') → blob_le b b';
}.

(** ** Roots fit their Go types *)

Lemma entries_bound `{SHA256} p digest : page_ok p digest → len (Page_Entries p) ≤ MaxUint64.
Proof.
  intros Hok. destruct (proj1 (EncodeCanonical_Ok _ _) (po_body _ _ Hok)) as [_ Hlen].
  assert (len (Page_Entries p) ≤ len (json_page p)) as Hle.
  { unfold json_page, json_object. destruct (decide (Page_Entries p = [])) as [->|Hne]; [apply len_nonneg|].
    rewrite (bool_decide_eq_true_2 (Page_Entries p ≠ [])) by done. cbn [json_omit app].
    assert (∀ (f : gostring) l, f ∈ l → (length f ≤ length (join "," l))%nat) as Hj.
    { intros f l. induction l as [|g l IH]; [by intros ?%not_elem_of_nil|]. rewrite join_more, length_app.
      intros [->|Hf]%elem_of_cons; [lia|]. specialize (IH Hf). destruct l as [|g' l]; [by apply not_elem_of_nil in Hf|].
      rewrite join_more, length_app in IH. unfold more. cbn [map concat]. fold (more l). rewrite !length_app. lia. }
    set (f := json_field "entries" _). assert (length (Page_Entries p) ≤ length f)%nat as Hf.
    { unfold f, json_field, json_array. rewrite !length_app.
      pose proof (join_length_ge json_entry (Page_Entries p) ltac:(by intros)). lia. }
    match goal with |- context [join _ ?l] => assert (length f ≤ length (join "," l))%nat as Hfl end.
    { apply Hj. apply elem_of_app. right. by left. }
    unfold len. rewrite !length_app. lia. }
  change MaxCanonicalBytes with 1048576 in Hlen. unfold MaxUint64. lia.
Qed.

Lemma verified_typed `{SHA256} p r :
  page_ok p (Root_Digest (ref_root r)) → page_typed p → verifyConsistencyDomainPageRef p r = Ok tt → root_typed (ref_root r).
Proof.
  intros Hok [Hlv Hcs] (a & Ha & <- & _)%verify_Ok. unfold consistencyDomainPageDescriptor in Ha.
  destruct (Page_Level p =? 0).
  - destruct (sum_values 0 (Page_Entries p)) as [n|] eqn:En; [|done]. cbn [mbind result_bind] in Ha.
    apply (f_equal (λ y, match y with Ok z => ref_root z | Err _ => ref_root a end)) in Ha. cbn in Ha. rewrite <-Ha.
    apply sum_values_Ok in En as [-> En]; [|unfold MaxUint64; lia]. pose proof (values_total_nonneg (Page_Entries p)).
    split; [done|]. split; [split; [apply len_nonneg|by eapply entries_bound]|split; cbn; lia].
  - destruct (Page_Children p) as [|c cs]; [done|]. destruct (last (c :: cs)); [|done].
    destruct (sum_children 0 0 (c :: cs)) as [[n m]|] eqn:En; [|done]. cbn [mbind result_bind] in Ha.
    apply (f_equal (λ y, match y with Ok z => ref_root z | Err _ => ref_root a end)) in Ha. cbn in Ha. rewrite <-Ha.
    assert (0 ≤ children_entries (c :: cs) ∧ 0 ≤ children_bytes (c :: cs)) as [? ?].
    { clear -Hcs. unfold children_entries, children_bytes. induction Hcs as [|x xs [[? ?] [? ?]] _ [? ?]]; cbn; lia. }
    apply sum_children_Ok in En as (-> & -> & ? & ?); [|unfold MaxUint64; lia..|done].
    split; [done|]. split; split; cbn [Root_EntryCount Root_ByteCount]; lia.
Qed.

Lemma no_root_typed : root_typed no_root.
Proof. unfold root_typed, u64_ok, MaxInt64, MaxUint64. cbn. lia. Qed.
End StoreLaws.
