(* ===== verification/StoreRead.v ===== *)
(** * Reading a domain: the delta window over the base tree

    What the store reads at a head is one map: the base tree with the deltas of
    the window applied in order. *)

From Stdlib Require Import ZArith Lia.
From S2P Require Import Prelude GoLib GoHash GoJSON GoTime Errors ObjectStore DomainPage DomainPageTheory DomainTree TreeTheory TreeRead TreeGroups TreeWrite TreeEdit DomainPack DomainHead DomainSession TreeStream DomainProvider DomainCatalog DomainStore HeadTheory SessionLaws PackTheory SessionReader StoreLaws.

Open Scope Z_scope.

Module StoreRead.
Import ObjectStore StorageFormat PageTheory DomainTree TreeTheory TreeRead TreeEdit DomainPack DomainHead HeadTheory DomainSession DomainProvider DomainCatalog DomainStore SessionLaws PackTheory SessionReader StoreLaws.

(** ** The window *)

(** The values a head shows over the entries of its base tree. *)
Definition contents (h : DomainHead) (es : list DomainEntry) : gmap gostring DomainEntry :=
  change_map (window_changes h) (entries_map es).

Lemma change_map_app cs cs' m : change_map (cs ++ cs') m = change_map cs' (change_map cs m).
Proof. apply fold_left_app. Qed.

(** What one key becomes under sorted changes. *)
Definition changed_value (c : option DomainChange) (old : option DomainEntry) : option DomainEntry :=
  match c with
  | Some c => if Change_Delete c then None else Some (change_entry c)
  | None => old
  end.

Lemma sorted_changes_NoDup cs : sorted_changes cs → NoDup (map Change_Key cs).
Proof. apply sorted_lt_NoDup. Qed.

Lemma sorted_lookup_lt l i j x y :
  StronglySorted bytes_lt l → (i < j)%nat → l !! i = Some x → l !! j = Some y → bytes_lt x y.
Proof.
  intros Hs. revert i j. induction Hs as [|z l _ IH Hall]; intros i j Hij H1 H2; [done|].
  destruct i as [|i], j as [|j]; try lia; cbn in *; simplify_eq.
  - rewrite list.Forall_forall in Hall. apply Hall. by eapply list_elem_of_lookup_2.
  - eapply (IH i j); [lia|done|done].
Qed.

Lemma find_change_spec cs k :
  sorted_changes cs →
  match find_change cs k with
  | Some c => c ∈ cs ∧ Change_Key c = k
  | None => ¬ changed cs k
  end.
Proof.
  intros Hs. assert (StronglySorted bytes_le (map Change_Key cs)) as Hle.
  { unfold sorted_changes in Hs. induction Hs as [|x l _ IH Hall]; constructor; [done|].
    eapply list.Forall_impl; [exact Hall|]. intros y ?. apply bytes_le_lt_eq. by left. }
  destruct (search_key_spec Change_Key cs k Hle) as [_ Hidx]. unfold search_key in Hidx. unfold find_change.
  set (i := Search _ _) in *.
  assert (∀ c, c ∈ cs → Change_Key c = k → cs !! i = Some c) as Hat.
  { intros c (j & Hj)%list_elem_of_lookup Hk. destruct (Nat.lt_trichotomy j i) as [Hlt|[->|Hgt]]; [|done|].
    - apply (Hidx j c Hj) in Hlt. rewrite Hk in Hlt. by apply irreflexivity in Hlt; [|apply _].
    - assert (i < length cs)%nat as Hi by (apply lookup_lt_Some in Hj; lia). destruct (lookup_lt_is_Some_2 _ _ Hi) as [c' Hc'].
      exfalso. assert (¬ bytes_lt (Change_Key c') k) as Hn by (intros Hlt%(Hidx i c' Hc'); lia). apply Hn. rewrite <-Hk.
      assert (map Change_Key cs !! i = Some (Change_Key c')) as H1 by (by rewrite list_lookup_fmap, Hc').
      assert (map Change_Key cs !! j = Some (Change_Key c)) as H2 by (by rewrite list_lookup_fmap, Hj).
      exact (sorted_lookup_lt _ _ _ _ _ Hs Hgt H1 H2). }
  destruct (cs !! i) as [c|] eqn:Ei; [case_bool_decide as Hk|].
  - split; [by eapply list_elem_of_lookup_2|done].
  - intros (c' & Ek & Hc')%list_elem_of_fmap. specialize (Hat c' Hc' (eq_sym Ek)). congruence.
  - intros (c' & Ek & Hc')%list_elem_of_fmap. specialize (Hat c' Hc' (eq_sym Ek)). congruence.
Qed.

Lemma change_map_find cs m k : sorted_changes cs → change_map cs m !! k = changed_value (find_change cs k) (m !! k).
Proof.
  intros Hs. pose proof (find_change_spec cs k Hs) as Hf. pose proof (sorted_changes_NoDup _ Hs) as Hnd.
  apply option_eq. intros e. rewrite change_map_lookup by done. destruct (find_change cs k) as [c|]; cbn [changed_value].
  - destruct Hf as [Hc <-]. assert (changed cs (Change_Key c)) by (by apply list_elem_of_fmap_2).
    assert (∀ c', c' ∈ cs → Change_Key c' = Change_Key c → c' = c) as Huniq.
    { intros c' (j & Hj)%list_elem_of_lookup Ek. apply list_elem_of_lookup in Hc as (i & Hi).
      rewrite NoDup_alt in Hnd. assert (i = j) as ->; [|congruence].
      apply (Hnd i j (Change_Key c)); rewrite list_lookup_fmap; [by rewrite Hi|by rewrite Hj; cbn; rewrite Ek]. }
    destruct (Change_Delete c) eqn:Ed; split.
    + intros [[_ ?]|(c' & Hc' & Hd & Ek & _)]; [done|]. rewrite (Huniq c' Hc' Ek) in Hd. congruence.
    + done.
    + intros [[_ ?]|(c' & Hc' & _ & Ek & ->)]; [done|]. by rewrite (Huniq c' Hc' Ek).
    + intros [= <-]. right. exists c. done.
  - split; [intros [[? _]|(c & Hc & _ & <- & _)]; [done|]|by left]. destruct Hf. by apply list_elem_of_fmap_2.
Qed.

(** The newest change of a key, over all deltas. *)
Lemma find_delta_spec ds m k :
  Forall delta_ok ds →
  change_map (concat (map Delta_Changes ds)) m !! k = changed_value (fst <$> find_delta (reverse ds) k) (m !! k).
Proof.
  intros Hok. induction ds as [|d ds IH] using rev_ind; [done|].
  apply Forall_app in Hok as [Hok [Hd _]%list.Forall_cons]. specialize (IH Hok).
  rewrite map_app, concat_app, change_map_app, reverse_app. cbn [map concat app reverse rev_append find_delta].
  rewrite app_nil_r, change_map_find by apply Hd.
  destruct (find_change (Delta_Changes d) k); [done|]. exact IH.
Qed.

(** A value without the revision of the delta that wrote it. *)
Definition plain (v : consistencyDomainValue) : consistencyDomainValue :=
  {| Value_Data := Value_Data v; Value_LogicalVersion := Value_LogicalVersion v; Value_Revision := 0 |}.
Section Store.
Context `{SHA256} `{!SHA256Laws} `{GZIP} `{!GZIPLaws} {B : Type} `{!Provider B, !ProviderView B, !ProviderLaws B}.
Variable reference : consistencyDomainRef.

Abbreviation pageKey := (session_pageKey reference).
Abbreviation packKey := (session_packKey reference).
#[local] Remove Hints session_pages session_view session_read_laws session_laws reader_view reader_laws : typeclass_instances.
#[local] Instance the_pages : PageStore (Session B) := pages_of_reference reference.
#[local] Instance the_view : PageView (Session B) := reader_view reference pageKey packKey.
#[local] Instance the_laws : PageReadLaws (Session B) :=
  reader_laws reference pageKey packKey (page_key_blob reference) (pack_key_blob reference).

Abbreviation tree_holds := (tree_holds reference pageKey packKey).

(** ** Computations on the backend that replace no head *)

(** [m] is quiet, and what it returns satisfies [P] unless digests collide. *)
Definition sound {A} (m : GoM B error A) (b : B) (P : A → Prop) : Prop :=
  ∀ x b', m b = (x, b') → blob_le b b' ∧ (collision_free b' → ∀ a, x = Ok a → P a).

Definition quietly {A} (m : GoM B error A) : Prop := ∀ b x b', m b = (x, b') → blob_le b b'.

Lemma quietly_ret {A} (a : A) : quietly (mret a).
Proof. intros b x b' [_ ->]%mret_inv. reflexivity. Qed.

Lemma quietly_lift {A} (r : res A) : quietly (lift r).
Proof. intros b x b' [_ ->]%lift_inv. reflexivity. Qed.

Lemma quietly_throw {A} e : quietly (throw e : GoM B error A).
Proof. apply (quietly_lift (Err e)). Qed.

Lemma quietly_bind {A C} (m : GoM B error A) (f : A → GoM B error C) : quietly m → (∀ a, quietly (f a)) → quietly (m ≫= f).
Proof.
  intros Hm Hf b x b' (y & b1 & E1 & E)%gom_bind_inv. pose proof (Hm _ _ _ E1). destruct y as [a|e].
  - etrans; [done|]. by eapply Hf.
  - by destruct E as [_ ->].
Qed.

Lemma quietly_attempt {A} (m : GoM B error A) : quietly m → quietly (attempt m).
Proof. intros Hm b x b'. unfold attempt. destruct (m b) as [y b1] eqn:E. intros [= <- <-]. by eapply Hm. Qed.

Lemma quietly_now : quietly Now.
Proof. intros b x b'. unfold Now. destruct (clock_now b) as [t b1] eqn:E. intros [= _ <-]. by apply clock_sound in E as [? _]. Qed.

Lemma quietly_step s : quietly (sched_step s).
Proof. intros b x b' E. by eapply step_sound. Qed.

Lemma quietly_fresh {A} (m : GoM (Session B) error A) : growing m → quietly (fresh m).
Proof. intros Hm b x b'. by apply (fresh_grows reference pageKey packKey). Qed.

Lemma quietly_get k : mutable_key k → quietly (obj_get k).
Proof. intros Hk b x b' E. by destruct (get_sound _ _ _ _ Hk E). Qed.

(** ** The head in the store *)

(** The snapshot is the head of [b], or [b] has none. *)
Definition current (b : B) (snapshot : consistencyDomainHeadSnapshot) : Prop :=
  ∃ key, head_key reference = Ok key ∧
    if exists_ snapshot then
      heads b !! key_value key = Some (Object_Body (object snapshot), Object_Version (object snapshot)) ∧
      DecodeEnvelope (Object_Body (object snapshot)) key domainHeadSchema = Ok (envelope snapshot, head snapshot) ∧
      misbound reference (head snapshot) = false
    else heads b !! key_value key = None ∧ snapshot = no_snapshot.

Lemma loadHead_spec b x b' :
  loadHead reference b = (x, b') → blob_le b b' ∧ ∀ snapshot, x = Ok snapshot → current b' snapshot.
Proof.
  unfold loadHead. intros E. apply gom_bind_inv in E as (y & b1 & E1 & E). apply lift_inv in E1 as [-> ->].
  destruct (validateConsistencyDomainRef reference); [|by destruct E as [-> ->]].
  apply gom_bind_inv in E as (y & b1 & E1 & E). apply lift_inv in E1 as [-> ->].
  destruct (head_key reference) as [key|e] eqn:Ek; [|by destruct E as [-> ->]].
  apply gom_bind_inv in E as (y & b1 & E1 & E). unfold attempt in E1.
  destruct (obj_get key b) as [o b2] eqn:Eg. injection E1 as <- <-.
  destruct (get_sound _ _ _ _ (head_key_mutable _ _ Ek) Eg) as [Hle Hg]. destruct o as [o|e].
  - apply gom_bind_inv in E as (y & b1 & E1 & E). apply lift_inv in E1 as [-> ->].
    destruct (DecodeEnvelope (Object_Body o) key domainHeadSchema) as [[env h]|e] eqn:Ed; [|by destruct E as [-> ->]].
    apply gom_bind_inv in E as (y & b1 & E1 & E). apply lift_inv in E1 as [-> ->].
    destruct (misbound reference h) eqn:Em; cbn [guard_err] in E; [by destruct E as [-> ->]|].
    apply gom_bind_inv in E as (y & b1 & E1 & E). apply lift_inv in E1 as [-> ->].
    destruct (if Head_Registered h then ValidateDomainHead h else ValidateInitialDomainHead h); [|by destruct E as [-> ->]].
    apply mret_inv in E as [-> ->]. split; [done|]. intros ? [= <-]. exists key. done.
  - destruct (errors_Is e ErrNotFound); [|by injection E as <- <-]. apply mret_inv in E as [-> ->]. split; [done|].
    intros ? [= <-]. exists key. split; [done|]. by split; [apply Hg|].
Qed.

Lemma quietly_load : quietly (loadHead reference).
Proof. intros b x b' E. by apply loadHead_spec in E as [? _]. Qed.

(** ** Looking values up *)

Lemma growing_lookupAtHead h key : growing (lookupAtHeadWithSession reference h key true).
Proof.
  unfold lookupAtHeadWithSession. destruct (find_delta _ _) as [[c r]|]; [destruct (Change_Delete c); apply growing_ret|].
  case_bool_decide; [apply growing_ret|]. cbn [with_session]. apply growing_lookup.
Qed.

(** What [lookupAtHead] answers. *)
Definition shows (h : DomainHead) (es : list DomainEntry) (key : gostring) (v : option consistencyDomainValue) : Prop :=
  plain <$> v = value_of <$> contents h es !! key.

Lemma lookupAtHead_yields s h es key :
  ps_inv s → Forall delta_ok (Head_Deltas h) → tree_holds (backend s) (Head_Base h) es →
  ∃ v, shows h es key v ∧ yields s (lookupAtHeadWithSession reference h key true) v.
Proof.
  intros Hi Hok Hh. unfold lookupAtHeadWithSession, shows, contents, window_changes. rewrite find_delta_spec by done.
  destruct (find_delta (reverse (Head_Deltas h)) key) as [[c r]|]; cbn [fmap option_fmap option_map fst changed_value].
  - destruct (Change_Delete c); [exists None; split; [done|by apply yields_ret]|].
    eexists. split; [|by apply yields_ret]. cbn. unfold plain, value_of, change_entry. cbn. by destruct (Change_Value c) as [[|]|].
  - case_bool_decide as Hd.
    { exists None. rewrite (tree_holds_empty _ _ _ _ _ _ Hd Hh). split; [done|by apply yields_ret]. }
    exists (value_of <$> entries_map es !! key). split; [by destruct (entries_map es !! key)|]. cbn [with_session].
    apply lookup_ok; [done|]. eapply holds_extends; [|exact Hh]. split; [|by intros]. change (blob_le (backend s) (backend s)). reflexivity.
Qed.

(** The preconditions of all changes hold. *)
Definition required (h : DomainHead) (es : list DomainEntry) (changes : list consistencyDomainChange) : Prop :=
  Forall (λ c, ∃ v, shows h es (Key c) v ∧ check_requirement c v = Ok tt) changes.

Lemma growing_validate h changes : growing (validate_loop reference h changes).
Proof.
  induction changes as [|c cs IH]; cbn [validate_loop]; [apply growing_ret|].
  apply growing_bind; [apply growing_lookupAtHead|]. intros v. apply growing_bind; [apply growing_lift|]. by intros _.
Qed.

Lemma validate_loop_sound s h es changes x s' :
  ps_inv s → Forall delta_ok (Head_Deltas h) → tree_holds (backend s) (Head_Base h) es →
  validate_loop reference h changes s = (x, s') → no_collision s' → ∀ u, x = Ok u → required h es changes.
Proof.
  intros Hi Hok Hh E Hn u ->. revert s Hi Hh E. induction changes as [|c cs IH]; intros s Hi Hh E; [constructor|].
  cbn [validate_loop] in E. pose proof E as E0. apply gom_bind_inv in E as (y & s1 & E1 & E).
  destruct (lookupAtHead_yields s h es (Key c) Hi Hok Hh) as (v & Hv & Hy). destruct (Hy _ _ E1) as [Hg1 Ha].
  destruct y as [v'|e]; [|by destruct E as [? _]].
  apply gom_bind_inv in E as (z & s2 & E2 & E). apply lift_inv in E2 as [-> ->].
  destruct (check_requirement c v') as [[]|e] eqn:Ec; [|by destruct E as [? _]].
  pose proof (growing_validate h cs _ _ _ (proj1 Hg1) E) as Hg2.
  assert (no_collision s1) as Hn1 by (by eapply no_collision_extends; [apply Hg2|]).
  apply answered_Ok in Ha as ->; [|done]. constructor; [by exists v|]. eapply (IH s1); [apply Hg1| |done].
  eapply tree_holds_le; [apply Hg1|done].
Qed.

Lemma validateMutationAtHead_sound b h es changes :
  Forall delta_ok (Head_Deltas h) → tree_holds b (Head_Base h) es →
  sound (fresh (validate_loop reference h changes)) b (λ _, required h es changes).
Proof.
  intros Hok Hh x b' E. split; [by eapply quietly_fresh; [apply growing_validate|]|]. intros Hc u ->.
  unfold fresh in E. destruct (validate_loop reference h changes (newSession b)) as [y s] eqn:Ev. injection E as -> <-.
  eapply (validate_loop_sound (newSession b)); [apply reader_new|done|exact Hh|exact Ev| |done]. by apply (reader_free reference pageKey packKey).
Qed.
End Store.
End StoreRead.
