(* ===== verification/StoreSpec.v ===== *)
(** * What a consistency domain promises

    [Domain] is the abstract state of a domain and [domain_step] what may happen
    to it.  [at_head] relates it to the head in the store, and [evolves] is a
    run of this process: quiet steps, in which others may act, and the
    replacements of the head it performs itself. *)

From Stdlib Require Import ZArith Lia.
From S2P Require Import Prelude GoLib GoHash GoJSON GoTime Errors ObjectStore ObjectTheory DomainPage DomainPageTheory DomainTree TreeTheory TreeRead TreeEdit DomainPack DomainHead DomainSession TreeStream DomainProvider DomainCatalog DomainStore HeadTheory SessionLaws PackTheory SessionReader StoreLaws StoreRead.

Open Scope Z_scope.

Module StoreSpec.
Import ObjectStore StorageFormat PageTheory DomainTree TreeTheory TreeRead TreeEdit DomainPack DomainHead HeadTheory DomainSession DomainProvider DomainCatalog DomainStore SessionLaws PackTheory SessionReader StoreLaws StoreRead.

(** ** The abstract domain *)

(** [outcomes] are the recorded outcomes of a mutation ID, the newest first. *)
Record Domain := {
  values : gmap gostring DomainEntry;
  revision : Z;
  registered : bool;
  epoch : Z;
  outcomes : gostring → list DomainOutcome;
}.

Inductive event :=
  | Created
  | Registered
  | Committed (mutation : consistencyDomainMutation) (fingerprint : gostring) (at_revision at_time : Z)
  | Compacted
  | Frozen (at_epoch : Z)
  | Unfrozen.

(** The precondition of a change. *)
Definition permits (m : gmap gostring DomainEntry) (c : consistencyDomainChange) : Prop :=
  (Require c = domainValueAbsent → m !! Key c = None) ∧
  (Require c = domainValuePresent →
     ∃ e, m !! Key c = Some e ∧ (ExpectedVersion c = [] ∨ Entry_LogicalVersion e = ExpectedVersion c)) ∧
  (Delete c = true → is_Some (m !! Key c)).

(** A transition that locked the domain admits its own mutations only. *)
Definition unlocked (m : gmap gostring DomainEntry) (transitionID : gostring) : Prop :=
  ∀ e, m !! transitionLockKey009 = Some e →
    ∃ lock, decodeCanonicalValue (default [] (Entry_Value e)) = Ok lock ∧ Lock_TransitionID lock = transitionID.

Definition locked_by (m : gmap gostring DomainEntry) (lock : TransitionLock009) : Prop :=
  ∃ e, m !! transitionLockKey009 = Some e ∧ decodeCanonicalValue (default [] (Entry_Value e)) = Ok lock.

Lemma locked_unlocked m lock : locked_by m lock → unlocked m (Lock_TransitionID lock).
Proof. intros (e & He & Hd) e' He'. exists lock. split; [congruence|done]. Qed.

Section Spec.
Context `{SHA256}.

Inductive domain_step : event → option Domain → Domain → Prop :=
  | step_create a :
      values a = ∅ → revision a = 0 → registered a = false → epoch a = 0 → (∀ id, outcomes a id = []) →
      domain_step Created None a
  | step_register a a' :
      registered a = false →
      values a' = values a → revision a' = revision a → registered a' = true → epoch a' = epoch a →
      (∀ id, outcomes a' id = outcomes a id) →
      domain_step Registered (Some a) a'
  | step_commit a a' m f r t :
      epoch a = 0 → (∀ expected, ExpectedRevision m = Some expected → revision a = expected) → unlocked (values a) (TransitionID m) →
      Forall (permits (values a)) (Changes m) → Forall (λ o, Outcome_RetainUntil o ≤ t) (outcomes a (ID m)) →
      values a' = change_map (map (recorded_change (ID m) f) (Changes m)) (values a) →
      r = revision a + 1 → revision a' = r → registered a' = true → epoch a' = 0 →
      (∀ id, outcomes a' id =
         (if bool_decide (id = ID m) then [delta_outcome (mutation_delta m f r)] else []) ++ outcomes a id) →
      domain_step (Committed m f r t) (Some a) a'
  | step_compact a a' :
      epoch a = 0 →
      values a' = values a → revision a' = revision a → registered a' = registered a → epoch a' = 0 →
      (∀ id o, o ∈ outcomes a' id → o ∈ outcomes a id) →
      domain_step Compacted (Some a) a'
  | step_freeze a a' e :
      epoch a = 0 → registered a = true → e ≠ 0 → values a !! transitionLockKey009 = None →
      values a' = values a → revision a' = revision a → registered a' = true → epoch a' = e →
      (∀ id, outcomes a' id = outcomes a id) →
      domain_step (Frozen e) (Some a) a'
  | step_unfreeze a a' :
      epoch a ≠ 0 → registered a = true →
      values a' = values a → revision a' = revision a → registered a' = true → epoch a' = 0 →
      (∀ id, outcomes a' id = outcomes a id) →
      domain_step Unfrozen (Some a) a'.
End Spec.

(** ** The domain behind a head *)

(** The outcome a tree entry records. *)
Definition entry_outcomes (e : option DomainEntry) : list DomainOutcome :=
  match e with
  | Some e => match decodeCanonicalValue (default [] (Entry_Value e)) with Ok o => [o] | Err _ => [] end
  | None => []
  end.

Definition recorded (h : DomainHead) (os : list DomainEntry) (id : gostring) : list DomainOutcome :=
  map delta_outcome (filter (λ d, Delta_MutationID d = id) (reverse (Head_Deltas h))) ++ entry_outcomes (entries_map os !! id).

Definition domain_of (h : DomainHead) (es os : list DomainEntry) : Domain :=
  {| values := contents h es; revision := Head_Revision h; registered := Head_Registered h; epoch := Head_FreezeEpoch h;
     outcomes := recorded h os |}.

Section Store.
Context `{SHA256} `{!SHA256Laws} `{GZIP} `{!GZIPLaws} {B : Type} `{!Provider B, !ProviderView B, !ProviderLaws B}.
Variable reference : consistencyDomainRef.

Abbreviation pageKey := (session_pageKey reference).
Abbreviation packKey := (session_packKey reference).
Abbreviation tree_holds := (tree_holds reference pageKey packKey).

Record head_wf (b : B) (h : DomainHead) (es os xs : list DomainEntry) : Prop := {
  wf_bound : misbound reference h = false;
  wf_typed : head_typed h;
  wf_deltas : Forall delta_ok (Head_Deltas h);
  wf_freeze : Head_Frozen h = negb (Head_FreezeEpoch h =? 0);
  wf_base : tree_holds b (Head_Base h) es;
  wf_outcomes : tree_holds b (Head_Outcomes h) os;
  wf_expiry : tree_holds b (Head_OutcomeExpiry h) xs;
}.

(** [h] is written at the head key in [b]. *)
Definition head_is (b : B) (h : DomainHead) : Prop :=
  ∃ key body v env, head_key reference = Ok key ∧ heads b !! key_value key = Some (body, v) ∧
    DecodeEnvelope body key domainHeadSchema = Ok (env, h).

Definition at_head (b : B) (a : option Domain) : Prop :=
  match a with
  | None => ∃ key, head_key reference = Ok key ∧ heads b !! key_value key = None
  | Some a => ∃ h es os xs, head_is b h ∧ head_wf b h es os xs ∧ a = domain_of h es os
  end.

(** The object at the head key is the head of another domain, which a reader of
    this domain refuses. *)
Definition foreign (b : B) : Prop := ∃ h, head_is b h ∧ misbound reference h = true.

(** The head in the store is well formed or not this domain's, unless two stored
    pages share a digest. *)
Definition world_ok (b : B) : Prop := collision_free b → is_Ok (head_key reference) = true → foreign b ∨ ∃ a, at_head b a.

(** [b'] is [b] after this process replaced the object at [k]. *)
Record replaced (k : gostring) (b b' : B) : Prop := {
  rp_heads k' : k' ≠ k → heads b' !! k' = heads b !! k';
  rp_contents : blob_contents b' = blob_contents b;
  rp_history : history b ⊆ history b';
  rp_latest : latest b ≤ latest b';
  rp_offered : offered b ⊆ offered b';
}.

Definition performed (e : event) (b b' : B) : Prop :=
  ∃ a a', at_head b a ∧ at_head b' (Some a') ∧ domain_step e a a' ∧
    match e with Committed _ _ _ t => t ≤ latest b | _ => True end.

(** Not the key of a head. *)
Definition headless (k : gostring) : Prop := ∀ r key, head_key r = Ok key → key_value key ≠ k.

Inductive evolves : B → list event → B → Prop :=
  | evolves_done b : evolves b [] b
  | evolves_quiet b b1 tr b2 : blob_le b b1 → evolves b1 tr b2 → evolves b tr b2
  | evolves_other k b b1 tr b2 :
      replaced k b b1 → headless k →
      evolves b1 tr b2 → evolves b tr b2
  | evolves_event key b b1 e tr b2 :
      head_key reference = Ok key → replaced (key_value key) b b1 → (collision_free b → performed e b b1) → evolves b1 tr b2 → evolves b (e :: tr) b2.

Lemma evolves_trans b tr b1 tr' b2 : evolves b tr b1 → evolves b1 tr' b2 → evolves b (tr ++ tr') b2.
Proof. induction 1; intros Hev; [done|eapply evolves_quiet|eapply evolves_other|eapply evolves_event]; eauto. Qed.

Lemma evolves_le b b' : blob_le b b' → evolves b [] b'.
Proof. intros Hle. eapply evolves_quiet; [done|constructor]. Qed.

(** ** What lasts *)

Lemma stored_contents (b b' : B) d id p :
  blob_contents b' = blob_contents b → stored reference pageKey packKey b d id p → stored reference pageKey packKey b' d id p.
Proof. intros E. unfold stored, pack_at, page_at. by rewrite E. Qed.

Lemma collision_free_contents (b b' : B) : blob_contents b' = blob_contents b → collision_free b' → collision_free b.
Proof. intros E. apply collision_free_sub. by rewrite E. Qed.

#[local] Remove Hints session_pages session_view session_read_laws session_laws reader_view reader_laws : typeclass_instances.
#[local] Instance the_view : PageView (Session B) := reader_view reference pageKey packKey.

Lemma represents_contents (b b' : B) l r es :
  blob_contents b' = blob_contents b → represents l (newSession b) r es → represents l (newSession b') r es.
Proof.
  intros E. assert (∀ r p, refers (newSession b) r p → refers (newSession b') r p) as Href.
  { intros r' p [Hp Hv]. split; [|done]. exact (stored_contents _ _ _ _ _ E Hp). }
  revert r es. induction l as [|l IH]; intros r es.
  - intros (p & Hp & Hl). exists p. split; [by apply Href|done].
  - intros (p & ess & Hp & Hl & Hess & ->). exists p, ess. split; [by apply Href|]. split; [done|].
    split; [|done]. eapply Forall2_impl; [exact Hess|]. intros c es'. apply IH.
Qed.

Lemma tree_holds_contents (b b' : B) root es : blob_contents b' = blob_contents b → tree_holds b root es → tree_holds b' root es.
Proof. intros E [[? ?]|[Hd [l Hl]]]; [by left|right]. split; [done|]. exists l. by eapply represents_contents. Qed.

(** What a later state keeps: trees, the history of versions, the clock. *)
Record after (b b' : B) : Prop := {
  af_holds root es : tree_holds b root es → tree_holds b' root es;
  af_free : collision_free b' → collision_free b;
  af_history : history b ⊆ history b';
  af_latest : latest b ≤ latest b';
}.

Lemma after_le b b' : blob_le b b' → after b b'.
Proof.
  intros Hle. split; [intros root es; by apply tree_holds_le|by apply collision_free_le|by apply history_le|by apply latest_le].
Qed.

Lemma after_replaced k b b' : replaced k b b' → after b b'.
Proof. intros [_ E ? ? _]. split; [intros root es; by apply tree_holds_contents|by apply collision_free_contents|done|done]. Qed.

Lemma after_refl b : after b b.
Proof. by split. Qed.

Lemma after_trans b b1 b2 : after b b1 → after b1 b2 → after b b2.
Proof. intros [????] [????]. split; [auto|auto|by etrans|lia]. Qed.

Lemma evolves_after b tr b' : evolves b tr b' → after b b'.
Proof.
  induction 1 as [b|b b1 tr b2 Hle _ IH|k b b1 tr b2 Hr _ _ IH|key b b1 e tr b2 _ Hr _ _ IH].
  - apply after_refl.
  - eapply after_trans; [by apply after_le|done].
  - eapply after_trans; [by eapply after_replaced|done].
  - eapply after_trans; [by eapply after_replaced|done].
Qed.

(** Where no two stored pages share a digest every event was its step. *)
Inductive happens : B → list event → B → Prop :=
  | happens_done b : happens b [] b
  | happens_quiet b b1 tr b2 : blob_le b b1 → happens b1 tr b2 → happens b tr b2
  | happens_other k b b1 tr b2 : replaced k b b1 → headless k → happens b1 tr b2 → happens b tr b2
  | happens_event key b b1 e tr b2 :
      head_key reference = Ok key → replaced (key_value key) b b1 → performed e b b1 → happens b1 tr b2 → happens b (e :: tr) b2.

Lemma evolves_happens b tr b' : evolves b tr b' → collision_free b' → happens b tr b'.
Proof.
  induction 1 as [b|b b1 tr b2 Hle _ IH|k b b1 tr b2 Hr Hk _ IH|key b b1 e tr b2 Ek Hr Hp Hev IH]; intros Hc.
  - constructor.
  - eapply happens_quiet; eauto.
  - eapply happens_other; eauto.
  - eapply happens_event; [done|done| |by apply IH]. by apply Hp, (after_replaced _ _ _ Hr), (evolves_after _ _ _ Hev).
Qed.

Lemma head_wf_after b b' h es os xs : after b b' → head_wf b h es os xs → head_wf b' h es os xs.
Proof. intros [Hh _ _ _] []. split; auto. Qed.

(** The same object at the head key, and no tree lost. *)
Lemma head_is_same b b' h : (∀ key, head_key reference = Ok key → heads b' !! key_value key = heads b !! key_value key) → head_is b h → head_is b' h.
Proof. intros Hk (key & body & v & env & Ek & Eh & Ed). exists key, body, v, env. by rewrite (Hk key Ek). Qed.

Lemma world_same b b' :
  after b b' → (∀ key, head_key reference = Ok key → heads b' !! key_value key = heads b !! key_value key) → world_ok b → world_ok b'.
Proof.
  intros Ha Hk Hw Hc Hv. destruct (Hw (af_free _ _ Ha Hc) Hv) as [(h & Hi & Hm)|[[a|] Hat]].
  - left. exists h. split; [by eapply head_is_same|done].
  - right. exists (Some a). destruct Hat as (h & es & os & xs & Hi & Hwf & ->). exists h, es, os, xs.
    split; [by eapply head_is_same|]. split; [by eapply head_wf_after|done].
  - right. exists None. destruct Hat as (key & Ek & Eh). exists key. by rewrite (Hk key Ek).
Qed.

(** Other processes keep the head well formed too. *)
Hypothesis rivals : ∀ b b', blob_le b b' → world_ok b → world_ok b'.

Lemma world_evolves b tr b' : evolves b tr b' → world_ok b → world_ok b'.
Proof.
  induction 1 as [b|b b1 tr b2 Hle _ IH|k b b1 tr b2 Hr Hk _ IH|key b b1 e tr b2 _ Hr Hp _ IH]; intros Hw; [done|apply IH..].
  - by eapply rivals.
  - eapply world_same; [by eapply after_replaced| |done]. intros key Ek. apply (rp_heads _ _ _ Hr). by eauto.
  - intros Hc _. right. destruct (Hp (af_free _ _ (after_replaced _ _ _ Hr) Hc)) as (a & a' & _ & Ha' & _). by exists (Some a').
Qed.
End Store.
End StoreSpec.
