(* ===== verification/StoreCommit.v ===== *)
(** * Committing a mutation

    A mutation is admitted at a head it has seen and takes effect by replacing
    exactly that head. *)

From Stdlib Require Import ZArith Lia.
From S2P Require Import Prelude GoLib GoHash GoJSON GoTime Errors ObjectStore ObjectTheory DomainPage DomainPageTheory DomainTree TreeTheory TreeRead TreeEdit DomainPack DomainHead DomainSession TreeStream DomainProvider DomainCatalog DomainStore HeadTheory SessionLaws PackTheory SessionReader StoreLaws StoreRead StoreSpec.

Open Scope Z_scope.

Module StoreCommit.
Import ObjectStore StorageFormat PageTheory DomainTree TreeTheory TreeRead TreeEdit DomainPack DomainHead HeadTheory DomainSession DomainProvider DomainCatalog DomainStore SessionLaws PackTheory SessionReader StoreLaws StoreRead StoreSpec.

Section Store.
Context `{SHA256} `{!SHA256Laws} `{GZIP} `{!GZIPLaws} {B : Type} `{!Provider B, !ProviderView B, !ProviderLaws B}.
Variable reference : consistencyDomainRef.

Abbreviation pageKey := (session_pageKey reference).
Abbreviation packKey := (session_packKey reference).
Abbreviation tree_holds := (tree_holds reference pageKey packKey).
Abbreviation head_wf := (head_wf reference).
Abbreviation world_ok := (world_ok reference).
Abbreviation evolves := (evolves reference).
Abbreviation quietly := (quietly (B := B)).
#[local] Remove Hints session_pages session_view session_read_laws session_laws reader_view reader_laws : typeclass_instances.
#[local] Instance the_pages : PageStore (Session B) := pages_of_reference reference.
#[local] Instance the_view : PageView (Session B) := reader_view reference pageKey packKey.
#[local] Instance the_laws : PageReadLaws (Session B) :=
  reader_laws reference pageKey packKey (page_key_blob reference) (pack_key_blob reference).

(** ** Sessions opened per step *)

Lemma on_backend_inv {A} (n : GoM B error A) s x s' : on_backend n s = (x, s') → n (backend s) = (x, backend s').
Proof. unfold on_backend. destruct (n (backend s)) as [y b]. by intros [= -> <-]. Qed.

Lemma fresh_inv {A} (m : GoM (Session B) error A) b x b' :
  fresh m b = (x, b') → ∃ s, m (newSession b) = (x, s) ∧ backend s = b'.
Proof. unfold fresh. destruct (m (newSession b)) as [y s]. intros [= -> <-]. by exists s. Qed.

Lemma unowned_inv {A} (m : GoM (Session B) error A) s x s' :
  with_session false m s = (x, s') → fresh m (backend s) = (x, backend s').
Proof. apply on_backend_inv. Qed.

(** ** Values and locks *)

Lemma lookup_unowned h key s x s' :
  lookupAtHeadWithSession reference h key false s = (x, s') →
  fresh (lookupAtHeadWithSession reference h key true) (backend s) = (x, backend s').
Proof.
  unfold lookupAtHeadWithSession. destruct (find_delta _ _) as [[c r]|].
  - destruct (Change_Delete c); by intros [-> ->]%mret_inv.
  - case_bool_decide; [by intros [-> ->]%mret_inv|]. apply unowned_inv.
Qed.

Lemma lookup_sound h es key s x s' :
  lookupAtHeadWithSession reference h key false s = (x, s') →
  blob_le (backend s) (backend s') ∧
  (collision_free (backend s') → Forall delta_ok (Head_Deltas h) → tree_holds (backend s) (Head_Base h) es →
   ∀ v, x = Ok v → shows h es key v).
Proof.
  intros E%lookup_unowned. split; [by eapply quietly_fresh; [apply growing_lookupAtHead|]|]. intros Hc Hok Hh v ->.
  destruct (lookupAtHead_yields reference (newSession (backend s)) h es key) as (v' & Hv & Hy); [apply reader_new|done|done|].
  destruct (fresh_yields reference pageKey packKey _ _ _ _ _ Hy E) as [_ Ha].
  by destruct (Ha Hc) as [[= ->]|(e & [=] & _)].
Qed.

Lemma shows_None h es key : shows h es key None → contents h es !! key = None.
Proof. unfold shows. by destruct (contents h es !! key). Qed.

Lemma shows_Some h es key v :
  shows h es key (Some v) → ∃ e, contents h es !! key = Some e ∧ Value_LogicalVersion v = Entry_LogicalVersion e ∧
    clone_bytes (Value_Data v) = clone_bytes (Entry_Value e).
Proof.
  unfold shows. destruct (contents h es !! key) as [e|]; [|done]. cbn. intros [= Hd Hl]. exists e. split; [done|]. split; [done|].
  rewrite Hd. by destruct (Entry_Value e) as [[|]|].
Qed.

Lemma clone_default b b' : clone_bytes b = clone_bytes b' → default [] b = default [] b'.
Proof. destruct b as [[|]|], b' as [[|]|]; cbn; congruence. Qed.

Lemma required_permits h es changes : required h es changes → Forall (permits (contents h es)) changes.
Proof.
  intros Hr. eapply list.Forall_impl; [exact Hr|]. intros c (v & Hv & Hq). unfold check_requirement in Hq.
  apply result_bind_Ok in Hq as ([] & Hq & Hd). split; [|split].
  - intros E. rewrite E in Hq. destruct v; [done|]. by apply shows_None in Hv.
  - intros E. rewrite E in Hq. destruct v as [v|]; [|done]. apply shows_Some in Hv as (e & He & El & _). exists e. split; [done|].
    cbn in Hq. rewrite <-El. destruct (decide (ExpectedVersion c = [])) as [|Hne]; [by left|right].
    rewrite bool_decide_eq_true_2 in Hq by done. cbn in Hq. destruct (decide (Value_LogicalVersion v = ExpectedVersion c)) as [|Hv]; [done|].
    by rewrite bool_decide_eq_true_2 in Hq.
  - intros E. rewrite E in Hd. destruct v as [v|]; [|done]. apply shows_Some in Hv as (e & -> & _). by eexists.
Qed.

Lemma lock_sound h es s x s' :
  transitionLockAtHeadWithSession009 reference h false s = (x, s') →
  blob_le (backend s) (backend s') ∧
  (collision_free (backend s') → Forall delta_ok (Head_Deltas h) → tree_holds (backend s) (Head_Base h) es →
   (x = Ok None → contents h es !! transitionLockKey009 = None) ∧
   ∀ lock v, x = Ok (Some (lock, v)) → locked_by (contents h es) lock).
Proof.
  unfold transitionLockAtHeadWithSession009. intros E. apply gom_bind_inv in E as (y & s1 & E1 & E).
  destruct (lookup_sound h es _ _ _ _ E1) as [Hle Hs].
  destruct y as [[v|]|e].
  - destruct (decodeCanonicalValue (default [] (Value_Data v))) as [lock|e] eqn:Ed.
    2:{ apply (lift_inv (Err _)) in E as [-> ->]. split; [done|]. done. }
    apply gom_bind_inv in E as (z & s2 & E2 & E). apply lift_inv in E2 as [-> ->].
    destruct (negb _ || _ || _); cbn [guard_err] in E; [by destruct E as [-> ->]|]. apply mret_inv in E as [-> ->].
    split; [done|]. intros Hc Hok Hh. split; [done|]. intros lock' v' [= -> ->].
    destruct (shows_Some _ _ _ _ (Hs Hc Hok Hh _ eq_refl)) as (e' & He' & _ & Hv). exists e'. split; [done|].
    by rewrite <-(clone_default _ _ Hv).
  - apply mret_inv in E as [-> ->]. split; [done|]. intros Hc Hok Hh. split; [|done]. intros _. apply shows_None. by apply Hs.
  - destruct E as [-> ->]. done.
Qed.

(** ** Outcomes *)

Lemma window_sound ds id b x b' :
  outcome_in_window ds id b = (x, b') →
  blob_le b b' ∧
  (x = Ok None → Forall (λ d, Delta_MutationID d = id → Delta_RetainUntil d ≤ latest b') ds) ∧
  ∀ o, x = Ok (Some o) → ∃ d, d ∈ ds ∧ Delta_MutationID d = id ∧ o = retained_outcome id (delta_outcome d).
Proof.
  revert b. induction ds as [|d ds IH]; intros b E; cbn [outcome_in_window] in E.
  { apply mret_inv in E as [-> ->]. split; [reflexivity|]. split; [constructor|done]. }
  assert (∀ b1, blob_le b b1 → outcome_in_window ds id b1 = (x, b') → (Delta_MutationID d = id → Delta_RetainUntil d ≤ latest b1) →
    blob_le b b' ∧ (x = Ok None → Forall (λ d, Delta_MutationID d = id → Delta_RetainUntil d ≤ latest b') (d :: ds)) ∧
    ∀ o, x = Ok (Some o) → ∃ d', d' ∈ d :: ds ∧ Delta_MutationID d' = id ∧ o = retained_outcome id (delta_outcome d')) as Hpass.
  { intros b1 Hle E1 Hd. destruct (IH _ E1) as (Hle' & Hn & Hs). split; [by etrans|]. split.
    - intros ->. constructor; [|by apply Hn]. intros Hid. specialize (Hd Hid). pose proof (latest_le _ _ Hle'). lia.
    - intros o Ho. destruct (Hs o Ho) as (d' & ? & ? & ?). exists d'. split; [by right|done]. }
  case_bool_decide as Hid; [|by apply (Hpass b); [reflexivity|..]].
  apply gom_bind_inv in E as (y & b1 & E1 & E). unfold Now in E1. destruct (clock_now b) as [t b2] eqn:Et. injection E1 as <- <-.
  destruct (clock_sound _ _ _ Et) as [Hle Ht]. destruct (Z.ltb_spec t (Delta_RetainUntil d)); cbn [negb] in E.
  - apply mret_inv in E as [-> ->]. split; [done|]. split; [done|]. intros o [= <-]. exists d. split; [by left|done].
  - apply (Hpass b2); [done|done|]. intros _. lia.
Qed.

Lemma outcome_sound h os id s x s' :
  lookupOutcomeAtHeadWithSession reference h id false s = (x, s') →
  blob_le (backend s) (backend s') ∧
  (collision_free (backend s') → tree_holds (backend s) (Head_Outcomes h) os →
   (x = Ok None → Forall (λ o, Outcome_RetainUntil o ≤ latest (backend s')) (recorded h os id)) ∧
   ∀ o, x = Ok (Some o) → ∃ o', o' ∈ recorded h os id ∧ o = retained_outcome id o').
Proof.
  unfold lookupOutcomeAtHeadWithSession, recorded. intros E. apply gom_bind_inv in E as (y & s1 & E1%on_backend_inv & E).
  destruct (window_sound _ _ _ _ _ E1) as (Hle & Hn & Hs).
  assert (∀ b, blob_le (backend s1) b → y = Ok None →
    Forall (λ o, Outcome_RetainUntil o ≤ latest b) (map delta_outcome (filter (λ d, Delta_MutationID d = id) (reverse (Head_Deltas h))))) as Hw.
  { intros b Hb ->. pose proof (latest_le _ _ Hb). apply Forall_map, list.Forall_forall. intros d [Hid Hd]%list_elem_of_filter.
    pose proof (proj1 (list.Forall_forall _ _) (Hn eq_refl) d Hd Hid). cbn. lia. }
  destruct y as [[o|]|e]; [| |by destruct E as [-> ->]].
  { apply mret_inv in E as [-> ->]. split; [done|]. intros _ _. split; [done|]. intros o' [= <-].
    destruct (Hs o eq_refl) as (d & Hd & Hid & ->). exists (delta_outcome d). split; [|done]. apply elem_of_app. left.
    apply list_elem_of_fmap_2, list_elem_of_filter. done. }
  case_bool_decide as Hdig.
  { apply mret_inv in E as [-> ->]. split; [done|]. intros _ Hh. split; [|done]. intros _.
    rewrite (tree_holds_empty _ _ _ _ _ _ Hdig Hh). cbn. rewrite app_nil_r. by apply Hw. }
  apply gom_bind_inv in E as (v & s2 & E2%unowned_inv & E).
  pose proof (quietly_fresh reference (lookup (Head_Outcomes h) id) (growing_lookup _ _) _ _ _ E2) as Hle2.
  assert (collision_free (backend s2) → tree_holds (backend s) (Head_Outcomes h) os →
    ∀ v', v = Ok v' → v' = value_of <$> entries_map os !! id) as Hv.
  { intros Hc Hh v' ->. apply (tree_holds_le _ _ _ _ (backend s1)) in Hh; [|done].
    pose proof (lookup_ok (newSession (backend s1)) _ _ id (reader_new _ _ _ _) Hh) as Hy.
    destruct (fresh_yields reference pageKey packKey _ _ _ _ _ Hy E2) as [_ Ha]. by destruct (Ha Hc) as [[= ->]|(e & [=] & _)]. }
  destruct v as [[v|]|e]; [| |destruct E as [-> ->]; split; [by etrans|done]].
  2:{ apply mret_inv in E as [-> ->]. split; [by etrans|]. intros Hc Hh. split; [|done]. intros _.
      specialize (Hv Hc Hh None eq_refl). destruct (entries_map os !! id); [done|]. cbn. rewrite app_nil_r. by apply Hw. }
  pure_step E. destruct (decodeCanonicalValue (default [] (Value_Data v))) as [o|e] eqn:Ed; [|destruct E as [-> ->]; split; [by etrans|done]].
  pure_step E. destruct (negb _ || _) eqn:Eg; cbn [guard_err] in E; [destruct E as [-> ->]; split; [by etrans|done]|].
  apply orb_false_iff in Eg as [_ Hid%bool_decide_eq_false]. apply dec_stable in Hid.
  apply gom_bind_inv in E as (t & s3 & E3%on_backend_inv & E). unfold Now in E3.
  destruct (clock_now (backend s2)) as [t' b3] eqn:Et. injection E3 as <- E3. rewrite E3 in *. destruct (clock_sound _ _ _ Et) as [Hle3 Ht].
  assert (collision_free (backend s3) → tree_holds (backend s) (Head_Outcomes h) os → entry_outcomes (entries_map os !! id) = [o]) as Ho.
  { intros Hc Hh. specialize (Hv ltac:(by eapply collision_free_le) Hh _ eq_refl). destruct (entries_map os !! id) as [e|]; [|done]. injection Hv as ->.
    cbn in Ed. unfold entry_outcomes. assert (default [] (Entry_Value e) = default [] (clone_bytes (Entry_Value e))) as -> by (by destruct (Entry_Value e) as [[|]|]).
    by rewrite Ed. }
  destruct (Z.ltb_spec t' (Outcome_RetainUntil o)); cbn [negb] in E; apply mret_inv in E as [-> ->]; (split; [by etrans; [|etrans]|]); intros Hc Hh; rewrite (Ho Hc Hh).
  - split; [done|]. intros o' [= <-]. exists o. rewrite Hid. split; [|done]. apply elem_of_app. right. by left.
  - split; [|done]. intros _. apply Forall_app. split; [apply Hw; [by etrans|done]|]. constructor; [lia|done].
Qed.

(** ** Snapshots of the head *)

(** What a snapshot that was read or written stays good for. *)
Definition snapshot_ok (b : B) (snapshot : consistencyDomainHeadSnapshot) : Prop :=
  if exists_ snapshot then
    ∃ key, head_key reference = Ok key ∧
      history b !! (key_value key, Object_Version (object snapshot)) = Some (Object_Body (object snapshot)) ∧
      DecodeEnvelope (Object_Body (object snapshot)) key domainHeadSchema = Ok (envelope snapshot, head snapshot) ∧
      (collision_free b → ∃ es os xs, head_wf b (head snapshot) es os xs)
  else snapshot = no_snapshot.

Lemma snapshot_ok_after b b' snapshot : after reference b b' → snapshot_ok b snapshot → snapshot_ok b' snapshot.
Proof.
  intros Ha. unfold snapshot_ok. destruct (exists_ snapshot); [|done]. intros (key & Ek & Hh & Hd & Hwf). exists key. split; [done|].
  split; [by eapply lookup_weaken; [|apply Ha]|]. split; [done|]. intros Hc. destruct Hwf as (es & os & xs & Hwf); [by apply Ha|].
  exists es, os, xs. by eapply head_wf_after.
Qed.

Hypothesis rivals : ∀ b b', blob_le b b' → world_ok b → world_ok b'.

Lemma load_ok b x b' :
  world_ok b → loadHead reference b = (x, b') → blob_le b b' ∧ ∀ snapshot, x = Ok snapshot → snapshot_ok b' snapshot.
Proof.
  intros Hw E. destruct (loadHead_spec _ _ _ _ E) as [Hle Hx]. split; [done|]. intros snapshot ->.
  specialize (Hx snapshot eq_refl). destruct Hx as (key & Ek & Hx). unfold snapshot_ok. destruct (exists_ snapshot); [|by destruct Hx].
  destruct Hx as (Hh & Hd & Hm). exists key. split; [done|]. split; [by apply heads_history|]. split; [done|]. intros Hc.
  destruct (rivals _ _ Hle Hw Hc ltac:(by rewrite Ek)) as [(h & (key' & body & v & env & Ek' & Eh & Ed) & Hm')|[[a|] Ha]].
  - exfalso. rewrite Ek in Ek'. injection Ek' as <-. rewrite Eh in Hh. injection Hh as -> ->. rewrite Hd in Ed. injection Ed as _ E'. congruence.
  - destruct Ha as (h & es & os & xs & (key' & body & v & env & Ek' & Eh & Ed) & Hwf & _). exists es, os, xs.
    rewrite Ek in Ek'. injection Ek' as <-. rewrite Eh in Hh. injection Hh as -> ->. rewrite Hd in Ed. by injection Ed as _ ->.
  - destruct Ha as (key' & Ek' & Eh). rewrite Ek in Ek'. injection Ek' as <-. by rewrite Hh in Eh.
Qed.

(** ** Admission *)

(** The head admits the mutation at time [t]. *)
Record admissible (h : DomainHead) (es os : list DomainEntry) (m : consistencyDomainMutation) (t : Z) : Prop := {
  ad_live : Head_Frozen h = false;
  ad_revision r : ExpectedRevision m = Some r → Head_Revision h = r;
  ad_unlocked : unlocked (contents h es) (TransitionID m);
  ad_permits : Forall (permits (contents h es)) (Changes m);
  ad_expired : Forall (λ o, Outcome_RetainUntil o ≤ t) (recorded h os (ID m));
}.

Lemma quietly_validate h changes : quietly (fresh (validate_loop reference h changes)).
Proof. apply (quietly_fresh reference), growing_validate. Qed.

Lemma validate_sound b h es changes x b' :
  fresh (validate_loop reference h changes) b = (x, b') → Forall delta_ok (Head_Deltas h) → tree_holds b (Head_Base h) es →
  collision_free b' → ∀ u, x = Ok u → Forall (permits (contents h es)) changes.
Proof. intros E Hd Hh Hc u ->. eapply required_permits. by eapply validateMutationAtHead_sound. Qed.

(** [o] repeats an outcome the head records for the same mutation. *)
Definition answered_by (h : DomainHead) (os : list DomainEntry) (m : consistencyDomainMutation) (f : gostring)
    (o : consistencyDomainOutcome) : Prop :=
  ∃ o', o' ∈ recorded h os (ID m) ∧ Outcome_Fingerprint o' = f ∧ Revision o = Outcome_Revision o' ∧
    Answer o = clone_bytes (Outcome_Result o').

(** [replay] answers with the recorded outcome. *)
Lemma replay_Ok f o o' : replay f o = Ok o' → Fingerprint o = f ∧ Replayed o' = true ∧ MutationID o' = MutationID o ∧
  Fingerprint o' = f ∧ Revision o' = Revision o ∧ Answer o' = Answer o.
Proof. unfold replay. case_bool_decide as Hf; cbn [guard_err mbind result_bind]; [done|]. by intros [= <-]. Qed.

Lemma admit_sound m f h s x s' :
  admit_mutation reference m f h false s = (x, s') →
  blob_le (backend s) (backend s') ∧
  (∀ o, x = Ok (Some o) → Replayed o = true) ∧
  (collision_free (backend s') → x = Ok None → ∀ es os xs, head_wf (backend s) h es os xs →
     admissible h es os m (latest (backend s'))) ∧
  (collision_free (backend s') → ∀ o os, x = Ok (Some o) → tree_holds (backend s) (Head_Outcomes h) os → answered_by h os m f o).
Proof.
  unfold admit_mutation. intros E. apply gom_bind_inv in E as (y & s1 & E1 & E). destruct (outcome_sound h [] _ _ _ _ E1) as [Hle1 _].
  assert (∀ os, collision_free (backend s1) → tree_holds (backend s) (Head_Outcomes h) os → _) as Hout
    by (intros os; exact (proj2 (outcome_sound h os _ _ _ _ E1))).
  destruct y as [[o|]|e]; [| |destruct E as [-> ->]; naive_solver].
  { pure_step E. destruct (replay f o) as [o1|e] eqn:Er; [|destruct E as [-> ->]; naive_solver]. apply mret_inv in E as [-> ->].
    destruct (replay_Ok _ _ _ Er) as (Hf & Hrep & _ & _ & Hrev & Ha). split; [done|]. split; [by intros ? [= <-]|]. split; [done|].
    intros Hc ? os [= <-] Hh. destruct (proj2 (Hout os Hc Hh) o eq_refl) as (o' & Ho' & ->). by exists o'. }
  pure_step E. destruct (match ExpectedRevision m with Some r => _ | None => false end) eqn:Erev; cbn [guard_err] in E;
    [destruct E as [-> ->]; naive_solver|].
  pure_step E. destruct (Head_Frozen h) eqn:Efr; cbn [guard_err] in E; [destruct E as [-> ->]; naive_solver|].
  apply gom_bind_inv in E as (l & s2 & E2 & E). destruct (lock_sound h [] _ _ _ E2) as [Hle2 _].
  assert (blob_le (backend s) (backend s2)) as Hle12 by (by etrans).
  destruct l as [l|e]; [|destruct E as [-> ->]; naive_solver].
  pure_step E. destruct (match l with Some _ => _ | None => false end) eqn:El; cbn [guard_err] in E; [destruct E as [-> ->]; naive_solver|].
  apply gom_bind_inv in E as (u & s3 & E3%unowned_inv & E). pose proof (quietly_validate _ _ _ _ _ E3) as Hle3.
  assert (blob_le (backend s) (backend s3)) as Hle13 by (by etrans).
  destruct u as [u|e]; [|destruct E as [-> ->]; naive_solver]. apply mret_inv in E as [-> ->].
  split; [done|]. split; [done|]. split; [|done]. intros Hc _ es os xs Hwf.
  pose proof (collision_free_le _ _ Hle3 Hc) as Hc2. pose proof (collision_free_le _ _ Hle2 Hc2) as Hc1.
  pose proof (head_wf_after _ _ _ _ _ _ _ (after_le reference _ _ Hle1) Hwf) as Hwf1.
  pose proof (head_wf_after _ _ _ _ _ _ _ (after_le reference _ _ Hle12) Hwf) as Hwf2.
  split; [done|..].
  - intros r Er. rewrite Er in Erev. by apply negb_false_iff, Z.eqb_eq in Erev.
  - destruct (proj2 (lock_sound h es _ _ _ E2) Hc2 (wf_deltas _ _ _ _ _ _ Hwf) (wf_base _ _ _ _ _ _ Hwf1)) as [Hn Hl].
    destruct l as [[lock v]|].
    + apply bool_decide_eq_false, dec_stable in El. rewrite El. by eapply locked_unlocked, Hl.
    + intros e He. by rewrite (Hn eq_refl) in He.
  - eapply validate_sound; [exact E3|apply Hwf|apply Hwf2|done|done].
  - eapply list.Forall_impl; [exact (proj1 (Hout os Hc1 (wf_outcomes _ _ _ _ _ _ Hwf)) eq_refl)|].
    intros o ?. pose proof (latest_le _ _ Hle2). pose proof (latest_le _ _ Hle3). cbn in *. lia.
Qed.

(** ** Replacing the head *)

Lemma head_key_text key : head_key reference = Ok key → validDomainText (Ref_ID reference) = true.
Proof. unfold head_key, DomainHeadKey, validateDomainKeyPart. intros E. inv_go. by apply negb_false_iff. Qed.

Lemma bound_text key h : head_key reference = Ok key → misbound reference h = false → ValidString (Head_DomainID h) = true.
Proof.
  intros Hk%head_key_text [Hb%bool_decide_eq_false _]%orb_false_iff. apply dec_stable in Hb. rewrite Hb. by apply valid_text.
Qed.

Lemma encodeHead_decodes key snapshot h body :
  head_key reference = Ok key → misbound reference h = false → head_typed h → encodeHead key snapshot h = Ok body →
  head_ok h ∧ ∃ env, DecodeEnvelope body key domainHeadSchema = Ok (env, h).
Proof.
  intros Hk Hb Ht E. unfold encodeHead in E. apply result_bind_Ok in E as (u & Hv%ValidateDomainHead_Ok & E). split; [done|].
  eexists. eapply DecodeEnvelope_encoded; [|done| |exact E].
  - apply head_ok_text; [done..|]. by eapply bound_text.
  - destruct (exists_ snapshot); [|unfold u64_ok, MaxUint64; lia]. apply u64_range.
Qed.

(** The step the replacement of a seen head by [new] performs. *)
Definition advances (e : event) (b : B) (h new : DomainHead) : Prop :=
  collision_free b → ∃ es os xs es' os' xs', head_wf b h es os xs ∧ head_wf b new es' os' xs' ∧
    domain_step e (Some (domain_of h es os)) (domain_of new es' os') ∧
    match e with Committed _ _ _ t => t ≤ latest b | _ => True end.

Lemma advances_after e b b' h new : after reference b b' → advances e b h new → advances e b' h new.
Proof.
  intros Ha Hadv Hc. destruct (Hadv (af_free _ _ _ Ha Hc)) as (es & os & xs & es' & os' & xs' & W1 & W2 & W3 & W4).
  exists es, os, xs, es', os', xs'. split; [by eapply head_wf_after|]. split; [by eapply head_wf_after|]. split; [done|].
  destruct e; try done. pose proof (af_latest _ _ _ Ha). lia.
Qed.

Lemma head_put e snapshot key body new b x b' :
  snapshot_ok b snapshot → exists_ snapshot = true → head_key reference = Ok key → encodeHead key snapshot new = Ok body →
  advances e b (head snapshot) new →
  obj_put key body (put_match (Object_Version (object snapshot))) b = (x, b') →
  ∃ tr, evolves b tr b' ∧ (tr = [] ∨ tr = [e]) ∧ ∀ v, x = Ok v → tr = [e].
Proof.
  intros Hsn Hex Hk Henc Hadv E. destruct (put_sound _ _ _ _ _ _ (head_key_mutable _ _ Hk) E) as (b1 & Hle & Hput).
  destruct Hput as [[Hx ->]|(v & Hal & Hv & Hheads & Hcont & Hhist & Hlat & Hof)].
  { exists []. split; [by apply evolves_le|]. split; [by left|]. intros v ->. by destruct (Hx v). }
  exists [e]. split; [|split; [by right|done]]. eapply evolves_quiet; [exact Hle|].
  assert (replaced (key_value key) b1 b') as Hr.
  { split; [|done..]. intros k' Hne. by rewrite Hheads, lookup_insert_ne. }
  eapply evolves_event; [exact Hk|exact Hr| |constructor]. intros Hc.
  assert (after reference b b1) as Ha by (by apply after_le). assert (after reference b1 b') as Ha' by (by eapply after_replaced).
  apply (snapshot_ok_after _ _ _ Ha) in Hsn. unfold snapshot_ok in Hsn. rewrite Hex in Hsn. destruct Hsn as (key' & Ek' & Hh & Hd & _).
  rewrite Hk in Ek'. injection Ek' as <-. destruct Hal as [[? _]|(v1 & body1 & [= <-] & Hcur)]; [done|].
  pose proof (heads_history _ _ _ _ Hcur) as Hh1. rewrite Hh in Hh1. injection Hh1 as <-.
  destruct (advances_after _ _ _ _ _ Ha Hadv Hc) as (es & os & xs & es' & os' & xs' & W1 & W2 & W3 & W4).
  destruct (encodeHead_decodes _ _ _ _ Hk (wf_bound _ _ _ _ _ _ W2) (wf_typed _ _ _ _ _ _ W2) Henc) as (_ & env & Hdec).
  exists (Some (domain_of (head snapshot) es os)), (domain_of new es' os'). split; [|split; [|done]].
  - exists (head snapshot), es, os, xs. split; [|done]. by exists key, (Object_Body (object snapshot)), (Object_Version (object snapshot)), (envelope snapshot).
  - exists new, es', os', xs'. split; [|split; [by eapply head_wf_after|done]]. exists key, body, v, env. by rewrite Hheads, lookup_insert_eq.
Qed.

(** ** The commit *)

Lemma mutation_delta_typed m f r : u64_ok r → delta_typed (mutation_delta m f r).
Proof.
  intros Hr. split; [done|]. split; [|apply clone_slice_ok]. apply Forall_map, list.Forall_forall. intros c _. apply clone_slice_ok.
Qed.

Lemma commit_advances m f t h b key snapshot body :
  head_key reference = Ok key → t ≤ latest b →
  encodeHead key snapshot (with_delta h (mutation_delta m f (u64 (Head_Revision h + 1)))) = Ok body →
  (collision_free b → ∃ es os xs, head_wf b h es os xs ∧ admissible h es os m t) →
  advances (Committed m f (u64 (Head_Revision h + 1)) t) b h (with_delta h (mutation_delta m f (u64 (Head_Revision h + 1)))).
Proof.
  intros Hk Ht Henc Had Hc. destruct (Had Hc) as (es & os & xs & Hwf & [A1 A2 A3 A4 A5]). set (new := with_delta _ _) in *.
  pose proof Hwf as [W1 (T1 & T2 & T3 & T4 & T5 & T6 & T7) W3 W4 W5 W6 W7].
  assert (head_typed new) as Hty.
  { split; [apply u64_range|]. do 5 (split; [done|]). apply Forall_app. split; [done|]. constructor; [|done].
    apply mutation_delta_typed, u64_range. }
  destruct (encodeHead_decodes _ _ _ _ Hk (W1 : misbound reference new = false) Hty Henc) as [Hok _].
  assert (u64 (Head_Revision h + 1) = Head_Revision h + 1) as Hrev.
  { assert (Head_Revision new ≠ 0) as Hne by (apply (hd_revision _ Hok); unfold new; cbn; by destruct (Head_Deltas h)). change (Head_Revision new) with (u64 (Head_Revision h + 1)) in Hne.
    unfold u64_ok in T1. destruct (decide (Head_Revision h = MaxUint64)) as [E|]; [|apply u64_small; lia].
    rewrite E in Hne. by destruct Hne. }
  rewrite A1 in W4. symmetry in W4. apply negb_false_iff, Z.eqb_eq in W4.
  exists es, os, xs, es, os, xs. split; [done|]. split; [|split; [|done]].
  { split; [done|done|apply Hok|by rewrite (hd_frozen _ Hok)|done..]. }
  constructor; try done.
  - cbn [values domain_of]. unfold contents, window_changes, new. cbn [Head_Deltas with_delta].
    by rewrite map_app, concat_app, change_map_app; cbn; rewrite app_nil_r.
  - intros id. cbn [outcomes domain_of revision]. unfold recorded, new. cbn [Head_Deltas with_delta Head_Revision].
    rewrite reverse_app. cbn. rewrite (assoc_L (++)). f_equal.
    destruct (decide (ID m = id)) as [->|Hne]; [by rewrite bool_decide_eq_true_2|by rewrite bool_decide_eq_false_2 by congruence].
Qed.
End Store.
End StoreCommit.
