(* ===== verification/StoreCatalog.v ===== *)
(** * Registering a domain

    Registration reads and replaces the catalog; the head of the domain is
    another object and stays as it is. *)

From Stdlib Require Import ZArith Lia.
From S2P Require Import Prelude GoLib GoHash GoJSON GoTime Errors ObjectStore ObjectTheory DomainPage DomainPageTheory DomainTree TreeTheory TreeRead TreeEdit DomainPack DomainHead DomainSession TreeStream DomainProvider DomainCatalog DomainStore HeadTheory SessionLaws PackTheory SessionReader StoreLaws StoreRead StoreSpec StoreCommit.

Open Scope Z_scope.

Module StoreCatalog.
Import ObjectStore StorageFormat PageTheory DomainTree TreeTheory TreeRead TreeEdit DomainPack DomainHead HeadTheory DomainSession DomainProvider DomainCatalog DomainStore SessionLaws PackTheory SessionReader StoreLaws StoreRead StoreSpec StoreCommit.

Lemma MustKey_value v k : MustKey v = Ok k → key_value k = v.
Proof. unfold MustKey. destruct (ParseKey v) as [k'|] eqn:E; [|done]. intros [= <-]. by apply ObjectTheory.ParseKey_Ok in E as [-> _]. Qed.

Lemma catalog_key_differs `{SHA256} reference key catalog :
  head_key reference = Ok key → DomainCatalogHeadKey = Ok catalog → key_value key ≠ key_value catalog.
Proof.
  unfold head_key, DomainHeadKey, DomainCatalogHeadKey, fixedKey, domainKeyKind, validDomainKind. intros E1 E2%MustKey_value. inv_go.
  apply MustKey_value in E1. rewrite E1, E2. intros E. apply app_inv_head in E.
  match goal with Hk : negb (bool_decide (Ref_Kind reference ∈ _)) = false |- _ => apply negb_false_iff, bool_decide_eq_true in Hk; rename Hk into Hkind end.
  simplify_eq. repeat (apply elem_of_cons in Hkind as [Hkind|Hkind]; [rewrite Hkind in E; discriminate E|]). by apply not_elem_of_nil in Hkind.
Qed.

Section Catalog.
Context `{SHA256} `{!SHA256Laws} `{GZIP} `{!GZIPLaws} {B : Type} `{!Provider B, !ProviderView B, !ProviderLaws B}.
Variable reference : consistencyDomainRef.
Abbreviation evolves := (evolves reference).

(** [m] leaves the head of the domain to others. *)
Definition passes {A} (m : GoM B error A) : Prop := ∀ b x b', m b = (x, b') → evolves b [] b'.

Lemma passes_quiet {A} (m : GoM B error A) : quietly m → passes m.
Proof. intros Hm b x b' E. apply evolves_le. by eapply Hm. Qed.

Lemma passes_bind {A C} (m : GoM B error A) (f : A → GoM B error C) : passes m → (∀ a, passes (f a)) → passes (m ≫= f).
Proof.
  intros Hm Hf b x b' (y & b1 & E1 & E)%gom_bind_inv. pose proof (Hm _ _ _ E1). destruct y as [a|e].
  - apply (evolves_trans _ _ [] b1 []); [done|]. by eapply Hf.
  - by destruct E as [_ ->].
Qed.

Lemma passes_attempt {A} (m : GoM B error A) : passes m → passes (attempt m).
Proof. intros Hm b x b'. unfold attempt. destruct (m b) as [y b1] eqn:E. intros [= _ <-]. by eapply Hm. Qed.

Lemma passes_ret {A} (a : A) : passes (mret a).
Proof. apply passes_quiet, quietly_ret. Qed.

Lemma passes_lift {A} (r : res A) : passes (lift r).
Proof. apply passes_quiet, quietly_lift. Qed.

Lemma passes_throw {A} e : passes (throw e : GoM B error A).
Proof. apply passes_quiet, quietly_throw. Qed.

Create HintDb passes.
#[local] Hint Resolve passes_ret passes_lift passes_throw : passes.

Ltac pass :=
  intros;
  lazymatch goal with
  | |- passes (_ ≫= _) => apply passes_bind; pass
  | |- passes (attempt _) => apply passes_attempt; pass
  | |- passes (match ?x with _ => _ end) => destruct x; pass
  | |- passes (let '(_, _) := ?x in _) => destruct x; pass
  | |- _ => try solve [eauto with passes]
  end.

(** ** The catalog's own session *)

Abbreviation catalog_packs := (session_packKey catalog_reference).
#[local] Remove Hints session_pages session_view session_read_laws session_laws reader_view reader_laws : typeclass_instances.
#[local] Existing Instance catalog_pages.
#[local] Instance catalog_view : PageView (Session B) := session_view catalog_reference DomainCatalogPageKey catalog_packs.
#[local] Instance catalog_laws : PageStoreLaws (Session B) :=
  session_laws catalog_reference DomainCatalogPageKey catalog_packs catalog_key_blob (pack_key_blob catalog_reference).

Lemma quietly_session {A} (m : GoM (Session B) error A) : growing m → quietly (fresh m).
Proof.
  intros Hm b x b' (s & E & <-)%fresh_inv. by destruct (Hm _ _ _ (session_inv_new _ _ _ b) E) as [_ [Hle _]].
Qed.

Lemma growing_apply root changes : growing (apply_ root changes).
Proof. intros s x s' Hi E. by destruct (apply_spec _ _ _ _ _ Hi E). Qed.

Lemma passes_load : passes load.
Proof.
  unfold load. destruct DomainCatalogHeadKey as [key|e] eqn:Ek.
  - intros b x b' E. pure_step E. revert E. apply passes_bind; [|pass].
    apply passes_attempt, passes_quiet, quietly_get. by apply catalog_key_mutable.
  - intros b x b' E. pure_step E. destruct E as [_ ->]. constructor.
Qed.

Lemma passes_entryAt h r : passes (entryAt h r).
Proof. unfold entryAt. apply passes_bind; [apply passes_quiet, quietly_session, growing_lookup|pass]. Qed.

Lemma passes_publish snapshot next : passes (publish snapshot next).
Proof.
  unfold publish. intros b x b' E. pure_step E. destruct DomainCatalogHeadKey as [key|e] eqn:Ek; [|destruct E as [_ ->]; constructor].
  pure_step E. destruct (EncodeEnvelope _ _ _ _) as [body|e]; [|destruct E as [_ ->]; constructor].
  apply gom_bind_inv in E as (y & b1 & E1 & E). assert (b' = b1) as -> by (destruct y; [by apply mret_inv in E as [_ ->]|by destruct E]).
  destruct (put_sound _ _ _ _ _ _ (catalog_key_mutable _ Ek) E1) as (b2 & Hle & [[_ ->]|(v & _ & _ & Hh & Hc & Hhi & Hla & Hof)]); [by apply evolves_le|].
  eapply evolves_quiet; [exact Hle|]. eapply (evolves_other _ (key_value key)); [| |constructor].
  - split; [|done..]. intros k' Hne. by rewrite Hh, lookup_insert_ne.
  - intros r hk Hk. by apply (catalog_key_differs _ _ _ Hk Ek).
Qed.
#[local] Hint Resolve passes_load passes_entryAt passes_publish : passes.

Lemma passes_register_loop fuel r entry change : passes (register_loop fuel r entry change).
Proof.
  induction fuel as [|fuel IH]; cbn [register_loop]; [pass|]. apply passes_bind; [pass|]. intros snapshot.
  apply passes_bind; [pass|]. intros [existing|]; [pass|]. apply passes_bind; [pass|]. intros _.
  apply passes_bind; [apply passes_quiet, quietly_session, growing_apply|]. intros root. pass.
Qed.

Lemma passes_register fuel r : passes (register fuel r).
Proof. unfold register. pass. apply passes_register_loop. Qed.
End Catalog.
End StoreCatalog.
