(* ===== verification/StoreFold.v ===== *)
(** * Folding the delta window

    The pure half of a compaction: the latest change of every key says what all
    deltas say, and the folded outcomes are the live ones. *)

From Stdlib Require Import ZArith Lia.
From S2P Require Import Prelude GoLib GoHash GoJSON GoTime Errors ObjectStore DomainPage DomainPageTheory DomainTree TreeTheory TreeRead TreeEdit DomainPack DomainHead DomainSession TreeStream DomainProvider DomainCatalog DomainStore HeadTheory SessionLaws PackTheory SessionReader StoreLaws StoreRead StoreSpec.

Open Scope Z_scope.

Module StoreFold.
Import ObjectStore StorageFormat PageTheory DomainTree TreeTheory TreeRead TreeEdit DomainPack DomainHead HeadTheory DomainStore StoreRead StoreSpec.

(** ** Changes by key *)

Definition index_keyed (m : change_index) : Prop := ∀ k c, m !! k = Some c → Change_Key c = k.

Lemma index_keyed_empty : index_keyed ∅.
Proof. intros k c. by rewrite lookup_empty. Qed.

Lemma index_keyed_insert m c : index_keyed m → index_keyed (<[Change_Key c := c]> m).
Proof. intros Hm k c'. rewrite lookup_insert_Some. intros [[<- <-]|[_ ?]]; auto. Qed.
#[local] Hint Resolve index_keyed_empty index_keyed_insert : core.

Lemma index_changes_keyed cs m : index_keyed m → index_keyed (index_changes cs m).
Proof. unfold index_changes. revert m. induction cs as [|c cs IH]; cbn; auto. Qed.

Lemma normalize_elem m c : c ∈ normalizeDomainChangeMap m ↔ ∃ k, m !! k = Some c.
Proof.
  unfold normalizeDomainChangeMap. rewrite merge_sort_Permutation, list_elem_of_fmap. split.
  - intros ([k c'] & -> & Hc%elem_of_map_to_list). by exists k.
  - intros [k Hk]. exists (k, c). split; [done|]. by apply elem_of_map_to_list.
Qed.

Lemma normalize_NoDup m : index_keyed m → NoDup (map Change_Key (normalizeDomainChangeMap m)).
Proof.
  intros Hm. change (NoDup (Change_Key <$> normalizeDomainChangeMap m)). unfold normalizeDomainChangeMap.
  rewrite merge_sort_Permutation. cbn. rewrite map_map. rewrite (map_ext_in _ fst); [apply NoDup_fst_map_to_list|].
  intros [k c] Hc%list_elem_of_In%elem_of_map_to_list. by apply Hm.
Qed.

(** Applying an index of changes. *)
Lemma change_map_index idx m k : index_keyed idx → change_map (normalizeDomainChangeMap idx) m !! k = changed_value (idx !! k) (m !! k).
Proof.
  intros Hi. apply option_eq. intros e. rewrite change_map_lookup by (by apply normalize_NoDup).
  setoid_rewrite normalize_elem. assert (changed (normalizeDomainChangeMap idx) k ↔ is_Some (idx !! k)) as Hch.
  { unfold changed. rewrite list_elem_of_fmap. setoid_rewrite normalize_elem. split.
    - intros (c & -> & k' & Hk'). rewrite (Hi _ _ Hk'). by eexists.
    - intros [c Hc]. exists c. split; [by rewrite (Hi _ _ Hc)|by exists k]. }
  destruct (idx !! k) as [c|] eqn:Ek; cbn [changed_value].
  - assert (∀ c', (∃ k', idx !! k' = Some c') → Change_Key c' = k → c' = c) as Hu.
    { intros c' [k' Hk'] Hc'. rewrite (Hi _ _ Hk') in Hc'. congruence. }
    destruct (Change_Delete c) eqn:Ed; split.
    + intros [[_ Hn]|(c' & Hc' & Hd & Hk & _)]; [by destruct Hn; apply Hch; eexists|]. rewrite (Hu c' Hc' Hk) in Hd. congruence.
    + done.
    + intros [[_ Hn]|(c' & Hc' & _ & Hk & ->)]; [by destruct Hn; apply Hch; eexists|]. by rewrite (Hu c' Hc' Hk).
    + intros [= <-]. right. exists c. split; [by eexists|]. split; [done|]. split; [by apply Hi|done].
  - split; [|by intros ?; left; split; [|rewrite Hch; intros [? ?]]].
    intros [[? _]|(c' & [k' Hk'] & _ & Hc' & _)]; [done|]. rewrite (Hi _ _ Hk') in Hc'. congruence.
Qed.

Lemma index_changes_fold cs idx m k :
  index_keyed idx →
  change_map cs (change_map (normalizeDomainChangeMap idx) m) !! k = changed_value (index_changes cs idx !! k) (m !! k).
Proof.
  revert idx. induction cs as [|c cs IH]; intros idx Hi; [by apply change_map_index|].
  change (index_changes (c :: cs) idx) with (index_changes cs (<[Change_Key c := c]> idx)). rewrite <-IH by auto.
  change (change_map (c :: cs) ?m') with (change_map cs (change_map [c] m')). f_equal. f_equal.
  apply map_eq. intros k'. rewrite change_map_index by auto. cbn.
  destruct (Change_Delete c) eqn:Ed; destruct (decide (k' = Change_Key c)) as [->|Hne].
  - rewrite lookup_delete_eq, lookup_insert_eq. cbn. by rewrite Ed.
  - rewrite lookup_delete_ne, lookup_insert_ne by done. by apply change_map_index.
  - rewrite !lookup_insert_eq. cbn. by rewrite Ed.
  - rewrite !lookup_insert_ne by done. by apply change_map_index.
Qed.

(** The index of the whole window acts as the window. *)
Lemma fold_contents cs m : change_map (normalizeDomainChangeMap (index_changes cs ∅)) m = change_map cs m.
Proof.
  apply map_eq. intros k. rewrite change_map_index by (by apply index_changes_keyed). rewrite <-(index_changes_fold cs ∅ m k) by done. done.
Qed.

(** ** Outcomes *)

Section Outcomes.
Context `{SHA256}.

(** The change that stores an outcome. *)
Definition stores (c : DomainChange) (o : DomainOutcome) : Prop :=
  Change_Key c = Outcome_MutationID o ∧ Change_Delete c = false ∧ ∃ body, Change_Value c = Some body ∧ encode_document o = Ok body.

Lemma record_outcome_spec o os xs os' xs' :
  record_outcome o os xs = Ok (os', xs') → index_keyed os → index_keyed xs →
  index_keyed os' ∧ index_keyed xs' ∧ ∃ c, stores c o ∧ os' = <[Outcome_MutationID o := c]> os.
Proof.
  unfold record_outcome. intros E Ho Hx. apply result_bind_Ok in E as (body & Eb & E). injection E as <- <-.
  set (c := {| Change_Key := Outcome_MutationID o |}). set (x := {| Change_Key := consistencyDomainOutcomeExpiryKey _ _ |}).
  split; [exact (index_keyed_insert _ c Ho)|]. split; [exact (index_keyed_insert _ x Hx)|]. exists c. split; [|done].
  split; [done|]. split; [done|]. by exists body.
Qed.

(** The newest delta of [id] that is retained at [now]. *)
Definition newest_live (now : Z) (ds : list DomainDelta) (id : gostring) : option DomainDelta :=
  last (filter (λ d, Delta_MutationID d = id ∧ now < Delta_RetainUntil d) ds).

Lemma fold_window_spec now ds l os xs l' os' xs' :
  fold_window now ds l os xs = Ok (l', os', xs') → index_keyed os → index_keyed xs →
  l' = index_changes (concat (map Delta_Changes ds)) l ∧ index_keyed os' ∧ index_keyed xs' ∧
  ∀ id, match newest_live now ds id with
        | Some d => ∃ c, os' !! id = Some c ∧ stores c (delta_outcome d)
        | None => os' !! id = os !! id
        end.
Proof.
  revert l os xs. induction ds as [|d ds IH]; intros l os xs E Ho Hx; cbn [fold_window] in E.
  { by injection E as <- <- <-. }
  assert (∀ l1 os1 xs1, fold_window now ds l1 os1 xs1 = Ok (l', os', xs') → index_keyed os1 → index_keyed xs1 →
    l1 = index_changes (Delta_Changes d) l →
    (∀ id, match newest_live now [d] id with Some d => ∃ c, os1 !! id = Some c ∧ stores c (delta_outcome d) | None => os1 !! id = os !! id end) →
    l' = index_changes (concat (map Delta_Changes (d :: ds))) l ∧ index_keyed os' ∧ index_keyed xs' ∧
    ∀ id, match newest_live now (d :: ds) id with Some d => ∃ c, os' !! id = Some c ∧ stores c (delta_outcome d) | None => os' !! id = os !! id end) as Hgo.
  { intros l1 os1 xs1 E1 Ho1 Hx1 -> Hd. destruct (IH _ _ _ E1 Ho1 Hx1) as (-> & ? & ? & Hall). split; [|split; [done|split; [done|]]].
    { cbn. unfold index_changes. by rewrite fold_left_app. }
    intros id. specialize (Hall id). specialize (Hd id). unfold newest_live in *. change (d :: ds) with ([d] ++ ds). rewrite filter_app, last_app.
    destruct (last (filter _ ds)) as [d'|]; [done|]. destruct (last (filter _ [d])) as [d'|]; [|congruence].
    destruct Hd as (c & Hc & Hst). exists c. split; [congruence|done]. }
  destruct (Z.ltb_spec now (Delta_RetainUntil d)) as [Hlt|Hge]; cbn [negb] in E.
  - apply result_bind_Ok in E as ([os1 xs1] & Er & E). destruct (record_outcome_spec _ _ _ _ _ Er Ho Hx) as (Ho1 & Hx1 & c & Hst & ->).
    eapply Hgo; [done..|]. intros id. unfold newest_live. cbn. destruct (decide (Delta_MutationID d = id ∧ now < Delta_RetainUntil d)) as [[<- _]|Hn].
    + cbn. exists c. by rewrite lookup_insert_eq.
    + cbn. apply lookup_insert_ne. intros <-. by apply Hn.
  - eapply Hgo; [done..|]. intros id. unfold newest_live. cbn. destruct (decide (Delta_MutationID d = id ∧ now < Delta_RetainUntil d)) as [[_ ?]|Hn]; [lia|done].
Qed.

(** An expired entry of the expiry index for [id]. *)
Definition expired_entry (now : Z) (id : gostring) (e : DomainEntry) : Prop :=
  default [] (Entry_Value e) = id ∧ parseConsistencyDomainExpiryTime (Entry_Key e) ≤ now.

Lemma prune_spec now entries os xs os' xs' :
  prune_loop now entries os xs = Ok (os', xs') → index_keyed os → index_keyed xs →
  index_keyed os' ∧ index_keyed xs' ∧
  ∀ id, os' !! id = os !! id ∨
    os !! id = None ∧ (∃ e, e ∈ entries ∧ expired_entry now id e) ∧ ∃ c, os' !! id = Some c ∧ Change_Delete c = true.
Proof.
  revert os xs. induction entries as [|e es IH]; intros os xs E Ho Hx; cbn [prune_loop] in E.
  { injection E as <- <-. auto. }
  apply result_bind_Ok in E as ([] & _ & E). destruct (Z.ltb_spec now (parseConsistencyDomainExpiryTime (Entry_Key e))) as [|Hle].
  { injection E as <- <-. auto. }
  apply result_bind_Ok in E as ([] & _ & E). set (mid := default [] (Entry_Value e)) in *. set (removal := λ k, {| Change_Key := k; Change_Delete := true; Change_Value := None; Change_LogicalVersion := [] |}).
  change (prune_loop now es (match os !! mid with Some _ => os | None => <[mid := removal mid]> os end) (<[Entry_Key e := removal (Entry_Key e)]> xs) = Ok (os', xs')) in E.
  assert (index_keyed (<[Entry_Key e := removal (Entry_Key e)]> xs)) as Hx1 by exact (index_keyed_insert _ (removal (Entry_Key e)) Hx).
  destruct (os !! mid) as [c|] eqn:Em.
  - destruct (IH _ _ E Ho Hx1) as (? & ? & Hall). split; [done|]. split; [done|]. intros id.
    destruct (Hall id) as [?|(? & (e' & ? & ?) & ?)]; [by left|right]. split; [done|]. split; [|done]. exists e'. split; [by right|done].
  - assert (index_keyed (<[mid := removal mid]> os)) as Ho1 by exact (index_keyed_insert _ (removal mid) Ho).
    destruct (IH _ _ E Ho1 Hx1) as (? & ? & Hall). split; [done|]. split; [done|]. intros id.
    destruct (decide (id = mid)) as [->|Hne].
    + right. split; [done|]. split; [exists e; split; [by left|done]|]. destruct (Hall mid) as [Heq|(Hn & _)].
      * rewrite Heq, lookup_insert_eq. eexists. split; [done|done].
      * by rewrite lookup_insert_eq in Hn.
    + destruct (Hall id) as [Heq|(Hn & (e' & ? & ?) & ?)]; rewrite lookup_insert_ne in * by done; [by left|right].
      split; [done|]. split; [|done]. exists e'. split; [by right|done].
Qed.

(** A stored outcome reads back. *)
Lemma delta_outcome_text d body :
  delta_ok d → delta_typed d → encode_document (delta_outcome d) = Ok body → outcome_text (delta_outcome d).
Proof.
  intros [D1 D2 _ _ _ _] (T1 & _ & T2) E. split; [by apply valid_text|]. split; [by apply validDomainDigest_text|]. split; [done|].
  split; [|apply clone_slice_ok]. unfold encode_document in E. inv_go.
  match goal with Hg : negb _ = false |- _ => apply negb_false_iff in Hg; cbn in Hg; by rewrite andb_true_r in Hg end.
Qed.

Lemma stored_outcome c d :
  delta_ok d → delta_typed d → stores c (delta_outcome d) → entry_outcomes (Some (change_entry c)) = [delta_outcome d].
Proof.
  intros Hd Ht (_ & _ & body & Hv & He). unfold entry_outcomes, change_entry. cbn [Entry_Value]. rewrite Hv.
  pose proof He as [_ Hlen]%encode_document_Ok. assert (default [] (clone_bytes (Some body)) = body) as -> by (by destruct body).
  assert (decodeCanonicalValue body = Ok (delta_outcome d)) as ->; [|done].
  apply decodeCanonicalValue_encoded; [|done]. by eapply delta_outcome_text.
Qed.

(** The first outcome that is retained at [now]. *)
Definition find_live (now : Z) (l : list DomainOutcome) : option DomainOutcome :=
  list.head (filter (λ o, now < Outcome_RetainUntil o) l).

Lemma find_live_window now ds id rest :
  find_live now (map delta_outcome (filter (λ d, Delta_MutationID d = id) (reverse ds)) ++ rest) =
    match newest_live now ds id with Some d => Some (delta_outcome d) | None => find_live now rest end.
Proof.
  unfold find_live, newest_live. induction ds as [|d ds IH] using rev_ind; [done|].
  rewrite reverse_app, (filter_app _ ds [d]), last_app. cbn.
  destruct (decide (Delta_MutationID d = id)) as [Hid|Hid], (decide (now < Delta_RetainUntil d)) as [Hl|Hl]; cbn.
  - rewrite (decide_True (P := now < Delta_RetainUntil d)), decide_True by done. done.
  - rewrite (decide_False (P := now < Delta_RetainUntil d)), decide_False by naive_solver. done.
  - rewrite decide_False by naive_solver. done.
  - rewrite decide_False by naive_solver. done.
Qed.
End Outcomes.
End StoreFold.
