(* ===== verification/StoreCompact.v ===== *)
(** * Compaction

    Folding the window into the trees replaces the head by one that shows the
    same values, and invents no outcome. *)

From Stdlib Require Import ZArith Lia.
From S2P Require Import Prelude GoLib GoHash GoJSON GoTime Errors ObjectStore ObjectTheory DomainPage DomainPageTheory DomainTree TreeTheory TreeRead TreeEdit DomainPack DomainHead DomainSession TreeStream DomainProvider DomainCatalog DomainStore HeadTheory SessionLaws PackTheory SessionReader StoreLaws StoreRead StoreSpec StoreCommit StoreFold.

Open Scope Z_scope.

Module StoreCompact.
Import ObjectStore StorageFormat PageTheory DomainTree TreeTheory TreeRead TreeEdit DomainPack DomainHead HeadTheory DomainSession DomainProvider DomainCatalog DomainStore SessionLaws PackTheory SessionReader StoreLaws StoreRead StoreSpec StoreCommit StoreFold.

Section Store.
Context `{SHA256} `{!SHA256Laws} `{GZIP} `{!GZIPLaws} {B : Type} `{!Provider B, !ProviderView B, !ProviderLaws B}.
Variable reference : consistencyDomainRef.

Abbreviation pageKey := (session_pageKey reference).
Abbreviation packKey := (session_packKey reference).
Abbreviation tree_holds := (tree_holds reference pageKey packKey).
Abbreviation head_wf := (head_wf reference).
Abbreviation world_ok := (world_ok reference).
Abbreviation evolves := (evolves reference).
Abbreviation inv := (session_inv reference pageKey packKey).
Abbreviation flushed := (flushed reference pageKey packKey).
#[local] Remove Hints session_pages session_view session_read_laws session_laws reader_view reader_laws : typeclass_instances.
#[local] Instance the_pages : PageStore (Session B) := pages_of_reference reference.
#[local] Instance the_view : PageView (Session B) := session_view reference pageKey packKey.
#[local] Instance the_laws : PageStoreLaws (Session B) :=
  session_laws reference pageKey packKey (page_key_blob reference) (pack_key_blob reference).

(** ** Steps of a writing session *)

Lemma growing_on_backend {A} (n : GoM B error A) : quietly n → growing (on_backend n).
Proof.
  intros Hn s x s' Hi E. unfold on_backend in E. destruct (n (backend s)) as [y b] eqn:En. injection E as <- <-.
  apply (session_step_grows reference pageKey packKey), (after_read_step reference pageKey packKey); [done|].
  apply (after_read_backend reference packKey); [by eapply Hn|apply Hi].
Qed.

Lemma growing_modify (f : Session B → Session B) :
  (∀ s, backend (f s) = backend s ∧ pages (f s) = pages s ∧ pagePacks (f s) = pagePacks s ∧ packs (f s) = packs s ∧
     known (f s) = known s ∧ pendingPack (f s) = pendingPack s ∧ packID (f s) = packID s ∧ packFlushed (f s) = packFlushed s) →
  growing (modify f).
Proof.
  intros Hf s x s' Hi E. injection E as <- <-. destruct (Hf s) as (E1 & E2 & E3 & E4 & E5 & E6 & E7 & E8).
  apply (session_step_grows reference pageKey packKey), (same_step reference pageKey packKey); try done.
  - rewrite E1. reflexivity.
  - intros id m. rewrite E4, E1. apply (si_packs _ _ _ _ Hi).
  - by right.
  - by rewrite E8.
Qed.

Lemma growing_get {A} (k : Session B → GoM (Session B) error A) :
  (∀ s, growing (k s)) → growing (get ≫= k).
Proof. intros Hk s x s' Hi E. apply gom_bind_inv in E as (y & s1 & [= <- <-] & E). by eapply Hk. Qed.

Lemma growing_bind_preparation seed until : growing (bind_preparation seed until).
Proof.
  unfold bind_preparation, bindPreparedMutation. apply growing_bind; [apply growing_on_backend, quietly_now|]. intros now.
  apply growing_bind; [apply growing_lift|]. intros _. apply growing_get. intros s.
  case_bool_decide; [apply growing_lift|]. apply growing_bind; [apply growing_lift|]. intros _.
  apply growing_bind; [apply growing_lift|]. intros _. apply growing_bind; intros; by apply growing_modify.
Qed.

Lemma growing_check_preparation until : growing (check_preparation until).
Proof.
  unfold check_preparation, preparation. apply growing_bind; [apply growing_on_backend, quietly_now|]. intros now.
  apply growing_get. intros s. destruct (preparedAt s); [|apply growing_throw]. destruct (retainUntil s); [|apply growing_throw].
  apply growing_bind; [apply growing_lift|]. intros _. apply growing_bind; [apply growing_lift|]. intros _. apply growing_ret.
Qed.

Lemma growing_flush : growing (flushPack None reference packKey).
Proof.
  intros s x s' Hi E. apply (session_step_grows reference pageKey packKey).
  by destruct (flush_spec reference pageKey packKey (pack_key_blob reference) _ _ _ Hi E).
Qed.

(** What is flushed stays flushed while the session only reads. *)
Lemma check_flushed until s x s' : inv s → check_preparation until s = (x, s') → flushed s → flushed s'.
Proof.
  intros Hi E Hf. unfold check_preparation in E. apply gom_bind_inv in E as (t & s1 & E1 & E).
  assert (flushed s1) as Hf1.
  { unfold on_backend, Now in E1. destruct (clock_now (backend s)) as [t' b] eqn:Et. injection E1 as <- <-. intros d p Hp.
    eapply stored_le; [apply (clock_sound _ _ _ Et)|by apply Hf]. }
  destruct t as [t|e]; [|by destruct E as [_ ->]]. unfold preparation in E. apply gom_bind_inv in E as (y & s2 & [= <- <-] & E).
  destruct (preparedAt s1); [|by injection E as _ <-]. destruct (retainUntil s1); [|by injection E as _ <-].
  pure_step E. destruct (guard_err _ _); [|by destruct E as [_ ->]].
  pure_step E. destruct (guard_err _ _); [|by destruct E as [_ ->]]. by apply mret_inv in E as [_ ->].
Qed.

(** The instant of a preparation is a reading of the clock. *)
Definition timely (s : Session B) : Prop := ∀ t, preparedAt s = Some t → t ≤ latest (backend s).

Lemma now_timely s x s' : timely s → on_backend Now s = (x, s') → timely s' ∧ ∀ t, x = Ok t → t ≤ latest (backend s').
Proof.
  intros Ht E. unfold on_backend, Now in E. destruct (clock_now (backend s)) as [t b] eqn:Et. injection E as <- <-. apply clock_sound in Et as [Hle Et].
  split; [|by intros ? [= <-]]. intros u Eu. cbn. etrans; [by apply Ht|by apply latest_le].
Qed.

Lemma bind_timely seed until s x s' : timely s → bind_preparation seed until s = (x, s') → timely s'.
Proof.
  intros Ht E. unfold bind_preparation in E. apply gom_bind_inv in E as (t & s1 & E1 & E). destruct (now_timely _ _ _ Ht E1) as [Ht1 Hnow].
  destruct t as [t|]; [|by destruct E as [_ ->]]. unfold bindPreparedMutation in E. pure_step E. destruct (guard_err _ _); [|by destruct E as [_ ->]].
  apply gom_bind_inv in E as (y & s2 & [= <- <-] & E). case_bool_decide; [by apply lift_inv in E as [_ ->]|].
  pure_step E. destruct (guard_err _ _); [|by destruct E as [_ ->]]. pure_step E. destruct (guard_err _ _); [|by destruct E as [_ ->]].
  apply gom_bind_inv in E as (y & s3 & [= <- <-] & E). injection E as _ <-. intros u [= <-]. by apply Hnow.
Qed.

Lemma check_time until s x s' : timely s → check_preparation until s = (x, s') → ∀ now u, x = Ok (now, u) → now ≤ latest (backend s').
Proof.
  intros Ht E now u ->. unfold check_preparation in E. apply gom_bind_inv in E as (t & s1 & E1 & E). destruct (now_timely _ _ _ Ht E1) as [Ht1 _].
  destruct t as [t|]; [|by destruct E]. unfold preparation in E. apply gom_bind_inv in E as (y & s2 & [= <- <-] & E).
  destruct (preparedAt s1) as [at_|] eqn:Ea; [|by injection E]. destruct (retainUntil s1); [|by injection E].
  pure_step E. destruct (guard_err _ _); [|by destruct E]. pure_step E. destruct (guard_err _ _); [|by destruct E].
  apply mret_inv in E as [[= <- _] ->]. by apply Ht1.
Qed.

(** The roots that are written fit their types. *)
Lemma holds_typed s root es : inv s → holds s root es → root_ok root → root_typed root.
Proof.
  intros Hi Hh (Hl & Hz & _ & _). destruct Hh as [[Hd _]|[_ [l Hr]]].
  - destruct (Hz Hd) as (_ & Hc & Hb & Hlv). unfold root_typed, u64_ok, MaxInt64, MaxUint64. lia.
  - assert (∃ p, refers s (root_ref root) p) as (p & Hp & Hv).
    { destruct l; [destruct Hr as (p & Hp & _)|destruct Hr as (p & ess & Hp & _)]; by exists p. } destruct (backed_ok _ _ _ _ _ _ _ Hp) as [Hok Hty].
    exact (verified_typed p (root_ref root) Hok Hty Hv).
Qed.

(** ** The trees *)

Lemma apply_index idx root s x s' :
  ps_inv s → apply_ root (normalizeDomainChangeMap idx) s = (x, s') →
  grows s s' ∧ ∀ root' es, x = Ok root' → no_collision s' → holds s root es → index_keyed idx →
    ∃ es', holds s' root' es' ∧ entries_map es' = change_map (normalizeDomainChangeMap idx) (entries_map es).
Proof.
  intros Hi E. destruct (apply_spec s _ _ _ _ Hi E) as [Hg Hs]. split; [done|]. intros root' es -> Hn Hh Hk.
  destruct (Hs root' es eq_refl Hn Hh (normalize_NoDup _ Hk)) as (es' & Hh' & Hed). exists es'. split; [done|].
  apply edited_map; [apply (holds_sorted s _ _ Hi Hh)|apply (holds_sorted s' _ _ (proj1 Hg) Hh')|by apply normalize_NoDup|done].
Qed.

(** What the pruned index says of each outcome. *)
Definition pruned (o o' : change_index) : Prop :=
  ∀ id, o' !! id = o !! id ∨ o !! id = None ∧ ∃ c, o' !! id = Some c ∧ Change_Delete c = true.

Lemma selected_expired now id n p k xs e :
  e ∈ take n (select p k xs) → expired_entry now id e → ∃ x, x ∈ xs ∧ expired_entry now id x.
Proof.
  intros He [Hv Ht]. apply (subseteq_take n), list_elem_of_fmap in He as (x & -> & Hx).
  apply list_elem_of_filter in Hx as [_ Hx]. exists x. split; [done|]. split; [|done]. rewrite <-Hv. unfold clone_entry. cbn [Entry_Value]. by destruct (Entry_Value x) as [[]|].
Qed.

Lemma prune_trees outcomes expiry now o e s x s' :
  ps_inv s → index_keyed o → index_keyed e → pruneExpiredOutcomes reference outcomes expiry now o e s = (x, s') →
  grows s s' ∧ ∀ r1 r2, x = Ok (r1, r2) → ∃ o', index_keyed o' ∧ pruned o o' ∧
    (no_collision s' → ∀ os xs, holds s outcomes os → holds s expiry xs →
     ∃ os' xs', holds s' r1 os' ∧ holds s' r2 xs' ∧ entries_map os' = change_map (normalizeDomainChangeMap o') (entries_map os) ∧
       ∀ id, o' !! id = o !! id ∨ ∃ e, e ∈ xs ∧ expired_entry now id e).
Proof.
  intros Hi Ho He E. unfold pruneExpiredOutcomes in E. apply gom_bind_inv in E as (y & s1 & E1 & E).
  assert (grows s s1 ∧ ∀ p, y = Ok p → index_keyed (fst p) ∧ index_keyed (snd p) ∧ pruned o (fst p) ∧
    (no_collision s1 → ∀ xs, holds s expiry xs → ∀ id, fst p !! id = o !! id ∨ ∃ e, e ∈ xs ∧ expired_entry now id e)) as [Hg1 Hp].
  { case_bool_decide.
    - apply gom_bind_inv in E1 as (es & s2 & E2 & E1).
      assert (grows s s2) as Hg2 by exact (growing_collect _ _ _ _ _ _ _ Hi E2).
      destruct es as [es|err]; [|destruct E1 as [-> ->]; done]. apply lift_inv in E1 as [-> ->]. split; [done|].
      intros [o' e'] Ep. destruct (prune_spec _ _ _ _ _ _ Ep Ho He) as (? & ? & Hall). split; [done|]. split; [done|]. split.
      { intros id. destruct (Hall id) as [?|(? & _ & ?)]; [by left|by right]. }
      intros Hn xs Hx id. destruct (Hall id) as [?|(_ & (e0 & He0 & Hexp) & _)]; [by left|right].
      destruct (collect_ok s expiry xs [] [] domainPageMaximumItems Hi Hx (Nat.lt_0_succ _) _ _ E2) as [_ Ha].
      apply answered_Ok in Ha; [|done]. rewrite Ha in He0. exact (selected_expired _ _ _ _ _ _ _ He0 Hexp).
    - apply mret_inv in E1 as [-> ->]. split; [by apply grows_refl|]. intros p [= <-]. split; [done|]. split; [done|]. split; [by left|]. by left. }
  destruct y as [[o' e']|err]; [|destruct E as [-> ->]; done]. destruct (Hp _ eq_refl) as (Ho' & He' & Hpr & Hkept). cbn [fst snd] in *.
  apply gom_bind_inv in E as (r1 & s2 & E2 & E). destruct (apply_index _ _ _ _ _ (proj1 Hg1) E2) as [Hg2 Hs2].
  assert (grows s s2) as Hg12 by (by eapply grows_trans). destruct r1 as [r1|err]; [|by destruct E as [-> ->]].
  apply gom_bind_inv in E as (r2 & s3 & E3 & E). destruct (apply_index _ _ _ _ _ (proj1 Hg2) E3) as [Hg3 Hs3].
  assert (grows s s3) as Hg13 by (by eapply grows_trans). destruct r2 as [r2|err]; [|by destruct E as [-> ->]].
  apply mret_inv in E as [-> ->]. split; [done|]. intros ? ? [= <- <-]. exists o'. split; [done|]. split; [done|].
  intros Hn os xs Hos Hxs. destruct (Hs2 r1 os eq_refl) as (os' & Hos' & Hm).
  { by eapply no_collision_extends; [apply Hg3|]. } { by eapply holds_extends; [apply Hg1|]. } { done. }
  destruct (Hs3 r2 xs eq_refl Hn) as (xs' & Hxs' & _); [by eapply holds_extends; [apply Hg12|]|done|].
  exists os', xs'. split; [by eapply holds_extends; [apply Hg3|]|]. split; [done|]. split; [done|]. apply Hkept; [|done].
  eapply no_collision_extends; [apply Hg2|]. by eapply no_collision_extends; [apply Hg3|].
Qed.

(** The outcomes that remain were recorded before. *)
Lemma folded_outcomes now h l o e o' os os' id out :
  fold_window now (Head_Deltas h) ∅ ∅ ∅ = Ok (l, o, e) → pruned o o' → index_keyed o' → Forall delta_ok (Head_Deltas h) → head_typed h →
  entries_map os' = change_map (normalizeDomainChangeMap o') (entries_map os) →
  out ∈ entry_outcomes (entries_map os' !! id) → out ∈ recorded h os id.
Proof.
  intros Ef Hp Hk Hok (_ & _ & _ & _ & _ & _ & Hty) Hm. rewrite Hm, change_map_index by done.
  destruct (fold_window_spec _ _ _ _ _ _ _ _ Ef index_keyed_empty index_keyed_empty) as (_ & _ & _ & Hall). specialize (Hall id).
  unfold recorded. rewrite elem_of_app. destruct (Hp id) as [Heq|(_ & c & -> & Hd)].
  2:{ cbn. rewrite Hd. by intros ?%not_elem_of_nil. }
  rewrite Heq. destruct (newest_live now (Head_Deltas h) id) as [d|] eqn:En.
  - destruct Hall as (c & -> & Hst). unfold newest_live in En. apply last_Some_elem_of, list_elem_of_filter in En as [[Hid _] Hd].
    rewrite list.Forall_forall in Hok, Hty. cbn [changed_value]. destruct Hst as (? & Hdel & ?). rewrite Hdel.
    rewrite (stored_outcome c d (Hok d Hd) (Hty d Hd)) by (split; [done|]; done). intros ->%list_elem_of_singleton. left.
    apply list_elem_of_fmap_2, list_elem_of_filter. split; [done|]. by apply elem_of_reverse.
  - rewrite Hall, lookup_empty. cbn. by right.
Qed.

(** ** Replacing the head *)

Lemma compact_advances now h l o e o' r1 r2 r3 b es os xs es' os' xs' key snapshot body :
  head_key reference = Ok key → Head_Frozen h = false →
  fold_window now (Head_Deltas h) ∅ ∅ ∅ = Ok (l, o, e) → pruned o o' → index_keyed o' →
  head_wf b h es os xs → tree_holds b r1 es' → tree_holds b r2 os' → tree_holds b r3 xs' →
  root_typed r1 → root_typed r2 → root_typed r3 →
  entries_map es' = change_map (normalizeDomainChangeMap l) (entries_map es) →
  entries_map os' = change_map (normalizeDomainChangeMap o') (entries_map os) →
  encodeHead key snapshot (with_trees h (Head_Revision h) r1 r2 r3) = Ok body →
  head_wf b (with_trees h (Head_Revision h) r1 r2 r3) es' os' xs' ∧
  domain_step Compacted (Some (domain_of h es os)) (domain_of (with_trees h (Head_Revision h) r1 r2 r3) es' os').
Proof.
  intros Hk Hfr Ef Hp Ho' Hwf T1 T2 T3 R1 R2 R3 Me Mo Henc.
  destruct (fold_window_spec _ _ _ _ _ _ _ _ Ef index_keyed_empty index_keyed_empty) as (-> & _ & _ & _).
  pose proof Hwf as [W1 (U1 & U2 & U3 & _) W3 W4 _ _ _]. split.
  - split; [done| |constructor|done..]. do 3 (split; [done|]). do 3 (split; [done|]). constructor.
  - rewrite Hfr in W4. symmetry in W4. apply negb_false_iff, Z.eqb_eq in W4. constructor; try done.
    + cbn [values domain_of]. unfold contents at 1. unfold window_changes. cbn [Head_Deltas with_trees map concat change_map fold_left].
      rewrite Me. apply fold_contents.
    + intros id out. cbn [outcomes domain_of]. unfold recorded at 1. cbn [Head_Deltas with_trees]. cbn [reverse rev_append filter list_filter map app].
      by eapply folded_outcomes; [| | |apply Hwf|apply Hwf|].
Qed.

(** What the prepared trees hold, once the session ends without a collision. *)
Definition folded (snapshot : consistencyDomainHeadSnapshot) (r1 r2 r3 : DomainTreeRoot) (s s' : Session B) : Prop :=
  ∃ now l o e o', now ≤ latest (backend s') ∧ fold_window now (Head_Deltas (head snapshot)) ∅ ∅ ∅ = Ok (l, o, e) ∧ pruned o o' ∧ index_keyed o' ∧
    (no_collision s' → ∀ es os xs,
     holds s (Head_Base (head snapshot)) es → holds s (Head_Outcomes (head snapshot)) os → holds s (Head_OutcomeExpiry (head snapshot)) xs →
     ∃ es' os' xs', holds s' r1 es' ∧ holds s' r2 os' ∧ holds s' r3 xs' ∧
       entries_map es' = change_map (normalizeDomainChangeMap l) (entries_map es) ∧
       entries_map os' = change_map (normalizeDomainChangeMap o') (entries_map os) ∧
       ∀ id, o' !! id = o !! id ∨ ∃ x, x ∈ xs ∧ expired_entry now id x).

Lemma growing_step {A} (m : GoM (Session B) error A) s s1 y s2 : growing m → grows s s1 → m s1 = (y, s2) → grows s s2.
Proof. intros Hm Hg Em. eapply grows_trans; [exact Hg|]. eapply Hm; [apply Hg|exact Em]. Qed.

Lemma fold_trees_spec snapshot s x s' :
  ps_inv s → timely s → fold_trees reference snapshot s = (x, s') →
  grows s s' ∧ ∀ r1 r2 r3, x = Ok (r1, r2, r3) → folded snapshot r1 r2 r3 s s'.
Proof.
  intros Hi Hs0 E. unfold fold_trees in E.
  assert (growing (enablePackedWrites (B := B) (Envelope_LogicalVersion (envelope snapshot)))) as Hen by (by apply growing_modify).
  apply gom_bind_inv in E as (y & s1 & E1 & E). assert (G1 := growing_step _ _ _ _ _ Hen (grows_refl s Hi) E1).
  assert (timely s1) as Hs1 by (injection E1 as _ <-; exact Hs0).
  destruct y as [u|err]; [|by destruct E as [-> ->]].
  apply gom_bind_inv in E as (y & s2 & E2 & E). assert (G2 := growing_step _ _ _ _ _ (growing_bind_preparation _ _) G1 E2).
  pose proof (bind_timely _ _ _ _ _ Hs1 E2) as Hs2.
  destruct y as [u2|err]; [|by destruct E as [-> ->]].
  apply gom_bind_inv in E as (y & s3 & E3 & E). assert (G3 := growing_step _ _ _ _ _ (growing_check_preparation _) G2 E3). pose proof (check_time _ _ _ _ Hs2 E3) as Ht.
  destruct y as [[now until]|err]; [|by destruct E as [-> ->]].
  pure_step E. destruct (fold_window now _ ∅ ∅ ∅) as [[[l o] e]|err] eqn:Ef; [|by destruct E as [-> ->]].
  apply gom_bind_inv in E as (y & s4 & E4 & E). destruct (apply_index _ _ _ _ _ (proj1 G3) E4) as [G34 Hbase].
  assert (G4 := grows_trans _ _ _ G3 G34). destruct y as [r1|err]; [|by destruct E as [-> ->]].
  destruct (fold_window_spec _ _ _ _ _ _ _ _ Ef index_keyed_empty index_keyed_empty) as (El & Ho & He & _).
  apply gom_bind_inv in E as (y & s5 & E5 & E). destruct (prune_trees _ _ _ _ _ _ _ _ (proj1 G4) Ho He E5) as [G45 Hprune].
  assert (G5 := grows_trans _ _ _ G4 G45). destruct y as [[r2 r3]|err]; [|by destruct E as [-> ->]].
  apply mret_inv in E as [-> ->]. split; [done|]. intros ? ? ? [= <- <- <-].
  destruct (Hprune r2 r3 eq_refl) as (o' & Ho' & Hpr & Htrees). exists now, l, o, e, o'.
  split; [etrans; [by eapply Ht|]; apply latest_le; etrans; [apply G34|apply G45]|]. split; [done|]. split; [done|]. split; [done|].
  intros Hn es os xs Hes Hos Hxs.
  destruct (Hbase r1 es eq_refl) as (es' & Hes' & Me); [by eapply no_collision_extends; [apply G45|]|by eapply holds_extends; [apply G3|]|by subst l; apply index_changes_keyed, index_keyed_empty|].
  destruct (Htrees Hn os xs) as (os' & xs' & Hos' & Hxs' & Mo & Hkept); [by eapply holds_extends; [apply G4|]..|].
  exists es', os', xs'. split; [by eapply holds_extends; [apply G45|]|done].
Qed.

(** After the flush the head with the new trees may replace the old one. *)
Lemma folded_advances snapshot r1 r2 r3 b s s' key body :
  head_key reference = Ok key → Head_Frozen (head snapshot) = false → folded snapshot r1 r2 r3 (newSession b) s → grows s s' → flushed s' →
  encodeHead key snapshot (with_trees (head snapshot) (Head_Revision (head snapshot)) r1 r2 r3) = Ok body →
  blob_le b (backend s') → (collision_free b → ∃ es os xs, head_wf b (head snapshot) es os xs) →
  advances reference Compacted (backend s') (head snapshot) (with_trees (head snapshot) (Head_Revision (head snapshot)) r1 r2 r3).
Proof.
  intros Hk Hfr (now & l & o & e & o' & _ & Ef & Hpr & Ho' & Htrees) Hg Hfl Hb Hle Hwf Hc.
  assert (no_collision s') as Hn by exact (flushed_no_collision reference pageKey packKey _ Hfl Hc).
  destruct (Hwf (collision_free_le _ _ Hle Hc)) as (es & os & xs & W).
  destruct (Htrees (no_collision_extends _ _ (proj2 Hg) Hn) es os xs) as (es' & os' & xs' & T1 & T2 & T3 & Me & Mo & _);
    [exact (stored_holds reference pageKey packKey (newSession b) _ _ (wf_base _ _ _ _ _ _ W))
    |exact (stored_holds reference pageKey packKey (newSession b) _ _ (wf_outcomes _ _ _ _ _ _ W))
    |exact (stored_holds reference pageKey packKey (newSession b) _ _ (wf_expiry _ _ _ _ _ _ W))|].
  apply (holds_extends _ s' _ _ (proj2 Hg)) in T1, T2, T3.
  unfold encodeHead in Hb. pose proof Hb as Hb'. apply result_bind_Ok in Hb' as (u & [_ _ _ O1 O2 O3 _ _ _ _]%ValidateDomainHead_Ok & _).
  assert (W' := head_wf_after _ _ _ _ _ _ _ (after_le reference _ _ Hle) W).
  destruct (compact_advances now (head snapshot) l o e o' r1 r2 r3 (backend s') es os xs es' os' xs' key snapshot body) as [Hnew Hst]; try done.
  - exact (holds_stored reference pageKey packKey _ _ _ Hfl T1).
  - exact (holds_stored reference pageKey packKey _ _ _ Hfl T2).
  - exact (holds_stored reference pageKey packKey _ _ _ Hfl T3).
  - eapply holds_typed; [apply Hg|exact T1|done].
  - eapply holds_typed; [apply Hg|exact T2|done].
  - eapply holds_typed; [apply Hg|exact T3|done].
  - by exists es, os, xs, es', os', xs'.
Qed.

Lemma compactSnapshot_evolves snapshot b x b' :
  snapshot_ok reference b snapshot → compactSnapshot reference snapshot b = (x, b') →
  ∃ tr, evolves b tr b' ∧ (tr = [] ∨ tr = [Compacted]).
Proof.
  intros Hsn E. unfold compactSnapshot in E. pure_step E. destruct (Head_Frozen (head snapshot)) eqn:Efr; cbn [guard_err] in E.
  { destruct E as [_ ->]. exists []. split; [constructor|by left]. }
  destruct (exists_ snapshot) eqn:Eex; cbn [negb orb] in E.
  2:{ apply mret_inv in E as [_ ->]. exists []. split; [constructor|by left]. }
  destruct (bool_decide _ && bool_decide _).
  { apply mret_inv in E as [_ ->]. exists []. split; [constructor|by left]. }
  apply fresh_inv in E as (s & E & <-).
  assert (∀ s1, grows (newSession b) s1 → backend s = backend s1 → ∃ tr, evolves b tr (backend s) ∧ (tr = [] ∨ tr = [Compacted])) as Hquiet.
  { intros s1 [_ [Hle _]] ->. exists []. split; [by apply evolves_le|by left]. }
  apply gom_bind_inv in E as (y & s5 & E5 & E).
  destruct (fold_trees_spec _ _ _ _ (session_inv_new reference pageKey packKey b) ltac:(done) E5) as [G5 Hfold].
  destruct y as [[[r1 r2] r3]|err]; [|destruct E as [_ ->]; by eapply Hquiet]. specialize (Hfold r1 r2 r3 eq_refl).
  pure_step E. destruct (head_key reference) as [key|err] eqn:Ek; [|destruct E as [_ ->]; by eapply Hquiet].
  pure_step E. destruct (encodeHead key snapshot _) as [body|err] eqn:Eb; [|destruct E as [_ ->]; by eapply Hquiet].
  apply gom_bind_inv in E as (y & s6 & E6 & E). pose proof (growing_on_backend _ (quietly_step _) _ _ _ (proj1 G5) E6) as G56.
  assert (G6 := grows_trans _ _ _ G5 G56). destruct y as [u6|err]; [|destruct E as [_ ->]; by eapply Hquiet].
  apply gom_bind_inv in E as (y & s7 & E7 & E). pose proof (growing_flush _ _ _ (proj1 G6) E7) as G67. assert (G7 := grows_trans _ _ _ G6 G67).
  destruct (flush_spec reference pageKey packKey (pack_key_blob reference) _ _ _ (proj1 G6) E7) as (_ & _ & _ & Hfl).
  destruct y as [u7|err]; [|destruct E as [_ ->]; by eapply Hquiet]. specialize (Hfl u7 eq_refl).
  apply gom_bind_inv in E as (y & s8 & E8 & E). pose proof (growing_check_preparation _ _ _ _ (proj1 G7) E8) as G78. assert (G8 := grows_trans _ _ _ G7 G78).
  pose proof (check_flushed _ _ _ _ (proj1 G7) E8 Hfl) as Hfl8.
  destruct y as [u8|err]; [|destruct E as [_ ->]; by eapply Hquiet].
  apply gom_bind_inv in E as (y & s9 & E9%on_backend_inv & E).
  assert (backend s = backend s9) as -> by (destruct y; [by apply mret_inv in E as [_ ->]|by destruct E as [_ ->]]).
  assert (blob_le b (backend s8)) as Hle by apply G8.
  assert (snapshot_ok reference (backend s8) snapshot) as Hsn8 by (eapply snapshot_ok_after; [by apply after_le|done]).
  assert (collision_free b → ∃ es os xs, head_wf b (head snapshot) es os xs) as Hwf.
  { unfold snapshot_ok in Hsn. rewrite Eex in Hsn. by destruct Hsn as (_ & _ & _ & _ & ?). }
  assert (grows s5 s8) as G58 by (eapply grows_trans; [exact G56|by eapply grows_trans]).
  pose proof (folded_advances _ _ _ _ _ _ _ _ _ Ek Efr Hfold G58 Hfl8 Eb Hle Hwf) as Hadv.
  destruct (head_put reference Compacted snapshot key body _ _ _ _ Hsn8 Eex Ek Eb Hadv E9) as (tr & Hev & Htr & _).
  exists tr. split; [|done]. by eapply evolves_quiet.
Qed.
(** A compaction that succeeds found nothing to do, or folded the trees, stored
    them and replaced the head. *)
Lemma compactSnapshot_inv snapshot b u b' :
  exists_ snapshot = true → compactSnapshot reference snapshot b = (Ok u, b') →
  b' = b ∨ ∃ r1 r2 r3 s s' key body v, Head_Frozen (head snapshot) = false ∧
    fold_trees reference snapshot (newSession b) = (Ok (r1, r2, r3), s) ∧ grows s s' ∧ flushed s' ∧ blob_le b (backend s') ∧
    head_key reference = Ok key ∧ encodeHead key snapshot (with_trees (head snapshot) (Head_Revision (head snapshot)) r1 r2 r3) = Ok body ∧
    obj_put key body (put_match (Object_Version (object snapshot))) (backend s') = (Ok v, b').
Proof.
  intros Eex E. unfold compactSnapshot in E. pure_step E. destruct (Head_Frozen (head snapshot)) eqn:Efr; cbn [guard_err] in E; [by destruct E|].
  rewrite Eex in E. cbn [negb orb] in E. destruct (bool_decide _ && bool_decide _); [apply mret_inv in E as [_ ->]; by left|right].
  apply fresh_inv in E as (s9 & E & <-). apply gom_bind_inv in E as (y & s & E5 & E).
  destruct (fold_trees_spec _ _ _ _ (session_inv_new reference pageKey packKey b) ltac:(done) E5) as [G5 _].
  destruct y as [[[r1 r2] r3]|]; [|by destruct E]. pure_step E. destruct (head_key reference) as [key|] eqn:Ek; [|by destruct E].
  pure_step E. destruct (encodeHead key snapshot _) as [body|] eqn:Eb; [|by destruct E].
  apply gom_bind_inv in E as (y & s6 & E6 & E). pose proof (growing_on_backend _ (quietly_step _) _ _ _ (proj1 G5) E6) as G56.
  destruct y as [u6|]; [|by destruct E]. apply gom_bind_inv in E as (y & s7 & E7 & E). pose proof (growing_flush _ _ _ (proj1 G56) E7) as G67.
  destruct (flush_spec reference pageKey packKey (pack_key_blob reference) _ _ _ (proj1 G56) E7) as (_ & _ & _ & Hfl).
  destruct y as [u7|]; [|by destruct E]. specialize (Hfl u7 eq_refl). apply gom_bind_inv in E as (y & s8 & E8 & E).
  pose proof (growing_check_preparation _ _ _ _ (proj1 G67) E8) as G78. pose proof (check_flushed _ _ _ _ (proj1 G67) E8 Hfl) as Hfl8.
  destruct y as [u8|]; [|by destruct E]. apply gom_bind_inv in E as (y & s10 & E9%on_backend_inv & E).
  destruct y as [v|]; [|by destruct E]. apply mret_inv in E as [_ ->].
  assert (grows s s8) as G58 by (eapply grows_trans; [exact G56|by eapply grows_trans]). exists r1, r2, r3, s, s8, key, body, v.
  split; [done|]. split; [done|]. split; [done|]. split; [done|]. split; [|done]. exact (proj1 (proj2 (grows_trans _ _ _ G5 G58))).
Qed.

(** What the folded window and the pruned tree record of an ID. *)
Lemma folded_live now h l o e o' os os' (xs : list DomainEntry) id :
  fold_window now (Head_Deltas h) ∅ ∅ ∅ = Ok (l, o, e) → index_keyed o' → Forall delta_ok (Head_Deltas h) → head_typed h →
  entries_map os' = change_map (normalizeDomainChangeMap o') (entries_map os) →
  (o' !! id = o !! id ∨ ∃ x, x ∈ xs ∧ expired_entry now id x) →
  find_live now (entry_outcomes (entries_map os' !! id)) = find_live now (recorded h os id) ∨ ∃ x, x ∈ xs ∧ expired_entry now id x.
Proof.
  intros Ef Ho' Hok (_ & _ & _ & _ & _ & _ & Hty) Hm [Hp|?]; [left|by right].
  destruct (fold_window_spec _ _ _ _ _ _ _ _ Ef index_keyed_empty index_keyed_empty) as (_ & _ & _ & Hall). specialize (Hall id).
  rewrite Hm, change_map_index, Hp by done. unfold recorded. rewrite find_live_window. destruct (newest_live now (Head_Deltas h) id) as [d|] eqn:En.
  - destruct Hall as (c & -> & Hst). cbn [changed_value].
    apply last_Some_elem_of, list_elem_of_filter in En as [[_ Hlive] Hd]. rewrite list.Forall_forall in Hok, Hty.
    pose proof Hst as (_ & Hdel & _). rewrite Hdel, (stored_outcome c d) by auto. unfold find_live. cbn. by rewrite decide_True.
  - by rewrite Hall, lookup_empty.
Qed.
(** The head a compaction stores: well formed, and with the live outcomes. *)
Lemma folded_compaction snapshot b r1 r2 r3 s s' key body es os xs :
  head_key reference = Ok key → Head_Frozen (head snapshot) = false →
  fold_trees reference snapshot (newSession b) = (Ok (r1, r2, r3), s) → grows s s' → flushed s' →
  encodeHead key snapshot (with_trees (head snapshot) (Head_Revision (head snapshot)) r1 r2 r3) = Ok body →
  blob_le b (backend s') → collision_free (backend s') → head_wf b (head snapshot) es os xs →
  ∃ now es' os' xs', now ≤ latest (backend s') ∧
    head_wf (backend s') (with_trees (head snapshot) (Head_Revision (head snapshot)) r1 r2 r3) es' os' xs' ∧
    ∀ id, find_live now (recorded (with_trees (head snapshot) (Head_Revision (head snapshot)) r1 r2 r3) os' id) =
          find_live now (recorded (head snapshot) os id) ∨ ∃ x, x ∈ xs ∧ expired_entry now id x.
Proof.
  intros Hk Hfr E Hg Hfl Hb Hle Hc W. assert (no_collision s') as Hn by exact (flushed_no_collision reference pageKey packKey _ Hfl Hc).
  destruct (fold_trees_spec _ _ _ _ (session_inv_new reference pageKey packKey b) ltac:(done) E) as [_ Hf].
  destruct (Hf _ _ _ eq_refl) as (now & l & o & e & o' & Hnow & Ef & Hpr & Ho' & Htrees).
  destruct (Htrees (no_collision_extends _ _ (proj2 Hg) Hn) es os xs) as (es' & os' & xs' & T1 & T2 & T3 & Me & Mo & Hkept);
    [exact (stored_holds reference pageKey packKey (newSession b) _ _ (wf_base _ _ _ _ _ _ W))
    |exact (stored_holds reference pageKey packKey (newSession b) _ _ (wf_outcomes _ _ _ _ _ _ W))
    |exact (stored_holds reference pageKey packKey (newSession b) _ _ (wf_expiry _ _ _ _ _ _ W))|].
  apply (holds_extends _ s' _ _ (proj2 Hg)) in T1, T2, T3.
  unfold encodeHead in Hb. pose proof Hb as Hb'. apply result_bind_Ok in Hb' as (u & [_ _ _ O1 O2 O3 _ _ _ _]%ValidateDomainHead_Ok & _).
  assert (W' := head_wf_after _ _ _ _ _ _ _ (after_le reference _ _ Hle) W). exists now, es', os', xs'.
  split; [etrans; [exact Hnow|]; apply latest_le, Hg|]. split.
  - eapply (compact_advances now (head snapshot) l o e o' r1 r2 r3 (backend s') es os xs es' os' xs' key snapshot body); try done.
    + exact (holds_stored reference pageKey packKey _ _ _ Hfl T1).
    + exact (holds_stored reference pageKey packKey _ _ _ Hfl T2).
    + exact (holds_stored reference pageKey packKey _ _ _ Hfl T3).
    + eapply holds_typed; [apply Hg|exact T1|done].
    + eapply holds_typed; [apply Hg|exact T2|done].
    + eapply holds_typed; [apply Hg|exact T3|done].
  - intros id. unfold recorded at 1. cbn [Head_Deltas with_trees]. cbn [reverse rev_append filter list_filter map app].
    eapply folded_live; [exact Ef|done|apply W|apply W|exact Mo|apply Hkept].
Qed.
End Store.
End StoreCompact.
