(* ===== verification/StoreMutate.v ===== *)
(** * The operations that change a domain

    Mutation, registration, freezing and unfreezing perform steps of the
    abstract domain, whatever other processes do between their calls. *)

From Stdlib Require Import ZArith Lia.
From S2P Require Import Prelude GoLib GoHash GoJSON GoTime Errors ObjectStore ObjectTheory DomainPage DomainPageTheory DomainTree TreeTheory TreeRead TreeEdit DomainPack DomainHead DomainSession TreeStream DomainProvider DomainCatalog DomainStore HeadTheory SessionLaws PackTheory SessionReader StoreLaws StoreRead StoreSpec StoreCommit StoreCatalog StoreFold StoreCompact.

Open Scope Z_scope.

Module StoreMutate.
Import ObjectStore StorageFormat PageTheory DomainTree TreeTheory TreeRead TreeEdit DomainPack DomainHead HeadTheory DomainSession DomainProvider DomainCatalog DomainStore SessionLaws PackTheory SessionReader StoreLaws StoreRead StoreSpec StoreCommit StoreCatalog StoreFold StoreCompact.

(** ** Normal forms *)

Section Normal.
Context `{SHA256}.

(** What the loop over the sorted changes accepts. *)
Lemma check_intent_Ok previous cs err u :
  check_intent previous cs err = Ok u → StronglySorted bytes_le (map Key cs) →
  (∀ c, c ∈ cs → bytes_le previous (Key c)) →
  StronglySorted bytes_lt (map Key cs) ∧
  Forall (λ c, domainValueAny ≤ Require c ≤ domainValuePresent ∧ (Require c ≠ domainValuePresent → ExpectedVersion c = []) ∧
               (Delete c = true → bytes_len (Value c) = 0) ∧ bytes_lt previous (Key c)) cs.
Proof.
  revert previous. induction cs as [|c cs IH]; intros previous E Hs Hp; cbn [check_intent] in E; [split; constructor|].
  apply result_bind_Ok in E as ([] & Hg & E). destruct (_ || _) eqn:Eg; [done|].
  rewrite !orb_false_iff, !andb_false_iff, !negb_false_iff, !Z.ltb_ge, !bool_decide_eq_false, !Z.eqb_eq in Eg.
  destruct Eg as [[[[[Hne Hpr] H1] H2] H3] H4]. cbn in Hs. inversion Hs as [|? ? Hs' Hall]; subst. rewrite Forall_map, list.Forall_forall in Hall.
  destruct (IH (Key c) E Hs' Hall) as [Hsort Hok].
  assert (bytes_lt previous (Key c)) as Hlt.
  { assert (bytes_le previous (Key c)) as [?|Heq]%bytes_le_lt_eq by (apply Hp; by left); [done|]. by destruct Hpr. }
  split.
  - cbn. constructor; [done|]. apply Forall_map. eapply list.Forall_impl; [exact Hok|]. by intros c' (_ & _ & _ & ?).
  - constructor.
    + split; [lia|]. split; [|split; [|done]].
      * intros Hr. destruct H3 as [?|Hv]; [done|]. by apply dec_stable in Hv.
      * intros Hd. destruct H4 as [?|?]; [congruence|done].
    + eapply list.Forall_impl; [exact Hok|]. intros c' (? & ? & ? & ?). split; [done|]. split; [done|]. split; [done|]. by trans (Key c).
Qed.

Lemma sorted_changes_le cs : StronglySorted bytes_le (map Key (merge_sort domain_change_le cs)).
Proof.
  assert (Total domain_change_le) by (intros a b; apply (total bytes_le)).
  assert (Transitive domain_change_le) by (intros a b c; unfold domain_change_le; apply (transitivity (R := bytes_le))).
  pose proof (StronglySorted_merge_sort domain_change_le cs) as Hs. induction Hs as [|c l _ IH Hall]; constructor; [done|]. by apply Forall_map.
Qed.

Lemma normalize_Ok m m' f :
  normalizeConsistencyDomainMutation m = Ok (m', f) →
  m' = with_changes m (merge_sort domain_change_le (Changes m)) ∧
  StronglySorted bytes_lt (map Key (Changes m')) ∧
  Forall (λ c, Key c ≠ [] ∧ domainValueAny ≤ Require c ≤ domainValuePresent ∧ (Require c ≠ domainValuePresent → ExpectedVersion c = []) ∧
               (Delete c = true → bytes_len (Value c) = 0)) (Changes m').
Proof.
  unfold normalizeConsistencyDomainMutation. intros E. apply result_bind_Ok in E as ([] & _ & E). apply result_bind_Ok in E as ([] & Hc & E).
  apply result_bind_Ok in E as (body & _ & E). apply result_bind_Ok in E as (body' & _ & E). injection E as <- <-.
  destruct (check_intent_Ok _ _ _ _ Hc (sorted_changes_le _)) as [Hs Hok]; [by intros; apply bytes_nil_le|].
  split; [done|]. split; [done|]. eapply list.Forall_impl; [exact Hok|]. intros c (? & ? & ? & Hlt). split; [|done].
  intros E. rewrite E in Hlt. by apply irreflexivity in Hlt; [|apply _].
Qed.
End Normal.

Section Store.
Context `{SHA256} `{!SHA256Laws} `{GZIP} `{!GZIPLaws} {B : Type} `{!Provider B, !ProviderView B, !ProviderLaws B}.
Variable reference : consistencyDomainRef.

Abbreviation pageKey := (session_pageKey reference).
Abbreviation packKey := (session_packKey reference).
Abbreviation tree_holds := (tree_holds reference pageKey packKey).
Abbreviation head_wf := (head_wf reference).
Abbreviation world_ok := (world_ok (B := B) reference).
Abbreviation evolves := (evolves (B := B) reference).
Abbreviation snapshot_ok := (snapshot_ok (B := B) reference).
Abbreviation after := (after (B := B) reference).

Hypothesis rivals : ∀ b b' : B, blob_le b b' → world_ok b → world_ok b'.

Lemma world_le b b' : blob_le b b' → world_ok b → world_ok b'.
Proof. apply rivals. Qed.

Lemma world_run b tr b' : evolves b tr b' → world_ok b → world_ok b'.
Proof. by apply world_evolves. Qed.

Lemma snapshot_run b tr b' snapshot : evolves b tr b' → snapshot_ok b snapshot → snapshot_ok b' snapshot.
Proof. intros Hev. apply snapshot_ok_after. by eapply evolves_after. Qed.

Lemma snapshot_le b b' snapshot : blob_le b b' → snapshot_ok b snapshot → snapshot_ok b' snapshot.
Proof. intros Hle. apply snapshot_ok_after. by apply after_le. Qed.

(** ** Repeated mutations *)

(** [h] is or was the head of the domain. *)
Definition was_head (b : B) (h : DomainHead) : Prop :=
  ∃ key v body env, head_key reference = Ok key ∧ history b !! (key_value key, v) = Some body ∧
    DecodeEnvelope body key domainHeadSchema = Ok (env, h).

(** [o] repeats an outcome that a head of the domain records. *)
Definition replays (b : B) (m : consistencyDomainMutation) (f : gostring) (o : consistencyDomainOutcome) : Prop :=
  Replayed o = true ∧ (collision_free b → ∃ h es os xs, was_head b h ∧ head_wf b h es os xs ∧ answered_by h os m f o).

Lemma replays_after b b' m f o : after b b' → replays b m f o → replays b' m f o.
Proof.
  intros Ha [Hr Hx]. split; [done|]. intros Hc. destruct (Hx (af_free _ _ _ Ha Hc)) as (h & es & os & xs & (key & v & body & env & Hk & Hh & Hd) & Hwf & Ho).
  exists h, es, os, xs. split; [|split; [by eapply head_wf_after|done]]. exists key, v, body, env. split; [done|].
  split; [|done]. by eapply lookup_weaken; [|apply Ha].
Qed.

(** An outcome found at a snapshot. *)
Lemma found_replays b b' snapshot m f o :
  snapshot_ok b snapshot → blob_le b b' → Replayed o = true →
  (collision_free b' → ∀ os, tree_holds b (Head_Outcomes (head snapshot)) os → answered_by (head snapshot) os m f o) → replays b' m f o.
Proof.
  intros Hsn Hle Hr Hx. split; [done|]. intros Hc. pose proof (snapshot_le _ _ _ Hle Hsn) as Hsn'. unfold StoreCommit.snapshot_ok in *.
  destruct (exists_ snapshot).
  - destruct Hsn as (key & Hk & Hh & Hd & Hwf). destruct (Hwf (collision_free_le _ _ Hle Hc)) as (es & os & xs & W).
    exists (head snapshot), es, os, xs. split.
    { destruct Hsn' as (key' & Hk' & Hh' & Hd' & _). by exists key', (Object_Version (object snapshot)), (Object_Body (object snapshot)), (envelope snapshot). }
    split; [by eapply head_wf_after; [apply after_le|]|]. apply Hx; [done|apply W].
  - subst snapshot. destruct (Hx Hc []) as (o' & Ho' & _); [by left|]. by apply not_elem_of_nil in Ho'.
Qed.

Lemma recover_ok m f snapshot putErr b x b' :
  world_ok b → recover reference m f snapshot putErr b = (x, b') →
  blob_le b b' ∧ (∀ o, x = Ok (inl o) → replays b' m f o) ∧ ∀ sn, x = Ok (inr sn) → snapshot_ok b' sn.
Proof.
  intros Hw E. unfold recover in E. apply gom_bind_inv in E as (y & b1 & E1 & E). unfold attempt in E1.
  destruct (loadHead reference b) as [l b2] eqn:El. injection E1 as <- <-. destruct (load_ok reference rivals _ _ _ Hw El) as [Hle Hsn].
  destruct l as [sn|e]; [|injection E as <- <-; by split]. specialize (Hsn sn eq_refl).
  apply gom_bind_inv in E as (y & b3 & (s & E3 & <-)%fresh_inv & E). destruct (outcome_sound reference _ [] _ _ _ _ E3) as [Hle3 _].
  assert (blob_le b (backend s)) as Hle' by (by etrans).
  destruct y as [[o|]|e]; [| |destruct E as [-> ->]; by split].
  { pure_step E. destruct (replay f o) as [o'|e] eqn:Er; [|destruct E as [-> ->]; by split]. apply mret_inv in E as [-> ->].
    split; [done|]. split; [|done]. intros ? [= <-]. destruct (replay_Ok _ _ _ Er) as (Hf & Hrep & _ & _ & Hrev & Ha).
    eapply found_replays; [exact Hsn|exact Hle3|done|]. intros Hc os Hh.
    destruct (proj2 (outcome_sound reference _ os _ _ _ _ E3) Hc Hh) as [_ Hs]. destruct (Hs o eq_refl) as (o0 & Ho0 & ->). by exists o0. }
  apply gom_bind_inv in E as (y & b4 & (s4 & E4%unowned_inv & <-)%fresh_inv & E). pose proof (quietly_validate _ _ _ _ _ _ E4) as Hle4. cbn in Hle4.
  destruct y as [u|e]; [|destruct E as [-> ->]; split; [by etrans|done]].
  destruct (_ && _ && _); [|injection E as <- <-; split; [by etrans|done]].
  apply mret_inv in E as [-> ->]. split; [by etrans|]. split; [done|]. intros ? [= <-]. apply (snapshot_le (backend s)); [done|].
  exact (snapshot_le _ _ _ Hle3 Hsn).
Qed.

(** ** Registration *)

Definition housekeeping (e : event) : Prop := match e with Created | Registered | Compacted => True | _ => False end.

Lemma initial_typed registered : head_typed (initial_head reference registered).
Proof. unfold head_typed, u64_ok, MaxUint64. cbn. pose proof no_root_typed. do 3 (split; [lia|]). by repeat split. Qed.

Lemma initial_wf b registered : head_wf b (initial_head reference registered) [] [] [].
Proof.
  split; try (by left); [|apply initial_typed|done]. unfold misbound. cbn.
  by rewrite !bool_decide_eq_false_2 by (intros Hn; by apply Hn).
Qed.

Lemma initial_text key :
  head_key reference = Ok key → ValidateInitialDomainHead (initial_head reference false) = Ok tt → head_text (initial_head reference false).
Proof.
  intros Hk%head_key_text E. unfold ValidateInitialDomainHead in E. inv_go. rewrite !orb_false_iff, !negb_false_iff in *. destruct_and!.
  split; [cbn; unfold MaxInt64; lia|]. split; [by apply valid_text|]. split; [by apply kind_text|].
  destruct (initial_typed false) as (T1 & T2 & T3 & T4 & T5 & T6 & _). split_and!; try done.
Qed.

(** A run whose events satisfy [P]. *)
Definition keeps (P : event → Prop) (b b' : B) : Prop := ∃ tr, evolves b tr b' ∧ Forall P tr.

Lemma keeps_le P b b' : blob_le b b' → keeps P b b'.
Proof. intros Hle. exists []. split; [by apply evolves_le|constructor]. Qed.

Lemma keeps_happens P b b' : keeps P b b' → collision_free b' → ∃ tr, happens reference b tr b' ∧ Forall P tr.
Proof. intros (tr & Hev & HP) Hc. exists tr. split; [by apply evolves_happens|done]. Qed.

Lemma keeps_refl P b : keeps P b b.
Proof. apply keeps_le. reflexivity. Qed.

Lemma keeps_trans P b b1 b2 : keeps P b b1 → keeps P b1 b2 → keeps P b b2.
Proof. intros (tr & Hev & HP) (tr' & Hev' & HP'). exists (tr ++ tr'). split; [by eapply evolves_trans|by apply Forall_app]. Qed.

Lemma keeps_mono (P Q : event → Prop) b b' : (∀ e, P e → Q e) → keeps P b b' → keeps Q b b'.
Proof. intros HPQ (tr & Hev & HP). exists tr. split; [done|]. by eapply list.Forall_impl. Qed.

Lemma keeps_after P b b' : keeps P b b' → after b b'.
Proof. intros (tr & Hev & _). by eapply evolves_after. Qed.

Lemma keeps_world P b b' : keeps P b b' → world_ok b → world_ok b'.
Proof. intros (tr & Hev & _). by eapply world_run. Qed.

Lemma keeps_snapshot P b b' snapshot : keeps P b b' → snapshot_ok b snapshot → snapshot_ok b' snapshot.
Proof. intros (tr & Hev & _). by eapply snapshot_run. Qed.

(** One conditional write of a head that was seen. *)
Lemma put_keeps (P : event → Prop) e snapshot key body new b x b' :
  P e → snapshot_ok b snapshot → exists_ snapshot = true → head_key reference = Ok key → encodeHead key snapshot new = Ok body →
  advances reference e b (head snapshot) new →
  obj_put key body (put_match (Object_Version (object snapshot))) b = (x, b') →
  keeps P b b' ∧ ∀ v, x = Ok v → evolves b [e] b'.
Proof.
  intros He Hsn Hex Hk Hb Hadv E. destruct (head_put reference e _ _ _ _ _ _ _ Hsn Hex Hk Hb Hadv E) as (tr & Hev & Htr & Hok). split.
  - exists tr. split; [done|]. destruct Htr as [->| ->]; [constructor|by constructor].
  - intros v Hv. by rewrite <-(Hok v Hv).
Qed.

Lemma create_put key body b x b' :
  head_key reference = Ok key → ValidateInitialDomainHead (initial_head reference false) = Ok tt →
  EncodeEnvelope domainHeadSchema key 1 (initial_head reference false) = Ok body → obj_put key body create_only b = (x, b') →
  keeps housekeeping b b' ∧ ∀ v, x = Ok v → history b' !! (key_value key, v) = Some body.
Proof.
  intros Hk Hv Henc E. destruct (put_sound _ _ _ _ _ _ (head_key_mutable _ _ Hk) E) as (b1 & Hle & Hput).
  destruct Hput as [[Hx ->]|(v & Hal & Hres & Hheads & Hcont & Hhist & Hlat & Hof)].
  { split; [by apply keeps_le|]. intros v ->. by destruct (Hx v). }
  destruct Hal as [[_ Hnone]|(v1 & body1 & [=] & _)].
  assert (heads b' !! key_value key = Some (body, v)) as Hnew by (by rewrite Hheads, lookup_insert_eq).
  split; [|by intros v' ->; rewrite (Hres v' eq_refl); apply heads_history]. exists [Created]. split; [|by constructor].
  eapply evolves_quiet; [exact Hle|].
  eapply evolves_event; [exact Hk|split; [intros k' Hne; by rewrite Hheads, lookup_insert_ne|done..]| |constructor]. intros Hc.
  assert (DecodeEnvelope body key domainHeadSchema = Ok (envelope_of domainHeadSchema key 1 (initial_head reference false), initial_head reference false)) as Hdec.
  { apply DecodeEnvelope_encoded; [by eapply initial_text|done|unfold u64_ok, MaxUint64; lia|done]. }
  exists None, (domain_of (initial_head reference false) [] []). split; [by exists key|]. split; [|split; [by constructor|done]].
  exists (initial_head reference false), [], [], []. split; [|split; [apply initial_wf|done]]. by exists key, body, v, (envelope_of domainHeadSchema key 1 (initial_head reference false)).
Qed.

Variable fuel : nat.

Lemma register_keeps P r b x b' : register fuel r b = (x, b') → keeps P b b'.
Proof. intros E. exists []. split; [by eapply (passes_register reference)|constructor]. Qed.

Lemma prepare_ok n supplied b x b' :
  world_ok b → (∀ sn, supplied = Some sn → snapshot_ok b sn) → prepare_loop reference fuel n supplied b = (x, b') →
  keeps housekeeping b b' ∧ ∀ sn, x = Ok sn → snapshot_ok b' sn ∧ exists_ sn = true.
Proof.
  revert supplied b. induction n as [|n IH]; intros supplied b Hw Hsup E; cbn [prepare_loop] in E.
  { injection E as <- <-. split; [apply keeps_refl|done]. }
  apply gom_bind_inv in E as (y & b1 & E1 & E).
  assert (blob_le b b1 ∧ ∀ sn, y = Ok sn → snapshot_ok b1 sn) as [Hle Hsn].
  { destruct supplied as [sn|]; [|by eapply load_ok]. apply mret_inv in E1 as [-> ->]. split; [reflexivity|]. intros ? [= <-]. by apply Hsup. }
  assert (keeps housekeeping b b1) as K1 by (by apply keeps_le).
  destruct y as [sn|e]; [|by destruct E as [-> ->]]. specialize (Hsn sn eq_refl).
  destruct (exists_ sn) eqn:Eex; cbn [andb] in E.
  - destruct (Head_Registered (head sn)).
    { apply mret_inv in E as [-> ->]. split; [done|]. by intros ? [= <-]. }
    apply gom_bind_inv in E as (y & b2 & E2%(register_keeps housekeeping) & E). assert (K2 := keeps_trans _ _ _ _ K1 E2).
    destruct y as [u|e]; [|by destruct E as [-> ->]]. apply mret_inv in E as [-> ->]. split; [done|]. intros ? [= <-].
    split; [exact (keeps_snapshot _ _ _ _ E2 Hsn)|done].
  - pure_step E. destruct (ValidateInitialDomainHead _) as [[]|e] eqn:Ev; [|by destruct E as [-> ->]].
    pure_step E. destruct (head_key reference) as [key|e] eqn:Ek; [|by destruct E as [-> ->]].
    pure_step E. destruct (EncodeEnvelope _ _ _ _) as [body|e] eqn:Eb; [|by destruct E as [-> ->]].
    apply gom_bind_inv in E as (y & b2 & E2 & E). unfold attempt in E2. destruct (obj_put key body create_only b1) as [w b3] eqn:Ep. injection E2 as <- <-.
    destruct (create_put _ _ _ _ _ Ek Ev Eb Ep) as [K2 Hhist]. assert (K3 := keeps_trans _ _ _ _ K1 K2).
    destruct w as [version|e].
    + pure_step E. assert (DecodeEnvelope body key domainHeadSchema = Ok (envelope_of domainHeadSchema key 1 (initial_head reference false), initial_head reference false)) as Hdec.
      { apply DecodeEnvelope_encoded; [by eapply initial_text|done|unfold u64_ok, MaxUint64; lia|done]. }
      rewrite Hdec in E. apply gom_bind_inv in E as (y & b4 & E4%(register_keeps housekeeping) & E). assert (K4 := keeps_trans _ _ _ _ K3 E4).
      destruct y as [u|e]; [|by destruct E as [-> ->]]. apply mret_inv in E as [-> ->]. split; [done|]. intros ? [= <-]. split; [|done].
      eapply keeps_snapshot; [exact E4|]. exists key. split; [done|]. split; [by apply Hhist|]. split; [done|]. intros _. do 3 eexists. apply initial_wf.
    + destruct (errors_Is e ErrConflict); [|injection E as <- <-; by split].
      destruct (IH None b3) with (3 := E) as [K4 Hres]; [by eapply keeps_world|done|]. split; [by eapply keeps_trans|done].
Qed.

(** A seen head that is replaced by one with the same trees and window. *)
Lemma same_advances e snapshot b new :
  snapshot_ok b snapshot → exists_ snapshot = true →
  (∀ es os xs, head_wf b (head snapshot) es os xs →
     head_wf b new es os xs ∧ domain_step e (Some (domain_of (head snapshot) es os)) (domain_of new es os)) →
  (∀ m f r t, e ≠ Committed m f r t) → advances reference e b (head snapshot) new.
Proof.
  intros Hsn Hex Hnew He Hc. unfold StoreCommit.snapshot_ok in Hsn. rewrite Hex in Hsn. destruct Hsn as (_ & _ & _ & _ & Hwf).
  destruct (Hwf Hc) as (es & os & xs & W). destruct (Hnew _ _ _ W) as [W' Hst]. exists es, os, xs, es, os, xs.
  split; [done|]. split; [done|]. split; [done|]. destruct e; try done. by destruct (He mutation fingerprint at_revision at_time).
Qed.

Lemma register_advances snapshot b :
  snapshot_ok b snapshot → exists_ snapshot = true → Head_Registered (head snapshot) = false →
  advances reference Registered b (head snapshot) (with_registered (head snapshot)).
Proof.
  intros Hsn Hex Hr. apply same_advances; try done. intros es os xs [W1 W2 W3 W4 W5 W6 W7]. split; [by split|]. by constructor.
Qed.

Lemma ensure_ok n initial b x b' :
  world_ok b → (∀ sn, initial = Some sn → snapshot_ok b sn) → ensure_loop reference fuel n initial b = (x, b') →
  keeps housekeeping b b'.
Proof.
  revert initial b. induction n as [|n IH]; intros initial b Hw Hini E; cbn [ensure_loop] in E.
  { injection E as _ <-. apply keeps_refl. }
  apply gom_bind_inv in E as (y & b1 & E1 & E). destruct (prepare_ok _ _ _ _ _ Hw Hini E1) as [K1 Hsn].
  destruct y as [sn|e]; [|by destruct E as [_ ->]]. destruct (Hsn sn eq_refl) as [Hok Hex].
  destruct (Head_Registered (head sn)) eqn:Er; [by apply mret_inv in E as [_ ->]|].
  pure_step E. destruct (head_key reference) as [key|e] eqn:Ek; [|by destruct E as [_ ->]].
  pure_step E. destruct (encodeHead key sn _) as [body|e] eqn:Eb; [|by destruct E as [_ ->]].
  apply gom_bind_inv in E as (y & b2 & E2 & E). unfold attempt in E2. destruct (obj_put key body _ b1) as [w b3] eqn:Ep. injection E2 as <- <-.
  destruct (put_keeps housekeeping Registered _ _ _ _ _ _ _ I Hok Hex Ek Eb (register_advances _ _ Hok Hex Er) Ep) as [K2 _].
  assert (K3 := keeps_trans _ _ _ _ K1 K2). destruct w as [v|e]; [by apply mret_inv in E as [_ ->]|].
  destruct (lost_race e); [|by injection E as _ <-]. eapply keeps_trans; [exact K3|]. apply (IH None b3); [by eapply keeps_world|done|done].
Qed.

Lemma compactSnapshot_keeps snapshot b x b' : snapshot_ok b snapshot → compactSnapshot reference snapshot b = (x, b') → keeps housekeeping b b'.
Proof.
  intros Hsn E. destruct (compactSnapshot_evolves _ _ _ _ _ Hsn E) as (tr & Hev & Htr). exists tr. split; [done|].
  destruct Htr as [->| ->]; [constructor|by constructor].
Qed.

Lemma compact_keeps b x b' : world_ok b → compact reference b = (x, b') → keeps housekeeping b b'.
Proof.
  intros Hw E. unfold compact in E. apply gom_bind_inv in E as (y & b1 & E1 & E). destruct (load_ok reference rivals _ _ _ Hw E1) as [Hle Hsn].
  destruct y as [sn|e]; [|destruct E as [_ ->]; by apply keeps_le]. eapply keeps_trans; [by apply keeps_le|].
  by eapply compactSnapshot_keeps; [apply Hsn|].
Qed.

(** ** Mutation *)

Definition performs (m : consistencyDomainMutation) (f : gostring) (e : event) : Prop :=
  housekeeping e ∨ ∃ r t, e = Committed m f r t.

Lemma housekeeping_performs m f b b' : keeps housekeeping b b' → keeps (performs m f) b b'.
Proof. apply keeps_mono. by left. Qed.

(** The result of a mutation: a recorded outcome, or a commit that was the last
    thing this process did to the head. *)
Definition concludes (m : consistencyDomainMutation) (f : gostring) (b b' : B) (o : consistencyDomainOutcome) : Prop :=
  replays b' m f o ∨ ∃ b1 r t, keeps (performs m f) b b1 ∧ evolves b1 [Committed m f r t] b' ∧ o = committed m f r.

Lemma concludes_keeps m f b b1 b' o : keeps (performs m f) b b1 → concludes m f b1 b' o → concludes m f b b' o.
Proof. intros K [?|(b2 & r & t & K' & ? & ?)]; [by left|right]. exists b2, r, t. split; [by eapply keeps_trans|done]. Qed.

Lemma commit_head_spec m f t snapshot key body b x b' :
  snapshot_ok b snapshot → exists_ snapshot = true → head_key reference = Ok key → t ≤ latest b →
  (collision_free b → ∃ es os xs, head_wf b (head snapshot) es os xs ∧ admissible (head snapshot) es os m t) →
  encodeHead key snapshot (with_delta (head snapshot) (mutation_delta m f (u64 (Head_Revision (head snapshot) + 1)))) = Ok body →
  commit_head key body snapshot b = (x, b') →
  keeps (performs m f) b b' ∧ ∀ u, x = Ok u → evolves b [Committed m f (u64 (Head_Revision (head snapshot) + 1)) t] b'.
Proof.
  intros Hsn Hex Hk Ht Had Hb E. unfold commit_head in E. rewrite Hex in E. apply gom_bind_inv in E as (y & b1 & E1 & E).
  pose proof (commit_advances reference _ _ _ _ _ _ _ _ Hk Ht Hb Had) as Hadv.
  destruct (put_keeps (performs m f) _ _ _ _ _ _ _ _ (ltac:(right; eauto)) Hsn Hex Hk Hb Hadv E1) as [K Hev].
  destruct y as [v|e]; [|destruct E as [-> ->]; by split]. pose proof (step_sound _ _ _ _ E) as Hle. split.
  - eapply keeps_trans; [exact K|by apply keeps_le].
  - intros u ->. apply (evolves_trans _ _ [_] b1 []); [by eapply Hev|by apply evolves_le].
Qed.

(** Only a head that exists can be extended. *)
Lemma encode_exists key snapshot b delta body :
  snapshot_ok b snapshot → encodeHead key snapshot (with_delta (head snapshot) delta) = Ok body → exists_ snapshot = true.
Proof.
  intros Hsn E. unfold StoreCommit.snapshot_ok in Hsn. destruct (exists_ snapshot) eqn:Eex; [done|]. subst snapshot.
  unfold encodeHead in E. apply result_bind_Ok in E as (u & Hv%ValidateDomainHead_Ok & _). pose proof (hd_schema _ Hv) as Hs. discriminate Hs.
Qed.

(** The commit of a mutation that was admitted at a snapshot. *)
Lemma commit_admitted m f snapshot key body b1 b2 b3 x b' :
  snapshot_ok b1 snapshot → blob_le b1 b2 → blob_le b2 b3 → head_key reference = Ok key →
  (collision_free b2 → ∀ es os xs, head_wf b1 (head snapshot) es os xs → admissible (head snapshot) es os m (latest b2)) →
  encodeHead key snapshot (with_delta (head snapshot) (mutation_delta m f (u64 (Head_Revision (head snapshot) + 1)))) = Ok body →
  commit_head key body snapshot b3 = (x, b') →
  keeps (performs m f) b3 b' ∧
  ∀ u, x = Ok u → evolves b3 [Committed m f (u64 (Head_Revision (head snapshot) + 1)) (latest b2)] b'.
Proof.
  intros Hsn Hle2 Hle3 Hk Hadm Hb E. pose proof (encode_exists _ _ _ _ _ Hsn Hb) as Hex.
  assert (blob_le b1 b3) as Hle by (by etrans). eapply commit_head_spec; [by eapply snapshot_le|done|done|by apply latest_le| |done|done].
  intros Hc. unfold StoreCommit.snapshot_ok in Hsn. rewrite Hex in Hsn. destruct Hsn as (_ & _ & _ & _ & Hwf).
  destruct (Hwf (collision_free_le _ _ Hle Hc)) as (es & os & xs & W). exists es, os, xs.
  split; [eapply head_wf_after; [by apply after_le|exact W]|]. eapply Hadm; [by eapply collision_free_le|exact W].
Qed.

Lemma mutate_loop_ok m f n first s x s' :
  world_ok (backend s) → (∀ sn, first = Some sn → snapshot_ok (backend s) sn) →
  mutate_loop reference n m f false false first s = (x, s') →
  keeps (performs m f) (backend s) (backend s') ∧ ∀ o, x = Ok o → concludes m f (backend s) (backend s') o.
Proof.
  revert first s. induction n as [|n IH]; intros first s Hw Hfirst E; cbn [mutate_loop] in E.
  { injection E as <- <-. split; [apply keeps_refl|done]. }
  assert (∀ first1 s1, keeps (performs m f) (backend s) (backend s1) → (∀ sn, first1 = Some sn → snapshot_ok (backend s1) sn) →
    mutate_loop reference n m f false false first1 s1 = (x, s') →
    keeps (performs m f) (backend s) (backend s') ∧ ∀ o, x = Ok o → concludes m f (backend s) (backend s') o) as Hretry.
  { intros first1 s1 K Hf1 E1. destruct (IH first1 s1 (keeps_world _ _ _ K Hw) Hf1 E1) as [K' Hc].
    split; [by eapply keeps_trans|]. intros o Ho. by eapply concludes_keeps; [|apply Hc]. }
  apply gom_bind_inv in E as (y & s1 & E1 & E).
  assert (blob_le (backend s) (backend s1) ∧ ∀ sn, y = Ok sn → snapshot_ok (backend s1) sn) as [Hle1 Hsn].
  { destruct first as [sn|]; [|by apply (load_ok reference rivals); [done|by apply on_backend_inv]].
    apply mret_inv in E1 as [-> ->]. split; [reflexivity|]. intros ? [= <-]. by apply Hfirst. }
  destruct y as [sn|e]; [|destruct E as [-> ->]; split; [by apply keeps_le|done]]. specialize (Hsn sn eq_refl).
  apply gom_bind_inv in E as (y & s2 & E2 & E). destruct (admit_sound reference _ _ _ _ _ _ E2) as (Hle2 & Hrep & Hadm & Hans).
  assert (blob_le (backend s) (backend s2)) as Hle12 by (by etrans). assert (K2 := keeps_le (performs m f) _ _ Hle12).
  destruct y as [[o|]|e]; [| |by destruct E as [-> ->]].
  { apply mret_inv in E as [-> ->]. split; [done|]. intros ? [= <-]. left. eapply found_replays; [exact Hsn|done|by apply Hrep|]. eauto. }
  pure_step E. destruct (head_key reference) as [key|e] eqn:Ek; [|by destruct E as [-> ->]].
  destruct (encodeHead key sn _) as [body|err] eqn:Eb.
  2:{ pure_step E. destruct (guard_err _ _) as [u|e]; [|by destruct E as [-> ->]].
      apply gom_bind_inv in E as (y & s3 & E3 & E). unfold attempt in E3. destruct (on_backend (compact reference) s2) as [w s4] eqn:Ec. injection E3 as <- <-.
      apply on_backend_inv in Ec. apply compact_keeps in Ec; [|by eapply keeps_world]. apply (housekeeping_performs m f) in Ec.
      assert (K3 := keeps_trans _ _ _ _ K2 Ec). apply gom_bind_inv in E as (y & s5 & E5 & E).
      assert (s5 = s4) as -> by (destruct w; [by apply mret_inv in E5 as [_ ->]|by apply lift_inv in E5 as [_ ->]]).
      destruct y as [u5|e]; [|by destruct E as [-> ->]]. by apply (Hretry None s4). }
  apply gom_bind_inv in E as (y & s3 & [-> ->]%mret_inv & E).
  apply gom_bind_inv in E as (y & s3 & E3%on_backend_inv & E). pose proof (step_sound _ _ _ _ E3) as Hle3.
  assert (blob_le (backend s1) (backend s3)) as Hle13 by (by etrans). assert (blob_le (backend s) (backend s3)) as Hle03 by (by etrans).
  assert (K3 := keeps_le (performs m f) _ _ Hle03). destruct y as [u3|e]; [|by destruct E as [-> ->]].
  apply gom_bind_inv in E as (y & s4 & [-> ->]%mret_inv & E).
  apply gom_bind_inv in E as (y & s4 & E4 & E). unfold attempt in E4. destruct (on_backend (commit_head key body sn) s3) as [w s5] eqn:Ec. injection E4 as <- <-.
  apply on_backend_inv in Ec. destruct (commit_admitted m f sn key body _ _ _ _ _ Hsn Hle2 Hle3 Ek (λ Hc, Hadm Hc eq_refl) Eb Ec) as [K5 Hcom].
  assert (K35 := keeps_trans _ _ _ _ K3 K5). destruct w as [u5|putErr].
  { apply mret_inv in E as [-> ->]. split; [done|]. intros ? [= <-]. right. exists (backend s3). do 2 eexists. split; [done|]. split; [by eapply Hcom|done]. }
  apply gom_bind_inv in E as (y & s6 & E6%on_backend_inv & E). destruct (recover_ok _ _ _ _ _ _ _ (keeps_world _ _ _ K35 Hw) E6) as (Hle6 & Hinl & Hinr).
  assert (K6 := keeps_trans _ _ _ _ K35 (keeps_le _ _ _ Hle6)). destruct y as [[o|sn']|e]; [| |by destruct E as [-> ->]].
  - apply mret_inv in E as [-> ->]. split; [done|]. intros ? [= <-]. left. by apply Hinl.
  - apply (Hretry (Some sn') s6); [done| |done]. intros ? [= <-]. by apply Hinr.
Qed.

Lemma preflight_ok n snapshot b x b' :
  world_ok b → snapshot_ok b snapshot → preflight_loop reference n snapshot b = (x, b') →
  keeps housekeeping b b' ∧ ∀ sn, x = Ok sn → snapshot_ok b' sn.
Proof.
  revert snapshot b. induction n as [|n IH]; intros snapshot b Hw Hsn E; cbn [preflight_loop] in E;
    (destruct (_ && _ && _) eqn:Eg; [|apply mret_inv in E as [-> ->]; split; [apply keeps_refl|by intros ? [= <-]]]).
  { injection E as <- <-. split; [apply keeps_refl|done]. }
  apply gom_bind_inv in E as (y & b1 & E1 & E). unfold attempt in E1. destruct (compactSnapshot reference snapshot b) as [w b2] eqn:Ec. injection E1 as <- <-.
  apply compactSnapshot_keeps in Ec as K; [|done]. apply gom_bind_inv in E as (y & b3 & E3 & E).
  assert (b3 = b2) as -> by (destruct w; [by apply mret_inv in E3 as [_ ->]|by apply lift_inv in E3 as [_ ->]]).
  destruct y as [u|e]; [|by destruct E as [-> ->]]. apply gom_bind_inv in E as (y & b4 & E4 & E).
  destruct (load_ok reference rivals _ _ _ (keeps_world _ _ _ K Hw) E4) as [Hle Hload]. assert (K4 := keeps_trans _ _ _ _ K (keeps_le _ _ _ Hle)).
  destruct y as [sn|e]; [|by destruct E as [-> ->]].
  destruct (IH sn b4) with (3 := E) as [K' Hr]; [by eapply keeps_world|by apply Hload|]. split; [by eapply keeps_trans|done].
Qed.

(** The mutation as it is recorded: with a deadline, its changes sorted, and the
    fingerprint of its content. *)
Definition intends (m m' : consistencyDomainMutation) (f : gostring) : Prop :=
  ∃ until, normalizeConsistencyDomainMutation (with_retention m until) = Ok (m', f) ∧
    (IsZero (RetainUntil m) = false → until = RetainUntil m).

Definition executes (m : consistencyDomainMutation) (e : event) : Prop :=
  housekeeping e ∨ ∃ m' f r t, intends m m' f ∧ e = Committed m' f r t.

Lemma retention_step m s y s' :
  (if IsZero (RetainUntil m) then now ← on_backend Now; mret (with_retention m (now + terminalOperationRetention)) else mret m) s = (y, s') →
  blob_le (backend s) (backend s') ∧
  ∀ m1, y = Ok m1 → ∃ until, m1 = with_retention m until ∧ (IsZero (RetainUntil m) = false → until = RetainUntil m).
Proof.
  destruct (IsZero (RetainUntil m)) eqn:Ez.
  - intros E. apply gom_bind_inv in E as (t & s1 & E1%on_backend_inv & E). pose proof (quietly_now _ _ _ E1) as Hle.
    destruct t as [t|e]; [|destruct E as [-> ->]; by split]. apply mret_inv in E as [-> ->]. split; [done|]. intros m1 [= <-]. by eexists.
  - intros [-> ->]%mret_inv. split; [reflexivity|]. intros m1 [= <-]. exists (RetainUntil m). split; [by destruct m|done].
Qed.

Lemma mutate_ok m initial b x b' :
  world_ok b → (∀ sn, initial = Some sn → snapshot_ok b sn) → mutateAtHead reference fuel m initial b = (x, b') →
  keeps (executes m) b b' ∧ ∀ o, x = Ok o → ∃ m' f, intends m m' f ∧ concludes m' f b b' o.
Proof.
  intros Hw Hini E. unfold mutateAtHead in E. apply fresh_inv in E as (s & E & <-). unfold mutatePrepared in E.
  pure_step E. destruct (validateConsistencyDomainRef reference); [|destruct E as [-> ->]; split; [apply keeps_refl|done]].
  apply gom_bind_inv in E as (y & s0 & [= <- <-] & E). cbn [andb] in E.
  apply gom_bind_inv in E as (y & s1 & E1 & E). destruct (retention_step _ _ _ _ E1) as [Hle1 Hm]. cbn [backend newSession] in Hle1.
  assert (∀ b1, keeps housekeeping b b1 → keeps (executes m) b b1) as Hkeep by (intros b1; apply keeps_mono; by left).
  assert (K1 := keeps_le housekeeping _ _ Hle1). destruct y as [m1|e]; [|destruct E as [-> ->]; by split; [apply Hkeep|]].
  destruct (Hm m1 eq_refl) as (until & -> & Huntil).
  pure_step E. destruct (normalizeConsistencyDomainMutation (with_retention m until)) as [[m' f]|e] eqn:En; [|destruct E as [-> ->]; by split; [apply Hkeep|]].
  assert (intends m m' f) as Hint by (by exists until).
  apply gom_bind_inv in E as (y & s2 & E2 & E).
  assert (blob_le (backend s1) (backend s2) ∧ ∀ sn, y = Ok sn → snapshot_ok (backend s2) sn) as [Hle2 Hsn].
  { destruct initial as [sn|]; [|by apply (load_ok reference rivals); [by eapply world_le|by apply on_backend_inv]].
    pure_step E2. destruct (guard_err _ _); [|destruct E2 as [-> ->]; split; [reflexivity|done]]. apply mret_inv in E2 as [-> ->].
    split; [reflexivity|]. intros ? [= <-]. eapply snapshot_le; [exact Hle1|by apply Hini]. }
  assert (K2 := keeps_trans _ _ _ _ K1 (keeps_le _ _ _ Hle2)). destruct y as [sn|e]; [|destruct E as [-> ->]; by split; [apply Hkeep|]].
  apply gom_bind_inv in E as (y & s3 & E3%on_backend_inv & E).
  destruct (preflight_ok _ _ _ _ _ (keeps_world _ _ _ K2 Hw) (Hsn sn eq_refl) E3) as [K23 Hpre]. assert (K3 := keeps_trans _ _ _ _ K2 K23).
  destruct y as [sn3|e]; [|destruct E as [-> ->]; by split; [apply Hkeep|]]. specialize (Hpre sn3 eq_refl).
  apply gom_bind_inv in E as (y & s4 & E4 & E).
  assert (keeps housekeeping (backend s3) (backend s4) ∧ ∀ sn, y = Ok sn → snapshot_ok (backend s4) sn) as [K34 Hfirst].
  { destruct (negb _ || _).
    - apply gom_bind_inv in E4 as (z & s5 & E5%unowned_inv & E4). pose proof (keeps_le housekeeping _ _ (quietly_validate _ _ _ _ _ _ E5)) as K5.
      destruct z as [u|e]; [|by destruct E4 as [-> ->]]. apply on_backend_inv in E4.
      destruct (prepare_ok fuel (Some sn3) _ _ _ (keeps_world _ _ _ K5 (keeps_world _ _ _ K3 Hw)) (ltac:(intros ? [= <-]; by eapply keeps_snapshot)) E4) as [K6 Hr].
      split; [by eapply keeps_trans|]. intros sn' ->. by apply Hr.
    - apply mret_inv in E4 as [-> ->]. split; [apply keeps_refl|]. by intros ? [= <-]. }
  assert (K4 := keeps_trans _ _ _ _ K3 K34). destruct y as [sn4|e]; [|destruct E as [-> ->]; by split; [apply Hkeep|]].
  destruct (mutate_loop_ok m' f fuel (Some sn4) s4 x s (keeps_world _ _ _ K4 Hw)) with (2 := E) as [K5 Hconc].
  { intros ? [= <-]. by apply Hfirst. }
  split.
  - eapply keeps_trans; [by apply Hkeep|]. eapply keeps_mono; [|exact K5]. intros e [?|(r & t & ->)]; [by left|right]. by exists m', f, r, t.
  - intros o Ho. exists m', f. split; [done|]. eapply concludes_keeps; [by apply housekeeping_performs|by apply Hconc].
Qed.

(** ** Freezing *)

(** What a load says of the domain. *)
Lemma load_at_head b x b' :
  world_ok b → loadHead reference b = (x, b') →
  blob_le b b' ∧ ∀ sn, x = Ok sn → snapshot_ok b' sn ∧
    (collision_free b' →
     if exists_ sn then ∃ es os xs, head_wf b' (head sn) es os xs ∧ at_head reference b' (Some (domain_of (head sn) es os))
     else at_head reference b' None).
Proof.
  intros Hw E. destruct (load_ok reference rivals _ _ _ Hw E) as [Hle Hsn]. destruct (loadHead_spec _ _ _ _ E) as [_ Hcur].
  split; [done|]. intros sn ->. specialize (Hsn sn eq_refl). split; [done|]. intros Hc. destruct (Hcur sn eq_refl) as (key & Ek & Hx).
  unfold StoreCommit.snapshot_ok in Hsn. destruct (exists_ sn).
  - destruct Hsn as (_ & _ & _ & _ & Hwf). destruct (Hwf Hc) as (es & os & xs & W). exists es, os, xs. split; [done|].
    exists (head sn), es, os, xs. split; [|done]. destruct Hx as (Hh & Hd & _).
    by exists key, (Object_Body (object sn)), (Object_Version (object sn)), (envelope sn).
  - exists key. by destruct Hx.
Qed.

(** The domain was seen at this epoch, and nothing this process did since changed it. *)
Definition seen_at (e : Z) (b' : B) : Prop :=
  ∃ b, evolves b [] b' ∧ (collision_free b → ∃ a, at_head reference b (Some a) ∧ registered a = true ∧ epoch a = e).

Lemma evolves_one b e b' : evolves b [e] b' →
  ∃ k b1 b2, evolves b [] b1 ∧ evolves b2 [] b' ∧ replaced k b1 b2 ∧ (collision_free b1 → performed reference e b1 b2).
Proof.
  intros Hev. remember [e] as tr eqn:Etr. induction Hev as [|b b1 tr b2 ? Hev IH|k b b1 tr b2 ? ? Hev IH|key b b1 e' tr b2 Hk Hr Hp Hev IH]; [done|..].
  - destruct (IH Etr) as (k & b3 & b4 & Hev' & Hx). exists k, b3, b4. split; [by eapply evolves_quiet|done].
  - destruct (IH Etr) as (k' & b3 & b4 & Hev' & Hx). exists k', b3, b4. split; [by eapply evolves_other|done].
  - injection Etr as -> ->. exists (key_value key), b, b1. split; [constructor|done].
Qed.

Lemma seen_at_event b e epoch' b' :
  evolves b [e] b' → (∀ a a', domain_step e a a' → registered a' = true ∧ epoch a' = epoch') → seen_at epoch' b'.
Proof.
  intros (k & b1 & b2 & _ & Hev & Hr & Hp)%evolves_one Hst. exists b2. split; [done|]. intros Hc.
  destruct Hp as (a & a' & _ & Ha' & Hstep & _); [by apply (after_replaced reference) in Hr; apply Hr|]. exists a'.
  split; [done|]. by apply Hst in Hstep.
Qed.

Lemma freeze_advances snapshot b e :
  e ≠ 0 → u64_ok e → snapshot_ok b snapshot → exists_ snapshot = true → Head_Registered (head snapshot) = true → Head_Frozen (head snapshot) = false →
  (collision_free b → ∀ es os xs, head_wf b (head snapshot) es os xs → contents (head snapshot) es !! transitionLockKey009 = None) →
  advances reference (Frozen e) b (head snapshot) (with_freeze (head snapshot) true e).
Proof.
  intros He Hu Hsn Hex Hr Hf Hlock Hc.
  apply (same_advances (Frozen e) snapshot b (with_freeze (head snapshot) true e)); try done. intros es os xs W. pose proof W as [W1 (T1 & T2 & T3) W3 W4 W5 W6 W7]. split.
  - apply Z.eqb_neq in He. split; try done. cbn. by rewrite He.
  - rewrite Hf in W4. symmetry in W4. apply negb_false_iff, Z.eqb_eq in W4. constructor; try done. by eapply Hlock.
Qed.

Lemma unfreeze_advances snapshot b :
  snapshot_ok b snapshot → exists_ snapshot = true → Head_Registered (head snapshot) = true → Head_Frozen (head snapshot) = true →
  advances reference Unfrozen b (head snapshot) (with_freeze (head snapshot) false 0).
Proof.
  intros Hsn Hex Hr Hf. apply same_advances; try done. intros es os xs W. pose proof W as [W1 (T1 & T2 & T3) W3 W4 W5 W6 W7]. split.
  - by split.
  - rewrite Hf in W4. symmetry in W4. apply negb_true_iff, Z.eqb_neq in W4. by constructor.
Qed.

Lemma lock_free b h x b' :
  transitionLockAtHead009 reference h b = (x, b') → blob_le b b' ∧
  (x = Ok None → collision_free b' → ∀ es os xs, head_wf b h es os xs → contents h es !! transitionLockKey009 = None).
Proof.
  intros (s & E & <-)%fresh_inv. destruct (lock_sound reference h [] _ _ _ E) as [Hle _]. split; [done|].
  intros -> Hc es os xs W. by apply (proj2 (lock_sound reference h es _ _ _ E) Hc (wf_deltas _ _ _ _ _ _ W) (wf_base _ _ _ _ _ _ W)).
Qed.

(** A read answers from one instant, at which no transition held the domain. *)
Lemma get_ok (key : gostring) (b b' : B) (v : consistencyDomainValue) :
  world_ok b → get_ reference key b = (Ok v, b') →
  ∃ b1, blob_le b b1 ∧ blob_le b1 b' ∧
    (collision_free b' → ∃ a e, at_head reference b1 (Some a) ∧ registered a = true ∧
       values a !! transitionLockKey009 = None ∧ values a !! key = Some e ∧ plain v = value_of e).
Proof.
  intros Hw E. unfold get_ in E. pure_step E. destruct (guard_err _ _); [|by destruct E].
  apply gom_bind_inv in E as (y & b1 & E1 & E). destruct (load_at_head _ _ _ Hw E1) as [Hle1 Hload].
  destruct y as [sn|err]; [|by destruct E]. destruct (Hload sn eq_refl) as [_ Hat].
  pure_step E. destruct (exists_ sn) eqn:Eex; cbn [negb orb] in E; [|by destruct E].
  destruct (Head_Registered (head sn)) eqn:Er; cbn [negb guard_err] in E; [|by destruct E].
  apply gom_bind_inv in E as (l & b2 & E2 & E). destruct (lock_free _ _ _ _ E2) as [Hle2 Hlock].
  destruct l as [l|err]; [|by destruct E]. pure_step E. case_bool_decide as Hl; cbn [guard_err] in E; [by destruct E|].
  assert (l = None) as -> by (destruct l; [by destruct Hl|done]).
  apply gom_bind_inv in E as (z & b3 & (s & E3 & <-)%fresh_inv & E). destruct (lookup_sound reference _ [] _ _ _ _ E3) as [Hle3 _]. cbn in Hle3.
  destruct z as [[w|]|err]; [|done|by destruct E]. apply mret_inv in E as [[= ->] ->].
  exists b1. split; [done|]. split; [by etrans|]. intros Hc. pose proof (collision_free_le _ _ Hle3 Hc) as Hc2. pose proof (collision_free_le _ _ Hle2 Hc2) as Hc1.
  destruct (Hat Hc1) as (es & os & xs & W & Ha). pose proof (head_wf_after reference _ _ _ _ _ _ (after_le reference _ _ Hle2) W) as W2.
  pose proof (proj2 (lookup_sound reference (head sn) es _ _ _ _ E3) Hc (wf_deltas _ _ _ _ _ _ W) (wf_base _ _ _ _ _ _ W2) _ eq_refl) as Hshow.
  unfold shows in Hshow. destruct (contents (head sn) es !! key) as [e|] eqn:Ee; [|done].
  exists (domain_of (head sn) es os), e. split; [done|]. split; [done|]. split; [by eapply Hlock|]. split; [done|]. exact (inj Some _ _ Hshow).
Qed.

(** The same, for a head that was read before. *)
Lemma lock_free_after b h x b' :
  transitionLockAtHead009 reference h b = (x, b') → x = Ok None → (collision_free b → ∃ es os xs, head_wf b h es os xs) →
  collision_free b' → ∃ es os xs, head_wf b' h es os xs ∧ contents h es !! transitionLockKey009 = None.
Proof.
  intros E Hx Hwf Hc. destruct (lock_free _ _ _ _ E) as [Hle Hl]. destruct (Hwf (collision_free_le _ _ Hle Hc)) as (es & os & xs & W).
  exists es, os, xs. split; [by eapply head_wf_after; [apply after_le|]|by eapply Hl].
Qed.

Definition freezes (e : Z) (ev : event) : Prop := housekeeping ev ∨ ev = Frozen e.

Lemma freeze_loop_ok n e b x b' :
  e ≠ 0 → u64_ok e → world_ok b → DomainStore.freeze_loop reference n e b = (x, b') →
  keeps (freezes e) b b' ∧ ∀ u, x = Ok u → seen_at e b'.
Proof.
  intros He Hu. revert b. induction n as [|n IH]; intros b Hw E; cbn [DomainStore.freeze_loop] in E.
  { injection E as <- <-. split; [apply keeps_refl|done]. }
  apply gom_bind_inv in E as (y & b1 & E1 & E). destruct (load_at_head _ _ _ Hw E1) as [Hle1 Hload].
  assert (K1 := keeps_le (freezes e) _ _ Hle1). destruct y as [sn|err]; [|by destruct E as [-> ->]]. destruct (Hload sn eq_refl) as [Hsn Hat].
  pure_step E. destruct (exists_ sn) eqn:Eex; cbn [negb orb] in E; [|by destruct E as [-> ->]].
  destruct (Head_Registered (head sn)) eqn:Er; cbn [negb guard_err] in E; [|by destruct E as [-> ->]].
  apply gom_bind_inv in E as (l & b2 & E2 & E). destruct (lock_free _ _ _ _ E2) as [Hle2 Hlock].
  assert (blob_le b b2) as Hle12 by (by etrans). assert (K2 := keeps_le (freezes e) _ _ Hle12).
  destruct l as [l|err]; [|by destruct E as [-> ->]]. case_bool_decide as Hl.
  { pure_step E. destruct (guard_err _ _); [injection E as <- <-; by split|by destruct E as [-> ->]]. }
  assert (l = None) as -> by (destruct l; [by destruct Hl|done]). destruct (Head_Frozen (head sn)) eqn:Ef.
  { apply lift_inv in E as [-> ->]. split; [done|]. intros u Hx. exists b1. split; [by apply evolves_le|]. intros Hc.
    destruct (Hat Hc) as (es & os & xs & W & Ha). exists (domain_of (head sn) es os). split; [done|]. split; [done|].
    destruct (Head_FreezeEpoch (head sn) =? e) eqn:Ee; [by apply Z.eqb_eq|done]. }
  pure_step E. destruct (head_key reference) as [key|err] eqn:Ek; [|by destruct E as [-> ->]].
  pure_step E. destruct (encodeHead key sn _) as [body|err] eqn:Eb; [|by destruct E as [-> ->]].
  apply gom_bind_inv in E as (y & b3 & E3 & E). unfold attempt in E3. destruct (obj_put key body _ b2) as [w b4] eqn:Ep. injection E3 as <- <-.
  assert (Hsn2 := snapshot_le _ _ _ Hle2 Hsn). assert (Hadv : advances reference (Frozen e) b2 (head sn) (with_freeze (head sn) true e)).
  { intros Hc. apply freeze_advances; try done. intros _ es os xs W. unfold StoreCommit.snapshot_ok in Hsn. rewrite Eex in Hsn.
    destruct Hsn as (_ & _ & _ & _ & Hwf). destruct (lock_free_after _ _ _ _ E2 eq_refl Hwf Hc) as (es0 & os0 & xs0 & W0 & Hnone).
    by rewrite <-(tree_holds_unique reference pageKey packKey _ _ _ _ Hc (wf_base _ _ _ _ _ _ W0) (wf_base _ _ _ _ _ _ W)). }
  destruct (put_keeps (freezes e) _ _ _ _ _ _ _ _ (or_intror eq_refl) Hsn2 Eex Ek Eb Hadv Ep) as [K4 Hev]. assert (K24 := keeps_trans _ _ _ _ K2 K4).
  destruct w as [v|err].
  - apply mret_inv in E as [-> ->]. split; [done|]. intros u _. eapply seen_at_event; [by eapply Hev|]. by inversion 1.
  - destruct (lost_race err); [|injection E as <- <-; by split]. destruct (IH b4 (keeps_world _ _ _ K24 Hw) E) as [K5 Hr].
    split; [by eapply keeps_trans|done].
Qed.

Definition unfreezes (ev : event) : Prop := ev = Unfrozen.

Lemma unfreeze_loop_ok n e b x b' :
  world_ok b → unfreeze_loop reference n e b = (x, b') →
  keeps unfreezes b b' ∧ ∀ u, x = Ok u → seen_at 0 b'.
Proof.
  revert b. induction n as [|n IH]; intros b Hw E; cbn [unfreeze_loop] in E.
  { injection E as <- <-. split; [apply keeps_refl|done]. }
  apply gom_bind_inv in E as (y & b1 & E1 & E). destruct (load_at_head _ _ _ Hw E1) as [Hle1 Hload].
  assert (K1 := keeps_le unfreezes _ _ Hle1). destruct y as [sn|err]; [|by destruct E as [-> ->]]. destruct (Hload sn eq_refl) as [Hsn Hat].
  pure_step E. destruct (exists_ sn) eqn:Eex; cbn [negb orb] in E; [|by destruct E as [-> ->]].
  destruct (Head_Registered (head sn)) eqn:Er; cbn [negb guard_err] in E; [|by destruct E as [-> ->]].
  destruct (Head_Frozen (head sn)) eqn:Ef; cbn [negb] in E.
  2:{ apply mret_inv in E as [-> ->]. split; [done|]. intros u _. exists b1. split; [constructor|]. intros Hc.
      destruct (Hat Hc) as (es & os & xs & W & Ha). exists (domain_of (head sn) es os). split; [done|]. split; [done|].
      pose proof (wf_freeze _ _ _ _ _ _ W) as Hfz. rewrite Ef in Hfz. symmetry in Hfz. by apply negb_false_iff, Z.eqb_eq in Hfz. }
  pure_step E. destruct (guard_err _ _); [|by destruct E as [-> ->]].
  pure_step E. destruct (head_key reference) as [key|err] eqn:Ek; [|by destruct E as [-> ->]].
  pure_step E. destruct (encodeHead key sn _) as [body|err] eqn:Eb; [|by destruct E as [-> ->]].
  apply gom_bind_inv in E as (y & b3 & E3 & E). unfold attempt in E3. destruct (obj_put key body _ b1) as [w b4] eqn:Ep. injection E3 as <- <-.
  destruct (put_keeps unfreezes _ _ _ _ _ _ _ _ eq_refl Hsn Eex Ek Eb (unfreeze_advances _ _ Hsn Eex Er Ef) Ep) as [K4 Hev].
  assert (K14 := keeps_trans _ _ _ _ K1 K4). destruct w as [v|err].
  - apply mret_inv in E as [-> ->]. split; [done|]. intros u _. eapply seen_at_event; [by eapply Hev|]. by inversion 1.
  - destruct (lost_race err); [|injection E as <- <-; by split]. destruct (IH b4 (keeps_world _ _ _ K14 Hw) E) as [K5 Hr].
    split; [by eapply keeps_trans|done].
Qed.

Lemma freeze_ok e b x b' :
  u64_ok e → world_ok b → DomainStore.freeze reference fuel e b = (x, b') →
  keeps (freezes e) b b' ∧ ∀ u, x = Ok u → seen_at e b'.
Proof.
  intros Hu Hw E. unfold DomainStore.freeze in E. pure_step E. destruct (Z.eqb_spec e 0) as [|He]; cbn [guard_err] in E.
  { destruct E as [-> ->]. split; [apply keeps_refl|done]. }
  apply gom_bind_inv in E as (y & b1 & E1 & E). unfold ensureRegistered in E1.
  pose proof (ensure_ok 8 None _ _ _ Hw ltac:(done) E1) as K. assert (K1 : keeps (freezes e) b b1) by (eapply keeps_mono; [|exact K]; by left).
  destruct y as [u|err]; [|destruct E as [-> ->]; by split].
  destruct (freeze_loop_ok fuel e b1 x b' He Hu (keeps_world _ _ _ K1 Hw) E) as [K2 Hr]. split; [by eapply keeps_trans|done].
Qed.
End Store.
End StoreMutate.
