(* ===== verification/StoreList.v ===== *)
(** * Listing a range of a domain

    [listAtHead] reads only as much of the base tree as the window can hide. *)

From Stdlib Require Import ZArith Lia.
From S2P Require Import Prelude GoLib GoHash GoJSON GoTime Errors ObjectStore DomainPage DomainPageTheory DomainTree TreeTheory TreeRead TreeGroups TreeWrite TreeEdit DomainPack DomainHead DomainSession TreeStream DomainProvider DomainCatalog DomainStore HeadTheory SessionLaws PackTheory SessionReader StoreLaws StoreRead.

Open Scope Z_scope.

Module StoreList.
Import ObjectStore StorageFormat PageTheory DomainTree TreeTheory TreeRead TreeEdit DomainPack DomainHead HeadTheory DomainSession DomainProvider DomainCatalog DomainStore SessionLaws PackTheory SessionReader StoreLaws StoreRead.

(** The entries of a map in key order. *)
Definition sorted_values (m : gmap gostring DomainEntry) : list DomainEntry :=
  omap (λ k, m !! k) (sort_Strings (map fst (map_to_list m))).

(** The entries whose key has the prefix and lies after [after]. *)
Definition listing (prefix after : gostring) (m : gmap gostring DomainEntry) : list DomainEntry :=
  sorted_values (filter (λ '(k, _), bytes_lt after k ∧ prefix `prefix_of` k) m).

(** ** Sorted lists *)

Lemma sorted_values_spec m : keyed m → sorted_entries (sorted_values m) ∧ entries_map (sorted_values m) = m.
Proof. apply materialized_map. Qed.

Lemma sorted_values_elem m e : keyed m → e ∈ sorted_values m ↔ m !! Entry_Key e = Some e.
Proof.
  intros Hk. destruct (sorted_values_spec m Hk) as [Hs Hm]. rewrite <-Hm at 2. rewrite entries_map_lookup by done. naive_solver.
Qed.

Lemma sorted_entries_ext l1 l2 : sorted_entries l1 → sorted_entries l2 → (∀ e, e ∈ l1 ↔ e ∈ l2) → l1 = l2.
Proof. apply (sorted_by_ext Entry_Key). Qed.

Lemma sorted_entries_NoDup l : sorted_entries l → NoDup l.
Proof. intros Hs%sorted_lt_NoDup. by apply NoDup_fmap_1 in Hs. Qed.

(** A sorted list up to a key. *)
Definition upto (K : gostring) (e : DomainEntry) : Prop := bytes_le (Entry_Key e) K.
#[local] Instance upto_dec K e : Decision (upto K e).
Proof. unfold upto. apply _. Defined.

Lemma sorted_filter (P : DomainEntry → Prop) `{∀ e, Decision (P e)} l : sorted_entries l → sorted_entries (filter P l).
Proof.
  intros Hs. unfold sorted_entries in *. induction l as [|e l IH]; [done|]. inversion Hs as [|? ? S A]; subst.
  rewrite filter_cons. destruct (decide (P e)); [|by apply IH]. cbn. constructor; [by apply IH|].
  rewrite Forall_map, list.Forall_forall in *. intros e' [_ He']%list_elem_of_filter. by apply A.
Qed.

Lemma sorted_split K l : sorted_entries l → ∃ rest, l = filter (upto K) l ++ rest.
Proof.
  intros Hs. induction l as [|e l IH]; [by exists []|]. inversion Hs as [|? ? S A]; subst. rewrite filter_cons. destruct (decide (upto K e)) as [|Hn].
  - destruct (IH S) as [rest E]. exists rest. cbn. by rewrite <-E.
  - exists (e :: l). assert (filter (upto K) l = []) as ->; [|done]. apply elem_of_nil_inv. intros e' [Hle He']%list_elem_of_filter. apply Hn.
    rewrite Forall_map, list.Forall_forall in A. apply bytes_le_lt_eq. left. eapply bytes_lt_le_trans; [by apply A|done].
Qed.

Lemma take_agree K n l1 l2 :
  sorted_entries l1 → sorted_entries l2 → (∀ e, upto K e → e ∈ l1 ↔ e ∈ l2) → (n ≤ length (filter (upto K) l1))%nat →
  take n l1 = take n l2.
Proof.
  intros H1 H2 Hext Hlen. assert (filter (upto K) l1 = filter (upto K) l2) as E.
  { apply sorted_entries_ext; [by apply sorted_filter..|]. intros e. rewrite !list_elem_of_filter. naive_solver. }
  destruct (sorted_split K l1 H1) as [r1 E1], (sorted_split K l2 H2) as [r2 E2]. rewrite E1, E2, <-E. by rewrite !take_app_le.
Qed.

(** Removing [ks] from a list with distinct keys drops at most that many. *)
Lemma filter_length (ks : list gostring) l :
  NoDup (map Entry_Key l) → (length l ≤ length (filter (λ e, Entry_Key e ∉ ks) l) + length ks)%nat.
Proof.
  intros Hnd. rewrite <-(length_map Entry_Key l) at 1. rewrite <-(length_map Entry_Key (filter _ _)), <-length_app.
  apply submseteq_length, NoDup_submseteq; [done|]. intros k (e & -> & He)%list_elem_of_fmap. apply elem_of_app.
  destruct (decide (Entry_Key e ∈ ks)); [by right|left]. apply list_elem_of_fmap_2. by apply list_elem_of_filter.
Qed.

(** ** The overlay *)

Section Overlay.
Variables prefix after : gostring.

Abbreviation ranged := (λ k, bytes_lt after k ∧ prefix `prefix_of` k).

Lemma in_range_spec c : in_range prefix after c = true ↔ ranged (Change_Key c).
Proof. unfold in_range. by rewrite andb_true_iff, bytes_ltb_lt, HasPrefix_spec. Qed.

Lemma overlay_cons c cs m :
  overlay prefix after (c :: cs) m = overlay prefix after cs
    (if negb (in_range prefix after c) then m else if Change_Delete c then delete (Change_Key c) m else <[Change_Key c := change_entry c]> m).
Proof. done. Qed.

Lemma overlay_agree cs m m' k : m !! k = m' !! k → overlay prefix after cs m !! k = overlay prefix after cs m' !! k.
Proof.
  revert m m'. induction cs as [|c cs IH]; intros m m' E; [done|]. rewrite !overlay_cons. apply IH.
  destruct (in_range prefix after c); cbn [negb]; [|done]. destruct (Change_Delete c); destruct (decide (Change_Key c = k)) as [->|].
  - by rewrite !lookup_delete_eq.
  - by rewrite !lookup_delete_ne.
  - by rewrite !lookup_insert_eq.
  - by rewrite !lookup_insert_ne.
Qed.

(** A key without a relevant change. *)
Lemma overlay_untouched cs m k :
  k ∉ map Change_Key (filter (λ c, in_range prefix after c = true) cs) → overlay prefix after cs m !! k = m !! k.
Proof.
  revert m. induction cs as [|c cs IH]; intros m Hk; [done|]. rewrite overlay_cons. rewrite filter_cons in Hk.
  destruct (in_range prefix after c) eqn:Er; cbn [negb].
  - rewrite decide_True in Hk by done. cbn in Hk. apply not_elem_of_cons in Hk as [Hne Hk]. rewrite IH by done.
    destruct (Change_Delete c); [by apply lookup_delete_ne|by apply lookup_insert_ne].
  - rewrite decide_False in Hk by done. by apply IH.
Qed.

Lemma overlay_keyed cs m : keyed m → keyed (overlay prefix after cs m).
Proof.
  revert m. induction cs as [|c cs IH]; intros m Hm; [done|]. rewrite overlay_cons. apply IH.
  destruct (in_range prefix after c); cbn [negb]; [|done]. destruct (Change_Delete c); intros k e.
  - rewrite lookup_delete_Some. intros [_ ?]. by apply Hm.
  - rewrite lookup_insert_Some. intros [[<- <-]|[_ ?]]; [done|by apply Hm].
Qed.

(** Over a complete base the overlay shows what all changes show. *)
Lemma overlay_full cs m M :
  (∀ k, m !! k = if decide (ranged k) then clone_entry <$> M !! k else None) →
  ∀ k, overlay prefix after cs m !! k = if decide (ranged k) then clone_entry <$> change_map cs M !! k else None.
Proof.
  revert m M. induction cs as [|c cs IH]; intros m M Hm; [done|]. rewrite overlay_cons.
  change (change_map (c :: cs) M) with (change_map cs (change_map [c] M)). apply IH. intros k. cbn.
  destruct (in_range prefix after c) eqn:Er; cbn [negb].
  - apply in_range_spec in Er. destruct (Change_Delete c); destruct (decide (Change_Key c = k)) as [<-|Hne].
    + rewrite !lookup_delete_eq. by destruct (decide _).
    + rewrite !lookup_delete_ne by done. apply Hm.
    + rewrite !lookup_insert_eq, decide_True by done. cbn. unfold clone_entry, change_entry. cbn. by destruct (Change_Value c) as [[|]|].
    + rewrite !lookup_insert_ne by done. apply Hm.
  - assert (¬ ranged (Change_Key c)) as Hn by (rewrite <-in_range_spec; by rewrite Er). rewrite Hm.
    destruct (decide (ranged k)) as [Hk|]; [|done]. assert (Change_Key c ≠ k) by (by intros <-).
    destruct (Change_Delete c); [by rewrite lookup_delete_ne|by rewrite lookup_insert_ne].
Qed.
End Overlay.

(** ** The limited listing *)

Lemma select_sorted prefix after es : sorted_entries es → sorted_entries (select prefix after es).
Proof. intros Hs. by apply clone_sorted, sorted_filter. Qed.

Lemma select_lookup prefix after es k :
  sorted_entries es →
  entries_map (select prefix after es) !! k =
    if decide (bytes_lt after k ∧ prefix `prefix_of` k) then clone_entry <$> entries_map es !! k else None.
Proof.
  intros Hs. unfold select. rewrite clone_map, lookup_fmap.
  assert (entries_map (filter (selected prefix after) es) !! k =
          if decide (bytes_lt after k ∧ prefix `prefix_of` k) then entries_map es !! k else None) as ->; [|by destruct (decide _)].
  apply option_eq. intros e. rewrite entries_map_lookup by (by apply sorted_filter). rewrite list_elem_of_filter. destruct (decide _) as [Hr|Hr].
  - rewrite entries_map_lookup by done. split; [tauto|]. intros [He <-]. done.
  - split; [|done]. intros [[Hsel _] <-]. by destruct Hr.
Qed.

Lemma entries_map_keyed es : sorted_entries es → keyed (entries_map es).
Proof. intros Hs k e. rewrite entries_map_lookup by done. by intros [_ ?]. Qed.

Lemma sorted_take n es : sorted_entries es → sorted_entries (take n es).
Proof. intros Hs. rewrite <-(take_drop n es) in Hs. by apply sorted_entries_app in Hs as [? _]. Qed.

(** The first entries determine the map up to the last of them. *)
Lemma take_lookup n es K e0 k :
  sorted_entries es → last (take n es) = Some e0 → Entry_Key e0 = K → bytes_le k K → entries_map (take n es) !! k = entries_map es !! k.
Proof.
  intros Hs Hl HK Hle. apply option_eq. intros e. pose proof (sorted_take n es Hs) as Ht. rewrite !entries_map_lookup by done.
  split; [intros [He ?]; split; [rewrite <-(take_drop n es); apply elem_of_app; by left|done]|]. intros [He <-]. split; [|done].
  rewrite <-(take_drop n es), elem_of_app in He. destruct He as [?|He]; [done|]. rewrite <-(take_drop n es) in Hs.
  apply sorted_entries_app in Hs as (_ & _ & Hlt). apply last_Some_elem_of in Hl. exfalso.
  apply (irreflexivity bytes_lt (Entry_Key e)). eapply bytes_le_lt_trans; [exact Hle|]. rewrite <-HK. by apply Hlt.
Qed.

Lemma window_list prefix after n es cs :
  sorted_entries es →
  take n (sorted_values (overlay prefix after cs
    (entries_map (take (n + length (filter (λ c, in_range prefix after c = true) cs)) (select prefix after es))))) =
  take n (listing prefix after (clone_entry <$> change_map cs (entries_map es))).
Proof.
  intros Hs. set (r := length _). set (full := select prefix after es). assert (sorted_entries full) as Hf by (by apply select_sorted).
  assert (filter (λ '(k, _), bytes_lt after k ∧ prefix `prefix_of` k) (clone_entry <$> change_map cs (entries_map es)) =
          overlay prefix after cs (entries_map full)) as EF.
  { apply map_eq. intros k. rewrite (overlay_full prefix after cs _ (entries_map es)) by (intros; by apply select_lookup).
    apply option_eq. intros e. rewrite map_lookup_filter_Some, lookup_fmap. destruct (decide _); naive_solver. }
  unfold listing. rewrite EF. destruct (decide (length full ≤ n + r)%nat) as [Hshort|Hlong]; [by rewrite (take_ge full) by lia|].
  assert (∀ j, keyed (overlay prefix after cs (entries_map (take j full)))) as Hkt by (intros j; by apply overlay_keyed, entries_map_keyed, sorted_take).
  assert (keyed (overlay prefix after cs (entries_map full))) as Hkf by (by apply overlay_keyed, entries_map_keyed).
  destruct n as [|n']; [done|]. set (n := S n') in *. set (base := take (n + r) full) in *.
  assert (length base = n + r)%nat as Hlen by (unfold base; rewrite length_take; lia).
  destruct (last base) as [e0|] eqn:El; [|apply last_None in El; rewrite El in Hlen; cbn in Hlen; lia]. set (K := Entry_Key e0).
  assert (sorted_entries base) as Hb by (by apply sorted_take).
  assert (keyed (overlay prefix after cs (entries_map base))) as Hkb by apply Hkt.
  apply (take_agree K); [by apply sorted_values_spec..| |].
  - intros e He. rewrite !sorted_values_elem by done. by erewrite overlay_agree; [|eapply take_lookup].
  - set (ks := map Change_Key (filter (λ c, in_range prefix after c = true) cs)).
    pose proof (filter_length ks base (sorted_lt_NoDup _ Hb)) as Hcount. assert (length ks = r) as Hr by apply length_map.
    trans (length (filter (λ e, Entry_Key e ∉ ks) base)); [lia|]. apply submseteq_length, NoDup_submseteq; [by apply NoDup_filter, sorted_entries_NoDup|].
    intros e [Hk He]%list_elem_of_filter. apply list_elem_of_filter. split.
    + destruct (sorted_bounds base e Hb He) as [_ Hle]. unfold last_key in Hle. by rewrite El in Hle.
    + rewrite sorted_values_elem by done. rewrite overlay_untouched by done. by apply entries_map_lookup.
Qed.

(** ** Listing at a head *)

Section Store.
Context `{SHA256} `{!SHA256Laws} `{GZIP} `{!GZIPLaws} {B : Type} `{!Provider B, !ProviderView B, !ProviderLaws B}.
Variable reference : consistencyDomainRef.

Abbreviation pageKey := (session_pageKey reference).
Abbreviation packKey := (session_packKey reference).
#[local] Remove Hints session_pages session_view session_read_laws session_laws reader_view reader_laws : typeclass_instances.
#[local] Instance the_pages : PageStore (Session B) := pages_of_reference reference.
#[local] Instance the_view : PageView (Session B) := reader_view reference pageKey packKey.
#[local] Instance the_laws : PageReadLaws (Session B) :=
  reader_laws reference pageKey packKey (page_key_blob reference) (pack_key_blob reference).

Lemma omap_take (m : gmap gostring DomainEntry) n ks :
  (∀ k, k ∈ ks → is_Some (m !! k)) → omap (λ k, m !! k) (take n ks) = take n (omap (λ k, m !! k) ks).
Proof.
  revert n. induction ks as [|k ks IH]; intros n Hk; [by destruct n|]. destruct n as [|n]; [done|]. cbn.
  destruct (Hk k) as [e He]; [by left|]. rewrite He. cbn. f_equal. apply IH. intros k' ?. apply Hk. by right.
Qed.

Lemma listAtHead_yields s h es prefix after n :
  ps_inv s → holds s (Head_Base h) es → (0 < n)%nat → Z.of_nat n + len (window_changes h) ≤ MaxInt64 →
  yields s (listAtHeadWithSession reference h prefix after (Z.of_nat n)) (take n (listing prefix after (clone_entry <$> contents h es))).
Proof.
  intros Hi Hh Hn Hlim. unfold listAtHeadWithSession. set (rel := filter _ (window_changes h)).
  assert (length rel ≤ length (window_changes h))%nat as Hr by apply length_filter.
  assert (i64 (Z.of_nat n + len rel) = Z.of_nat (n + length rel)) as ->.
  { unfold len in *. rewrite i64_small; [lia|]. unfold MaxInt64 in *. lia. }
  eapply yields_bind; [apply (collect_ok s (Head_Base h) es prefix after); [done|done|lia]| |].
  { intros base. apply growing_bind; [apply growing_lift|]. intros _. apply growing_ret. }
  intros s' Hg. cbn [throw_if]. rewrite (proj2 (Z.ltb_ge _ _)) by lia. rewrite Nat2Z.id.
  destruct (holds_sorted s _ _ Hi Hh) as [Hs _]. pose proof (window_list prefix after n es (window_changes h) Hs) as E. fold rel in E.
  rewrite fold_insert_map by (by apply sorted_take, select_sorted).
  rewrite omap_take.
  2:{ intros k Hk. unfold sort_Strings in Hk. rewrite merge_sort_Permutation in Hk. apply list_elem_of_fmap in Hk as ([k' e] & -> & Hk%elem_of_map_to_list). by eexists. }
  unfold contents. rewrite <-E. apply yields_ret, Hg.
Qed.

Lemma listAtHead_ok b h es prefix after n x b' :
  tree_holds reference pageKey packKey b (Head_Base h) es → (0 < n)%nat → Z.of_nat n + len (window_changes h) ≤ MaxInt64 →
  listAtHead reference h prefix after (Z.of_nat n) b = (x, b') →
  blob_le b b' ∧ (collision_free b' →
    x = Ok (take n (listing prefix after (clone_entry <$> contents h es))) ∨ ∃ e, x = Err e ∧ blob_outage e).
Proof.
  intros Hh Hn Hlim E. eapply (fresh_yields reference pageKey packKey); [|exact E].
  apply listAtHead_yields; [apply reader_new|exact Hh|done|done].
Qed.
End Store.
End StoreList.
