(* ===== verification/EngineSpec.v ===== *)
(** * Several domains at once

    [EngineLaws] adds what the engine relies on of its backend to
    [ProviderLaws].  [spans] is a run over all domains: every event is labelled
    with the domain it happens to. *)

From Stdlib Require Import ZArith Lia.
From S2P Require Import Prelude GoLib GoHash GoJSON GoTime Errors ObjectStore ObjectTheory DomainPage DomainTree DomainPack DomainHead TransitionFormat DomainSession TreeStream DomainProvider DomainCatalog StateRoute DomainStore EngineTransition HeadTheory SessionLaws PackTheory SessionReader StoreLaws StoreRead StoreSpec StoreCommit StoreCatalog StoreMutate.

Open Scope Z_scope.

Module EngineSpec.
Import ObjectStore StorageFormat DomainTree DomainPack DomainHead TransitionFormat HeadTheory DomainSession DomainProvider DomainCatalog DomainStore EngineTransition SessionLaws SessionReader StoreLaws StoreSpec StoreCommit StoreCatalog StoreMutate.

(** Plans and decisions are objects like heads: they are written conditionally,
    and deleted. *)
Class EngineLaws `{SHA256} (B : Type) `{!Engine B, !ProviderView B} : Prop := {
  engine_laws_provider :: ProviderLaws B;
  plan_key_mutable id k : TransitionPlanKey id = Ok k → mutable_key k;
  decision_key_mutable id k : TransitionDecisionKey id = Ok k → mutable_key k;
  delete_sound b k c x b' :
    mutable_key k → obj_delete k c b = (x, b') →
    ∃ b1, blob_le b b1 ∧
      (b' = b1 ∨ heads b' = delete (key_value k) (heads b1) ∧ blob_contents b' = blob_contents b1 ∧
                 history b1 ⊆ history b' ∧ latest b1 ≤ latest b' ∧ offered b1 ⊆ offered b');
  get_quiet k b x b' : obj_get k b = (x, b') → blob_le b b';
  list_sound r b x b' : obj_list r b = (x, b') → blob_le b b';
  draw_sound n b x b' : draw n b = (x, b') → blob_le b b';
}.

(** ** Keys *)

Lemma head_key_domains `{SHA256} r key : head_key r = Ok key → ∃ v, key_value key = root ++ "domains/" ++ v.
Proof. unfold head_key, DomainHeadKey, fixedKey. intros E. inv_go. apply MustKey_value in E. rewrite E. by eexists. Qed.

Lemma transition_headless `{SHA256} v : headless (root ++ "transitions/" ++ v).
Proof.
  intros r key (v' & ->)%head_key_domains E. apply app_inv_head in E. discriminate E.
Qed.

Lemma plan_headless `{SHA256} id k : TransitionPlanKey id = Ok k → headless (key_value k).
Proof.
  unfold TransitionPlanKey, fixedKey. intros E. inv_go. apply MustKey_value in E. rewrite E.
  apply (transition_headless ("plans/" ++ digestPart id ++ ".json")).
Qed.

Lemma decision_headless `{SHA256} id k : TransitionDecisionKey id = Ok k → headless (key_value k).
Proof.
  unfold TransitionDecisionKey, fixedKey. intros E. inv_go. apply MustKey_value in E. rewrite E.
  apply (transition_headless ("decisions/" ++ digestPart id ++ ".json")).
Qed.

Section Spans.
Context `{SHA256} `{!SHA256Laws} `{GZIP} `{!GZIPLaws} {B : Type} `{!Provider B, !ProviderView B, !ProviderLaws B}.


Inductive spans : B → list (consistencyDomainRef * event) → B → Prop :=
  | spans_done b : spans b [] b
  | spans_quiet b b1 tr b2 : blob_le b b1 → spans b1 tr b2 → spans b tr b2
  | spans_other k b b1 tr b2 : replaced k b b1 → headless k → spans b1 tr b2 → spans b tr b2
  | spans_event r key b b1 e tr b2 :
      head_key r = Ok key → replaced (key_value key) b b1 → (collision_free b → performed r e b b1) → spans b1 tr b2 →
      spans b ((r, e) :: tr) b2.

Lemma spans_trans b tr b1 tr' b2 : spans b tr b1 → spans b1 tr' b2 → spans b (tr ++ tr') b2.
Proof. induction 1; intros Hs; cbn; [done|eapply spans_quiet|eapply spans_other|eapply spans_event]; eauto. Qed.

Lemma spans_le b b' : blob_le b b' → spans b [] b'.
Proof. intros Hle. eapply spans_quiet; [done|constructor]. Qed.

(** What happens to one domain happens to all. *)
Lemma evolves_spans r b tr b' : evolves r b tr b' → spans b (map (pair r) tr) b'.
Proof. induction 1; cbn; [constructor|eapply spans_quiet|eapply spans_other|eapply spans_event]; eauto. Qed.

Lemma spans_after r b tr b' : spans b tr b' → after r b b'.
Proof.
  induction 1 as [b|b b1 tr b2 Hle _ IH|k b b1 tr b2 Hr _ _ IH|p key b b1 e tr b2 _ Hr _ _ IH].
  - apply after_refl.
  - eapply after_trans; [by apply after_le|done].
  - eapply after_trans; [by eapply after_replaced|done].
  - eapply after_trans; [by eapply after_replaced|done].
Qed.

(** As [happens], for all domains. *)
Inductive happen : B → list (consistencyDomainRef * event) → B → Prop :=
  | happen_done b : happen b [] b
  | happen_quiet b b1 tr b2 : blob_le b b1 → happen b1 tr b2 → happen b tr b2
  | happen_other k b b1 tr b2 : replaced k b b1 → headless k → happen b1 tr b2 → happen b tr b2
  | happen_event r key b b1 e tr b2 :
      head_key r = Ok key → replaced (key_value key) b b1 → performed r e b b1 → happen b1 tr b2 → happen b ((r, e) :: tr) b2.

Lemma spans_happen b tr b' : spans b tr b' → collision_free b' → happen b tr b'.
Proof.
  induction 1 as [b|b b1 tr b2 Hle _ IH|k b b1 tr b2 Hr Hk _ IH|r key b b1 e tr b2 Ek Hr Hp Hev IH]; intros Hc.
  - constructor.
  - eapply happen_quiet; eauto.
  - eapply happen_other; eauto.
  - eapply happen_event; [done|done| |by apply IH]. by apply Hp, (after_replaced r _ _ _ Hr), (spans_after r _ _ _ Hev).
Qed.

Definition all_ok (b : B) : Prop := ∀ r, world_ok r b.

(** A head has one owner. *)
Lemma misbound_other p r h : misbound p h = false → p ≠ r → misbound r h = true.
Proof.
  unfold misbound. rewrite orb_false_iff, !bool_decide_eq_false. intros [Ei%dec_stable Ek%dec_stable] Hne. apply orb_true_iff. rewrite !bool_decide_eq_true.
  destruct (decide (Head_DomainID h = Ref_ID r)); [|by left]. destruct (decide (Head_Kind h = Ref_Kind r)); [|by right].
  destruct Hne. destruct p, r. cbn in *. congruence.
Qed.

(** The head of one domain is no head for another. *)
Lemma head_foreign p r (b : B) h key key' :
  head_key p = Ok key → head_key r = Ok key' → key_value key' = key_value key → head_is p b h → misbound p h = false → p ≠ r → foreign r b.
Proof.
  intros Ek Ek' E (k & body & v & env & Hk & Hh & Hd) Hm Hne. rewrite Ek in Hk. injection Hk as <-.
  assert (key' = key) as -> by (destruct key', key; cbn in E; by subst).
  exists h. split; [by exists key, body, v, env|by eapply misbound_other].
Qed.

(** Other processes keep every head well formed. *)
Hypothesis rivals : ∀ r b b', blob_le b b' → world_ok r b → world_ok r b'.

Lemma spans_ok b tr b' : spans b tr b' → all_ok b → all_ok b'.
Proof.
  induction 1 as [b|b b1 tr b2 Hle _ IH|k b b1 tr b2 Hr Hk _ IH|p key b b1 e tr b2 Ek Hr Hp _ IH]; intros Hw; [done|apply IH; intros r..].
  - by eapply rivals.
  - eapply world_same; [by eapply after_replaced| |done]. intros key Ek. apply (rp_heads _ _ _ Hr). by eauto.
  - pose proof (after_replaced r _ _ _ Hr) as Ha. destruct (decide (p = r)) as [->|Hne].
    + intros Hc _. right. destruct (Hp (af_free _ _ _ Ha Hc)) as (a & a' & _ & Ha' & _). by exists (Some a').
    + destruct (head_key r) as [key'|e'] eqn:Ek'; [|intros _ Hv; by rewrite Ek' in Hv].
      destruct (decide (key_value key' = key_value key)) as [E|Hdiff].
      * intros Hc _. left. destruct (Hp (af_free _ _ _ Ha Hc)) as (a & a' & _ & (h & es & os & xs & Hi & W & _) & _).
        exact (head_foreign _ _ _ _ _ _ Ek Ek' E Hi (wf_bound _ _ _ _ _ _ W) Hne).
      * eapply world_same; [done| |done]. intros k' Ek''. rewrite Ek' in Ek''. injection Ek'' as <-. by apply (rp_heads _ _ _ Hr).
Qed.

(** [acts Q b b']: every event of the run satisfies [Q]. *)
Definition acts (Q : consistencyDomainRef → event → Prop) (b b' : B) : Prop :=
  ∃ tr, spans b tr b' ∧ Forall (λ re, Q (fst re) (snd re)) tr.

Lemma acts_le Q b b' : blob_le b b' → acts Q b b'.
Proof. intros Hle. exists []. split; [by apply spans_le|constructor]. Qed.

Lemma acts_happen Q b b' : acts Q b b' → collision_free b' → ∃ tr, happen b tr b' ∧ Forall (λ re, Q (fst re) (snd re)) tr.
Proof. intros (tr & Hs & HQ) Hc. exists tr. split; [by apply spans_happen|done]. Qed.

Lemma acts_refl Q b : acts Q b b.
Proof. apply acts_le. reflexivity. Qed.

Lemma acts_trans Q b b1 b2 : acts Q b b1 → acts Q b1 b2 → acts Q b b2.
Proof. intros (tr & Hs & HQ) (tr' & Hs' & HQ'). exists (tr ++ tr'). split; [by eapply spans_trans|by apply Forall_app]. Qed.

Lemma acts_mono (Q Q' : consistencyDomainRef → event → Prop) b b' : (∀ r e, Q r e → Q' r e) → acts Q b b' → acts Q' b b'.
Proof. intros HQ (tr & Hs & Ha). exists tr. split; [done|]. eapply list.Forall_impl; [exact Ha|]. intros [r e]. apply HQ. Qed.

Lemma acts_ok Q b b' : acts Q b b' → all_ok b → all_ok b'.
Proof. intros (tr & Hs & _). by eapply spans_ok. Qed.

Lemma acts_after Q r b b' : acts Q b b' → after r b b'.
Proof. intros (tr & Hs & _). by eapply spans_after. Qed.

Lemma keeps_acts (P : event → Prop) (Q : consistencyDomainRef → event → Prop) r b b' :
  (∀ e, P e → Q r e) → keeps r P b b' → acts Q b b'.
Proof.
  intros HPQ (tr & Hev & HP). exists (map (pair r) tr). split; [by apply evolves_spans|]. apply Forall_map.
  eapply list.Forall_impl; [exact HP|]. exact HPQ.
Qed.

(** Replacing an object that is no head. *)
Lemma acts_replaced Q k b b' : replaced k b b' → headless k → acts Q b b'.
Proof. intros Hr Hk. exists []. split; [|constructor]. eapply spans_other; [done..|constructor]. Qed.
End Spans.
End EngineSpec.
