(* ===== verification/TransitionTheory.v ===== *)
(** * Transitions follow their protocol

    Every event that running a transition causes, in whatever domain, is
    housekeeping, the placement of a lock, or the finalization of a participant as
    a stored decision says. *)

From Stdlib Require Import ZArith Lia.
From S2P Require Import Prelude GoLib GoHash GoJSON GoTime Errors StateStore ObjectStore ObjectTheory DomainPage DomainTree TreeTheory DomainPack DomainHead TransitionFormat DomainSession TreeStream DomainProvider DomainCatalog StateRoute DomainStore EngineTransition HeadTheory SessionLaws PackTheory SessionReader StoreLaws StoreRead StoreSpec StoreCommit StoreCatalog StoreMutate EngineSpec.

Open Scope Z_scope.

Module TransitionTheory.
Import ObjectStore StorageFormat DomainTree TreeTheory DomainPack DomainHead TransitionFormat HeadTheory DomainSession DomainProvider DomainCatalog DomainStore EngineTransition SessionLaws SessionReader StoreLaws StoreRead StoreSpec StoreCommit StoreMutate EngineSpec.

Section Engine.
Context `{SHA256} `{!SHA256Laws} `{GZIP} `{!GZIPLaws} {B : Type} `{!Engine B, !ProviderView B, !EngineLaws B}.
Variable fuel : nat.

Abbreviation acts := (acts (B := B)).

(** Other processes keep every head well formed. *)
Hypothesis rivals : ∀ r (b b' : B), blob_le b b' → world_ok r b → world_ok r b'.

Lemma attempt_inv {A} (m : GoM B error A) b y b' : attempt m b = (y, b') → ∃ x, m b = (x, b') ∧ y = Ok x.
Proof. unfold attempt. destruct (m b) as [x b1]. intros [= <- <-]. by exists x. Qed.

(** ** The protocol *)

(** [d] is or was the stored decision of the plan. *)
Definition decided (b : B) (plan : TransitionPlan009) (d : TransitionDecision009) : Prop :=
  Decision_TransitionID d = Plan_TransitionID plan ∧ Decision_Fingerprint d = Plan_Fingerprint plan ∧
  is_Ok (ValidateTransitionDecision009 d) = true ∧
  ∃ key v body env, TransitionDecisionKey (Plan_TransitionID plan) = Ok key ∧ history b !! (key_value key, v) = Some body ∧
    DecodeEnvelope body key transitionDecisionSchema009 = Ok (env, d).

Definition locks (r : consistencyDomainRef) (m : consistencyDomainMutation) : Prop :=
  ∃ plan lockBody, encode_document (transition_lock plan r) = Ok lockBody ∧ m = prepare_mutation plan lockBody.

Definition finalizes (b : B) (r : consistencyDomainRef) (m : consistencyDomainMutation) : Prop :=
  ∃ plan participant d version, participant ∈ Plan_Participants plan ∧ transitionReference009 participant = r ∧ decided b plan d ∧
    m = finalize_mutation plan participant (Decision_Committed d) version.

Definition protocol (b : B) (r : consistencyDomainRef) (e : event) : Prop :=
  housekeeping e ∨ ∃ m, (locks r m ∨ finalizes b r m) ∧ executes m e.

Definition history_grows (b b' : B) : Prop := history b ⊆ history b'.

Lemma decided_mono b b' plan d : history b ⊆ history b' → decided b plan d → decided b' plan d.
Proof.
  intros Hh (Hi & Hf & Hv & key & v & body & env & Hk & Hb & Hd). split; [done|]. split; [done|]. split; [done|].
  exists key, v, body, env. split; [done|]. split; [by eapply lookup_weaken|done].
Qed.

Lemma protocol_mono b b' r e : history b ⊆ history b' → protocol b r e → protocol b' r e.
Proof.
  intros Hh [?|(m & Hm & He)]; [by left|right]. exists m. split; [|done]. destruct Hm as [?|(plan & p & d & v & ? & ? & Hd & ?)]; [by left|right].
  exists plan, p, d, v. split; [done|]. split; [done|]. split; [by eapply decided_mono|done].
Qed.

(** The run of a computation that follows the protocol. *)
Definition obeys (b b' : B) : Prop := acts (protocol b') b b'.

Lemma acts_history Q b b' : acts Q b b' → history b ⊆ history b'.
Proof. intros Ha. exact (af_history _ _ _ (acts_after Q {| Ref_Kind := []; Ref_ID := [] |} _ _ Ha)). Qed.

Lemma obeys_le b b' : blob_le b b' → obeys b b'.
Proof. apply acts_le. Qed.

Lemma obeys_refl b : obeys b b.
Proof. apply acts_refl. Qed.

Lemma obeys_trans b b1 b2 : obeys b b1 → obeys b1 b2 → obeys b b2.
Proof.
  intros Ha Hb. eapply acts_trans; [|exact Hb]. eapply acts_mono; [|exact Ha]. intros r e. apply protocol_mono. by eapply acts_history.
Qed.

Lemma obeys_ok b b' : obeys b b' → all_ok b → all_ok b'.
Proof. by apply acts_ok. Qed.

(** ** Mutations *)

Lemma snapshot_acts Q r b b' sn : acts Q b b' → snapshot_ok r b sn → snapshot_ok r b' sn.
Proof. intros Ha. apply snapshot_ok_after. by eapply acts_after. Qed.

Lemma mutate_obeys r m sn b x b' :
  all_ok b → snapshot_ok r b sn → (∀ b0, history b ⊆ history b0 → locks r m ∨ finalizes b0 r m) →
  mutateAtHead r fuel m (Some sn) b = (x, b') →
  obeys b b' ∧ ∀ o, x = Ok o → ∃ m' f, intends m m' f ∧ concludes r m' f b b' o.
Proof.
  intros Hw Hsn Hm E. destruct (mutate_ok r (rivals r) fuel m (Some sn) b x b' (Hw r) ltac:(by intros ? [= <-]) E) as [K Hc]. split; [|done].
  eapply keeps_acts; [|exact K]. intros e He. right. exists m. split; [|done]. apply Hm. by eapply af_history, (keeps_after r).
Qed.

(** ** Decisions *)

Lemma put_acts Q k body c b x b' :
  mutable_key k → headless (key_value k) → obj_put k body c b = (x, b') → acts Q b b'.
Proof.
  intros Hm Hh E. destruct (put_sound _ _ _ _ _ _ Hm E) as (b1 & Hle & [[_ ->]|(v & _ & _ & Hheads & Hc & Hhi & Hla & Hof)]); [by apply acts_le|].
  eapply acts_trans; [by apply acts_le|]. eapply acts_replaced; [|exact Hh]. split; [|done..]. intros k' Hne. by rewrite Hheads, lookup_insert_ne.
Qed.

Lemma read_decision_ok plan b x b' :
  readTransitionDecision009 plan b = (x, b') → blob_le b b' ∧ ∀ d, x = Ok (Some d) → decided b' plan d.
Proof.
  unfold readTransitionDecision009. intros E. pure_step E.
  destruct (TransitionDecisionKey _) as [key|e] eqn:Ek; [|destruct E as [-> ->]; split; [reflexivity|done]].
  apply gom_bind_inv in E as (y & b1 & E1 & E). unfold attempt in E1. destruct (obj_get key b) as [o b2] eqn:Eg. injection E1 as <- <-.
  destruct (get_sound _ _ _ _ (decision_key_mutable _ _ Ek) Eg) as [Hle Ho]. destruct o as [o|e].
  - destruct (DecodeEnvelope _ _ _) as [[env d]|e] eqn:Ed; [|injection E as <- <-; by split].
    pure_step E. destruct (_ || _ || _) eqn:Ec; cbn [guard_err] in E; [destruct E as [-> ->]; by split|]. apply mret_inv in E as [-> ->].
    split; [done|]. intros d' [= <-]. rewrite !orb_false_iff, negb_false_iff, !bool_decide_eq_false in Ec. destruct Ec as [[Hv Hi%dec_stable] Hf%dec_stable].
    split; [done|]. split; [done|]. split; [done|]. exists key, (Object_Version o), (Object_Body o), env. split; [done|]. split; [by apply heads_history|done].
  - destruct (errors_Is e ErrNotFound); [apply mret_inv in E as [-> ->]|injection E as <- <-]; by split.
Qed.

Lemma settled_ok plan d b x b' : settled plan d b = (x, b') → blob_le b b' ∧ ∀ d', x = Ok d' → decided b' plan d'.
Proof.
  unfold settled. intros E. apply gom_bind_inv in E as (y & b1 & E1 & E). destruct (read_decision_ok _ _ _ _ E1) as [Hle Hd].
  destruct y as [[d0|]|e]; [| |destruct E as [-> ->]; by split].
  - pure_step E. destruct (guard_err _ _); [|destruct E as [-> ->]; by split]. apply mret_inv in E as [-> ->].
    split; [done|]. intros ? [= <-]. by apply Hd.
  - injection E as <- <-. by split.
Qed.

Lemma decide_ok plan failure b x b' :
  decideTransition009 plan failure b = (x, b') → obeys b b' ∧ ∀ d, x = Ok d → decided b' plan d.
Proof.
  unfold decideTransition009. intros E. apply gom_bind_inv in E as (t & b1 & E1%quietly_now & E). apply obeys_le in E1.
  destruct t as [t|e]; [|destruct E as [-> ->]; by split]. cbn zeta in E.
  pure_step E. destruct (ValidateTransitionDecision009 _); [|destruct E as [-> ->]; by split].
  pure_step E. destruct (TransitionDecisionKey _) as [key|e] eqn:Ek; [|destruct E as [-> ->]; by split].
  pure_step E. destruct (EncodeEnvelope _ _ _ _) as [body|e]; [|destruct E as [-> ->]; by split].
  apply gom_bind_inv in E as (y & b2 & E2%quietly_step & E). apply obeys_le in E2. pose proof (obeys_trans _ _ _ E1 E2) as K2.
  destruct y; [|destruct E as [-> ->]; by split].
  apply gom_bind_inv in E as (w & b3 & E3 & E). unfold attempt in E3.
  destruct ((_ ← obj_put key body create_only; sched_step StepTransitionAfterDecision) b2) as [w' b3'] eqn:Ep. injection E3 as <- <-.
  assert (obeys b2 b3') as K3.
  { apply gom_bind_inv in Ep as (v & b4 & E4%(put_acts (protocol b4)) & Ep); [|by eapply decision_key_mutable|by eapply decision_headless].
    destruct v; [|by destruct Ep as [_ ->]]. apply quietly_step, obeys_le in Ep. by eapply obeys_trans. }
  pose proof (obeys_trans _ _ _ K2 K3) as K.
  assert (∀ d, settled plan d b3' = (x, b') → obeys b b' ∧ ∀ d, x = Ok d → decided b' plan d) as Hset.
  { intros d [Hle Hd]%settled_ok. split; [|done]. eapply obeys_trans; [exact K|by apply obeys_le]. }
  destruct w' as [u|e]; [by eapply Hset|]. destruct (lost_race e); [by eapply Hset|].
  apply gom_bind_inv in E as (z & b4 & E4 & E). unfold attempt in E4. destruct (readTransitionDecision009 plan b3') as [z' b5] eqn:Er. injection E4 as <- <-.
  destruct (read_decision_ok _ _ _ _ Er) as [Hle Hd]. apply obeys_le in Hle. pose proof (obeys_trans _ _ _ K Hle) as K5.
  destruct z' as [[d|]|e']; [apply mret_inv in E as [-> ->]; split; [done|]; intros ? [= <-]; by apply Hd|injection E as <- <-; by split..].
Qed.

(** ** Recorded outcomes *)

(** A head of the domain records, or recorded, an outcome of the mutation ID. *)
Definition notes (r : consistencyDomainRef) (b : B) (id : gostring) : Prop :=
  ∃ h es os xs o, was_head r b h ∧ head_wf r b h es os xs ∧ o ∈ recorded h os id.

Lemma was_head_mono r b b' h : history b ⊆ history b' → was_head r b h → was_head r b' h.
Proof.
  intros Hh (key & v & body & env & Hk & Hb & Hd). exists key, v, body, env. split; [done|]. split; [by eapply lookup_weaken|done].
Qed.

Lemma notes_after r b b' id : after r b b' → notes r b id → notes r b' id.
Proof.
  intros Ha (h & es & os & xs & o & Hh & W & Ho). exists h, es, os, xs, o. split; [by eapply was_head_mono; [apply Ha|]|].
  split; [by eapply head_wf_after|done].
Qed.

Lemma notes_acts Q r b b' id : acts Q b b' → notes r b id → notes r b' id.
Proof. intros Ha. apply notes_after. by eapply acts_after. Qed.

Lemma at_head_notes r b a id o : at_head r b (Some a) → o ∈ outcomes a id → notes r b id.
Proof.
  intros (h & es & os & xs & (key & body & v & env & Ek & Eh & Ed) & W & ->) Ho. exists h, es, os, xs, o. split; [|done].
  exists key, v, body, env. split; [done|]. split; [by apply heads_history|done].
Qed.

Lemma commit_records m f rv t a a' :
  domain_step (Committed m f rv t) a a' → delta_outcome (mutation_delta m f rv) ∈ outcomes a' (ID m).
Proof. inversion 1; subst. match goal with Ho : ∀ id, outcomes a' id = _ |- _ => rewrite Ho, bool_decide_eq_true_2 by done end. by left. Qed.

Lemma concludes_notes r m f b b' o : concludes r m f b b' o → collision_free b' → notes r b' (ID m).
Proof.
  intros [[_ Hx]|(b1 & rv & t & _ & Hev & _)] Hc.
  - destruct (Hx Hc) as (h & es & os & xs & Hh & W & o' & Ho & _). by exists h, es, os, xs, o'.
  - destruct (evolves_one _ _ _ _ Hev) as (k & b2 & b3 & _ & Hev' & Hr & Hp). apply evolves_after in Hev'. eapply notes_after; [exact Hev'|].
    destruct Hp as (a & a' & _ & Ha' & Hst & _); [by apply (after_replaced r _ _ _ Hr), Hev'|].
    eapply at_head_notes; [exact Ha'|by eapply commit_records].
Qed.

Lemma intends_ID m m' f : intends m m' f → ID m' = ID m.
Proof. intros (until & E & _). by destruct (normalize_Ok _ _ _ E) as (-> & _). Qed.

Lemma snapshot_notes r b sn id x b' o :
  snapshot_ok r b sn → exists_ sn = true → lookupOutcomeAtHead r (head sn) id b = (x, b') → x = Ok (Some o) →
  blob_le b b' ∧ (collision_free b' → notes r b' id).
Proof.
  intros Hsn Hex (s & E & <-)%fresh_inv ->. destruct (outcome_sound r (head sn) [] _ _ _ _ E) as [Hle _]. split; [done|]. intros Hc.
  unfold StoreCommit.snapshot_ok in Hsn. rewrite Hex in Hsn. destruct Hsn as (key & Hk & Hh & Hd & Hwf). cbn [backend newSession] in Hle.
  destruct (Hwf (collision_free_le _ _ Hle Hc)) as (es & os & xs & W).
  destruct (proj2 (outcome_sound r (head sn) os _ _ _ _ E) Hc (wf_outcomes _ _ _ _ _ _ W)) as [_ Ho]. destruct (Ho o eq_refl) as (o' & Ho' & _).
  eapply notes_after; [by apply after_le|]. exists (head sn), es, os, xs, o'. split; [|done].
  by exists key, (Object_Version (object sn)), (Object_Body (object sn)), (envelope sn).
Qed.

Lemma quietly_outcome r h id : quietly (lookupOutcomeAtHead (B := B) r h id).
Proof. intros b x b' (s & E & <-)%fresh_inv. by destruct (outcome_sound r h [] _ _ _ _ E). Qed.

Lemma quietly_lock r h : quietly (transitionLockAtHead009 (B := B) r h).
Proof. intros b x b' E. by apply lock_free in E as [? _]. Qed.

(** ** Finalization *)

(** Nothing of a transition is pending. *)
Definition idle (a : option Domain) : Prop :=
  match a with Some a => registered a = false ∨ values a !! transitionLockKey009 = None | None => True end.

(** Between [b] and [b'] the participant was finalized, or was found to be. *)
Definition finalized (r : consistencyDomainRef) (plan : TransitionPlan009) (committed : bool) (b b' : B) : Prop :=
  collision_free b' →
  if committed then notes r b' (Plan_TransitionID plan) ∨ Plan_RetainUntil plan ≤ latest b'
  else notes r b' ("transition-abort:" ++ Digest (Plan_TransitionID plan)) ∨
       ∃ b1 a, obeys b b1 ∧ obeys b1 b' ∧ at_head r b1 a ∧ idle a.

Lemma acts_latest Q b b' : acts Q b b' → latest b ≤ latest b'.
Proof. intros Ha. exact (af_latest _ _ _ (acts_after Q {| Ref_Kind := []; Ref_ID := [] |} _ _ Ha)). Qed.

Lemma finalized_within r plan c b b1 b2 b' : obeys b b1 → obeys b2 b' → finalized r plan c b1 b2 → finalized r plan c b b'.
Proof.
  intros Ho Ho' Hf Hc. specialize (Hf (af_free _ _ _ (acts_after _ r _ _ Ho') Hc)). destruct c.
  - destruct Hf as [Hf|Hf]; [left; by eapply notes_acts|right]. apply acts_latest in Ho'. lia.
  - destruct Hf as [Hf|(b3 & a & H3 & H4 & Ha)]; [left; by eapply notes_acts|right]. exists b3, a.
    split; [by eapply obeys_trans|]. split; [by eapply obeys_trans|done].
Qed.

Lemma obeys_then b b1 b' : obeys b b1 → blob_le b1 b' → obeys b b'.
Proof. intros Ha Hle. eapply obeys_trans; [done|by apply obeys_le]. Qed.

Lemma load_obeys r b x b' :
  all_ok b → loadHead r b = (x, b') →
  obeys b b' ∧ all_ok b' ∧ ∀ sn, x = Ok sn → snapshot_ok r b' sn ∧
    (collision_free b' → if exists_ sn then ∃ es os xs, head_wf r b' (head sn) es os xs ∧ at_head r b' (Some (domain_of (head sn) es os))
                 else at_head r b' None).
Proof.
  intros Hw E. destruct (load_at_head r (rivals r) _ _ _ (Hw r) E) as [Hle Hsn]. apply obeys_le in Hle. split; [done|]. split; [by eapply obeys_ok|done].
Qed.

(** An aborted participant that shows no lock. *)
Lemma idle_finalized r plan sn b b1 b' :
  obeys b b1 → blob_le b1 b' →
  (collision_free b1 → if exists_ sn then ∃ es os xs, head_wf r b1 (head sn) es os xs ∧ at_head r b1 (Some (domain_of (head sn) es os))
               else at_head r b1 None) →
  (exists_ sn = true → Head_Registered (head sn) = true →
   collision_free b' → ∀ es os xs, head_wf r b1 (head sn) es os xs → contents (head sn) es !! transitionLockKey009 = None) →
  finalized r plan false b b'.
Proof.
  intros Ho Hle Hat Hl Hc. right. exists b1. specialize (Hat (collision_free_le _ _ Hle Hc)). destruct (exists_ sn).
  - destruct Hat as (es & os & xs & W & Ha). exists (Some (domain_of (head sn) es os)). split; [done|]. split; [by apply obeys_le|]. split; [done|].
    cbn. destruct (Head_Registered (head sn)); [right; by eapply Hl|by left].
  - exists None. split; [done|]. split; [by apply obeys_le|done].
Qed.

Lemma finalize_mutation_obeys plan p d version sn b x b' :
  let r := transitionReference009 p in
  all_ok b → snapshot_ok r b sn → p ∈ Plan_Participants plan → decided b plan d →
  mutateAtHead r fuel (finalize_mutation plan p (Decision_Committed d) version) (Some sn) b = (x, b') →
  obeys b b' ∧ ∀ o, x = Ok o → finalized r plan (Decision_Committed d) b b'.
Proof.
  intros r Hw Hsn Hp Hd E. eapply mutate_obeys in E as [K Hx]; [|done|exact Hsn|].
  2:{ intros b0 Hh. right. exists plan, p, d, version. split; [done|]. split; [done|]. split; [by eapply decided_mono|done]. }
  split; [done|]. intros o Ho Hc. destruct (Hx o Ho) as (m' & f & Hi & Hcl). apply intends_ID in Hi. apply concludes_notes in Hcl; [|done].
  rewrite Hi in Hcl. cbn [ID finalize_mutation] in Hcl. destruct (Decision_Committed d); by left.
Qed.

Lemma finalize_ok n plan p d b x b' :
  all_ok b → p ∈ Plan_Participants plan → decided b plan d → finalize_attempts fuel n plan p d b = (x, b') →
  obeys b b' ∧ ∀ u, x = Ok u → finalized (transitionReference009 p) plan (Decision_Committed d) b b'.
Proof.
  revert b. induction n as [|n IH]; intros b Hw Hp Hd E; cbn [finalize_attempts] in E.
  { injection E as <- <-. split; [apply obeys_refl|done]. }
  apply gom_bind_inv in E as (y & b1 & E1 & E). destruct (load_obeys _ _ _ _ Hw E1) as (K1 & W1 & Hsn).
  destruct y as [sn|e]; [|destruct E as [-> ->]; by split]. destruct (Hsn sn eq_refl) as [Hok Hat]. set (r := transitionReference009 p) in *.
  destruct (negb (exists_ sn) || negb (Head_Registered (head sn))) eqn:El.
  { apply lift_inv in E as [-> ->]. split; [done|]. intros u Hu. destruct (Decision_Committed d); [done|].
    eapply idle_finalized; [done|reflexivity|exact Hat|]. intros Hex Hr. rewrite Hex, Hr in El. done. }
  apply orb_false_iff in El as [Hex%negb_false_iff Hreg%negb_false_iff].
  apply gom_bind_inv in E as (y & b2 & E2 & E).
  assert (blob_le b1 b2) as Hle2.
  { destruct (Decision_Committed d); [by eapply quietly_outcome|by apply mret_inv in E2 as [_ ->]]. }
  pose proof (obeys_then _ _ _ K1 Hle2) as K2. destruct y as [[o|]|e]; [| |destruct E as [-> ->]; by split].
  { apply lift_inv in E as [-> ->]. split; [done|]. intros u _ Hc. destruct (Decision_Committed d); [|by apply mret_inv in E2 as [? _]].
    left. by eapply snapshot_notes; [exact Hok|exact Hex|exact E2|reflexivity|]. }
  apply gom_bind_inv in E as (y & b3 & E3 & E). destruct (lock_free r _ _ _ _ E3) as [Hle3 Hfree].
  pose proof (obeys_then _ _ _ K2 Hle3) as K3. destruct y as [[[lock v]|]|e]; [| |destruct E as [-> ->]; by split].
  2:{ destruct (Decision_Committed d) eqn:Ec.
      - apply gom_bind_inv in E as (t & b4 & E4 & E). pose proof (quietly_now _ _ _ E4) as Hle4. pose proof (obeys_then _ _ _ K3 Hle4) as K4.
        destruct t as [t|e]; [|destruct E as [-> ->]; by split]. apply lift_inv in E as [-> ->]. split; [done|]. intros u Hu%guard_err_Ok Hc. right.
        apply Z.ltb_ge in Hu. unfold Now in E4. destruct (clock_now b3) as [t' b5] eqn:Et. injection E4 as <- <-. apply clock_sound in Et as [_ ?]. lia.
      - apply mret_inv in E as [-> ->]. split; [done|]. intros u _. eapply (idle_finalized r plan sn b b1); [exact K1|by etrans|exact Hat|].
        intros _ _ Hc es os xs W. eapply (Hfree eq_refl Hc). by eapply head_wf_after; [apply after_le|]. }
  pure_step E. destruct (_ || _); cbn [guard_err] in E; [destruct E as [-> ->]; by split|].
  apply gom_bind_inv in E as (y & b5 & (w & Em & ->)%attempt_inv & E).
  pose proof (obeys_ok _ _ K3 Hw) as W3. assert (decided b3 plan d) as Hd3 by (eapply decided_mono; [exact (acts_history _ _ _ K3)|done]).
  assert (snapshot_ok r b3 sn) as Hok3 by (eapply snapshot_acts; [exact (acts_le (λ _ _, True) _ _ (transitivity Hle2 Hle3))|exact Hok]).
  destruct (finalize_mutation_obeys _ _ _ _ _ _ _ _ W3 Hok3 Hp Hd3 Em) as [K5 Hf]. pose proof (obeys_trans _ _ _ K3 K5) as K.
  destruct w as [o|e].
  - pose proof (quietly_step _ _ _ _ E) as Hle. split; [by eapply obeys_then|]. intros u _. eapply finalized_within; [exact K3|by apply obeys_le|by eapply Hf].
  - destruct (lost_race e || _); [|injection E as <- <-; by split].
    destruct (IH b5) as [K6 Hf6]; [by eapply obeys_ok|done|eapply decided_mono; [exact (acts_history _ _ _ K)|exact Hd]|done|].
    split; [by eapply obeys_trans|]. intros u Hu. eapply finalized_within; [exact K|apply obeys_refl|by eapply Hf6].
Qed.

Lemma finalize_each plan d ps b x b' :
  all_ok b → (∀ p, p ∈ ps → p ∈ Plan_Participants plan) → decided b plan d →
  forM_ ps (λ p, finalizeTransitionParticipant009 fuel plan p d) b = (x, b') →
  obeys b b' ∧ ∀ u, x = Ok u → ∀ p, p ∈ ps → finalized (transitionReference009 p) plan (Decision_Committed d) b b'.
Proof.
  revert b. induction ps as [|p ps IH]; intros b Hw Hps Hd E; cbn [forM_] in E.
  { apply mret_inv in E as [-> ->]. split; [apply obeys_refl|]. by intros u _ p ?%not_elem_of_nil. }
  apply gom_bind_inv in E as (y & b1 & E1 & E). destruct (finalize_ok _ _ _ _ _ _ _ Hw (Hps p ltac:(by left)) Hd E1) as [K1 Hf].
  destruct y as [u|e]; [|destruct E as [-> ->]; by split].
  destruct (IH b1) as [K2 Hf2]; [by eapply obeys_ok|intros; apply Hps; by right|exact (decided_mono _ _ _ _ (acts_history _ _ _ K1) Hd)|done|].
  split; [by eapply obeys_trans|]. intros u' Hu' p' [->|Hp']%elem_of_cons.
  - eapply finalized_within; [apply obeys_refl|exact K2|by eapply Hf].
  - eapply finalized_within; [exact K1|apply obeys_refl|by eapply Hf2].
Qed.

(** ** Preparation *)

(** The participant carried, or recorded, the lock of the plan. *)
Definition prepared (r : consistencyDomainRef) (plan : TransitionPlan009) (b : B) : Prop :=
  collision_free b →
  notes r b ("transition-prepare:" ++ Digest (Plan_TransitionID plan)) ∨
  ∃ h es os xs lock, was_head r b h ∧ head_wf r b h es os xs ∧ locked_by (contents h es) lock ∧
    Lock_TransitionID lock = Plan_TransitionID plan ∧ Lock_Fingerprint lock = Plan_Fingerprint plan.

Lemma prepared_acts Q r plan b b' : acts Q b b' → prepared r plan b → prepared r plan b'.
Proof.
  intros Ha Hp Hc. pose proof (acts_after _ r _ _ Ha) as Haf. destruct (Hp (af_free _ _ _ Haf Hc)) as [Hn|(h & es & os & xs & lock & Hh & W & Hl)].
  - left. by eapply notes_after.
  - right. exists h, es, os, xs, lock. split; [by eapply was_head_mono; [apply Haf|]|]. split; [by eapply head_wf_after|done].
Qed.

Lemma snapshot_prepared r plan sn b lock v b' :
  snapshot_ok r b sn → exists_ sn = true → transitionLockAtHead009 r (head sn) b = (Ok (Some (lock, v)), b') →
  Lock_TransitionID lock = Plan_TransitionID plan → Lock_Fingerprint lock = Plan_Fingerprint plan → prepared r plan b'.
Proof.
  intros Hsn Hex E Hid Hfp Hc. apply fresh_inv in E as (s & E & <-). destruct (lock_sound r (head sn) [] _ _ _ E) as [Hle _]. cbn [backend newSession] in Hle.
  pose proof (snapshot_ok_after r _ _ _ (after_le r _ _ Hle) Hsn) as Hsn'. unfold StoreCommit.snapshot_ok in Hsn, Hsn'. rewrite Hex in Hsn, Hsn'.
  destruct Hsn as (key & Hk & _ & _ & Hwf). destruct (Hwf (collision_free_le _ _ Hle Hc)) as (es & os & xs & W).
  destruct Hsn' as (key' & Hk' & Hh & Hd & _). right. exists (head sn), es, os, xs, lock.
  split; [by exists key', (Object_Version (object sn)), (Object_Body (object sn)), (envelope sn)|].
  split; [by eapply head_wf_after; [apply after_le|]|]. split; [|done].
  eapply (proj2 (lock_sound r (head sn) es _ _ _ E) Hc (wf_deltas _ _ _ _ _ _ W) (wf_base _ _ _ _ _ _ W)). reflexivity.
Qed.

Section Prepare.
Variable help : gostring → GoM B error unit.
Hypothesis help_ok : ∀ id b x b', all_ok b → help id b = (x, b') → obeys b b'.

Lemma prepare_attempts_ok n plan p b x b' :
  all_ok b → prepare_attempts fuel help n plan p b = (x, b') →
  obeys b b' ∧ ∀ u, x = Ok u → prepared (transitionReference009 p) plan b'.
Proof.
  revert b. induction n as [|n IH]; intros b Hw E; cbn [prepare_attempts] in E.
  { injection E as <- <-. split; [apply obeys_refl|done]. }
  apply gom_bind_inv in E as (y & b1 & E1 & E). destruct (load_obeys _ _ _ _ Hw E1) as (K1 & W1 & Hsn).
  destruct y as [sn|e]; [|destruct E as [-> ->]; by split]. destruct (Hsn sn eq_refl) as [Hok _]. set (r := transitionReference009 p) in *.
  pure_step E. destruct (_ && Head_Frozen _); cbn [guard_err] in E; [destruct E as [-> ->]; by split|].
  apply gom_bind_inv in E as (y & b2 & E2 & E).
  assert (blob_le b1 b2) as Hle2.
  { destruct (_ && _); [by eapply quietly_lock|by apply mret_inv in E2 as [_ ->]]. }
  pose proof (obeys_then _ _ _ K1 Hle2) as K2. destruct y as [[[lock v]|]|e]; [| |destruct E as [-> ->]; by split].
  - destruct (exists_ sn && Head_Registered (head sn)) eqn:Elive; [|by apply mret_inv in E2 as [? _]]. apply andb_true_iff in Elive as [Hex _].
    destruct (_ && _) eqn:El.
    + apply mret_inv in E as [-> ->]. split; [done|]. intros u _. apply andb_true_iff in El as [?%bool_decide_eq_true ?%bool_decide_eq_true].
      by eapply snapshot_prepared.
    + apply gom_bind_inv in E as (y & b3 & E3 & E). pose proof (obeys_trans _ _ _ K2 (help_ok _ _ _ _ (obeys_ok _ _ K2 Hw) E3)) as K3.
      destruct y; [|destruct E as [-> ->]; by split]. destruct (IH b3) as [K4 Hp4]; [by eapply obeys_ok|done|]. split; [by eapply obeys_trans|done].
  - apply gom_bind_inv in E as (y & b3 & (s3 & E3%unowned_inv%(quietly_validate r) & <-)%fresh_inv & E). cbn [backend newSession] in E3. set (b3 := backend s3) in *.
    pose proof (obeys_then _ _ _ K2 E3) as K3. destruct y as [u|e]; [|destruct E as [-> ->]; by split].
    pure_step E. destruct (encode_document _) as [body|e] eqn:Eb; [|destruct E as [-> ->]; by split].
    apply gom_bind_inv in E as (y & b5 & (w & Em & ->)%attempt_inv & E).
    assert (snapshot_ok r b3 sn) as Hok3 by (eapply snapshot_acts; [exact (acts_le (λ _ _, True) _ _ (transitivity Hle2 E3))|exact Hok]).
    pose proof (obeys_ok _ _ K3 Hw) as W3. eapply mutate_obeys in Em as [K5 Hx]; [|exact W3|exact Hok3|].
    2:{ intros b0 _. left. by exists plan, body. }
    pose proof (obeys_trans _ _ _ K3 K5) as K. destruct w as [o|e].
    + pose proof (quietly_step _ _ _ _ E) as Hle. split; [by eapply obeys_then|]. intros u' _. eapply prepared_acts; [exact (acts_le (λ _ _, True) _ _ Hle)|].
      intros Hc. left. destruct (Hx o eq_refl) as (m' & f & Hi%intends_ID & Hcl%concludes_notes); [|done]. by rewrite Hi in Hcl.
    + destruct (lost_race e); [|injection E as <- <-; by split]. destruct (IH b5) as [K6 Hp]; [by eapply obeys_ok|done|].
      split; [by eapply obeys_trans|done].
Qed.

Lemma prepare_participant_ok plan p b x b' :
  all_ok b → prepareTransitionParticipant009 fuel help plan p b = (x, b') →
  obeys b b' ∧ ∀ u, x = Ok u → prepared (transitionReference009 p) plan b'.
Proof. unfold prepareTransitionParticipant009. apply prepare_attempts_ok. Qed.

#[local] Opaque prepareTransitionParticipant009.

Lemma prepare_all_ok plan ps b x b' :
  all_ok b → prepare_all fuel help plan ps b = (x, b') →
  obeys b b' ∧ (x = Ok None → ∀ p, p ∈ ps → prepared (transitionReference009 p) plan b').
Proof.
  revert b. induction ps as [|p ps IH]; intros b Hw E; cbn [prepare_all] in E.
  { apply mret_inv in E as [-> ->]. split; [apply obeys_refl|]. by intros _ p ?%not_elem_of_nil. }
  apply gom_bind_inv in E as (y & b2 & (w & Ep & ->)%attempt_inv & E).
  destruct (prepare_participant_ok _ _ _ _ _ Hw Ep) as [K1 Hp]. destruct w as [u|e].
  - destruct (IH b2) as [K2 Hps]; [by eapply obeys_ok|done|]. split; [by eapply obeys_trans|]. intros Hx p' [->|Hp']%elem_of_cons; [|by apply Hps].
    eapply prepared_acts; [exact K2|by eapply Hp].
  - destruct (deterministicTransitionFailure009 e); [apply mret_inv in E as [-> ->]|injection E as <- <-]; by split.
Qed.
End Prepare.

(** ** Running a transition *)

Lemma read_plan_quiet id : quietly (readTransitionPlan009 (B := B) id).
Proof.
  intros b x b'. unfold readTransitionPlan009. intros E. pure_step E. destruct (TransitionPlanKey id) as [key|e] eqn:Ek; [|by destruct E as [_ ->]].
  apply gom_bind_inv in E as (y & b1 & E1 & E). pose proof (quietly_get _ (plan_key_mutable _ _ Ek) _ _ _ E1) as Hle. destruct y as [o|e]; [|by destruct E as [_ ->]].
  destruct (decodeTransitionPlanObject009 o); [|by injection E as _ <-]. pure_step E. destruct (guard_err _ _); [by apply mret_inv in E as [_ ->]|by destruct E as [_ ->]].
Qed.

(** The transition was decided, and every participant finalized accordingly. *)
Definition carried_out (plan : TransitionPlan009) (d : TransitionDecision009) (b b' : B) : Prop :=
  decided b' plan d ∧ ∀ p, p ∈ Plan_Participants plan → finalized (transitionReference009 p) plan (Decision_Committed d) b b'.

Lemma finish_ok plan d b b1 x b' :
  obeys b b1 → all_ok b1 → decided b1 plan d → (_ ← finalize_all fuel plan d; mret d) b1 = (x, b') →
  obeys b b' ∧ ∀ d', x = Ok d' → carried_out plan d' b b'.
Proof.
  intros K1 Hw Hd E. apply gom_bind_inv in E as (y & b2 & E2 & E). destruct (finalize_each plan d (Plan_Participants plan) _ _ _ Hw ltac:(done) Hd E2) as [K2 Hf].
  pose proof (obeys_trans _ _ _ K1 K2) as K. destruct y as [u|e]; [|destruct E as [-> ->]; by split]. apply mret_inv in E as [-> ->]. split; [done|].
  intros ? [= <-]. split; [exact (decided_mono _ _ _ _ (acts_history _ _ _ K2) Hd)|]. intros p Hp.
  eapply finalized_within; [exact K1|apply obeys_refl|by eapply Hf].
Qed.

Lemma helping_ok depth :
  (∀ plan b x b', all_ok b → executeTransition009 fuel depth plan b = (x, b') → obeys b b' ∧ ∀ d, x = Ok d → carried_out plan d b b') →
  ∀ id b x b', all_ok b → helpTransition009 fuel depth id b = (x, b') → obeys b b'.
Proof.
  intros IH id b x b' Hw E. unfold helpTransition009 in E. apply gom_bind_inv in E as (y & b1 & E1 & E). apply read_plan_quiet, obeys_le in E1 as K1.
  destruct y as [sn|e]; [|by destruct E as [_ ->]]. apply gom_bind_inv in E as (y & b2 & E2 & E). apply IH in E2 as [K2 _]; [|by eapply obeys_ok].
  pose proof (obeys_trans _ _ _ K1 K2). destruct y; [by apply mret_inv in E as [_ ->]|by destruct E as [_ ->]].
Qed.

Lemma execute_ok depth plan b x b' :
  all_ok b → executeTransition009 fuel depth plan b = (x, b') → obeys b b' ∧ ∀ d, x = Ok d → carried_out plan d b b'.
Proof.
  revert plan b x b'. induction depth as [|depth IH]; intros plan b x b' Hw E; cbn [executeTransition009] in E.
  { injection E as <- <-. split; [apply obeys_refl|done]. }
  apply gom_bind_inv in E as (y & b1 & E1 & E). destruct (read_decision_ok _ _ _ _ E1) as [Hle Hd]. apply obeys_le in Hle as K1.
  pose proof (obeys_ok _ _ K1 Hw) as W1. destruct y as [[d|]|e]; [|clear Hd|destruct E as [-> ->]; by split].
  { by eapply finish_ok; [| |apply Hd|]. }
  apply gom_bind_inv in E as (y & b2 & E2 & E). apply prepare_all_ok in E2 as [K2 _]; [| |done].
  2:{ exact (helping_ok depth IH). }
  pose proof (obeys_trans _ _ _ K1 K2) as K. destruct y as [failure|e]; [|destruct E as [-> ->]; by split].
  apply gom_bind_inv in E as (y & b3 & E3 & E). destruct (decide_ok _ _ _ _ _ E3) as [K3 Hd3]. pose proof (obeys_trans _ _ _ K K3) as K'.
  destruct y as [d|e]; [|destruct E as [-> ->]; by split]. eapply finish_ok; [exact K'|by eapply obeys_ok|by apply Hd3|done].
Qed.

Lemma help_ok depth id b x b' : all_ok b → helpTransition009 fuel depth id b = (x, b') → obeys b b'.
Proof. apply helping_ok. intros plan b0 x0 b0'. apply execute_ok. Qed.

(** ** Resolving what a domain is locked for *)

(** Between [b] and [b'] no transition held the domain. *)
Definition seen_idle (r : consistencyDomainRef) (b b' : B) : Prop :=
  collision_free b' → ∃ b1 a, obeys b b1 ∧ obeys b1 b' ∧ at_head r b1 a ∧ idle a.

Lemma resolve_ok n depth r b x b' :
  all_ok b → resolve_attempts fuel n depth r b = (x, b') → obeys b b' ∧ ∀ u, x = Ok u → seen_idle r b b'.
Proof.
  revert b. induction n as [|n IH]; intros b Hw E; cbn [resolve_attempts] in E.
  { injection E as <- <-. split; [apply obeys_refl|done]. }
  apply gom_bind_inv in E as (y & b1 & E1 & E). destruct (load_obeys _ _ _ _ Hw E1) as (K1 & W1 & Hsn).
  destruct y as [sn|e]; [|destruct E as [-> ->]; by split]. destruct (Hsn sn eq_refl) as [Hok Hat].
  destruct (negb (exists_ sn) || negb (Head_Registered (head sn))) eqn:El.
  { apply mret_inv in E as [-> ->]. split; [done|]. intros u _ Hc. specialize (Hat Hc). destruct (exists_ sn).
    - destruct Hat as (es & os & xs & _ & Ha). exists b1, (Some (domain_of (head sn) es os)). split; [done|]. split; [apply obeys_refl|]. split; [done|left].
      by apply negb_true_iff.
    - exists b1, None. split; [done|]. split; [apply obeys_refl|done]. }
  apply orb_false_iff in El as [Hex%negb_false_iff Hreg%negb_false_iff]. rewrite Hex in Hat.
  apply gom_bind_inv in E as (y & b2 & E2 & E). destruct (lock_free r _ _ _ _ E2) as [Hle2 Hfree]. pose proof (obeys_then _ _ _ K1 Hle2) as K2.
  destruct y as [[[lock v]|]|e]; [| |destruct E as [-> ->]; by split].
  - apply gom_bind_inv in E as (y & b3 & E3 & E). pose proof (obeys_trans _ _ _ K2 (help_ok _ _ _ _ _ (obeys_ok _ _ K2 Hw) E3)) as K3.
    destruct y as [[]|e]; [|destruct E as [-> ->]; by split]. destruct (IH b3) as [K4 Hi]; [by eapply obeys_ok|done|]. split; [by eapply obeys_trans|].
    intros u' Hu Hc. destruct (Hi u' Hu Hc) as (b4 & a & K5 & K6 & Ha). exists b4, a. split; [by eapply obeys_trans|done].
  - apply mret_inv in E as [-> ->]. split; [done|]. intros u _ Hc. destruct (Hat (collision_free_le _ _ Hle2 Hc)) as (es & os & xs & W & Ha).
    exists b1, (Some (domain_of (head sn) es os)). split; [done|]. split; [by apply obeys_le|]. split; [done|right]. by eapply Hfree.
Qed.

Lemma resolve_state_ok depth r b x b' :
  all_ok b → resolveStateTransition009 fuel depth r b = (x, b') → obeys b b' ∧ ∀ u, x = Ok u → seen_idle r b b'.
Proof. unfold resolveStateTransition009. apply resolve_ok. Qed.

(** ** Expired transitions *)

Lemma delete_acts Q k c b x b' : mutable_key k → headless (key_value k) → obj_delete k c b = (x, b') → acts Q b b'.
Proof.
  intros Hm Hh E. destruct (delete_sound _ _ _ _ _ Hm E) as (b1 & Hle & [->|(Hheads & Hc & Hhi & Hla & Hof)]); [by apply acts_le|].
  eapply acts_trans; [by apply acts_le|]. eapply acts_replaced; [|exact Hh]. split; [|done..]. intros k' Hne. by rewrite Hheads, lookup_delete_ne.
Qed.

Lemma delete_object_acts Q o b x b' :
  mutable_key (Object_Key o) → headless (key_value (Object_Key o)) → delete_object o b = (x, b') → acts Q b b'.
Proof.
  intros Hm Hh E. unfold delete_object in E. apply gom_bind_inv in E as (y & b1 & (w & E1 & ->)%attempt_inv & E).
  eapply delete_acts in E1; [|done|done]. destruct w; [by apply mret_inv in E as [_ ->]|by apply lift_inv in E as [_ ->]].
Qed.

Lemma has_locks_quiet plan ps : quietly (transitionHasLocks009 (B := B) plan ps).
Proof.
  induction ps as [|p ps IH]; intros b x b' E; cbn [transitionHasLocks009] in E; [by apply mret_inv in E as [_ ->]|].
  apply gom_bind_inv in E as (y & b1 & (w & E1%quietly_load & ->)%attempt_inv & E).
  destruct w as [sn|e]; [|etrans; [exact E1|by eapply IH]]. destruct (_ || _); [etrans; [exact E1|by eapply IH]|].
  apply gom_bind_inv in E as (y & b2 & E2%quietly_lock & E). etrans; [exact E1|]. etrans; [exact E2|].
  destruct y as [[[lock v]|]|e]; [|by eapply IH|by destruct E as [_ ->]].
  pure_step E. destruct (guard_err _ _); [by apply mret_inv in E as [_ ->]|by destruct E as [_ ->]].
Qed.

Lemma expired_decision_ok plan (locked : bool) decision b x b' :
  (∀ d, decision = Some d → decided b plan d) →
  (if locked && negb (bool_decide (is_Some decision)) then
     decided ← attempt (decideTransition009 plan (Some (NewError ErrorPreconditionFailed "expired transition was aborted")));
     match decided with
     | Ok decision => mret (Some decision)
     | Err err =>
         winner ← attempt (readTransitionDecision009 plan);
         match winner with Ok (Some winner) => mret (Some winner) | _ => throw err end
     end
   else mret decision) b = (x, b') →
  obeys b b' ∧ ∀ d, x = Ok (Some d) → decided b' plan d.
Proof.
  intros Hd E. destruct (_ && _); [|apply mret_inv in E as [-> ->]; split; [apply obeys_refl|]; intros d [= ->]; by apply Hd].
  apply gom_bind_inv in E as (y & b1 & (w & E1 & ->)%attempt_inv & E). destruct (decide_ok _ _ _ _ _ E1) as [K1 Hd1]. destruct w as [d|e].
  { apply mret_inv in E as [-> ->]. split; [done|]. intros ? [= <-]. by apply Hd1. }
  apply gom_bind_inv in E as (y & b2 & (w & E2 & ->)%attempt_inv & E). destruct (read_decision_ok _ _ _ _ E2) as [Hle Hd2]. pose proof (obeys_then _ _ _ K1 Hle) as K2.
  destruct w as [[d|]|e']; [apply mret_inv in E as [-> ->]; split; [done|]; intros ? [= <-]; by apply Hd2|injection E as <- <-; by split..].
Qed.

Lemma collect_expired_ok plan o b x b' :
  all_ok b → TransitionPlanKey (Plan_TransitionID plan) = Ok (Object_Key o) →
  collectExpiredTransition009 fuel plan o b = (x, b') → obeys b b'.
Proof.
  intros Hw Hk E. unfold collectExpiredTransition009 in E. apply gom_bind_inv in E as (y & b1 & E1 & E).
  destruct (read_decision_ok _ _ _ _ E1) as [Hle1 Hd1]. apply obeys_le in Hle1 as K1. destruct y as [decision|e]; [|by destruct E as [_ ->]].
  apply gom_bind_inv in E as (y & b2 & E2%has_locks_quiet & E). pose proof (obeys_then _ _ _ K1 E2) as K2. destruct y as [locked|e]; [|by destruct E as [_ ->]].
  apply gom_bind_inv in E as (y & b3 & E3 & E). apply expired_decision_ok in E3 as [K3 Hd3].
  2:{ intros d ->. eapply decided_mono; [by apply history_le|by apply Hd1]. }
  pose proof (obeys_trans _ _ _ K2 K3) as K. destruct y as [d|e]; [|by destruct E as [_ ->]].
  apply gom_bind_inv in E as (y & b4 & E4 & E).
  assert (obeys b3 b4) as K4.
  { destruct d as [d|]; [|apply mret_inv in E4 as [_ ->]; apply obeys_refl]. destruct locked; [|apply mret_inv in E4 as [_ ->]; apply obeys_refl].
    eapply finalize_each in E4 as [? _]; [done|by eapply obeys_ok|done|by apply Hd3]. }
  pose proof (obeys_trans _ _ _ K K4) as K'. destruct y; [|by destruct E as [_ ->]].
  apply gom_bind_inv in E as (y & b5 & E5 & E).
  assert (obeys b4 b5) as K5.
  { case_bool_decide; [|apply mret_inv in E5 as [_ ->]; apply obeys_refl]. pure_step E5.
    destruct (TransitionDecisionKey _) as [key|e] eqn:Ek; [|destruct E5 as [_ ->]; apply obeys_refl].
    apply gom_bind_inv in E5 as (z & b6 & (w & E6 & ->)%attempt_inv & E5). apply get_quiet, obeys_le in E6 as K6.
    destruct w as [o'|e]; [|by apply lift_inv in E5 as [_ ->]]. eapply obeys_trans; [exact K6|]. eapply delete_object_acts; [| |exact E5].
    - by eapply decision_key_mutable.
    - by eapply decision_headless. }
  pose proof (obeys_trans _ _ _ K' K5) as K''. destruct y; [|by destruct E as [_ ->]]. eapply obeys_trans; [exact K''|].
  eapply delete_object_acts; [| |exact E]; [by eapply plan_key_mutable|by eapply plan_headless].
Qed.

(** ** All transitions *)

Lemma visit_ok n request (visit : ObjectInfo → GoM B error unit) b x b' :
  (∀ info b x b', all_ok b → visit info b = (x, b') → obeys b b') →
  all_ok b → visitObjectPages n request visit b = (x, b') → obeys b b'.
Proof.
  intros Hv. revert request b. induction n as [|n IH]; intros request b Hw E; cbn [visitObjectPages] in E; [injection E as _ <-; apply obeys_refl|].
  apply gom_bind_inv in E as (y & b1 & E1%list_sound%obeys_le & E). destruct y as [page|e]; [|by destruct E as [_ ->]].
  apply gom_bind_inv in E as (y & b2 & E2 & E).
  assert (obeys b1 b2) as K2.
  { apply (obeys_ok _ _ E1) in Hw. clear E E1 IH. revert b1 Hw E2. induction (Page_Objects page) as [|info l IH]; intros b1 Hw E2; cbn [forM_] in E2.
    - apply mret_inv in E2 as [_ ->]. apply obeys_refl.
    - apply gom_bind_inv in E2 as (z & b3 & E3%Hv & E2); [|done]. destruct z; [|by destruct E2 as [_ ->]].
      eapply obeys_trans; [exact E3|]. eapply IH; [by eapply obeys_ok|done]. }
  pose proof (obeys_trans _ _ _ E1 K2) as K. destruct y; [|by destruct E as [_ ->]].
  destruct (_ || _); [by apply mret_inv in E as [_ ->]|]. eapply obeys_trans; [exact K|]. eapply IH; [by eapply obeys_ok|done].
Qed.

Lemma decode_plan_key o plan : decodeTransitionPlanObject009 o = Ok plan → TransitionPlanKey (Plan_TransitionID plan) = Ok (Object_Key o).
Proof.
  unfold decodeTransitionPlanObject009. destruct (DecodeEnvelope _ _ _) as [[env plan']|]; [|done]. destruct (ValidateTransitionPlan009 _); [|done].
  intros E. apply result_bind_Ok in E as (key & Hk & E). apply result_bind_Ok in E as (u & Hg%guard_err_Ok & [= <-]).
  apply bool_decide_eq_false, dec_stable in Hg. by rewrite Hk, Hg.
Qed.

Lemma resolve_all_ok pages depth b x b' :
  all_ok b → resolveAllTransitions009 fuel pages depth b = (x, b') → obeys b b'.
Proof.
  apply visit_ok. clear b x b'. intros info b x b' Hw E.
  apply gom_bind_inv in E as (y & b1 & E1%get_quiet%obeys_le & E). destruct y as [o|e]; [|by destruct E as [_ ->]].
  pure_step E. destruct (decodeTransitionPlanObject009 o) as [plan|e] eqn:Ed; [|by destruct E as [_ ->]].
  apply gom_bind_inv in E as (t & b2 & E2%quietly_now & E). pose proof (obeys_then _ _ _ E1 E2) as K2. destruct t as [t|e]; [|by destruct E as [_ ->]].
  eapply obeys_trans; [exact K2|]. pose proof (obeys_ok _ _ K2 Hw) as W2. destruct (t <? _).
  - apply gom_bind_inv in E as (z & b3 & [K3 _]%execute_ok & E); [|done]. destruct z; [by apply mret_inv in E as [_ ->]|by destruct E as [_ ->]].
  - by eapply collect_expired_ok; [|apply decode_plan_key|].
Qed.
End Engine.
End TransitionTheory.
