(* ===== verification/EngineTheory.v ===== *)
(** * The state store on consistency domains keeps its promises

    Reads answer from one instant at which no transition held the domain; writes
    commit once, in the domain their keys route to, what the caller asked for,
    and report the versions that later reads show. *)

From Stdlib Require Import ZArith Lia.
From S2P Require Import Prelude GoLib GoHash GoJSON GoTime Errors StateStore StateTheory ObjectStore ObjectTheory DomainPage DomainTree TreeTheory TreeRead TreeEdit DomainPack DomainHead TransitionFormat DomainSession TreeStream DomainProvider DomainCatalog StateRoute DomainStore EngineTransition EngineState HeadTheory RecordTheory SessionLaws PackTheory SessionReader StoreLaws StoreRead StoreSpec StoreCommit StoreCatalog StoreMutate EngineSpec TransitionTheory.

Open Scope Z_scope.

Module EngineTheory.
Import StorageFormat DomainTree TreeTheory TreeRead TreeEdit DomainPack DomainHead TransitionFormat HeadTheory DomainSession DomainProvider DomainCatalog DomainStore StateRoute EngineTransition EngineState RecordTheory SessionLaws SessionReader StoreLaws StoreRead StoreSpec StoreCommit StoreMutate EngineSpec TransitionTheory.

#[local] Opaque resolveStateTransition009.

Section Engine.
Context `{SHA256} `{!SHA256Laws} `{GZIP} `{!GZIPLaws} {B : Type} `{!Engine B, !ProviderView B, !EngineLaws B}.
Variables fuel depth : nat.

Abbreviation acts := (acts (B := B)).

(** Other processes keep every head well formed. *)
Hypothesis rivals : ∀ r (b b' : B), blob_le b b' → world_ok r b → world_ok r b'.

(** ** Runs of a call *)

(** Transitions that were helped, and the events [P] of the call itself. *)
Definition follows (P : consistencyDomainRef → event → Prop) (b b' : B) : Prop := acts (λ r e, protocol b' r e ∨ P r e) b b'.

Lemma follows_obeys P b b' : obeys b b' → follows P b b'.
Proof. apply acts_mono. by left. Qed.

Lemma follows_le P b b' : blob_le b b' → follows P b b'.
Proof. apply acts_le. Qed.

Lemma follows_trans P b b1 b2 : follows P b b1 → follows P b1 b2 → follows P b b2.
Proof.
  intros Ha Hb. eapply acts_trans; [|exact Hb]. eapply acts_mono; [|exact Ha]. intros r e [Hp|?]; [left|by right].
  eapply protocol_mono; [|exact Hp]. by eapply acts_history.
Qed.

Lemma follows_keeps (P : consistencyDomainRef → event → Prop) (Q : event → Prop) r b b' :
  (∀ e, Q e → P r e) → keeps r Q b b' → follows P b b'.
Proof. intros HQ. apply keeps_acts. intros e He. right. by apply HQ. Qed.

Lemma follows_ok P b b' : follows P b b' → all_ok b → all_ok b'.
Proof. by apply acts_ok. Qed.

Lemma follows_after P r b b' : follows P b b' → after r b b'.
Proof. apply acts_after. Qed.

(** A call that helps pending transitions and starts again. *)
Lemma with_help_ok {A} P (Post : A → B → B → Prop) n r (call : GoM B error A) contended b x b' :
  (∀ b x b', all_ok b → call b = (x, b') → follows P b b' ∧ ∀ a, x = Ok a → Post a b b') →
  all_ok b → with_help fuel depth n r call contended b = (x, b') →
  follows P b b' ∧ ∀ a, x = Ok a → ∃ b1, follows P b b1 ∧ Post a b1 b'.
Proof.
  intros Hcall. revert b. induction n as [|n IH]; intros b Hw E; cbn [with_help] in E.
  { injection E as <- <-. split; [by apply follows_le|done]. }
  apply gom_bind_inv in E as (y & b1 & (w & E1 & ->)%attempt_inv & E). destruct (Hcall _ _ _ Hw E1) as [K1 Hp]. destruct w as [a|e].
  { apply mret_inv in E as [-> ->]. split; [done|]. intros ? [= <-]. exists b. split; [by apply follows_le|by apply Hp]. }
  pure_step E. destruct (guard_err _ _); [|destruct E as [-> ->]; by split].
  apply gom_bind_inv in E as (y & b2 & E2 & E). destruct (resolve_state_ok fuel rivals _ _ _ _ _ (follows_ok _ _ _ K1 Hw) E2) as [K2 _].
  pose proof (follows_trans _ _ _ _ K1 (follows_obeys P _ _ K2)) as K. destruct y; [|destruct E as [-> ->]; by split].
  destruct (IH b2) as [K3 Hx]; [by eapply follows_ok|done|]. split; [by eapply follows_trans|]. intros v Hv. destruct (Hx v Hv) as (b3 & K4 & Ha3).
  exists b3. split; [by eapply follows_trans|done].
Qed.

(** ** Reading *)

(** The stored entry of a record. *)
Definition shows_record (m : gmap gostring DomainEntry) (key : State.Key) (data version : gostring) : Prop :=
  ∃ e, m !! State.key_value key = Some e ∧ Entry_LogicalVersion e = version ∧
    decodeStateValue009 key (default [] (Entry_Value e)) = Ok data.

(** At [b1] the domain was registered, held by no transition, and [P] holds of its values. *)
Definition served_at (r : consistencyDomainRef) (b1 : B) (P : gmap gostring DomainEntry → Prop) : Prop :=
  ∃ a, at_head r b1 (Some a) ∧ registered a = true ∧ values a !! transitionLockKey009 = None ∧ P (values a).

Definition no_event (r : consistencyDomainRef) (e : event) : Prop := False.

Lemma follows_nothing b b' : follows no_event b b' → obeys b b'.
Proof. apply acts_mono. by intros r e [?|[]]. Qed.

Lemma quietly_get_ r key : quietly (get_ (B := B) r key).
Proof.
  unfold get_. apply quietly_bind; [apply quietly_lift|]. intros _. apply quietly_bind; [apply quietly_load|]. intros sn.
  apply quietly_bind; [apply quietly_lift|]. intros _. apply quietly_bind; [apply quietly_lock|]. intros l.
  apply quietly_bind; [apply quietly_lift|]. intros _. apply quietly_bind; [|intros [v|]; [apply quietly_ret|apply quietly_throw]].
  intros b x b' (s & E & <-)%fresh_inv. by destruct (lookup_sound r _ [] _ _ _ _ E).
Qed.

Lemma get_follows key b x b' :
  all_ok b → Get fuel depth key b = (x, b') →
  obeys b b' ∧ ∀ v, x = Ok v → ∃ r b1, stateDomainReferenceForKey key = Ok r ∧ obeys b b1 ∧ blob_le b1 b' ∧
    (collision_free b' → served_at r b1 (λ m, shows_record m key (State.Value_Data v) (State.Value_Version v))).
Proof.
  intros Hw E. unfold Get in E. pure_step E. destruct (validateStateKey key) as [[]|e]; [|destruct E as [-> ->]; split; [apply obeys_refl|done]].
  pure_step E. destruct (stateDomainReferenceForKey key) as [r|e]; [|destruct E as [-> ->]; split; [apply obeys_refl|done]].
  apply gom_bind_inv in E as (y & b1 & E1 & E).
  eapply (with_help_ok no_event (λ v b b', get_ r (State.key_value key) b = (Ok v, b') ∧ all_ok b)) in E1 as [K Hx]; [| |done].
  2:{ intros b0 x0 b0' Hw0 E0. split; [|by intros w ->]. apply follows_le. by eapply (quietly_get_ r). }
  apply follows_nothing in K. destruct y as [v|e]; [|destruct E as [-> ->]; by split].
  pure_step E. destruct (decodeStateValue009 key _) as [data|e] eqn:Ed; [|destruct E as [-> ->]; by split].
  apply mret_inv in E as [-> ->]. split; [done|]. intros ? [= <-]. exists r. destruct (Hx v eq_refl) as (b2 & K2 & Eg & Hw2).
  destruct (get_ok r (rivals r) _ _ _ _ (Hw2 r) Eg) as (b3 & Hle & Hle' & Hs). exists b3. split; [done|].
  split; [eapply obeys_then; [by apply follows_nothing|done]|]. split; [done|]. intros Hc. destruct (Hs Hc) as (a & e & Ha & Hr & Hl & He & Hv).
  exists a. split; [done|]. split; [done|]. split; [done|]. exists e. split; [done|]. cbn. apply (f_equal Value_LogicalVersion) in Hv as Hver. split; [done|].
  apply (f_equal Value_Data) in Hv. cbn in Hv. rewrite <-Ed. f_equal. rewrite Hv. by destruct (Entry_Value e) as [[|]|].
Qed.

(** ** Reading several records *)

Definition shows_value (m : gmap gostring DomainEntry) (key : State.Key) (v : State.Value) : Prop :=
  shows_record m key (State.Value_Data v) (State.Value_Version v).

Section Session.
Variable r : consistencyDomainRef.
#[local] Remove Hints session_pages session_view session_read_laws session_laws reader_view reader_laws : typeclass_instances.
#[local] Instance the_pages : PageStore (Session B) := pages_of_reference r.
#[local] Instance the_view : PageView (Session B) := reader_view r (session_pageKey r) (session_packKey r).
#[local] Instance the_laws : PageReadLaws (Session B) :=
  reader_laws r (session_pageKey r) (session_packKey r) (page_key_blob r) (pack_key_blob r).

Lemma growing_read_keys h keys : growing (read_keys r h keys).
Proof.
  induction keys as [|k keys IH]; cbn [read_keys]; [apply growing_ret|]. apply growing_bind; [apply growing_lookupAtHead|].
  intros [v|]; [|apply (growing_lift (Err _))]. apply growing_bind; [apply growing_lift|]. intros data.
  apply growing_bind; [done|]. intros rest. apply growing_ret.
Qed.

Lemma read_keys_sound s h es keys vs s' :
  ps_inv s → Forall delta_ok (Head_Deltas h) → tree_holds r (session_pageKey r) (session_packKey r) (backend s) (Head_Base h) es →
  read_keys r h keys s = (Ok vs, s') → no_collision s' → Forall2 (shows_value (contents h es)) keys vs.
Proof.
  intros Hi Hok Hh E Hn. revert s vs Hi Hh E. induction keys as [|k keys IH]; intros s vs Hi Hh E; cbn [read_keys] in E.
  { by apply mret_inv in E as [[= ->] _]. }
  apply gom_bind_inv in E as (y & s1 & E1 & E).
  destruct (lookupAtHead_yields r s h es (State.key_value k) Hi Hok Hh) as (v & Hv & Hy). destruct (Hy _ _ E1) as [Hg1 Ha].
  destruct y as [[v'|]|e]; [|done|by destruct E].
  apply gom_bind_inv in E as (z & s2 & E2 & E). apply lift_inv in E2 as [-> ->]. destruct (decodeStateValue009 k _) as [data|e] eqn:Ed; [|by destruct E].
  apply gom_bind_inv in E as (z & s3 & E3 & E). destruct z as [rest|e]; [|by destruct E]. apply mret_inv in E as [[= ->] ->].
  pose proof (growing_read_keys h keys _ _ _ (proj1 Hg1) E3) as Hg2.
  assert (no_collision s1) as Hn1 by (by eapply no_collision_extends; [apply Hg2|]).
  apply answered_Ok in Ha as <-; [|done]. constructor.
  - destruct (shows_Some _ _ _ _ Hv) as (e & He & Hver & Hd). exists e. split; [done|]. split; [done|]. by rewrite <-(clone_default _ _ Hd).
  - eapply (IH s1); [apply Hg1| |exact E3]. eapply tree_holds_le; [apply Hg1|done].
Qed.

Lemma read_keys_at b h es keys x b' :
  Forall delta_ok (Head_Deltas h) → tree_holds r (session_pageKey r) (session_packKey r) b (Head_Base h) es →
  fresh (read_keys r h keys) b = (x, b') → collision_free b' → ∀ vs, x = Ok vs → Forall2 (shows_value (contents h es)) keys vs.
Proof.
  intros Hok Hh (s & E & <-)%fresh_inv Hc vs ->.
  eapply (read_keys_sound (newSession b)); [apply reader_new|done|exact Hh|exact E|]. by apply (reader_free r).
Qed.

Lemma quietly_read_keys h keys : quietly (fresh (read_keys r h keys)).
Proof. apply (quietly_fresh r), growing_read_keys. Qed.
End Session.

Lemma read_many_ok n r keys b x b' :
  all_ok b → read_many fuel depth n r keys b = (x, b') →
  obeys b b' ∧ ∀ vs, x = Ok vs → ∃ b1, obeys b b1 ∧ blob_le b1 b' ∧
    (collision_free b' → served_at r b1 (λ m, Forall2 (shows_value m) keys vs)).
Proof.
  revert b. induction n as [|n IH]; intros b Hw E; cbn [read_many] in E; [injection E as <- <-; split; [apply obeys_refl|done]|].
  apply gom_bind_inv in E as (y & b1 & E1 & E). destruct (load_obeys rivals _ _ _ _ Hw E1) as (K1 & W1 & Hsn).
  destruct y as [sn|e]; [|destruct E as [-> ->]; by split]. destruct (Hsn sn eq_refl) as [_ Hat].
  pure_step E. destruct (exists_ sn) eqn:Eex; cbn [negb orb] in E; [|destruct E as [-> ->]; by split].
  destruct (Head_Registered (head sn)) eqn:Er; cbn [negb guard_err] in E; [|destruct E as [-> ->]; by split].
  apply gom_bind_inv in E as (l & b2 & E2 & E). destruct (lock_free r _ _ _ _ E2) as [Hle2 Hlock]. pose proof (obeys_then _ _ _ K1 Hle2) as K2.
  destruct l as [[l|]|e]; [| |destruct E as [-> ->]; by split].
  - apply gom_bind_inv in E as (y & b3 & E3 & E). destruct (resolve_state_ok fuel rivals _ _ _ _ _ (obeys_ok rivals _ _ K2 Hw) E3) as [K3 _].
    pose proof (obeys_trans _ _ _ K2 K3) as K. destruct y as [[]|e]; [|destruct E as [-> ->]; by split].
    destruct (IH b3) as [K4 Hx]; [by eapply obeys_ok|done|]. split; [by eapply obeys_trans|]. intros vs Hvs.
    destruct (Hx vs Hvs) as (b4 & K5 & Hle & Hs). exists b4. split; [by eapply obeys_trans|done].
  - pose proof (quietly_read_keys r _ _ _ _ _ E) as Hle3. split; [by eapply obeys_then|]. intros vs Hvs. exists b1. split; [done|].
    split; [by etrans|]. intros Hc. pose proof (collision_free_le _ _ Hle3 Hc) as Hc2. destruct (Hat (collision_free_le _ _ Hle2 Hc2)) as (es & os & xs & W & Ha).
    pose proof (head_wf_after r _ _ _ _ _ _ (after_le r _ _ Hle2) W) as W2.
    exists (domain_of (head sn) es os). split; [done|]. split; [done|]. split; [by eapply Hlock|].
    eapply (read_keys_at r b2); [apply W|apply W2|exact E|done|done].
Qed.

Lemma shared_reference_Ok reference keys r :
  shared_reference reference keys = Ok (Some r) →
  (∀ r0, reference = Some r0 → r0 = r) ∧ Forall (λ k, stateDomainReferenceForKey k = Ok r) keys.
Proof.
  revert reference. induction keys as [|k keys IH]; intros reference E; cbn [shared_reference] in E; [injection E as ->; split; [by intros ? [= <-]|done]|].
  apply result_bind_Ok in E as (u & _ & E). apply result_bind_Ok in E as (r1 & Hr1 & E). apply result_bind_Ok in E as (u' & Hg%guard_err_Ok & E).
  destruct (IH _ E) as [Hs Hall]. specialize (Hs _ eq_refl). destruct reference as [r0|]; cbn in Hs.
  - apply bool_decide_eq_false, dec_stable in Hg as ->. split; [by intros ? [= <-]|constructor; [by rewrite <-Hs|done]].
  - split; [done|constructor; [by rewrite <-Hs|done]].
Qed.

Lemma get_many_follows keys b x b' :
  all_ok b → GetMany fuel depth keys b = (x, b') →
  obeys b b' ∧ ∀ vs, x = Ok vs → ∃ r b1, Forall (λ k, stateDomainReferenceForKey k = Ok r) keys ∧ obeys b b1 ∧ blob_le b1 b' ∧
    (collision_free b' → served_at r b1 (λ m, Forall2 (shows_value m) keys vs)).
Proof.
  intros Hw E. unfold GetMany in E. pure_step E. destruct (guard_err _ _); [|destruct E as [-> ->]; split; [apply obeys_refl|done]].
  pure_step E. destruct (shared_reference None keys) as [[r|]|e] eqn:Es; [|injection E as <- <-; split; [apply obeys_refl|done]|destruct E as [-> ->]; split; [apply obeys_refl|done]].
  destruct (shared_reference_Ok _ _ _ Es) as [_ Hall]. destruct (read_many_ok _ _ _ _ _ _ Hw E) as [K Hx]. split; [done|]. intros vs Hvs.
  destruct (Hx vs Hvs) as (b1 & K1 & Hle & Hs). by exists r, b1.
Qed.

(** ** Writing *)

Lemma sort_sorted cs : StronglySorted bytes_lt (map Key cs) → merge_sort domain_change_le cs = cs.
Proof.
  intros Hs. apply (sorted_by_ext Key); [|done|intros c; by rewrite merge_sort_Permutation]. apply sorted_le_lt; [apply sorted_changes_le|].
  change (NoDup (Key <$> merge_sort domain_change_le cs)). rewrite merge_sort_Permutation. by apply sorted_lt_NoDup.
Qed.

Lemma clone_twice (v : option gostring) : clone_bytes (clone_bytes v) = clone_bytes v.
Proof. by destruct v as [[|]|]. Qed.

(** Normalizing a normal form changes nothing. *)
Lemma normalize_again m c f until c' f' :
  normalizeConsistencyDomainMutation m = Ok (c, f) → normalizeConsistencyDomainMutation (with_retention c until) = Ok (c', f') →
  c' = with_retention c until ∧ f' = f.
Proof.
  intros E E'. destruct (normalize_Ok _ _ _ E) as (Hc & Hs & _). destruct (normalize_Ok _ _ _ E') as (Hc' & _). rewrite sort_sorted in Hc' by done.
  unfold normalizeConsistencyDomainMutation in E, E'. apply result_bind_Ok in E as (? & _ & E). apply result_bind_Ok in E as (? & _ & E).
  apply result_bind_Ok in E as (body & Hb & E). apply result_bind_Ok in E as (? & _ & E). apply result_bind_Ok in E' as (? & _ & E').
  apply result_bind_Ok in E' as (? & _ & E'). apply result_bind_Ok in E' as (body' & Hb' & E'). apply result_bind_Ok in E' as (? & _ & E').
  injection E as _ <-. injection E' as _ <-. cbn [Changes Result with_retention] in Hb'. rewrite sort_sorted in Hb' by done.
  assert (Result c = clone_bytes (Result m)) as Hr by by rewrite Hc. rewrite Hr, clone_twice, Hc in Hb'. cbn [Changes with_changes] in Hb'.
  assert (body' = body) as -> by congruence. split; [|done]. rewrite Hc'. unfold with_changes, with_retention. cbn. by rewrite Hr, clone_twice.
Qed.

Lemma intends_normal m c f m' f' :
  normalizeConsistencyDomainMutation m = Ok (c, f) → intends c m' f' → ∃ until, m' = with_retention c until ∧ f' = f.
Proof. intros E (until & E' & _). exists until. by eapply normalize_again. Qed.

(** The values after a commit. *)
Lemma commit_values id f cs m c :
  StronglySorted bytes_lt (map Key cs) → c ∈ cs →
  change_map (map (recorded_change id f) cs) m !! Key c = if Delete c then None else Some (change_entry (recorded_change id f c)).
Proof.
  intros Hs Hc. assert (map Change_Key (map (recorded_change id f) cs) = map Key cs) as Hk by by rewrite map_map.
  assert (NoDup (map Change_Key (map (recorded_change id f) cs))) as Hnd by (rewrite Hk; by apply sorted_lt_NoDup).
  assert (∀ c', c' ∈ cs → Key c' = Key c → c' = c) as Huniq.
  { intros c' (j & Hj)%list_elem_of_lookup Ek. apply list_elem_of_lookup in Hc as (i & Hi). rewrite Hk, NoDup_alt in Hnd.
    assert (i = j) as ->; [|congruence]. eapply Hnd; rewrite list_lookup_fmap, ?Hi, ?Hj; cbn; by rewrite ?Ek. }
  apply option_eq. intros e. rewrite change_map_lookup by done. split.
  - intros [[_ Hn]|(c' & (c0 & -> & Hc0)%list_elem_of_fmap & Hd & Ek & ->)].
    + destruct Hn. unfold changed. rewrite Hk. by apply list_elem_of_fmap_2.
    + cbn in Ek. rewrite (Huniq c0 Hc0 Ek) in *. cbn in Hd. by rewrite Hd.
  - destruct (Delete c) eqn:Ed; [done|]. intros [= <-]. right. exists (recorded_change id f c). split; [by apply list_elem_of_fmap_2|done].
Qed.

Lemma commit_others id f cs m k : k ∉ map Key cs → change_map (map (recorded_change id f) cs) m !! k = m !! k.
Proof.
  intros Hk. induction cs as [|c cs IH] using rev_ind; [done|]. rewrite map_app in *. cbn in *. rewrite change_map_app.
  apply not_elem_of_app in Hk as [Hk Hne]. unfold change_map at 1. cbn. apply not_elem_of_cons in Hne as [Hne _].
  destruct (Delete c); [rewrite lookup_delete_ne by done|rewrite lookup_insert_ne by done]; by apply IH.
Qed.

(** The events of a mutation in its domain. *)
Definition writes (r : consistencyDomainRef) (m : consistencyDomainMutation) (r' : consistencyDomainRef) (e : event) : Prop :=
  r' = r ∧ executes m e.

Definition update : Type := gmap gostring DomainEntry → gmap gostring DomainEntry → Prop.

(** Between [b] and [b'] the values of the domain, held by no other transition,
    were replaced in one step that [R] describes. *)
Definition committed_once (P : consistencyDomainRef → event → Prop) (r : consistencyDomainRef) (R : update) (b b' : B) : Prop :=
  ∃ b1 b2, follows P b b1 ∧ follows P b2 b' ∧
    (collision_free b' → ∃ a a', at_head r b1 (Some a) ∧ at_head r b2 (Some a') ∧ epoch a = 0 ∧ unlocked (values a) [] ∧
                         revision a' = revision a + 1 ∧ R (values a) (values a')).

(** What a write that returned did. *)
Definition settles (P : consistencyDomainRef → event → Prop) (r : consistencyDomainRef) (id : gostring) (replayed : bool)
    (R : update) (b b' : B) : Prop :=
  if replayed then collision_free b' → notes r b' id else committed_once P r R b b'.

Lemma settles_before P r id replayed R b b1 b' : follows P b b1 → settles P r id replayed R b1 b' → settles P r id replayed R b b'.
Proof.
  intros K. destruct replayed; [done|]. intros (b2 & b3 & K2 & Hx). exists b2, b3. split; [by eapply follows_trans|done].
Qed.

Lemma settles_impl P r id replayed (R R' : update) b b' :
  (∀ m m', R m m' → R' m m') → settles P r id replayed R b b' → settles P r id replayed R' b b'.
Proof.
  intros HR. destruct replayed; [done|]. intros (b2 & b3 & K2 & K3 & Hx). exists b2, b3. split; [done|]. split; [done|]. intros Hc.
  destruct (Hx Hc) as (a & a' & Ha & Ha' & He & Hu & Hr & Hv). exists a, a'. split_and!; auto.
Qed.

(** One commit of the normal form. *)
Definition commits (c : consistencyDomainMutation) (f : gostring) (m m' : gmap gostring DomainEntry) : Prop :=
  Forall (permits m) (Changes c) ∧ m' = change_map (map (recorded_change (ID c) f) (Changes c)) m.

Lemma mutate_settles r m c f b x b' :
  normalizeConsistencyDomainMutation m = Ok (c, f) → TransitionID m = [] → all_ok b → mutate r fuel c b = (x, b') →
  follows (writes r c) b b' ∧ ∀ o, x = Ok o → settles (writes r c) r (ID c) (Replayed o) (commits c f) b b'.
Proof.
  intros En Ht Hw E. destruct (mutate_ok r (rivals r) fuel c None b x b' (Hw r) ltac:(done) E) as [K Hx].
  split; [by eapply follows_keeps; [|exact K]|]. intros o Ho. destruct (Hx o Ho) as (m' & f' & Hi & Hcl).
  destruct (intends_normal _ _ _ _ _ En Hi) as (until & -> & ->). destruct (normalize_Ok _ _ _ En) as (Hcm & _).
  destruct Hcl as [Hrep|(b1 & rv & t & K1 & Hev & ->)].
  - destruct Hrep as [Hr Hx']. rewrite Hr. cbn. intros Hc. destruct (Hx' Hc) as (h & es & os & xs & Hh & W & o' & Ho' & _).
    by exists h, es, os, xs, o'.
  - cbn. destruct (evolves_one _ _ _ _ Hev) as (k & b2 & b3 & Hev1 & Hev2 & Hr & Hp). exists b2, b3.
    split; [|split; [|intros Hc]].
    + eapply follows_trans.
      * eapply follows_keeps; [|exact K1]. intros e [He|(rv' & t' & ->)]; (split; [done|]); [by left|right; by exists (with_retention c until), f, rv', t'].
      * eapply follows_keeps; [|by exists []]. done.
    + eapply follows_keeps; [|by exists []]. done.
    + destruct Hp as (a & a' & Ha & Ha' & Hst & _); [by apply (after_replaced r _ _ _ Hr), (evolves_after _ _ _ _ Hev2)|].
      inversion Hst; subst. eexists _, a'. split_and!; try done. by match goal with Hu : unlocked _ _ |- _ => cbn in Hu; rewrite Ht in Hu end.
Qed.

Lemma help_mutate_settles r m c f contended n b x b' :
  normalizeConsistencyDomainMutation m = Ok (c, f) → TransitionID m = [] → all_ok b →
  with_help fuel depth n r (mutate r fuel c) contended b = (x, b') →
  follows (writes r c) b b' ∧ ∀ o, x = Ok o → settles (writes r c) r (ID c) (Replayed o) (commits c f) b b'.
Proof.
  intros En Ht Hw E. eapply (with_help_ok (writes r c) (λ o b b', settles (writes r c) r (ID c) (Replayed o) (commits c f) b b')) in E as [K Hx]; [| |done].
  - split; [done|]. intros o Ho. destruct (Hx o Ho) as (b1 & K1 & Hs). by eapply settles_before.
  - intros b0 x0 b0' Hw0 E0. by eapply mutate_settles.
Qed.

Lemma follows_mono (P P' : consistencyDomainRef → event → Prop) b b' : (∀ r e, P r e → P' r e) → follows P b b' → follows P' b b'.
Proof. intros HP. apply acts_mono. intros r e [?|?]; [by left|right; by apply HP]. Qed.

Lemma settles_mono (P P' : consistencyDomainRef → event → Prop) r id replayed R b b' :
  (∀ r e, P r e → P' r e) → settles P r id replayed R b b' → settles P' r id replayed R b b'.
Proof.
  intros HP. destruct replayed; [done|]. intros (b1 & b2 & K1 & K2 & Hx). exists b1, b2.
  split; [by eapply follows_mono|]. split; [by eapply follows_mono|done].
Qed.

(** *** Several records *)

(** The precondition of a change of a record, and its effect. *)
Definition change_admitted (m : gmap gostring DomainEntry) (c : State.Change) : Prop :=
  let k := State.key_value (State.Change_Key c) in
  (State.Change_Requirement c = State.RequirementAbsent → m !! k = None) ∧
  (State.Change_Requirement c = State.RequirementPresent →
     ∃ e, m !! k = Some e ∧ (State.Change_ExpectedVersion c = [] ∨ Entry_LogicalVersion e = State.Change_ExpectedVersion c)) ∧
  (State.Change_Delete c = true → is_Some (m !! k)).

Definition change_applied (m : gmap gostring DomainEntry) (c : State.Change) (result : State.ChangeResult) : Prop :=
  State.ChangeResult_Key result = State.Change_Key c ∧
  if State.Change_Delete c then m !! State.key_value (State.Change_Key c) = None
  else shows_record m (State.Change_Key c) (State.Change_Data c) (State.ChangeResult_Version result).

(** Every change admitted, every change applied, nothing else touched. *)
Definition records_changed (changes : list State.Change) (results : list State.ChangeResult) : update := λ m m',
  Forall (change_admitted m) changes ∧ Forall2 (change_applied m') changes results ∧
  ∀ k, k ∉ map (State.key_value ∘ State.Change_Key) changes → m' !! k = m !! k.

Lemma domain_change_Ok c st :
  domain_change c = Ok st →
  Key st = State.key_value (State.Change_Key c) ∧ Require st = State.Change_Requirement c ∧
  ExpectedVersion st = State.Change_ExpectedVersion c ∧ Delete st = State.Change_Delete c ∧
  (State.Change_Delete c = false → ∃ body, encodeStateValue009 (State.Change_Key c) (State.Change_Data c) = Ok body ∧ Value st = Some body).
Proof.
  unfold domain_change. intros E. apply result_bind_Ok in E as (v & Hv & [= <-]). split_and!; try done. intros Hd. rewrite Hd in Hv.
  apply result_bind_Ok in Hv as (body & Hb & [= <-]). by exists body.
Qed.

Lemma stored_change_applied id f cs m c st :
  StronglySorted bytes_lt (map Key cs) → st ∈ cs → domain_change c = Ok st →
  change_applied (change_map (map (recorded_change id f) cs) m) c (change_version id f c st).
Proof.
  intros Hs Hin (Hk & _ & _ & Hd & Hv)%domain_change_Ok. split; [done|]. rewrite <-Hk. cbn.
  pose proof (commit_values id f cs m st Hs Hin) as Hval. rewrite Hd in Hval. destruct (State.Change_Delete c) eqn:Ed; [done|].
  destruct (Hv eq_refl) as (body & Hb & Hval'). eexists. rewrite <-Hk, Hval. split; [done|]. split; [done|]. cbn. rewrite Hval'.
  assert (default [] (clone_bytes (clone_bytes (Some body))) = body) as -> by by destruct body. by apply decodeStateValue009_encoded.
Qed.

Lemma permits_admitted m c st : domain_change c = Ok st → permits m st → change_admitted m c.
Proof. intros (Hk & Hr & Hx & Hd & _)%domain_change_Ok. unfold permits, change_admitted. by rewrite Hk, Hr, Hx, Hd. Qed.

Lemma domain_changes_Ok reference cs r sts :
  domain_changes reference cs = Ok (Some r, sts) →
  (∀ r0, reference = Some r0 → r0 = r) ∧ Forall (λ c, stateDomainReferenceForKey (State.Change_Key c) = Ok r) cs ∧
  Forall2 (λ c st, domain_change c = Ok st) cs sts.
Proof.
  revert reference r sts. induction cs as [|c cs IH]; intros reference r sts E; cbn [domain_changes] in E.
  { injection E as -> <-. split; [by intros ? [= <-]|done]. }
  apply result_bind_Ok in E as (u & _ & E). apply result_bind_Ok in E as (r1 & Hr1 & E). apply result_bind_Ok in E as (u' & Hg%guard_err_Ok & E).
  apply result_bind_Ok in E as (st & Hst & E). apply result_bind_Ok in E as ([r2 rest] & Hrest & [= -> <-]).
  destruct (IH _ _ _ Hrest) as (Hr & Hall & Hst2). specialize (Hr _ eq_refl) as ->. split_and!; [|by constructor..].
  intros r0 ->. by apply bool_decide_eq_false, dec_stable in Hg.
Qed.

Lemma domain_changes_some r cs ref sts : domain_changes (Some r) cs = Ok (ref, sts) → ∃ r', ref = Some r'.
Proof.
  revert r sts. induction cs as [|c cs IH]; intros r sts E; cbn [domain_changes] in E; [injection E as <- _; by exists r|].
  do 4 (apply result_bind_Ok in E as (? & _ & E)). apply result_bind_Ok in E as ([r2 rest] & Hrest & [= <- _]). by eapply IH.
Qed.

(** The domain and the normal form a mutation of records is stored as. *)
Definition stored_as (n : State.Mutation) (r : consistencyDomainRef) (c : consistencyDomainMutation) (f : gostring) : Prop :=
  ∃ cs, domain_changes None (State.Mutation_Changes n) = Ok (Some r, cs) ∧
    normalizeConsistencyDomainMutation {| ID := State.Mutation_ID n; TransitionID := []; RetainUntil := State.Mutation_RetainUntil n;
      Changes := cs; Result := clone_bytes (Some (State.Mutation_Result n)); ExpectedRevision := None |} = Ok (c, f).

Lemma stored_as_changes n fp m r c f :
  State.NormalizeMutation m = Ok (n, fp) → stored_as n r c f →
  ID c = State.Mutation_ID n ∧ Forall2 (λ c st, domain_change c = Ok st) (State.Mutation_Changes n) (Changes c) ∧
  StronglySorted bytes_lt (map Key (Changes c)).
Proof.
  intros (_ & _ & _ & _ & Hss)%StateTheory.NormalizeMutation_spec (cs & (_ & _ & Hst2)%domain_changes_Ok & En).
  destruct (normalize_Ok _ _ _ En) as (-> & Hs & _). split; [done|]. split; [|done]. cbn [Changes with_changes].
  rewrite sort_sorted; [done|]. replace (map Key cs) with (map StateTheory.change_key (State.Mutation_Changes n)); [done|].
  clear -Hst2. induction Hst2 as [|c st cs sts (Hk & _)%domain_change_Ok _ IH]; [done|]. cbn. by rewrite IH, Hk.
Qed.

Lemma zip_applied id f all m cs sts :
  StronglySorted bytes_lt (map Key all) → (∀ st, st ∈ sts → st ∈ all) → Forall2 (λ c st, domain_change c = Ok st) cs sts →
  Forall2 (change_applied (change_map (map (recorded_change id f) all) m)) cs (zip_with (change_version id f) cs sts).
Proof.
  intros Hs Hin Hx. induction Hx as [|c st cs sts Hc _ IH]; cbn; constructor; [apply stored_change_applied; [done|apply Hin; by left|done]|].
  apply IH. intros st' Hst'. apply Hin. by right.
Qed.

Lemma commits_records n fp m r c f v v' :
  State.NormalizeMutation m = Ok (n, fp) → stored_as n r c f → commits c f v v' →
  records_changed (State.Mutation_Changes n) (zip_with (change_version (ID c) f) (State.Mutation_Changes n) (Changes c)) v v'.
Proof.
  intros En Hst [Hp ->]. destruct (stored_as_changes _ _ _ _ _ _ En Hst) as (Hid & Hst2 & Hs). split_and!.
  - eapply Forall2_Forall_l; [exact Hst2|]. eapply list.Forall_impl; [exact Hp|]. intros st Hpst c0 Hc0. by eapply permits_admitted.
  - by apply zip_applied.
  - intros k Hk. apply commit_others. intros (st & -> & Hin)%list_elem_of_fmap. apply Hk. apply list_elem_of_lookup in Hin as (i & Hi).
    destruct (Forall2_lookup_r _ _ _ _ _ Hst2 Hi) as (c0 & Hc0%list_elem_of_lookup_2 & (Hkey & _)%domain_change_Ok).
    apply list_elem_of_fmap. by exists c0.
Qed.

(** The events of a mutation of records. *)
Definition record_writes (m : State.Mutation) (r : consistencyDomainRef) (e : event) : Prop :=
  ∃ n fp c f, State.NormalizeMutation m = Ok (n, fp) ∧ stored_as n r c f ∧ executes c e.

Lemma mutate_records m b x b' :
  all_ok b → EngineState.Mutate fuel depth m b = (x, b') →
  follows (record_writes m) b b' ∧
  ∀ out, x = Ok out → ∃ n fp r, State.NormalizeMutation m = Ok (n, fp) ∧
    Forall (λ c, stateDomainReferenceForKey (State.Change_Key c) = Ok r) (State.Mutation_Changes n) ∧
    State.Outcome_ID out = State.Mutation_ID n ∧
    settles (record_writes m) r (State.Mutation_ID n) (State.Outcome_Replayed out)
      (records_changed (State.Mutation_Changes n) (State.Outcome_Changes out)) b b'.
Proof.
  intros Hw E. unfold EngineState.Mutate in E. assert (follows (record_writes m) b b) as K0 by by apply follows_le.
  pure_step E. destruct (State.NormalizeMutation m) as [[n fp]|e] eqn:En; [|destruct E as [-> ->]; by split].
  pure_step E. destruct (domain_changes None (State.Mutation_Changes n)) as [[ref cs]|e] eqn:Ed; [|destruct E as [-> ->]; by split].
  assert (∃ r, ref = Some r) as [r ->].
  { destruct (StateTheory.NormalizeMutation_spec _ _ _ En) as (_ & _ & Hperm & Hne & _).
    destruct (State.Mutation_Changes n) as [|c cs']; [by apply Permutation_nil in Hperm|]. cbn [domain_changes] in Ed.
    do 4 (apply result_bind_Ok in Ed as (? & _ & Ed)). apply result_bind_Ok in Ed as ([r2 rest] & Hrest & [= -> _]).
    clear -Hrest. eapply domain_changes_some. exact Hrest. }
  cbn [default] in E. pure_step E. destruct (normalizeConsistencyDomainMutation _) as [[c f]|e] eqn:Ec; [|destruct E as [-> ->]; by split].
  assert (stored_as n r c f) as Hst by by exists cs. destruct (stored_as_changes _ _ _ _ _ _ En Hst) as (Hid & Hst2 & _).
  apply gom_bind_inv in E as (y & b1 & E1 & E). destruct (help_mutate_settles _ _ _ _ _ _ _ _ _ Ec eq_refl Hw E1) as [K Hx].
  assert (∀ r0 e, writes r c r0 e → record_writes m r0 e) as Hwr by (intros r0 e [-> He]; by exists n, fp, c, f).
  pose proof (follows_mono _ _ _ _ Hwr K) as K'. destruct y as [o|e]; [|destruct E as [-> ->]; by split].
  apply mret_inv in E as [-> ->]. split; [done|]. intros out [= <-]. exists n, fp, r. cbn. split; [done|].
  destruct (domain_changes_Ok _ _ _ _ Ed) as (_ & Hall & _). split; [done|]. split; [done|]. rewrite <-Hid.
  eapply settles_mono; [exact Hwr|]. eapply settles_impl; [|by apply Hx]. intros v v' Hcv. by eapply commits_records.
Qed.

(** *** One record *)

(** The change that [Create], [CompareAndSwap] and [Delete_] make. *)
Definition single_change (key : State.Key) (expected : State.Version) (remove : bool) (data : gostring) : State.Change :=
  {| State.Change_Key := key;
     State.Change_Requirement := if bool_decide (expected ≠ []) || remove then State.RequirementPresent else State.RequirementAbsent;
     State.Change_ExpectedVersion := expected; State.Change_Delete := remove; State.Change_Data := data |}.

Definition lone_mutation (id : gostring) (st : consistencyDomainChange) : consistencyDomainMutation :=
  {| ID := id; TransitionID := []; RetainUntil := zero_time; Changes := [st]; Result := None; ExpectedRevision := None |}.

Definition single_writes (sc : State.Change) (r : consistencyDomainRef) (e : event) : Prop :=
  stateDomainReferenceForKey (State.Change_Key sc) = Ok r ∧
  ∃ id st c f, domain_change sc = Ok st ∧ normalizeConsistencyDomainMutation (lone_mutation id st) = Ok (c, f) ∧ executes c e.

Lemma new_mutation_ok key expected data remove b x b' :
  newStateDomainMutation key expected data remove b = (x, b') →
  blob_le b b' ∧ ∀ c version, x = Ok (c, version) → ∃ id st f, domain_change (single_change key expected remove data) = Ok st ∧
    normalizeConsistencyDomainMutation (lone_mutation id st) = Ok (c, f) ∧ ID c = id ∧ Changes c = [st] ∧
    version = consistencyDomainLogicalVersion id f st.
Proof.
  intros E. unfold newStateDomainMutation in E. apply gom_bind_inv in E as (y & b1 & E1%draw_sound & E).
  destruct y as [id|e]; [|destruct E as [-> ->]; by split]. pure_step E.
  destruct (if remove then _ else _) as [value|e] eqn:Ev; [|destruct E as [-> ->]; by split].
  pure_step E. destruct (normalizeConsistencyDomainMutation _) as [[c f]|e] eqn:En; [|destruct E as [-> ->]; by split].
  apply mret_inv in E as [-> ->]. split; [done|]. intros ? ? [= <- <-]. set (sc := single_change key expected remove data).
  assert (∃ st, domain_change sc = Ok st ∧ single_mutation id key expected remove value = lone_mutation id st) as (st & Hst & Hm).
  { unfold sc, domain_change, single_change. cbn [State.Change_Delete State.Change_Data State.Change_Key]. rewrite Ev. cbn [mbind result_bind]. eexists. split; [reflexivity|]. done. }
  rewrite Hm in En. exists id, st, f. split; [done|]. split; [done|]. destruct (normalize_Ok _ _ _ En) as (-> & _). split; [done|].
  cbn [Changes with_changes lone_mutation]. done.
Qed.

Lemma single_settles sc id st c f m m' :
  domain_change sc = Ok st → normalizeConsistencyDomainMutation (lone_mutation id st) = Ok (c, f) → commits c f m m' →
  records_changed [sc] [change_version id f sc st] m m'.
Proof.
  intros Hst En [Hp ->]. destruct (normalize_Ok _ _ _ En) as (-> & Hs & _). cbn [Changes ID with_changes lone_mutation] in *.
  assert (merge_sort domain_change_le [st] = [st]) as Hsort by done. rewrite Hsort in *. split_and!.
  - apply Forall_singleton. exact (permits_admitted _ _ _ Hst (Forall_inv Hp)).
  - constructor; [|constructor]. apply stored_change_applied; [done|by left|done].
  - intros k Hk. apply commit_others. cbn in *. by destruct (domain_change_Ok _ _ Hst) as (-> & _).
Qed.

(** A write of one record, from drawing its ID. *)
Lemma write_one key expected remove data contended b x b' :
  let sc := single_change key expected remove data in
  all_ok b →
  ('(mutation, version) ← newStateDomainMutation key expected data remove;
   reference ← lift (stateDomainReferenceForKey key);
   _ ← with_help fuel depth 8 reference (mutate reference fuel mutation) contended;
   mret version) b = (x, b') →
  follows (single_writes sc) b b' ∧
  ∀ version, x = Ok version → ∃ r id replayed, stateDomainReferenceForKey key = Ok r ∧
    settles (single_writes sc) r id replayed
      (records_changed [sc] [{| State.ChangeResult_Key := key; State.ChangeResult_Version := if remove then [] else version |}]) b b'.
Proof.
  intros sc Hw E. apply gom_bind_inv in E as (y & b1 & E1 & E). destruct (new_mutation_ok _ _ _ _ _ _ _ E1) as [Hle Hm].
  pose proof (follows_le (single_writes sc) _ _ Hle) as K1. destruct y as [[c version]|e]; [|destruct E as [-> ->]; by split].
  destruct (Hm _ _ eq_refl) as (id & st & f & Hst & En & Hid & Hcs & Hver). pure_step E.
  destruct (stateDomainReferenceForKey key) as [r|e] eqn:Er; [|destruct E as [-> ->]; by split].
  apply gom_bind_inv in E as (y & b2 & E2 & E). destruct (help_mutate_settles _ _ _ _ _ _ _ _ _ En eq_refl (follows_ok _ _ _ K1 Hw) E2) as [K2 Hx].
  assert (∀ r0 e, writes r c r0 e → single_writes sc r0 e) as Hwr.
  { intros r0 e [-> He]. split; [done|]. by exists id, st, c, f. }
  pose proof (follows_trans _ _ _ _ K1 (follows_mono _ _ _ _ Hwr K2)) as K. destruct y as [o|e]; [|destruct E as [-> ->]; by split].
  apply mret_inv in E as [-> ->]. split; [done|]. intros ? [= <-]. exists r, (ID c), (Replayed o). split; [done|].
  eapply settles_before; [exact K1|]. eapply settles_mono; [exact Hwr|]. eapply settles_impl; [|by apply Hx]. intros m m' Hc.
  pose proof (single_settles _ _ _ _ _ _ _ Hst En Hc) as Hs. unfold change_version in Hs. by rewrite <-Hver in Hs.
Qed.

(** *** Several domains *)

Lemma state_normalize_again m n fp n' fp' :
  State.NormalizeMutation m = Ok (n, fp) → State.NormalizeMutation n = Ok (n', fp') → n' = n.
Proof.
  intros (_ & _ & _ & _ & Hss)%StateTheory.NormalizeMutation_spec E'.
  pose proof (StateTheory.NormalizeMutation_spec _ _ _ E') as (Hid & Hres & Hperm & _ & Hss').
  assert (State.Mutation_Changes n' = State.Mutation_Changes n) as Hcs.
  { apply (sorted_by_ext StateTheory.change_key); [done..|]. intros c. by rewrite Hperm. }
  unfold State.NormalizeMutation in E'. do 3 (apply result_bind_Ok in E' as (? & _ & E')). injection E' as <- _. cbn in *. rewrite Hcs. by destruct n.
Qed.

Lemma create_plan_ok plan b x b' : createOrReadTransitionPlan009 plan b = (x, b') → obeys b b'.
Proof.
  intros E. unfold createOrReadTransitionPlan009 in E. pure_step E. destruct (TransitionPlanKey _) as [key|e] eqn:Ek; [|destruct E as [_ ->]; apply obeys_refl].
  pure_step E. destruct (EncodeEnvelope _ _ _ _) as [body|e]; [|destruct E as [_ ->]; apply obeys_refl].
  apply gom_bind_inv in E as (y & b1 & (w & E1 & ->)%attempt_inv & E).
  apply (put_acts (protocol b1)) in E1; [|by eapply plan_key_mutable|by eapply plan_headless].
  destruct w as [v|e]; [by apply mret_inv in E as [_ ->]|]. pure_step E. destruct (guard_err _ _); [|by destruct E as [_ ->]].
  apply gom_bind_inv in E as (y & b2 & E2%get_quiet & E). pose proof (obeys_then _ _ _ E1 E2) as K. destruct y as [o|e']; [|by destruct E as [_ ->]].
  destruct (DecodeEnvelope _ _ _) as [[env existing]|]; [|by injection E as _ <-]. pure_step E. destruct (guard_err _ _); [|by destruct E as [_ ->]].
  pure_step E. destruct (guard_err _ _); [by apply mret_inv in E as [_ ->]|by destruct E as [_ ->]].
Qed.

(** The participant of a domain carries every change of its records. *)
Definition covers (groups : list (consistencyDomainRef * list TransitionChange009)) (c : State.Change) : Prop :=
  ∃ r cs, stateDomainReferenceForKey (State.Change_Key c) = Ok r ∧ (r, cs) ∈ groups ∧ transition_change c ∈ cs.

Lemma add_change_elem r c groups r' cs :
  (r', cs) ∈ groups → ∃ cs', (r', cs') ∈ add_change r c groups ∧ ∀ c', c' ∈ cs → c' ∈ cs'.
Proof.
  induction groups as [|[r0 cs0] groups IH]; [by intros ?%not_elem_of_nil|]. cbn [add_change]. intros [[= -> ->]|Hin]%elem_of_cons.
  - case_bool_decide; [exists (cs0 ++ [c])|exists cs0]; (split; [by left|]); [|done]. intros c' Hc'. apply elem_of_app. by left.
  - case_bool_decide; [exists cs; split; [by right|done]|]. destruct (IH Hin) as (cs' & Hin' & Hsub). exists cs'. split; [by right|done].
Qed.

Lemma add_change_new r c groups : ∃ cs, (r, cs) ∈ add_change r c groups ∧ c ∈ cs.
Proof.
  induction groups as [|[r0 cs0] groups IH]; cbn [add_change]; [exists [c]; split; by left|]. case_bool_decide as Hr.
  - subst. exists (cs0 ++ [c]). split; [by left|]. apply elem_of_app. right. by left.
  - destruct IH as (cs & Hin & Hc). exists cs. split; [by right|done].
Qed.

Lemma covers_add r c0 groups c : covers groups c → covers (add_change r c0 groups) c.
Proof.
  intros (r' & cs & Hr & Hin & Hc). destruct (add_change_elem r c0 groups r' cs Hin) as (cs' & Hin' & Hsub). exists r', cs'. auto.
Qed.

Lemma group_covers changes groups groups' :
  group_by_reference changes groups = Ok groups' → (∀ c, covers groups c → covers groups' c) ∧ Forall (covers groups') changes.
Proof.
  revert groups. induction changes as [|c changes IH]; intros groups E; cbn [group_by_reference] in E; [injection E as ->; by split|].
  apply result_bind_Ok in E as (r & Hr & E). destruct (IH _ E) as [Hmono Hall]. split; [intros c' Hc'; by apply Hmono, covers_add|].
  constructor; [|done]. apply Hmono. destruct (add_change_new r (transition_change c) groups) as (cs & Hin & Hc). by exists r, cs.
Qed.

(** The plan of a mutation: every change is with the participant of its domain. *)
Definition plans (plan : TransitionPlan009) (n : State.Mutation) : Prop :=
  Plan_TransitionID plan = State.Mutation_ID n ∧
  Forall (λ c, ∃ p, p ∈ Plan_Participants plan ∧ stateDomainReferenceForKey (State.Change_Key c) = Ok (transitionReference009 p) ∧
                    transition_change c ∈ Participant_Changes p) (State.Mutation_Changes n).

Lemma transition_plan_ok n fp b x b' :
  transitionPlan009 n fp b = (x, b') → blob_le b b' ∧ ∀ plan, x = Ok plan → plans plan n ∧ ValidateTransitionPlan009 plan = Ok tt.
Proof.
  intros E. unfold transitionPlan009 in E. pure_step E. destruct (group_by_reference _ _) as [groups|e] eqn:Eg; [|destruct E as [-> ->]; by split].
  pure_step E. destruct (guard_err _ _); [|destruct E as [-> ->]; by split].
  apply gom_bind_inv in E as (y & b1 & E1 & E).
  assert (blob_le b b1) as Hle.
  { destruct (IsZero _); [|by apply mret_inv in E1 as [_ ->]]. apply gom_bind_inv in E1 as (t & b2 & E2%quietly_now & E1).
    destruct t; [by apply mret_inv in E1 as [_ ->]|by destruct E1 as [_ ->]]. }
  destruct y as [retain|e]; [|destruct E as [-> ->]; by split]. cbn zeta in E. pure_step E.
  destruct (ValidateTransitionPlan009 _) as [[]|e] eqn:Ev; [|destruct E as [-> ->]; by split]. apply mret_inv in E as [-> ->]. split; [done|].
  intros plan [= <-]. split; [|done]. split; [done|]. destruct (group_covers _ _ _ Eg) as [_ Hall]. eapply list.Forall_impl; [exact Hall|].
  intros c (r & cs & Hr & Hin & Hc). exists (group_participant (r, cs)). split; [|split].
  - cbn. unfold SortTransitionParticipants009. rewrite merge_sort_Permutation. by apply list_elem_of_fmap_2.
  - rewrite Hr. by destruct r.
  - cbn. by rewrite merge_sort_Permutation.
Qed.

(** A mutation across domains: the stored forms of its changes, and the plan. *)
Definition wrapped_as (n w : State.Mutation) : Prop :=
  ∃ cs fp, wrap_changes (State.Mutation_Changes n) = Ok cs ∧
    State.NormalizeMutation {| State.Mutation_ID := State.Mutation_ID n; State.Mutation_RetainUntil := State.Mutation_RetainUntil n;
      State.Mutation_Changes := cs; State.Mutation_Result := State.Mutation_Result n |} = Ok (w, fp).

#[local] Opaque executeTransition009.

Lemma transact_ok m b x b' :
  all_ok b → Transact fuel depth m b = (x, b') →
  follows (record_writes m) b b' ∧
  ∀ out, x = Ok out → ∃ n fp, State.NormalizeMutation m = Ok (n, fp) ∧
    ((∃ r, Forall (λ c, stateDomainReferenceForKey (State.Change_Key c) = Ok r) (State.Mutation_Changes n) ∧
           settles (record_writes m) r (State.Mutation_ID n) (State.Outcome_Replayed out)
             (records_changed (State.Mutation_Changes n) (State.Outcome_Changes out)) b b') ∨
     ∃ w plan d b1, wrapped_as n w ∧ plans plan w ∧ obeys b b1 ∧ carried_out plan d b1 b' ∧ Decision_Committed d = true ∧
       transitionOutcome009 n plan (State.Outcome_Replayed out) = Ok out).
Proof.
  intros Hw E. unfold Transact in E. assert (follows (record_writes m) b b) as K0 by by apply follows_le.
  pure_step E. destruct (State.NormalizeMutation m) as [[n fp]|e] eqn:En; [|destruct E as [-> ->]; by split].
  pure_step E. destruct (change_references _) as [refs|e]; [|destruct E as [-> ->]; by split].
  destruct (_ =? 1)%nat.
  { destruct (mutate_records _ _ _ _ Hw E) as [K Hx].
    assert (∀ r e, record_writes n r e → record_writes m r e) as Hwr.
    { intros r e (n' & fp' & c & f & En' & Hst & He). pose proof (state_normalize_again _ _ _ _ _ En En') as ->. by exists n, fp, c, f. }
    split; [by eapply follows_mono|]. intros out Hout. exists n, fp. split; [done|]. left. destruct (Hx out Hout) as (n' & fp' & r & En' & Hall & _ & Hs).
    pose proof (state_normalize_again _ _ _ _ _ En En') as ->. exists r. split; [done|]. by eapply settles_mono. }
  pure_step E. destruct (wrap_changes _) as [cs|e] eqn:Ewrap; [|destruct E as [-> ->]; by split].
  pure_step E. destruct (State.NormalizeMutation (State.Build_Mutation _ _ _ _)) as [[w fp']|e] eqn:Ew; [|destruct E as [-> ->]; by split].
  apply gom_bind_inv in E as (y & b1 & E1 & E). destruct (transition_plan_ok _ _ _ _ _ E1) as [Hle1 Hpl]. apply obeys_le in Hle1 as K1.
  destruct y as [plan|e]; [|destruct E as [-> ->]; split; [by apply follows_obeys|done]]. destruct (Hpl plan eq_refl) as [Hplan _].
  apply gom_bind_inv in E as (y & b2 & E2%create_plan_ok & E). pose proof (obeys_trans _ _ _ K1 E2) as K2.
  destruct y as [[sn created]|e]; [|destruct E as [-> ->]; split; [by apply follows_obeys|done]].
  apply gom_bind_inv in E as (y & b3 & E3 & E).
  assert (blob_le b2 b3) as Hle3 by (destruct created; [by eapply quietly_step|by apply mret_inv in E3 as [_ ->]]).
  pose proof (obeys_then _ _ _ K2 Hle3) as K3. destruct y; [|destruct E as [-> ->]; split; [by apply follows_obeys|done]].
  apply gom_bind_inv in E as (y & b4 & E4 & E). destruct (execute_ok fuel rivals _ _ _ _ _ (obeys_ok rivals _ _ K3 Hw) E4) as [K4 Hd].
  pose proof (obeys_trans _ _ _ K3 K4) as K. destruct y as [d|e]; [|destruct E as [-> ->]; split; [by apply follows_obeys|done]].
  pure_step E. destruct (Decision_Committed d) eqn:Ed; cbn [negb guard_err] in E; [|destruct E as [-> ->]; split; [by apply follows_obeys|done]].
  apply lift_inv in E as [-> ->]. split; [by apply follows_obeys|]. intros out Hout. exists n, fp. split; [done|]. right.
  exists w, plan, d, b3. split; [by exists cs, fp'|]. split; [done|]. split; [done|]. split; [by apply Hd|]. split; [done|].
  assert (State.Outcome_Replayed out = negb created) as ->; [|done]. unfold transitionOutcome009 in Hout.
  apply result_bind_Ok in Hout as (vs & _ & Hout). by injection Hout as <-.
Qed.
End Engine.
End EngineTheory.
