(* ===== verification/ListTheory.v ===== *)
(** * What listings show

    A cursor opens to exactly what was sealed in it; a page holds the entries
    after the last key of the page before; and the snapshot a cursor names is the
    one its listing began with. *)

From Stdlib Require Import ZArith Lia.
From S2P Require Import Prelude GoLib GoHash GoJSON GoTime Errors ObjectStore StateStore StateTheory DomainPage DomainPageTheory DomainTree TreeTheory TreeRead TreeEdit DomainPack DomainHead TransitionFormat DomainSession TreeStream DomainProvider DomainCatalog StateRoute DomainStore EngineTransition EngineState EngineList HeadTheory RecordTheory SessionLaws PackTheory SessionReader IteratorTheory StreamTheory StreamProps StoreLaws StoreRead StoreSpec StoreCommit StoreCatalog StoreMutate StoreList EngineSpec TransitionTheory EngineTheory.

Open Scope Z_scope.

(** A sealed text opens under its nonce to what was sealed. *)
Class AEADLaws `{AEAD} : Prop := {
  open_sealed nonce text data : length nonce = NonceSize → Open_ nonce (Seal nonce text data) data = Some text;
  seal_nonempty nonce text data : length nonce = NonceSize → Seal nonce text data ≠ [];
}.

Module ListTheory.
Import ObjectStore StorageFormat PageTheory DomainTree TreeTheory TreeRead TreeEdit TreeIterator TreeBuilder TreeMerge DomainPack DomainHead HeadTheory TransitionFormat DomainSession DomainProvider DomainCatalog DomainStore StateRoute RecordTheory EngineTransition EngineState EngineList SessionLaws PackTheory SessionReader StoreLaws StoreRead StoreSpec StoreCommit StoreMutate StoreList EngineSpec TransitionTheory EngineTheory.

(** ** Documents *)

Definition cursor_text (c : stateListCursor) : Prop :=
  0 ≤ Cursor_SchemaVersion c ≤ MaxInt64 ∧ ValidString (Cursor_Prefix c) = true ∧ 0 ≤ Cursor_Limit c ≤ MaxInt64 ∧
  ValidString (Cursor_Namespace c) = true ∧ u64_ok (Cursor_Revision c) ∧ ValidString (Cursor_Snapshot c) = true ∧
  ValidString (Cursor_After c) = true ∧ year_ok (Cursor_ExpiresAt c) = true.

Lemma read_cursor_app c rest : cursor_text c → read_cursor (json_cursor c ++ rest) = Some (c, rest).
Proof.
  intros (H1 & H2 & H3 & H4 & H5 & H6 & H7 & H8). unfold read_cursor, json_cursor. open_object.
  erewrite step_first; [|value_side|follows].
  do 5 (erewrite step_next; [|value_side|follows]).
  rewrite (step_omit _ _ _ _ _ (Cursor_Composite c)); [|omit_side|omit_side|follows|follows].
  do 2 (erewrite step_next; [|value_side|follows]).
  rewrite more_nil, step_close. by destruct c.
Qed.

#[export] Program Instance cursor_laws : DocumentLaws stateListCursor := {| document_ok := cursor_text |}.
Next Obligation. intros c (_ & _ & _ & _ & _ & _ & _ & Ht). cbn. by rewrite Ht. Qed.
Next Obligation. intros c Hc. apply whole_text. intros rest. by apply read_cursor_app. Qed.

Definition query_text (q : StateQuerySnapshot) : Prop :=
  0 ≤ Query_SchemaVersion q ≤ MaxInt64 ∧ ValidString (Query_Prefix q) = true ∧ ValidString (Query_DomainID q) = true ∧
  root_text (Query_Root q) ∧ year_ok (Query_ExpiresAt q) = true.

Lemma read_query_app q rest : query_text q → read_query (json_query q ++ rest) = Some (q, rest).
Proof.
  intros (H1 & H2 & H3 & H4 & H5). unfold read_query, json_query. open_object.
  erewrite step_first; [|value_side|follows].
  do 2 (erewrite step_next; [|value_side|follows]).
  erewrite step_next; [|intros rest' _; by apply read_root_app|follows].
  erewrite step_next; [|value_side|follows].
  rewrite more_nil, step_close. by destruct q.
Qed.

#[export] Program Instance query_laws : DocumentLaws StateQuerySnapshot := {| document_ok := query_text |}.
Next Obligation. intros q (_ & _ & _ & _ & Ht). cbn. by rewrite Ht. Qed.
Next Obligation. intros q Hq. apply whole_text. intros rest. by apply read_query_app. Qed.

(** Keys and prefixes of records are ASCII. *)
Lemma join_ascii sep l : is_ascii sep → Forall is_ascii l → is_ascii (join sep l).
Proof.
  unfold is_ascii. intros Hsep. induction 1 as [|x l Hx Hl IH]; [constructor|]. destruct l as [|y l]; [cbn; by rewrite ?app_nil_r|].
  rewrite join_cons by done. by apply Forall_app; split; [|apply Forall_app].
Qed.

Lemma b64_is_ascii v : is_ascii (b64_encode v).
Proof.
  unfold is_ascii. eapply list.Forall_impl; [apply b64_encode_alphabet|]. intros c [z Hz]. unfold b64_val in Hz. by destruct c as [[] [] [] [] [] [] [] []].
Qed.

Lemma encodedPath_ascii ns ps v : State.encodedPath ns ps = Ok v → is_ascii v.
Proof.
  intros (Hns & _ & ->)%State.encodedPath_Ok. apply join_ascii; [repeat constructor|]. constructor; [|apply Forall_map, Forall_true; intros; apply b64_is_ascii].
  repeat (apply elem_of_cons in Hns as [->|Hns]; [repeat constructor|]). by apply not_elem_of_nil in Hns.
Qed.

Lemma key_ascii ns ps k : State.NewKey ns ps = Ok k → is_ascii (State.key_value k).
Proof. unfold State.NewKey. intros (v & Hv & [= <-])%result_bind_Ok. by eapply encodedPath_ascii. Qed.

Lemma prefix_ascii ns ps p : State.NewPrefix ns ps = Ok p → is_ascii (State.prefix_value p).
Proof.
  unfold State.NewPrefix. intros (v & Hv & [= <-])%result_bind_Ok. apply Forall_app. split; [by eapply encodedPath_ascii|repeat constructor].
Qed.

Lemma parsed_ascii v k : parseExistingStateKey v = Ok k → is_ascii v.
Proof.
  unfold parseExistingStateKey. destruct (split_on "/" v) as [|ns ps]; [done|]. intros (ds & _ & E)%result_bind_Ok.
  destruct (State.NewKey ns ds) as [key|] eqn:Ek; [|done]. case_bool_decide as Hv; [|done]. rewrite <-Hv. by eapply key_ascii.
Qed.

Lemma first_part_ascii v : is_ascii v → is_ascii (first_part v).
Proof.
  unfold first_part, is_ascii. induction v as [|c v IH]; intros Hv; [constructor|]. inversion Hv as [|? ? Hc Hv']; subst. specialize (IH Hv').
  cbn. case_decide; [constructor|]. destruct (split_on "/" v); [by constructor|]. by constructor.
Qed.

(** ** Lists that are read in pages *)

Definition later (k : gostring) (L : list DomainEntry) : list DomainEntry := filter (λ e, bytes_lt k (Entry_Key e)) L.

Lemma later_page k L n e :
  sorted_entries L → last (take n (later k L)) = Some e → later (Entry_Key e) L = drop n (later k L).
Proof.
  intros Hs He. pose proof (sorted_filter (λ e, bytes_lt k (Entry_Key e)) L Hs) as Hl. fold (later k L) in Hl.
  assert (e ∈ later k L) as Hin.
  { apply last_Some_elem_of in He. rewrite <-(take_drop n (later k L)). apply elem_of_app. by left. }
  apply sorted_entries_ext; [by apply sorted_filter| |].
  { rewrite <-(take_drop n (later k L)) in Hl. by apply sorted_entries_app in Hl as (_ & ? & _). }
  intros e'. rewrite <-(take_drop n (later k L)) in Hl. apply sorted_entries_app in Hl as (Ht & _ & Hlt). apply last_Some in He as [l El].
  assert (e ∈ take n (later k L)) as Het by (rewrite El; apply elem_of_app; right; by left). split.
  - intros [Hlt' Hin']%list_elem_of_filter. assert (e' ∈ later k L) as Hr.
    { apply list_elem_of_filter. split; [|done]. apply list_elem_of_filter in Hin as [Hk _]. by etrans. }
    rewrite <-(take_drop n (later k L)), elem_of_app in Hr. destruct Hr as [Hr|?]; [|done]. exfalso. rewrite El in Ht, Hr.
    apply sorted_entries_app in Ht as (_ & _ & Hbefore). apply elem_of_app in Hr as [Hr|Hr].
    + apply (bytes_lt_asym _ _ Hlt'). apply Hbefore; [done|by left].
    + apply list_elem_of_singleton in Hr as ->. by apply (bytes_lt_asym _ _ Hlt').
  - intros Hd. apply list_elem_of_filter. split; [by apply Hlt|]. assert (e' ∈ later k L) as Hr.
    { rewrite <-(take_drop n (later k L)). apply elem_of_app. by right. }
    by apply list_elem_of_filter in Hr as [_ ?].
Qed.

Lemma filter_keyed (P : gostring * DomainEntry → Prop) `{∀ x, Decision (P x)} m : keyed m → keyed (filter P m).
Proof. intros Hk k e [? _]%map_lookup_filter_Some. by apply Hk. Qed.

Lemma listing_later prefix after m : keyed m → listing prefix after m = later after (listing prefix [] m).
Proof.
  intros Hk. unfold listing, later. apply sorted_entries_ext.
  - by apply sorted_values_spec, filter_keyed.
  - by apply sorted_filter, sorted_values_spec, filter_keyed.
  - intros e. rewrite list_elem_of_filter, !sorted_values_elem, !map_lookup_filter_Some by by apply filter_keyed.
    assert (bytes_lt after (Entry_Key e) → bytes_lt [] (Entry_Key e)); [|naive_solver]. intros Hlt. destruct (Entry_Key e); [by apply bytes_lt_nil in Hlt|done].
Qed.

Lemma listing_sorted prefix after m : keyed m → sorted_entries (listing prefix after m).
Proof. intros Hk. by apply sorted_values_spec, filter_keyed. Qed.

Lemma clone_keyed m : keyed m → keyed (clone_entry <$> m).
Proof. intros Hk k e. rewrite lookup_fmap. destruct (m !! k) as [e0|] eqn:E; [|done]. intros [= <-]. exact (Hk _ _ E). Qed.

Lemma join_total l : (sum_list_with length l ≤ length (join "," l))%nat.
Proof.
  induction l as [|x l IH]; [done|]. destruct l as [|y l]; [cbn; lia|]. rewrite join_cons by done. rewrite !length_app. cbn [sum_list_with] in *. lia.
Qed.

Lemma join_member l (f : gostring) : f ∈ l → (length f ≤ length (join "," l))%nat.
Proof.
  intros Hf. etrans; [|apply join_total]. induction l as [|x l IH]; [by apply not_elem_of_nil in Hf|]. cbn. apply elem_of_cons in Hf as [->|Hf]; [lia|]. specialize (IH Hf). lia.
Qed.

Lemma join_sum {A} (enc : A → gostring) (size : A → nat) l :
  (∀ a, size a ≤ length (enc a))%nat → (sum_list_with size l ≤ length (join "," (map enc l)))%nat.
Proof.
  intros Hs. etrans; [|apply join_total]. induction l as [|x l IH]; [done|]. cbn. specialize (Hs x). lia.
Qed.

Lemma delta_size d : (length (Delta_Changes d) ≤ length (json_delta d))%nat.
Proof.
  destruct (decide (Delta_Changes d = [])) as [->|Hne]; [cbn; lia|]. unfold json_delta, json_object. rewrite !length_app.
  rewrite bool_decide_eq_false_2 by done. set (f := json_field "changes" _). assert (length (Delta_Changes d) ≤ length f)%nat.
  { unfold f, json_field, json_array. rewrite !length_app. pose proof (join_length_ge json_change (Delta_Changes d) ltac:(by intros)). lia. }
  match goal with |- context [join _ ?l] => assert (length f ≤ length (join "," l))%nat as Hj; [apply join_member|lia] end. apply elem_of_app. left. do 4 right. by left.
Qed.

(** The changes of a head are no more than the bytes of its document. *)
Lemma window_bound h text : encode_document h = Ok text → len (window_changes h) ≤ MaxCanonicalBytes.
Proof.
  intros [-> Hlen]%encode_document_Ok. enough (length (window_changes h) ≤ length (json_head h))%nat by (unfold len in *; cbn in *; lia).
  unfold window_changes. destruct (decide (Head_Deltas h = [])) as [->|Hne]; [cbn; lia|]. unfold json_head, json_object. rewrite !length_app.
  set (f := json_field "deltas" _). assert (length (concat (map Delta_Changes (Head_Deltas h))) ≤ length f)%nat as Hf.
  { unfold f, json_field, json_array. rewrite !length_app. pose proof (join_sum json_delta (λ d, length (Delta_Changes d)) (Head_Deltas h)) as Hd.
    assert (length (concat (map Delta_Changes (Head_Deltas h))) = sum_list_with (λ d, length (Delta_Changes d)) (Head_Deltas h)) as ->.
    { clear. induction (Head_Deltas h) as [|d ds IH]; [done|]. cbn. by rewrite length_app, IH. }
    specialize (Hd delta_size). lia. }
  match goal with |- context [join _ ?l] => assert (length f ≤ length (join "," l))%nat as Hj; [apply join_member|lia] end. rewrite (bool_decide_eq_true_2 (Head_Deltas h ≠ [])) by done. rewrite !elem_of_app. do 5 right. by left.
Qed.

(** ** Cursors *)

Section Cursor.
Context `{SHA256} `{!SHA256Laws} `{GZIP} `{!GZIPLaws} `{AEAD} `{!AEADLaws} {B : Type} `{!Engine B, !ProviderView B, !EngineLaws B}.

(** [value] opens to [c] if to anything. *)
Definition opens (value : gostring) (c : stateListCursor) : Prop := value ≠ [] ∧ ∀ c', decodeStateListCursor value = Ok c' → c' = c.

Lemma encode_cursor_ok (c : stateListCursor) (b : B) x b' :
  encodeStateListCursor c b = (x, b') → blob_le b b' ∧ ∀ value, x = Ok value → (year_ok (Cursor_ExpiresAt c) = true → cursor_text c) → opens value c.
Proof.
  unfold encodeStateListCursor. intros E. pure_step E. destruct (encode_document c) as [body|] eqn:Eb; [|by destruct E as [-> ->]].
  apply gom_bind_inv in E as (y & b1 & E1 & E). pose proof (draw_sound _ _ _ _ E1) as Hle. destruct y as [random|]; [|by destruct E as [-> ->]].
  destruct (b64_decode random) as [material|]; [|apply (lift_inv (Err _)) in E as [-> ->]; by split].
  pure_step E. destruct (Nat.ltb_spec (length material) NonceSize) as [|Hn]; cbn [guard_err] in E; [by destruct E as [-> ->]|].
  apply mret_inv in E as [-> ->]. split; [done|]. intros ? [= <-] Hc. set (nonce := take NonceSize material).
  assert (length nonce = NonceSize) as Hlen by (apply length_take_le; lia). split.
  { intros E. apply (f_equal b64_decode) in E. rewrite b64_decode_encode in E. injection E as E. apply app_nil in E as [_ E]. by apply seal_nonempty in E. }
  unfold decodeStateListCursor. rewrite b64_decode_encode. intros c' (u & Hu & E)%result_bind_Ok.
  rewrite (take_app_length' nonce), (drop_app_length' nonce), open_sealed in E by done.
  assert (decodeCanonicalValue body = Ok c) as Ed; [|rewrite Ed in E; by apply result_bind_Ok in E as (? & _ & [= <-])].
  apply decodeCanonicalValue_encoded; [|done]. apply Hc. unfold encode_document in Eb. inv_go. cbn in *. by rewrite andb_true_r, negb_false_iff in *.
Qed.

(** ** One page *)

(** The item of an entry. *)
Definition shows_item (e : DomainEntry) (item : State.Item) : Prop :=
  parseExistingStateKey (Entry_Key e) = Ok (State.Item_Key item) ∧
  decodeStateValue009 (State.Item_Key item) (default [] (Entry_Value e)) = Ok (State.Value_Data (State.Item_Value item)) ∧
  Entry_LogicalVersion e = State.Value_Version (State.Item_Value item).

Lemma items_show es items : statePageFromEntries es = Ok items → Forall2 shows_item es items.
Proof.
  revert items. induction es as [|e es IH]; intros items E; cbn [statePageFromEntries] in E; [by injection E as <-|]. inv_go. injection E as <-. constructor; [done|by apply IH].
Qed.

(** A page of [n] entries of [R], and the cursor to the rest. *)
Definition page_of (n : nat) (R : list DomainEntry) (cursor : gostring → stateListCursor) (page : State.Page) : Prop :=
  Forall2 shows_item (take n R) (State.Page_Items page) ∧
  ((length R ≤ n)%nat ∧ State.Page_NextCursor page = [] ∨
   (n < length R)%nat ∧ ∃ e, last (take n R) = Some e ∧ opens (State.Page_NextCursor page) (cursor (Entry_Key e))).

Lemma quietly_page limit entries cursor : quietly (finish_page (B := B) limit entries cursor).
Proof.
  unfold finish_page. apply quietly_bind; [apply quietly_lift|]. intros items. destruct (last _); [|apply quietly_ret]. destruct (_ <? _); [|apply quietly_ret].
  apply quietly_bind; [|intros; apply quietly_ret]. intros b x b' E. by apply encode_cursor_ok in E as [? _].
Qed.

Lemma page_correct n R cursor (b b' : B) page :
  (1 ≤ n)%nat → finish_page (Z.of_nat n) (take (S n) R) cursor b = (Ok page, b') →
  (∀ k, (n < length R)%nat → is_ascii k → year_ok (Cursor_ExpiresAt (cursor k)) = true → cursor_text (cursor k)) → page_of n R cursor page.
Proof.
  intros Hn E Hk. unfold finish_page in E. rewrite Nat2Z.id, take_take, Nat.min_l in E by lia. pure_step E.
  destruct (statePageFromEntries (take n R)) as [items|] eqn:Ei; [|by destruct E]. apply items_show in Ei.
  assert (Z.of_nat n <? len (take (S n) R) = bool_decide (n < length R)%nat) as Em.
  { unfold len. rewrite length_take. case_bool_decide; [apply Z.ltb_lt|apply Z.ltb_ge]; lia. }
  rewrite Em in E. destruct (last (take n R)) as [e|] eqn:El.
  - case_bool_decide as Hm.
    + apply gom_bind_inv in E as (y & b1 & E1 & E). destruct (encode_cursor_ok _ _ _ _ E1) as [_ Hc]. destruct y as [next|]; [|by destruct E].
      apply mret_inv in E as [[= ->] _]. split; [done|]. right. split; [done|]. exists e. split; [done|]. apply Hc; [done|]. apply Hk; [done|].
      apply last_Some in El as [l El]. rewrite El in Ei. apply Forall2_app_inv_l in Ei as (? & ? & _ & Hi & _). inversion Hi as [|? ? ? ? [Hp _]]; subst. by eapply parsed_ascii.
    + apply mret_inv in E as [[= ->] _]. split; [done|]. left. split; [lia|done].
  - apply mret_inv in E as [[= ->] _]. split; [done|]. left. split; [|done].
    apply last_None in El. apply (f_equal length) in El. rewrite length_take in El. cbn in El. lia.
Qed.
End Cursor.

(** ** Documents that are written once *)

Section Blobs.
Context `{SHA256} {B : Type} `{!Provider B, !ProviderView B, !ProviderLaws B}.

Lemma put_quiet k body (b : B) x b' : blob_key k → obj_put k body create_only b = (x, b') → blob_le b b'.
Proof.
  intros Hk E. destruct (blob_create k body b) as [y b1] eqn:Ec. pose proof Ec as E'. cbn in E'. unfold mbind, gom_bind in E'. rewrite E in E'.
  assert (b1 = b') as -> by (by destruct x; injection E' as _ <-). by destruct (blob_create_sound _ _ _ _ _ Hk Ec).
Qed.

Lemma get_blob k (b : B) x b' :
  blob_key k → obj_get k b = (x, b') → blob_le b b' ∧ ∀ o, x = Ok o → blob_contents b' !! key_value k = Some (Object_Body o).
Proof.
  intros Hk E. destruct (blob_get k b) as [y b1] eqn:Ec. pose proof Ec as E'. cbn in E'. unfold mbind, gom_bind in E'. rewrite E in E'.
  destruct (blob_get_sound _ _ _ _ Hk Ec) as [Hle Hb]. destruct x as [o|e]; injection E' as <- <-; (split; [done|]).
  - intros ? [= <-]. by apply Hb.
  - done.
Qed.

Lemma head_encodes r (b : B) h : head_is r b h → ∃ text, encode_document h = Ok text.
Proof. intros (key & body & v & env & _ & _ & E). unfold DecodeEnvelope in E. repeat (apply result_bind_Ok in E as (? & ? & E)). injection E as -> ->. eauto. Qed.
End Blobs.

(** No stored document passes for another one that was stored or offered. *)
Definition documents_free {B} `{SHA256, !ProviderView B} (b : B) : Prop :=
  ∀ k body text, blob_contents b !! k = Some body → text ∈ offered b → Digest body = Digest text → body = text.

Lemma documents_free_sub {B} `{SHA256, !ProviderView B} (b b' : B) :
  blob_contents b ⊆ blob_contents b' → offered b ⊆ offered b' → documents_free b' → documents_free b.
Proof. intros Hc Ho Hf k body text Hb Ht. apply (Hf k); [by eapply lookup_weaken|by apply Ho]. Qed.

Lemma documents_free_le {B} `{SHA256, !Provider B, !ProviderView B, !ProviderLaws B} (b b' : B) : blob_le b b' → documents_free b' → documents_free b.
Proof. intros Hle. apply documents_free_sub; [by apply blob_le_contents|by apply offered_le]. Qed.

(** Snapshots are such documents. *)
Class SnapshotLaws `{SHA256} (B : Type) `{!BlobView B} : Prop := {
  snapshot_key_blob kind id d k : DomainSnapshotKey kind id d = Ok k → blob_key k;
  query_key_blob d k : StateQuerySnapshotKey d = Ok k → blob_key k;
}.

(** ** Listing one domain *)

Section Domain.
Context `{SHA256} `{!SHA256Laws} `{GZIP} `{!GZIPLaws} {B : Type} `{!Provider B, !ProviderView B, !ProviderLaws B, !SnapshotLaws B}.
Variable r : consistencyDomainRef.
Hypothesis rivals : ∀ b b' : B, blob_le b b' → world_ok r b → world_ok r b'.


Definition head_snapshot (h : DomainHead) (expires : Z) : DomainSnapshot :=
  {| Snapshot_SchemaVersion := 1; Snapshot_DomainID := Ref_ID r; Snapshot_Kind := Ref_Kind r; Snapshot_Head := h; Snapshot_ExpiresAt := expires |}.

(** [digest] is that of a snapshot of [h] that was offered to the store. *)
Definition names (h : DomainHead) (digest : gostring) (b : B) : Prop :=
  ∃ t text, ValidateDomainSnapshot (head_snapshot h t) = Ok tt ∧ encode_document (head_snapshot h t) = Ok text ∧ digest = Digest text ∧ text ∈ offered b.

Lemma names_sub h digest (b b' : B) : offered b ⊆ offered b' → names h digest b → names h digest b'.
Proof. intros Hle (t & text & ? & ? & ? & Ho). exists t, text. split; [done|]. split; [done|]. split; [done|]. by apply Hle. Qed.

Lemma write_snapshot_ok h t (b : B) x b' : writeHeadSnapshot r h t b = (x, b') → blob_le b b' ∧ ∀ digest, x = Ok digest → names h digest b'.
Proof.
  unfold writeHeadSnapshot. fold (head_snapshot h t). intros E. pure_step E. destruct (ValidateDomainSnapshot _) as [[]|] eqn:Ev; [|by destruct E as [-> ->]].
  pure_step E. destruct (encode_document (head_snapshot h t)) as [text|] eqn:Et; [|by destruct E as [-> ->]]. pure_step E.
  destruct (DomainSnapshotKey _ _ _) as [k|] eqn:Ek; [|by destruct E as [-> ->]]. apply gom_bind_inv in E as (y & b1 & (w & E1 & ->)%attempt_inv & E).
  pose proof (put_quiet _ _ _ _ _ (snapshot_key_blob _ _ _ _ Ek) E1) as Hle.
  pose proof (put_offers _ _ _ _ _ (snapshot_key_blob _ _ _ _ Ek) E1) as Ho. assert (names h (Digest text) b1) as Hn by by exists t, text.
  destruct w as [v|e]; [|destruct (errors_Is e ErrConflict)]; [apply mret_inv in E as [-> ->]|apply mret_inv in E as [-> ->]|apply (lift_inv (Err e)) in E as [-> ->]];
    (split; [done|]); intros ? [= <-]; done.
Qed.

Lemma load_snapshot_ok h digest (b : B) x b' :
  loadHeadSnapshot r digest b = (x, b') → blob_le b b' ∧
  ∀ h', x = Ok h' → names h digest b → head_typed h → ValidString (Head_DomainID h) = true → documents_free b' → h' = h.
Proof.
  unfold loadHeadSnapshot. intros E. pure_step E. destruct (guard_err _ _); [|by destruct E as [-> ->]]. pure_step E.
  destruct (DomainSnapshotKey _ _ _) as [k|] eqn:Ek; [|by destruct E as [-> ->]]. apply gom_bind_inv in E as (y & b1 & E1 & E).
  destruct (get_blob _ _ _ _ (snapshot_key_blob _ _ _ _ Ek) E1) as [Hle Ho]. destruct y as [o|]; [|by destruct E as [-> ->]]. specialize (Ho o eq_refl).
  pure_step E. case_bool_decide as Hd; cbn [guard_err] in E; [by destruct E as [-> ->]|]. pure_step E.
  destruct (decodeCanonicalValue (Object_Body o)) as [sn|] eqn:Es; [|by destruct E as [-> ->]]. pure_step E. destruct (guard_err _ _); [|by destruct E as [-> ->]].
  pure_step E. destruct (ValidateDomainSnapshot sn); [|by destruct E as [-> ->]]. apply mret_inv in E as [-> ->]. split; [done|].
  intros ? [= <-] (t & text & Ev & Et & -> & Hof) Hty Hid Hu. apply (offered_le _ _ Hle) in Hof.
  rewrite (Hu (key_value k) (Object_Body o) text Ho Hof Hd) in Es.
  rewrite (decodeCanonicalValue_encoded (head_snapshot h t) text) in Es; [by injection Es as <-| |done]. by eapply snapshot_valid_text.
Qed.

(** What a domain shows: nothing, or the values of a registered head that no transition holds. *)
Definition listed_at (b : B) (m : gmap gostring DomainEntry) : Prop :=
  at_head r b None ∧ m = ∅ ∨
  ∃ a, at_head r b (Some a) ∧ (registered a = false ∧ m = ∅ ∨ registered a = true ∧ values a !! transitionLockKey009 = None ∧ m = values a).

(** The head [h] of [b1], over the base tree [es]. *)
Definition seen (b1 : B) (h : DomainHead) (es : list DomainEntry) : Prop :=
  head_is r b1 h ∧ Head_Registered h = true ∧ contents h es !! transitionLockKey009 = None ∧ ∃ os xs, head_wf r b1 h es os xs.

Lemma seen_listed b1 h es : seen b1 h es → listed_at b1 (contents h es).
Proof.
  intros (Hh & Hr & Hl & os & xs & W). right. exists (domain_of h es os). split; [by exists h, es, os, xs|]. by right.
Qed.

Lemma seen_keyed b1 h es : seen b1 h es → keyed (clone_entry <$> contents h es).
Proof.
  intros (_ & _ & _ & os & xs & W). apply clone_keyed, change_map_keyed, entries_map_keyed.
  exact (proj1 (tree_holds_sorted r _ _ (page_key_blob r) (pack_key_blob r) _ _ _ (wf_base _ _ _ _ _ _ W))).
Qed.

Abbreviation shown prefix k h es := (listing prefix k (clone_entry <$> contents h es)).

#[local] Remove Hints session_pages session_view session_read_laws session_laws reader_view reader_laws : typeclass_instances.
#[local] Instance list_pages_of : PageStore (Session B) := pages_of_reference r.
#[local] Instance list_view : PageView (Session B) := reader_view r (session_pageKey r) (session_packKey r).
#[local] Instance list_laws : PageReadLaws (Session B) := reader_laws r (session_pageKey r) (session_packKey r) (page_key_blob r) (pack_key_blob r).

Lemma quietly_list h prefix k limit : quietly (listAtHead r h prefix k limit).
Proof.
  apply (quietly_fresh r). unfold listAtHeadWithSession. apply growing_bind; [apply growing_collect|]. intros base.
  apply growing_bind; [apply growing_lift|]. intros _. apply growing_ret.
Qed.

(** Listing at a head that was seen before. *)
Lemma list_seen b1 h es prefix k n b x b' :
  seen b1 h es → after r b1 b → (n ≤ 1000)%nat → listAtHead r h prefix k (Z.of_nat (S n)) b = (x, b') →
  blob_le b b' ∧ ∀ entries, x = Ok entries → collision_free b' → entries = take (S n) (shown prefix k h es).
Proof.
  intros (Hh & _ & _ & os & xs & W) Ha Hn E. destruct (head_encodes _ _ _ Hh) as [text Ht]. pose proof (window_bound _ _ Ht) as Hw.
  assert (Z.of_nat (S n) + len (window_changes h) ≤ MaxInt64) as Hlim by (unfold MaxInt64; change MaxCanonicalBytes with 1048576 in Hw; lia).
  destruct (listAtHead_ok r b h es prefix k (S n) x b') as [Hle Hx]; [by apply Ha, W|lia|done|done|].
  split; [done|]. intros entries -> Hc. destruct (Hx Hc) as [[= ->]|(e & [=] & _)]. done.
Qed.

(** A head that was loaded. *)
Lemma load_absent b sn b1 :
  world_ok r b → loadHead r b = (Ok sn, b1) → negb (exists_ sn) || negb (Head_Registered (DomainStore.head sn)) = true → collision_free b1 → listed_at b1 ∅.
Proof.
  intros Hw E Eg Hc. destruct (load_at_head r rivals _ _ _ Hw E) as [_ Hload]. destruct (Hload sn eq_refl) as [_ Hat]. specialize (Hat Hc).
  destruct (exists_ sn); cbn in Eg; [|by left]. destruct Hat as (es & os & xs & _ & Ha). right. exists (domain_of (DomainStore.head sn) es os).
  split; [done|]. left. split; [|done]. by apply negb_true_iff in Eg.
Qed.

Lemma load_seen b sn b1 b2 :
  world_ok r b → loadHead r b = (Ok sn, b1) → negb (exists_ sn) || negb (Head_Registered (DomainStore.head sn)) = false →
  transitionLockAtHead009 r (DomainStore.head sn) b1 = (Ok None, b2) → collision_free b2 → ∃ es, seen b1 (DomainStore.head sn) es.
Proof.
  intros Hw E [Eex%negb_false_iff Er%negb_false_iff]%orb_false_iff E2 Hc. destruct (load_at_head r rivals _ _ _ Hw E) as [_ Hload].
  destruct (Hload sn eq_refl) as [_ Hat]. rewrite Eex in Hat. destruct (loadHead_spec _ _ _ _ E) as [_ Hcur]. destruct (lock_free r _ _ _ _ E2) as [Hle2 Hlock].
  destruct (Hat (collision_free_le _ _ Hle2 Hc)) as (es & os & xs & W & Ha). exists es. split; [|split; [done|split; [by eapply Hlock|by exists os, xs]]].
  destruct (Hcur sn eq_refl) as (key & Ek & Hx). rewrite Eex in Hx. destruct Hx as (Hh & Hd & _). by exists key, (Object_Body (object sn)), (Object_Version (object sn)), (envelope sn).
Qed.

(** The first page of a listing. *)
Lemma list_first prefix k n t b x b' :
  world_ok r b → (n ≤ 1000)%nat → list_ r prefix k (Z.of_nat (S n)) t b = (x, b') → blob_le b b' ∧
  ∀ entries rev digest, x = Ok (entries, rev, digest) → ∃ b1, blob_le b b1 ∧ blob_le b1 b' ∧ (collision_free b' →
    listed_at b1 ∅ ∧ entries = [] ∨
    ∃ h es, seen b1 h es ∧ entries = take (S n) (shown prefix k h es) ∧ rev = Head_Revision h ∧ ((n < length entries)%nat → names h digest b')).
Proof.
  intros Hw Hn E. unfold list_ in E. pure_step E. destruct (guard_err _ _); [|by destruct E as [-> ->]].
  apply gom_bind_inv in E as (y & b1 & E1 & E). destruct (load_at_head r rivals _ _ _ Hw E1) as [Hle1 Hload]. destruct y as [sn|]; [|by destruct E as [-> ->]].
  clear Hload. destruct (negb (exists_ sn) || negb (Head_Registered (DomainStore.head sn))) eqn:Eg.
  { apply mret_inv in E as [-> ->]. split; [done|]. intros ??? [= <- <- <-]. exists b1. split; [done|]. split; [done|]. intros Hc. left. split; [|done].
    by eapply load_absent. }
  apply gom_bind_inv in E as (l & b2 & E2 & E). destruct (lock_free r _ _ _ _ E2) as [Hle2 _]. assert (blob_le b b2) as Hle02 by by etrans.
  destruct l as [l|]; [|by destruct E as [-> ->]]. pure_step E. case_bool_decide as Hl; cbn [guard_err] in E; [by destruct E as [-> ->]|].
  assert (l = None) as -> by (destruct l; [by destruct Hl|done]).
  assert (collision_free b2 → ∃ es, seen b1 (DomainStore.head sn) es) as Hseen by by eapply load_seen.
  apply gom_bind_inv in E as (z & b3 & E3 & E). pose proof (quietly_list _ _ _ _ _ _ _ E3) as Hle3. assert (blob_le b1 b3) as Hle13 by by etrans.
  assert (blob_le b b3) as Hle03 by by etrans. destruct z as [entries|]; [|by destruct E as [-> ->]].
  assert (∀ h es, seen b1 h es → h = DomainStore.head sn → collision_free b3 → entries = take (S n) (shown prefix k h es)) as Hent.
  { intros h es Hs -> Hc. by destruct (list_seen _ _ _ _ _ _ _ _ _ Hs (after_le r _ _ Hle2) Hn E3) as [_ Hx]; apply Hx. }
  destruct (Z.ltb_spec (len entries) (Z.of_nat (S n))) as [Hshort|Hlong].
  - apply mret_inv in E as [-> ->]. split; [done|]. intros ??? [= <- <- <-]. exists b1. split; [done|]. split; [done|]. intros Hc. right.
    destruct (Hseen (collision_free_le _ _ Hle3 Hc)) as [es Hs]. exists (DomainStore.head sn), es. split; [done|]. split; [by apply Hent|]. split; [done|].
    unfold len in Hshort. lia.
  - apply gom_bind_inv in E as (w & b4 & E4 & E). destruct (write_snapshot_ok _ _ _ _ _ E4) as [Hle4 Hd]. destruct w as [d|]; [|destruct E as [-> ->]; split; [by etrans|done]].
    apply mret_inv in E as [-> ->]. split; [by etrans|]. intros ??? [= <- <- <-]. exists b1. split; [done|]. split; [by etrans|]. intros Hc. right.
    pose proof (collision_free_le _ _ Hle4 Hc) as Hc3. destruct (Hseen (collision_free_le _ _ Hle3 Hc3)) as [es Hs]. exists (DomainStore.head sn), es. split; [done|]. split; [by apply Hent|].
    split; [done|]. intros _. by apply Hd.
Qed.

(** A further page, from the snapshot that [digest] names. *)
Lemma list_next b1 h es digest prefix k n b x b' :
  (n ≤ 1000)%nat → listSnapshot r digest prefix k (Z.of_nat (S n)) b = (x, b') → blob_le b b' ∧
  ∀ entries rev, x = Ok (entries, rev) → seen b1 h es → after r b1 b → names h digest b → documents_free b' → collision_free b' →
    entries = take (S n) (shown prefix k h es) ∧ rev = Head_Revision h.
Proof.
  intros Hn E. unfold listSnapshot in E. apply gom_bind_inv in E as (y & b2 & E1 & E). destruct (load_snapshot_ok h _ _ _ _ E1) as [Hle1 Hh].
  destruct y as [h'|]; [|by destruct E as [-> ->]]. apply gom_bind_inv in E as (z & b3 & E2 & E). pose proof (quietly_list _ _ _ _ _ _ _ E2) as Hle2.
  assert (blob_le b b3) as Hle by by etrans. destruct z as [entries|]; [|by destruct E as [-> ->]]. apply mret_inv in E as [-> ->]. split; [done|].
  intros ?? [= <- <-] Hs Ha Hd Hu Hc. pose proof Hs as (Hi & _ & _ & os & xs & W). assert (h' = h) as ->.
  { apply Hh; [done|done|apply W| |by eapply documents_free_le]. destruct Hi as (key & body & v & env & Ek & _). eapply bound_text; [done|apply W]. }
  split; [|done]. eapply (list_seen b1); [done| |done|exact E2|done|done]. eapply after_trans; [done|by apply after_le].
Qed.
End Domain.

(** ** Sessions that go on elsewhere *)

Section Resume.
Context `{SHA256} `{GZIP} {B : Type} `{!Provider B, !BlobView B, !BlobLaws B}.
Variables (reference : consistencyDomainRef) (pageKey packKey : gostring → res ObjectStore.Key).

Lemma resumed_step (s : Session B) b :
  session_inv reference pageKey packKey s → blob_le (backend s) b → session_step reference pageKey packKey s (set_backend b s).
Proof.
  intros Hi Hle. apply same_step; try done; [|by right]. intros id m Hm. eapply pack_at_le; [exact Hle|]. by apply (si_packs _ _ _ _ Hi).
Qed.

Lemma resumed_stream (s : Session B) b :
  SessionStream.stream_inv reference pageKey packKey s → blob_le (backend s) b →
  grows (PageView0 := SessionStream.stream_view reference pageKey packKey) s (set_backend b s).
Proof. intros [Hi Hp] Hle. apply SessionStream.stream_grows; [by apply resumed_step|done]. Qed.

Lemma resumed_reader (s : Session B) b :
  reader_inv reference pageKey packKey s → blob_le (backend s) b → grows (PageView0 := reader_view reference pageKey packKey) s (set_backend b s).
Proof. intros Hs Hle. apply reader_grows; [by apply resumed_step, Hle; apply Hs|done|done]. Qed.
End Resume.

(** Stored documents stay. *)
Section Documents.
Context `{SHA256} `{GZIP} {B : Type} `{!Engine B, !ProviderView B, !EngineLaws B}.

Lemma acts_contents Q (b b' : B) : acts Q b b' → blob_contents b ⊆ blob_contents b'.
Proof.
  intros (tr & Hs & _). induction Hs as [|? ? ? ? Hle _ IH|? ? ? ? ? Hr _ _ IH|? ? ? ? ? ? ? _ Hr _ _ IH]; [done|etrans; [by apply blob_le_contents|done]|..];
    by rewrite <-(rp_contents _ _ _ Hr).
Qed.

Lemma acts_offered Q (b b' : B) : acts Q b b' → offered b ⊆ offered b'.
Proof.
  intros (tr & Hs & _). induction Hs as [|? ? ? ? Hle _ IH|? ? ? ? ? Hr _ _ IH|? ? ? ? ? ? ? _ Hr _ _ IH]; [done|etrans; [by apply offered_le|done]|..];
    (etrans; [apply (rp_offered _ _ _ Hr)|done]).
Qed.

Lemma documents_acts Q (b b' : B) : acts Q b b' → documents_free b' → documents_free b.
Proof. intros Ha. apply documents_free_sub; [by eapply acts_contents|by eapply acts_offered]. Qed.

Lemma acts_stored reference pageKey packKey Q (b b' : B) d id p :
  acts Q b b' → stored reference pageKey packKey b d id p → stored reference pageKey packKey b' d id p.
Proof.
  intros Ha%acts_contents [Hb Hs]. split; [done|]. revert Hs. case_bool_decide.
  - intros (m & (key & body & pack & ? & Hk & ?) & ?). exists m. split; [|done]. exists key, body, pack. split; [done|]. split; [by eapply lookup_weaken|done].
  - intros (key & body & ? & Hk & ?). exists key, body. split; [done|]. split; [by eapply lookup_weaken|done].
Qed.
End Documents.

(** ** Visiting the catalog *)

Definition entry_ref (entry : DomainCatalogEntry) : consistencyDomainRef := {| Ref_Kind := Catalog_Kind entry; Ref_ID := Catalog_DomainID entry |}.

(** [e] is the catalog's record of the domain of [entry]. *)
Definition catalogs (e : DomainEntry) (entry : DomainCatalogEntry) : Prop :=
  decodeCanonicalValue (default [] (Entry_Value e)) = Ok entry ∧ catalogEntryKey (entry_ref entry) = Entry_Key e.

Section Visit.
Context `{SHA256} `{!SHA256Laws} `{GZIP} `{!GZIPLaws} {B : Type} `{!Engine B, !ProviderView B, !EngineLaws B}.
Hypothesis rivals : ∀ r (b b' : B), blob_le b b' → world_ok r b → world_ok r b'.
#[local] Remove Hints session_pages session_view session_read_laws session_laws reader_view reader_laws : typeclass_instances.
Abbreviation catalog_packs := (session_packKey catalog_reference).
#[local] Existing Instance catalog_pages.
#[local] Instance visit_view : PageView (Session B) := reader_view catalog_reference DomainCatalogPageKey catalog_packs.
#[local] Instance visit_laws : PageReadLaws (Session B) :=
  reader_laws catalog_reference DomainCatalogPageKey catalog_packs catalog_key_blob (pack_key_blob catalog_reference).
#[local] Instance visit_cache : IteratorTheory.PageCacheLaws (Session B) := IteratorTheory.reader_cache catalog_reference DomainCatalogPageKey catalog_packs.

Context {Acc : Type} (visit : DomainCatalogEntry → Acc → GoM B error Acc) (I : list DomainCatalogEntry → Acc → B → Prop).
Hypothesis I_le : ∀ v a b b', blob_le b b' → I v a b → I v a b'.
Hypothesis visit_ok : ∀ v e a b x b', all_ok b → I v a b → visit e a b = (x, b') →
  obeys b b' ∧ ∀ a', x = Ok a' → blob_le b b' ∧ I (v ++ [e]) a' b'.

Lemma visit_entry_ok previous e entry : visit_entry previous (clone_entry e) = Ok entry → catalogs e entry.
Proof.
  unfold visit_entry. replace (default [] (Entry_Value (clone_entry e))) with (default [] (Entry_Value e)) by (cbn; by destruct (Entry_Value e) as [[]|]).
  destruct (decodeCanonicalValue _) as [entry'|] eqn:Ed; [|done]. intros (u & Hk%guard_err_Ok & E)%result_bind_Ok. apply bool_decide_eq_false, dec_stable in Hk.
  repeat (apply result_bind_Ok in E as (? & _ & E)). injection E as ->. by split.
Qed.

Lemma visit_each_ok n : ∀ previous frames acc v s x s',
  ps_inv s → all_ok (backend s) → I v acc (backend s) → visit_each visit n previous frames acc s = (x, s') →
  obeys (backend s) (backend s') ∧ ∀ acc', x = Ok acc' → grows s s' ∧ ∃ entries, I (v ++ entries) acc' (backend s') ∧
    ∀ es, IteratorTheory.stands s frames es → no_collision s' → Forall2 catalogs es entries.
Proof.
  induction n as [|n IH]; intros previous frames acc v s x s' Hi Hw HI E; cbn [visit_each] in E.
  { apply (lift_inv (Err nontermination)) in E as [-> ->]. by split; [apply obeys_refl|]. }
  apply gom_bind_inv in E as (y & s1 & E1 & E). pose proof (IteratorTheory.growing_Next _ _ _ _ _ Hi E1) as Hg1. pose proof (proj1 (proj2 Hg1) : blob_le (backend s) (backend s1)) as Hle1.
  destruct y as [[value frames1]|]; [|destruct E as [-> ->]; by split; [apply obeys_le|]].
  assert (∀ es, IteratorTheory.stands s frames es → no_collision s1 →
    match es with [] => value = None | e :: es' => value = Some (clone_entry e) ∧ IteratorTheory.stands s1 frames1 es' end) as Hnext.
  { intros es Hst Hn. pose proof (IteratorTheory.Next_ok _ _ _ Hi Hst) as Ha. destruct es as [|e es'].
    - destruct (Ha s (grows_refl _ Hi) _ _ E1) as [_ Hx]. by destruct (Hx Hn) as [[= -> _]|(? & [=] & _)].
    - destruct Ha as (frames' & Ha & Hst'). destruct (Ha s (grows_refl _ Hi) _ _ E1) as [_ Hx]. destruct (Hx Hn) as [[= -> ->]|(? & [=] & _)].
      split; [done|]. eapply IteratorTheory.stands_extends; [apply Hg1|done]. }
  destruct value as [value|].
  2:{ apply mret_inv in E as [-> ->]. split; [by apply obeys_le|]. intros ? [= <-]. split; [done|]. exists []. rewrite app_nil_r. split; [by eapply I_le|].
      intros [|e es] Hst Hn; [constructor|]. by destruct (Hnext _ Hst Hn). }
  pure_step E. destruct (visit_entry previous value) as [entry|] eqn:Ev; [|destruct E as [-> ->]; by split; [apply obeys_le|]].
  apply gom_bind_inv in E as (z & s2 & E2 & E). unfold on_backend in E2. destruct (visit entry acc (backend s1)) as [w b2] eqn:Evis. injection E2 as <- <-.
  destruct (visit_ok v _ _ _ _ _ (obeys_ok rivals _ _ (obeys_le _ _ Hle1) Hw) (I_le _ _ _ _ Hle1 HI) Evis) as [K2 Hv].
  assert (obeys (backend s) b2) as K02 by (eapply obeys_trans; [by apply obeys_le|done]). destruct w as [acc1|]; [|by destruct E as [-> ->]].
  destruct (Hv acc1 eq_refl) as [Hle2 HI2]. pose proof (resumed_reader _ _ _ _ _ (proj1 Hg1) Hle2) as Hg2. assert (grows s (set_backend b2 s1)) as Hg by by eapply grows_trans.
  destruct (IH _ _ _ (v ++ [entry]) _ _ _ (proj1 Hg2) (obeys_ok rivals _ _ K02 Hw) HI2 E) as [K3 Hx].
  split; [by eapply obeys_trans|]. intros acc' ->. destruct (Hx acc' eq_refl) as (Hg3 & entries & HI3 & Hall). split; [by eapply grows_trans|].
  exists (entry :: entries). rewrite <-(assoc_L (++)) in HI3. split; [done|]. intros es Hst Hn.
  assert (no_collision s1) as Hn1 by (eapply no_collision_extends; [etrans; [apply Hg2|apply Hg3]|done]).
  specialize (Hnext es Hst Hn1). destruct es as [|e es]; [done|]. destruct Hnext as [[= ->] Hst1]. constructor; [by eapply visit_entry_ok|].
  apply Hall; [|done]. eapply IteratorTheory.stands_extends; [apply Hg2|done].
Qed.

(** The bound on the visits is not reached. *)
Lemma visit_fuel n : ∀ n' previous frames acc v s es x s',
  ps_inv s → all_ok (backend s) → I v acc (backend s) → IteratorTheory.stands s frames es → (length es < n)%nat → (length es < n')%nat →
  visit_each visit n previous frames acc s = (x, s') → no_collision s' → visit_each visit n' previous frames acc s = (x, s').
Proof.
  induction n as [|n IH]; intros [|n'] previous frames acc v s es x s' Hi Hw HI Hst Hn Hn' E Hc; [lia..|]. cbn [visit_each] in E |- *.
  unfold mbind, gom_bind in E |- *. destruct (Next 2 frames s) as [[[value frames1]|e] s1] eqn:E1; [|exact E].
  pose proof (IteratorTheory.growing_Next _ _ _ _ _ Hi E1) as Hg1. pose proof (proj1 (proj2 Hg1) : blob_le (backend s) (backend s1)) as Hle1.
  destruct value as [value|]; [|exact E]. unfold lift in E |- *. destruct (visit_entry previous value) as [entry|e]; [|exact E].
  unfold on_backend in E |- *. destruct (visit entry acc (backend s1)) as [[acc1|e] b2] eqn:Evis; [|exact E].
  pose proof (obeys_ok rivals _ _ (obeys_le _ _ Hle1) Hw) as Hw1. destruct (visit_ok v _ _ _ _ _ Hw1 (I_le _ _ _ _ Hle1 HI) Evis) as [K2 Hv].
  destruct (Hv acc1 eq_refl) as [Hle2 HI2]. pose proof (resumed_reader _ _ _ _ _ (proj1 Hg1) Hle2) as Hg2. pose proof (obeys_ok rivals _ _ K2 Hw1) as Hw2.
  destruct (visit_each_ok _ _ _ _ _ _ _ _ (proj1 Hg2) Hw2 HI2 E) as [K3 _]. pose proof (obeys_trans _ _ _ K2 K3) as K.
  assert (no_collision s1) as Hc1. { intros d k k' p p' Hp Hp'. by apply (Hc d k k'); eapply acts_stored. }
  pose proof (IteratorTheory.Next_ok _ _ _ Hi Hst) as Ha. destruct es as [|e es].
  { destruct (Ha s (grows_refl _ Hi) _ _ E1) as [_ Hx]. by destruct (Hx Hc1) as [[=]|(? & [=] & _)]. }
  destruct Ha as (frames' & Ha & Hst'). destruct (Ha s (grows_refl _ Hi) _ _ E1) as [_ Hx]. destruct (Hx Hc1) as [[= -> ->]|(? & [=] & _)].
  cbn in Hn, Hn'. eapply (IH n' _ _ _ (v ++ [entry]) _ es); [apply Hg2|done|done| |lia|lia|exact E|done].
  eapply IteratorTheory.stands_extends; [apply Hg2|]. eapply IteratorTheory.stands_extends; [apply Hg1|done].
Qed.

Lemma growing_open root : growing (newIterator root).
Proof. unfold newIterator. destruct (bool_decide _); [apply IteratorTheory.growing_descend|apply growing_ret]. Qed.

Lemma visit_entries_ok head acc b x b' :
  all_ok b → I [] acc b → visitEntriesWith visit head acc b = (x, b') →
  obeys b b' ∧ ∀ acc', x = Ok acc' → blob_le b b' ∧ ∃ entries, I entries acc' b' ∧
    ∀ es, tree_holds catalog_reference DomainCatalogPageKey catalog_packs b (CatalogHead_Root head) es →
      collision_free b' → Forall2 catalogs es entries.
Proof.
  intros Hw HI (s' & E & <-)%fresh_inv. pose proof (reader_new catalog_reference DomainCatalogPageKey catalog_packs b) as Hi.
  change (ps_inv (newSession b)) in Hi. apply gom_bind_inv in E as (y & s1 & E1 & E). pose proof (growing_open _ _ _ _ Hi E1) as Hg1.
  pose proof (proj1 (proj2 Hg1) : blob_le b (backend s1)) as Hle1. destruct y as [frames|]; [|destruct E as [-> ->]; by split; [apply obeys_le|]].
  destruct (visit_each_ok _ _ _ _ [] _ _ _ (proj1 Hg1) (obeys_ok rivals _ _ (obeys_le _ _ Hle1) Hw) (I_le _ _ _ _ Hle1 HI) E) as [K Hx].
  split; [eapply obeys_trans; [by apply obeys_le|done]|]. intros acc' ->. destruct (Hx acc' eq_refl) as (Hg2 & entries & HI' & Hall).
  split; [etrans; [exact Hle1|apply Hg2]|]. exists entries. split; [done|]. intros es Hh Hc. assert (no_collision s') as Hn by by apply (reader_free catalog_reference DomainCatalogPageKey catalog_packs).
  destruct (IteratorTheory.newIterator_ok _ es (newSession b) Hi Hh) as (frames' & Ha & Hst). destruct (Ha _ (grows_refl _ Hi) _ _ E1) as [_ Hy].
  destruct (Hy ltac:(eapply no_collision_extends; [apply Hg2|done])) as [[= ->]|(? & [=] & _)].
  apply Hall; [|done]. eapply IteratorTheory.stands_extends; [apply Hg1|done].
Qed.
End Visit.

(** ** One domain becomes one run *)

Lemma entries_map_size es : sorted_entries es → size (entries_map es) = length es.
Proof.
  intros Hs. unfold entries_map. rewrite map_size_list_to_map by by apply sorted_NoDup. by rewrite length_map.
Qed.

Lemma change_map_size cs m : (size (change_map cs m) ≤ size m + length cs)%nat.
Proof.
  revert m. induction cs as [|c cs IH]; intros m; [cbn; lia|]. cbn [change_map fold_left]. fold (change_map cs).
  etrans; [apply IH|]. cbn [length]. destruct (Change_Delete c).
  - enough (size (delete (Change_Key c) m) ≤ size m)%nat by lia. apply map_subseteq_size, delete_subseteq.
  - enough (size (<[Change_Key c:=change_entry c]> m) ≤ S (size m))%nat by lia. destruct (m !! Change_Key c) eqn:E; [erewrite map_size_insert_Some by done|rewrite map_size_insert_None by done]; lia.
Qed.

Section Copy.
Context `{SHA256} `{!SHA256Laws} `{GZIP} `{!GZIPLaws} {B : Type} `{!Engine B, !ProviderView B, !EngineLaws B}.
(** The query's own domain. *)
Variable query : consistencyDomainRef.
#[local] Remove Hints session_pages session_view session_read_laws session_laws reader_view reader_laws : typeclass_instances.
#[local] Instance copy_pages : PageStore (Session B) := domain_pages query.
#[local] Instance copy_view : PageView (Session B) := SessionStream.stream_view query (session_pageKey query) (session_packKey query).
#[local] Instance copy_laws : PageStoreLaws (Session B) :=
  SessionStream.stream_laws query (session_pageKey query) (session_packKey query) (page_key_blob query) (pack_key_blob query).
#[local] Instance copy_cache : IteratorTheory.PageCacheLaws (Session B) := SessionStream.stream_cache query (session_pageKey query) (session_packKey query).

Lemma cleared_grows s : ps_inv s → grows s (set_pages ∅ s).
Proof.
  intros Hs. pose proof (SessionStream.stream_pending _ _ _ _ Hs) as Hpd. destruct Hs as [[I1 I2 I3 I4 I5 I6] Hp].
  split; [split; [split|done]|split; [|by intros]]; try done; cbn.
  - intros d p. by rewrite Hpd, lookup_empty.
  - change (blob_le (backend s) (backend s)). reflexivity.
Qed.

Section One.
Variables (r : consistencyDomainRef) (b1 : B) (h : DomainHead) (es : list DomainEntry) (prefix : gostring).
Abbreviation L := (listing prefix [] (clone_entry <$> contents h es)).

(** Listing in a session of another domain. *)
Lemma list_inside k limit s x s' :
  ps_inv s → on_backend (listAtHead r h prefix k limit) s = (x, s') → grows s s' ∧ listAtHead r h prefix k limit (backend s) = (x, backend s').
Proof.
  intros Hi E. unfold on_backend in E. destruct (listAtHead r h prefix k limit (backend s)) as [y b] eqn:El. injection E as <- <-.
  split; [|done]. apply resumed_stream; [done|]. by eapply quietly_list.
Qed.

Lemma copy_ok n : ∀ k count builder s x s',
  ps_inv s → BuilderTheory.typed_levels (builder_levels builder) → copy_domain query n r h prefix k count builder s = (x, s') →
  grows s s' ∧ ∀ builder' count', x = Ok (builder', count') → BuilderTheory.typed_levels (builder_levels builder') ∧
    (seen r b1 h es → after r b1 (backend s) → collision_free (backend s') → count' = count + len (later k L)) ∧
    ∀ es0, seen r b1 h es → after r b1 (backend s) → collision_free (backend s') → no_collision s' → BuilderTheory.given s builder es0 →
      BuilderTheory.given s' builder' (es0 ++ later k L).
Proof.
  induction n as [|n IH]; intros k count builder s x s' Hi Hty E; cbn [copy_domain] in E.
  { apply (lift_inv (Err nontermination)) in E as [-> ->]. by split; [apply grows_refl|]. }
  apply gom_bind_inv in E as (y & s1 & E1 & E). destruct (list_inside _ _ _ _ _ Hi E1) as [Hg1 El]. destruct y as [entries|]; [|by destruct E as [-> ->]].
  apply gom_bind_inv in E as (z & s2 & E2 & E). destruct (BuilderTheory.add_all_ok _ _ _ _ _ (proj1 Hg1) Hty E2) as [Hg2 Ha].
  assert (grows s s2) as Hg by by eapply grows_trans. destruct z as [builder1|]; [|by destruct E as [-> ->]]. destruct (Ha builder1 eq_refl) as [Hty1 Hgiven].
  set (m := domainPageMaximumItems) in *. assert (m = S 255) as Em by done.
  assert (seen r b1 h es → after r b1 (backend s) → collision_free (backend s1) → entries = take m (later k L)) as Hent.
  { intros Hs Hafter Hc. rewrite <-listing_later by by eapply seen_keyed. rewrite Em in El |- *.
    destruct (list_seen r b1 h es prefix k 255 _ _ _ Hs Hafter ltac:(lia) El) as [_ Hx]. by apply Hx. }
  assert (∀ es0, seen r b1 h es → after r b1 (backend s) → collision_free (backend s1) → no_collision s2 → BuilderTheory.given s builder es0 →
    BuilderTheory.given s2 builder1 (es0 ++ take m (later k L))) as Hgiven1.
  { intros es0 Hs Hafter Hc Hn Hb. rewrite <-Hent by done. apply Hgiven; [done|]. eapply BuilderTheory.given_extends; [apply Hg1|done]. }
  assert (∀ s3, grows s1 s3 → collision_free (backend s3) → collision_free (backend s1)) as Hfree by (intros s3 [_ [Hle _]]; by apply collision_free_le).
  assert ((length entries < m)%nat → x = Ok (builder1, count + len entries) → s' = s2 → BuilderTheory.typed_levels (builder_levels builder1) ∧
    (seen r b1 h es → after r b1 (backend s) → collision_free (backend s') → count + len entries = count + len (later k L)) ∧
    ∀ es0, seen r b1 h es → after r b1 (backend s) → collision_free (backend s') → no_collision s' → BuilderTheory.given s builder es0 →
      BuilderTheory.given s' builder1 (es0 ++ later k L)) as Hlast.
  { intros Hlen -> ->. assert (seen r b1 h es → after r b1 (backend s) → collision_free (backend s2) → take m (later k L) = later k L) as Hall.
    { intros Hs Hafter Hc. rewrite (Hent Hs Hafter (Hfree _ Hg2 Hc)), length_take in Hlen. apply take_ge. lia. }
    split; [done|]. split; [intros Hs Hafter Hc; by rewrite (Hent Hs Hafter (Hfree _ Hg2 Hc)), Hall|].
    intros es0 Hs Hafter Hc Hn Hb. specialize (Hgiven1 es0 Hs Hafter (Hfree _ Hg2 Hc) Hn Hb). by rewrite Hall in Hgiven1. }
  destruct (last entries) as [final|] eqn:El'.
  2:{ apply mret_inv in E as [-> ->]. split; [done|]. intros ?? [= <- <-]. apply Hlast; [|done|done]. apply last_None in El' as ->. cbn. lia. }
  destruct (Nat.ltb_spec (length entries) m) as [Hlen|Hlen].
  { apply mret_inv in E as [-> ->]. split; [done|]. intros ?? [= <- <-]. by apply Hlast. }
  destruct (IH _ _ _ _ _ _ (proj1 Hg2) Hty1 E) as [Hg3 Hx]. assert (grows s s') as Hg' by by eapply grows_trans. split; [done|]. intros builder' count' ->.
  destruct (Hx builder' count' eq_refl) as (Hty' & Hcount & Hgiv). split; [done|].
  assert (seen r b1 h es → after r b1 (backend s) → collision_free (backend s') → after r b1 (backend s2) ∧ collision_free (backend s1) ∧ later (Entry_Key final) L = drop m (later k L) ∧ entries = take m (later k L)) as Hstep.
  { intros Hs Hafter Hc. assert (collision_free (backend s1)) as Hc1 by (eapply (Hfree s'); [by eapply grows_trans|done]). pose proof (Hent Hs Hafter Hc1) as He.
    split; [eapply after_trans; [done|apply after_le, Hg]|]. split; [done|]. split; [|done]. rewrite He in El'. eapply later_page; [|done].
    apply listing_sorted. by eapply seen_keyed. }
  split.
  - intros Hs Hafter Hc. destruct (Hstep Hs Hafter Hc) as (Ha2 & Hc1 & Hk & He). rewrite (Hcount Hs Ha2 Hc), Hk, He. unfold len. rewrite length_take, length_drop. lia.
  - intros es0 Hs Hafter Hc Hn Hb. destruct (Hstep Hs Hafter Hc) as (Ha2 & Hc1 & Hk & He).
    specialize (Hgiv (es0 ++ take m (later k L)) Hs Ha2 Hc Hn). rewrite Hk, <-(assoc_L (++)), take_drop in Hgiv. apply Hgiv, Hgiven1; [done..| |done].
    eapply no_collision_extends; [apply Hg3|done].
Qed.

(** A domain shows no more than its base tree and its changes have. *)
Lemma shown_bound : seen r b1 h es → (length L < query_fuel h)%nat.
Proof.
  intros Hs. pose proof (seen_keyed _ _ _ _ Hs) as Hk. destruct Hs as (_ & _ & _ & os & xs & W).
  assert (length L = size (filter (λ '(k, _), bytes_lt [] k ∧ prefix `prefix_of` k) (clone_entry <$> contents h es))) as ->.
  { destruct (sorted_values_spec _ (filter_keyed (λ '(k, _), bytes_lt [] k ∧ prefix `prefix_of` k) _ Hk)) as [Hs Em]. fold L in Hs, Em.
    rewrite <-Em. symmetry. by apply entries_map_size. }
  eapply Nat.le_lt_trans; [apply map_size_filter|]. rewrite map_size_fmap. unfold query_fuel, contents.
  pose proof (change_map_size (window_changes h) (entries_map es)). pose proof (wf_base _ _ _ _ _ _ W) as Hh.
  assert (size (entries_map es) ≤ Z.to_nat (Root_EntryCount (Head_Base h)))%nat; [|lia].
  rewrite entries_map_size by exact (proj1 (tree_holds_sorted r _ _ (page_key_blob r) (pack_key_blob r) _ _ _ Hh)).
  destruct Hh as [[_ ->]|[_ [l Hl]]]; [cbn; lia|].
  destruct (holds_level (PageView0 := reader_view r (session_pageKey r) (session_packKey r))
    (PageReadLaws0 := reader_laws r (session_pageKey r) (session_packKey r) (page_key_blob r) (pack_key_blob r)) _ _ _ _ (reader_new _ _ _ _) Hl) as [_ ->].
  unfold len. lia.
Qed.

(** The bound on the pages of one domain is not reached. *)
Lemma copy_fuel n : ∀ n' k count builder s x s',
  ps_inv s → BuilderTheory.typed_levels (builder_levels builder) → seen r b1 h es → after r b1 (backend s) →
  (length (later k L) < n)%nat → (length (later k L) < n')%nat →
  copy_domain query n r h prefix k count builder s = (x, s') → collision_free (backend s') → copy_domain query n' r h prefix k count builder s = (x, s').
Proof.
  induction n as [|n IH]; intros [|n'] k count builder s x s' Hi Hty Hs Ha Hn Hn' E Hc; [lia..|]. cbn [copy_domain] in E |- *.
  unfold mbind, gom_bind in E |- *. destruct (on_backend (listAtHead r h prefix k (Z.of_nat domainPageMaximumItems)) s) as [[entries|e] s1] eqn:E1; [|exact E].
  destruct (list_inside _ _ _ _ _ Hi E1) as [Hg1 El]. destruct (add_all builder entries s1) as [[builder1|e] s2] eqn:E2; [|exact E].
  destruct (BuilderTheory.add_all_ok _ _ _ _ _ (proj1 Hg1) Hty E2) as [Hg2 Hadd]. destruct (Hadd builder1 eq_refl) as [Hty1 _].
  destruct (last entries) as [final|] eqn:Elast; [|exact E]. destruct (Nat.ltb_spec (length entries) domainPageMaximumItems) as [|Hlen]; [exact E|].
  destruct (copy_ok _ _ _ _ _ _ _ (proj1 Hg2) Hty1 E) as [Hg3 _]. assert (collision_free (backend s1)) as Hc1.
  { eapply collision_free_le; [|exact Hc]. etrans; [apply Hg2|apply Hg3]. }
  assert (entries = take domainPageMaximumItems (later k L)) as He.
  { rewrite <-listing_later by by eapply seen_keyed. change domainPageMaximumItems with (S 255) in El |- *.
    destruct (list_seen r b1 h es prefix k 255 _ _ _ Hs Ha ltac:(lia) El) as [_ Hx]. by apply Hx. }
  assert (later (Entry_Key final) L = drop domainPageMaximumItems (later k L)) as Hk.
  { rewrite He in Elast. eapply later_page; [|done]. apply listing_sorted. by eapply seen_keyed. }
  assert (domainPageMaximumItems ≠ 0%nat) as Hm by done. rewrite He, length_take in Hlen.
  apply IH; [apply Hg2|done|done| | | |exact E|done].
  - eapply after_trans; [exact Ha|]. apply after_le. etrans; [apply Hg1|apply Hg2].
  - rewrite Hk, length_drop. lia.
  - rewrite Hk, length_drop. lia.
Qed.

(** The run of a domain holds what the domain shows under the prefix. *)
Lemma domain_run_ok s x s' :
  ps_inv s → run_of_domain query r h prefix s = (x, s') →
  grows s s' ∧ ∀ root, x = Ok root → seen r b1 h es → after r b1 (backend s) → collision_free (backend s') → no_collision s' →
    match root with Some root => holds s' root L | None => L = [] end.
Proof.
  intros Hi E. unfold run_of_domain in E. apply gom_bind_inv in E as (y & s1 & E1 & E). destruct (copy_ok _ [] 0 newConsistencyDomainTreeBuilder s y s1 Hi ltac:(constructor) E1) as [Hg1 Hx].
  destruct y as [[builder count]|]; [|by destruct E as [-> ->]]. destruct (Hx builder count eq_refl) as (Hty & Hcount & Hgiven).
  destruct (Z.eqb_spec count 0) as [Hz|Hz].
  { apply mret_inv in E as [-> ->]. split; [done|]. intros ? [= <-] Hs Ha Hc _. specialize (Hcount Hs Ha Hc). rewrite <-listing_later in Hcount by by eapply seen_keyed.
    apply nil_length_inv. unfold len in Hcount. lia. }
  apply gom_bind_inv in E as (z & s2 & E2 & E). destruct (BuilderTheory.Finish_ok _ _ _ _ (proj1 Hg1) Hty E2) as [Hg2 Hroot].
  assert (grows s s2) as Hg by by eapply grows_trans. destruct z as [root|]; [|by destruct E as [-> ->]].
  apply gom_bind_inv in E as (u & s3 & [= <- <-] & E). apply mret_inv in E as [-> ->]. pose proof (cleared_grows _ (proj1 Hg2)) as Hg3.
  split; [by eapply grows_trans|]. intros ? [= <-] Hs Ha Hc Hn. eapply holds_extends; [apply Hg3|].
  assert (no_collision s2) as Hn2 by (eapply no_collision_extends; [apply Hg3|done]). apply (Hroot root eq_refl); [done|].
  rewrite (listing_later prefix []) by by eapply seen_keyed. apply (Hgiven []); [done|done| | |apply BuilderTheory.given_new].
  - eapply collision_free_le; [|exact Hc]. apply Hg2.
  - eapply no_collision_extends; [apply Hg2|done].
Qed.
End One.

(** ** All domains *)

Variables (fuel depth : nat) (prefix : gostring).
Hypothesis rivals : ∀ r (b b' : B), blob_le b b' → world_ok r b → world_ok r b'.

Abbreviation query_tree := (tree_holds query (session_pageKey query) (session_packKey query)).

(** [l] is what the domain of [entry] showed at some time between [b0] and [b]. *)
Definition domain_shown (b0 b : B) (entry : DomainCatalogEntry) (l : list DomainEntry) : Prop :=
  ∃ bi m, blob_le b0 bi ∧ blob_le bi b ∧ listed_at (entry_ref entry) bi m ∧ l = listing prefix [] (clone_entry <$> m).

(** The runs hold what the visited domains showed. *)
Definition gathered (b0 : B) (visited : list DomainCatalogEntry) (state : query_state) (b : B) : Prop :=
  ps_inv (set_backend b (query_session state)) ∧ blob_le b0 b ∧
  (collision_free b →
   ∃ ls ess, Forall2 (domain_shown b0 b) visited ls ∧ Forall2 (query_tree b) (query_runs state) ess ∧ concat ess = concat ls).

Lemma gathered_le b0 visited state b b' : blob_le b b' → gathered b0 visited state b → gathered b0 visited state b'.
Proof.
  intros Hle (Hi & Hb0 & Hx). split; [|split; [by etrans|]].
  - pose proof (resumed_stream query _ _ _ b' Hi Hle) as [Hi' _]. by destruct (query_session state).
  - intros Hq. destruct Hx as (ls & ess & Hls & Hess & E).
    + by eapply collision_free_le.
    + exists ls, ess. split; [|split; [|done]].
      * eapply Forall2_impl; [exact Hls|]. intros e l (bi & m & ? & ? & ?). exists bi, m. split; [done|]. split; [by etrans|done].
      * eapply Forall2_impl; [exact Hess|]. intros ??. by apply tree_holds_le.
Qed.

Lemma set_backend_same (s : Session B) : set_backend (backend s) s = s.
Proof. by destruct s. Qed.

Lemma listing_empty k : listing prefix k (clone_entry <$> ∅) = [].
Proof. unfold listing. by rewrite fmap_empty, map_filter_empty. Qed.

Lemma visit_domain_ok b0 visited entry state b x b' :
  all_ok b → gathered b0 visited state b → visit_domain fuel depth query prefix entry state b = (x, b') →
  obeys b b' ∧ ∀ state', x = Ok state' → blob_le b b' ∧ gathered b0 (visited ++ [entry]) state' b'.
Proof.
  intros Hw Hgat E. unfold visit_domain in E. fold (entry_ref entry) in E. set (r := entry_ref entry) in *.
  apply gom_bind_inv in E as (y & b1 & E1 & E). pose proof (quietly_load r _ _ _ E1) as Hle1. destruct y as [sn|]; [|destruct E as [-> ->]; by split; [apply obeys_le|]].
  destruct (negb (exists_ sn) || negb (Head_Registered (DomainStore.head sn))) eqn:Eg.
  { apply mret_inv in E as [-> ->]. split; [by apply obeys_le|]. intros ? [= <-]. split; [done|]. pose proof (gathered_le _ _ _ _ _ Hle1 Hgat) as (Hi & Hb0 & Hx).
    split; [done|]. split; [done|]. intros Hq. destruct (Hx Hq) as (ls & ess & Hls & Hess & Ec).
    exists (ls ++ [[]]), ess. split; [|split; [done|by rewrite concat_app, app_nil_r]]. apply Forall2_app; [done|]. constructor; [|constructor].
    exists b1, ∅. split; [done|]. split; [done|]. split; [exact (load_absent r (rivals r) _ _ _ (Hw r) E1 Eg Hq)|by rewrite listing_empty]. }
  apply gom_bind_inv in E as (l & b2 & E2 & E). pose proof (quietly_lock r _ _ _ _ E2) as Hle2. assert (blob_le b b2) as Hle02 by by etrans.
  destruct l as [[[lock v]|]|]; [| |destruct E as [-> ->]; by split; [apply obeys_le|]].
  { apply gom_bind_inv in E as (u & b3 & E3 & E). assert (obeys b b3) as K.
    { eapply obeys_trans; [by apply obeys_le|]. eapply (help_ok fuel rivals); [|exact E3]. eapply obeys_ok; [done|by apply obeys_le|done]. }
    destruct u; [|by destruct E as [-> ->]]. apply (lift_inv (Err errTransitionPending009)) in E as [-> ->]. by split. }
  apply gom_bind_inv in E as (z & b3 & E3 & E). pose proof (gathered_le _ _ _ _ _ Hle02 Hgat) as (Hi & Hb0 & Hx).
  unfold in_query in E3. destruct (run_of_domain query r (DomainStore.head sn) prefix (set_backend b2 (query_session state))) as [root s] eqn:Erun.
  injection E3 as <- <-. assert (ps_inv (set_backend b2 (query_session state)) → blob_le b2 (backend s) ∧ ps_inv s) as Hstep.
  { intros Hi'. destruct (domain_run_ok r b2 (DomainStore.head sn) [] prefix _ _ _ Hi' Erun) as [Hg _]. split; [apply Hg|apply Hg]. }
  destruct (Hstep Hi) as [Hle3 His]. assert (blob_le b (backend s)) as Hle03 by by etrans.
  destruct root as [root|]; [|destruct E as [-> ->]; by split; [apply obeys_le|]]. apply mret_inv in E as [-> ->]. split; [by apply obeys_le|]. intros ? [= <-]. split; [done|].
  split; [by rewrite set_backend_same|]. split; [by etrans|]. intros Hq. cbn [query_runs].
  destruct (gathered_le _ _ _ _ _ Hle03 Hgat) as (_ & _ & Hx'). destruct (Hx' Hq) as (ls & ess & Hls & Hess & Ec).
  destruct (load_seen r (rivals r) _ _ _ _ (Hw r) E1 Eg E2 (collision_free_le _ _ Hle3 Hq)) as [es Hs].
  destruct (domain_run_ok r b1 (DomainStore.head sn) es prefix _ _ _ Hi Erun) as [_ Hrun].
  specialize (Hrun root eq_refl Hs (after_le r _ _ Hle2) Hq (SessionStream.stream_no_collision _ _ _ _ Hq)).
  set (l := listing prefix [] (clone_entry <$> contents (DomainStore.head sn) es)) in *.
  assert (Forall2 (domain_shown b0 (backend s)) (visited ++ [entry]) (ls ++ [l])) as Hshown.
  { apply Forall2_app; [done|]. constructor; [|constructor]. exists b1, (contents (DomainStore.head sn) es). split; [etrans; [|done]; apply Hgat|].
    split; [by etrans|]. split; [by apply seen_listed|done]. }
  destruct root as [root|]; cbn [option_list].
  - exists (ls ++ [l]), (ess ++ [l]). split; [done|]. rewrite !concat_app, Ec. split; [|done]. apply Forall2_app; [done|]. constructor; [|constructor].
    exact (proj1 (SessionStream.stream_holds _ _ _ _ _ _) Hrun).
  - exists (ls ++ [l]), ess. split; [done|]. rewrite app_nil_r. split; [done|]. by rewrite concat_app, Hrun, !app_nil_r.
Qed.

(** The catalog that was read, if there is one, and its entries. *)
Definition catalog_lists (catalog : option DomainCatalogHead) (b b' : B) (entries : list DomainCatalogEntry) : Prop :=
  match catalog with
  | None => entries = []
  | Some head => ∀ es, tree_holds catalog_reference DomainCatalogPageKey (session_packKey catalog_reference) b (CatalogHead_Root head) es →
      collision_free b' → Forall2 catalogs es entries
  end.

(** The merged tree holds what all domains of the catalog showed. *)
Definition merged (b0 b : B) (entries : list DomainCatalogEntry) (es : list DomainEntry) : Prop :=
  ∃ ls, Forall2 (domain_shown b0 b) entries ls ∧ sorted_entries es ∧ map clone_entry es ≡ₚ map clone_entry (concat ls).

Lemma merge_domains_ok catalog b x b' :
  all_ok b → merge_domains fuel depth query catalog prefix b = (x, b') →
  obeys b b' ∧ ∀ root, x = Ok root → blob_le b b' ∧ ∃ entries, catalog_lists catalog b b' entries ∧
    (collision_free b' → ∃ es, query_tree b' root es ∧ merged b b' entries es).
Proof.
  intros Hw E. unfold merge_domains in E. set (start := {| query_session := newSession b; query_runs := [] |}) in E.
  assert (gathered b [] start b) as Hstart.
  { split; [apply SessionStream.stream_new|]. split; [done|]. intros _. exists [], []. done. }
  apply gom_bind_inv in E as (y & b1 & E1 & E).
  assert (obeys b b1 ∧ ∀ state, y = Ok state → blob_le b b1 ∧ ∃ entries, gathered b entries state b1 ∧ catalog_lists catalog b b1 entries) as [K1 Hy].
  { destruct catalog as [head|].
    - destruct (visit_entries_ok rivals _ (gathered b) (λ v a b b', gathered_le _ v a b b') (λ v e a b x b', visit_domain_ok _ v e a b x b') _ _ _ _ _ Hw Hstart E1) as [K Hx].
      split; [done|]. intros state ->. destruct (Hx state eq_refl) as (Hle & entries & Hgat & Hall). split; [done|]. by exists entries.
    - apply mret_inv in E1 as [-> ->]. split; [apply obeys_refl|]. intros ? [= <-]. split; [done|]. by exists []. }
  destruct y as [state|]; [|by destruct E as [-> ->]]. destruct (Hy state eq_refl) as (Hle1 & entries & (Hi & Hb0 & Hx) & Hcat).
  apply gom_bind_inv in E as (z & b2 & E2 & E). unfold in_query in E2. destruct (merge_runs (query_runs state) (set_backend b1 (query_session state))) as [root s] eqn:Em.
  injection E2 as <- <-. destruct (MergeTheory.merge_runs_ok _ _ _ _ Hi Em) as [Hg Hroot]. pose proof (proj1 (proj2 Hg) : blob_le b1 (backend s)) as Hle2.
  assert (obeys b (backend s)) as K2 by (eapply obeys_trans; [done|by apply obeys_le]). destruct root as [root|]; [|by destruct E as [-> ->]].
  apply mret_inv in E as [-> ->]. split; [done|]. intros ? [= <-]. split; [by etrans|]. exists entries. split.
  { destruct catalog as [head|]; [|done]. intros es Hh Hc. apply Hcat; [done|]. by eapply collision_free_le. }
  intros Hq. destruct Hx as (ls & ess & Hls & Hess & Ec).
  { by eapply collision_free_le. }
  assert (Forall2 (holds (set_backend b1 (query_session state))) (query_runs state) ess) as Hruns.
  { eapply Forall2_impl; [exact Hess|]. intros ro l Hl. by apply (proj2 (SessionStream.stream_holds _ _ _ _ _ _)). }
  destruct (Hroot root ess eq_refl (SessionStream.stream_no_collision _ _ _ _ Hq) Hruns) as (es & Hes & Hp). exists es.
  split; [exact (proj1 (SessionStream.stream_holds _ _ _ _ _ _) Hes)|]. exists ls. split.
  { eapply Forall2_impl; [exact Hls|]. intros e l (bi & m & ? & ? & ?). exists bi, m. split; [done|]. split; [by etrans|done]. }
  split; [eapply holds_sorted; [apply Hg|exact Hes]|]. by rewrite Hp, Ec.
Qed.
End Copy.

(** ** Listings page by page *)

Section Engine.
Context `{SHA256} `{!SHA256Laws} `{GZIP} `{!GZIPLaws} `{AEAD} `{!AEADLaws} {B : Type} `{!Engine B, !ProviderView B, !EngineLaws B, !SnapshotLaws B}.
Variables (fuel depth : nat) (cursorTTL : Z).
Hypothesis rivals : ∀ r (b b' : B), blob_le b b' → world_ok r b → world_ok r b'.

Abbreviation shown prefix k h es := (listing prefix k (clone_entry <$> contents h es)).

Lemma digest_nonempty text : Digest text ≠ [].
Proof.
  unfold Digest. intros E. apply (f_equal b64_decode) in E. rewrite b64_decode_encode in E. injection E as E. pose proof (sha256_length text) as Hl. by rewrite E in Hl.
Qed.

(** The request: a prefix of records and a page size. *)
Variables (prefix : State.Prefix) (ns : State.Namespace) (parts : list gostring) (n : nat).
Hypothesis made : State.NewPrefix ns parts = Ok prefix.
Hypothesis sized : (1 ≤ n ≤ 1000)%nat.
Abbreviation pv := (State.prefix_value prefix).
Abbreviation next_at := (next_cursor prefix (Z.of_nat n)).

Lemma next_text rev digest composite t k :
  u64_ok rev → is_ascii digest → is_ascii k → year_ok t = true → cursor_text (next_at rev digest composite t k).
Proof.
  intros Hr Hd Hk Ht. pose proof (prefix_ascii _ _ _ made) as Hp. split; [cbn; unfold MaxInt64; lia|]. split; [by apply ValidString_ascii|].
  split; [cbn; unfold MaxInt64; lia|]. split; [by apply ValidString_ascii, first_part_ascii|]. split; [done|]. split; [by apply ValidString_ascii|]. split; [by apply ValidString_ascii|done].
Qed.

(** *** The snapshot of a merge *)

Abbreviation tree_of r := (tree_holds r (session_pageKey r) (session_packKey r)).

(** The catalog head that [b] stores. *)
Definition catalog_at (b : B) (catalog : option DomainCatalogHead) : Prop :=
  ∃ key, DomainCatalogHeadKey = Ok key ∧
    match catalog with
    | None => heads b !! key_value key = None
    | Some head => ∃ body v env, heads b !! key_value key = Some (body, v) ∧ DecodeEnvelope body key domainCatalogHeadSchema = Ok (env, head)
    end.

Lemma read_catalog_ok (b : B) x b' :
  readDomainCatalogIfPresent b = (x, b') → blob_le b b' ∧ ∀ catalog, x = Ok catalog → catalog_at b' catalog.
Proof.
  intros E. unfold readDomainCatalogIfPresent in E. pure_step E. destruct DomainCatalogHeadKey as [key|] eqn:Ek; [|by destruct E as [-> ->]].
  apply gom_bind_inv in E as (y & b1 & (w & E1 & ->)%attempt_inv & E). destruct (get_sound _ _ _ _ (catalog_key_mutable _ Ek) E1) as [Hle Hx]. destruct w as [o|e].
  - pure_step E. destruct (DecodeEnvelope _ _ _) as [[env head]|] eqn:Ed; [|by destruct E as [-> ->]]. pure_step E.
    destruct (ValidateDomainCatalogHead head); [|by destruct E as [-> ->]]. apply mret_inv in E as [-> ->]. split; [done|]. intros ? [= <-].
    exists key. split; [done|]. by exists (Object_Body o), (Object_Version o), env.
  - destruct (errors_Is e ErrNotFound) eqn:En; [|apply (lift_inv (Err e)) in E as [-> ->]; by split]. apply mret_inv in E as [-> ->]. split; [done|]. intros ? [= <-].
    exists key. split; [done|]. by apply Hx.
Qed.

(** The entries are those of the catalog at some time between [b0] and [b]. *)
Definition catalogued (b0 b : B) (entries : list DomainCatalogEntry) : Prop :=
  ∃ b1 catalog, blob_le b0 b1 ∧ blob_le b1 b ∧ catalog_at b1 catalog ∧ catalog_lists catalog b1 b entries.

Lemma merged_from b0 b1 b entries es : blob_le b0 b1 → merged pv b1 b entries es → merged pv b0 b entries es.
Proof.
  intros Hle (ls & Hls & Hs & Hp). exists ls. split; [|done]. eapply Forall2_impl; [exact Hls|]. intros e l (bi & m & ? & ? & ?). exists bi, m. split; [by etrans|done].
Qed.

Lemma merged_until b0 b b' entries es : blob_le b b' → merged pv b0 b entries es → merged pv b0 b' entries es.
Proof.
  intros Hle (ls & Hls & Hs & Hp). exists ls. split; [|done]. eapply Forall2_impl; [exact Hls|]. intros e l (bi & m & ? & ? & ?). exists bi, m. split; [done|]. split; [by etrans|done].
Qed.

Lemma catalogued_until b0 b b' entries : blob_le b b' → catalogued b0 b entries → catalogued b0 b' entries.
Proof.
  intros Hle (b1 & catalog & Hl0 & Hl1 & Hat & Hl). exists b1, catalog. split; [done|]. split; [by etrans|]. split; [done|]. destruct catalog; [|done].
  intros es Hh Hc. apply Hl; [done|]. by eapply collision_free_le.
Qed.

(** What is known of a snapshot that was built between [b0] and [b]. *)
Definition query_built (b0 b : B) (sn : StateQuerySnapshot) (digest : gostring) : Prop :=
  Query_Prefix sn = pv ∧ ValidateStateQuerySnapshot sn = Ok tt ∧
  (digest = [] ∧ Root_Digest (Query_Root sn) = [] ∨ ∃ text, encode_document sn = Ok text ∧ digest = Digest text ∧ text ∈ offered b) ∧
  ∃ entries, catalogued b0 b entries ∧
    (collision_free b →
     ∃ es, tree_of (stateQueryReference (Query_DomainID sn)) b (Query_Root sn) es ∧ merged pv b0 b entries es).

Lemma build_ok t b x b' :
  all_ok b → buildStateQuerySnapshot fuel depth prefix t b = (x, b') →
  obeys b b' ∧ ∀ sn digest, x = Ok (sn, digest) → blob_le b b' ∧ query_built b b' sn digest.
Proof.
  intros Hw E. unfold buildStateQuerySnapshot in E. apply gom_bind_inv in E as (y & b1 & E1 & E). destruct (read_catalog_ok _ _ _ E1) as [Hle1 Hcat].
  destruct y as [catalog|]; [|destruct E as [-> ->]; by split; [apply obeys_le|]]. specialize (Hcat catalog eq_refl).
  apply gom_bind_inv in E as (id & b2 & E2 & E). pose proof (draw_sound _ _ _ _ E2) as Hle2. assert (blob_le b b2) as Hle02 by by etrans.
  destruct id as [id|]; [|destruct E as [-> ->]; by split; [apply obeys_le|]]. apply gom_bind_inv in E as (z & b3 & E3 & E).
  destruct (merge_domains_ok (stateQueryReference (bs "state-query:" ++ id)) fuel depth pv rivals _ _ _ _ (obeys_ok rivals _ _ (obeys_le _ _ Hle02) Hw) E3) as [K3 Hz].
  assert (obeys b b3) as K03 by (eapply obeys_trans; [by apply obeys_le|done]). destruct z as [root|]; [|by destruct E as [-> ->]].
  destruct (Hz root eq_refl) as (Hle3 & entries & Hent & Hes). assert (blob_le b b3) as Hle03 by by etrans.
  set (sn := {| Query_SchemaVersion := 1; Query_Prefix := pv; Query_DomainID := bs "state-query:" ++ id; Query_Root := root; Query_ExpiresAt := t |}) in E.
  pure_step E. destruct (ValidateStateQuerySnapshot sn) as [[]|] eqn:Ev; [|by destruct E as [-> ->]].
  assert (∃ entries, catalogued b b3 entries ∧ (collision_free b3 →
    ∃ es, tree_of (stateQueryReference (Query_DomainID sn)) b3 (Query_Root sn) es ∧ merged pv b b3 entries es)) as Hbuilt.
  { exists entries. split.
    - exists b1, catalog. split; [done|]. split; [by etrans|]. split; [done|]. destruct catalog; [|done]. intros es Hh. apply Hent. eapply tree_holds_le; [exact Hle2|exact Hh].
    - intros Hq. destruct (Hes Hq) as (es & Hh & Hm). exists es. split; [done|]. eapply merged_from; [exact Hle02|exact Hm]. }
  case_bool_decide as Hroot.
  { apply mret_inv in E as [-> ->]. split; [done|]. intros ?? [= <- <-]. split; [done|]. split; [done|]. split; [done|]. split; [by left|done]. }
  pure_step E. destruct (encode_document sn) as [text|] eqn:Et; [|by destruct E as [-> ->]]. pure_step E. destruct (StateQuerySnapshotKey _) as [k|] eqn:Ek; [|by destruct E as [-> ->]].
  apply gom_bind_inv in E as (w & b4 & (v & E4 & ->)%attempt_inv & E). pose proof (put_quiet _ _ _ _ _ (query_key_blob _ _ Ek) E4) as Hle4.
  pose proof (put_offers _ _ _ _ _ (query_key_blob _ _ Ek) E4) as Hof.
  assert (obeys b b4) as K04 by by eapply obeys_then. assert (blob_le b b4) as Hle04 by by etrans.
  assert (query_built b b4 sn (Digest text)) as Hdone.
  { split; [done|]. split; [done|]. split; [right; by exists text|]. destruct Hbuilt as (entries' & Hc' & Hx). exists entries'. split; [eapply catalogued_until; [exact Hle4|exact Hc']|].
    intros Hq. destruct Hx as (es & Hh & Hm); [eapply collision_free_le; [exact Hle4|exact Hq]|].
    exists es. split; [eapply tree_holds_le; [exact Hle4|exact Hh]|eapply merged_until; [exact Hle4|exact Hm]]. }
  destruct v as [v|e]; [|destruct (errors_Is e ErrConflict)]; [apply mret_inv in E as [-> ->]|apply mret_inv in E as [-> ->]|apply (lift_inv (Err e)) in E as [-> ->]];
    (split; [done|]); [intros ?? [= <- <-]; by split..|done].
Qed.

Lemma attempts_ok n' t : ∀ b x b',
  all_ok b → build_attempts fuel depth n' prefix t b = (x, b') →
  obeys b b' ∧ ∀ sn digest, x = Ok (sn, digest) → ∃ b0, obeys b b0 ∧ blob_le b0 b' ∧ query_built b0 b' sn digest.
Proof.
  induction n' as [|n' IH]; intros b x b' Hw E; cbn [build_attempts] in E; apply gom_bind_inv in E as (y & b1 & (w & E1 & ->)%attempt_inv & E);
    destruct (build_ok _ _ _ _ Hw E1) as [K1 Hx]; destruct w as [[sn digest]|e].
  1,3: apply mret_inv in E as [-> ->]; split; [done|]; intros ?? [= <- <-]; exists b; split; [apply obeys_refl|]; by apply Hx.
  - apply (lift_inv (Err e)) in E as [-> ->]. by split.
  - destruct (transition_pending e); [|apply (lift_inv (Err e)) in E as [-> ->]; by split]. destruct (IH _ _ _ (obeys_ok rivals _ _ K1 Hw) E) as [K2 Hx2].
    split; [by eapply obeys_trans|]. intros sn digest Hs. destruct (Hx2 sn digest Hs) as (b0 & K0 & Hb). exists b0. split; [by eapply obeys_trans|done].
Qed.

(** *** Reading the merged tree *)

Lemma quietly_collect q root p k limit : quietly (B := B) (fresh (collect (PageStore0 := domain_pages q) root p k limit)).
Proof.
  apply (quietly_fresh q). apply (growing_collect (PageView0 := reader_view q (session_pageKey q) (session_packKey q))
    (PageReadLaws0 := reader_laws q (session_pageKey q) (session_packKey q) (page_key_blob q) (pack_key_blob q))).
Qed.

Lemma collect_tree q root es p k m (b : B) entries b' :
  tree_of q b root es → (0 < m)%nat → fresh (collect (PageStore0 := domain_pages q) root p k (Z.of_nat m)) b = (Ok entries, b') → collision_free b' →
  entries = take m (select p k es).
Proof.
  intros Hh Hm E Hc. destruct (fresh_yields q (session_pageKey q) (session_packKey q) _ (take m (select p k es)) _ _ _
    (collect_ok (PageView0 := reader_view q (session_pageKey q) (session_packKey q))
      (PageReadLaws0 := reader_laws q (session_pageKey q) (session_packKey q) (page_key_blob q) (pack_key_blob q))
      (newSession b) root es p k m (reader_new _ _ _ b) Hh Hm) E) as [_ Hx].
  by destruct (Hx Hc) as [[= ->]|(e & [=] & _)].
Qed.

Lemma tree_typed q (b : B) root es : tree_of q b root es → root_ok root → root_typed root.
Proof.
  intros Hh (Hl & Hz & _ & _). destruct Hh as [[Hd _]|[_ [l Hr]]].
  - destruct (Hz Hd) as (_ & Hc & Hb & Hlv). unfold root_typed, u64_ok, MaxInt64, MaxUint64. lia.
  - assert (∃ p, refers (PageView0 := reader_view q (session_pageKey q) (session_packKey q)) (newSession b) (root_ref root) p) as (p & Hp & Hv).
    { destruct l; [destruct Hr as (p & Hp & _)|destruct Hr as (p & ess & Hp & _)]; by exists p. }
    destruct Hp as [(_ & _ & Hok & Hty) _]. exact (verified_typed p (root_ref root) Hok Hty Hv).
Qed.

Lemma query_ok_text sn u q (b : B) es : ValidateStateQuerySnapshot sn = Ok u → tree_of q b (Query_Root sn) es → query_text sn.
Proof.
  intros E Hh. unfold ValidateStateQuerySnapshot in E. apply result_bind_Ok in E as (? & Hg%guard_err_Ok & E). apply result_bind_Ok in E as (? & Hr%validateDomainTreeRoot_Ok & E).
  apply result_bind_Ok in E as (text & He & _). rewrite !orb_false_iff, !negb_false_iff, Z.eqb_eq in Hg. destruct Hg as [[[Hs Hp] Hid] _].
  split; [rewrite Hs; unfold MaxInt64; lia|]. split; [by apply valid_text|]. split; [by apply valid_text|]. split; [apply root_ok_text; [done|by eapply tree_typed]|].
  unfold encode_document in He. apply result_bind_Ok in He as (? & Hy%guard_err_Ok & _). cbn in Hy. by rewrite andb_true_r, negb_false_iff in Hy.
Qed.

Lemma load_query_ok digest (b : B) x b' :
  loadStateQuerySnapshot prefix digest b = (x, b') → blob_le b b' ∧
  ∀ sn sn' text, x = Ok sn' → encode_document sn = Ok text → digest = Digest text → text ∈ offered b → query_text sn → documents_free b' → sn' = sn.
Proof.
  intros E. unfold loadStateQuerySnapshot in E. pure_step E. destruct (guard_err _ _); [|by destruct E as [-> ->]]. pure_step E.
  destruct (StateQuerySnapshotKey digest) as [k|] eqn:Ek; [|by destruct E as [-> ->]]. apply gom_bind_inv in E as (y & b1 & E1 & E).
  destruct (get_blob _ _ _ _ (query_key_blob _ _ Ek) E1) as [Hle Ho]. destruct y as [o|]; [|by destruct E as [-> ->]]. specialize (Ho o eq_refl).
  pure_step E. case_bool_decide as Hd; cbn [guard_err] in E; [by destruct E as [-> ->]|]. pure_step E.
  destruct (decodeCanonicalValue (Object_Body o)) as [sn'|] eqn:Es; [|by destruct E as [-> ->]]. pure_step E. destruct (guard_err _ _); [|by destruct E as [-> ->]].
  apply gom_bind_inv in E as (now & b2 & E2 & E). pose proof (quietly_now _ _ _ E2) as Hle2. assert (blob_le b b2) as Hle02 by by etrans.
  destruct now as [now|]; [|by destruct E as [-> ->]]. pure_step E. destruct (guard_err _ _); [|by destruct E as [-> ->]].
  apply mret_inv in E as [-> ->]. split; [done|]. intros sn ? text [= <-] Ht -> Hof Hty Hu.
  assert (Object_Body o = text) as Eb. { apply (Hu (key_value k)); [|by apply (offered_le _ _ Hle02)|done]. eapply lookup_weaken; [exact Ho|]. by apply blob_le_contents. }
  rewrite Eb, (decodeCanonicalValue_encoded sn text) in Es by done. by injection Es as <-.
Qed.

Lemma later_clone k es : later k (clone_entry <$> es) = clone_entry <$> later k es.
Proof. unfold later. induction es as [|e es IH]; [done|]. rewrite fmap_cons, !filter_cons, IH. change (Entry_Key (clone_entry e)) with (Entry_Key e). by destruct (decide _). Qed.

Lemma select_later p k es : Forall (selected p []) es → select p k es = later k (clone_entry <$> es).
Proof.
  intros Hall. rewrite later_clone. unfold select, later. f_equal. induction Hall as [|e es [_ Hp] _ IH]; [done|]. rewrite !filter_cons, IH.
  destruct (decide (bytes_lt k (Entry_Key e))); [rewrite decide_True by by split|rewrite decide_False by by intros [? _]]; done.
Qed.

Lemma later_all p es : Forall (selected p []) es → later [] (clone_entry <$> es) = clone_entry <$> es.
Proof. intros Hsel. rewrite later_clone. f_equal. apply list_filter_all. eapply list.Forall_impl; [exact Hsel|]. by intros e [? _]. Qed.

Lemma listed_keyed r (b : B) m : listed_at r b m → keyed m.
Proof.
  intros [[_ ->]|(a & (h & es & os & xs & _ & W & ->) & [[_ ->]|(_ & _ & ->)])]; [by intros k e; rewrite lookup_empty..|].
  apply change_map_keyed, entries_map_keyed. exact (proj1 (tree_holds_sorted r _ _ (page_key_blob r) (pack_key_blob r) _ _ _ (wf_base _ _ _ _ _ _ W))).
Qed.

(** Only records under the prefix are merged. *)
Lemma merged_selected b0 (b : B) entries es : merged pv b0 b entries es → Forall (selected pv []) es.
Proof.
  intros (ls & Hls & _ & Hp). apply list.Forall_forall. intros e He. assert (clone_entry e ∈ map clone_entry (concat ls)) as Hin.
  { rewrite <-Hp. by apply list_elem_of_fmap_2. }
  apply list_elem_of_fmap in Hin as (e' & Ee & Hin). assert (Entry_Key e' = Entry_Key e) as Ek by (by apply (f_equal Entry_Key) in Ee).
  apply list_elem_of_In, in_concat in Hin as (l & Hl%list_elem_of_In & He'%list_elem_of_In).
  apply list_elem_of_lookup in Hl as [i Hl]. destruct (Forall2_lookup_r _ _ _ _ _ Hls Hl) as (entry & _ & bi & m & _ & _ & Hm & ->).
  unfold listing in He'. apply sorted_values_elem in He'; [|by eapply filter_keyed, clone_keyed, listed_keyed].
  apply map_lookup_filter_Some in He' as [_ Hs]. unfold selected. by rewrite <-Ek.
Qed.

(** *** Calls *)

Lemma quietly_load_query digest : quietly (loadStateQuerySnapshot (B := B) prefix digest).
Proof. intros b x b' E. by destruct (load_query_ok _ _ _ _ E). Qed.

Lemma across_obeys limit k digest t b x b' :
  all_ok b → listStateAcrossDomains fuel depth prefix limit k digest t b = (x, b') → obeys b b'.
Proof.
  intros Hw E. unfold listStateAcrossDomains in E. apply gom_bind_inv in E as (y & b1 & E1 & E). assert (obeys b b1) as K1.
  { case_bool_decide; [by destruct (attempts_ok _ _ _ _ _ Hw E1)|]. apply obeys_le. revert E1. apply quietly_bind; [apply quietly_load_query|]. intros; apply quietly_ret. }
  destruct y as [[sn d]|]; [|by destruct E as [-> ->]]. eapply obeys_then; [exact K1|]. revert E.
  apply quietly_bind; [apply quietly_collect|]. intros entries. apply quietly_page.
Qed.

Lemma quietly_snapshot r digest p k limit : quietly (listSnapshot (B := B) r digest p k limit).
Proof.
  unfold listSnapshot. apply quietly_bind; [|intros h; apply quietly_bind; [apply quietly_list|intros; apply quietly_ret]].
  intros b x b' E. by destruct (load_snapshot_ok r no_head _ _ _ _ E).
Qed.

Lemma quietly_first r p k limit t : quietly (list_ (B := B) r p k limit t).
Proof.
  unfold list_. apply quietly_bind; [apply quietly_lift|]. intros _. apply quietly_bind; [apply quietly_load|]. intros sn.
  destruct (_ || _); [apply quietly_ret|]. apply quietly_bind; [apply quietly_lock|]. intros l. apply quietly_bind; [apply quietly_lift|]. intros _.
  apply quietly_bind; [apply quietly_list|]. intros entries. destruct (_ <? _); [apply quietly_ret|]. apply quietly_bind; [|intros; apply quietly_ret].
  intros b x b' E. by destruct (write_snapshot_ok _ _ _ _ _ _ E).
Qed.

Lemma domain_obeys r limit from b x b' : all_ok b → list_domain fuel depth r prefix limit from b = (x, b') → obeys b b'.
Proof.
  intros Hw E. unfold list_domain in E. apply gom_bind_inv in E as (y & b1 & E1 & E). assert (obeys b b1) as K1.
  { case_bool_decide.
    - eapply (with_help_ok fuel depth rivals no_event (λ _ _ _, True)) in E1 as [K _]; [by apply follows_nothing| |done].
      intros b0 x0 b0' _ E0. split; [|done]. apply follows_le. by eapply quietly_first.
    - apply obeys_le. revert E1. apply quietly_bind; [apply quietly_snapshot|]. intros [? ?]. apply quietly_ret. }
  destruct y as [[[entries rev] d]|]; [|by destruct E as [-> ->]]. eapply obeys_then; [exact K1|]. revert E.
  apply quietly_bind; [apply quietly_lift|]. intros _. apply quietly_page.
Qed.

Lemma quietly_resume limit value : quietly (resume (B := B) prefix limit value).
Proof.
  unfold resume. destruct (decodeStateListCursor value); [|apply quietly_throw]. apply quietly_bind; [apply quietly_lift|]. intros _.
  apply quietly_bind; [apply quietly_now|]. intros now. apply quietly_bind; [apply quietly_lift|]. intros _. apply quietly_ret.
Qed.

Lemma list_obeys request b x b' : all_ok b → EngineList.List fuel depth cursorTTL prefix request b = (x, b') → obeys b b'.
Proof.
  intros Hw E. unfold EngineList.List in E. pure_step E. destruct (guard_err _ _); [|destruct E as [-> ->]; apply obeys_refl].
  pure_step E. destruct (guard_err _ _); [|destruct E as [-> ->]; apply obeys_refl]. apply gom_bind_inv in E as (now & b1 & E1 & E). pose proof (quietly_now _ _ _ E1) as Hle1.
  destruct now as [now|]; [|destruct E as [-> ->]; by apply obeys_le]. apply gom_bind_inv in E as (from & b2 & E2 & E). assert (blob_le b1 b2) as Hle2.
  { destruct (bool_decide _); [by eapply quietly_resume|by apply mret_inv in E2 as [_ ->]]. }
  assert (blob_le b b2) as Hle by by etrans. pose proof (obeys_le _ _ Hle) as K. destruct from as [from|]; [|by destruct E as [-> ->]].
  pure_step E. destruct (stateDomainReferenceForPrefix prefix) as [[r exact]|]; [|by destruct E as [-> ->]].
  assert (all_ok b2) as Hw2 by by eapply obeys_ok. destruct exact; cbn [negb] in E; pure_step E; (destruct (guard_err _ _); [|by destruct E as [-> ->]]);
    (eapply obeys_trans; [exact K|]); [by eapply domain_obeys|by eapply across_obeys].
Qed.

Lemma pages_obey calls : ∀ limit value b x b', all_ok b → list_pages fuel depth cursorTTL calls prefix limit value b = (x, b') → obeys b b'.
Proof.
  induction calls as [|calls IH]; intros limit value b x b' Hw E; cbn [list_pages] in E; [apply mret_inv in E as [_ ->]; apply obeys_refl|].
  apply gom_bind_inv in E as (page & b1 & E1 & E). pose proof (list_obeys _ _ _ _ Hw E1) as K1. destruct page as [page|]; [|by destruct E as [-> ->]].
  case_bool_decide; [by apply mret_inv in E as [_ ->]|]. apply gom_bind_inv in E as (y & b2 & E2 & E).
  pose proof (obeys_trans _ _ _ K1 (IH _ _ _ _ _ (obeys_ok rivals _ _ K1 Hw) E2)) as K2. destruct y as [[rest left]|]; [|by destruct E as [-> ->]]. by apply mret_inv in E as [_ ->].
Qed.

(** The first [m] of the entries [R] have been returned, and the cursor says if there are more. *)
Definition chunk (m : nat) (R : list DomainEntry) (items : list State.Item) (cursor : gostring) : Prop :=
  Forall2 shows_item (take m R) items ∧ (cursor = [] ↔ (length R ≤ m)%nat).

Lemma chunk_step m R items items' cursor :
  (n < length R)%nat → Forall2 shows_item (take n R) items → chunk m (drop n R) items' cursor → chunk (n + m) R (items ++ items') cursor.
Proof.
  intros Hn Hi [Hi' Hc]. split.
  - rewrite <-(take_drop n R) at 1. rewrite take_app, length_take, Nat.min_l, take_take, Nat.min_r by lia. replace (n + m - n)%nat with m by lia. by apply Forall2_app.
  - rewrite Hc, length_drop. lia.
Qed.

(** *** Following the cursors *)

Abbreviation list_call := (EngineList.List fuel depth cursorTTL prefix).
Abbreviation request value := {| State.PageRequest_Limit := Z.of_nat n; State.PageRequest_Cursor := value |}.

(** What follows a page. *)
Definition then_pages (calls : nat) (page : State.Page) : GoM B error (list State.Item * gostring) :=
  if bool_decide (State.Page_NextCursor page = []) then mret (State.Page_Items page, [])
  else
    '(rest, remaining) ← list_pages fuel depth cursorTTL calls prefix (Z.of_nat n) (State.Page_NextCursor page);
    mret (State.Page_Items page ++ rest, remaining).

Lemma then_obeys calls page b x b' : all_ok b → then_pages calls page b = (x, b') → obeys b b'.
Proof.
  intros Hw E. unfold then_pages in E. case_bool_decide; [apply mret_inv in E as [_ ->]; apply obeys_refl|]. apply gom_bind_inv in E as (y & b3 & E3 & E).
  pose proof (pages_obey _ _ _ _ _ _ Hw E3) as K. destruct y as [[? ?]|]; [by apply mret_inv in E as [_ ->]|by destruct E as [-> ->]].
Qed.

(** What a call does once its request is checked. *)
Definition call_from (from : position) : GoM B error State.Page :=
  '(r, exact) ← lift (stateDomainReferenceForPrefix prefix);
  if exact : bool then list_domain fuel depth r prefix (Z.of_nat n) from
  else listStateAcrossDomains fuel depth prefix (Z.of_nat n) (at_after from) (at_snapshot from) (at_expires from).

(** Where a cursor points to. *)
Definition cursor_position (c : stateListCursor) : position :=
  {| at_after := Cursor_After c; at_revision := Cursor_Revision c; at_snapshot := Cursor_Snapshot c; at_composite := Cursor_Composite c; at_expires := Cursor_ExpiresAt c |}.

Definition start_position (t : Z) : position := {| at_after := []; at_revision := 0; at_snapshot := []; at_composite := false; at_expires := t |}.

Lemma call_begins value b page b' :
  list_call (request value) b = (Ok page, b') → ∃ b1 from, blob_le b b1 ∧ call_from from b1 = (Ok page, b') ∧
    (value = [] → ∃ t, from = start_position t) ∧ ∀ c, opens value c → from = cursor_position c.
Proof.
  intros E. unfold EngineList.List in E. cbn [State.PageRequest_Limit State.PageRequest_Cursor] in E. pure_step E.
  destruct (guard_err _ _); [|by destruct E]. rewrite (proj2 (Z.eqb_neq (Z.of_nat n) 0)) in E by lia. pure_step E. destruct (guard_err _ _); [|by destruct E].
  apply gom_bind_inv in E as (now & b2 & E1 & E). pose proof (quietly_now _ _ _ E1) as Hle1. destruct now as [now|]; [|by destruct E].
  apply gom_bind_inv in E as (from & b3 & E2 & E). destruct from as [from|]; [|by destruct E].
  assert (blob_le b2 b3 ∧ (value = [] → from = start_position (now + cursorTTL)) ∧ ∀ c, opens value c → from = cursor_position c) as (Hle2 & Hstart & Hat).
  { case_bool_decide as Hv.
    - split; [by eapply quietly_resume|]. split; [done|]. intros c [_ Ho]. unfold resume in E2. destruct (decodeStateListCursor value) as [c'|]; [|done].
      rewrite (Ho c' eq_refl) in E2. pure_step E2. destruct (guard_err _ _); [|by destruct E2]. apply gom_bind_inv in E2 as (now' & b4 & _ & E2).
      destruct now' as [now'|]; [|by destruct E2]. pure_step E2. destruct (guard_err _ _); [|by destruct E2]. by apply mret_inv in E2 as [[= ->] _].
    - apply mret_inv in E2 as [[= ->] ->]. split; [done|]. split; [done|]. intros c [Hc _]. by destruct Hv. }
  exists b3, from. split; [by etrans|]. split; [|split; [eauto|done]]. unfold call_from. unfold mbind, gom_bind, lift in E |- *.
  destruct (stateDomainReferenceForPrefix prefix) as [[r exact]|]; [|done]. destruct exact; cbn [negb] in E; unfold throw_if, lift in E; by destruct (guard_err _ _).
Qed.

Section Pages.
Variables (L : list DomainEntry) (cursor : gostring → stateListCursor) (past future : B → Prop).
Hypothesis sorted_L : sorted_entries L.
Hypothesis past_on : ∀ b b', obeys b b' → past b → past b'.
Hypothesis future_back : ∀ b b', obeys b b' → future b' → future b.
Hypothesis page_step : ∀ value k b page b',
  (n < length L)%nat → opens value (cursor k) → all_ok b → list_call (request value) b = (Ok page, b') → past b → future b' → page_of n (later k L) cursor page.

Lemma pages_after calls : ∀ k page b items left b',
  all_ok b → then_pages calls page b = (Ok (items, left), b') → past b → future b' → page_of n (later k L) cursor page →
  chunk (S calls * n) (later k L) items left.
Proof.
  induction calls as [|calls IH]; intros k page b items left b' Hw E Hp Hf [Hi Hnext]; unfold then_pages in E.
  all: case_bool_decide as Hnil;
    [apply mret_inv in E as [[= -> ->] _]; destruct Hnext as [[Hl _]|(_ & e & _ & Hne & _)]; [|done];
     rewrite take_ge in Hi by done; split; [by rewrite take_ge by lia|split; [intros _; lia|done]]|].
  all: destruct Hnext as [[_ ?]|(Hlen & e & He & Ho)]; [done|]; apply gom_bind_inv in E as (y & b1 & E1 & E);
    destruct y as [[rest left']|]; [|by destruct E]; apply mret_inv in E as [[= -> ->] ->].
  - apply mret_inv in E1 as [[= -> ->] ->]. rewrite app_nil_r. rewrite Nat.mul_1_l. split; [done|]. split; [done|lia].
  - cbn [list_pages] in E1. fold (then_pages calls) in E1. apply gom_bind_inv in E1 as (page' & b2 & E1 & E2). destruct page' as [page'|]; [|by destruct E2].
    pose proof (list_obeys _ _ _ _ Hw E1) as K1. assert (all_ok b2) as Hw2 by by eapply obeys_ok.
    pose proof (then_obeys calls page' _ _ _ Hw2 E2) as K2.
    assert (n < length L)%nat as Hmore by (eapply Nat.lt_le_trans; [exact Hlen|apply length_filter]).
    pose proof (page_step _ _ _ _ _ Hmore Ho Hw E1 Hp (future_back _ _ K2 Hf)) as Hpage.
    specialize (IH _ _ _ _ _ _ Hw2 E2 (past_on _ _ K1 Hp) Hf Hpage). rewrite (later_page k L n e) in IH by done. by apply chunk_step.
Qed.
End Pages.

Section Domain.
Variable r : consistencyDomainRef.
Hypothesis routed : stateDomainReferenceForPrefix prefix = Ok (r, true).

Lemma names_ascii h digest (b : B) : names r h digest b → is_ascii digest ∧ digest ≠ [].
Proof. intros (t & text & _ & _ & -> & _). split; [apply b64_is_ascii|apply digest_nonempty]. Qed.

Lemma seen_u64 b1 h es : seen r b1 h es → u64_ok (Head_Revision h).
Proof. intros (_ & _ & _ & os & xs & W). apply (wf_typed _ _ _ _ _ _ W). Qed.

(** A page from the snapshot a position names. *)
Lemma snapshot_page b1 h es from b x b' :
  at_snapshot from ≠ [] → list_domain fuel depth r prefix (Z.of_nat n) from b = (x, b') → blob_le b b' ∧
  ∀ page, x = Ok page → seen r b1 h es → after r b1 b → names r h (at_snapshot from) b → documents_free b' → collision_free b' →
    page_of n (shown pv (at_after from) h es) (next_at (Head_Revision h) (at_snapshot from) false (at_expires from)) page.
Proof.
  intros Hs E. unfold list_domain in E. rewrite bool_decide_eq_false_2 in E by done. apply gom_bind_inv in E as (y & b2 & E1 & E).
  apply gom_bind_inv in E1 as (z & b3 & E1 & E2). replace (Z.of_nat n + 1) with (Z.of_nat (S n)) in E1 by lia.
  destruct (list_next r b1 h es _ _ _ _ _ _ _ (proj2 sized) E1) as [Hle1 Hx]. destruct z as [[entries rev]|]; [|destruct E2 as [-> ->]; by destruct E as [-> ->]].
  apply mret_inv in E2 as [-> ->]. pure_step E. destruct (guard_err _ _); [|by destruct E as [-> ->]].
  pose proof (quietly_page _ _ _ _ _ _ E) as Hle2. split; [by etrans|]. intros page -> Hseen Ha Hd Hu Hc.
  destruct (Hx _ _ eq_refl Hseen Ha Hd (documents_free_le _ _ Hle2 Hu) (collision_free_le _ _ Hle2 Hc)) as [-> ->].
  eapply page_correct; [lia|exact E|]. intros k _ Hk Ht. apply next_text; [by eapply seen_u64|by eapply names_ascii|done|done].
Qed.

(** A call that continues at [k]. *)
Lemma continue_page value h digest t k b page b' b1 es :
  opens value (next_at (Head_Revision h) digest false t k) → names r h digest b → list_call (request value) b = (Ok page, b') →
  seen r b1 h es → after r b1 b → documents_free b' → collision_free b' → page_of n (shown pv k h es) (next_at (Head_Revision h) digest false t) page.
Proof.
  intros Ho Hd E Hs Ha Hu Hc. destruct (call_begins _ _ _ _ E) as (b0 & from & Hle0 & E0 & _ & Hfrom). rewrite (Hfrom _ Ho) in E0.
  unfold call_from in E0. pure_step E0. rewrite routed in E0. apply (snapshot_page b1 h es) in E0 as [_ Hp]; [|by eapply names_ascii].
  apply Hp; [done|done| | |done|done]; [eapply after_trans; [done|by apply after_le]|]. eapply names_sub; [by apply offered_le|done].
Qed.

Lemma first_page b page b' :
  all_ok b → list_call (request []) b = (Ok page, b') → ∃ t b1, obeys b b1 ∧ blob_le b1 b' ∧ (collision_free b' →
    listed_at r b1 ∅ ∧ page_of n [] (next_at 0 [] false t) page ∨
    ∃ h es digest, seen r b1 h es ∧ ((n < length (shown pv [] h es))%nat → names r h digest b') ∧
      page_of n (shown pv [] h es) (next_at (Head_Revision h) digest false t) page).
Proof.
  intros Hw E. destruct (call_begins _ _ _ _ E) as (b0 & from & Hle0 & E0 & Hst & _). destruct (Hst eq_refl) as [t ->]. unfold call_from in E0.
  pure_step E0. rewrite routed in E0. unfold list_domain in E0. cbn [at_snapshot at_after at_expires at_revision start_position] in E0.
  rewrite bool_decide_eq_true_2 in E0 by done. apply gom_bind_inv in E0 as (y & b2 & E1 & E2). destruct y as [[[entries rev] digest]|]; [|by destruct E2].
  replace (Z.of_nat n + 1) with (Z.of_nat (S n)) in E1 by lia. pure_step E2. cbn [Z.eqb negb andb guard_err] in E2. pose proof (quietly_page _ _ _ _ _ _ E2) as Hle2.
  eapply (with_help_ok fuel depth rivals no_event (λ '(entries, rev, digest) ba b', ∃ b1, blob_le ba b1 ∧ blob_le b1 b' ∧ (collision_free b' →
    listed_at r b1 ∅ ∧ entries = [] ∨ ∃ h es, seen r b1 h es ∧ entries = take (S n) (shown pv [] h es) ∧ rev = Head_Revision h ∧
      ((n < length entries)%nat → names r h digest b')))) in E1 as [_ Hx].
  2:{ intros ba x bb Hok Ec. destruct (list_first r (rivals r) _ _ _ _ _ _ _ (Hok r) (proj2 sized) Ec) as [Hle Hx]. split; [by apply follows_le|].
      intros [[entries' rev'] digest'] ->. by apply Hx. }
  2:{ eapply obeys_ok; [done|by apply obeys_le|done]. }
  destruct (Hx _ eq_refl) as (ba & Ka & b1 & Hlea & Hle1 & Hshow). exists t, b1. split.
  { eapply obeys_trans; [by apply obeys_le|]. eapply obeys_then; [by apply follows_nothing|done]. }
  split; [by etrans|]. intros Hc. destruct (Hshow (collision_free_le _ _ Hle2 Hc)) as [[Hl ->]|(h & es & Hs & -> & -> & Hd)]; [left|right].
  - split; [done|]. replace [] with (take (S n) ([] : list DomainEntry)) in E2 by done.
    destruct (page_correct _ _ _ _ _ _ (proj1 sized) E2) as [Hi Hnext]; [intros; cbn in *; lia|]. split; [done|]. left. by destruct Hnext as [?|[? _]]; [|cbn in *; lia].
  - assert ((n < length (shown pv [] h es))%nat → names r h digest b') as Hd'.
    { intros Hlen. eapply names_sub; [by apply offered_le|]. apply Hd. rewrite length_take. lia. }
    exists h, es, digest. split; [done|]. split; [done|]. eapply page_correct; [apply sized|exact E2|]. intros k Hlen Hk Ht.
    apply next_text; [by eapply seen_u64| |done|done]. eapply names_ascii, Hd'. exact Hlen.
Qed.

(** All pages together show the domain as it was once. *)
Lemma domain_pages_ok calls b items left b' :
  all_ok b → list_pages fuel depth cursorTTL (S calls) prefix (Z.of_nat n) [] b = (Ok (items, left), b') →
  ∃ b1, obeys b b1 ∧ obeys b1 b' ∧ (collision_free b' → ∃ m, listed_at r b1 m ∧
    (documents_free b' → chunk (S calls * n) (listing pv [] (clone_entry <$> m)) items left)).
Proof.
  intros Hw E. cbn [list_pages] in E. apply gom_bind_inv in E as (page & b2 & E1 & E). destruct page as [page|]; [|by destruct E]. fold (then_pages calls page) in E.
  destruct (first_page _ _ _ Hw E1) as (t & b1 & K1 & Hle1 & Hpage). pose proof (list_obeys _ _ _ _ Hw E1) as K2. pose proof (obeys_ok rivals _ _ K2 Hw) as Hw2.
  pose proof (then_obeys _ _ _ _ _ Hw2 E) as K3.
  exists b1. split; [done|]. split; [eapply obeys_trans; [by apply obeys_le|done]|]. intros Hc.
  destruct (Hpage (af_free _ _ _ (acts_after _ r _ _ K3) Hc)) as [[Hl Hp]|(h & es & digest & Hs & Hd & Hp)].
  - exists ∅. split; [done|]. intros _. rewrite listing_empty.
    apply (pages_after [] (next_at 0 [] false t) (λ _, True) (λ _, True)) with (k := []) (page := page) (b := b2) (b' := b'); try done; [constructor|intros; cbn in *; lia].
  - exists (contents h es). split; [by apply seen_listed|]. intros Hu. rewrite (listing_later pv []) by by eapply seen_keyed.
    apply (pages_after (shown pv [] h es) (next_at (Head_Revision h) digest false t) (λ b, after r b1 b ∧ ((n < length (shown pv [] h es))%nat → names r h digest b)) (λ b, collision_free b ∧ documents_free b))
      with (page := page) (b := b2) (b' := b'); try done.
    + apply listing_sorted. by eapply seen_keyed.
    + intros ba bb K [Ha Hd']. split; [eapply after_trans; [done|by eapply acts_after]|]. intros Hl. eapply names_sub; [by eapply acts_offered|auto].
    + intros ba bb K [Hf Hfo]. split; [by eapply (af_free r), Hf; eapply acts_after|]. by eapply documents_acts.
    + intros value k ba page' bb Hlen Ho Hok Ec [Ha Hd'] [Hf Hfo]. rewrite <-listing_later by by eapply seen_keyed.
      exact (continue_page _ _ _ _ _ _ _ _ _ _ Ho (Hd' Hlen) Ec Hs Ha Hfo Hf).
    + split; [by apply after_le|done].
    + rewrite <-listing_later by by eapply seen_keyed. done.
Qed.
End Domain.

Section Across.
Variable base : consistencyDomainRef.
Hypothesis across : stateDomainReferenceForPrefix prefix = Ok (base, false).

Abbreviation query_of sn := (stateQueryReference (Query_DomainID sn)).

(** A page of the merged tree. *)
Lemma tree_page sn es k digest b page b' :
  (entries ← fresh (collect (PageStore0 := domain_pages (query_of sn)) (Query_Root sn) pv k (Z.of_nat n + 1));
   finish_page (Z.of_nat n) entries (next_at 1 digest true (Query_ExpiresAt sn))) b = (Ok page, b') →
  tree_of (query_of sn) b (Query_Root sn) es → Forall (selected pv []) es → collision_free b' →
  ((n < length (later k (clone_entry <$> es)))%nat → is_ascii digest) →
  page_of n (later k (clone_entry <$> es)) (next_at 1 digest true (Query_ExpiresAt sn)) page.
Proof.
  intros E Hh Hsel Hc Hd. apply gom_bind_inv in E as (entries & b1 & E1 & E). destruct entries as [entries|]; [|by destruct E].
  pose proof (quietly_page _ _ _ _ _ _ E) as Hle. replace (Z.of_nat n + 1) with (Z.of_nat (S n)) in E1 by lia.
  rewrite (collect_tree _ _ _ _ _ _ _ _ _ Hh (Nat.lt_0_succ n) E1 (collision_free_le _ _ Hle Hc)), select_later in E by done.
  eapply page_correct; [apply sized|exact E|]. intros k' Hlen Hk Ht. apply next_text; [by unfold u64_ok, MaxUint64|by apply Hd|done|done].
Qed.

Lemma continue_across sn text es value k b page b' :
  opens value (next_at 1 (Digest text) true (Query_ExpiresAt sn) k) → list_call (request value) b = (Ok page, b') →
  encode_document sn = Ok text → text ∈ offered b → ValidateStateQuerySnapshot sn = Ok tt → tree_of (query_of sn) b (Query_Root sn) es → Forall (selected pv []) es →
  collision_free b' → documents_free b' →
  page_of n (later k (clone_entry <$> es)) (next_at 1 (Digest text) true (Query_ExpiresAt sn)) page.
Proof.
  intros Ho E Et Hof Ev Hh Hsel Hc Hu. destruct (call_begins _ _ _ _ E) as (b0 & from & Hle0 & E0 & _ & Hfrom). rewrite (Hfrom _ Ho) in E0.
  unfold call_from in E0. pure_step E0. rewrite across in E0. cbn [at_after at_snapshot at_expires cursor_position next_cursor Cursor_After Cursor_Snapshot] in E0.
  unfold listStateAcrossDomains in E0. rewrite bool_decide_eq_false_2 in E0 by apply digest_nonempty. apply gom_bind_inv in E0 as (y & b1 & E1 & E2).
  apply gom_bind_inv in E1 as (z & b2 & E1 & E3). destruct (load_query_ok _ _ _ _ E1) as [Hle1 Hz]. destruct z as [sn'|]; [|destruct E3 as [-> ->]; by destruct E2].
  apply mret_inv in E3 as [-> ->]. assert (blob_le b2 b') as Hle2.
  { revert E2. apply quietly_bind; [apply quietly_collect|]. intros; apply quietly_page. }
  assert (blob_le b b2) as Hle by by etrans.
  rewrite (Hz sn sn' text) in E2; [|done|done|done|by apply (offered_le _ _ Hle0)|by eapply query_ok_text|by eapply documents_free_le].
  eapply tree_page; [exact E2|by eapply tree_holds_le|done|done|]. intros _. apply b64_is_ascii.
Qed.

Lemma first_across b page b' :
  all_ok b → list_call (request []) b = (Ok page, b') → ∃ sn digest b0 b1, obeys b b0 ∧ blob_le b0 b1 ∧ blob_le b1 b' ∧ query_built b0 b1 sn digest ∧
    ∀ es, tree_of (query_of sn) b1 (Query_Root sn) es → Forall (selected pv []) es → collision_free b' →
      page_of n (clone_entry <$> es) (next_at 1 digest true (Query_ExpiresAt sn)) page.
Proof.
  intros Hw E. destruct (call_begins _ _ _ _ E) as (b2 & from & Hle2 & E0 & Hst & _). destruct (Hst eq_refl) as [t ->]. unfold call_from in E0.
  pure_step E0. rewrite across in E0. unfold listStateAcrossDomains in E0. cbn [at_snapshot at_after at_expires start_position] in E0.
  rewrite bool_decide_eq_true_2 in E0 by done. apply gom_bind_inv in E0 as (y & b1 & E1 & E2).
  destruct (attempts_ok _ _ _ _ _ (obeys_ok rivals _ _ (obeys_le _ _ Hle2) Hw) E1) as [_ Hy]. destruct y as [[sn digest]|]; [|by destruct E2].
  destruct (Hy sn digest eq_refl) as (b0 & K0 & Hle0 & Hq). exists sn, digest, b0, b1. split; [eapply obeys_trans; [by apply obeys_le|done]|]. split; [done|].
  split; [revert E2; apply quietly_bind; [apply quietly_collect|]; intros; apply quietly_page|]. split; [done|]. intros es Hh Hsel Hc.
  pose proof (later_all _ _ Hsel) as Hall. rewrite <-Hall. eapply tree_page; [exact E2|done|done|done|]. rewrite Hall. intros Hlen. destruct Hq as (_ & _ & [[-> Hr]|(text & _ & -> & _)] & _); [constructor|apply b64_is_ascii].
Qed.

(** All pages together show what the domains of the catalog held. *)
Lemma across_pages_ok calls b items left b' :
  all_ok b → list_pages fuel depth cursorTTL (S calls) prefix (Z.of_nat n) [] b = (Ok (items, left), b') →
  ∃ b0 b1 entries, obeys b b0 ∧ blob_le b0 b1 ∧ obeys b1 b' ∧ catalogued b0 b1 entries ∧
    (collision_free b' → ∃ es, merged pv b0 b1 entries es ∧
      (documents_free b' → chunk (S calls * n) (clone_entry <$> es) items left)).
Proof.
  intros Hw E. cbn [list_pages] in E. apply gom_bind_inv in E as (page & b2 & E1 & E). destruct page as [page|]; [|by destruct E]. fold (then_pages calls page) in E.
  destruct (first_across _ _ _ Hw E1) as (sn & digest & b0 & b1 & K0 & Hle0 & Hle1 & (Hpv & Hval & Hdig & entries & Hcat & Hx) & Hpage).
  pose proof (obeys_ok rivals _ _ (list_obeys _ _ _ _ Hw E1) Hw) as Hw2. pose proof (then_obeys _ _ _ _ _ Hw2 E) as K3.
  assert (obeys b1 b') as K1 by (eapply obeys_trans; [by apply obeys_le|done]).
  exists b0, b1, entries. split; [done|]. split; [done|]. split; [done|]. split; [done|]. intros Hq. destruct Hx as (es & Hh & Hm).
  { by eapply (af_free base), Hq; eapply acts_after. }
  pose proof (merged_selected _ _ _ _ Hm) as Hsel. exists es. split; [done|]. intros Hu.
  specialize (Hpage es Hh Hsel (af_free base _ _ (acts_after _ base _ _ K3) Hq)). set (L := clone_entry <$> es) in *.
  assert (later [] L = L) as Hall by by eapply later_all. rewrite <-Hall. apply (pages_after L (next_at 1 digest true (Query_ExpiresAt sn)) (λ b, tree_of (query_of sn) b (Query_Root sn) es ∧ ∀ text, encode_document sn = Ok text → digest = Digest text → text ∈ offered b)
    (λ b, collision_free b ∧ documents_free b)) with (page := page) (b := b2) (b' := b'); try done.
  - unfold L. apply clone_sorted. by destruct Hm as (ls & _ & Hs & _).
  - intros ba bb K [Ht Hof]. split; [by eapply af_holds, Ht; eapply acts_after|]. intros text Et Ed. by eapply acts_offered, Hof.
  - intros ba bb K [Hb Hfo]. split; [by eapply (af_free base), Hb; eapply acts_after|by eapply documents_acts].
  - intros value k ba page' bb Hlen Ho Hok Ec [Hh' Hof] [Hb Hfo]. destruct Hdig as [[-> Hr]|(text & Et & -> & _)].
    + exfalso. destruct Hh as [[_ ->]|[Hne _]]; [cbn in Hlen; lia|done].
    + exact (continue_across sn text es value k ba page' bb Ho Ec Et (Hof text Et eq_refl) Hval Hh' Hsel Hb Hfo).
  - split; [by eapply tree_holds_le|]. intros text Et Ed. destruct Hdig as [[-> _]|(text' & Et' & Ed' & Hof)].
    + symmetry in Ed. by apply digest_nonempty in Ed.
    + rewrite Et in Et'. injection Et' as <-. by apply (offered_le _ _ Hle1).
  - by rewrite Hall.
Qed.
End Across.
End Engine.
End ListTheory.
