(* ===== verification/EngineProps.v ===== *)
(** * What the engine's state store guarantees, and where it does not *)

From Stdlib Require Import ZArith Lia.
From S2P Require Import Prelude GoLib GoHash GoJSON GoTime Errors StateStore StateTheory ObjectStore ObjectTheory DomainPage DomainPageTheory DomainTree TreeTheory TreeRead TreeEdit DomainPack DomainHead TransitionFormat DomainSession TreeStream DomainProvider DomainCatalog StateRoute DomainStore EngineTransition EngineState EngineList HeadTheory RecordTheory SessionLaws PackTheory SessionReader StoreLaws StoreRead StoreSpec StoreCommit StoreCatalog StoreMutate StoreList EngineSpec TransitionTheory EngineTheory ListTheory.

Open Scope Z_scope.

Module EngineProps.
Import StorageFormat PageTheory DomainTree TreeTheory TreeRead TreeEdit DomainPack DomainHead TransitionFormat HeadTheory DomainSession DomainProvider DomainCatalog DomainStore StateRoute EngineTransition EngineState RecordTheory SessionLaws SessionReader StoreLaws StoreRead StoreSpec StoreCommit StoreMutate EngineSpec TransitionTheory EngineTheory.

(** ** Sizes *)

Lemma b64_encode_grows l : 4 * len l ≤ 3 * len (b64_encode l).
Proof.
  enough (∀ n l, (length l ≤ n)%nat → 4 * len l ≤ 3 * len (b64_encode l)) as Hn by by eapply Hn.
  clear l. induction n as [|n IH]; intros [|a [|b [|c l]]] Hl; cbn in Hl; try (unfold len; cbn; lia); try lia.
  specialize (IH l ltac:(lia)). unfold len in *. cbn [b64_encode length]. lia.
Qed.

Lemma json_array_elem (f : gostring) l : f ∈ l → len f ≤ len (join "," l).
Proof.
  intros Hf. induction l as [|g l IH]; [by apply not_elem_of_nil in Hf|]. rewrite join_more, len_app. pose proof (len_nonneg (more l)) as Hm.
  pose proof (len_nonneg g). apply elem_of_cons in Hf as [->|Hf]; [lia|]. specialize (IH Hf). destruct l as [|g' l]; [by apply not_elem_of_nil in Hf|].
  rewrite join_more, len_app in IH. unfold more. cbn [map concat]. fold (more l). rewrite !len_app. pose proof (len_nonneg (bs ",")). lia.
Qed.

Lemma json_slice_grows l : 4 * len l ≤ 3 * len (json_slice (Some l)).
Proof.
  pose proof (b64_encode_grows l) as Hg. cbn [json_slice]. unfold json_quote, b64_std_encode. rewrite app_comm_cons, !len_app.
  change (dquote :: map std_char (b64_encode l) ++ match (length l mod 3)%nat with 1%nat => [byte_of 61; byte_of 61] | 2%nat => [byte_of 61] | _ => [] end)
    with ([dquote] ++ map std_char (b64_encode l) ++ match (length l mod 3)%nat with 1%nat => [byte_of 61; byte_of 61] | 2%nat => [byte_of 61] | _ => [] end).
  rewrite !len_app. assert (len (map std_char (b64_encode l)) = len (b64_encode l)) as -> by (unfold len; by rewrite length_map).
  pose proof (len_nonneg (match (length l mod 3)%nat with 1%nat => [byte_of 61; byte_of 61] | 2%nat => [byte_of 61] | _ => [] end)).
  pose proof (len_nonneg [dquote]). lia.
Qed.

(** The stored form of a record is at least a third longer than its data. *)
Lemma encodeStateValue009_grows key data body : encodeStateValue009 key data = Ok body → 4 * len data < 3 * len body.
Proof.
  unfold encodeStateValue009. intros E. apply result_bind_Ok in E as ([ns parts] & _ & E). apply result_bind_Ok in E as (t & _ & E).
  unfold EncodeStateRecord009 in E. apply result_bind_Ok in E as ([] & Hv & [-> _]%encode_document_Ok).
  destruct data as [|c data]; [by unfold validateStateRecord009 in Hv; apply result_bind_Ok in Hv as (? & _ & Hv)|].
  cbn [document_text state_record_document Record_Payload clone_bytes]. unfold json_state_record, json_object. cbn [Record_Payload].
  pose proof (json_slice_grows (c :: data)) as Hg. set (f := json_field "payload" _).
  assert (len (json_slice (Some (c :: data))) ≤ len f) as Hf.
  { unfold f, json_field. rewrite !len_app. pose proof (len_nonneg (json_quote "payload")). pose proof (len_nonneg (bs ":")). cbn [Record_Payload]. lia. }
  pose proof (json_array_elem f [uint_field "schemaVersion" 1; text_field "recordType" t; f] ltac:(right; right; by left)) as Hj.
  cbn [Record_SchemaVersion Record_RecordType]. rewrite !len_app. change (len (bs "{")) with 1. change (len (bs "}")) with 1. lia.
Qed.

Lemma check_changes_size prev cs u :
  State.check_changes prev cs = Ok u → Forall (λ c, State.Change_Delete c = false → len (State.Change_Data c) ≤ State.MaxRecordBytes) cs.
Proof.
  revert prev. induction cs as [|c cs IH]; intros prev E; [constructor|]. cbn [State.check_changes] in E.
  do 5 (apply result_bind_Ok in E as (? & _ & E)). apply result_bind_Ok in E as (? & Hv & E). constructor; [|by eapply IH].
  intros Hd. rewrite Hd in Hv. cbn in Hv. unfold State.validateRecordData in Hv. apply guard_err_Ok, Z.ltb_ge in Hv. done.
Qed.

Lemma wrap_changes_elem cs ws c :
  wrap_changes cs = Ok ws → c ∈ cs → State.Change_Delete c = false →
  ∃ w, w ∈ ws ∧ State.Change_Delete w = false ∧ encodeStateValue009 (State.Change_Key c) (State.Change_Data c) = Ok (State.Change_Data w).
Proof.
  revert ws. induction cs as [|c0 cs IH]; intros ws E Hc Hd; [by apply not_elem_of_nil in Hc|]. cbn [wrap_changes] in E.
  apply result_bind_Ok in E as (data & Hdata & E). apply result_bind_Ok in E as (rest & Hrest & [= <-]). apply elem_of_cons in Hc as [->|Hc].
  - rewrite Hd in Hdata. eexists. split; [by left|done].
  - destruct (IH _ Hrest Hc Hd) as (w & Hw & Hx). exists w. split; [by right|done].
Qed.

(** ** Versions *)

Section Versions.
Context `{SHA256} `{!SHA256Laws}.

Lemma Digest_text x : ValidString (Digest x) = true.
Proof. apply b64_ascii. Qed.

Lemma join_around (l1 l2 : list gostring) : ∃ pre post, ∀ x, join "," (l1 ++ x :: l2) = pre ++ x ++ post.
Proof.
  induction l1 as [|y l1 (pre & post & IH)].
  - exists [], (more l2). intros x. by rewrite app_nil_l, join_more.
  - exists (y ++ bs "," ++ pre), post. intros x. cbn [app]. rewrite join_cons by by destruct l1. rewrite IH. by rewrite !(assoc_L (++)).
Qed.

(** The two ways the lock is released: with the version it has, and without. *)
Lemma release_text_differs version rest rest' :
  version ≠ [] → json_domain_change (release_change version) ++ rest ≠ json_domain_change (release_change []) ++ rest'.
Proof.
  intros Hv E. apply (f_equal (λ s, s !! 43%nat)) in E. unfold json_domain_change, omit_text in E. cbn [ExpectedVersion release_change] in E.
  rewrite bool_decide_eq_true_2 in E by done. vm_compute in E. discriminate E.
Qed.

Lemma release_around cs version :
  StronglySorted bytes_lt (map Key (merge_sort domain_change_le (release_change version :: cs))) →
  StronglySorted bytes_lt (map Key (merge_sort domain_change_le (cs ++ [release_change []]))) →
  ∃ l1 l2, merge_sort domain_change_le (release_change version :: cs) = l1 ++ release_change version :: l2 ∧
           merge_sort domain_change_le (cs ++ [release_change []]) = l1 ++ release_change [] :: l2.
Proof.
  intros Hs Hs'. pose proof (merge_sort_Permutation domain_change_le (release_change version :: cs)) as Hp.
  assert (release_change version ∈ merge_sort domain_change_le (release_change version :: cs)) as (l1 & l2 & E)%list_elem_of_split by (rewrite Hp; by left).
  exists l1, l2. split; [done|]. rewrite E in Hp, Hs. apply (sorted_by_ext Key); [done| |].
  - rewrite map_app in *. exact Hs.
  - rewrite <-(Permutation_middle l1 l2) in Hp. apply Permutation_cons_inv in Hp. intros c. rewrite merge_sort_Permutation, <-Hp, !elem_of_app, !elem_of_cons.
    pose proof (not_elem_of_nil c). naive_solver.
Qed.

Lemma intent_differs version l1 l2 result :
  version ≠ [] → json_intent (l1 ++ release_change version :: l2) result ≠ json_intent (l1 ++ release_change [] :: l2) result.
Proof.
  intros Hv. unfold json_intent, json_object, json_array, json_field. rewrite !map_app. cbn [map].
  destruct (join_around (map json_domain_change l1) (map json_domain_change l2)) as (pre & post & Hj). rewrite !Hj. cbn [app]. rewrite !join_more.
  rewrite <-!(assoc_L (++)). intros E. apply app_inv_head in E. apply app_inv_head in E. apply app_inv_head in E. apply app_inv_head in E.
  apply app_inv_head in E. by apply release_text_differs in E.
Qed.

Definition total (l : list gostring) : Z := foldr (λ f n, len f + n) 0 l.

Lemma total_app l l' : total (l ++ l') = total l + total l'.
Proof. induction l as [|x l IH]; [done|]. cbn. fold (total (l ++ l')) (total l). lia. Qed.

Lemma total_nonneg l : 0 ≤ total l.
Proof. induction l as [|x l IH]; [done|]. cbn. fold (total l). pose proof (len_nonneg x). lia. Qed.

Lemma len_join l : l ≠ [] → len (join "," l) = total l + len l - 1.
Proof.
  induction l as [|x l IH]; [done|]. intros _. destruct l as [|y l]; [cbn; unfold len; cbn; lia|].
  rewrite join_cons by done. rewrite !len_app, IH by done. change (len (bs ",")) with 1. cbn [total foldr]. unfold len. cbn [length]. lia.
Qed.

Lemma len_object l : l ≠ [] → len (json_object l) = total l + len l + 1.
Proof. intros Hl. unfold json_object. rewrite !len_app, len_join by done. change (len (bs "{")) with 1. change (len (bs "}")) with 1. lia. Qed.

(** The document a version is the digest of. *)
Definition version_text (id f : gostring) (change : consistencyDomainChange) : gostring :=
  json_object [text_field "mutationID" id; text_field "fingerprint" f; text_field "key" (Key change); json_field "value" (json_slice (Value change))].

Lemma version_text_fits m f change body :
  encode_document (mutation_delta m f 1) = Ok body → change ∈ Changes m → Delete change = false →
  1 ≤ len (version_text (ID m) f change) ≤ MaxCanonicalBytes.
Proof.
  intros [-> [_ Hlen]]%encode_document_Ok Hc Hd. cbn [document_text delta_document] in Hlen. set (rc := recorded_change (ID m) f change).
  assert (rc ∈ Delta_Changes (mutation_delta m f 1)) as Hrc by by apply list_elem_of_fmap_2.
  assert (len (json_change rc) ≤ len (join "," (map json_change (Delta_Changes (mutation_delta m f 1))))) as Hj by by apply json_array_elem, list_elem_of_fmap_2.
  unfold json_delta in Hlen. rewrite bool_decide_eq_false_2 in Hlen by (intros Hn; by rewrite Hn in Hrc; apply not_elem_of_nil in Hrc).
  rewrite len_object in Hlen by done. rewrite total_app, len_app in Hlen. cbn [total foldr Delta_MutationID Delta_Fingerprint mutation_delta] in Hlen.
  set (om := omit_bytes "result" _) in Hlen. pose proof (total_nonneg om). pose proof (len_nonneg om).
  set (f3 := uint_field "revision" _) in Hlen. set (f4 := json_field "retainUntil" _) in Hlen. pose proof (len_nonneg f3). pose proof (len_nonneg f4).
  unfold json_field at 1 in Hlen. unfold json_array in Hlen. rewrite !len_app in Hlen. change (len (json_quote "changes")) with 9 in Hlen.
  change (len (bs ":")) with 1 in Hlen. change (len (bs "[")) with 1 in Hlen. change (len (bs "]")) with 1 in Hlen.
  assert (len (text_field "key" (Key change)) + len (json_field "value" (json_slice (Value change))) ≤ len (json_change rc) + 12) as Hrcl.
  { unfold json_change. rewrite len_object by done. rewrite !total_app, !len_app. cbn [Change_Key Change_Delete Change_Value rc recorded_change]. rewrite Hd.
    cbn [json_omit total foldr]. set (v := omit_text _ _). pose proof (total_nonneg v). pose proof (len_nonneg v).
    unfold json_field. rewrite !len_app. change (len (json_quote "value")) with 7. change (len (bs ":")) with 1.
    destruct (Value change) as [[|c0 v0]|]; cbn [clone_bytes]; unfold omit_bytes; cbn [bytes_len].
    - change (len (json_slice (Some []))) with 2. change (bytes_len None =? 0) with true. cbn [negb json_omit total foldr]. change (len (@nil gostring)) with 0.
      change (len [_]) with 1. lia.
    - rewrite (proj2 (Z.eqb_neq _ _)) by (unfold bytes_len, len; cbn; lia). cbn [negb json_omit total foldr]. unfold json_field. rewrite !len_app.
      change (len (json_quote "value")) with 7. change (len (bs ":")) with 1. change (len (@nil gostring)) with 0. change (len [_]) with 1. lia.
    - change (len (json_slice None)) with 4. change (bytes_len None =? 0) with true. cbn [negb json_omit total foldr]. change (len (@nil gostring)) with 0.
      change (len [_]) with 1. lia. }
  unfold version_text. rewrite len_object by done. cbn [total foldr]. change (len [_; _; _; _]) with 4.
  change (len [_; _; _; _; _]) with 5 in Hlen. pose proof (len_nonneg (text_field "mutationID" (ID m))). pose proof (len_nonneg (text_field "fingerprint" f)).
  pose proof (len_nonneg (text_field "key" (Key change))). pose proof (len_nonneg (json_field "value" (json_slice (Value change)))). lia.
Qed.

Lemma version_text_differs id f f' change :
  ValidString f = true → ValidString f' = true → version_text id f change = version_text id f' change → f = f'.
Proof.
  intros Hf Hf'. unfold version_text, json_object. rewrite !join_more. unfold more. cbn [map concat]. rewrite <-!(assoc_L (++)). intros E.
  do 3 (apply app_inv_head in E). unfold text_field, json_field in E. rewrite <-!(assoc_L (++)) in E. do 2 (apply app_inv_head in E).
  apply (f_equal read_string) in E. rewrite !read_string_app in E by done. by injection E as ->.
Qed.

(** What the version of a change is the digest of. *)
Definition version_document (id f : gostring) (change : consistencyDomainChange) : gostring :=
  bs "endlessfs-consistency-domain-value-v1" ++ [nul] ++ version_text id f change.

Lemma version_document_differs id f f' change :
  ValidString f = true → ValidString f' = true → f ≠ f' → version_document id f change ≠ version_document id f' change.
Proof. intros Hf Hf' Hne E. apply app_inv_head, app_inv_head in E. apply Hne. by eapply version_text_differs. Qed.

Lemma version_digest m f change :
  is_Ok (encode_document (mutation_delta m f 1)) = true → change ∈ Changes m → Delete change = false →
  consistencyDomainLogicalVersion (ID m) f change = Digest (version_document (ID m) f change).
Proof.
  intros Hb Hin Hd. unfold consistencyDomainLogicalVersion, version_document. rewrite Hd. fold (version_text (ID m) f change).
  destruct (encode_document (mutation_delta m f 1)) as [body|] eqn:Eb; [|done]. pose proof (version_text_fits _ _ _ _ Eb Hin Hd) as Hl.
  by rewrite (proj2 (EncodeCanonical_Ok (version_text (ID m) f change) _) (conj eq_refl Hl)).
Qed.

(** What the fingerprint of a mutation is the digest of. *)
Definition intent_document (changes : list consistencyDomainChange) (result : option gostring) : gostring :=
  bs "endlessfs-consistency-domain-mutation-v2" ++ [nul] ++ json_intent changes (clone_bytes result).

Lemma intent_clone changes result : intent_document changes (clone_bytes result) = intent_document changes result.
Proof. unfold intent_document. by rewrite clone_twice. Qed.

Lemma normalize_inv m c f :
  normalizeConsistencyDomainMutation m = Ok (c, f) →
  c = with_changes m (merge_sort domain_change_le (Changes m)) ∧ is_Ok (encode_document (mutation_delta c f 1)) = true ∧ ValidString f = true ∧
  f = Digest (intent_document (merge_sort domain_change_le (Changes m)) (Result m)).
Proof.
  unfold normalizeConsistencyDomainMutation. intros E. do 2 (apply result_bind_Ok in E as (? & _ & E)).
  apply result_bind_Ok in E as (body & [-> _]%EncodeCanonical_Ok & E). apply result_bind_Ok in E as (body' & Hb & E).
  assert (c = with_changes m (merge_sort domain_change_le (Changes m))) as -> by congruence.
  match type of Hb with encode_document (mutation_delta _ ?d _) = _ => assert (f = d) as -> by congruence end.
  split; [done|]. split; [by rewrite Hb|]. split; [apply Digest_text|done].
Qed.

Lemma fold_versions_elem (id f : gostring) (l : list consistencyDomainChange) (versions : gmap gostring gostring) (k v : gostring) :
  fold_left (λ versions change,
      if bool_decide (Key change ≠ transitionLockKey009) && negb (Delete change)
      then <[Key change := consistencyDomainLogicalVersion id f change]> versions else versions) l versions !! k = Some v →
  versions !! k = Some v ∨
  ∃ change, change ∈ l ∧ Key change = k ∧ Delete change = false ∧ k ≠ transitionLockKey009 ∧ v = consistencyDomainLogicalVersion id f change.
Proof.
  revert versions. induction l as [|c l IH]; intros versions E; cbn [fold_left] in E; [by left|].
  destruct (IH _ E) as [Hv|(c' & Hc' & Hx)]; [|right; exists c'; split; [by right|done]].
  destruct (bool_decide _ && _) eqn:Eb; [|by left]. apply andb_true_iff in Eb as [Hk%bool_decide_eq_true Hd%negb_true_iff].
  destruct (decide (Key c = k)) as [<-|Hne]; [|rewrite lookup_insert_ne in Hv by done; by left].
  rewrite lookup_insert_eq in Hv. injection Hv as <-. right. exists c. split; [by left|done].
Qed.

Lemma fold_versions_some (id f : gostring) (l : list consistencyDomainChange) (versions : gmap gostring gostring) (change : consistencyDomainChange) :
  change ∈ l → Key change ≠ transitionLockKey009 → Delete change = false →
  is_Some (fold_left (λ versions change,
      if bool_decide (Key change ≠ transitionLockKey009) && negb (Delete change)
      then <[Key change := consistencyDomainLogicalVersion id f change]> versions else versions) l versions !! Key change).
Proof.
  intros Hin Hk Hd. induction l as [|c l IH] using rev_ind; [by apply not_elem_of_nil in Hin|]. rewrite fold_left_app. cbn [fold_left].
  destruct (decide (Key c = Key change)) as [Ec|Ec].
  - apply elem_of_app in Hin as [Hin|Hin].
    + destruct (_ && _); [rewrite Ec, lookup_insert_eq; by eexists|by apply IH].
    + apply list_elem_of_singleton in Hin as ->. rewrite bool_decide_eq_true_2, Hd by done. cbn. rewrite lookup_insert_eq. by eexists.
  - apply elem_of_app in Hin as [Hin|Hin]; [|by apply list_elem_of_singleton in Hin as ->].
    destruct (_ && _); [rewrite lookup_insert_ne by done|]; by apply IH.
Qed.

Lemma sorted_key_unique {A} (key : A → gostring) l x y : StronglySorted bytes_lt (map key l) → x ∈ l → y ∈ l → key x = key y → x = y.
Proof.
  intros Hs%sorted_lt_NoDup (i & Hi)%list_elem_of_lookup (j & Hj)%list_elem_of_lookup Ek. rewrite NoDup_alt in Hs.
  assert (i = j) as ->; [|congruence]. eapply Hs; rewrite list_lookup_fmap, ?Hi, ?Hj; cbn; by rewrite ?Ek.
Qed.

(** The version that is reported for a change. *)
Lemma reported_version plan version f l1 l2 change :
  StronglySorted bytes_lt (map Key (l1 ++ release_change version :: l2)) → StronglySorted bytes_lt (map Key (l1 ++ release_change [] :: l2)) →
  change ∈ l1 ++ release_change version :: l2 → Delete change = false →
  ∀ m, ID m = Plan_TransitionID plan → Changes m = l1 ++ release_change [] :: l2 → is_Ok (encode_document (mutation_delta m f 1)) = true →
  fold_left (λ (versions : gmap gostring gostring) change,
      if bool_decide (Key change ≠ transitionLockKey009) && negb (Delete change)
      then <[Key change := consistencyDomainLogicalVersion (Plan_TransitionID plan) f change]> versions else versions) (l1 ++ release_change [] :: l2) ∅ !! Key change =
  Some (Digest (version_document (Plan_TransitionID plan) f change)).
Proof.
  intros Hs Hs2 Hin Hd m Hid Hm Hb.
  assert (change ∈ l1 ++ release_change [] :: l2 ∧ Key change ≠ transitionLockKey009) as [Hin' Hkey].
  { split.
    - apply elem_of_app. apply elem_of_app in Hin as [?|[->|?]%elem_of_cons]; [by left|discriminate Hd|right; by right].
    - intros Ek. assert (change = release_change version) as ->; [|discriminate Hd]. eapply (sorted_key_unique Key); [exact Hs|exact Hin| |exact Ek].
      apply elem_of_app. right. by left. }
  destruct (fold_versions_some (Plan_TransitionID plan) f _ ∅ change Hin' Hkey Hd) as [v Hlook]. rewrite Hlook. f_equal.
  apply fold_versions_elem in Hlook as [Hx|(change2 & Hin2 & Hk2 & Hd2 & Hne & ->)]; [by rewrite lookup_empty in Hx|].
  assert (change2 = change) as -> by by eapply (sorted_key_unique Key). rewrite <-Hid. apply version_digest; [done|by rewrite Hm|done].
Qed.

(** C19: the versions [Transact] reports for a transition over several domains are
    computed from other documents than the versions its participants store.  The
    mutation that is committed releases the lock at the version the lock has; the
    reported fingerprint is that of the same changes with a release without a
    version.  So the two fingerprints are digests of different documents, and
    where they differ the reported and the stored version of every record that is
    written are digests of different documents too. *)
Theorem transact_reports_other_versions (plan : TransitionPlan009) (participant : TransitionParticipant009) (version f : gostring)
    (m : consistencyDomainMutation) (versions : gmap gostring gostring) (change : consistencyDomainChange) :
  version ≠ [] → participant_versions plan participant ∅ = Ok versions →
  intends (finalize_mutation plan participant true version) m f → change ∈ Changes m → Delete change = false →
  ∃ l1 l2, Changes m = l1 ++ release_change version :: l2 ∧
    let committed := intent_document (Changes m) (Result m) in
    let reported := intent_document (l1 ++ release_change [] :: l2) (Result m) in
    f = Digest committed ∧ committed ≠ reported ∧
    Change_LogicalVersion (recorded_change (ID m) f change) = Digest (version_document (ID m) f change) ∧
    versions !! Key change = Some (Digest (version_document (ID m) (Digest reported) change)) ∧
    (f ≠ Digest reported → version_document (ID m) f change ≠ version_document (ID m) (Digest reported) change).
Proof.
  intros Hv Hp (until & En & _) Hin Hd. unfold participant_versions in Hp. apply result_bind_Ok in Hp as ([c2 f2] & En2 & Hp).
  change {| Key := transitionLockKey009; Require := domainValuePresent; ExpectedVersion := []; Delete := true; Value := None |} with (release_change []) in En2.
  injection Hp as <-.
  destruct (normalize_Ok _ _ _ En) as (_ & Hs & _). destruct (normalize_Ok _ _ _ En2) as (_ & Hs2 & _).
  destruct (normalize_inv _ _ _ En) as (-> & Hb & Hf & Hf1). destruct (normalize_inv _ _ _ En2) as (-> & Hb2 & Hf2 & Hf21).
  cbn [Changes with_changes with_retention finalize_mutation ID Result] in *.
  destruct (release_around _ _ Hs Hs2) as (l1 & l2 & E1 & E2). rewrite E1 in Hs, Hb, Hf1, Hin. rewrite E2 in Hs2, Hb2, Hf21. rewrite E2.
  exists l1, l2. split; [done|]. cbn [Changes with_changes with_retention finalize_mutation ID Result]. cbn zeta. rewrite E1.
  rewrite !intent_clone in *. rewrite <-Hf21.
  split; [exact Hf1|]. split; [|split; [exact (version_digest _ _ _ Hb Hin Hd)|split]].
  - unfold intent_document. intros Htext%app_inv_head%app_inv_head. by apply intent_differs in Htext.
  - by eapply (reported_version plan version f2 l1 l2 change Hs Hs2 Hin Hd); [..|exact Hb2].
  - by apply version_document_differs.
Qed.
End Versions.

Section Engine.
Context `{SHA256} `{!SHA256Laws} `{GZIP} `{!GZIPLaws} {B : Type} `{!Engine B}.

(** C20: a transaction over several domains refuses every record of 49152 bytes or
    more and leaves the store alone, although records may have 65536 bytes: the
    size limit is applied again to the stored form. *)
Theorem transact_refuses_large_records (fuel depth : nat) (m n : State.Mutation) (fp : gostring) (references : list consistencyDomainRef)
    (c : State.Change) (b : B) :
  State.NormalizeMutation m = Ok (n, fp) → change_references (State.Mutation_Changes n) = Ok references →
  length (remove_dups references) ≠ 1%nat → c ∈ State.Mutation_Changes n → State.Change_Delete c = false →
  49152 ≤ len (State.Change_Data c) → ∃ e, Transact fuel depth m b = (Err e, b).
Proof.
  intros En Er Hr Hc Hd Hlen. unfold Transact, mbind, gom_bind, lift. rewrite En, Er, (proj2 (Nat.eqb_neq _ _)) by done.
  destruct (wrap_changes _) as [ws|e] eqn:Ew; [|by eexists]. destruct (State.NormalizeMutation (State.Build_Mutation _ _ _ _)) as [[w fp']|e] eqn:Ew'; [|by eexists].
  exfalso. destruct (wrap_changes_elem _ _ _ Ew Hc Hd) as (wc & Hwc & Hwd & Henc%encodeStateValue009_grows).
  unfold State.NormalizeMutation in Ew'. do 2 (apply result_bind_Ok in Ew' as (? & _ & Ew')). apply result_bind_Ok in Ew' as (u & Hck%check_changes_size & _).
  rewrite list.Forall_forall in Hck. specialize (Hck wc). cbn [State.Mutation_Changes] in Hck. rewrite merge_sort_Permutation in Hck.
  specialize (Hck Hwc Hwd). unfold State.MaxRecordBytes in Hck. lia.
Qed.
End Engine.

Section Laws.
Context `{SHA256} `{!SHA256Laws} `{GZIP} `{!GZIPLaws} {B : Type} `{!Engine B, !ProviderView B, !EngineLaws B}.
Variables fuel depth : nat.


(** Other processes keep every head well formed. *)
Hypothesis rivals : ∀ r (b b' : B), blob_le b b' → world_ok r b → world_ok r b'.

(** ** Transitions *)


(** C17: resolving a domain's transition only follows the protocol of transitions,
    and when it succeeds the domain was seen without a transition lock.  All this
    is for backends in which no two different pages share a digest
    ([collision_free]). A head is well formed, or the object at its key is the
    head of another domain, which the loader refuses ([world_ok]). *)
Theorem resolve_frees_domain (r : consistencyDomainRef) (b b' : B) (x : res unit) :
  all_ok b → resolveStateTransition009 fuel depth r b = (x, b') →
  all_ok b' ∧ obeys b b' ∧ ∀ u, x = Ok u → seen_idle r b b'.
Proof.
  intros Hw E. destruct (resolve_state_ok fuel rivals depth r b x b' Hw E) as [K Hi]. split; [by eapply obeys_ok|by split].
Qed.


(** ** The state store *)

(** C9: a read changes nothing but pending transitions, which it carries on; when
    it succeeds it returns the data and the version that the domain of the key
    held at one instant of the call at which no transition held the domain.  All
    this is for backends in which no two different pages share a digest
    ([collision_free]). A head is well formed, or the object at its key is the
    head of another domain, which the loader refuses ([world_ok]). *)
Theorem engine_get_correct (key : State.Key) (b b' : B) (x : res State.Value) :
  all_ok b → EngineState.Get fuel depth key b = (x, b') →
  all_ok b' ∧ obeys b b' ∧ ∀ v, x = Ok v → ∃ r b1, stateDomainReferenceForKey key = Ok r ∧ obeys b b1 ∧ blob_le b1 b' ∧
    (collision_free b' → served_at r b1 (λ m, shows_value m key v)).
Proof.
  intros Hw E. destruct (get_follows fuel depth rivals key b x b' Hw E) as [K Hx]. split; [by eapply obeys_ok|by split].
Qed.

(** C10: a read of several keys returns, for all of them, what their one domain
    held at the same instant.  All this is for backends in which no two different
    pages share a digest ([collision_free]). A head is well formed, or the object
    at its key is the head of another domain, which the loader refuses
    ([world_ok]). *)
Theorem multi_read_consistent (keys : list State.Key) (b b' : B) (x : res (list State.Value)) :
  all_ok b → GetMany fuel depth keys b = (x, b') →
  all_ok b' ∧ obeys b b' ∧ ∀ vs, x = Ok vs → ∃ r b1, Forall (λ k, stateDomainReferenceForKey k = Ok r) keys ∧ obeys b b1 ∧ blob_le b1 b' ∧
    (collision_free b' → served_at r b1 (λ m, Forall2 (shows_value m) keys vs)).
Proof.
  intros Hw E. destruct (get_many_follows fuel depth rivals keys b x b' Hw E) as [K Hx]. split; [by eapply obeys_ok|by split].
Qed.

(** The three writes of one record. *)
Inductive single_write :=
  | WriteCreate (key : State.Key) (data : gostring)
  | WriteSwap (key : State.Key) (current : State.Version) (data : gostring)
  | WriteDelete (key : State.Key) (current : State.Version).

Definition write_call (w : single_write) : GoM B error State.Version :=
  match w with
  | WriteCreate key data => EngineState.Create fuel depth key data
  | WriteSwap key current data => EngineState.CompareAndSwap fuel depth key current data
  | WriteDelete key current => _ ← EngineState.Delete_ fuel depth key current; mret []
  end.

Definition write_change (w : single_write) : State.Change :=
  match w with
  | WriteCreate key data => single_change key [] false data
  | WriteSwap key current data => single_change key current false data
  | WriteDelete key current => single_change key current true []
  end.

(** [settled_write w b x b'] is what the theorem below says of a write. *)
Definition settled_write (w : single_write) (b : B) (x : res State.Version) (b' : B) : Prop :=
  follows (single_writes (write_change w)) b b' ∧
  ∀ version, x = Ok version → ∃ r id replayed, stateDomainReferenceForKey (State.Change_Key (write_change w)) = Ok r ∧
    settles (single_writes (write_change w)) r id replayed
      (records_changed [write_change w]
         [{| State.ChangeResult_Key := State.Change_Key (write_change w); State.ChangeResult_Version := version |}]) b b'.

Lemma refused_write w b e : settled_write w b (Err e) b.
Proof. split; [by apply follows_le|done]. Qed.

Lemma delete_settled key current b x b' :
  all_ok b → (_ ← EngineState.Delete_ fuel depth key current; mret []) b = (x, b') → settled_write (WriteDelete key current) b x b'.
Proof.
  intros Hw E. apply gom_bind_inv in E as (y & b1 & E1 & E). unfold EngineState.Delete_ in E1.
  pure_step E1. destruct (validateStateKey key); [|destruct E1 as [-> ->]; destruct E as [-> ->]; apply refused_write].
  pure_step E1. destruct (guard_err _ _); [|destruct E1 as [-> ->]; destruct E as [-> ->]; apply refused_write].
  set (contended := NewError ErrorUnavailable "state delete remained transition-contended") in E1.
  destruct (('(mutation, version) ← newStateDomainMutation key current [] true; reference ← lift (stateDomainReferenceForKey key);
             _ ← with_help fuel depth 8 reference (mutate reference fuel mutation) contended; mret version) b) as [z b2] eqn:E2.
  destruct (write_one fuel depth rivals _ _ _ _ _ _ _ _ Hw E2) as [K Hx].
  assert (b1 = b2 ∧ (∀ u, y = Ok u → is_Ok z = true)) as [-> Hz].
  { revert E1 E2. unfold mbind, gom_bind. destruct (newStateDomainMutation _ _ _ _ b) as [[[c v]|e] b3]; [|by intros [= <- <-] [= <- <-]].
    unfold lift. destruct (stateDomainReferenceForKey key); [|by intros [= <- <-] [= <- <-]].
    destruct (with_help _ _ _ _ _ _ b3) as [[o|e] b4]; by intros [= <- <-] [= <- <-]. }
  destruct y as [u|e]; [|destruct E as [-> ->]; by split]. apply mret_inv in E as [-> ->]. split; [done|]. intros version [= <-].
  specialize (Hz u eq_refl). destruct z as [v|]; [|done]. destruct (Hx v eq_refl) as (r & id & replayed & Hr & Hs). by exists r, id, replayed.
Qed.

Lemma write_settles w b x b' : all_ok b → write_call w b = (x, b') → settled_write w b x b'.
Proof.
  intros Hw E. destruct w as [key data|key current data|key current].
  - cbn [write_call] in E. unfold EngineState.Create in E. pure_step E. destruct (validateStateMutation key data); [|destruct E as [-> ->]; apply refused_write].
    by apply (write_one fuel depth rivals) in E.
  - cbn [write_call] in E. unfold EngineState.CompareAndSwap in E. pure_step E. destruct (validateStateMutation key data); [|destruct E as [-> ->]; apply refused_write].
    pure_step E. destruct (guard_err _ _); [|destruct E as [-> ->]; apply refused_write]. by apply (write_one fuel depth rivals) in E.
  - by apply delete_settled.
Qed.

Lemma write_all_ok w b : all_ok b → all_ok (snd (write_call w b)).
Proof. intros Hw. destruct (write_settles w b _ _ Hw (surjective_pairing _)) as [K _]. by eapply follows_ok. Qed.



End Laws.

(** ** Listings *)

Section Listings.
Import EngineList StoreList ListTheory.
Context `{SHA256} `{!SHA256Laws} `{GZIP} `{!GZIPLaws} `{AEAD} `{!AEADLaws} {B : Type} `{!Engine B, !ProviderView B, !EngineLaws B, !SnapshotLaws B}.
Variables (fuel depth : nat) (cursorTTL : Z).
Hypothesis rivals : ∀ r (b b' : B), blob_le b b' → world_ok r b → world_ok r b'.

(** C11: a client that lists a prefix of one domain and follows the cursors sees
    the domain as it was at one moment after its first call began, registered and
    held by no transition (or absent), whatever is written between the pages: the
    records come in the order of their keys, each exactly once, decoded and with
    its version; after [calls] pages of [n] the first [calls * n] of them have
    been returned, and there is no cursor exactly when these are all.  All this is
    for backends in which no two different pages share a digest
    ([collision_free]). What the pages show is for backends in which no stored
    document shares a digest with a snapshot document that was offered to them
    ([documents_free]). *)
Theorem listing_is_snapshot (ns : State.Namespace) (parts : list gostring) (prefix : State.Prefix) (n calls : nat) (r : consistencyDomainRef)
    (b b' : B) (items : list State.Item) (cursor : gostring) :
  State.NewPrefix ns parts = Ok prefix → (1 ≤ n ≤ 1000)%nat → stateDomainReferenceForPrefix prefix = Ok (r, true) → all_ok b →
  list_pages fuel depth cursorTTL (S calls) prefix (Z.of_nat n) [] b = (Ok (items, cursor), b') →
  all_ok b' ∧ obeys b b' ∧ ∃ b1, obeys b b1 ∧ obeys b1 b' ∧
    (collision_free b' → ∃ m, listed_at r b1 m ∧
      (documents_free b' → chunk (S calls * n) (listing (State.prefix_value prefix) [] (clone_entry <$> m)) items cursor)).
Proof.
  intros Hp Hn Hr Hw E. assert (obeys b b') as K by by eapply pages_obey. split; [by eapply obeys_ok|]. split; [done|].
  by eapply domain_pages_ok.
Qed.

(** C12: a client that lists a prefix that spans domains sees the union of what
    the domains of the catalog showed, each at one moment while its first call
    ran: the records come in the order of their keys, each exactly once, decoded
    and with its version, later pages show the same records whatever is written
    meanwhile, and there is no cursor exactly when all have been returned.  The
    domains are those the catalog lists, where the tree of its head is stored. All
    this is for backends in which no two different pages share a digest
    ([collision_free]). What the pages show is for backends in which no stored
    document shares a digest with a snapshot document that was offered to them
    ([documents_free]). *)
Theorem composite_listing (ns : State.Namespace) (parts : list gostring) (prefix : State.Prefix) (n calls : nat) (r : consistencyDomainRef)
    (b b' : B) (items : list State.Item) (cursor : gostring) :
  State.NewPrefix ns parts = Ok prefix → (1 ≤ n ≤ 1000)%nat → stateDomainReferenceForPrefix prefix = Ok (r, false) → all_ok b →
  list_pages fuel depth cursorTTL (S calls) prefix (Z.of_nat n) [] b = (Ok (items, cursor), b') →
  all_ok b' ∧ obeys b b' ∧ ∃ b0 b1 entries, obeys b b0 ∧ blob_le b0 b1 ∧ obeys b1 b' ∧ catalogued b0 b1 entries ∧
    (collision_free b' → ∃ es, merged (State.prefix_value prefix) b0 b1 entries es ∧
       (documents_free b' → chunk (S calls * n) (clone_entry <$> es) items cursor)).
Proof.
  intros Hp Hn Hr Hw E. assert (obeys b b') as K by by eapply pages_obey. split; [by eapply obeys_ok|]. split; [done|].
  by eapply across_pages_ok.
Qed.
End Listings.

(** ** Routes and stored forms *)

(** C40: A prefix that is listed from one domain misses no record: every key below
    it routes to that domain. *)
Theorem prefix_route_complete `{SHA256} (ns ns' : State.Namespace) (qs ps : list gostring) (p : State.Prefix) (k : State.Key)
    (r : consistencyDomainRef) :
  State.NewPrefix ns qs = Ok p → State.NewKey ns' ps = Ok k → HasPrefix (State.key_value k) (State.prefix_value p) = true →
  stateDomainReferenceForPrefix p = Ok (r, true) → stateDomainReferenceForKey k = Ok r.
Proof. apply prefix_route. Qed.

(** C21: a record value decodes to the data it was encoded from, and only the bytes
    that encode some data for the key's record type decode; a stored key is
    parsed back to the key. *)
Theorem state_value_roundtrip (ns : State.Namespace) (ps : list gostring) (key : State.Key) (data body : gostring) :
  State.NewKey ns ps = Ok key → encodeStateValue009 key data = Ok body →
  decodeStateValue009 key body = Ok data ∧ (∀ body', decodeStateValue009 key body' = Ok data → body' = body) ∧
  parseExistingStateKey (State.key_value key) = Ok key.
Proof.
  intros Hk E. split; [by apply decodeStateValue009_encoded|]. split; [|by eapply parseExistingStateKey_NewKey].
  intros body' E'. unfold decodeStateValue009, encodeStateValue009 in E, E'. apply result_bind_Ok in E as ([ns1 ps1] & Hd & E). rewrite Hd in E'.
  cbn [mbind result_bind] in E'. apply result_bind_Ok in E as (t & Ht & E). rewrite Ht in E'. cbn [mbind result_bind] in E'.
  apply DecodeStateRecord009_sound in E'; [congruence|]. intros ->. unfold EncodeStateRecord009, validateStateRecord009 in E.
  apply result_bind_Ok in E as (u & Hv & _). by apply result_bind_Ok in Hv as (u' & Hg%guard_err_Ok & _).
Qed.
End EngineProps.
