(* ===== verification/StoreProps.v ===== *)
(** * The consistency-domain store keeps its promises

    The theorems hold for every provider that meets [ProviderLaws], with other
    processes acting between any two calls. *)

From Stdlib Require Import ZArith Lia.
From S2P Require Import Prelude GoLib GoHash GoJSON GoTime Errors ObjectStore ObjectTheory DomainPage DomainPageTheory DomainTree TreeTheory TreeRead TreeEdit DomainPack DomainHead DomainSession TreeStream DomainProvider DomainCatalog DomainStore HeadTheory SessionLaws PackTheory SessionReader StoreLaws StoreRead StoreSpec StoreCommit StoreCatalog StoreFold StoreCompact StoreMutate StoreList.

Open Scope Z_scope.

Module StoreProps.
Import ObjectStore StorageFormat PageTheory DomainTree TreeTheory TreeRead TreeEdit DomainPack DomainHead HeadTheory DomainSession DomainProvider DomainCatalog DomainStore SessionLaws PackTheory SessionReader StoreLaws StoreRead StoreSpec StoreCommit StoreCatalog StoreFold StoreCompact StoreMutate StoreList.

Section Store.
Context `{SHA256} `{!SHA256Laws} `{GZIP} `{!GZIPLaws} {B : Type} `{!Provider B, !ProviderView B, !ProviderLaws B}.
Variable reference : consistencyDomainRef.

Abbreviation world_ok := (world_ok (B := B) reference).
Abbreviation snapshot_ok := (snapshot_ok (B := B) reference).

(** Other processes keep the head well formed. *)
Hypothesis rivals : ∀ b b' : B, blob_le b b' → world_ok b → world_ok b'.

(** C1: a mutation, whatever others do meanwhile, changes the head only by steps
    of the abstract domain: housekeeping, and commits of this mutation in its
    normal form. When it reports an outcome, either a head of the domain records
    that outcome under the same ID and fingerprint, or the last thing it did was
    one commit: atomically, from a domain that was not frozen or locked by another
    transition, met every precondition and had no live outcome for the ID, to one
    with exactly the mutation's changes and the reported revision. The head stays
    well formed in every case, lost responses included.  All this is for backends
    in which no two different pages share a digest ([collision_free]). A head is
    well formed, or the object at its key is the head of another domain, which the
    loader refuses ([world_ok]). *)
Theorem mutate_refines (fuel : nat) (m : consistencyDomainMutation) (initial : option consistencyDomainHeadSnapshot)
    (b b' : B) (x : res consistencyDomainOutcome) :
  world_ok b → (∀ sn, initial = Some sn → snapshot_ok b sn) → mutateAtHead reference fuel m initial b = (x, b') →
  world_ok b' ∧ keeps reference (executes m) b b' ∧
  ∀ o, x = Ok o → ∃ m' f, intends m m' f ∧ concludes reference m' f b b' o.
Proof.
  intros Hw Hini E. destruct (mutate_ok reference rivals fuel m initial b x b' Hw Hini E) as [K Hc].
  split; [by eapply keeps_world|done].
Qed.


Lemma unfreeze_ok fuel e (b : B) x b' :
  world_ok b → unfreeze reference fuel e b = (x, b') → keeps reference unfreezes b b' ∧ ∀ u, x = Ok u → seen_at reference 0 b'.
Proof.
  intros Hw E. unfold unfreeze in E. pure_step E. destruct (e =? 0); cbn [guard_err] in E.
  - destruct E as [-> ->]. split; [apply keeps_refl|done].
  - by apply (unfreeze_loop_ok reference rivals fuel e).
Qed.

(** Unfreezing only unfreezes, and when it succeeds the domain was seen registered
    and not frozen.  All this is for backends in which no two different pages
    share a digest ([collision_free]). *)
Theorem unfreeze_refines (fuel : nat) (e : Z) (b b' : B) (x : res unit) :
  world_ok b → unfreeze reference fuel e b = (x, b') →
  world_ok b' ∧ keeps reference unfreezes b b' ∧ ∀ u, x = Ok u → seen_at reference 0 b'.
Proof.
  intros Hw E. destruct (unfreeze_ok fuel e b x b' Hw E) as [K Hs]. split; [by eapply keeps_world|done].
Qed.

(** C7: a compaction leaves the head alone or replaces the head it folded by one
    that shows the same values at the same revision and invents no outcome.  All
    this is for backends in which no two different pages share a digest
    ([collision_free]). A head is well formed, or the object at its key is the
    head of another domain, which the loader refuses ([world_ok]). *)
Theorem compact_refines (snapshot : consistencyDomainHeadSnapshot) (b b' : B) (x : res unit) :
  world_ok b → snapshot_ok b snapshot → compactSnapshot reference snapshot b = (x, b') →
  world_ok b' ∧ ∃ tr, evolves reference b tr b' ∧ (tr = [] ∨ tr = [Compacted]).
Proof.
  intros Hw Hsn E. destruct (compactSnapshot_evolves reference snapshot b x b' Hsn E) as (tr & Hev & Htr).
  split; [by eapply world_evolves|by exists tr].
Qed.


(** ** A history of calls *)

Inductive call :=
  | CallMutate (fuel : nat) (m : consistencyDomainMutation)
  | CallCompact
  | CallFreeze (fuel : nat) (e : Z)
  | CallUnfreeze (fuel : nat) (e : Z).

Definition perform (c : call) (b : B) : B :=
  match c with
  | CallMutate fuel m => snd (mutate reference fuel m b)
  | CallCompact => snd (compact reference b)
  | CallFreeze fuel e => snd (DomainStore.freeze reference fuel e b)
  | CallUnfreeze fuel e => snd (unfreeze reference fuel e b)
  end.

(** Epochs are unsigned 64-bit integers. *)
Definition call_typed (c : call) : Prop := match c with CallFreeze _ e => u64_ok e | _ => True end.

Lemma perform_keeps c b : world_ok b → call_typed c → keeps reference (λ _, True) b (perform c b).
Proof.
  intros Hw Hc. destruct c as [fuel m| |fuel e|fuel e]; cbn [perform call_typed] in *.
  - destruct (mutate_ok reference rivals fuel m None b _ _ Hw ltac:(done) (surjective_pairing _)) as [K _]. by eapply keeps_mono.
  - eapply keeps_mono; [|by apply (compact_keeps reference rivals b _ _ Hw (surjective_pairing _))]. done.
  - destruct (freeze_ok reference rivals fuel e b _ _ Hc Hw (surjective_pairing _)) as [K _]. by eapply keeps_mono.
  - eapply keeps_mono; [|by apply (unfreeze_ok fuel e b _ _ Hw (surjective_pairing _))]. done.
Qed.

(** C35: whatever calls are made on a domain, in whatever order and with whatever
    results, its head stays well formed: bound to the domain, its numbers in
    range, its window of deltas valid and sorted, frozen exactly when it has an
    epoch, and each of its three trees completely stored; and every change of it
    was a step of the abstract domain.  All this is for backends in which no two
    different pages share a digest ([collision_free]). A head is well formed, or
    the object at its key is the head of another domain, which the loader refuses
    ([world_ok]). *)
Theorem calls_keep_head_well_formed (calls : list call) (b : B) :
  world_ok b → Forall call_typed calls →
  world_ok (foldl (flip perform) b calls) ∧ ∃ tr, evolves reference b tr (foldl (flip perform) b calls).
Proof.
  intros Hw Hc. assert (keeps reference (λ _, True) b (foldl (flip perform) b calls)) as K.
  - revert b Hw. induction Hc as [|c calls Hc _ IH]; intros b Hw; cbn [foldl flip]; [apply keeps_refl|].
    pose proof (perform_keeps c b Hw Hc) as K. eapply keeps_trans; [exact K|]. apply IH. by eapply (keeps_world reference rivals).
  - split; [by eapply (keeps_world reference rivals)|]. by destruct K as (tr & Hev & _); exists tr.
Qed.

(** A successful read returns the value the abstract domain held at one instant
    during the call, of a registered domain without a transition lock.  All this
    is for backends in which no two different pages share a digest
    ([collision_free]). *)
Theorem get_correct (key : gostring) (b b' : B) (v : consistencyDomainValue) :
  world_ok b → get_ reference key b = (Ok v, b') →
  ∃ b1, blob_le b b1 ∧ blob_le b1 b' ∧
    (collision_free b' → ∃ a e, at_head reference b1 (Some a) ∧ registered a = true ∧
       values a !! transitionLockKey009 = None ∧ values a !! key = Some e ∧ plain v = value_of e).
Proof. by apply get_ok. Qed.

(** C25: a listing at a head answers the first [n] entries, in key order, of what
    the head shows under the prefix and after the given key, although it reads the
    base tree only as far as the window can hide entries of it; it fails only when
    the provider does.  All this is for backends in which no two different pages
    share a digest ([collision_free]). *)
Theorem list_correct (h : DomainHead) (es : list DomainEntry) (prefix after : gostring) (n : nat) (b b' : B) (x : res (list DomainEntry)) :
  tree_holds reference (session_pageKey reference) (session_packKey reference) b (Head_Base h) es →
  (0 < n)%nat → Z.of_nat n + len (window_changes h) ≤ MaxInt64 →
  listAtHead reference h prefix after (Z.of_nat n) b = (x, b') →
  blob_le b b' ∧ (collision_free b' →
    x = Ok (take n (listing prefix after (clone_entry <$> contents h es))) ∨ ∃ e, x = Err e ∧ blob_outage e).
Proof. apply listAtHead_ok. Qed.

(** Once a session has flushed its pack, every tree it has built or read is
    in the store: any session opened on the backend later holds the same tree. *)
Theorem flush_durable (s s' : Session B) (root : DomainTreeRoot) (es : list DomainEntry) (u : unit) :
  session_inv reference (session_pageKey reference) (session_packKey reference) s →
  holds (PageView0 := session_view reference (session_pageKey reference) (session_packKey reference)) s root es →
  flushPack None reference (session_packKey reference) s = (Ok u, s') →
  tree_holds reference (session_pageKey reference) (session_packKey reference) (backend s') root es.
Proof.
  intros Hi Hh E. destruct (flush_spec reference _ _ (pack_key_blob reference) _ _ _ Hi E) as (Hstep & _ & _ & Hfl).
  apply holds_stored; [by eapply Hfl|]. eapply holds_extends; [|exact Hh]. by apply session_step_grows in Hstep as [_ ?].
Qed.
End Store.

(** ** Normal forms *)

Section Normal.
Context `{SHA256}.

(** A mutation is normalized to its changes in strictly increasing key order,
    each valid, and neither the normal form nor the fingerprint depends on the
    order in which the caller listed them. *)
Theorem normalize_order_irrelevant (m m' m2 : consistencyDomainMutation) (f : gostring) :
  normalizeConsistencyDomainMutation m = Ok (m', f) →
  m2 = {| ID := ID m; TransitionID := TransitionID m; RetainUntil := RetainUntil m; Changes := Changes m2; Result := Result m;
          ExpectedRevision := ExpectedRevision m |} →
  Changes m2 ≡ₚ Changes m →
  normalizeConsistencyDomainMutation m2 = Ok (m', f) ∧ Changes m' ≡ₚ Changes m ∧ StronglySorted bytes_lt (map Key (Changes m')).
Proof.
  intros E E2 Hp. destruct (normalize_Ok _ _ _ E) as (-> & Hs & _). cbn [Changes with_changes] in *.
  assert (merge_sort domain_change_le (Changes m2) = merge_sort domain_change_le (Changes m)) as Hm.
  { symmetry. apply (sorted_by_ext Key); [done| |].
    - apply sorted_le_lt; [apply sorted_changes_le|]. apply sorted_lt_NoDup in Hs. change (NoDup (Key <$> merge_sort domain_change_le (Changes m2))).
      change (NoDup (Key <$> merge_sort domain_change_le (Changes m))) in Hs. by rewrite merge_sort_Permutation, Hp, <-(merge_sort_Permutation domain_change_le (Changes m)).
    - intros c. by rewrite !merge_sort_Permutation, Hp. }
  split; [|split; [apply merge_sort_Permutation|done]]. rewrite <-E. unfold normalizeConsistencyDomainMutation. rewrite E2. cbn [ID Changes Result].
  rewrite Hm. assert (bool_decide (Changes m2 = []) = bool_decide (Changes m = [])) as ->; [|done].
  apply bool_decide_ext. split; intros Hn; rewrite Hn in Hp; [by apply Permutation_nil in Hp|by apply Permutation_nil_r in Hp].
Qed.

Lemma format_compact_length t : length (format_compact t) = expiry_layout_length.
Proof. unfold format_compact. cbn zeta. rewrite !length_app, !digits_length. done. Qed.

(** The expiry index is ordered by deadline, and the deadline is read back
    from its key. *)
Theorem expiry_key_order (t t' : Z) (id id' : gostring) :
  year_ok t = true → year_ok t' = true →
  parseConsistencyDomainExpiryTime (consistencyDomainOutcomeExpiryKey t id) = t ∧
  (t < t' → bytes_lt (consistencyDomainOutcomeExpiryKey t id) (consistencyDomainOutcomeExpiryKey t' id')) ∧
  (consistencyDomainOutcomeExpiryKey t id = consistencyDomainOutcomeExpiryKey t' id' → t = t' ∧ id = id').
Proof.
  intros Hy Hy'. assert (∀ u x, year_ok u = true → parseConsistencyDomainExpiryTime (consistencyDomainOutcomeExpiryKey u x) = u) as Hparse.
  { intros u x Hu. unfold parseConsistencyDomainExpiryTime, consistencyDomainOutcomeExpiryKey.
    rewrite drop_app_length', take_app_length' by (by rewrite format_compact_length). change (bs "." ++ b64_encode x) with ("."%char :: b64_encode x).
    rewrite parse_format_compact by done. cbn beta iota. by rewrite bool_decide_eq_true_2. }
  split; [by apply Hparse|]. split; [by apply format_compact_lt|]. intros E.
  assert (t = t') as <- by (apply (f_equal parseConsistencyDomainExpiryTime) in E; by rewrite !Hparse in E).
  split; [done|]. unfold consistencyDomainOutcomeExpiryKey in E. apply app_inv_head in E. injection E as E.
  apply (f_equal b64_decode) in E. rewrite !b64_decode_encode in E. by injection E.
Qed.
End Normal.

(** ** Outcomes across compactions *)

Section Outcomes.
Context `{SHA256}.

(** Pruning trusts the expiry index alone.  An expired index entry that is
    left over from an earlier use of a mutation ID removes the stored outcome of
    that ID, however long the stored outcome itself is to be retained. *)
Theorem prune_drops_renewed_outcome (now : Z) (entry : DomainEntry) (id : gostring) (o e : change_index) (os : list DomainEntry) :
  expired_entry now id entry → prune_loop now [entry] ∅ ∅ = Ok (o, e) →
  change_map (normalizeDomainChangeMap o) (entries_map os) !! id = None.
Proof.
  intros [<- Hexp] E. cbn [prune_loop] in E. apply result_bind_Ok in E as ([] & _ & E). rewrite (proj2 (Z.ltb_ge _ _) Hexp) in E.
  apply result_bind_Ok in E as ([] & _ & E). rewrite lookup_empty in E. injection E as <- _. set (id := default [] (Entry_Value entry)).
  set (c := {| Change_Key := id; Change_Delete := true; Change_Value := None; Change_LogicalVersion := [] |}).
  rewrite (change_map_index (<[Change_Key c := c]> ∅)); [by rewrite lookup_insert_eq|apply index_keyed_insert, index_keyed_empty].
Qed.
End Outcomes.

(** ** Documents *)

Section Documents.
Context `{SHA256} `{!SHA256Laws} {B : Type} `{!Provider B}.

(** A head that the store encodes for a snapshot decodes to the same head. *)
Theorem encodeHead_roundtrip (reference : consistencyDomainRef) (key : ObjectStore.Key) (snapshot : consistencyDomainHeadSnapshot)
    (h : DomainHead) (body : gostring) :
  head_key reference = Ok key → misbound reference h = false → head_typed h → encodeHead key snapshot h = Ok body →
  ∃ env, DecodeEnvelope body key domainHeadSchema = Ok (env, h).
Proof. intros Hk Hb Ht E. by destruct (encodeHead_decodes reference key snapshot h body Hk Hb Ht E). Qed.
End Documents.
End StoreProps.
