(* ===== verification/StoreWorld.v ===== *)
(** * A provider for one process

    An append-only log of accepted writes and a clock.  A conditional write
    compares the position at which the object was last written.  It meets
    [ProviderLaws], and nobody else acts in it.  Whether the digests of what it
    stores collide is decided by evaluation ([free_check], [documents_check]). *)

From Stdlib Require Import ZArith Lia.
From S2P Require Import Prelude GoLib GoHash GoJSON GoTime Errors ObjectStore DomainPage DomainPageTheory DomainTree TreeTheory TreeRead DomainPack DomainHead DomainSession TreeStream DomainProvider DomainCatalog DomainStore HeadTheory SessionLaws PackTheory SessionReader StoreLaws StoreSpec StoreCatalog.

Open Scope Z_scope.

Module StoreWorld.
Import ObjectStore StorageFormat DomainPack DomainHead DomainSession DomainProvider DomainCatalog DomainStore SessionLaws SessionReader StoreLaws StoreSpec StoreCatalog.

(** The newest write first; a write without a body deletes.  [offers] are all
    bodies that were handed to a write. *)
Record World := { log : list (gostring * option gostring); now : Z; offers : list gostring }.

(** The version of a write is its position, in unary. *)
Definition version_at (n : nat) : NativeVersion := replicate n "v"%char.

Fixpoint object_at (l : list (gostring * option gostring)) (k : gostring) : option (gostring * gostring) :=
  match l with
  | [] => None
  | (k', body) :: l => if bool_decide (k' = k) then (λ b, (b, version_at (length l))) <$> body else object_at l k
  end.

#[export] Instance put_condition_eq : EqDecision PutCondition.
Proof. solve_decision. Defined.

#[export] Instance world_provider : Provider World := {
  obj_get k w :=
    match object_at (log w) (key_value k) with
    | Some (body, v) => (Ok {| Object_Key := k; Object_Body := body; Object_Version := v; Object_Size := len body |}, w)
    | None => (Err (NewError ErrorNotFound "object not found"), w)
    end;
  obj_put k body c w :=
    if match object_at (log w) (key_value k) with
       | Some (_, v) => bool_decide (c = put_match v)
       | None => bool_decide (c = create_only)
       end
    then (Ok (version_at (length (log w))), {| log := (key_value k, Some body) :: log w; now := now w; offers := body :: offers w |})
    else (Err (NewError ErrorConflict "object changed"), {| log := log w; now := now w; offers := body :: offers w |});
  clock_now w := (now w, {| log := log w; now := now w + 1; offers := offers w |});
  sched_step _ w := (Ok tt, w);
}.

(** ** Which objects are replaced *)

Definition head_suffix : gostring := "/head.json".
Definition transition_prefix : gostring := root ++ "transitions/".
Definition is_head (k : gostring) : Prop := head_suffix `suffix_of` k ∨ transition_prefix `prefix_of` k.
#[export] Instance is_head_dec k : Decision (is_head k).
Proof. unfold is_head. apply _. Defined.

Fixpoint bodies_of (l : list (gostring * option gostring)) : gmap gostring gostring :=
  match l with
  | [] => ∅
  | (k, body) :: l => if decide (is_head k) then bodies_of l else partial_alter (λ _, body) k (bodies_of l)
  end.
Fixpoint heads_of (l : list (gostring * option gostring)) : gmap gostring (gostring * gostring) :=
  match l with
  | [] => ∅
  | (k, body) :: l =>
      if decide (is_head k) then partial_alter (λ _, (λ b, (b, version_at (length l))) <$> body) k (heads_of l) else heads_of l
  end.
Fixpoint history_of (l : list (gostring * option gostring)) : gmap (gostring * gostring) gostring :=
  match l with
  | [] => ∅
  | (k, Some body) :: l => if decide (is_head k) then <[(k, version_at (length l)) := body]> (history_of l) else history_of l
  | (_, None) :: l => history_of l
  end.

Definition world_le (w w' : World) : Prop :=
  bodies_of (log w) ⊆ bodies_of (log w') ∧ heads_of (log w') = heads_of (log w) ∧ history_of (log w') = history_of (log w) ∧ now w ≤ now w' ∧
  (∀ text, text ∈ offers w → text ∈ offers w').
#[export] Instance world_le_preorder : PreOrder world_le.
Proof.
  split; [by intros w; repeat split|]. intros x y z (? & ? & ? & ? & ?) (? & ? & ? & ? & ?).
  split; [by etrans|]. split; [congruence|]. split; [congruence|]. split; [lia|auto].
Qed.

#[export] Instance world_view : ProviderView World := {|
  provider_blob_view := {| blob_key k := ¬ is_head (key_value k); blob_contents w := bodies_of (log w); blob_outage _ := False; blob_le := world_le |};
  mutable_key k := is_head (key_value k);
  heads w := heads_of (log w);
  history w := history_of (log w);
  latest := now;
  offered w := list_to_set (offers w);
|}.

(** ** Keys *)

Lemma base32_chars_slash fuel bits : Forall (λ c, c ≠ "/"%char) (base32_chars fuel bits).
Proof.
  revert bits. induction fuel as [|fuel IH]; intros [|x bits]; cbn [base32_chars]; try by constructor. constructor; [|apply IH].
  assert (Forall (λ c, c ≠ "/"%char) base32_alphabet) as Ha by (apply (bool_decide_unpack _); vm_compute; exact I).
  destruct (base32_alphabet !! _) as [c|] eqn:E; [|done]. cbn. rewrite list.Forall_forall in Ha. apply Ha. by eapply list_elem_of_lookup_2.
Qed.

Lemma base32_chars_length n fuel bits : (n ≤ fuel)%nat → (5 * n ≤ length bits)%nat → (n ≤ length (base32_chars fuel bits))%nat.
Proof.
  revert fuel bits. induction n as [|n IH]; intros fuel bits Hf Hb; [lia|]. destruct fuel as [|fuel]; [lia|]. destruct bits as [|x bits]; [cbn in Hb; lia|].
  cbn [base32_chars length]. apply le_n_S, IH; [lia|]. rewrite length_drop. cbn in *. lia.
Qed.

Lemma digestPart_long `{SHA256, !SHA256Laws} d : (5 ≤ length (digestPart d))%nat.
Proof.
  unfold digestPart, base32Lower. assert (∀ s : gostring, length (concat (map byte_bits s)) = 8 * length s)%nat as Hlen.
  { intros s. induction s as [|c s IH]; [done|]. cbn [map concat]. rewrite length_app, IH. unfold byte_bits. rewrite length_map, length_reverse, length_seq. cbn. lia. }
  rewrite Hlen, sha256_length. apply base32_chars_length; [lia|]. rewrite Hlen, sha256_length. lia.
Qed.

(** The objects of a domain are not those of transitions. *)
Lemma domains_not_transition v : ¬ transition_prefix `prefix_of` (root ++ "domains/" ++ v).
Proof. intros [x E]. unfold transition_prefix in E. rewrite <-(assoc_L (++)) in E. apply app_inv_head in E. discriminate E. Qed.

Lemma digest_not_head `{SHA256, !SHA256Laws} p d : ¬ head_suffix `suffix_of` (p ++ digestPart d ++ ".json").
Proof.
  intros [x E]. pose proof (digestPart_long d) as Hl. set (D := digestPart d) in *.
  assert (Forall (λ c, c ≠ "/"%char) D) as Hs by apply base32_chars_slash. rewrite <-(take_drop (length D - 5) D) in E, Hs.
  rewrite <-(assoc_L (++)), (assoc_L (++) p) in E. apply app_inj_2 in E as [_ E].
  - apply Forall_app in Hs as [_ Hs]. destruct (drop (length D - 5) D) as [|c D'] eqn:Ed; [discriminate E|].
    apply list.Forall_cons in Hs as [Hc _]. apply Hc. change (head_suffix) with ("/"%char :: bs "head.json") in E. by injection E.
  - rewrite length_app, length_drop. cbn. lia.
Qed.

Lemma fixedKey_value `{SHA256} v k : fixedKey v = Ok k → key_value k = root ++ v.
Proof. apply MustKey_value. Qed.

Lemma bin_not_head p : ¬ head_suffix `suffix_of` (p ++ ".bin").
Proof.
  intros [x E]. change head_suffix with (bs "/head." ++ bs "json") in E. rewrite (assoc_L (++)) in E. by apply app_inj_2 in E as [_ E].
Qed.

Lemma page_not_head `{SHA256, !SHA256Laws} reference d k : session_pageKey reference d = Ok k → ¬ is_head (key_value k).
Proof.
  unfold session_pageKey, DomainPageKey. intros E. inv_go. apply fixedKey_value in E. rewrite E. intros [Hh|Hh].
  - rewrite !(assoc_L (++)), <-(assoc_L (++)) in Hh. by apply digest_not_head in Hh.
  - by apply domains_not_transition in Hh.
Qed.

Lemma pack_not_head `{SHA256} reference d k : session_packKey reference d = Ok k → ¬ is_head (key_value k).
Proof.
  unfold session_packKey, DomainPagePackKey. intros E. inv_go. apply fixedKey_value in E. rewrite E. intros [Hh|Hh].
  - rewrite !(assoc_L (++)) in Hh. by apply bin_not_head in Hh.
  - by apply domains_not_transition in Hh.
Qed.

Lemma catalog_not_head `{SHA256, !SHA256Laws} d k : DomainCatalogPageKey d = Ok k → ¬ is_head (key_value k).
Proof.
  unfold DomainCatalogPageKey. intros E. inv_go. apply fixedKey_value in E. rewrite E. intros [Hh|Hh].
  - rewrite (assoc_L (++)) in Hh. by apply digest_not_head in Hh.
  - apply (domains_not_transition ("catalog/pages/" ++ digestPart d ++ ".json")) in Hh. done.
Qed.

Lemma head_is_head `{SHA256} reference k : head_key reference = Ok k → is_head (key_value k).
Proof.
  unfold head_key, DomainHeadKey. intros E. inv_go. apply fixedKey_value in E. rewrite E. left. rewrite !(assoc_L (++)). by eexists.
Qed.

Lemma catalog_is_head `{SHA256} k : DomainCatalogHeadKey = Ok k → is_head (key_value k).
Proof. intros E%fixedKey_value. rewrite E. left. by exists (root ++ "domains/catalog"). Qed.

(** ** The laws *)

Lemma object_body l k : ¬ is_head k → fst <$> object_at l k = bodies_of l !! k.
Proof.
  intros Hk. induction l as [|[k' body] l IH]; [done|]. cbn. case_bool_decide as E; destruct (decide (is_head k')).
  - by subst.
  - rewrite E, lookup_partial_alter_eq. by destruct body.
  - done.
  - by rewrite lookup_partial_alter_ne.
Qed.

Lemma object_head l k : is_head k → object_at l k = heads_of l !! k.
Proof.
  intros Hk. induction l as [|[k' body] l IH]; [done|]. cbn. case_bool_decide as E; destruct (decide (is_head k')).
  - by rewrite E, lookup_partial_alter_eq.
  - by subst.
  - by rewrite lookup_partial_alter_ne.
  - done.
Qed.

Lemma version_inj n n' : version_at n = version_at n' → n = n'.
Proof. intros E. apply (f_equal length) in E. unfold version_at in E. by rewrite !length_replicate in E. Qed.

(** Versions are positions below the end of the log. *)
Lemma history_position l k v body : history_of l !! (k, v) = Some body → ∃ n, (n < length l)%nat ∧ v = version_at n.
Proof.
  induction l as [|[k' body'] l IH]; [done|].
  assert (history_of l !! (k, v) = Some body → ∃ n, (n < length ((k', body') :: l))%nat ∧ v = version_at n) as Hl.
  { intros E. destruct (IH E) as (n & ? & ->). exists n. split; [cbn; lia|done]. }
  cbn [history_of]. destruct body' as [body'|]; [|done]. destruct (decide (is_head k')) as [Hh|Hh]; [|done].
  rewrite lookup_insert_Some. intros [[[= <- <-] _]|[_ E]]; [exists (length l); split; [cbn; lia|done]|auto].
Qed.

Lemma heads_in_history l k body v : heads_of l !! k = Some (body, v) → history_of l !! (k, v) = Some body.
Proof.
  induction l as [|[k' body'] l IH]; [done|]. cbn. destruct (decide (is_head k')) as [Hk'|]; [|by destruct body'].
  rewrite lookup_partial_alter. case_decide as E.
  - subst k'. destruct body' as [body'|]; [|done]. cbn. intros [= -> ->]. by rewrite lookup_insert_eq.
  - intros Eh. destruct body' as [body'|]; [|by apply IH]. rewrite lookup_insert_ne by congruence. by apply IH.
Qed.

Lemma put_le k body w :
  ¬ is_head k → object_at (log w) k = None → world_le w {| log := (k, Some body) :: log w; now := now w; offers := body :: offers w |}.
Proof.
  intros Hk Hn. unfold world_le. cbn. rewrite !decide_False by done. split; [|do 3 (split; [done|]); intros text; by right].
  change (bodies_of (log w) ⊆ <[k := body]> (bodies_of (log w))). apply insert_subseteq. by rewrite <-(object_body _ _ Hk), Hn.
Qed.

Lemma refused_le body w : world_le w {| log := log w; now := now w; offers := body :: offers w |}.
Proof. unfold world_le. cbn. do 4 (split; [done|]). intros text. by right. Qed.

#[export] Instance world_blob_laws : BlobLaws World.
Proof.
  split.
  - by intros b b' (? & _).
  - intros b k body x b' Hk Hc. cbn in Hk, Hc. rewrite <-(object_body _ _ Hk) in Hc. cbn. unfold mbind, gom_bind, obj_get. cbn.
    destruct (object_at (log b) (key_value k)) as [[body' v]|]; [|done]. cbn in Hc. injection Hc as ->. intros [= <- _]. by left.
  - intros b k x b' Hk. cbn in Hk. cbn. unfold mbind, gom_bind, obj_get. cbn. pose proof (object_body (log b) (key_value k) Hk) as Hb.
    destruct (object_at (log b) (key_value k)) as [[body' v]|]; intros [= <- <-]; (split; [reflexivity|]); [|done]. by intros ? [= <-].
  - intros b k body x b' Hk. cbn in Hk. cbn. unfold mbind, gom_bind, obj_put. cbn.
    destruct (object_at (log b) (key_value k)) as [[body' v]|] eqn:Eo; cbn.
    + rewrite (bool_decide_eq_false_2 (create_only = put_match v)) by done. intros [= <- <-]. split; [apply refused_le|done].
    + intros [= <- <-]. split; [by apply put_le|]. intros _ _. cbn. rewrite decide_False by done. by rewrite lookup_partial_alter_eq.
Qed.

#[export] Instance world_laws `{SHA256, !SHA256Laws} : ProviderLaws World.
Proof.
  split.
  - apply _.
  - apply page_not_head.
  - apply pack_not_head.
  - apply catalog_not_head.
  - apply head_is_head.
  - apply catalog_is_head.
  - intros b b' (_ & _ & E & _). cbn. by rewrite E.
  - by intros b b' (_ & _ & _ & ? & _).
  - intros b b' (_ & _ & _ & _ & Ho) text. cbn. rewrite !elem_of_list_to_set. apply Ho.
  - intros b. apply heads_in_history.
  - intros b k x b' Hk. cbn in *. rewrite (object_head _ _ Hk). destruct (heads_of (log b) !! key_value k) as [[body v]|] eqn:Eh; intros [= <- <-]; (split; [reflexivity|]); done.
  - intros b k body c x b' Hk. cbn in *. rewrite (object_head _ _ Hk). intros E.
    destruct (match heads_of (log b) !! key_value k with Some _ => _ | None => _ end) eqn:Ec; injection E as <- <-;
      [|by eexists; split; [apply refused_le|left]]. exists b. split; [reflexivity|right].
    exists (version_at (length (log b))). split; [|split; [by intros ? [= <-]|]].
    + unfold allows. destruct (heads_of (log b) !! key_value k) as [[body' v]|]; apply bool_decide_eq_true in Ec; [right; by exists v, body'|by left].
    + cbn. rewrite !decide_True by done. split; [done|]. split; [done|]. split; [|split; [lia|set_solver]]. apply insert_subseteq.
      apply eq_None_not_Some. intros [body' (n & Hn & E)%history_position]. apply version_inj in E. lia.
  - intros b k body x b' _. cbn. destruct (match object_at _ _ with Some _ => _ | None => _ end); intros [= _ <-]; set_solver.
  - intros b t b' E. injection E as <- <-. split; [|cbn; lia]. unfold blob_le. cbn. unfold world_le. cbn. split; [done|]. split; [done|]. split; [done|]. split; [lia|done].
  - intros step b x b' E. injection E as <- <-. reflexivity.
Qed.

(** Nobody else acts, so a well-formed world stays one. *)
Lemma world_rivals `{SHA256, !SHA256Laws, GZIP, !GZIPLaws} reference (b b' : World) : blob_le b b' → world_ok reference b → world_ok reference b'.
Proof. intros Hle. apply world_same; [by apply after_le|]. intros key _. cbn. destruct Hle as (_ & Eh & _). by rewrite Eh. Qed.

(** A world that nobody wrote to. *)
Lemma empty_world_ok `{SHA256, !SHA256Laws, GZIP, !GZIPLaws} reference t : world_ok reference {| log := []; now := t; offers := [] |}.
Proof. intros _ Hv. destruct (head_key reference) as [key|] eqn:Ek; [|discriminate Hv]. right. exists None, key. split; [done|apply lookup_empty]. Qed.

(** ** Digests

    What a body may contain of pages, read without looking at the digests. *)

Section Checks.
Context `{SHA256} `{GZIP}.

Definition packed_in (body : gostring) : list DomainPage :=
  if HasPrefix body domainPagePackMagic then
    match gzip_expand (drop (length domainPagePackMagic) body) (MaxExpandedDomainPagePackBytes + 1) with
    | Ok expanded => match read_pack expanded with Some (pack, _) => map Packed_Page (Pack_Pages pack) | None => [] end
    | Err _ => []
    end
  else [].
Definition pages_in (body : gostring) : list DomainPage :=
  (match decodeCanonicalPage body with Ok p => [p] | Err _ => [] end) ++ packed_in body.
Definition bodies (w : World) : list gostring := omap snd (log w).

(** The elements of [l] agree wherever their digests do. *)
Definition agree {A} `{EqDecision A} (l l' : list (gostring * A)) : bool :=
  forallb (λ x, forallb (λ y, negb (bool_decide (fst x = fst y)) || bool_decide (snd x = snd y)) l') l.
Definition digests {A} (text : A → gostring) (l : list A) : list (gostring * A) := map (λ a, (Digest (text a), a)) l.

Definition free_check (w : World) : bool :=
  let pages := digests json_page (concat (map pages_in (bodies w))) in agree pages pages.
Definition documents_check (w : World) : bool := agree (digests id (bodies w)) (digests id (offers w)).

Lemma agree_sound {A} `{EqDecision A} (text : A → gostring) (l l' : list A) a a' :
  agree (digests text l) (digests text l') = true → a ∈ l → a' ∈ l' → Digest (text a) = Digest (text a') → a = a'.
Proof.
  assert (∀ l : list A, ∀ a, a ∈ l → In (Digest (text a), a) (digests text l)) as Hin.
  { intros l0 a0 Ha0. apply list_elem_of_In. exact (list_elem_of_fmap_2 (λ a, (Digest (text a), a)) _ _ Ha0). }
  unfold agree. rewrite forallb_forall. intros Hall Ha%Hin Ha'%Hin E. specialize (Hall _ Ha). rewrite forallb_forall in Hall. specialize (Hall _ Ha').
  cbn in Hall. rewrite bool_decide_eq_true_2 in Hall by done. by apply bool_decide_eq_true in Hall.
Qed.

Lemma bodies_logged l k body : bodies_of l !! k = Some body → body ∈ omap snd l.
Proof.
  induction l as [|[k' o] l IH]; [done|]. cbn [bodies_of]. assert (body ∈ omap snd l → body ∈ omap snd ((k', o) :: l)) as Hl.
  { cbn. destruct o; [|done]. by right. }
  destruct (decide (is_head k')); [auto|]. rewrite lookup_partial_alter. case_decide; [intros ->; by left|auto].
Qed.

Lemma packed_listed body domain kind id pack q :
  DecodeDomainPagePack None body domain kind id = Ok pack → q ∈ Pack_Pages pack → Packed_Page q ∈ packed_in body.
Proof.
  unfold DecodeDomainPagePack, packed_in. intros E Hq. apply result_bind_Ok in E as (u & _ & E). apply result_bind_Ok in E as (u' & Hg%guard_err_Ok & E).
  apply orb_false_iff in Hg as [_ Hp%negb_false_iff]. rewrite Hp. destruct (gzip_expand _ _) as [expanded|[]]; try discriminate E.
  cbn [mbind result_bind] in E. apply result_bind_Ok in E as (u'' & _ & E). destruct (read_pack expanded) as [[pack' [|]]|]; try discriminate E.
  apply result_bind_Ok in E as (? & _ & E). apply result_bind_Ok in E as (? & _ & E). destruct (encodeValidatedDomainPagePack pack'); [|discriminate E].
  apply result_bind_Ok in E as (? & _ & [= ->]). by apply list_elem_of_fmap_2.
Qed.

Lemma kept_listed (w : World) p : kept w p → p ∈ concat (map pages_in (bodies w)).
Proof.
  intros (k & body & Hb%bodies_logged & Hp). apply list_elem_of_In, in_concat. exists (pages_in body). split.
  - apply in_map. by apply list_elem_of_In.
  - apply list_elem_of_In, elem_of_app. destruct Hp as [->|(domain & kind & id & pack & q & Hd & Hq & <-)]; [left; by left|right; by eapply packed_listed].
Qed.

(** The object at the head key of a domain is not the head of another. *)
Definition own_head (reference : consistencyDomainRef) (w : World) : bool :=
  match head_key reference with
  | Ok key => match object_at (log w) (key_value key) with
              | Some (body, _) => match DecodeEnvelope body key domainHeadSchema with Ok (_, h) => negb (misbound reference h) | Err _ => true end
              | None => true
              end
  | Err _ => true
  end.

Lemma own_head_sound reference (w : World) : own_head reference w = true → ¬ foreign reference w.
Proof.
  intros Ho (h & (key & body & v & env & Ek & Eh & Ed) & Hm). cbn in Eh. unfold own_head in Ho. rewrite Ek, (object_head _ _ (head_is_head _ _ Ek)), Eh in Ho.
  change (DecodeEnvelope body key domainHeadSchema) with (DecodeEnvelope (A := DomainHead) body key domainHeadSchema) in Ho. rewrite Ed, Hm in Ho. discriminate Ho.
Qed.

Lemma free_check_sound (w : World) : free_check w = true → collision_free w.
Proof. intros Hc p p' Hp%kept_listed Hp'%kept_listed. by apply (agree_sound json_page _ _ p p' Hc). Qed.


(** A well-formed world, decided. *)
Lemma head_settled `{!SHA256Laws, !GZIPLaws} reference (w : World) :
  world_ok reference w → free_check w = true → own_head reference w = true → is_Ok (head_key reference) = true → ∃ a, at_head reference w a.
Proof. intros Hw Hc%free_check_sound Ho%own_head_sound Hk. by destruct (Hw Hc Hk). Qed.
End Checks.
End StoreWorld.
