(* ===== verification/EngineWorld.v ===== *)
(** * An engine for one process, and one with a rival

    [World] as the engine's backend; it meets [EngineLaws].  [Contested] is the
    same backend with one mutation of another process that is committed at a
    given scheduler step. *)

From Stdlib Require Import ZArith Lia.
From S2P Require Import Prelude GoLib GoHash GoJSON GoTime Errors StateStore ObjectStore DomainPage DomainTree DomainPack DomainHead TransitionFormat DomainSession TreeStream DomainProvider DomainCatalog StateRoute DomainStore EngineTransition EngineState EngineList HeadTheory SessionLaws PackTheory SessionReader StoreLaws StoreSpec StoreCatalog EngineSpec ListTheory StoreWorld.

Open Scope Z_scope.

Module EngineWorld.
Import ObjectStore StorageFormat DomainPack DomainHead TransitionFormat DomainSession DomainProvider DomainStore EngineTransition EngineList SessionLaws StoreLaws StoreSpec StoreCatalog EngineSpec ListTheory StoreWorld.

Definition no_fingerprint : ContentFingerprint := {| Fingerprint_MD5 := []; Fingerprint_CRC32C := [] |}.

(** The live keys of the log under a prefix and after a key, in order. *)
Definition listed (l : list (gostring * option gostring)) (prefix after : gostring) : list (gostring * gostring * gostring) :=
  omap (λ k, (λ o, (k, fst o, snd o)) <$> object_at l k)
    (sort_Strings (filter (λ k, HasPrefix k prefix && (after <? k)%bytes = true) (remove_dups (map fst l)))).

#[export] Instance world_engine : Engine World := {
  engine_provider := world_provider;
  obj_delete k c w :=
    match object_at (log w) (key_value k) with
    | None => (Err (NewError ErrorNotFound "object not found"), w)
    | Some (_, v) =>
        if bool_decide (v = Delete_Version c) then (Ok tt, {| log := (key_value k, None) :: log w; now := now w; offers := offers w |})
        else (Err (NewError ErrorPreconditionFailed "object changed"), w)
    end;
  obj_list r w :=
    let found := listed (log w) (List_Prefix r) (List_After r) in
    let n := Z.to_nat (List_Limit r) in
    (Ok {| Page_Objects := map (λ '(k, body, v), {| Info_Key := {| key_value := k |}; Info_Version := v; Info_Size := len body;
                                                    Info_Fingerprint := no_fingerprint |}) (take n found);
           Page_NextCursor := if (n <? length found)%nat then "more" else [] |}, w);
  (** Every instant draws other bytes. *)
  draw n w := (Ok (b64_encode (put_be n (now w) [])), {| log := log w; now := now w + 1; offers := offers w |});
}.

Lemma transition_is_head v : is_head (root ++ "transitions/" ++ v).
Proof. right. exists v. unfold transition_prefix. by rewrite <-(assoc_L (++)). Qed.

#[export] Instance world_engine_laws `{SHA256, !SHA256Laws} : EngineLaws World.
Proof.
  split.
  - apply world_laws.
  - unfold TransitionPlanKey. intros id k E. inv_go. apply fixedKey_value in E. cbn. rewrite E. apply (transition_is_head ("plans/" ++ digestPart id ++ ".json")).
  - unfold TransitionDecisionKey. intros id k E. inv_go. apply fixedKey_value in E. cbn. rewrite E.
    apply (transition_is_head ("decisions/" ++ digestPart id ++ ".json")).
  - intros b k c x b' Hk. cbn in *. rewrite (object_head _ _ Hk). intros E. exists b. split; [reflexivity|].
    destruct (heads_of (log b) !! key_value k) as [[body v]|]; [|injection E as <- <-; by left].
    case_bool_decide; injection E as <- <-; [right|by left]. cbn. rewrite !decide_True by done. split; [done|]. split; [done|]. split; [done|]. split; [lia|done].
  - intros k b x b'. cbn. destruct (object_at _ _) as [[body v]|]; intros [= _ <-]; reflexivity.
  - intros r b x b' E. injection E as _ <-. reflexivity.
  - intros n b x b' E. injection E as _ <-. cbn. unfold world_le. cbn. split; [done|]. split; [done|]. split; [done|]. split; [lia|done].
Qed.

#[export] Instance world_snapshot_laws `{SHA256, !SHA256Laws} : SnapshotLaws World.
Proof.
  split.
  - unfold DomainSnapshotKey. intros kind id d k E. inv_go. apply fixedKey_value in E. cbn. rewrite E. intros [Hh|Hh].
    + rewrite !(assoc_L (++)), <-(assoc_L (++)) in Hh. by apply digest_not_head in Hh.
    + by apply domains_not_transition in Hh.
  - unfold StateQuerySnapshotKey. intros d k E. inv_go. apply fixedKey_value in E. cbn. rewrite E. intros [Hh|Hh].
    + rewrite (assoc_L (++)) in Hh. by apply digest_not_head in Hh.
    + apply (domains_not_transition ("state-query-snapshots/" ++ digestPart d ++ ".json")) in Hh. done.
Qed.

Lemma documents_check_sound `{SHA256} (w : World) : documents_check w = true → documents_free w.
Proof.
  intros Hc k body text Hb%bodies_logged Ht. cbn in Ht. rewrite elem_of_list_to_set in Ht. by apply (agree_sound id _ _ body text Hc).
Qed.

(** ** A cipher

    It authenticates and hides nothing. *)
#[export] Instance tagged `{SHA256} : AEAD := {
  NonceSize := 12;
  Seal nonce text data := sha256 (nonce ++ data ++ text) ++ text;
  Open_ nonce sealed data :=
    let text := drop 32 sealed in if bool_decide (take 32 sealed = sha256 (nonce ++ data ++ text)) then Some text else None;
}.

#[export] Instance tagged_laws `{SHA256, !SHA256Laws} : AEADLaws.
Proof.
  split; intros nonce text data _; cbn.
  - rewrite (take_app_length' _ _ 32), (drop_app_length' _ _ 32) by by rewrite sha256_length. by rewrite bool_decide_eq_true_2.
  - intros E%(f_equal length). rewrite length_app, sha256_length in E. done.
Qed.

(** ** Another process *)

Section Contested.
Context `{SHA256} `{GZIP}.

(** What another process will commit, where, and before which step of ours. *)
Record rival := { rival_step : gostring; rival_domain : consistencyDomainRef; rival_mutation : consistencyDomainMutation }.
Record Contested := { world : World; script : list rival }.

Definition in_world {A} (m : GoM World error A) : GoM Contested error A :=
  λ s, let '(x, w) := m (world s) in (x, {| world := w; script := script s |}).

#[export] Instance contested_engine : Engine Contested := {
  engine_provider := {|
    obj_get k := in_world (obj_get k);
    obj_put k body c := in_world (obj_put k body c);
    clock_now s := let '(t, w) := clock_now (world s) in (t, {| world := w; script := script s |});
    sched_step step s :=
      match script s with
      | r :: rest =>
          if bool_decide (rival_step r = step)
          then (Ok tt, {| world := snd (mutate (rival_domain r) 8 (rival_mutation r) (world s)); script := rest |})
          else (Ok tt, s)
      | [] => (Ok tt, s)
      end
  |};
  obj_delete k c := in_world (obj_delete k c);
  obj_list r := in_world (obj_list r);
  draw n := in_world (draw n);
}.
End Contested.

(** ** Heads that cannot be read *)

(** A backend whose heads are unavailable for now. *)
Record Outage := { reachable : World }.

Definition beyond {A} (m : GoM World error A) : GoM Outage error A :=
  λ s, let '(x, w) := m (reachable s) in (x, {| reachable := w |}).

#[export] Instance outage_engine : Engine Outage := {
  engine_provider := {|
    obj_get k := if HasSuffix (key_value k) head_suffix then throw (NewError ErrorUnavailable "backend unavailable") else beyond (obj_get k);
    obj_put k body c := beyond (obj_put k body c);
    clock_now s := let '(t, w) := clock_now (reachable s) in (t, {| reachable := w |});
    sched_step _ s := (Ok tt, s)
  |};
  obj_delete k c := beyond (obj_delete k c);
  obj_list r := beyond (obj_list r);
  draw n := beyond (draw n);
}.
End EngineWorld.
