(* ===== verification/SessionProps.v ===== *)
(** * Sessions over the in-memory backend and what sessions guarantee *)

From Stdlib Require Import ZArith Lia.
From S2P Require Import Prelude GoLib GoHash GoJSON GoTime Errors ObjectStore ObjectMemory ObjectTheory DomainPage DomainPageTheory DomainTree TreeTheory TreeRead TreeGroups TreeWrite TreeEdit DomainPack DomainSession SessionLaws.

Open Scope Z_scope.

(** * Sessions over the in-memory object backend

    The backend of internal/objectstore/memory meets [BlobLaws], so sessions
    opened on it meet [PageStoreLaws]. *)

Module SessionMemory.
Import ObjectStore StorageFormat DomainTree TreeTheory DomainPack DomainSession SessionLaws.

Section Memory.
Context `{MD5Sum}.

Definition create_only : PutCondition := {| Put_Mode := PutCreateOnly; Put_Version := [] |}.

#[export] Instance memory_blobs : BlobStore MemoryBackend.Backend := {
  blob_get k := object ← MemoryBackend.Get None k; mret (Object_Body object);
  blob_create k body := _ ← MemoryBackend.Put None k body create_only; mret tt;
}.

Definition readable (r : MemoryBackend.record) : option gostring :=
  if negb (MemoryBackend.materialized r) && (len (MemoryBackend.body r) <? MemoryBackend.size r) then None
  else Some (MemoryBackend.body r).

(** Every object counts as written once: nobody else runs, and sessions only
    create. *)
Definition bodies (b : MemoryBackend.Backend) : gmap gostring gostring := omap readable (MemoryBackend.records b).
Definition memory_le (b b' : MemoryBackend.Backend) : Prop := bodies b ⊆ bodies b'.
#[export] Instance memory_le_preorder : PreOrder memory_le.
Proof. unfold memory_le. split; [by intros ?|]. intros x y z ??. by etrans. Qed.

#[export] Instance memory_view : BlobView MemoryBackend.Backend :=
  {| blob_key k := Key_Valid k = true; blob_contents := bodies; blob_outage _ := False; blob_le := memory_le |}.

Lemma memory_get b k :
  blob_get k b =
    (if Key_Valid k then
       match MemoryBackend.records b !! key_value k with
       | None => Err (NewError ErrorNotFound "object not found")
       | Some r => match readable r with
                   | Some body => Ok body
                   | None => Err (NewError ErrorUnavailable "logical object body is not materialized")
                   end
       end
     else Err (NewError ErrorInvalid "invalid object key"), b).
Proof.
  cbn. unfold MemoryBackend.Get, MemoryBackend.Open, readable.
  unfold mbind, gom_bind, lift, throw_if, gets, throw, mret, gom_ret. cbn [ContextError guard_err lift].
  destruct (Key_Valid k); cbn [negb guard_err]; [|done].
  destruct (MemoryBackend.records b !! key_value k) as [r|]; [|done].
  destruct (negb (MemoryBackend.materialized r) && _); done.
Qed.

#[export] Instance memory_laws : BlobLaws MemoryBackend.Backend.
Proof.
  split; [done|..].
  - intros b k body x b' Hk. rewrite memory_get, Hk. cbn [blob_contents memory_view]. unfold bodies. rewrite lookup_omap.
    destruct (MemoryBackend.records b !! key_value k) as [r|]; [|done]. cbn. intros ->. intros [= <- _]. by left.
  - intros b k x b' Hk. rewrite memory_get, Hk. cbn [blob_contents memory_view]. intros [= <- <-]. split; [by unfold blob_le; cbn; unfold memory_le|]. intros body.
    unfold bodies. rewrite lookup_omap. destruct (MemoryBackend.records b !! key_value k) as [r|]; [|done]. cbn.
    destruct (readable r); [|done]. by intros [= ->].
  - intros b k body x b' Hk. cbn [blob_create memory_blobs blob_contents blob_le memory_view]. unfold memory_le, bodies, MemoryBackend.Put.
    unfold mbind, gom_bind, lift, throw_if, gets, throw, mret, gom_ret, modify. cbn [ContextError]. rewrite Hk. cbn [negb guard_err].
    unfold PutCondition_Validate, MemoryBackend.check_put, create_only. cbn [Put_Mode Put_Version Z.eqb Pos.eqb PutCreateOnly].
    rewrite bool_decide_eq_true_2 by done. cbn [andb]. unfold lift.
    destruct (MemoryBackend.records b !! key_value k) as [r|] eqn:Er; [by intros [= <- <-]|].
    unfold MemoryBackend.nextVersion. intros [= <- <-].
    unfold MemoryBackend.upd_records, MemoryBackend.upd_versions. cbn [MemoryBackend.records].
    rewrite omap_insert. cbn. split; [apply insert_subseteq; by rewrite lookup_omap, Er|]. intros _ _. by rewrite lookup_insert_eq.
Qed.
End Memory.

(** The key functions yield valid keys. *)
Lemma MustKey_valid v k : MustKey v = Ok k → Key_Valid k = true.
Proof.
  unfold MustKey, Key_Valid. destruct (ParseKey v) as [k'|] eqn:E; [|done]. intros [= <-].
  pose proof E as [-> _]%ObjectTheory.ParseKey_Ok. cbn. rewrite E. by apply bool_decide_eq_true.
Qed.

Lemma pageKey_valid `{SHA256} reference d k : session_pageKey reference d = Ok k → Key_Valid k = true.
Proof. unfold session_pageKey, DomainPageKey, fixedKey. intros E. inv_go. by eapply MustKey_valid. Qed.

Lemma packKey_valid `{SHA256} reference d k : session_packKey reference d = Ok k → Key_Valid k = true.
Proof. unfold session_packKey, DomainPagePackKey, fixedKey. intros E. inv_go. by eapply MustKey_valid. Qed.
End SessionMemory.

(** * What sessions guarantee

    Authenticity against any backend, the page codec, the leaf filter, and
    runs of the tree operations on sessions over the in-memory backend. *)

Module SessionProps.
Import StorageFormat PageTheory DomainTree TreeTheory DomainPack DomainSession.

(** ** Authenticity

    Nothing is assumed of the backend here: it may return any bytes, fail, or
    change between two calls. *)

Section Authentic.
Context `{SHA256} `{GZIP} {B : Type} `{!BlobStore B}.
Variables (ctx : context) (reference : consistencyDomainRef) (pageKey packKey : gostring → res ObjectStore.Key).

(** Everything a session may do, and what others may do to its backend. *)
Inductive session_op :=
| OpRead (r : domainPageRef)
| OpWrite (p : DomainPage)
| OpEnsure (d : gostring)
| OpChild (r : domainPageRef)
| OpForce (b : bool)
| OpFlush
| OpForget (d : gostring)
| OpKnown (root : DomainTreeRoot)
| OpEnable (seed : gostring)
| OpBind (seed : gostring)
| OpPrepare (now : Z) (seed : gostring) (until : option Z)
| OpInterfere (b : B).

Definition run_op (o : session_op) (s : Session B) : Session B :=
  match o with
  | OpRead r => snd (session_readPage ctx reference pageKey packKey r s)
  | OpWrite p => snd (session_writePage reference pageKey p s)
  | OpEnsure d => snd (session_ensurePackID reference d s)
  | OpChild r => snd (session_pageChild r s)
  | OpForce b => snd (session_setForcePack b s)
  | OpFlush => snd (flushPack ctx reference packKey s)
  | OpForget d => snd (forgetPage d s)
  | OpKnown root => snd (markKnown root s)
  | OpEnable seed => snd (enablePackedWrites seed s)
  | OpBind seed => snd (bindPackedMutation seed s)
  | OpPrepare now seed until => snd (bindPreparedMutation now seed until s)
  | OpInterfere b => set_backend b s
  end.

(** Every page a session holds was validated under its digest. *)
Definition cache_valid (s : Session B) : Prop :=
  (∀ d p, pages s !! d = Some p → page_ok p d) ∧ (∀ d p, pendingPack s !! d = Some p → page_ok p d).

Lemma cache_valid_same s s' :
  pages s' = pages s → pendingPack s' = pendingPack s ∨ pendingPack s' = ∅ → cache_valid s → cache_valid s'.
Proof.
  intros Ep Epd [V1 V2]. split; intros d p; [rewrite Ep; apply V1|].
  destruct Epd as [-> | ->]; [apply V2|by rewrite lookup_empty].
Qed.

Lemma cache_valid_insert s d id p : cache_valid s → page_ok p d → cache_valid (cache_page d id p s).
Proof.
  intros [V1 V2] Hok. split; [|done]. intros d' p'. cbn. rewrite lookup_insert. case_decide; [intros [= <-]; by subst|apply V1].
Qed.

(** An operation that keeps the pages, whatever it returns. *)
Definition keeps {A} (m : GoM (Session B) error A) : Prop :=
  ∀ s x s', m s = (x, s') → pages s' = pages s ∧ pendingPack s' = pendingPack s.

Lemma keeps_bind {A C} (m : GoM (Session B) error A) (f : A → GoM (Session B) error C) :
  keeps m → (∀ a, keeps (f a)) → keeps (m ≫= f).
Proof.
  intros Hm Hf s x s' (y & s1 & E1 & E)%gom_bind_inv. destruct (Hm _ _ _ E1) as [Ep Epd].
  destruct y as [a|e]; [|destruct E as [-> ->]; done]. destruct (Hf _ _ _ _ E) as [-> ->]. done.
Qed.

Lemma keeps_lift {A} (r : res A) : keeps (lift r).
Proof. by intros s x s' [-> ->]%lift_inv. Qed.

Lemma keeps_ret {A} (a : A) : keeps (mret a).
Proof. by intros s x s' [-> ->]%mret_inv. Qed.

Lemma keeps_modify f :
  (∀ s, pages (f s) = pages s ∧ pendingPack (f s) = pendingPack s) → keeps (modify f).
Proof. intros Hf s x s' E. injection E as <- <-. apply Hf. Qed.

Lemma keeps_get : keeps get.
Proof. intros s x s' E. by injection E as <- <-. Qed.

Lemma keeps_backend {A} (m : GoM B error A) : keeps (on_backend m).
Proof. intros s x s'. unfold on_backend. destruct (m (backend s)) as [y b]. by intros [= <- <-]. Qed.

Lemma keeps_throw {A} e : keeps (throw e : GoM (Session B) error A).
Proof. intros s x s' E. by injection E as <- <-. Qed.

Lemma keeps_loadPack id : keeps (loadPack ctx reference packKey id).
Proof.
  intros s x s'. unfold loadPack. destruct (packs s !! id) as [m|]; [by intros [= <- <-]|]. revert s x s'.
  change (keeps (_ ← lift (match ctx with None => Ok tt | Some cause => Err (WrapError ErrorUnavailable "consistency-domain pack read canceled" cause) end);
    key ← lift (packKey id); body ← on_backend (blob_get key);
    decoded ← lift (DecodeDomainPagePack ctx body (Ref_ID reference) (Ref_Kind reference) id);
    _ ← modify (λ s, set_packs (<[id := index_pack decoded]> (packs s)) s); mret (index_pack decoded) : GoM (Session B) error _)).
  repeat (apply keeps_bind; [by auto using keeps_lift, keeps_backend, keeps_modify|intros ?]). apply keeps_ret.
Qed.

Lemma keeps_fetch root : keeps (fetch_page ctx reference pageKey packKey root).
Proof.
  unfold fetch_page. case_bool_decide.
  - apply keeps_bind; [apply keeps_loadPack|]. intros m. destruct (m !! Root_Digest root); [apply keeps_ret|apply keeps_throw].
  - apply keeps_bind; [apply keeps_lift|]. intros k. apply keeps_bind; [apply keeps_backend|]. intros ?. apply keeps_lift.
Qed.

Lemma keeps_create key body e : keeps (create_or_match key body e).
Proof.
  intros s x s'. unfold create_or_match. destruct (on_backend (blob_create key body) s) as [y s1] eqn:E1.
  destruct (keeps_backend _ _ _ _ E1) as [Ep Epd]. destruct y as [u|err]; [by intros [= <- <-]|].
  intros E. assert (keeps (_ ← throw_if (negb (errors_Is err ErrConflict)) err; existing ← on_backend (blob_get key);
       throw_if (bool_decide (existing ≠ body)) e : GoM (Session B) error unit)) as Hk.
  { apply keeps_bind; [apply keeps_lift|]. intros ?. apply keeps_bind; [apply keeps_backend|]. intros ?. apply keeps_lift. }
  destruct (Hk _ _ _ E) as [-> ->]. done.
Qed.

Lemma keeps_flush : keeps (flushPack ctx reference packKey).
Proof.
  unfold flushPack. apply keeps_bind; [apply keeps_get|]. intros s. destruct (bool_decide _ || _ || _); [apply keeps_ret|].
  apply keeps_bind; [apply keeps_lift|]. intros body. apply keeps_bind; [apply keeps_lift|]. intros key.
  apply keeps_bind; [apply keeps_create|]. intros ?. apply keeps_bind; [apply keeps_lift|]. intros ?. by apply keeps_modify.
Qed.

Lemma keeps_child r : keeps (session_pageChild r).
Proof.
  unfold session_pageChild. apply keeps_bind; [apply keeps_get|]. intros s. apply keeps_bind; [|intros; apply keeps_ret].
  destruct (bool_decide _ && _ && _); [apply keeps_ret|]. destruct (bool_decide _ && _ && _ && _); [|apply keeps_ret].
  destruct (match packs s !! _ with Some pack => _ | None => None end); [|apply keeps_ret].
  apply keeps_bind; [apply keeps_lift|]. intros ?. apply keeps_ret.
Qed.

Lemma keeps_bindMutation seed : keeps (bindPackedMutation seed).
Proof.
  unfold bindPackedMutation. apply keeps_bind; [apply keeps_lift|]. intros ?. apply keeps_bind; [apply keeps_get|]. intros s.
  case_bool_decide; [apply keeps_lift|]. apply keeps_bind; [apply keeps_lift|]. intros ?. by apply keeps_modify.
Qed.

Lemma keeps_prepare now seed until : keeps (bindPreparedMutation now seed until).
Proof.
  unfold bindPreparedMutation. apply keeps_bind; [apply keeps_lift|]. intros ?. apply keeps_bind; [apply keeps_get|]. intros s.
  case_bool_decide; [apply keeps_lift|]. apply keeps_bind; [apply keeps_lift|]. intros ?.
  apply keeps_bind; [apply keeps_lift|]. intros ?. apply keeps_bind; [by apply keeps_modify|]. intros ?. by apply keeps_modify.
Qed.

Lemma cache_valid_keeps {A} (m : GoM (Session B) error A) s : keeps m → cache_valid s → cache_valid (snd (m s)).
Proof.
  intros Hm Hv. destruct (m s) as [x s'] eqn:E. destruct (Hm _ _ _ E) as [Ep Epd]. by eapply cache_valid_same; [|left|].
Qed.

Lemma ensure_valid d s x s' : session_ensurePackID reference d s = (x, s') → cache_valid s → cache_valid s'.
Proof.
  unfold session_ensurePackID. intros E Hv. apply gom_bind_inv in E as (y & s1 & E1 & E). apply mret_inv in E1 as [-> ->].
  case_bool_decide; [by apply mret_inv in E as [_ ->]|]. destruct (negb (packedWrites s)); [by apply mret_inv in E as [_ ->]|].
  apply gom_bind_inv in E as (u & s1 & E1 & E). apply lift_inv in E1 as [-> ->].
  case_bool_decide; cbn [guard_err] in E; [by destruct E as [_ ->]|].
  apply gom_bind_inv in E as (v & s2 & E2 & E). apply mret_inv in E2 as [-> ->]. apply mret_inv in E as [_ ->].
  by eapply cache_valid_same; [..|exact Hv]; [|right].
Qed.

Lemma publish_valid p d body r s x s' :
  publish_page reference pageKey p d body r s = (x, s') → page_ok p d → cache_valid s → cache_valid s'.
Proof.
  intros E Hok Hv. unfold publish_page in E. apply gom_bind_inv in E as (y & s1 & E1 & E).
  pose proof (ensure_valid _ _ _ _ E1 Hv) as Hv1. destruct y as [id|e]; [|by destruct E as [_ ->]]. case_bool_decide.
  - apply gom_bind_inv in E as (z & s2 & E2 & E). apply mret_inv in E2 as [-> ->].
    apply gom_bind_inv in E as (u & s2 & E2 & E). apply lift_inv in E2 as [-> ->].
    destruct (packFlushed s1); cbn [guard_err] in E; [by destruct E as [_ ->]|].
    apply gom_bind_inv in E as (v & s2 & E2 & E). apply mret_inv in E2 as [-> ->]. apply mret_inv in E as [_ ->].
    apply cache_valid_insert; [|done]. destruct Hv1 as [V1 V2]. split; [apply V1|]. intros d' p'. cbn.
    rewrite lookup_insert. case_decide; [intros [= <-]; by subst|apply V2].
  - apply gom_bind_inv in E as (k & s2 & E2 & E). apply lift_inv in E2 as [-> ->].
    destruct (pageKey d) as [key|e]; [|by destruct E as [_ ->]].
    apply gom_bind_inv in E as (u & s2 & E2 & E). pose proof (keeps_create _ _ _ _ _ _ E2) as [Ep Epd].
    assert (cache_valid s2) as Hv2 by (by eapply cache_valid_same; [|left|]).
    destruct u as [u|e]; [|by destruct E as [_ ->]].
    apply gom_bind_inv in E as (v & s3 & E3 & E). apply mret_inv in E3 as [-> ->]. apply mret_inv in E as [_ ->].
    by apply cache_valid_insert.
Qed.

Lemma write_valid p s x s' : session_writePage reference pageKey p s = (x, s') → cache_valid s → cache_valid s'.
Proof.
  intros E Hv. unfold session_writePage in E. apply gom_bind_inv in E as (y & s1 & E1 & E). apply lift_inv in E1 as [-> ->].
  destruct (EncodeCanonical (json_page p)) as [body|e]; [|by destruct E as [_ ->]].
  apply gom_bind_inv in E as (y & s1 & E1 & E). apply lift_inv in E1 as [-> ->].
  destruct (ValidateDomainPage p (Digest body)) as [[]|e] eqn:Ev; [|by destruct E as [_ ->]]. apply ValidateDomainPage_Ok in Ev.
  apply gom_bind_inv in E as (y & s1 & E1 & E). apply mret_inv in E1 as [-> ->].
  destruct (pages s !! Digest body) as [cached|].
  - destruct (negb (forcePack s) || _).
    + apply gom_bind_inv in E as (y & s1 & E1 & E). apply lift_inv in E1 as [-> ->].
      destruct (guard_err _ _); [by apply lift_inv in E as [_ ->]|by destruct E as [_ ->]].
    + apply gom_bind_inv in E as (y & s1 & E1 & E). apply lift_inv in E1 as [-> ->].
      destruct (consistencyDomainPageDescriptor p _ []); [by eapply publish_valid|by destruct E as [_ ->]].
  - apply gom_bind_inv in E as (y & s1 & E1 & E). apply lift_inv in E1 as [-> ->].
    destruct (consistencyDomainPageDescriptor p _ []); [|by destruct E as [_ ->]].
    destruct (known s !! Digest body); [|by eapply publish_valid].
    destruct (negb (forcePack s)); [|by eapply publish_valid].
    apply gom_bind_inv in E as (y & s1 & E1 & E). apply lift_inv in E1 as [-> ->].
    destruct (guard_err _ _); [by apply mret_inv in E as [_ ->]|by destruct E as [_ ->]].
Qed.

Lemma read_valid r s x s' :
  session_readPage ctx reference pageKey packKey r s = (x, s') → cache_valid s →
  cache_valid s' ∧ ∀ p, x = Ok p → page_ok p (Root_Digest (ref_root r)) ∧ verifyConsistencyDomainPageRef p r = Ok tt.
Proof.
  intros E Hv. unfold session_readPage in E. apply gom_bind_inv in E as (u & s1 & E1 & E). apply lift_inv in E1 as [-> ->].
  case_bool_decide as Hd; cbn [guard_err] in E; [by destruct E as [-> ->]|].
  apply gom_bind_inv in E as (y & s1 & E1 & E). apply mret_inv in E1 as [-> ->].
  destruct (cached_page (ref_root r) s) as [p|] eqn:Ec.
  { apply gom_bind_inv in E as (v & s1 & E1 & E). apply lift_inv in E1 as [-> ->].
    destruct (verifyConsistencyDomainPageRef p r) as [[]|e] eqn:Ev; [|by destruct E as [-> ->]].
    apply mret_inv in E as [-> ->]. split; [done|]. intros ? [= <-]. split; [|done]. destruct Hv as [V1 V2].
    unfold cached_page in Ec. destruct (pages s !! Root_Digest (ref_root r)) eqn:Epg.
    - injection Ec as ->. by apply V1.
    - destruct (bool_decide _ && _); [by apply V2|done]. }
  apply gom_bind_inv in E as (y & s1 & E1 & E). pose proof (keeps_fetch _ _ _ _ E1) as [Ep Epd].
  assert (cache_valid s1) as Hv1 by (by eapply cache_valid_same; [|left|]).
  destruct y as [p|e]; [|by destruct E as [-> ->]].
  apply gom_bind_inv in E as (v & s2 & E2 & E). apply lift_inv in E2 as [-> ->].
  destruct (bool_decide (Page_DomainID p ≠ Ref_ID reference) || _); cbn [guard_err] in E; [by destruct E as [-> ->]|].
  apply gom_bind_inv in E as (v & s2 & E2 & E). apply lift_inv in E2 as [-> ->].
  destruct (ValidateDomainPage p _) as [[]|e] eqn:Ev; [|by destruct E as [-> ->]]. apply ValidateDomainPage_Ok in Ev.
  apply gom_bind_inv in E as (v & s2 & E2 & E). apply lift_inv in E2 as [-> ->].
  destruct (verifyConsistencyDomainPageRef p r) as [[]|e] eqn:Er; [|by destruct E as [-> ->]].
  apply gom_bind_inv in E as (v & s2 & E2 & E). apply mret_inv in E2 as [-> ->]. apply mret_inv in E as [-> ->].
  split; [by apply cache_valid_insert|]. intros ? [= <-]. done.
Qed.

Lemma run_op_valid o s : cache_valid s → cache_valid (run_op o s).
Proof.
  intros Hv. destruct o; cbn [run_op].
  - destruct (session_readPage _ _ _ _ r s) as [x s'] eqn:E. by eapply read_valid in E as [? _].
  - destruct (session_writePage _ _ p s) as [x s'] eqn:E. by eapply write_valid.
  - destruct (session_ensurePackID _ d s) as [x s'] eqn:E. by eapply ensure_valid.
  - by apply cache_valid_keeps; [apply keeps_child|].
  - by apply cache_valid_keeps; [apply keeps_modify|].
  - by apply cache_valid_keeps; [apply keeps_flush|].
  - destruct Hv as [V1 V2]. split; cbn; [|done]. intros d' p [_ Hp]%lookup_delete_Some. by apply V1.
  - apply cache_valid_keeps; [|done]. apply keeps_modify. intros s'. by case_bool_decide.
  - by apply cache_valid_keeps; [apply keeps_modify|].
  - by apply cache_valid_keeps; [apply keeps_bindMutation|].
  - by apply cache_valid_keeps; [apply keeps_prepare|].
  - done.
Qed.

(** C27: sessions fail closed.  Whatever the backend returns, whoever changes it
    meanwhile and whatever the session did before, a page it reads is valid,
    its canonical bytes hash to the requested digest, and it agrees with the
    descriptor that named it. *)
Theorem readPage_authentic (ops : list session_op) (b : B) (r : domainPageRef) (p : DomainPage) (s : Session B) :
  session_readPage ctx reference pageKey packKey r (fold_left (λ s o, run_op o s) ops (newSession b)) = (Ok p, s) →
  Digest (json_page p) = Root_Digest (ref_root r) ∧ ValidateDomainPage p (Root_Digest (ref_root r)) = Ok tt ∧
  verifyConsistencyDomainPageRef p r = Ok tt.
Proof.
  intros E. assert (cache_valid (fold_left (λ s o, run_op o s) ops (newSession b))) as Hv.
  { clear E. assert (cache_valid (newSession b)) as Hv by (split; intros d q; cbn; by rewrite lookup_empty).
    revert Hv. generalize (newSession b). induction ops as [|o ops IH]; intros s0 Hv; [done|]. cbn. by apply IH, run_op_valid. }
  destruct (read_valid _ _ _ _ E Hv) as [_ Hp]. destruct (Hp p eq_refl) as [Hok Hver].
  split; [by destruct (po_digest _ _ Hok) as [-> _]|]. split; [by apply ValidateDomainPage_Ok|done].
Qed.
End Authentic.

(** ** The page codec and the leaf filter *)

Section Codec.
Context `{SHA256}.

(** The page codec round-trips: a valid page decodes from its canonical
    bytes, those are the only bytes that decode to it, and decoding never
    accepts bytes that would not be written again. *)
Theorem page_codec_roundtrip (p : DomainPage) (digest : gostring) :
  ValidateDomainPage p digest = Ok tt → page_typed p →
  decodeCanonicalPage (json_page p) = Ok p ∧
  (∀ body, decodeCanonicalPage body = Ok p → body = json_page p ∧ Digest body = digest).
Proof.
  intros Hok%ValidateDomainPage_Ok Hty. split.
  - apply decode_complete; [by eapply page_ok_text|apply (po_body _ _ Hok)].
  - intros body [-> _]%decode_sound%EncodeCanonical_Ok. split; [done|]. by destruct (po_digest _ _ Hok) as [-> _].
Qed.

(** The negative-lookup hint of a leaf never denies a key the leaf holds,
    and the hint the code computes always validates. *)
Theorem leaf_filter_sound (keys : list gostring) (key : gostring) :
  key ∈ keys →
  ValidateDomainLeafKeyFilter (DomainLeafKeyFilter keys) = Ok tt ∧
  DomainLeafKeyFilterMayContain (DomainLeafKeyFilter keys) key = Ok true.
Proof. intros Hk. split; [apply filter_valid|by apply filter_no_false_negative]. Qed.
End Codec.

(** ** Sessions without stored pages *)

Section Collisions.
Context `{SHA256} `{GZIP} {B : Type} `{!BlobStore B, !BlobView B}.
Variables (reference : consistencyDomainRef) (pageKey packKey : gostring → res ObjectStore.Key).

(** Over an empty backend a session resolves only its pending pages, one per
    digest. *)
Lemma no_collision_unstored (s : Session B) :
  blob_contents (backend s) = ∅ → no_collision (PageView0 := SessionLaws.session_view reference pageKey packKey) s.
Proof.
  intros Hb. assert (∀ d id p, SessionLaws.backed reference pageKey packKey s d id p → pendingPack s !! d = Some p) as Hr.
  { intros d id p [[_ Hs]|(_ & _ & ? & _)]; [|done]. exfalso. case_bool_decide.
    - destruct Hs as (m & (k & body & pack & _ & Hk & _) & _). by rewrite Hb, lookup_empty in Hk.
    - destruct Hs as (k & body & _ & Hk & _). by rewrite Hb, lookup_empty in Hk. }
  intros d id id' p p' Hp%Hr Hp'%Hr. congruence.
Qed.
End Collisions.
End SessionProps.
