(* ===== verification/TreeExamples.v ===== *)
(** * A session at work

    A session over the in-memory backend, with a cheap digest, writes two
    records to an empty tree; the theorems on trees and sessions are applied to
    the states it goes through. *)

From Stdlib Require Import ZArith Lia.
From S2P Require Import Prelude GoLib GoHash GoJSON GoTime Errors DomainIDs ObjectStore ObjectMemory DomainPage DomainPageTheory DomainTree TreeTheory TreeRead TreeGroups TreeWrite TreeEdit DomainPack DomainSession SessionLaws SessionProps.

Open Scope Z_scope.

Module TreeExamples.
Import StorageFormat PageTheory DomainTree TreeTheory TreeRead TreeEdit DomainPack DomainSession SessionLaws SessionMemory SessionProps.

(** A position-dependent checksum of 32 bytes, cheap to evaluate. *)
Definition checksum (data : gostring) : gostring :=
  put_be 32 (fold_left (λ h c, h + (byte_val c + 1) * (1 + Z.land h 255)) data 0) [].
#[local] Instance sha256_example : SHA256 := checksum.
#[local] Instance md5_example : MD5Sum := md5_Sum.
(** Stored blocks stand for compression. *)
#[local] Instance gzip_example : GZIP :=
  {| gzip_compress data := data; gzip_expand data limit := Ok (take (Z.to_nat limit) data) |}.

Definition owner : consistencyDomainRef := {| Ref_Kind := DomainAdmin; Ref_ID := "owner" |}.
Abbreviation Store := (Session MemoryBackend.Backend).
#[local] Instance store_example : PageStore Store := session_pages owner (session_pageKey owner) (session_packKey owner).
#[local] Instance view_example : PageView Store := session_view owner (session_pageKey owner) (session_packKey owner).
#[local] Instance laws_example : PageStoreLaws Store :=
  session_laws owner (session_pageKey owner) (session_packKey owner) (pageKey_valid owner) (packKey_valid owner).

Definition empty_backend : MemoryBackend.Backend := MemoryBackend.New {| source := [] |}.

(** A session that packs its writes. *)
Definition fresh : Store := set_packedWrites "head-1" (newSession empty_backend).

Definition write (key value : gostring) : DomainChange :=
  {| Change_Key := key; Change_Delete := false; Change_Value := Some value; Change_LogicalVersion := "v1" |}.
Definition remove (key : gostring) : DomainChange :=
  {| Change_Key := key; Change_Delete := true; Change_Value := None; Change_LogicalVersion := [] |}.

Definition first_changes : list DomainChange := [write "b" "two"; write "a" "one"].
Definition entries_ab : list DomainEntry := [change_entry (write "a" "one"); change_entry (write "b" "two")].

(** A run that succeeds; states are never evaluated as a whole. *)
Definition ok_root (x : res DomainTreeRoot) : DomainTreeRoot := match x with Ok root => root | Err _ => empty_root end.

Lemma run_succeeds {S} (run : res DomainTreeRoot * S) : is_Ok (fst run) = true → run = (Ok (ok_root (fst run)), snd run).
Proof. by destruct run as [[]]. Qed.

Abbreviation run_ab := (apply_ empty_root first_changes fresh).
Definition root_ab : DomainTreeRoot := ok_root (fst run_ab).
Definition after_ab : Store := snd run_ab.

Lemma fresh_session_inv : ps_inv fresh.
Proof. apply session_inv_packed. Qed.

Lemma first_apply : apply_ empty_root first_changes fresh = (Ok root_ab, after_ab).
Proof. apply (run_succeeds run_ab). vm_compute. reflexivity. Qed.

Lemma first_keys : NoDup (map Change_Key first_changes).
Proof. apply (bool_decide_unpack _). vm_compute. exact I. Qed.

Lemma after_ab_collision : no_collision after_ab.
Proof. apply no_collision_unstored. vm_compute. reflexivity. Qed.

Lemma after_ab_inv : ps_inv after_ab.
Proof. exact (proj1 (proj1 (apply_spec _ _ _ _ _ fresh_session_inv first_apply))). Qed.

Lemma after_ab_holds : holds after_ab root_ab entries_ab.
Proof.
  right. split; [vm_compute; discriminate|]. exists 0%nat, (leaf_page entries_ab). split; [|done]. split.
  - right. split; [vm_compute; reflexivity|]. split; [vm_compute; discriminate|]. split; [vm_compute; reflexivity|].
    apply (si_pending _ _ _ _ after_ab_inv). vm_compute. reflexivity.
  - vm_compute. reflexivity.
Qed.

(** ** Witnesses *)

Abbreviation lookup_b := (lookup root_ab "b" after_ab).

Lemma lookup_correct_witness :
  fst lookup_b = Ok (Some {| Value_Data := Some (bs "two"); Value_LogicalVersion := "v1"; Value_Revision := 0 |}).
Proof.
  destruct (lookup_correct after_ab (snd lookup_b) root_ab entries_ab "b" (fst lookup_b) after_ab_inv after_ab_holds
    (surjective_pairing lookup_b)) as [_ [->|(e & _ & [])]].
  - apply no_collision_unstored. vm_compute. reflexivity.
  - vm_compute. reflexivity.
Defined.

Abbreviation collect_a := (collect root_ab [] "a" (Z.of_nat 5) after_ab).

Lemma collect_correct_witness : fst collect_a = Ok [change_entry (write "b" "two")].
Proof.
  destruct (collect_correct after_ab (snd collect_a) root_ab entries_ab [] "a" 5 (fst collect_a) after_ab_inv after_ab_holds
    ltac:(lia) (surjective_pairing collect_a)) as [_ [->|(e & _ & [])]].
  - apply no_collision_unstored. vm_compute. reflexivity.
  - vm_compute. reflexivity.
Defined.

Abbreviation descend_1 := (collectOrdered root_ab [] (Z.of_nat 1) true after_ab).

Lemma collectOrdered_descending_witness : fst descend_1 = Ok [change_entry (write "b" "two")].
Proof.
  destruct (collectOrdered_descending after_ab (snd descend_1) root_ab entries_ab [] 1 (fst descend_1) after_ab_inv after_ab_holds
    ltac:(lia) (surjective_pairing descend_1)) as [_ [->|(e & _ & [])]].
  - apply no_collision_unstored. vm_compute. reflexivity.
  - vm_compute. reflexivity.
Defined.

Lemma page_prefix_exact_witness :
  is_Ok (EncodeCanonical (json_page (leaf_page (take 2 entries_ab)))) = true.
Proof.
  destruct (TreeGroups.page_prefix_exact 1 entries_ab [] 2) as [Hleaf _]; [lia|]. apply Hleaf; [vm_compute; lia|].
  vm_compute. lia.
Defined.

Lemma apply_correct_witness :
  ∃ es', holds after_ab root_ab es' ∧ entries_map es' = change_map first_changes ∅.
Proof.
  destruct (apply_correct fresh after_ab empty_root root_ab first_changes []) as (_ & _ & es' & ? & _ & _ & ?);
    [exact fresh_session_inv|left; done|exact first_keys|exact first_apply|exact after_ab_collision|]. by exists es'.
Defined.

Definition second_changes : list DomainChange := [remove "a"; write "c" "three"].
Abbreviation run_bc := (apply_ root_ab second_changes after_ab).
Definition root_bc : DomainTreeRoot := ok_root (fst run_bc).
Definition after_bc : Store := snd run_bc.

Lemma after_bc_collision : no_collision after_bc.
Proof. apply no_collision_unstored. vm_compute. reflexivity. Qed.

Lemma second_apply : apply_ root_ab second_changes after_ab = (Ok root_bc, after_bc).
Proof. apply (run_succeeds run_bc). vm_compute. reflexivity. Qed.

Lemma second_keys : NoDup (map Change_Key second_changes).
Proof. apply (bool_decide_unpack _). vm_compute. exact I. Qed.

Abbreviation lookup_new := (lookup root_bc "a" after_bc).
Abbreviation lookup_old := (lookup root_ab "a" after_bc).

Lemma apply_then_lookup_witness :
  fst lookup_new = Ok None ∧
  fst lookup_old = Ok (Some {| Value_Data := Some (bs "one"); Value_LogicalVersion := "v1"; Value_Revision := 0 |}).
Proof.
  destruct (apply_then_lookup after_ab after_bc root_ab root_bc second_changes entries_ab "a" after_ab_inv after_ab_holds
    second_keys second_apply after_bc_collision) as [H1 H2].
  destruct (proj2 (H1 _ _ (surjective_pairing lookup_new))) as [->|(e & _ & [])];
    [apply no_collision_unstored; vm_compute; reflexivity|].
  destruct (proj2 (H2 _ _ (surjective_pairing lookup_old))) as [->|(e & _ & [])];
    [apply no_collision_unstored; vm_compute; reflexivity|].
  split; vm_compute; reflexivity.
Defined.

Abbreviation run_rebuilt := (rebuild root_ab second_changes after_ab).

Lemma rebuild_correct_witness : ∃ es', holds (snd run_rebuilt) (ok_root (fst run_rebuilt)) es' ∧
  entries_map es' = change_map second_changes (clone_entry <$> entries_map entries_ab).
Proof.
  destruct (rebuild_correct after_ab (snd run_rebuilt) root_ab (ok_root (fst run_rebuilt)) second_changes entries_ab)
    as (_ & _ & es' & ? & _ & ?); [exact after_ab_inv|exact after_ab_holds|apply (run_succeeds run_rebuilt); vm_compute; reflexivity|
     apply no_collision_unstored; vm_compute; reflexivity|]. by exists es'.
Defined.

(** A page written on its own, forgotten, and read back from the backend. *)
Definition leaf_ab : DomainPage := leaf_page entries_ab.
Definition digest_ab : gostring := Digest (json_page leaf_ab).
Definition leaf_ref : domainPageRef :=
  root_ref {| Root_Digest := digest_ab; Root_PackID := []; Root_Level := 0; Root_EntryCount := 2; Root_ByteCount := 6 |}.

Definition stored_ab : Session MemoryBackend.Backend :=
  fold_left (λ s o, run_op None owner (session_pageKey owner) (session_packKey owner) o s)
    [OpWrite leaf_ab; OpForget digest_ab] (newSession empty_backend).
Abbreviation read_ab := (session_readPage None owner (session_pageKey owner) (session_packKey owner) leaf_ref stored_ab).

Lemma read_ab_run : read_ab = (Ok leaf_ab, snd read_ab).
Proof. rewrite (surjective_pairing read_ab) at 1. f_equal. Qed.

Lemma readPage_authentic_witness : Digest (json_page leaf_ab) = Root_Digest (ref_root leaf_ref).
Proof.
  exact (proj1 (readPage_authentic (B := MemoryBackend.Backend) None owner (session_pageKey owner) (session_packKey owner)
    [OpWrite leaf_ab; OpForget digest_ab] empty_backend leaf_ref leaf_ab (snd read_ab) read_ab_run)).
Defined.

Lemma page_codec_roundtrip_witness : decodeCanonicalPage (json_page leaf_ab) = Ok leaf_ab.
Proof.
  apply (page_codec_roundtrip leaf_ab digest_ab); [vm_compute; reflexivity|]. split; [vm_compute; discriminate|constructor].
Defined.

Lemma leaf_filter_sound_witness :
  DomainLeafKeyFilterMayContain (DomainLeafKeyFilter [bs "a"; bs "b"]) "b" = Ok true.
Proof. apply (leaf_filter_sound [bs "a"; bs "b"] "b"). apply (bool_decide_unpack _). vm_compute. exact I. Defined.
End TreeExamples.
