(* ===== verification/StoreExamples.v ===== *)
(** * Domains and streams at work *)

From Stdlib Require Import ZArith Lia.
From S2P Require Import Prelude GoLib GoHash GoJSON GoTime Errors ObjectStore DomainPage DomainPageTheory DomainTree TreeTheory TreeRead TreeGroups TreeWrite TreeEdit DomainPack DomainHead DomainSession TreeStream DomainProvider DomainCatalog DomainStore HeadTheory SessionLaws PackTheory SessionReader IteratorTheory StreamTheory StreamProps StoreLaws StoreRead StoreSpec StoreCommit StoreFold StoreMutate StoreList StoreProps StoreWorld TreeExamples.

Open Scope Z_scope.

(** * A domain at work

    The domain store runs on the one-process provider with a cheap digest; the
    theorems on the store are applied to what it does. *)

Module StoreExamples.
Import ObjectStore StorageFormat DomainTree TreeTheory TreeRead DomainPack DomainHead HeadTheory DomainSession DomainProvider DomainStore SessionReader StoreLaws StoreSpec StoreCommit StoreMutate StoreProps StoreWorld.

#[local] Instance sha256_store : SHA256 := TreeExamples.checksum.
#[local] Instance sha256_store_laws : SHA256Laws.
Proof. intros s. unfold sha256, sha256_store, TreeExamples.checksum. by rewrite put_be_length. Qed.
#[local] Instance gzip_store : GZIP := TreeExamples.gzip_example.
#[local] Instance gzip_store_laws : GZIPLaws.
Proof. split. intros data limit Hl. cbn. rewrite take_ge; [done|]. unfold len in Hl. lia. Qed.

Definition owner : consistencyDomainRef := TreeExamples.owner.
Definition first_world : World := {| log := []; now := 1700000000 * second; offers := [] |}.

Definition put_value (key value : gostring) (require : Z) (version : gostring) : consistencyDomainChange :=
  {| Key := key; Require := require; ExpectedVersion := version; Delete := false; Value := Some value |}.
Definition mutation_of (id : gostring) (changes : list consistencyDomainChange) : consistencyDomainMutation :=
  {| ID := id; TransitionID := []; RetainUntil := zero_time; Changes := changes; Result := Some (bs "done"); ExpectedRevision := None |}.

Definition first_mutation : consistencyDomainMutation :=
  mutation_of "m1" [put_value "b" "two" domainValueAbsent []; put_value "a" "one" domainValueAny []].

Abbreviation run_first := (mutateAtHead owner 4 first_mutation None first_world).
Definition second_world : World := snd run_first.

Definition owner_key : ObjectStore.Key := match head_key owner with Ok key => key | Err _ => {| key_value := [] |} end.

Lemma owner_key_eq : head_key owner = Ok owner_key.
Proof. vm_compute. reflexivity. Qed.

Lemma first_world_ok : world_ok owner first_world.
Proof. apply empty_world_ok. Qed.

Lemma run_first_eq : run_first = (fst run_first, second_world).
Proof. apply surjective_pairing. Qed.

Lemma second_world_ok : world_ok owner second_world.
Proof.
  destruct (mutate_ok owner (world_rivals owner) 4 first_mutation None first_world _ _ first_world_ok ltac:(done) run_first_eq) as [K _].
  exact (keeps_world owner (world_rivals owner) _ _ _ K first_world_ok).
Qed.

(** The run succeeds, the repeated mutation is answered from the record, and an
    unmet precondition is an error. *)
Definition outcome_summary (x : res consistencyDomainOutcome) : option (Z * bool) :=
  match x with Ok o => Some (Revision o, Replayed o) | Err _ => None end.

Example first_commits : outcome_summary (fst run_first) = Some (1, false).
Proof. vm_compute. reflexivity. Qed.
Example first_replayed : outcome_summary (fst (mutate owner 4 first_mutation second_world)) = Some (1, true).
Proof. vm_compute. reflexivity. Qed.
Definition error_kind {A} (x : res A) : option ErrorKind := match x with Ok _ => None | Err e => Some (KindOf e) end.
Example second_refused :
  error_kind (fst (mutate owner 4 (mutation_of "m2" [put_value "b" "x" domainValueAbsent []]) second_world)) = Some ErrorConflict.
Proof. vm_compute. reflexivity. Qed.
Example second_commits :
  outcome_summary (fst (mutate owner 4 (mutation_of "m2" [put_value "b" "x" domainValuePresent []]) second_world)) = Some (2, false).
Proof. vm_compute. reflexivity. Qed.

(** The value of a run that succeeds; states are never evaluated as a whole. *)
Definition ok_value {A} (d : A) (x : res A) : A := match x with Ok a => a | Err _ => d end.

Lemma run_ok {A} (d : A) (run : res A * World) : is_Ok (fst run) = true → run = (Ok (ok_value d (fst run)), snd run).
Proof. destruct run as [[]]; [reflexivity|discriminate]. Qed.

Lemma ok_pair {A C} (d : A * C) (x : res (A * C)) : is_Ok x = true → x = Ok (fst (ok_value d x), snd (ok_value d x)).
Proof. destruct x as [[]|]; [reflexivity|discriminate]. Qed.

Lemma ok_triple {A C D} (d : A * C * D) (x : res (A * C * D)) :
  is_Ok x = true → x = Ok (fst (fst (ok_value d x)), snd (fst (ok_value d x)), snd (ok_value d x)).
Proof. destruct x as [[[]]|]; [reflexivity|discriminate]. Qed.

Lemma run_unit {S} (run : res unit * S) : is_Ok (fst run) = true → run = (Ok tt, snd run).
Proof. destruct run as [[[]|]]; [reflexivity|discriminate]. Qed.

(** ** Witnesses *)

Lemma second_free : collision_free second_world.
Proof. apply free_check_sound. vm_compute. reflexivity. Qed.

Definition first_outcome : consistencyDomainOutcome :=
  ok_value {| MutationID := []; Fingerprint := []; Revision := 0; Retained := 0; Answer := None; Replayed := true |} (fst run_first).

Lemma first_outcome_eq : fst run_first = Ok first_outcome.
Proof. unfold first_outcome, ok_value. destruct (fst run_first) as [o|e] eqn:E; [reflexivity|]. exfalso. revert E. vm_compute. discriminate. Qed.

Lemma mutate_refines_witness :
  (∃ a, at_head owner second_world a) ∧
  (∃ tr, happens owner first_world tr second_world ∧ Forall (executes first_mutation) tr) ∧
  ∃ m' f t b1 b2, intends first_mutation m' f ∧ performed owner (Committed m' f 1 t) b1 b2 ∧ evolves owner b2 [] second_world.
Proof.
  destruct (mutate_refines owner (world_rivals owner) 4 first_mutation None first_world second_world (fst run_first)) as (Hw & K & Ho).
  - exact first_world_ok.
  - discriminate.
  - exact run_first_eq.
  - split; [|split].
    + apply (head_settled owner _ Hw); vm_compute; reflexivity.
    + exact (keeps_happens owner _ _ _ K second_free).
    + destruct (Ho _ first_outcome_eq) as (m' & f & Hi & [[Hr _]|(b0 & n & t & _ & Hev & Ec)]).
      { exfalso. revert Hr. vm_compute. discriminate. }
      assert (n = 1) as ->. { apply (f_equal Revision) in Ec. exact (eq_sym Ec). }
      destruct (evolves_one owner _ _ _ Hev) as (k & b1 & b2 & _ & Hev2 & Hrep & Hp). exists m', f, t, b1, b2. split; [exact Hi|]. split; [|exact Hev2].
      apply Hp. apply (af_free owner _ _ (after_replaced owner _ _ _ Hrep)), (af_free owner _ _ (evolves_after owner _ _ _ Hev2)), second_free.
Defined.

Abbreviation run_freeze := (DomainStore.freeze owner 4 7 second_world).
Definition frozen_world : World := snd run_freeze.

Lemma frozen_world_ok : world_ok owner frozen_world.
Proof.
  destruct (freeze_ok owner (world_rivals owner) 4 7 second_world (fst run_freeze) frozen_world) as [K _];
    [unfold u64_ok, MaxUint64; lia|exact second_world_ok|apply surjective_pairing|].
  exact (keeps_world owner (world_rivals owner) _ _ _ K second_world_ok).
Qed.

Lemma frozen_free : collision_free frozen_world.
Proof. apply free_check_sound. vm_compute. reflexivity. Qed.


Abbreviation run_unfreeze := (unfreeze owner 4 7 frozen_world).

Lemma unfreeze_refines_witness :
  is_Ok (fst run_unfreeze) = true ∧ (∀ u, fst run_unfreeze = Ok u → seen_at owner 0 (snd run_unfreeze)).
Proof.
  split; [vm_compute; reflexivity|].
  refine (proj2 (proj2 (unfreeze_refines owner (world_rivals owner) 4 7 frozen_world (snd run_unfreeze) (fst run_unfreeze) frozen_world_ok _))).
  apply surjective_pairing.
Defined.

Definition history_calls : list call := [CallMutate 4 first_mutation; CallCompact; CallFreeze 4 7; CallUnfreeze 4 7].

Abbreviation run_calls := (foldl (flip (perform owner)) first_world history_calls).

Lemma calls_keep_head_well_formed_witness : (∃ a, at_head owner run_calls a) ∧ ∃ tr, happens owner first_world tr run_calls.
Proof.
  destruct (calls_keep_head_well_formed owner (world_rivals owner) history_calls first_world first_world_ok) as (Hw & tr & Hev).
  - repeat constructor; unfold u64_ok, MaxUint64; lia.
  - split.
    + apply (head_settled owner _ Hw); vm_compute; reflexivity.
    + exists tr. apply (evolves_happens owner _ _ _ Hev). apply free_check_sound. vm_compute. reflexivity.
Defined.

Abbreviation run_get := (get_ owner "a" second_world).
Definition value_a : consistencyDomainValue :=
  ok_value {| Value_Data := None; Value_LogicalVersion := []; Value_Revision := 0 |} (fst run_get).

Lemma get_correct_witness :
  Value_Data value_a = Some (bs "one") ∧
  ∃ b1 a e, blob_le second_world b1 ∧ at_head owner b1 (Some a) ∧ values a !! bs "a" = Some e ∧ StoreRead.plain value_a = TreeRead.value_of e.
Proof.
  split; [vm_compute; reflexivity|].
  destruct (get_correct owner (world_rivals owner) "a" second_world (snd run_get) value_a second_world_ok) as (b1 & H1 & H2 & Hx).
  - apply run_ok. vm_compute. reflexivity.
  - destruct Hx as (a & e & Ha & _ & _ & He & Hv); [apply free_check_sound; vm_compute; reflexivity|].
    exists b1, a, e. split; [exact H1|]. split; [exact Ha|]. split; [exact He|exact Hv].
Defined.

(** The head that the first mutation left. *)
Abbreviation run_load := (loadHead owner second_world).
Definition second_head : consistencyDomainHeadSnapshot := ok_value no_snapshot (fst run_load).

Lemma run_load_eq : run_load = (Ok second_head, snd run_load).
Proof. apply run_ok. vm_compute. reflexivity. Qed.

Lemma second_head_ok : snapshot_ok owner (snd run_load) second_head.
Proof. exact (proj2 (load_ok owner (world_rivals owner) _ _ _ second_world_ok run_load_eq) _ eq_refl). Qed.

Lemma loaded_world_ok : world_ok owner (snd run_load).
Proof. exact (world_rivals owner _ _ (proj1 (load_ok owner (world_rivals owner) _ _ _ second_world_ok run_load_eq)) second_world_ok). Qed.

Abbreviation run_compact := (compactSnapshot owner second_head (snd run_load)).

(** What happens without an event leaves the head. *)
Lemma quiet_heads (b b' : World) tr key : evolves owner b tr b' → tr = [] → head_key owner = Ok key → heads b' !! key_value key = heads b !! key_value key.
Proof.
  induction 1 as [|b b1 tr b2 Hle _ IH|k b b1 tr b2 Hr Hk _ IH|]; intros Etr Ek; [reflexivity|..|discriminate Etr].
  - rewrite (IH Etr Ek). destruct Hle as (_ & Eh & _). cbn. by rewrite Eh.
  - rewrite (IH Etr Ek). apply (rp_heads _ _ _ Hr). intros E. exact (Hk owner key Ek E).
Qed.

Lemma compacted_free : collision_free (snd run_compact).
Proof. apply free_check_sound. vm_compute. reflexivity. Qed.

Lemma compact_refines_witness :
  (∃ a, at_head owner (snd run_compact) a) ∧ happens owner (snd run_load) [Compacted] (snd run_compact).
Proof.
  destruct (compact_refines owner (world_rivals owner) second_head (snd run_load) (snd run_compact) (fst run_compact)) as (Hw & tr & Hev & Htr).
  - exact loaded_world_ok.
  - exact second_head_ok.
  - apply surjective_pairing.
  - split; [apply (head_settled owner _ Hw); vm_compute; reflexivity|]. destruct Htr as [Htr| ->].
    + exfalso. pose proof (quiet_heads _ _ _ _ Hev Htr owner_key_eq) as E. revert E. vm_compute. discriminate.
    + exact (evolves_happens owner _ _ _ Hev compacted_free).
Defined.

Abbreviation run_list := (listAtHead owner (head second_head) [] "a" 5 second_world).

Definition listed : list gostring := map Entry_Key (ok_value [] (fst run_list)).

Lemma list_correct_witness :
  listed = [bs "b"] ∧ fst run_list = Ok (take 5 (StoreList.listing [] "a" (clone_entry <$> StoreRead.contents (head second_head) []))).
Proof.
  split; [vm_compute; reflexivity|].
  destruct (list_correct owner (head second_head) [] [] "a" 5 second_world (snd run_list) (fst run_list)) as [_ Hx].
  - left. split; [vm_compute; reflexivity|reflexivity].
  - lia.
  - vm_compute. discriminate.
  - apply surjective_pairing.
  - destruct Hx as [Hx|(e & _ & [])]; [apply free_check_sound; vm_compute; reflexivity|exact Hx].
Defined.

Definition empty_head : DomainHead := initial_head owner true.
Definition empty_body : gostring := match encodeHead owner_key no_snapshot empty_head with Ok body => body | Err _ => [] end.

Lemma encodeHead_roundtrip_witness : ∃ env, DecodeEnvelope empty_body owner_key domainHeadSchema = Ok (env, empty_head).
Proof.
  apply (encodeHead_roundtrip owner owner_key no_snapshot empty_head empty_body).
  - exact owner_key_eq.
  - vm_compute. reflexivity.
  - apply initial_typed.
  - vm_compute. reflexivity.
Defined.


Definition normal_first : consistencyDomainMutation := with_changes first_mutation (reverse (Changes first_mutation)).
Definition first_fingerprint : gostring := match normalizeConsistencyDomainMutation first_mutation with Ok (_, f) => f | Err _ => [] end.

Lemma normalize_order_irrelevant_witness :
  normalizeConsistencyDomainMutation normal_first = Ok (normal_first, first_fingerprint) ∧
  Changes normal_first ≡ₚ Changes first_mutation ∧ StronglySorted bytes_lt (map Key (Changes normal_first)).
Proof.
  apply (normalize_order_irrelevant first_mutation normal_first normal_first first_fingerprint).
  - vm_compute. reflexivity.
  - reflexivity.
  - apply reverse_Permutation.
Defined.

Lemma expiry_key_order_witness :
  parseConsistencyDomainExpiryTime (consistencyDomainOutcomeExpiryKey (1700000000 * second) "m1") = 1700000000 * second.
Proof.
  refine (proj1 (expiry_key_order (1700000000 * second) (1700000001 * second) "m1" "m2" _ _)); vm_compute; reflexivity.
Defined.

(** ** Outcomes *)

Definition old_time : Z := 1700000000 * second.
Definition new_time : Z := 1800000000 * second.
(** A left-over entry of the expiry index for ["m1"]. *)
Definition stale_entry : DomainEntry :=
  {| Entry_Key := consistencyDomainOutcomeExpiryKey old_time "m1"; Entry_Value := Some (bs "m1"); Entry_LogicalVersion := "x" |}.
(** The stored outcome of the renewed ["m1"]. *)
Definition renewed : DomainOutcome :=
  {| Outcome_MutationID := "m1"; Outcome_Fingerprint := first_fingerprint; Outcome_Revision := 9; Outcome_RetainUntil := new_time;
     Outcome_Result := None |}.
Definition renewed_entry : DomainEntry :=
  {| Entry_Key := "m1"; Entry_Value := Some (ok_value [] (encode_document renewed)); Entry_LogicalVersion := "y" |}.
Definition pruned_first : change_index * change_index := ok_value (∅, ∅) (prune_loop (old_time + 1) [stale_entry] ∅ ∅).

(** At a time the stored outcome is live. *)
Lemma prune_drops_renewed_outcome_witness :
  StoreFold.find_live (old_time + 1) (entry_outcomes (entries_map [renewed_entry] !! bs "m1")) = Some renewed ∧
  TreeEdit.change_map (normalizeDomainChangeMap (fst pruned_first)) (entries_map [renewed_entry]) !! bs "m1" = None.
Proof.
  split; [vm_compute; reflexivity|].
  apply (prune_drops_renewed_outcome (old_time + 1) stale_entry "m1" (fst pruned_first) (snd pruned_first) [renewed_entry]).
  - split; [reflexivity|]. vm_compute. discriminate.
  - apply ok_pair. vm_compute. reflexivity.
Defined.

(** The first mutation is compacted; sixty days later, when its outcome has
    expired, a second one is committed and compacted. *)
Definition compacted_world : World := snd (compact owner second_world).
Definition later (w : World) : World := {| log := log w; now := now w + 60 * 86400 * second; offers := offers w |}.
Definition second_mutation : consistencyDomainMutation := mutation_of "m2" [put_value "c" "three" domainValueAny []].
Abbreviation run_second := (mutateAtHead owner 4 second_mutation None (later compacted_world)).
Definition full_world : World := snd run_second.
Abbreviation run_full := (loadHead owner full_world).
Definition full_head : consistencyDomainHeadSnapshot := ok_value no_snapshot (fst run_full).
Abbreviation run_prune := (compactSnapshot owner full_head (snd run_full)).
Definition pruned_world : World := snd run_prune.

Lemma later_world_ok w : world_ok owner w → world_ok owner (later w).
Proof. apply world_rivals. split; [done|]. split; [done|]. split; [done|]. split; [|done]. cbn. unfold second. lia. Qed.

Lemma full_world_ok : world_ok owner full_world.
Proof.
  destruct (mutate_ok owner (world_rivals owner) 4 second_mutation None (later compacted_world) (fst run_second) full_world) as [K _].
  - apply later_world_ok. exact (keeps_world owner (world_rivals owner) _ _ _ (compact_keeps owner (world_rivals owner) _ _ _ second_world_ok (surjective_pairing _)) second_world_ok).
  - done.
  - apply surjective_pairing.
  - exact (keeps_world owner (world_rivals owner) _ _ _ K (later_world_ok _ (keeps_world owner (world_rivals owner) _ _ _ (compact_keeps owner (world_rivals owner) _ _ _ second_world_ok (surjective_pairing _)) second_world_ok))).
Qed.

Lemma run_full_eq : run_full = (Ok full_head, snd run_full).
Proof. apply run_ok. vm_compute. reflexivity. Qed.

(** The outcome found at the head of a world. *)
Definition outcome_at (id : gostring) (w : World) : option (option Z) :=
  match fst (loadHead owner w) with
  | Ok sn => match fst (lookupOutcomeAtHead owner (head sn) id w) with Ok o => Some (Revision <$> o) | Err _ => None end
  | Err _ => None
  end.

Example outcomes_pruned :
  outcome_at "m1" compacted_world = Some (Some 1) ∧ Head_Deltas (head full_head) ≠ [] ∧ Root_EntryCount (Head_Outcomes (head full_head)) = 1 ∧
  outcome_at "m1" pruned_world = Some None ∧ outcome_at "m2" pruned_world = Some (Some 2).
Proof. vm_compute. repeat split. discriminate. Qed.

Lemma pruned_free : collision_free pruned_world.
Proof. apply free_check_sound. vm_compute. reflexivity. Qed.


(** ** A tree that is flushed and read by another session *)

Section Tree.
#[local] Remove Hints SessionLaws.session_pages SessionLaws.session_view SessionLaws.session_read_laws SessionLaws.session_laws reader_view reader_laws : typeclass_instances.
#[local] Instance writer_pages : PageStore (Session World) := domain_pages owner.
Abbreviation writer_view := (SessionLaws.session_view owner (session_pageKey owner) (session_packKey owner)).

Definition writer : Session World := set_packedWrites "head-1" (newSession first_world).
Abbreviation run_write := (apply_ empty_root TreeExamples.first_changes writer).
Definition written_root : DomainTreeRoot := TreeExamples.ok_root (fst run_write).
Definition written : Session World := snd run_write.

Lemma written_inv : SessionLaws.session_inv owner (session_pageKey owner) (session_packKey owner) written.
Proof.
  pose proof (SessionLaws.session_laws owner (session_pageKey owner) (session_packKey owner) (page_key_blob owner) (pack_key_blob owner)) as Hlaws.
  refine (proj1 (proj1 (TreeEdit.apply_spec (PageView0 := writer_view) writer empty_root TreeExamples.first_changes (fst run_write) written _ _))).
  - apply SessionLaws.session_inv_packed.
  - apply surjective_pairing.
Qed.

Lemma written_holds : holds (PageView0 := writer_view) written written_root TreeExamples.entries_ab.
Proof.
  right. split; [vm_compute; discriminate|]. exists 0%nat, (leaf_page TreeExamples.entries_ab). split; [|done]. split.
  - right. split; [vm_compute; reflexivity|]. split; [vm_compute; discriminate|]. split; [vm_compute; reflexivity|].
    apply (SessionLaws.si_pending _ _ _ _ written_inv). vm_compute. reflexivity.
  - vm_compute. reflexivity.
Qed.

Abbreviation run_flush := (flushPack None owner (session_packKey owner) written).
Definition flushed_world : World := backend (snd run_flush).

Lemma run_flush_eq : run_flush = (Ok tt, snd run_flush).
Proof. apply run_unit. vm_compute. reflexivity. Qed.

Lemma flush_durable_witness :
  tree_holds owner (session_pageKey owner) (session_packKey owner) flushed_world written_root TreeExamples.entries_ab.
Proof. exact (flush_durable owner written (snd run_flush) written_root TreeExamples.entries_ab tt written_inv written_holds run_flush_eq). Defined.

#[local] Instance owner_view : PageView (Session World) := reader_view owner (session_pageKey owner) (session_packKey owner).
#[local] Instance owner_laws : PageReadLaws (Session World) :=
  reader_laws owner (session_pageKey owner) (session_packKey owner) (page_key_blob owner) (pack_key_blob owner).
#[local] Instance owner_cache : IteratorTheory.PageCacheLaws (Session World) :=
  IteratorTheory.reader_cache owner (session_pageKey owner) (session_packKey owner).

Definition reader : Session World := newSession flushed_world.
Abbreviation run_iterate := ((frames ← TreeIterator.newIterator written_root; IteratorTheory.drain 3 frames) reader).

Lemma reader_holds : holds reader written_root TreeExamples.entries_ab.
Proof.
  destruct (PackTheory.flush_spec owner _ _ (pack_key_blob owner) _ _ _ written_inv run_flush_eq) as (Hstep & _ & _ & Hfl).
  apply (holds_stored owner (session_pageKey owner) (session_packKey owner)); [exact (Hfl tt eq_refl)|].
  eapply holds_extends; [|exact written_holds]. by apply SessionLaws.session_step_grows in Hstep as [_ ?].
Qed.

Lemma iterator_enumerates_witness :
  ok_value [] (fst run_iterate) = clone_entry <$> TreeExamples.entries_ab ∧ grows reader (snd run_iterate).
Proof.
  split; [vm_compute; reflexivity|].
  refine (proj1 (IteratorTheory.iterator_enumerates written_root TreeExamples.entries_ab reader (snd run_iterate) (fst run_iterate) _ reader_holds _)).
  - apply reader_new.
  - apply surjective_pairing.
Defined.
End Tree.
End StoreExamples.

(** * Trees streamed and merged

    Two runs are streamed to a fresh object store and merged. *)

Module StreamExamples.
Import StorageFormat PageTheory TreeWrite DomainTree TreeTheory TreeRead DomainPack DomainSession DomainProvider DomainStore SessionReader TreeBuilder TreeMerge BuilderTheory SessionStream StreamProps StoreLaws StoreWorld StoreExamples.

#[local] Existing Instances sha256_store sha256_store_laws gzip_store gzip_store_laws.
#[local] Remove Hints SessionLaws.session_pages SessionLaws.session_view SessionLaws.session_read_laws SessionLaws.session_laws reader_view reader_laws : typeclass_instances.
#[local] Instance run_pages : PageStore (Session World) := SessionLaws.session_pages owner (session_pageKey owner) (session_packKey owner).

Definition entry_of (key value : gostring) : DomainEntry := {| Entry_Key := key; Entry_Value := Some value; Entry_LogicalVersion := "v1" |}.
Definition run_one : list DomainEntry := [entry_of "a" "1"; entry_of "d" "4"].
Definition run_two : list DomainEntry := [entry_of "b" "2"; entry_of "c" "3"; entry_of "e" "5"].

Definition streaming : Session World := newSession first_world.

Lemma streaming_inv : stream_inv owner (session_pageKey owner) (session_packKey owner) streaming.
Proof. apply stream_new. Qed.

Abbreviation run_stream := ((b ← add_all newConsistencyDomainTreeBuilder run_two; Finish b) streaming).
Definition streamed_root : DomainTreeRoot := TreeExamples.ok_root (fst run_stream).

Lemma streamed_tree_witness :
  Root_EntryCount streamed_root = 3 ∧ tree_holds owner (session_pageKey owner) (session_packKey owner) (backend (snd run_stream)) streamed_root run_two.
Proof.
  split; [vm_compute; reflexivity|].
  destruct (streamed_tree owner (session_pageKey owner) (session_packKey owner) (page_key_blob owner) (pack_key_blob owner) run_two streaming (snd run_stream) streamed_root streaming_inv)
    as (_ & Hh & _).
  - apply (TreeExamples.run_succeeds run_stream). vm_compute. reflexivity.
  - apply Hh. apply free_check_sound. vm_compute. reflexivity.
Defined.

(** The streamed tree, read again. *)
Example streamed_read :
  StoreExamples.ok_value [] (fst ((frames ← TreeIterator.newIterator streamed_root; IteratorTheory.drain 4 frames) (newSession (backend (snd run_stream))))) = run_two.
Proof. vm_compute. reflexivity. Qed.

Abbreviation run_fill := (add_all newConsistencyDomainTreeBuilder run_two streaming).
Definition filled : consistencyDomainTreeBuilder := StoreExamples.ok_value newConsistencyDomainTreeBuilder (fst run_fill).

Lemma builder_leaf_exact_witness :
  builder_leaf filled = run_two ∧ leafCanonicalBytes filled = len (json_page (leaf_page run_two)).
Proof.
  assert (builder_leaf filled = run_two) as Hl by (vm_compute; reflexivity). split; [exact Hl|]. rewrite <-Hl.
  refine (proj1 (proj2 (builder_leaf_exact run_two (entry_of "f" "6") streaming (snd run_fill) filled _ _))).
  - vm_compute. reflexivity.
  - rewrite Hl. discriminate.
Defined.

(** ** Two runs of one page each *)

Abbreviation first_run := (publish (leaf_page run_one) streaming).
Definition no_ref : domainPageRef := root_ref empty_root.
Definition ref_one : domainPageRef := StoreExamples.ok_value no_ref (fst first_run).
Definition streaming_one : Session World := snd first_run.
Abbreviation second_run := (publish (leaf_page run_two) streaming_one).
Definition ref_two : domainPageRef := StoreExamples.ok_value no_ref (fst second_run).
Definition streaming_two : Session World := snd second_run.
Definition both_runs : list DomainTreeRoot := [ref_root ref_one; ref_root ref_two].

Abbreviation run_view := (stream_view owner (session_pageKey owner) (session_packKey owner)).
#[local] Instance run_laws : PageStoreLaws (PageView0 := run_view) (Session World) :=
  stream_laws owner (session_pageKey owner) (session_packKey owner) (page_key_blob owner) (pack_key_blob owner).
#[local] Instance run_cache : IteratorTheory.PageCacheLaws (PageView0 := run_view) (Session World) := stream_cache owner (session_pageKey owner) (session_packKey owner).

(** A page that was published is a tree of its own. *)
Lemma published es (s : Session World) r s' : stream_inv owner (session_pageKey owner) (session_packKey owner) s → TreeWrite.session_page (leaf_page es) →
  publish (leaf_page es) s = (Ok r, s') → Root_Digest (ref_root r) ≠ [] →
  stream_inv owner (session_pageKey owner) (session_packKey owner) s' ∧ blob_le (backend s) (backend s') ∧
  tree_holds owner (session_pageKey owner) (session_packKey owner) (backend s') (ref_root r) es.
Proof.
  intros Hs Hp E Hd. destruct (publish_ok (PageView0 := run_view) _ _ _ _ Hs Hp E) as [Hg Hr]. destruct (Hr r eq_refl) as [Href _].
  split; [apply Hg|]. split; [apply Hg|]. apply (proj1 (stream_holds _ _ _ _ _ _)). right. split; [exact Hd|]. exists 0%nat.
  apply TreeEdit.represents_root. exists (leaf_page es). by split.
Qed.

Lemma run_published {S} (run : res domainPageRef * S) : is_Ok (fst run) = true → run = (Ok (StoreExamples.ok_value no_ref (fst run)), snd run).
Proof. by destruct run as [[]]. Qed.

Lemma run_page es : session_page (leaf_page es).
Proof. split; [|by split]. split; [cbn; unfold MaxInt64; lia|constructor]. Qed.

Lemma first_published :
  stream_inv owner (session_pageKey owner) (session_packKey owner) streaming_one ∧ blob_le (backend streaming) (backend streaming_one) ∧
  tree_holds owner (session_pageKey owner) (session_packKey owner) (backend streaming_one) (ref_root ref_one) run_one.
Proof.
  refine (published run_one streaming ref_one streaming_one streaming_inv _ _ _).
  - apply run_page.
  - refine (run_published first_run _). vm_compute. reflexivity.
  - vm_compute. discriminate.
Qed.

Lemma second_published :
  stream_inv owner (session_pageKey owner) (session_packKey owner) streaming_two ∧ blob_le (backend streaming_one) (backend streaming_two) ∧
  tree_holds owner (session_pageKey owner) (session_packKey owner) (backend streaming_two) (ref_root ref_two) run_two.
Proof.
  refine (published run_two streaming_one ref_two streaming_two (proj1 first_published) _ _ _).
  - apply run_page.
  - refine (run_published second_run _). vm_compute. reflexivity.
  - vm_compute. discriminate.
Qed.

Abbreviation run_merge := (merge_runs both_runs streaming_two).
Definition merged_root : DomainTreeRoot := TreeExamples.ok_root (fst run_merge).

(** All five entries, in order. *)
Example merged_read :
  Entry_Key <$> StoreExamples.ok_value [] (fst ((frames ← TreeIterator.newIterator merged_root; IteratorTheory.drain 6 frames) (newSession (backend (snd run_merge))))) =
  (bs <$> ["a"; "b"; "c"; "d"; "e"])%string.
Proof. vm_compute. reflexivity. Qed.

(** A key that is in two runs is refused. *)
Example merge_refuses :
  StoreExamples.error_kind (fst (merge_runs [ref_root ref_one; ref_root ref_one] streaming_two)) = Some ErrorInvalid.
Proof. vm_compute. reflexivity. Qed.

Abbreviation run_open := (TreeMerge.open_runs 0 both_runs [] streaming_two).
Definition opened := StoreExamples.ok_value ([], []) (fst run_open).
Abbreviation merge_from fuel := (TreeMerge.merge_loop fuel (merge_start (fst opened) (snd opened)) (snd run_open)).

Lemma merged_runs_witness :
  Root_EntryCount merged_root = 5 ∧
  (∃ es, tree_holds owner (session_pageKey owner) (session_packKey owner) (backend (snd run_merge)) merged_root es ∧ sorted_entries es ∧
     map clone_entry es ≡ₚ map clone_entry (run_one ++ run_two)) ∧
  merge_from (100 + TreeMerge.merge_fuel both_runs)%nat = merge_from (TreeMerge.merge_fuel both_runs).
Proof.
  split; [vm_compute; reflexivity|].
  destruct (merged_runs owner (session_pageKey owner) (session_packKey owner) (page_key_blob owner) (pack_key_blob owner)
    both_runs [run_one; run_two] streaming_two (snd run_merge) merged_root) as (_ & Hes & _ & Hfuel).
  - exact (proj1 second_published).
  - apply List.Forall2_cons; [|apply List.Forall2_cons; [exact (proj2 (proj2 second_published))|apply List.Forall2_nil]].
    exact (tree_holds_le owner _ _ _ _ _ _ (proj1 (proj2 second_published)) (proj2 (proj2 first_published))).
  - refine (TreeExamples.run_succeeds run_merge _). vm_compute. reflexivity.
  - split; [apply Hes; apply free_check_sound; vm_compute; reflexivity|].
    apply Hfuel; [|lia|apply free_check_sound; vm_compute; reflexivity].
    unfold opened. destruct run_open as [[[iterators values]|e] t] eqn:E; [reflexivity|]. exfalso. apply (f_equal (λ x, is_Ok (fst x))) in E. revert E. vm_compute. discriminate.
Defined.
End StreamExamples.
