(* ===== verification/EngineExamples.v ===== *)
(** * The engine at work

    The state store runs on the one-process backend, and on one with a rival;
    the theorems on the engine are applied to what it does. *)

From Stdlib Require Import ZArith Lia.
From S2P Require Import Prelude GoLib GoHash GoJSON GoTime Errors StateStore ObjectStore DomainPage DomainPageTheory DomainTree TreeTheory TreeRead TreeEdit DomainPack DomainHead TransitionFormat DomainSession TreeStream DomainProvider DomainCatalog StateRoute DomainStore EngineTransition EngineState EngineList HeadTheory RecordTheory SessionLaws PackTheory SessionReader StoreLaws StoreRead StoreSpec StoreCommit StoreMutate StoreList EngineSpec TransitionTheory EngineTheory ListTheory EngineProps StoreWorld EngineWorld TreeExamples.

Open Scope Z_scope.

Module EngineExamples.
Import ObjectStore StorageFormat DomainTree DomainPack DomainHead TransitionFormat HeadTheory DomainSession DomainProvider DomainStore StateRoute EngineTransition EngineState SessionReader StoreLaws StoreSpec StoreCommit StoreMutate EngineSpec TransitionTheory EngineTheory EngineProps StoreWorld EngineWorld.

#[local] Instance sha256_engine : SHA256 := TreeExamples.checksum.
#[local] Instance sha256_engine_laws : SHA256Laws.
Proof. intros s. unfold sha256, sha256_engine, TreeExamples.checksum. by rewrite put_be_length. Qed.
#[local] Instance gzip_engine : GZIP := TreeExamples.gzip_example.
#[local] Instance gzip_engine_laws : GZIPLaws.
Proof. split. intros data limit Hl. cbn. rewrite take_ge; [done|]. unfold len in Hl. lia. Qed.

Definition key_of (ns : State.Namespace) (parts : list gostring) : State.Key :=
  match State.NewKey ns parts with Ok k => k | Err _ => {| State.key_value := [] |} end.
Definition ref_of (key : State.Key) : consistencyDomainRef :=
  match stateDomainReferenceForKey key with Ok r => r | Err _ => {| Ref_Kind := []; Ref_ID := [] |} end.

(** Two records of different owners: two domains. *)
Definition user1 : State.Key := key_of State.NamespaceUsers [bs "u1"].
Definition user2 : State.Key := key_of State.NamespaceUsers [bs "u2"].
Definition user3 : State.Key := key_of State.NamespaceUsers [bs "u3"].

Definition first_world : World := {| log := []; now := 1700000000 * second; offers := [] |}.
Definition create_one : single_write := WriteCreate user1 "one".
Definition create_two : single_write := WriteCreate user2 "two".
Definition run_user1 := write_call 8 4 create_one first_world.
Definition run_user2 := write_call 8 4 create_two (snd run_user1).
Definition users_world : World := snd run_user2.

Definition ok_value {A} (d : A) (x : res A) : A := match x with Ok a => a | Err _ => d end.
Definition error_kind {A} (x : res A) : option ErrorKind := match x with Ok _ => None | Err e => Some (KindOf e) end.

Definition swap (key : State.Key) (version data : gostring) : State.Change :=
  {| State.Change_Key := key; State.Change_Requirement := State.RequirementPresent; State.Change_ExpectedVersion := version;
     State.Change_Delete := false; State.Change_Data := data |}.
Definition transaction : State.Mutation :=
  {| State.Mutation_ID := "t1"; State.Mutation_RetainUntil := zero_time;
     State.Mutation_Changes := [swap user1 (ok_value [] (fst run_user1)) "uno"; swap user2 (ok_value [] (fst run_user2)) "due"];
     State.Mutation_Result := [] |}.

(** ** A rival between validation and lock *)

Definition stored_value (key : State.Key) (data : gostring) : option gostring :=
  match encodeStateValue009 key data with Ok body => Some body | Err _ => None end.
Definition rival_write (id : gostring) (key : State.Key) (data : gostring) : consistencyDomainMutation :=
  {| ID := id; TransitionID := []; RetainUntil := zero_time;
     Changes := [{| Key := State.key_value key; Require := domainValueAny; ExpectedVersion := []; Delete := false; Value := stored_value key data |}];
     Result := None; ExpectedRevision := None |}.

(** Another process replaces [user2] just before its lock is committed. *)
Definition contested : Contested :=
  {| world := users_world;
     script := [{| rival_step := StepTransitionAfterParticipantPrepared; rival_domain := ref_of user3; rival_mutation := rival_write "r0" user3 "three" |};
                {| rival_step := StepDomainBeforeHeadCommit; rival_domain := ref_of user2; rival_mutation := rival_write "r1" user2 "zwei" |}] |}.
Definition run_contested := Transact 8 4 transaction contested.
Definition wedged : Contested := snd run_contested.

Definition data_of (x : res State.Value) : option gostring := match x with Ok v => Some (State.Value_Data v) | Err _ => None end.
(** What the head of a record's domain shows, locked or not. *)
Definition values_shown (key : State.Key) (w : World) : option gostring :=
  match fst (loadHead (ref_of key) w) with
  | Ok sn => match fst (lookupAtHead (ref_of key) (head sn) (State.key_value key) w) with
             | Ok (Some v) => match decodeStateValue009 key (default [] (Value_Data v)) with Ok data => Some data | Err _ => None end
             | _ => None
             end
  | Err _ => None
  end.


(** A run in which a transaction over two domains is not atomic: another process
    replaces a record between the check of its precondition and the placement of
    the lock.  The lock is placed on the new head without checking again, the
    transition is decided to commit, the first participant applies its change and
    the second does not; after it a read of the second record and a retry of the
    transaction fail. *)
Example prepare_race_breaks_atomicity :
  error_kind (fst run_contested) = Some ErrorUnavailable ∧
  values_shown user1 (world wedged) = Some (bs "uno") ∧ values_shown user2 (world wedged) = Some (bs "zwei") ∧
  error_kind (fst (EngineState.Get 8 4 user2 wedged)) = Some ErrorUnavailable ∧
  error_kind (fst (Transact 8 4 transaction wedged)) = Some ErrorUnavailable.
Proof. vm_compute. repeat split. Qed.

(** ** A process that stopped after locking *)

Definition normal_transaction : State.Mutation * gostring :=
  ok_value (transaction, []) (a ← State.NormalizeMutation transaction;
    cs ← wrap_changes (State.Mutation_Changes (fst a));
    State.NormalizeMutation {| State.Mutation_ID := State.Mutation_ID transaction; State.Mutation_RetainUntil := State.Mutation_RetainUntil transaction;
                               State.Mutation_Changes := cs; State.Mutation_Result := State.Mutation_Result transaction |}).
Definition no_plan : TransitionPlan009 :=
  {| Plan_SchemaVersion := 0; Plan_TransitionID := []; Plan_Fingerprint := []; Plan_RetainUntil := 0; Plan_Participants := []; Plan_Result := None |}.
Definition run_plan := transitionPlan009 (fst normal_transaction) (snd normal_transaction) users_world.
Definition plan : TransitionPlan009 := ok_value no_plan (fst run_plan).
Definition planned_world : World := snd (createOrReadTransitionPlan009 plan users_world).
Abbreviation run_prepare := (prepare_all 8 (helpTransition009 8 4) plan (Plan_Participants plan) planned_world).
Definition locked_world : World := snd run_prepare.

Example both_locked :
  fst run_prepare = Ok None ∧ length (Plan_Participants plan) = 2%nat ∧
  match fst (get_ (ref_of user1) (State.key_value user1) locked_world) with Ok _ => false | Err e => transition_pending e end = true.
Proof. vm_compute. repeat split. Qed.

(** Helped to its end by a read, the transition commits. *)
Definition helped := EngineState.Get 8 4 user2 locked_world.
Example read_helps : data_of (fst helped) = Some (bs "due") ∧ values_shown user1 (snd helped) = Some (bs "uno").
Proof. vm_compute. repeat split. Qed.

(** After its retention it is aborted and its documents are deleted. *)
Definition later_world : World := {| log := log locked_world; now := now locked_world + 4000 * 86400 * second; offers := offers locked_world |}.
Definition plan_object (w : World) : option (gostring * gostring) := object_at (log w) (match TransitionPlanKey "t1" with Ok k => key_value k | Err _ => [] end).
Definition run_collect := resolveAllTransitions009 8 4 4 later_world.
Definition run_blind_collect := resolveAllTransitions009 8 4 4 {| reachable := later_world |}.

(** A run in which collecting an expired transition treats heads that it cannot
    read as heads without a lock: with the heads unavailable it succeeds and
    deletes the plan while the participants are locked, after which a read of the
    first record reports that nothing is found; with the heads available it
    aborts the transition and the record can be read. *)
Example blind_collection_strands_locks :
  fst run_blind_collect = Ok tt ∧ plan_object (reachable (snd run_blind_collect)) = None ∧
  error_kind (fst (EngineState.Get 8 4 user1 (reachable (snd run_blind_collect)))) = Some ErrorNotFound ∧
  values_shown user1 (reachable (snd run_blind_collect)) = Some (bs "one") ∧
  fst run_collect = Ok tt ∧ data_of (fst (EngineState.Get 8 4 user1 (snd run_collect))) = Some (bs "one").
Proof. vm_compute. repeat split. Qed.

(** ** Witnesses *)

Lemma first_all_ok : all_ok first_world.
Proof. intros r. apply empty_world_ok. Qed.

Abbreviation world_rivals_all := (λ r, world_rivals r).

(** A run and its parts, never evaluated as a whole. *)
Lemma pair_eq {A S} (run : res A * S) : run = (fst run, snd run).
Proof. apply surjective_pairing. Qed.

Lemma run_value {A} (d : A) (x : res A) : is_Ok x = true → x = Ok (ok_value d x).
Proof. by destruct x. Qed.

(** The write of a record, without conditions on digests. *)
Definition wrote (w : single_write) (version : gostring) (b b' : World) : Prop :=
  ∃ r id, stateDomainReferenceForKey (State.Change_Key (write_change w)) = Ok r ∧
    (notes r b' id ∨ ∃ b1 b2 a a', at_head r b1 (Some a) ∧ at_head r b2 (Some a') ∧ revision a' = revision a + 1 ∧
       records_changed [write_change w] [{| State.ChangeResult_Key := State.Change_Key (write_change w); State.ChangeResult_Version := version |}] (values a) (values a')).


Lemma users_all_ok : all_ok users_world.
Proof.
  unfold users_world, run_user2. apply write_all_ok; [exact world_rivals_all|]. unfold run_user1. apply write_all_ok; [exact world_rivals_all|].
  exact first_all_ok.
Qed.

Abbreviation run_read := (EngineState.Get 8 4 user1 users_world).

Lemma engine_get_correct_witness :
  data_of (fst run_read) = Some (bs "one") ∧ (∃ a, at_head (ref_of user1) (snd run_read) a) ∧ (∃ tr, happen users_world tr (snd run_read)) ∧
  ∃ r b1 v, fst run_read = Ok v ∧ stateDomainReferenceForKey user1 = Ok r ∧ obeys users_world b1 ∧ served_at r b1 (λ m, shows_value m user1 v).
Proof.
  split; [vm_compute; reflexivity|]. assert (collision_free (snd run_read)) as Hc by (apply free_check_sound; vm_compute; reflexivity).
  destruct (engine_get_correct 8 4 world_rivals_all user1 users_world (snd run_read) (fst run_read) users_all_ok) as (Hw & K & Hv).
  - exact (pair_eq run_read).
  - split; [apply (head_settled _ _ (Hw (ref_of user1))); vm_compute; reflexivity|]. split.
    + destruct (acts_happen _ _ _ K Hc) as (tr & Hh & _). exists tr. exact Hh.
    + assert (is_Ok (fst run_read) = true) as Hok by (vm_compute; reflexivity). destruct (fst run_read) as [v|]; [|discriminate Hok].
      destruct (Hv v eq_refl) as (r & b1 & Hr & Hb & _ & Hs). exists r, b1, v. split; [reflexivity|]. split; [exact Hr|]. split; [exact Hb|exact (Hs Hc)].
Defined.

Definition theme1 : State.Key := key_of State.NamespacePreferences [bs "u1"].
Definition create (key : State.Key) (data : gostring) : State.Change :=
  {| State.Change_Key := key; State.Change_Requirement := State.RequirementAbsent; State.Change_ExpectedVersion := [];
     State.Change_Delete := false; State.Change_Data := data |}.
Definition local_mutation : State.Mutation :=
  {| State.Mutation_ID := "m1"; State.Mutation_RetainUntil := zero_time;
     State.Mutation_Changes := [swap user1 (ok_value [] (fst run_user1)) "eins"; create theme1 "dark"]; State.Mutation_Result := "ok" |}.
Abbreviation run_mutate := (EngineState.Mutate 8 4 local_mutation users_world).

Definition no_outcome : State.MutationOutcome :=
  {| State.Outcome_ID := []; State.Outcome_Changes := []; State.Outcome_Result := []; State.Outcome_Replayed := true |}.


Lemma mutated_all_ok : all_ok (snd run_mutate).
Proof.
  destruct (mutate_records 8 4 world_rivals_all local_mutation users_world (fst run_mutate) (snd run_mutate) users_all_ok (pair_eq run_mutate)) as [K _].
  exact (follows_ok world_rivals_all _ _ _ K users_all_ok).
Qed.

Abbreviation run_many := (GetMany 8 4 [user1; theme1] (snd run_mutate)).

Lemma multi_read_consistent_witness :
  map State.Value_Data (ok_value [] (fst run_many)) = [bs "eins"; bs "dark"] ∧ (∃ tr, happen (snd run_mutate) tr (snd run_many)) ∧
  ∃ r b1, obeys (snd run_mutate) b1 ∧ served_at r b1 (λ m, Forall2 (shows_value m) [user1; theme1] (ok_value [] (fst run_many))).
Proof.
  split; [vm_compute; reflexivity|]. assert (collision_free (snd run_many)) as Hc by (apply free_check_sound; vm_compute; reflexivity).
  destruct (multi_read_consistent 8 4 world_rivals_all [user1; theme1] (snd run_mutate) (snd run_many) (fst run_many) mutated_all_ok) as (_ & K & Hv).
  - exact (pair_eq run_many).
  - split; [destruct (acts_happen _ _ _ K Hc) as (tr & Hh & _); exists tr; exact Hh|].
    destruct (Hv (ok_value [] (fst run_many))) as (r & b1 & _ & Hb & _ & Hs); [apply run_value; vm_compute; reflexivity|].
    exists r, b1. split; [exact Hb|exact (Hs Hc)].
Defined.

Abbreviation run_transact := (Transact 8 4 transaction users_world).

(** The records of the transaction are in two domains. *)
Lemma two_domains n fp r :
  State.NormalizeMutation transaction = Ok (n, fp) → Forall (λ c, stateDomainReferenceForKey (State.Change_Key c) = Ok r) (State.Mutation_Changes n) → False.
Proof.
  intros E Hall. assert (map (λ c, stateDomainReferenceForKey (State.Change_Key c)) (State.Mutation_Changes n) = [Ok (ref_of user1); Ok (ref_of user2)]) as Em.
  { apply (f_equal (λ x, match x with Ok (n, _) => map (λ c, stateDomainReferenceForKey (State.Change_Key c)) (State.Mutation_Changes n) | Err _ => [] end)) in E.
    rewrite <-E. vm_compute. reflexivity. }
  apply (proj2 (List.Forall_map (λ c, stateDomainReferenceForKey (State.Change_Key c)) (λ x, x = Ok r) _)) in Hall. rewrite Em in Hall.
  apply list.Forall_cons in Hall as [E1 Hall]. apply list.Forall_cons in Hall as [E2 _]. rewrite <-E2 in E1. revert E1. vm_compute. discriminate.
Qed.


(** The transition that was left locked. *)
Lemma planned_all_ok : all_ok planned_world.
Proof. exact (obeys_ok world_rivals_all _ _ (create_plan_ok plan users_world _ _ (pair_eq (createOrReadTransitionPlan009 plan users_world))) users_all_ok). Qed.

Lemma locked_all_ok : all_ok locked_world.
Proof.
  destruct (prepare_all_ok 8 world_rivals_all (helpTransition009 8 4) (help_ok 8 world_rivals_all 4) plan (Plan_Participants plan) planned_world
              (fst run_prepare) (snd run_prepare) planned_all_ok (pair_eq run_prepare)) as [K _].
  exact (obeys_ok world_rivals_all _ _ K planned_all_ok).
Qed.

Abbreviation run_execute := (executeTransition009 8 4 plan locked_world).


Abbreviation run_resolve := (resolveStateTransition009 8 4 (ref_of user1) locked_world).

Lemma resolve_frees_domain_witness :
  fst run_resolve = Ok tt ∧ (∃ tr, happen locked_world tr (snd run_resolve)) ∧
  ∃ b1 a, obeys locked_world b1 ∧ obeys b1 (snd run_resolve) ∧ at_head (ref_of user1) b1 a ∧ idle a.
Proof.
  assert (collision_free (snd run_resolve)) as Hc by (apply free_check_sound; vm_compute; reflexivity).
  assert (fst run_resolve = Ok tt) as Hok by (vm_compute; reflexivity). split; [exact Hok|].
  destruct (resolve_frees_domain 8 4 world_rivals_all (ref_of user1) locked_world (snd run_resolve) (fst run_resolve) locked_all_ok) as (_ & K & Hs).
  - exact (pair_eq run_resolve).
  - split; [destruct (acts_happen _ _ _ K Hc) as (tr & Hh & _); exists tr; exact Hh|]. exact (Hs tt Hok Hc).
Defined.

Abbreviation run_all := (resolveAllTransitions009 8 4 4 locked_world).


(** ** Listings *)

Module Listings.
Import EngineList ListTheory.

Definition prefix_of (ns : State.Namespace) (parts : list gostring) : State.Prefix :=
  match State.NewPrefix ns parts with Ok p => p | Err _ => {| State.prefix_value := [] |} end.
Definition sessions1 : State.Prefix := prefix_of State.NamespaceSessions [bs "u1"; bs "s"].
Definition all_users : State.Prefix := prefix_of State.NamespaceUsers [].
Definition session_of (s : gostring) : State.Key := key_of State.NamespaceSessions [bs "u1"; bs "s"; s].

Definition written (key : State.Key) (data : gostring) (w : World) : World := snd (write_call 8 4 (WriteCreate key data) w).
Definition sessions_world : World := written (session_of "d") "D" (written (session_of "b") "B" (written (session_of "a") "A" users_world)).

Lemma sessions_all_ok : all_ok sessions_world.
Proof. do 3 (apply write_all_ok; [exact world_rivals_all|]). exact users_all_ok. Qed.

Abbreviation ttl := (60 * second).
Abbreviation run_sessions := (list_pages 8 4 ttl 2 sessions1 2 [] sessions_world).
Abbreviation run_users := (list_pages 8 4 ttl 2 all_users 1 [] sessions_world).

Definition shown_data (items : list State.Item) : list gostring := map (λ i, State.Value_Data (State.Item_Value i)) items.
Definition listed_data (x : res (list State.Item * gostring)) : option (list gostring * bool) :=
  match x with Ok (items, cursor) => Some (shown_data items, bool_decide (cursor = [])) | Err _ => None end.
Definition pages_or_none : list State.Item * gostring := ([], []).

(** A record that is written between two pages is not listed, and a listing that
    begins later has it. *)
Definition page1 := EngineList.List 8 4 ttl sessions1 {| State.PageRequest_Limit := 2; State.PageRequest_Cursor := [] |} sessions_world.
Definition no_page : State.Page := {| State.Page_Items := []; State.Page_NextCursor := [] |}.
Definition page2 := EngineList.List 8 4 ttl sessions1
  {| State.PageRequest_Limit := 2; State.PageRequest_Cursor := State.Page_NextCursor (ok_value no_page (fst page1)) |} (written (session_of "c") "C" (snd page1)).

Example listing_resumes_snapshot :
  (λ p, shown_data (State.Page_Items p)) <$> [ok_value no_page (fst page1); ok_value no_page (fst page2)] = [[bs "A"; bs "B"]; [bs "D"]] ∧
  listed_data (fst (list_pages 8 4 ttl 2 sessions1 2 [] (snd page2))) = Some ([bs "A"; bs "B"; bs "C"; bs "D"], true).
Proof. vm_compute. repeat split. Qed.

(** A cursor is refused for another page size, and after its time. *)
Example listing_cursor_scope :
  let cursor := State.Page_NextCursor (ok_value no_page (fst page1)) in
  error_kind (fst (EngineList.List 8 4 ttl sessions1 {| State.PageRequest_Limit := 1; State.PageRequest_Cursor := cursor |} (snd page1))) = Some ErrorInvalid ∧
  error_kind (fst (EngineList.List 8 4 ttl sessions1 {| State.PageRequest_Limit := 2; State.PageRequest_Cursor := cursor |}
    {| log := log (snd page1); now := now (snd page1) + ttl; offers := offers (snd page1) |})) = Some ErrorInvalid.
Proof. vm_compute. repeat split. Qed.
End Listings.

Lemma listing_is_snapshot_witness :
  Listings.listed_data (fst (Listings.run_sessions)) = Some ([bs "A"; bs "B"; bs "D"], true) ∧
  ∃ b1 m, obeys Listings.sessions_world b1 ∧ ListTheory.listed_at (ref_of user1) b1 m ∧
    ListTheory.chunk 4 (StoreList.listing (State.prefix_value Listings.sessions1) [] (clone_entry <$> m))
      (fst (ok_value Listings.pages_or_none (fst (Listings.run_sessions)))) (snd (ok_value Listings.pages_or_none (fst (Listings.run_sessions)))).
Proof.
  split; [vm_compute; reflexivity|].
  destruct (listing_is_snapshot 8 4 (60 * second) world_rivals_all State.NamespaceSessions [bs "u1"; bs "s"] Listings.sessions1 2 1 (ref_of user1)
    Listings.sessions_world (snd (Listings.run_sessions)) (fst (ok_value Listings.pages_or_none (fst (Listings.run_sessions))))
    (snd (ok_value Listings.pages_or_none (fst (Listings.run_sessions))))) as (_ & _ & b1 & K1 & _ & Hx).
  - vm_compute. reflexivity.
  - lia.
  - vm_compute. reflexivity.
  - exact Listings.sessions_all_ok.
  - vm_compute. reflexivity.
  - destruct Hx as (m & Hm & Hch); [apply free_check_sound; vm_compute; reflexivity|]. exists b1, m. split; [exact K1|]. split; [exact Hm|].
    apply Hch. apply documents_check_sound. vm_compute. reflexivity.
Defined.

Lemma composite_listing_witness :
  Listings.listed_data (fst (Listings.run_users)) = Some ([bs "one"; bs "two"], true) ∧
  ∃ b0 b1 entries es, obeys Listings.sessions_world b0 ∧ ListTheory.catalogued b0 b1 entries ∧
    ListTheory.merged (State.prefix_value Listings.all_users) b0 b1 entries es ∧
    ListTheory.chunk 2 (clone_entry <$> es)
      (fst (ok_value Listings.pages_or_none (fst (Listings.run_users)))) (snd (ok_value Listings.pages_or_none (fst (Listings.run_users)))).
Proof.
  split; [vm_compute; reflexivity|].
  destruct (composite_listing 8 4 (60 * second) world_rivals_all State.NamespaceUsers [] Listings.all_users 1 1
    (match stateDomainReferenceForPrefix Listings.all_users with Ok (r, _) => r | Err _ => ref_of user1 end)
    Listings.sessions_world (snd (Listings.run_users)) (fst (ok_value Listings.pages_or_none (fst (Listings.run_users))))
    (snd (ok_value Listings.pages_or_none (fst (Listings.run_users))))) as (_ & _ & b0 & b1 & entries & K0 & _ & _ & Hcat & Hx).
  - vm_compute. reflexivity.
  - lia.
  - vm_compute. reflexivity.
  - exact Listings.sessions_all_ok.
  - vm_compute. reflexivity.
  - destruct Hx as (es & Hm & Hch); [apply free_check_sound; vm_compute; reflexivity|]. exists b0, b1, entries, es.
    split; [exact K0|]. split; [exact Hcat|]. split; [exact Hm|]. apply Hch. apply documents_check_sound. vm_compute. reflexivity.
Defined.

(** ** Keys, values, versions and sizes *)

Definition sessions_of_u1 : State.Prefix := match State.NewPrefix State.NamespaceSessions [bs "u1"; bs "s"] with Ok p => p | Err _ => {| State.prefix_value := [] |} end.
Definition session_key : State.Key := key_of State.NamespaceSessions [bs "u1"; bs "s"; bs "token"].

Lemma prefix_route_complete_witness : stateDomainReferenceForKey session_key = Ok (ref_of user1).
Proof.
  apply (prefix_route_complete State.NamespaceSessions State.NamespaceSessions [bs "u1"; bs "s"] [bs "u1"; bs "s"; bs "token"] sessions_of_u1 session_key (ref_of user1)).
  - vm_compute. reflexivity.
  - vm_compute. reflexivity.
  - vm_compute. reflexivity.
  - vm_compute. reflexivity.
Defined.

Lemma state_value_roundtrip_witness :
  decodeStateValue009 user1 (default [] (stored_value user1 "one")) = Ok (bs "one") ∧ parseExistingStateKey (State.key_value user1) = Ok user1.
Proof.
  destruct (state_value_roundtrip State.NamespaceUsers [bs "u1"] user1 "one" (default [] (stored_value user1 "one"))) as (Hd & _ & Hp).
  - vm_compute. reflexivity.
  - vm_compute. reflexivity.
  - split; [exact Hd|exact Hp].
Defined.

Definition large : gostring := replicate (Z.to_nat 49152) "x"%char.
Definition large_transaction : State.Mutation :=
  {| State.Mutation_ID := "t2"; State.Mutation_RetainUntil := zero_time;
     State.Mutation_Changes := [create user1 large; create user2 "two"]; State.Mutation_Result := [] |}.
Definition large_normal : State.Mutation * gostring := ok_value (large_transaction, []) (State.NormalizeMutation large_transaction).
Definition large_change : State.Change := create user1 large.

#[local] Existing Instance State.Key_eq_dec.
#[local] Instance change_eq_dec : EqDecision State.Change.
Proof. solve_decision. Defined.

Lemma ok_both {A C} (d : A * C) (x : res (A * C)) : is_Ok x = true → x = Ok (fst (ok_value d x), snd (ok_value d x)).
Proof. destruct x as [[]|]; [reflexivity|discriminate]. Qed.

Lemma ok_same {A} (d : A) (x : res A) : is_Ok x = true → x = Ok (ok_value d x).
Proof. destruct x; [reflexivity|discriminate]. Qed.

Lemma transact_refuses_large_records_witness : ∃ e, Transact 8 4 large_transaction first_world = (Err e, first_world).
Proof.
  apply (transact_refuses_large_records 8 4 large_transaction (fst large_normal) (snd large_normal)
           (ok_value [] (change_references (State.Mutation_Changes (fst large_normal)))) large_change first_world).
  - apply ok_both. vm_compute. reflexivity.
  - apply ok_same. vm_compute. reflexivity.
  - vm_compute. discriminate.
  - apply (list_elem_of_lookup_2 _ 0%nat), (bool_decide_unpack _). vm_compute. exact I.
  - reflexivity.
  - apply Z.leb_le. vm_compute. reflexivity.
Defined.

(** The participant of the first user, and the version of its lock. *)
Definition no_participant : TransitionParticipant009 := {| Participant_Kind := []; Participant_DomainID := []; Participant_Changes := [] |}.
Definition participant1 : TransitionParticipant009 := default no_participant (list.head (Plan_Participants plan)).
Definition release_version : gostring := "lock-version".
Definition no_mutation : consistencyDomainMutation * gostring :=
  ({| ID := []; TransitionID := []; RetainUntil := 0; Changes := []; Result := None; ExpectedRevision := None |}, []).
Definition final_normal : consistencyDomainMutation * gostring :=
  ok_value no_mutation (normalizeConsistencyDomainMutation (with_retention (finalize_mutation plan participant1 true release_version) (Plan_RetainUntil plan))).
Definition no_change : consistencyDomainChange := {| Key := []; Require := 0; ExpectedVersion := []; Delete := true; Value := None |}.
Definition final_change : consistencyDomainChange := default no_change (Changes (fst final_normal) !! 1%nat).
Definition reported_versions : gmap gostring gostring := ok_value ∅ (participant_versions plan participant1 ∅).

Lemma transact_reports_other_versions_witness :
  Key final_change = State.key_value user1 ∧
  ∃ stored reported, Change_LogicalVersion (recorded_change (ID (fst final_normal)) (snd final_normal) final_change) = Digest stored ∧
    reported_versions !! Key final_change = Some (Digest reported) ∧ stored ≠ reported ∧
    Change_LogicalVersion (recorded_change (ID (fst final_normal)) (snd final_normal) final_change) ≠ Digest reported.
Proof.
  split; [vm_compute; reflexivity|].
  destruct (transact_reports_other_versions plan participant1 release_version (snd final_normal) (fst final_normal) reported_versions final_change)
    as (l1 & l2 & _ & _ & _ & Hs & Hr & Hne).
  - discriminate.
  - unfold reported_versions. apply ok_same. vm_compute. reflexivity.
  - exists (Plan_RetainUntil plan). split; [|intros _; unfold finalize_mutation; cbn [RetainUntil]; reflexivity].
    unfold final_normal. apply ok_both. vm_compute. reflexivity.
  - apply (list_elem_of_lookup_2 _ 1%nat). vm_compute. reflexivity.
  - vm_compute. reflexivity.
  - assert (reported_versions !! Key final_change ≠ Some (Change_LogicalVersion (recorded_change (ID (fst final_normal)) (snd final_normal) final_change))) as Hd
      by (vm_compute; discriminate).
    eexists _, _. split; [exact Hs|]. split; [exact Hr|]. split.
    + intros E. apply Hd. rewrite Hr, Hs. do 2 f_equal. symmetry. exact E.
    + intros E. apply Hd. rewrite Hr. f_equal. symmetry. exact E.
Defined.
End EngineExamples.
